(* ===== verification/_CoqProject ===== *)
-Q . S2P
Prelude.v
Extern.v
Buffer.v
Varint.v
Arena.v
Wire.v
Pow.v
Header.v
Merkle.v
Tx.v
Block.v
Messages.v
Payload.v
Stream.v
Loops.v
Chain.v
ChainMan.v
Opcodes.v
Script.v
Weight.v
Address.v
Analyze.v
Keys.v
Store.v
Queries.v
Float.v
Clock.v
Schedule.v
Process.v
Keepup.v
Download.v
Pipeline.v
Miners.v
FrontPage.v
Refresh.v
Config.v
ArenaPool.v
OnlineList.v
Peers.v
Text.v
Seeds.v
Crawler.v
Visit.v
Sqlite.v
Restart.v
Startup.v
Follow.v
Api.v
Json.v
Serve.v
