(* ===== verification/Prelude.v ===== *)
(** bitlens: a verification of the block explorer's core.

    The program ([src/src/], a Rust crate) follows the Bitcoin network and serves what it learns over
    HTTP. This library translates its logic into Gallina and proves it correct, or proves what it does
    instead. Every definition bears the name of the function it translates, and stands next to the
    functions of the same Rust file. [Prelude.v], this file, holds what all share: bytes and slices,
    machine integers, outcomes, loops over lists, and the tactics for them.

    * The program and its model

    - Messages. [packets/] reads and writes the messages of the network, into memory of [util/arena.rs].
      [Extern.v] (interfaces to the packages), [Buffer.v], [Varint.v], [Arena.v], [ArenaPool.v] (the pool of
      arenas, as a step relation), [Wire.v] (the classes [Serializable], [DeserializableOwned],
      [DeserializableBorrowed], after the traits, with the law [Wire] that their instances obey),
      [Pow.v] and [Header.v] (targets, work, headers), [Merkle.v], [Tx.v], [Block.v], [Messages.v] and
      [Payload.v] (the dispatch over all commands and the framing of packets), [Stream.v] (a socket that delivers
      them in pieces, read by [connect/connection.rs] through [util/speedtracker.rs]).
    - The chain. [chainman/chain.rs] and [chainman/mod.rs] keep the tree of headers. [Loops.v] has the loops
      with fuel, [Chain.v] the tree with its walks and queries, [ChainMan.v] the application of headers,
      forks, the download marks and the header sync, [Startup.v] the driver of the sync ([headersync.rs]) and the
      start of it all ([start], the flags and limits of the block sync, the environment).
    - Analysis. [tx/]: [Opcodes.v], [Script.v] (scripts and signature operations), [Weight.v],
      [Address.v], [Analyze.v] (what is stored of a transaction).
    - Databases. [db/]: [Keys.v] (the order of the keys), [Store.v] (what is written to RocksDB),
      [Queries.v] (what is read), [Sqlite.v] (the tables, the statements, the queues that batch the
      writes and the mutex they share), [Restart.v] (what is read back at the start).
    - Block sync. [chainman/blocksync.rs]: [Float.v] and [Clock.v], [Schedule.v] (the master that hands out
      jobs and puts blocks in order), [Download.v] (the workers, and the master with all of them),
      [Process.v] (the analysis of a block), [Pipeline.v] (batches whose tasks run while the batch before is
      written).
    - Keeping up. [chainman/keepup.rs]: [Keepup.v] (new headers and blocks), [Follow.v] (the two tasks that
      call it). [Miners.v] ([miners/mod.rs]), [Config.v] ([miners/config.rs], the watcher of its file) and [FrontPage.v] ([types/frontpagedata.rs], [types/stats.rs] and their
      part of [chainman/mod.rs]) are what is kept up to date, and [Refresh.v] how it is after a block.
    - Peers. [util/online_list.rs], [addrman/], [crawler/], [connect/], [main.rs]: [OnlineList.v], [Peers.v],
      [Crawler.v] (packets and their answers), [Visit.v] (the loop of a conversation with a peer), [Text.v] (the text of
      addresses, of [std::net] and of [types/addressportnetwork.rs]), [Seeds.v] (the DNS seeds).
    - HTTP. [api/]: [Api.v], the handlers from their parameters to the response, [Json.v], what [serde] makes of the
      responses ([util/serialize_*.rs] and the derived serializers), and [Serve.v], the routes, the text of their
      parameters, the peers, the socket of the front page and the page of [metrics/].

    The components call each other as in the program: [Crawler.v] answers packets of [Payload.v] from
    the [Chain] and the databases; a header goes through [ChainMan.validate_and_apply_header_inner] in all
    three modes; a block goes from [Block.v] through [Process.v], [Analyze.v] and [Store.v] to the databases of
    [Queries.v], which [FrontPage.v] and [Api.v] read, and from there through [Json.v] to the replies of [Serve.v].

    * How the code is translated

    - A function that may fail is an [outcome]: [Ok], [Err] (of [anyhow::Result]), [Panic] (which unwinds) and
      [Ub] (the precondition of an [unsafe] operation is violated). A [loop] without an evident bound is a
      [comp]: it is run with fuel, and [Running] is no result. The theorems say how much fuel is enough: for walks
      along the chain, the number of known headers ([Chain.enough]); elsewhere the length of the
      input, with which the definitions start. Wherever a theorem says of a loop what it gives, it says that
      it comes to an end.
    - Integers are [Z]. Arithmetic is that of the release build: [+!], [-!] and [wrap64], [wrap32] wrap
      around. Bounds under which nothing wraps are hypotheses that say so ([ChainMan.acceptable],
      [Chain.chain_fits] and the like). [f64] is the standard library's specification of IEEE 754.
    - Statics behind locks are records that the operations take and return. Tasks that run side by side
      are step relations, with one step for each point at which another task may be seen ([ArenaPool],
      [Peers], [Pipeline], [Schedule], [Download], [Follow], [Sqlite]) or run over a list of events ([Stream], [Startup],
      [Visit], [Config]); the theorems quantify over all
      interleavings. What is sent to channels and broadcast is returned as a list or an option.
    - The borrowed and owned forms of a message are one type with two readers; the reader of the borrowed
      form also returns the arena it filled.

    * Interfaces

    What the code relies on of packages is a class, with the documented behaviour as its laws, and a toy
    instance that the witnesses compute with: [BufMut], [Sha256], [Ripemd160], [U256Lib] (primitive-types),
    [Layout] and [UnstableSort] (the compiler and [std]), [RocksDb] (files of sorted keys, ingested
    at once), [Rusqlite] (which integers can be stored), [RegexLib], [AddressEncoders] and [AddressDecoders]
    (hex, base58, bech32). No law says that a hash has no collisions: theorems that need
    distinct hashes have it as a hypothesis on the data at hand.

    * What is proved

    The properties carry their number (C1 and so on) in their comments.
    - Round trips: headers, transactions, blocks with their merkle root, streams of packets of every kind, the
      stored analyses, the pages of a block and of a transaction, the text of peers, and a restart of the program.
    - The chain: every sequence of headers keeps it well formed; the outcome of applying a header in every
      case; the index of the main chain; the difficulty, with the wrap of its timespan; the start of the program,
      whose header sync ends with the answers of one good peer, with a chain that is indexed and the blocks to
      download, and what is left of its flags if the front page panics.
    - Refinements: merkle roots, queries over sorted keys, the database as a sequence of writes, the
      pipeline against the sequential analysis of the chain, the online list against a queue, the answers to a peer against its requests.
    - Concurrency: the block download passes every block on once and in order and, as long as its writer takes
      them, ends only when it is done; the pool of arenas never loses count but for the arenas that are just
      being added or dropped; no peer is crawled twice; blocks are applied in the order in which their headers came;
      allocations in an arena are disjoint as long as no size of them wraps around.
    - Equivalences: miners and front page kept up to date against a recalculation, the cost of signature
      operations, the other addresses of a transaction.
    - Errors: requests that the server refuses, a block without transactions that ends the download, a writer that
      is gone, a file of miners that cannot be read, a watcher that fails, seeds that fail, the message that is
      written to a misaligned address, the key of a longer address among those of an address.
    What a theorem needs of its input is in its comment; where the code does something else without it (wraps,
    panics, undefined behaviour), the theorem or a lemma says what.
    Lemmas without a number carry these, or say more of a component ([ChainMan.fork_outcome],
    [Keepup.keepup_drops_block], [Sqlite.services_poison], [Sqlite.metrics_poison], [Schedule.tick_after_refusal],
    [Process.unaligned_output_ub], [Queries.batch_queried], [Api.shown_address_found]).

    * Not modelled

    - Input and output without logic of its own: the text of JSON (the replies are the values that [serde]
      serializes), the upgrade to a web socket and CORS, the registry of the Prometheus counters, logging, and the
      sequence in which [main] spawns the parts.
    - Sockets and timers: a connection is the list of its packets, or the bytes that it delivers at each poll; that
      a deadline passes is an event that may happen at any time.
    - The SQL engine and RocksDB beyond their interfaces; PRAGMAs and tuning.
    - YAML, regular expressions and the lookup of host names, which are parameters.
    - The tests ([tx/script_test.rs], [tx/size_test.rs], [packets/packet_test.rs]). *)
From stdpp Require Export base list list_numbers gmap strings.
From coqutil Require Export Byte Word.LittleEndianList.
From Stdlib Require Export ZArith Lia.

Open Scope Z_scope.

(** * Bytes and slices *)

Abbreviation byte := Init.Byte.byte.
Abbreviation bytes := (list byte).

#[global] Instance byte_eq_dec : EqDecision byte := Byte.byte_eq_dec.

#[global] Instance byte_inhabited : Inhabited byte := populate Byte.x00.

#[global] Instance byte_countable : Countable byte.
Proof.
  refine (inj_countable Byte.to_nat Byte.of_nat _).
  intros b. by destruct b.
Defined.

(** The length of a slice, as the [usize] the code sees. *)
Definition len {A} (l : list A) : Z := Z.of_nat (length l).

(** The size of the largest object Rust allows ([isize::MAX]): the length of
    every slice is at most that. *)
Definition isize_max : Z := 2 ^ 63 - 1.

Definition slice_ok (b : bytes) : Prop := len b <= isize_max.

(** * Outcomes of a computation

    [Ok] and [Err] are the two constructors of [anyhow::Result]; [Panic] is an
    unwinding panic (an [unwrap], [expect] or bounds check that fails, an
    explicit [panic!]); [Ub] is the violation of the precondition of an
    [unsafe] operation. *)

Inductive outcome (A : Type) : Type :=
| Ok (a : A)
| Err (e : string)
| Panic (msg : string)
| Ub.

Arguments Ok {A} a.
Arguments Err {A} e.
Arguments Panic {A} msg.
Arguments Ub {A}.

#[global] Instance outcome_ret : MRet outcome := @Ok.

#[global] Instance outcome_bind : MBind outcome := λ A B f m,
  match m with
  | Ok a => f a
  | Err e => Err e
  | Panic msg => Panic msg
  | Ub => Ub
  end.

(** [opt.ok_or(e)?] *)
Definition ok_or {A} (o : option A) (e : string) : outcome A :=
  match o with Some a => Ok a | None => Err e end.

(** [opt.unwrap()] and [opt.expect(msg)] *)
Definition expect {A} (o : option A) (msg : string) : outcome A :=
  match o with Some a => Ok a | None => Panic msg end.

(** [result.unwrap()] and [result.expect(msg)]: an error becomes a panic. *)
Definition unwrap {A} (m : outcome A) (msg : string) : outcome A :=
  match m with Err _ => Panic msg | _ => m end.

Definition is_ok {A} (m : outcome A) : bool :=
  match m with Ok _ => true | _ => false end.

(** * Machine integers

    Values of the unsigned types are integers in their range; the release
    profile of the crate ([Cargo.toml]) leaves overflow checks off, so their
    operators wrap around. *)

Definition in_u8 (z : Z) : Prop := 0 <= z < 2 ^ 8.
Definition in_u16 (z : Z) : Prop := 0 <= z < 2 ^ 16.
Definition in_u32 (z : Z) : Prop := 0 <= z < 2 ^ 32.
Definition in_u64 (z : Z) : Prop := 0 <= z < 2 ^ 64.
Definition in_i64 (z : Z) : Prop := - 2 ^ 63 <= z < 2 ^ 63.

Definition wrap8 (z : Z) : Z := z mod 2 ^ 8.
Definition wrap16 (z : Z) : Z := z mod 2 ^ 16.
Definition wrap32 (z : Z) : Z := z mod 2 ^ 32.
Definition wrap64 (z : Z) : Z := z mod 2 ^ 64.

(** [z as i64] for [z] a [u64], and the wrap-around of the [i64] operators. *)
Definition as_i64 (z : Z) : Z :=
  let w := wrap64 z in if w <? 2 ^ 63 then w else w - 2 ^ 64.

Declare Scope rust_scope.
Delimit Scope rust_scope with rust.

(** The operators of [u64] and [usize] (64 bits). *)
Notation "a +! b" := (wrap64 (a + b)) (at level 50, left associativity) : rust_scope.
Notation "a -! b" := (wrap64 (a - b)) (at level 50, left associativity) : rust_scope.
Notation "a *! b" := (wrap64 (a * b)) (at level 40, left associativity) : rust_scope.

Open Scope rust_scope.

(** * Slices: [get], indexing, and fixed-width reads *)

(** [self.get(i..j)] *)
Definition slice_get (b : bytes) (i j : Z) : option bytes :=
  if (i <=? j) && (j <=? len b)
  then Some (take (Z.to_nat (j - i)) (drop (Z.to_nat i) b))
  else None.

(** [self.get(i..)] *)
Definition slice_from (b : bytes) (i : Z) : option bytes :=
  if i <=? len b then Some (drop (Z.to_nat i) b) else None.

(** [&self[i..j]] *)
Definition slice_idx (b : bytes) (i j : Z) : outcome bytes :=
  expect (slice_get b i j) "slice index out of range".

(** [self[i]] *)
Definition byte_at (b : bytes) (i : Z) : option byte :=
  if (0 <=? i) && (i <? len b) then b !! Z.to_nat i else None.

(** A byte as the [u8] the code compares. *)
Abbreviation u8 := byte.unsigned (only parsing).

(** [uN::to_le_bytes], [uN::to_be_bytes] and their inverses, for [n] bytes. *)
Definition to_le (n : nat) (v : Z) : bytes := le_split n v.
Definition to_be (n : nat) (v : Z) : bytes := rev (le_split n v).
Definition from_le (b : bytes) : Z := le_combine b.
Definition from_be (b : bytes) : Z := le_combine (rev b).

(** * Loops

    [for _ in 0..count] with a 64-bit [count]: the recursion is on the binary
    representation of the count, so that the loop evaluates (a body that fails
    stops it) however large the count is. *)

Fixpoint iter_pos {S} (f : S → outcome S) (p : positive) (s : S) : outcome S :=
  match p with
  | xH => f s
  | xO q => s1 ← iter_pos f q s; iter_pos f q s1
  | xI q => s0 ← f s; s1 ← iter_pos f q s0; iter_pos f q s1
  end.

Definition repeat_for {S} (count : Z) (f : S → outcome S) (s : S) : outcome S :=
  match count with
  | Zpos p => iter_pos f p s
  | _ => Ok s
  end.

Fixpoint iter_nat {S} (f : S → outcome S) (n : nat) (s : S) : outcome S :=
  match n with
  | O => Ok s
  | Datatypes.S m => s' ← f s; iter_nat f m s'
  end.

(** [for x in l] with a body that may fail. *)
Fixpoint for_each {A S} (f : S → A → outcome S) (l : list A) (s : S) : outcome S :=
  match l with
  | [] => Ok s
  | x :: l' => s' ← f s x; for_each f l' s'
  end.

(** * Hashes *)

Abbreviation hash := (list byte) (only parsing).

Definition hash_ok (h : hash) : Prop := length h = 32%nat.

(** [EMPTY_HASH] and [[0u8; 32]] *)
Definition EMPTY_HASH : hash := replicate 32 Byte.x00.

(** A byte string literal, and one that is padded with NULs to the twelve bytes
    of a command. *)
Definition bstr (s : string) : bytes := String.list_byte_of_string s.
Definition command_bytes (s : string) : bytes := take 12 (bstr s ++ replicate 12 Byte.x00).

(** * Lexicographic order on byte slices ([<[u8] as Ord>::cmp]) *)

Fixpoint bytes_cmp (a b : bytes) : comparison :=
  match a, b with
  | [], [] => Eq
  | [], _ :: _ => Lt
  | _ :: _, [] => Gt
  | x :: a', y :: b' =>
      match Z.compare (u8 x) (u8 y) with
      | Eq => bytes_cmp a' b'
      | c => c
      end
  end.

Definition bytes_leb (a b : bytes) : bool :=
  match bytes_cmp a b with Gt => false | _ => true end.

(** * Lemmas on outcomes *)

Lemma bind_Ok {A B} (f : A → outcome B) (m : outcome A) b :
  m ≫= f = Ok b ↔ ∃ a, m = Ok a ∧ f a = Ok b.
Proof.
  split; [|by intros (a & -> & H)]. by destruct m; intros H; [exists a|..].
Qed.

Lemma bind_assoc {A B C} (m : outcome A) (f : A → outcome B) (g : B → outcome C) :
  (m ≫= f) ≫= g = m ≫= (λ a, f a ≫= g).
Proof. by destruct m. Qed.

Lemma bind_ret {A} (m : outcome A) : m ≫= (λ a, Ok a) = m.
Proof. by destruct m. Qed.

Lemma bind_ext {A B} (m : outcome A) (f g : A → outcome B) :
  (∀ a, f a = g a) → m ≫= f = m ≫= g.
Proof. intros H. destruct m; simpl; auto. Qed.

(** Breaks [H : m ≫= f = Ok b] down into the steps that succeeded. *)
Ltac obind H :=
  let a := fresh "v" in
  let Ha := fresh "Hv" in
  apply bind_Ok in H as (a & Ha & H).

(** [safe m]: [m] neither panics nor has undefined behaviour. *)
Definition safe {A} (m : outcome A) : Prop :=
  match m with Ok _ | Err _ => True | Panic _ | Ub => False end.

Lemma safe_bind {A B} (m : outcome A) (f : A → outcome B) :
  safe m → (∀ a, m = Ok a → safe (f a)) → safe (m ≫= f).
Proof. destruct m; simpl; auto. Qed.

Lemma safe_Ok {A} (a : A) : safe (Ok a).
Proof. done. Qed.

Lemma safe_Err {A} e : safe (@Err A e).
Proof. done. Qed.

Lemma safe_ok_or {A} (o : option A) e : safe (ok_or o e).
Proof. by destruct o. Qed.

Create HintDb safe.
#[export] Hint Resolve safe_Ok safe_Err safe_ok_or : safe.

(** Goes through a handler step by step and shows each step [safe]. *)
Ltac safe_steps :=
  repeat first
    [ solve [eauto with safe]
    | apply safe_bind; [|intros ? ?]
    | case_match ].

Lemma iter_nat_safe {S} (P : S → Prop) (f : S → outcome S) n s :
  (∀ x, P x → safe (f x)) → (∀ x y, P x → f x = Ok y → P y) → P s → safe (iter_nat f n s).
Proof.
  intros Hs Hp. revert s. induction n as [|n IH]; simpl; intros s H; [done|].
  apply safe_bind; eauto.
Qed.

Lemma iter_nat_add {S} (f : S → outcome S) m n s :
  iter_nat f (m + n) s = s' ← iter_nat f m s; iter_nat f n s'.
Proof.
  revert s. induction m as [|m IH]; intros s; simpl; [done|].
  destruct (f s); simpl; auto.
Qed.

Lemma iter_pos_nat {S} (f : S → outcome S) p s :
  iter_pos f p s = iter_nat f (Pos.to_nat p) s.
Proof.
  revert s. induction p as [p IH|p IH|]; intros s; cbn [iter_pos].
  - replace (Pos.to_nat p~1) with (Datatypes.S (Pos.to_nat p + Pos.to_nat p)) by lia.
    simpl. destruct (f s) as [s0| | |]; simpl; [|done..].
    rewrite iter_nat_add, IH. destruct (iter_nat f _ s0); simpl; auto.
  - replace (Pos.to_nat p~0) with (Pos.to_nat p + Pos.to_nat p)%nat by lia.
    rewrite iter_nat_add, IH. destruct (iter_nat f _ s); simpl; auto.
  - change (Pos.to_nat 1) with 1%nat. simpl. by destruct (f s).
Qed.

Lemma repeat_for_nat {S} count (f : S → outcome S) s :
  repeat_for count f s = iter_nat f (Z.to_nat count) s.
Proof. destruct count; simpl; [done|apply iter_pos_nat|done]. Qed.

Lemma repeat_for_len {S A} (l : list A) (f : S → outcome S) s :
  repeat_for (len l) f s = iter_nat f (length l) s.
Proof. unfold len. by rewrite repeat_for_nat, Nat2Z.id. Qed.

Lemma repeat_for_safe {S} (P : S → Prop) count (f : S → outcome S) s :
  (∀ x, P x → safe (f x)) → (∀ x y, P x → f x = Ok y → P y) → P s →
  safe (repeat_for count f s).
Proof. rewrite repeat_for_nat. apply iter_nat_safe. Qed.

Lemma for_each_safe {A S} (P : S → Prop) (f : S → A → outcome S) l s :
  (∀ x s, x ∈ l → P s → safe (f s x)) → (∀ x s s', x ∈ l → P s → f s x = Ok s' → P s') →
  P s → safe (for_each f l s).
Proof.
  revert s. induction l as [|x l IH]; simpl; intros s Hs Hp H; [done|].
  apply safe_bind; [apply Hs; set_solver|]. intros s' Hf. apply IH; [set_solver..|].
  eapply Hp; [|exact H|exact Hf]. set_solver.
Qed.

(** A loop whose body preserves [P] whenever it succeeds ends, if it ends with
    a value, in a state that satisfies [P]. *)
Lemma repeat_for_inv {S} (P : S → Prop) count (f : S → outcome S) s s' :
  (∀ x y, P x → f x = Ok y → P y) →
  P s → repeat_for count f s = Ok s' → P s'.
Proof.
  intros Hf. rewrite repeat_for_nat. revert s.
  induction (Z.to_nat count) as [|n IH]; simpl; intros s Hs H; [naive_solver|].
  obind H. eauto.
Qed.

Lemma for_each_app {A S} (f : S → A → outcome S) l1 l2 s :
  for_each f (l1 ++ l2) s = s' ← for_each f l1 s; for_each f l2 s'.
Proof.
  revert s. induction l1 as [|x l1 IH]; intros s; simpl; [done|].
  destruct (f s x); simpl; auto.
Qed.

Lemma for_each_inv {A S} (P : S → Prop) (f : S → A → outcome S) l s s' :
  (∀ x s s', x ∈ l → P s → f s x = Ok s' → P s') →
  P s → for_each f l s = Ok s' → P s'.
Proof.
  revert s. induction l as [|x l IH]; simpl; intros s Hf Hs H; [naive_solver|].
  obind H. eapply IH; [|eapply Hf|]; eauto; set_solver.
Qed.

(** Induction on a list two items at a time. *)
Lemma list_pair_ind {A} (P : list A → Prop) :
  P [] → (∀ x, P [x]) → (∀ x y l, P l → P (x :: y :: l)) → ∀ l, P l.
Proof.
  intros H0 H1 H2 l. enough (P l ∧ ∀ x, P (x :: l)) by tauto.
  induction l as [|y l [IH1 IH2]]; eauto.
Qed.

(** * Lemmas on machine integers *)

Lemma wrap64_small z : in_u64 z → wrap64 z = z.
Proof. intros H. by apply Z.mod_small. Qed.

Lemma wrap64_range z : in_u64 (wrap64 z).
Proof. apply Z.mod_pos_bound. lia. Qed.

Lemma wrap64_wrap64 z : wrap64 (wrap64 z) = wrap64 z.
Proof. apply wrap64_small, wrap64_range. Qed.

Lemma wrap64_add_l a b : wrap64 (wrap64 a + b) = wrap64 (a + b).
Proof. apply Zplus_mod_idemp_l. Qed.

(** [mlia] proves goals of linear arithmetic with the machine ranges unfolded,
    after removing the wrap-around of the operations that do not overflow. *)
Ltac unfold_ranges :=
  unfold slice_ok, isize_max, in_u8, in_u16, in_u32, in_u64, in_i64, hash_ok in *.

Ltac mlia :=
  unfold_ranges;
  repeat match goal with
  | |- context [wrap64 ?z] => rewrite (wrap64_small z) by (unfold_ranges; unfold len in *; lia)
  end;
  unfold len in *; lia.

(** Removes the wrap-around of the operations of the goal that do not overflow. *)
Ltac unwrap :=
  repeat match goal with
  | |- context [wrap64 ?z] => rewrite (wrap64_small z) by mlia
  end.

Lemma len_nonneg {A} (l : list A) : 0 <= len l.
Proof. unfold len. lia. Qed.

Lemma len_nil {A} : len (@nil A) = 0.
Proof. done. Qed.

Lemma len_cons {A} (x : A) l : len (x :: l) = 1 + len l.
Proof. unfold len. simpl. lia. Qed.

Lemma len_map {A B} (f : A → B) l : len (map f l) = len l.
Proof. unfold len. by rewrite length_map. Qed.

Lemma len_app {A} (l1 l2 : list A) : len (l1 ++ l2) = len l1 + len l2.
Proof. unfold len. rewrite length_app. lia. Qed.

Lemma len_to_le n v : len (to_le n v) = Z.of_nat n.
Proof. unfold len, to_le. by rewrite length_le_split. Qed.

Lemma len_to_be n v : len (to_be n v) = Z.of_nat n.
Proof. unfold len, to_be. by rewrite length_rev, length_le_split. Qed.

Lemma len_hash (h : hash) : hash_ok h → len h = 32.
Proof. unfold hash_ok, len. lia. Qed.

Create Rewrite HintDb len.
#[export] Hint Rewrite @len_nil @len_cons @len_app @len_map len_to_le len_to_be : len.

(** [len_lia]: the lengths of encodings and appends are computed, the rest is
    linear arithmetic over the machine ranges. *)
Ltac len_lia := unfold slice_ok in *; autorewrite with len in *; rewrite ?len_hash in * by done; mlia.

(** * Lemmas on fixed-width encodings *)

Lemma from_le_to_le n v :
  0 <= v < 2 ^ (Z.of_nat n * 8) → from_le (to_le n v) = v.
Proof. intros H. unfold from_le, to_le. rewrite le_combine_split. by apply Z.mod_small. Qed.

Lemma from_be_to_be n v :
  0 <= v < 2 ^ (Z.of_nat n * 8) → from_be (to_be n v) = v.
Proof.
  intros H. unfold from_be, to_be. rewrite rev_involutive. by apply (from_le_to_le n).
Qed.

Lemma to_le_cons n v : to_le (Datatypes.S n) v = byte.of_Z v :: to_le n (Z.shiftr v 8).
Proof. done. Qed.

Lemma to_le_from_le n b : length b = n → to_le n (from_le b) = b.
Proof. intros <-. apply split_le_combine. Qed.

Lemma from_le_cons x b : from_le (x :: b) = u8 x + 2 ^ 8 * from_le b.
Proof.
  unfold from_le.
  change (le_combine (x :: b)) with (Z.lor (byte.unsigned x) (Z.shiftl (le_combine b) 8)).
  assert (Z.land (byte.unsigned x) (Z.shiftl (le_combine b) 8) = 0) as Hl; [|
    rewrite <- Z.lxor_lor, <- Z.add_nocarry_lxor, Z.shiftl_mul_pow2 by (done || lia); lia].
  apply Z.bits_inj'. intros i Hi. rewrite Z.land_spec, Z.bits_0, Z.shiftl_spec by done.
  destruct (Z.lt_ge_cases i 8).
  - rewrite (Z.testbit_neg_r _ (i - 8)) by lia. apply andb_false_r.
  - pose proof (byte.unsigned_range x). rewrite <- (Z.mod_small (byte.unsigned x) (2 ^ 8)) by lia.
    by rewrite Z.mod_pow2_bits_high by lia.
Qed.

Lemma from_le_range b : 0 <= from_le b < 2 ^ (8 * len b).
Proof. apply le_combine_bound. Qed.

Lemma from_be_range b : 0 <= from_be b < 2 ^ (8 * len b).
Proof. unfold from_be. pose proof (le_combine_bound (rev b)) as H. by rewrite length_rev in H. Qed.

Lemma u8_range (b : byte) : 0 <= u8 b < 2 ^ 8.
Proof. apply byte.unsigned_range. Qed.

(** * Lemmas on slices

    [tail_at b i t]: reading [b] from offset [i] sees [t]. *)

Definition tail_at (b : bytes) (i : Z) (t : bytes) : Prop :=
  0 <= i /\ i + len t = len b /\ drop (Z.to_nat i) b = t.

Lemma tail_at_0 b : tail_at b 0 b.
Proof. split_and!; [lia|len_lia|done]. Qed.

Lemma tail_at_app b i x t : tail_at b i (x ++ t) → tail_at b (i + len x) t.
Proof.
  intros (H0 & H1 & H2). rewrite len_app in H1. pose proof (len_nonneg x).
  split_and!; [lia..|].
  replace (Z.to_nat (i + len x)) with (Z.to_nat i + length x)%nat by (unfold len; lia).
  by rewrite <- drop_drop, H2, drop_app_length.
Qed.

Lemma tail_at_slice_ok b i t : tail_at b i t → slice_ok b → slice_ok t.
Proof. intros (H0 & H1 & _). unfold slice_ok. lia. Qed.

Lemma tail_at_len b i t : tail_at b i t → 0 <= i ∧ i + len t = len b.
Proof. by intros (? & ? & _). Qed.

Lemma tail_at_next b i x t j : tail_at b i (x ++ t) → j = i + len x → tail_at b j t.
Proof. intros H ->. by apply tail_at_app. Qed.

(** Moves [H : tail_at b i (x ++ t)] past [x], to offset [j]. *)
Ltac tail_next H j :=
  apply (fun H => tail_at_next _ _ _ _ j H) in H; [|len_lia].

Lemma tail_at_get b i x t :
  tail_at b i (x ++ t) → slice_get b i (i + len x) = Some x.
Proof.
  intros (H0 & H1 & H2). rewrite len_app in H1.
  pose proof (len_nonneg x). pose proof (len_nonneg t).
  unfold slice_get. rewrite !(proj2 (Z.leb_le _ _)) by lia. simpl. f_equal.
  replace (i + len x - i) with (len x) by lia. unfold len. rewrite Nat2Z.id, H2.
  apply take_app_length.
Qed.

Lemma tail_at_get_until b i x t j :
  tail_at b i (x ++ t) → j = i + len x → slice_get b i j = Some x.
Proof. intros H ->. by eapply tail_at_get. Qed.

Lemma tail_at_from b i t : tail_at b i t → slice_from b i = Some t.
Proof.
  intros (H0 & H1 & H2). pose proof (len_nonneg t).
  unfold slice_from. rewrite (proj2 (Z.leb_le _ _)) by lia. by rewrite H2.
Qed.

Lemma tail_at_byte b i x t : tail_at b i (x :: t) → byte_at b i = Some x.
Proof.
  intros (H0 & H1 & H2). rewrite len_cons in H1. pose proof (len_nonneg t).
  unfold byte_at. rewrite (proj2 (Z.leb_le _ _)), (proj2 (Z.ltb_lt _ _)) by lia. simpl.
  by rewrite <- (Nat.add_0_r (Z.to_nat i)), <- lookup_drop, H2.
Qed.

Lemma slice_get_Some b i j x :
  slice_get b i j = Some x → i <= j <= len b /\ (0 <= i → len x = j - i).
Proof.
  unfold slice_get. destruct (Z.leb_spec i j), (Z.leb_spec j (len b)); [|done..].
  simpl. intros [= <-]. split; [lia|]. intros Hi. unfold len in *.
  rewrite length_take, length_drop. lia.
Qed.

Lemma slice_get_None b i j :
  slice_get b i j = None ↔ ¬ (i <= j <= len b).
Proof.
  unfold slice_get. destruct (Z.leb_spec i j), (Z.leb_spec j (len b)); simpl;
    (split; [intros; (done || lia)|intros; (done || lia)]).
Qed.

Lemma slice_from_Some b i x :
  slice_from b i = Some x → i <= len b /\ (0 <= i → tail_at b i x).
Proof.
  unfold slice_from. destruct (Z.leb_spec i (len b)); [|done].
  intros [= <-]. split; [done|]. intros Hi. split_and!; [done| |done].
  unfold len in *. rewrite length_drop. lia.
Qed.

(** * Writing into a mutable slice *)

(** [self[i..i + x.len()].copy_from_slice(x)] *)
Definition slice_write (b : bytes) (i : Z) (x : bytes) : outcome bytes :=
  if i + len x <=? len b
  then Ok (take (Z.to_nat i) b ++ x ++ drop (Z.to_nat (i + len x)) b)
  else Panic "slice index out of range".

Lemma slice_write_at pre mid post x :
  len mid = len x →
  slice_write (pre ++ mid ++ post) (len pre) x = Ok (pre ++ x ++ post).
Proof.
  intros Hl. unfold slice_write. rewrite !len_app, Hl.
  rewrite (proj2 (Z.leb_le _ _)) by (pose proof (len_nonneg post); lia).
  unfold len in *. rewrite Nat2Z.id, take_app_length. do 3 f_equal.
  replace (Z.to_nat _) with (length pre + length mid)%nat by lia.
  by rewrite <- drop_drop, !drop_app_length.
Qed.

Lemma slice_split (b : bytes) i n :
  0 <= i → 0 <= n → i + n <= len b →
  ∃ pre mid post, b = pre ++ mid ++ post ∧ len pre = i ∧ len mid = n.
Proof.
  intros Hi Hn Hb.
  exists (take (Z.to_nat i) b), (take (Z.to_nat n) (drop (Z.to_nat i) b)),
    (drop (Z.to_nat n) (drop (Z.to_nat i) b)).
  rewrite !take_drop. split; [done|]. unfold len in *. rewrite !length_take, length_drop. lia.
Qed.

(** Two adjacent writes are one. *)
Lemma slice_write_write b i x y :
  0 <= i →
  (b1 ← slice_write b i x; slice_write b1 (i + len x) y) = slice_write b i (x ++ y).
Proof.
  intros Hi. pose proof (len_nonneg x). pose proof (len_nonneg y).
  destruct (Z.le_gt_cases (i + len (x ++ y)) (len b)) as [Hb|Hb]; rewrite len_app in Hb.
  - destruct (slice_split b i (len x + len y)) as (pre & mid & post & -> & <- & Hm); [lia..|].
    destruct (slice_split mid 0 (len x)) as (n & mx & my & -> & Hn & Hx); [lia..|].
    destruct n; [|rewrite len_cons in Hn; pose proof (len_nonneg n); lia].
    rewrite (slice_write_at pre _ _ (x ++ y)) by (rewrite !len_app in *; simpl in *; lia).
    simpl in *. rewrite len_app in Hm.
    rewrite <- (app_assoc mx my post), (slice_write_at pre) by done. simpl.
    rewrite app_assoc, <- len_app, (slice_write_at (pre ++ x)) by lia.
    by rewrite <- !app_assoc.
  - trans (@Panic bytes "slice index out of range").
    2: { unfold slice_write. by rewrite len_app, (proj2 (Z.leb_gt _ _)) by lia. }
    unfold slice_write. destruct (Z.leb_spec (i + len x) (len b)); [|done]. simpl.
    rewrite (proj2 (Z.leb_gt _ _)); [done|].
    rewrite !len_app. unfold len in *. rewrite length_take, length_drop. lia.
Qed.

Lemma slice_write_len b i x b' :
  0 <= i → slice_write b i x = Ok b' → len b' = len b.
Proof.
  intros Hi. unfold slice_write. destruct (Z.leb_spec (i + len x) (len b)); [|done].
  intros [= <-]. pose proof (len_nonneg x). unfold len in *.
  rewrite !length_app, length_take, length_drop. lia.
Qed.

(** ** Filling a slice of zeros from the left *)

Definition zeros (n : Z) : bytes := replicate (Z.to_nat n) Byte.x00.

Lemma len_zeros n : 0 <= n → len (zeros n) = n.
Proof. intros Hn. unfold zeros, len. rewrite length_replicate. lia. Qed.

Lemma drop_zeros n (x : bytes) : len x <= n → drop (length x) (zeros n) = zeros (n - len x).
Proof. intros Hn. unfold zeros, len in *. rewrite drop_replicate. f_equal. lia. Qed.

Lemma slice_write_zeros pre i n x :
  i = len pre → len x <= n → slice_write (pre ++ zeros n) i x = Ok ((pre ++ x) ++ zeros (n - len x)).
Proof.
  intros -> Hn. pose proof (len_nonneg x). unfold slice_write. rewrite len_app, len_zeros by lia.
  rewrite (proj2 (Z.leb_le _ _)) by lia. unfold len at 1. rewrite Nat2Z.id, take_app_length.
  unfold len at 1. rewrite <- app_assoc. do 3 f_equal.
  replace (Z.to_nat _) with (length pre + length x)%nat by (unfold len; lia).
  rewrite <- drop_drop, drop_app_length. by apply drop_zeros.
Qed.

Lemma slice_from_app (pre rest : bytes) i : i = len pre → slice_from (pre ++ rest) i = Some rest.
Proof.
  intros ->. pose proof (len_nonneg rest). unfold slice_from.
  rewrite len_app, (proj2 (Z.leb_le _ _)) by lia. unfold len. by rewrite Nat2Z.id, drop_app_length.
Qed.

Lemma take_len (pre rest : bytes) i : i = len pre → take (Z.to_nat i) (pre ++ rest) = pre.
Proof. intros ->. unfold len. by rewrite Nat2Z.id, take_app_length. Qed.

(** ** The lexicographic order is total *)

Lemma bytes_cmp_refl a : bytes_cmp a a = Eq.
Proof. induction a as [|x a IH]; simpl; [done|]. by rewrite Z.compare_refl. Qed.

Lemma bytes_cmp_eq a b : bytes_cmp a b = Eq → a = b.
Proof.
  revert b. induction a as [|x a IH]; intros [|y b]; simpl; try done.
  destruct (Z.compare_spec (u8 x) (u8 y)) as [Hxy| |]; try done. intros Hab.
  rewrite (IH b Hab), <- (byte.of_Z_unsigned x), <- (byte.of_Z_unsigned y). by rewrite Hxy.
Qed.

Lemma bytes_cmp_antisym a b : bytes_cmp b a = CompOpp (bytes_cmp a b).
Proof.
  revert b. induction a as [|x a IH]; intros [|y b]; simpl; try done.
  rewrite (Z.compare_antisym (u8 x) (u8 y)). destruct (u8 x ?= u8 y); simpl; auto.
Qed.

Lemma bytes_cmp_trans a b c :
  bytes_cmp a b ≠ Gt → bytes_cmp b c ≠ Gt → bytes_cmp a c ≠ Gt.
Proof.
  revert b c. induction a as [|x a IH]; intros [|y b] [|z c]; simpl; try done.
  destruct (Z.compare_spec (u8 x) (u8 y)), (Z.compare_spec (u8 y) (u8 z)); intros Hab Hbc; try done.
  - rewrite (proj2 (Z.compare_eq_iff (u8 x) (u8 z))) by congruence. eauto.
  - rewrite (proj2 (Z.compare_lt_iff (u8 x) (u8 z))) by lia. done.
  - rewrite (proj2 (Z.compare_lt_iff (u8 x) (u8 z))) by lia. done.
  - rewrite (proj2 (Z.compare_lt_iff (u8 x) (u8 z))) by lia. done.
Qed.

Lemma bytes_leb_cmp a b : bytes_leb a b = true ↔ bytes_cmp a b ≠ Gt.
Proof. unfold bytes_leb. by destruct (bytes_cmp a b). Qed.

Lemma bytes_leb_refl a : bytes_leb a a = true.
Proof. apply bytes_leb_cmp. by rewrite bytes_cmp_refl. Qed.

Lemma bytes_leb_trans a b c : bytes_leb a b = true → bytes_leb b c = true → bytes_leb a c = true.
Proof. rewrite !bytes_leb_cmp. apply bytes_cmp_trans. Qed.

Lemma bytes_leb_total a b : bytes_leb a b = true ∨ bytes_leb b a = true.
Proof. rewrite !bytes_leb_cmp, (bytes_cmp_antisym a b). destruct (bytes_cmp a b); simpl; auto. Qed.

Lemma bytes_leb_antisym a b : bytes_leb a b = true → bytes_leb b a = true → a = b.
Proof.
  rewrite !bytes_leb_cmp, (bytes_cmp_antisym a b). intros Hab Hba. apply bytes_cmp_eq.
  by destruct (bytes_cmp a b).
Qed.

(** Encodings are reasoned about by their lemmas only. *)
#[global] Opaque to_le to_be from_le from_be.
