(* ===== verification/Extern.v ===== *)
(** Interfaces to the code outside the repository.

    Each class states what the crate relies on of a third-party package or of
    the compiler: the operations it calls, and as laws the behaviour their
    documentation promises.  Every definition of the development that uses such
    an operation takes the class as an argument; the [Module]s [Toy...] give one
    concrete instance each, which the witnesses use. *)
From stdpp Require Import sorting.
From S2P Require Import Prelude.

(** * [bytes::BufMut]: a sink for bytes

    Every [put_*] appends the bytes of its argument at the current position; it
    panics when the sink has no room left for them. *)

Class BufMut (B : Type) := {
  put_slice : B → bytes → outcome B;
  put_u8 : B → Z → outcome B;
  put_u16 : B → Z → outcome B;
  put_u16_le : B → Z → outcome B;
  put_u32_le : B → Z → outcome B;
  put_u64_le : B → Z → outcome B;
  put_slice_nil b : put_slice b [] = Ok b;
  put_slice_app b x y : (b' ← put_slice b x; put_slice b' y) = put_slice b (x ++ y);
  put_u8_spec b v : put_u8 b v = put_slice b (to_le 1 v);
  put_u16_spec b v : put_u16 b v = put_slice b (to_be 2 v);
  put_u16_le_spec b v : put_u16_le b v = put_slice b (to_le 2 v);
  put_u32_le_spec b v : put_u32_le b v = put_slice b (to_le 4 v);
  put_u64_le_spec b v : put_u64_le b v = put_slice b (to_le 8 v);
}.

Lemma put_app {B} `{BufMut B} (b : B) x y :
  put_slice b (x ++ y) = (b1 ← put_slice b x; put_slice b1 y).
Proof. by rewrite put_slice_app. Qed.

Create Rewrite HintDb put.
#[export] Hint Rewrite @put_u8_spec @put_u16_spec @put_u16_le_spec @put_u32_le_spec
  @put_u64_le_spec @bind_assoc @bind_ret @put_app @put_slice_nil : put.

(** Compares a sequence of writes with the single write of their concatenation,
    one write at a time. *)
Ltac put_steps :=
  repeat (autorewrite with put; cbn [mbind outcome_bind]; rewrite ?bind_ret;
          first [reflexivity | apply bind_ext; intros ?]).

(** A loop of writes is one write. *)
Lemma for_each_put {A B} `{BufMut B} (f : B → A → outcome B) (enc : A → bytes) l b :
  (∀ b x, x ∈ l → f b x = put_slice b (enc x)) →
  for_each f l b = put_slice b (concat (map enc l)).
Proof.
  revert b. induction l as [|x l IH]; intros b Hf; simpl; [by rewrite put_slice_nil|].
  rewrite put_app, Hf by set_solver. apply bind_ext. intros b'. apply IH. set_solver.
Qed.

(** [Vec<u8>] grows as needed. *)
#[export] Program Instance vec_buf : BufMut bytes := {
  put_slice b x := Ok (b ++ x);
  put_u8 b v := Ok (b ++ to_le 1 v);
  put_u16 b v := Ok (b ++ to_be 2 v);
  put_u16_le b v := Ok (b ++ to_le 2 v);
  put_u32_le b v := Ok (b ++ to_le 4 v);
  put_u64_le b v := Ok (b ++ to_le 8 v);
}.
Solve All Obligations with (intros; simpl; rewrite ?app_nil_r, <- ?app_assoc; reflexivity).

(** [&mut [u8]]: the bytes written so far and the room that is left. *)
Record slice_buf := SliceBuf { sb_written : bytes; sb_room : bytes }.

Definition slice_put (b : slice_buf) (x : bytes) : outcome slice_buf :=
  if len x <=? len (sb_room b)
  then Ok (SliceBuf (sb_written b ++ x) (drop (length x) (sb_room b)))
  else Panic "advance out of bounds".

#[export] Program Instance slice_buf_mut : BufMut slice_buf := {
  put_slice := slice_put;
  put_u8 b v := slice_put b (to_le 1 v);
  put_u16 b v := slice_put b (to_be 2 v);
  put_u16_le b v := slice_put b (to_le 2 v);
  put_u32_le b v := slice_put b (to_le 4 v);
  put_u64_le b v := slice_put b (to_le 8 v);
}.
Next Obligation.
  intros [w r]. unfold slice_put. simpl. rewrite (proj2 (Z.leb_le _ _)).
  - by rewrite app_nil_r, drop_0.
  - apply len_nonneg.
Qed.
Next Obligation.
  intros [w r] x y. unfold slice_put. simpl. rewrite len_app.
  pose proof (len_nonneg y). pose proof (len_nonneg x).
  destruct (Z.leb_spec (len x) (len r)); simpl.
  - unfold len in *. rewrite length_drop, drop_drop, length_app, app_assoc.
    destruct (Z.leb_spec (Z.of_nat (length y)) (Z.of_nat (length r - length x))),
      (Z.leb_spec (Z.of_nat (length x) + Z.of_nat (length y)) (Z.of_nat (length r)));
      try lia; done.
  - by rewrite (proj2 (Z.leb_gt _ _)) by lia.
Qed.
Solve All Obligations with done.

(** * [sha2::Sha256] *)

Class Sha256 := {
  sha256 : bytes → bytes;
  sha256_state : Type;
  sha256_new : sha256_state;
  sha256_update : sha256_state → bytes → sha256_state;
  sha256_finalize : sha256_state → bytes;
  sha256_length b : length (sha256 b) = 32%nat;
  sha256_parts ps :
    sha256_finalize (foldl sha256_update sha256_new ps) = sha256 (concat ps);
}.

(** * [ripemd::Ripemd160] *)

Class Ripemd160 := {
  ripemd160 : bytes → bytes;
  ripemd160_length b : length (ripemd160 b) = 20%nat;
}.

(** * [primitive_types::U256]

    A [U256] is represented by the integer it denotes.  The operators on whole
    numbers panic on overflow, the shifts drop the bits that leave the word. *)

Definition in_u256 (z : Z) : Prop := 0 <= z < 2 ^ 256.

Class U256Lib := {
  u256_from_u64 : Z → Z;
  u256_from_little_endian : bytes → Z;
  u256_add : Z → Z → outcome Z;
  u256_mul : Z → Z → outcome Z;
  u256_div : Z → Z → outcome Z;
  u256_not : Z → Z;
  u256_shl : Z → Z → Z;
  u256_shr : Z → Z → Z;
  u256_bits : Z → Z;
  u256_as_u32 : Z → outcome Z;
  u256_from_u64_spec v : in_u64 v → u256_from_u64 v = v;
  u256_from_little_endian_spec b : length b = 32%nat → u256_from_little_endian b = from_le b;
  u256_add_spec x y : in_u256 x → in_u256 y → x + y < 2 ^ 256 → u256_add x y = Ok (x + y);
  u256_add_overflow x y : in_u256 x → in_u256 y → 2 ^ 256 <= x + y →
    ∃ m, u256_add x y = Panic m;
  u256_mul_spec x y : in_u256 x → in_u256 y → x * y < 2 ^ 256 → u256_mul x y = Ok (x * y);
  u256_mul_overflow x y : in_u256 x → in_u256 y → 2 ^ 256 <= x * y →
    ∃ m, u256_mul x y = Panic m;
  u256_div_spec x y : in_u256 x → in_u256 y → 0 < y → u256_div x y = Ok (x / y);
  u256_div_zero x : in_u256 x → ∃ m, u256_div x 0 = Panic m;
  u256_not_spec x : in_u256 x → u256_not x = 2 ^ 256 - 1 - x;
  u256_shl_spec x n : in_u256 x → 0 <= n → u256_shl x n = Z.shiftl x n mod 2 ^ 256;
  u256_shr_spec x n : in_u256 x → 0 <= n → u256_shr x n = Z.shiftr x n;
  u256_bits_spec x : in_u256 x → u256_bits x = if x =? 0 then 0 else Z.log2 x + 1;
  u256_as_u32_spec x : in_u256 x → x < 2 ^ 32 → u256_as_u32 x = Ok x;
}.

(** * The layout of types in memory

    The size and alignment rustc gives the types that are stored in an arena or
    in a [Vec] with a reserved capacity.  The reference promises the layout of
    the primitive types and arrays only, and the largest size and alignment;
    of the structs it is assumed besides that the size is a multiple of the
    alignment. *)

Inductive rust_type :=
| RU8 | RU64 | RRefHash | RSliceU8 | RTxIn | RTxOut | RTx | RInv | RNetAddr | RNetAddrV2
| RBlockHeader | RSpendKey | RRefSpendKey | RAddressAmend | RSerializedTx
| RVersion | RVerAck | RPing | RPong | RSendAddrV2 | RSendHeaders | RBlock | RAddr
| RAddrV2 | RInvMsg | RHeaders | RGetHeaders | RNotFound
| RBlockTxs | RRefSerializedTx | RTxSpend | RAmendEntry | RBlockTxEntry.

#[export] Instance rust_type_eq_dec : EqDecision rust_type.
Proof. solve_decision. Defined.

Class Layout := {
  size_of : rust_type → Z;
  align_of : rust_type → Z;
  align_of_range t : 1 <= align_of t <= 2 ^ 29;
  size_of_max t : size_of t <= isize_max;
  size_of_align t : ∃ k, 0 <= k ∧ size_of t = k * align_of t;
  size_of_u8 : size_of RU8 = 1;
  align_of_u8 : align_of RU8 = 1;
  size_of_u64 : size_of RU64 = 8;
  size_of_spend_key : size_of RSpendKey = 36;
  align_of_spend_key : align_of RSpendKey = 1;
}.

Lemma size_of_nonneg `{Layout} t : 0 <= size_of t.
Proof.
  destruct (size_of_align t) as (k & Hk & ->). pose proof (align_of_range t). nia.
Qed.

(** * [slice::sort_unstable_by]

    The standard library promises a sorted permutation and leaves the order of
    equal items open. [leb a b] stands for a comparison that is not [Greater]. *)

Definition ordered_by {A} (leb : A → A → bool) (a b : A) : Prop := leb a b = true.

#[export] Instance ordered_by_dec {A} (leb : A → A → bool) a b : Decision (ordered_by leb a b).
Proof. unfold ordered_by. apply _. Defined.

Definition total_preorder {A} (leb : A → A → bool) : Prop :=
  (∀ a b, leb a b = true ∨ leb b a = true) ∧
  (∀ a b c, leb a b = true → leb b c = true → leb a c = true).

(** [Vec::dedup]: of equal neighbours the first *)
Fixpoint dedup {A} `{EqDecision A} (l : list A) : list A :=
  match l with
  | a :: rest =>
      match rest with
      | b :: _ => if decide (a = b) then dedup rest else a :: dedup rest
      | [] => [a]
      end
  | [] => []
  end.

(** Without the repetitions a sorted list has the same members, each once. *)
Lemma dedup_spec {A} `{EqDecision A} (leb : A → A → bool) l :
  (∀ a b, leb a b = true → leb b a = true → a = b) → StronglySorted (ordered_by leb) l →
  NoDup (dedup l) ∧ ∀ a, a ∈ dedup l ↔ a ∈ l.
Proof.
  intros Hanti. induction l as [|a l IH]; intros Hs; [by split; [constructor|]|]. apply StronglySorted_inv in Hs as [Hs Ha].
  destruct (IH Hs) as [Hn Hin]. destruct l as [|b l]; [by split; [apply NoDup_singleton|]|].
  change (dedup (a :: b :: l)) with (if decide (a = b) then dedup (b :: l) else a :: dedup (b :: l)).
  destruct (decide (a = b)) as [->|Hne].
  - split; [done|]. intros x. rewrite Hin, !elem_of_cons. tauto.
  - split.
    + apply NoDup_cons. split; [|done]. rewrite Hin. intros Hin'. apply Hne. rewrite Forall_forall in Ha.
      apply StronglySorted_inv in Hs as [_ Hb]. rewrite Forall_forall in Hb. apply elem_of_cons in Hin' as [->|Hin']; [done|].
      apply Hanti; [apply Ha, list_elem_of_here|by apply Hb].
    + intros x. rewrite elem_of_cons, Hin, (elem_of_cons _ x a). done.
Qed.

Class UnstableSort := {
  sort_unstable_by : ∀ {A : Type}, (A → A → bool) → list A → list A;
  sort_unstable_by_perm A (leb : A → A → bool) l : sort_unstable_by leb l ≡ₚ l;
  sort_unstable_by_sorted A (leb : A → A → bool) l :
    total_preorder leb → StronglySorted (ordered_by leb) (sort_unstable_by leb l);
}.

Lemma total_preorder_key {A} (key : A → bytes) : total_preorder (λ a b, bytes_leb (key a) (key b)).
Proof.
  split; intros; [apply bytes_leb_total|by eapply bytes_leb_trans].
Qed.

(** * Concrete instances, for the witnesses *)

Module Toy.

(** A checksum that keeps the value small, so that every target is met. *)
Definition digest (b : bytes) : bytes := to_le 32 (from_le b mod (2 ^ 61 - 1)).

#[export] Program Instance toy_sha256 : Sha256 := {
  sha256 := digest;
  sha256_state := bytes;
  sha256_new := [];
  sha256_update s b := s ++ b;
  sha256_finalize := digest;
}.
Next Obligation. intros b. apply length_le_split. Qed.
Next Obligation.
  intros ps. f_equal. trans ([] ++ concat ps); [|done].
  generalize (@nil byte). induction ps as [|p ps IH]; intros acc; simpl.
  - by rewrite app_nil_r.
  - by rewrite IH, app_assoc.
Qed.

#[export] Program Instance toy_ripemd160 : Ripemd160 := {
  ripemd160 b := to_le 20 (from_le b mod (2 ^ 61 - 1));
}.
Next Obligation. intros b. apply length_le_split. Qed.

#[export] Program Instance toy_sort : UnstableSort := {
  sort_unstable_by A leb l := merge_sort (ordered_by leb) l;
}.
Next Obligation. intros A leb l. apply merge_sort_Permutation. Qed.
Next Obligation.
  intros A leb l [Htot Htrans]. apply StronglySorted_merge_sort; [exact Htrans|exact Htot].
Qed.

Definition checked (z : Z) : outcome Z :=
  if z <? 2 ^ 256 then Ok z else Panic "arithmetic operation overflow".

#[export] Program Instance toy_u256 : U256Lib := {
  u256_from_u64 v := v;
  u256_from_little_endian b := from_le b;
  u256_add x y := checked (x + y);
  u256_mul x y := checked (x * y);
  u256_div x y := if y =? 0 then Panic "division by zero" else Ok (x / y);
  u256_not x := 2 ^ 256 - 1 - x;
  u256_shl x n := Z.shiftl x n mod 2 ^ 256;
  u256_shr x n := Z.shiftr x n;
  u256_bits x := if x =? 0 then 0 else Z.log2 x + 1;
  u256_as_u32 x :=
    if x <? 2 ^ 32 then Ok x else Panic "integer overflow when casting to u32";
}.
Solve All Obligations with
  (intros; unfold checked in *; simpl;
   repeat (case_match; rewrite ?Z.ltb_lt, ?Z.ltb_ge, ?Z.eqb_eq in *; try lia); eauto).

(** The sizes and alignments rustc chooses on x86-64 for the types of the crate. *)
Definition toy_size (t : rust_type) : Z :=
  match t with
  | RU8 => 1 | RU64 => 8 | RRefHash => 8 | RSliceU8 => 16
  | RTxIn => 32 | RTxOut => 24 | RTx => 120 | RInv => 16 | RNetAddr => 24
  | RNetAddrV2 => 32 | RBlockHeader => 72 | RSpendKey => 36 | RRefSpendKey => 8
  | RAddressAmend => 24 | RSerializedTx => 120 | RVersion => 104
  | RVerAck | RSendAddrV2 | RSendHeaders => 0 | RPing | RPong => 8
  | RBlock => 88 | RAddr | RAddrV2 | RInvMsg | RHeaders | RNotFound => 16
  | RGetHeaders => 32 | RBlockTxs => 48 | RRefSerializedTx => 8
  | RTxSpend => 100 | RAmendEntry => 56 | RBlockTxEntry => 56
  end.

Definition toy_align (t : rust_type) : Z :=
  match t with
  | RU8 | RSpendKey | RTxSpend | RVerAck | RSendAddrV2 | RSendHeaders => 1
  | _ => 8
  end.

Lemma toy_align_range t : 1 <= toy_align t <= 2 ^ 29.
Proof. destruct t; simpl; lia. Qed.

Lemma toy_size_max t : toy_size t <= isize_max.
Proof. destruct t; unfold isize_max; simpl; lia. Qed.

Lemma toy_size_align t : ∃ k, 0 <= k ∧ toy_size t = k * toy_align t.
Proof.
  exists (toy_size t / toy_align t). split.
  - apply Z.div_pos; [destruct t; simpl; lia|]. pose proof (toy_align_range t). lia.
  - by destruct t.
Qed.

#[export] Instance toy_layout : Layout := {|
  size_of := toy_size;
  align_of := toy_align;
  align_of_range := toy_align_range;
  size_of_max := toy_size_max;
  size_of_align := toy_size_align;
  size_of_u8 := eq_refl;
  align_of_u8 := eq_refl;
  size_of_u64 := eq_refl;
  size_of_spend_key := eq_refl;
  align_of_spend_key := eq_refl;
|}.
End Toy.
