(* ===== verification/Buffer.v ===== *)
(** [src/packets/buffer.rs]: bounds-checked reads of integers and hashes. *)
From S2P Require Import Prelude.

Definition get_hash (b : bytes) (offset : Z) : outcome hash :=
  match slice_get b offset (offset +! 32) with
  | Some r => Ok r
  | None => Err "not enough bytes for a 32 byte hash"
  end.

Definition with_offset (b : bytes) (offset : Z) : outcome bytes :=
  match slice_from b offset with
  | Some v => Ok v
  | None => Err "not enough bytes for with_offset"
  end.

Definition get_u32_le (b : bytes) (offset : Z) : outcome Z :=
  match slice_get b offset (offset +! 4) with
  | Some r => Ok (from_le r)
  | None => Err "not enough bytes for a 32 bit integer"
  end.

Definition get_u64 (b : bytes) (offset : Z) : outcome Z :=
  match slice_get b offset (offset +! 8) with
  | Some r => Ok (from_be r)
  | None => Err "not enough bytes for a 64 bit integer"
  end.

Definition get_u64_le (b : bytes) (offset : Z) : outcome Z :=
  match slice_get b offset (offset +! 8) with
  | Some r => Ok (from_le r)
  | None => Err "not enough bytes for a 64 bit integer"
  end.

Definition get_u32 (b : bytes) (offset : Z) : outcome Z :=
  match slice_get b offset (offset +! 4) with
  | Some r => Ok (from_be r)
  | None => Err "not enough bytes for a 32 bit integer"
  end.

Definition get_u16 (b : bytes) (offset : Z) : outcome Z :=
  match slice_get b offset (offset +! 2) with
  | Some r => Ok (from_be r)
  | None => Err "not enough bytes for a 16 bit integer"
  end.

Definition get_u16_le (b : bytes) (offset : Z) : outcome Z :=
  match slice_get b offset (offset +! 2) with
  | Some r => Ok (from_le r)
  | None => Err "not enough bytes for a 16 bit integer"
  end.

(** * Reads of what was written

    At an offset where the buffer continues with the encoding of a value, the
    read returns the value. *)

Lemma get_at b i n x t :
  tail_at b i (x ++ t) → slice_ok b → len x = n →
  slice_get b i (i +! n) = Some x.
Proof.
  intros Ht Hb <-. pose proof (tail_at_get b i x t Ht) as Hg.
  destruct Ht as (H0 & H1 & _). rewrite len_app in H1.
  pose proof (len_nonneg t). pose proof (len_nonneg x). rewrite wrap64_small by mlia. done.
Qed.

Lemma get_hash_at b i h t :
  tail_at b i (h ++ t) → slice_ok b → hash_ok h → get_hash b i = Ok h.
Proof. intros Ht Hb Hh. unfold get_hash. by rewrite (get_at _ _ _ h t) by (done || len_lia). Qed.

Lemma with_offset_at b i t : tail_at b i t → with_offset b i = Ok t.
Proof. intros Ht. unfold with_offset. by rewrite (tail_at_from _ _ t). Qed.

Ltac get_int :=
  match goal with Ht : tail_at ?b ?i (?x ++ ?t) |- _ =>
    rewrite (get_at b i _ x t) by (done || len_lia)
  end;
  f_equal; (apply from_le_to_le || apply from_be_to_be); mlia.

Lemma get_u16_at b i v t :
  tail_at b i (to_be 2 v ++ t) → slice_ok b → in_u16 v → get_u16 b i = Ok v.
Proof. intros Ht Hb Hv. unfold get_u16. get_int. Qed.

Lemma get_u16_le_at b i v t :
  tail_at b i (to_le 2 v ++ t) → slice_ok b → in_u16 v → get_u16_le b i = Ok v.
Proof. intros Ht Hb Hv. unfold get_u16_le. get_int. Qed.

Lemma get_u32_le_at b i v t :
  tail_at b i (to_le 4 v ++ t) → slice_ok b → in_u32 v → get_u32_le b i = Ok v.
Proof. intros Ht Hb Hv. unfold get_u32_le. get_int. Qed.

Lemma get_u64_le_at b i v t :
  tail_at b i (to_le 8 v ++ t) → slice_ok b → in_u64 v → get_u64_le b i = Ok v.
Proof. intros Ht Hb Hv. unfold get_u64_le. get_int. Qed.

(** * What a successful read says of the buffer *)

Lemma slice_get_wrap b i n x :
  0 <= i → slice_get b i (i +! n) = Some x → len x = (i +! n) - i ∧ i +! n <= len b.
Proof. intros Hi H. apply slice_get_Some in H as [? Hl]. specialize (Hl Hi). lia. Qed.

Lemma get_hash_Ok b i h :
  in_u64 i → get_hash b i = Ok h → hash_ok h ∧ i + 32 <= len b.
Proof.
  unfold get_hash, hash_ok. intros Hi H. destruct (slice_get _ _ _) eqn:Hg; [|done].
  injection H as <-. apply slice_get_wrap in Hg as [Hl Hb]; [|apply Hi].
  unfold wrap64 in *. assert (i + 32 < 2 ^ 64) as Hs.
  { destruct (Z.lt_ge_cases (i + 32) (2 ^ 64)); [done|].
    replace ((i + 32) mod 2 ^ 64) with (i + 32 - 2 ^ 64) in Hl
      by (apply (Z.mod_unique_pos _ _ 1); mlia).
    pose proof (len_nonneg l). lia. }
  rewrite Z.mod_small in * by mlia. unfold len in *. lia.
Qed.

Lemma with_offset_Ok b i t :
  0 <= i → with_offset b i = Ok t → tail_at b i t.
Proof.
  unfold with_offset. intros Hi H. destruct (slice_from b i) eqn:Hs; [|done].
  injection H as <-. apply slice_from_Some in Hs as [_ Hs]. auto.
Qed.

Lemma get_u32_le_Ok b i v :
  get_u32_le b i = Ok v → 0 <= i → in_u32 v ∧ i + 4 <= len b ∨ 2 ^ 64 - 4 <= i.
Proof.
  unfold get_u32_le. intros H Hi. destruct (slice_get _ _ _) as [x|] eqn:Hg; [|done].
  injection H as <-. apply slice_get_wrap in Hg as [Hl Hb]; [|done].
  destruct (Z.lt_ge_cases i (2 ^ 64 - 4)) as [Hs|]; [left|by right].
  rewrite wrap64_small in * by mlia. pose proof (from_le_range x) as Hr.
  rewrite Hl in Hr. replace (8 * (i + 4 - i)) with 32 in Hr by lia. unfold in_u32. lia.
Qed.

(** * Reads never panic *)

Ltac safe_read := intros; unfold get_hash, with_offset, get_u16, get_u16_le, get_u32,
  get_u32_le, get_u64, get_u64_le; by case_match.

Lemma get_hash_safe b i : safe (get_hash b i). Proof. safe_read. Qed.
Lemma with_offset_safe b i : safe (with_offset b i). Proof. safe_read. Qed.
Lemma get_u16_safe b i : safe (get_u16 b i). Proof. safe_read. Qed.
Lemma get_u16_le_safe b i : safe (get_u16_le b i). Proof. safe_read. Qed.
Lemma get_u32_safe b i : safe (get_u32 b i). Proof. safe_read. Qed.
Lemma get_u32_le_safe b i : safe (get_u32_le b i). Proof. safe_read. Qed.
Lemma get_u64_safe b i : safe (get_u64 b i). Proof. safe_read. Qed.
Lemma get_u64_le_safe b i : safe (get_u64_le b i). Proof. safe_read. Qed.

#[export] Hint Resolve get_hash_safe with_offset_safe get_u16_safe get_u16_le_safe
  get_u32_safe get_u32_le_safe get_u64_safe get_u64_le_safe : safe.
