(* ===== verification/Varint.v ===== *)
(** [src/packets/varint.rs] and [src/packets/varstr.rs]: variable-length integers
    and length-prefixed strings. *)
From S2P Require Import Prelude.
From S2P Require Import Extern.
From S2P Require Import Buffer.

(** * Variable-length integers *)

Definition length_varint (v : Z) : Z :=
  if v <? 0xFD then 1
  else if v <? 0xFFFF then 3
  else if v <? 0xFFFFFFFF then 5
  else 9.

Definition serialize_varint {B} `{BufMut B} (v : Z) (into : B) : outcome (B * Z) :=
  if v <? 0xFD then
    into ← put_u8 into (wrap8 v);
    Ok (into, 1)
  else if v <? 0xFFFF then
    into ← put_u8 into 0xFD;
    into ← put_u16_le into (wrap16 v);
    Ok (into, 3)
  else if v <? 0xFFFFFFFF then
    into ← put_u8 into 0xFE;
    into ← put_u32_le into (wrap32 v);
    Ok (into, 5)
  else
    into ← put_u8 into 0xFF;
    into ← put_u64_le into v;
    Ok (into, 9).

Definition deserialize_varint (buffer : bytes) : outcome (Z * Z) :=
  match buffer with
  | [] => Err "not enough bytes for varint"
  | leader :: _ =>
      if u8 leader <? 0xFD then Ok (u8 leader, 1)
      else if u8 leader =? 0xFD then
        v ← get_u16_le buffer 1; Ok (v, 3)
      else if u8 leader =? 0xFE then
        v ← get_u32_le buffer 1; Ok (v, 5)
      else
        v ← get_u64_le buffer 1; Ok (v, 9)
  end.

Definition serialize_varint_into_slice (v : Z) (into : bytes) : outcome (bytes * Z) :=
  if v <? 0xFD then
    into ← slice_write into 0 (to_le 1 (wrap8 v));
    Ok (into, 1)
  else if v <? 0xFFFF then
    into ← slice_write into 0 (to_le 1 0xFD);
    into ← slice_write into 1 (to_le 2 (wrap16 v));
    Ok (into, 3)
  else if v <? 0xFFFFFFFF then
    into ← slice_write into 0 (to_le 1 0xFE);
    into ← slice_write into 1 (to_le 4 (wrap32 v));
    Ok (into, 5)
  else
    into ← slice_write into 0 (to_le 1 0xFF);
    into ← slice_write into 1 (to_le 8 v);
    Ok (into, 9).

(** The wire format of an integer, as the code writes it. *)
Definition encode_varint (v : Z) : bytes :=
  if v <? 0xFD then to_le 1 v
  else if v <? 0xFFFF then to_le 1 0xFD ++ to_le 2 v
  else if v <? 0xFFFFFFFF then to_le 1 0xFE ++ to_le 4 v
  else to_le 1 0xFF ++ to_le 8 v.

(** * Length-prefixed strings *)

Definition length_varstr (v : bytes) : Z := length_varint (len v) +! len v.

Definition serialize_varstr {B} `{BufMut B} (v : bytes) (into : B) : outcome (B * Z) :=
  '(into, starting) ← serialize_varint (len v) into;
  into ← put_slice into v;
  Ok (into, starting +! len v).

Definition deserialize_varstr (buffer : bytes) : outcome (bytes * Z) :=
  '(length, offset) ← deserialize_varint buffer;
  if len buffer <? length +! offset then Err "not enough data"
  else
    r ← slice_idx buffer offset (offset +! length);
    Ok (r, offset +! length).

Definition encode_varstr (v : bytes) : bytes := encode_varint (len v) ++ v.

(** The body of the loop over the strings of an array: it skips one string. *)
Definition skip_varstr (buffer : bytes) (offset : Z) : outcome Z :=
  b ← with_offset buffer offset;
  '(varstr_length, consumed) ← deserialize_varint b;
  Ok (offset +! consumed +! varstr_length).

Definition deserialize_array_of_varstr_as_varstr (buffer : bytes) : outcome (bytes * Z) :=
  '(remaining_varstrs, offset) ← deserialize_varint buffer;
  offset ← repeat_for remaining_varstrs (skip_varstr buffer) offset;
  match slice_get buffer 0 offset with
  | Some r => Ok (r, offset)
  | None => Err "not enough bytes"
  end.

Definition deserialize_array_of_varstr_as_varstr_owned (buffer : bytes) :
    outcome (bytes * Z) :=
  '(remaining_varstrs, offset) ← deserialize_varint buffer;
  offset ← repeat_for remaining_varstrs (skip_varstr buffer) offset;
  match slice_get buffer 0 offset with
  | Some r => Ok (r, offset)
  | None => Err "not enough bytes"
  end.

Definition encode_varstrs (l : list bytes) : bytes :=
  encode_varint (len l) ++ concat (map encode_varstr l).

(** ** The iterator over the strings of an array *)

Record VarStrIter := mkVarStrIter {
  vsi_offset : Z;
  vsi_buffer : bytes;
  vsi_remaining : Z;
}.

Definition deserialize_array_of_varsrs_iter (buffer : bytes) : outcome VarStrIter :=
  '(count, consumed) ← deserialize_varint buffer;
  Ok (mkVarStrIter consumed buffer count).

Definition VarStrIter_next (it : VarStrIter) : outcome (option bytes * VarStrIter) :=
  if vsi_remaining it =? 0 then Ok (None, it)
  else
    match with_offset (vsi_buffer it) (vsi_offset it) with
    | Ok v =>
        match deserialize_varstr v with
        | Ok (result, consumed) =>
            Ok (Some result,
                mkVarStrIter (vsi_offset it +! consumed) (vsi_buffer it)
                  (vsi_remaining it -! 1))
        | Err _ => Ok (None, it)
        | Panic m => Panic m
        | Ub => Ub
        end
    | Err _ => Ok (None, it)
    | Panic m => Panic m
    | Ub => Ub
    end.

(** Every string the iterator yields until it returns [None]; [None] when the
    fuel does not suffice. *)
Fixpoint VarStrIter_collect (fuel : nat) (it : VarStrIter) : outcome (option (list bytes)) :=
  match fuel with
  | O => Ok None
  | Datatypes.S fuel =>
      '(item, it) ← VarStrIter_next it;
      match item with
      | None => Ok (Some [])
      | Some s =>
          rest ← VarStrIter_collect fuel it;
          Ok (option_map (cons s) rest)
      end
  end.

(** * Properties of integers *)

Lemma to_le_wrap8 v : to_le 1 (wrap8 v) = to_le 1 v.
Proof. symmetry. apply (le_split_mod v 1). Qed.

Lemma to_le_wrap16 v : to_le 2 (wrap16 v) = to_le 2 v.
Proof. symmetry. apply (le_split_mod v 2). Qed.

Lemma to_le_wrap32 v : to_le 4 (wrap32 v) = to_le 4 v.
Proof. symmetry. apply (le_split_mod v 4). Qed.

(** Case analysis on the size class of a varint. *)
Ltac varint_cases v :=
  destruct (Z.ltb_spec v 0xFD); [|destruct (Z.ltb_spec v 0xFFFF);
    [|destruct (Z.ltb_spec v 0xFFFFFFFF)]].

Lemma len_encode_varint v : len (encode_varint v) = length_varint v.
Proof.
  unfold encode_varint, length_varint. varint_cases v;
    by rewrite ?len_app, !len_to_le.
Qed.

Lemma length_varint_range v : 1 <= length_varint v <= 9.
Proof. unfold length_varint. varint_cases v; lia. Qed.

#[export] Hint Rewrite len_encode_varint : len.

Lemma serialize_varint_spec {B} `{BufMut B} v (into : B) :
  serialize_varint v into = (b ← put_slice into (encode_varint v); Ok (b, length_varint v)).
Proof.
  unfold serialize_varint, encode_varint, length_varint.
  rewrite <- (to_le_wrap8 v), <- (to_le_wrap16 v), <- (to_le_wrap32 v).
  varint_cases v; put_steps.
Qed.

#[export] Hint Rewrite @serialize_varint_spec : put.

Lemma serialize_varint_into_slice_spec v into :
  serialize_varint_into_slice v into =
    (b ← slice_write into 0 (encode_varint v); Ok (b, length_varint v)).
Proof.
  assert (∀ k x y, len x = 1 →
    (b ← slice_write into 0 x; b ← slice_write b 1 y; Ok (b, k)) =
    (b ← slice_write into 0 (x ++ y); Ok (b, k)) :> outcome (bytes * Z)) as Hw.
  { intros k x y Hx. rewrite <- slice_write_write by lia. by rewrite bind_assoc, Hx. }
  unfold serialize_varint_into_slice, encode_varint, length_varint.
  varint_cases v;
    by rewrite ?to_le_wrap8, ?to_le_wrap16, ?to_le_wrap32, ?Hw by apply len_to_le.
Qed.

Lemma deserialize_varint_encode v rest :
  in_u64 v → slice_ok (encode_varint v ++ rest) →
  deserialize_varint (encode_varint v ++ rest) = Ok (v, length_varint v).
Proof.
  intros Hv. unfold encode_varint, length_varint. varint_cases v; intros Hs.
  1: { change (to_le 1 v) with [byte.of_Z v]. simpl. rewrite byte.unsigned_of_Z.
    unfold byte.wrap. rewrite Z.mod_small by mlia. by rewrite (proj2 (Z.ltb_lt _ _)). }
  all: rewrite <- app_assoc in *;
    match goal with |- deserialize_varint (?x ++ ?t) = _ =>
      pose proof (tail_at_app _ 0 x t (tail_at_0 _)) as Ht; rewrite len_to_le in Ht
    end; rewrite Z.add_0_l in Ht; change (Z.of_nat 1) with 1 in Ht;
    match goal with |- deserialize_varint ?b = _ => set (buf := b) in * end.
  - trans (v ← get_u16_le buf 1; Ok (v, 3)); [done|].
    by rewrite (get_u16_le_at _ _ _ _ Ht) by (done || mlia).
  - trans (v ← get_u32_le buf 1; Ok (v, 5)); [done|].
    by rewrite (get_u32_le_at _ _ _ _ Ht) by (done || mlia).
  - trans (v ← get_u64_le buf 1; Ok (v, 9)); [done|].
    by rewrite (get_u64_le_at _ _ _ _ Ht) by (done || mlia).
Qed.

(** The read of [n] bytes at a small offset gives a value of the type, within
    the buffer. *)
Lemma slice_get_small b i n x :
  0 <= i < 2 ^ 32 → 0 <= n < 2 ^ 32 → slice_get b i (i +! n) = Some x →
  len x = n ∧ i + n <= len b.
Proof. intros Hi Hn H. apply slice_get_wrap in H as [Hl Hb]; [|lia]. rewrite wrap64_small in * by mlia. lia. Qed.

Lemma deserialize_varint_Ok b v n :
  deserialize_varint b = Ok (v, n) → in_u64 v ∧ 1 <= n <= 9 ∧ n <= len b.
Proof.
  unfold deserialize_varint. destruct b as [|l b]; [done|].
  pose proof (u8_range l). pose proof (len_nonneg b).
  assert (∀ w k x, slice_get (l :: b) 1 (1 +! w) = Some x → 0 <= w <= 8 → k = w + 1 →
    in_u64 (from_le x) ∧ 1 <= k <= 9 ∧ k <= len (l :: b)) as Hx.
  { intros w k x Hg Hw ->. apply slice_get_small in Hg as [Hl Hb]; [|lia..].
    pose proof (from_le_range x) as Hr. rewrite Hl in Hr.
    assert (2 ^ (8 * w) <= 2 ^ 64) by (apply Z.pow_le_mono_r; lia). mlia. }
  unfold get_u16_le, get_u32_le, get_u64_le.
  repeat case_match; simpl; intros [= <- <-];
    first [eapply Hx; [eassumption|lia|lia] | rewrite len_cons; mlia].
Qed.

Lemma deserialize_varint_safe b : safe (deserialize_varint b).
Proof. unfold deserialize_varint. safe_steps. Qed.

#[export] Hint Resolve deserialize_varint_safe : safe.

(** * Properties of strings *)

Lemma len_encode_varstr v : len (encode_varstr v) = length_varint (len v) + len v.
Proof. unfold encode_varstr. by autorewrite with len. Qed.

#[export] Hint Rewrite len_encode_varstr : len.

Lemma serialize_varstr_spec {B} `{BufMut B} v (into : B) :
  serialize_varstr v into = (b ← put_slice into (encode_varstr v); Ok (b, length_varstr v)).
Proof. unfold serialize_varstr, encode_varstr, length_varstr. put_steps. Qed.

#[export] Hint Rewrite @serialize_varstr_spec : put.

(** The three ways the read of a string ends, from the length [l] and the size
    [n] of the length's encoding. *)
Lemma deserialize_varstr_cases b l n :
  slice_ok b → deserialize_varint b = Ok (l, n) →
  (n + l <= len b → deserialize_varstr b = Ok (take (Z.to_nat l) (drop (Z.to_nat n) b), n + l))
  ∧ (len b < n + l < 2 ^ 64 → deserialize_varstr b = Err "not enough data")
  ∧ (2 ^ 64 <= n + l → deserialize_varstr b = Panic "slice index out of range").
Proof.
  intros Hb Hv. pose proof (deserialize_varint_Ok _ _ _ Hv) as (Hl & Hn & Hnb).
  unfold deserialize_varstr. rewrite Hv. cbn [mbind outcome_bind].
  split_and!; intros H.
  - unwrap. rewrite (proj2 (Z.ltb_ge _ _)) by mlia. unfold slice_idx, slice_get.
    rewrite !(proj2 (Z.leb_le _ _)) by mlia. simpl. do 4 f_equal. lia.
  - unwrap. by rewrite (proj2 (Z.ltb_lt _ _)) by mlia.
  - assert (∀ z, z = l + n → wrap64 z = l + n - 2 ^ 64) as Hw.
    { intros z ->. symmetry. apply (Z.mod_unique_pos _ _ 1); mlia. }
    rewrite !Hw by lia. rewrite (proj2 (Z.ltb_ge _ _)) by mlia.
    unfold slice_idx, slice_get. by rewrite (proj2 (Z.leb_gt _ _)) by mlia.
Qed.

Lemma deserialize_varstr_encode v rest :
  slice_ok (encode_varstr v ++ rest) →
  deserialize_varstr (encode_varstr v ++ rest) = Ok (v, length_varint (len v) + len v).
Proof.
  intros Hs. pose proof (len_nonneg v). pose proof (len_nonneg rest).
  pose proof (length_varint_range (len v)). unfold encode_varstr in *.
  rewrite <- app_assoc in *.
  edestruct (deserialize_varstr_cases _ (len v) (length_varint (len v)) Hs) as [Hd _].
  { apply deserialize_varint_encode; [len_lia|done]. }
  rewrite Hd by len_lia. rewrite <- len_encode_varint at 1. unfold len at 1 2.
  by rewrite !Nat2Z.id, drop_app_length, take_app_length.
Qed.

Lemma deserialize_varstr_Ok b v n :
  slice_ok b → deserialize_varstr b = Ok (v, n) → 1 <= n <= len b ∧ len v < n.
Proof.
  intros Hb H. destruct (deserialize_varint b) as [[l k]| | |] eqn:Hv;
    try (unfold deserialize_varstr in H; rewrite Hv in H; done).
  pose proof (deserialize_varint_Ok _ _ _ Hv) as (Hl & Hn & Hnb).
  destruct (deserialize_varstr_cases b l k Hb Hv) as (H1 & H2 & H3).
  destruct (Z.le_gt_cases (k + l) (len b)).
  - rewrite H1 in H by done. injection H as <- <-. unfold len in *. rewrite length_take.
    mlia.
  - destruct (Z.lt_ge_cases (k + l) (2 ^ 64)); [rewrite H2 in H by lia|rewrite H3 in H by lia]; done.
Qed.

(** Reads at an offset of a buffer that goes on with the encoding of a value. *)
Lemma deserialize_varint_at b i v t :
  tail_at b i (encode_varint v ++ t) → slice_ok b → in_u64 v →
  deserialize_varint (encode_varint v ++ t) = Ok (v, length_varint v).
Proof. intros Ht Hb Hv. apply deserialize_varint_encode; [done|]. by eapply tail_at_slice_ok. Qed.

Lemma deserialize_varstr_at b i s t :
  tail_at b i (encode_varstr s ++ t) → slice_ok b →
  deserialize_varstr (encode_varstr s ++ t) = Ok (s, len (encode_varstr s)).
Proof.
  intros Ht Hb. rewrite len_encode_varstr. apply deserialize_varstr_encode.
  by eapply tail_at_slice_ok.
Qed.

(** * Properties of arrays of strings *)

Lemma skip_varstr_at b i s t :
  slice_ok b → tail_at b i (encode_varstr s ++ t) →
  skip_varstr b i = Ok (i + len (encode_varstr s)).
Proof.
  intros Hb Ht. unfold skip_varstr. rewrite (with_offset_at _ _ _ Ht). simpl.
  destruct Ht as (H0 & H1 & _). unfold encode_varstr at 1. rewrite <- app_assoc.
  pose proof (len_nonneg s). pose proof (len_nonneg t). pose proof (length_varint_range (len s)).
  unfold encode_varstr in *. rewrite <- ?app_assoc in *.
  rewrite deserialize_varint_encode by len_lia. cbn [mbind outcome_bind].
  rewrite wrap64_add_l. f_equal. len_lia.
Qed.

Lemma skip_varstr_safe b i : safe (skip_varstr b i).
Proof. unfold skip_varstr. safe_steps. Qed.

#[export] Hint Resolve skip_varstr_safe : safe.

(** A loop that steps over the items of a buffer, one item per iteration. *)
Lemma iter_skip {A} (f : Z → outcome Z) (enc : A → bytes) b l i t :
  (∀ j x t, x ∈ l → tail_at b j (enc x ++ t) → f j = Ok (j + len (enc x))) →
  tail_at b i (concat (map enc l) ++ t) →
  iter_nat f (length l) i = Ok (i + len (concat (map enc l))).
Proof.
  revert i. induction l as [|x l IH]; intros i Hf Ht; simpl in *.
  - f_equal. unfold len. simpl. lia.
  - rewrite <- app_assoc in Ht. rewrite (Hf _ x _ ltac:(set_solver) Ht). simpl.
    apply tail_at_app in Ht. rewrite IH; [|set_solver|done]. f_equal. len_lia.
Qed.

Lemma skip_varstrs_at b i l t :
  slice_ok b → tail_at b i (concat (map encode_varstr l) ++ t) →
  repeat_for (len l) (skip_varstr b) i = Ok (i + len (concat (map encode_varstr l))).
Proof.
  intros Hb Ht. rewrite repeat_for_len. eapply iter_skip; [|done].
  intros j x t' _. by apply skip_varstr_at.
Qed.

(** The number of strings of a buffer that fits in memory is a [u64]. *)
Lemma len_concat_encode_varstr l : len l <= len (concat (map encode_varstr l)).
Proof.
  induction l as [|x l IH]; simpl; [done|]. autorewrite with len.
  pose proof (length_varint_range (len x)). pose proof (len_nonneg x). lia.
Qed.

Lemma deserialize_varint_varstrs l rest :
  slice_ok (encode_varstrs l ++ rest) →
  deserialize_varint (encode_varstrs l ++ rest) = Ok (len l, length_varint (len l)).
Proof.
  intros Hb. pose proof (len_concat_encode_varstr l). pose proof (len_nonneg rest).
  pose proof (length_varint_range (len l)). pose proof (len_nonneg l).
  unfold encode_varstrs in *. rewrite <- app_assoc in *.
  apply deserialize_varint_encode; [len_lia|done].
Qed.

Lemma deserialize_varstrs_encode l rest :
  slice_ok (encode_varstrs l ++ rest) →
  deserialize_array_of_varstr_as_varstr (encode_varstrs l ++ rest)
  = Ok (encode_varstrs l, len (encode_varstrs l)).
Proof.
  intros Hb. pose proof (len_concat_encode_varstr l). pose proof (len_nonneg rest).
  pose proof (length_varint_range (len l)). pose proof (len_nonneg l).
  unfold deserialize_array_of_varstr_as_varstr.
  assert (tail_at (encode_varstrs l ++ rest) (0 + len (encode_varint (len l)))
    (concat (map encode_varstr l) ++ rest)) as Ht.
  { apply tail_at_app. unfold encode_varstrs. rewrite <- app_assoc. apply tail_at_0. }
  rewrite deserialize_varint_varstrs by done. cbn [mbind outcome_bind]. rewrite Z.add_0_l, len_encode_varint in Ht.
  rewrite (skip_varstrs_at _ _ _ _ Hb Ht). cbn [mbind outcome_bind].
  replace (length_varint (len l) + len (concat (map encode_varstr l)))
    with (0 + len (encode_varstrs l)) by (unfold encode_varstrs; by autorewrite with len).
  by rewrite (tail_at_get _ _ _ rest (tail_at_0 _)).
Qed.

(** ** The iterator *)

Definition iter_at (it : VarStrIter) (l : list bytes) (t : bytes) : Prop :=
  slice_ok (vsi_buffer it) ∧ vsi_remaining it = len l ∧
  tail_at (vsi_buffer it) (vsi_offset it) (concat (map encode_varstr l) ++ t).

Lemma VarStrIter_next_at it s l t :
  iter_at it (s :: l) t →
  ∃ it', VarStrIter_next it = Ok (Some s, it') ∧ iter_at it' l t.
Proof.
  intros (Hb & Hr & Ht). pose proof (len_nonneg l). unfold VarStrIter_next.
  rewrite Hr, (proj2 (Z.eqb_neq _ _)) by len_lia. rewrite (with_offset_at _ _ _ Ht).
  simpl in Ht. rewrite <- app_assoc in Ht. pose proof (tail_at_app _ _ _ _ Ht) as Ht'.
  destruct Ht as (H0 & H1 & _). pose proof (len_concat_encode_varstr l).
  pose proof (length_varint_range (len s)). pose proof (len_nonneg s). pose proof (len_nonneg t).
  rewrite len_encode_varstr in Ht'.
  simpl. rewrite <- app_assoc, deserialize_varstr_encode by len_lia.
  eexists. split; [done|]. split_and!; simpl; [done|len_lia|].
  rewrite wrap64_small by len_lia. done.
Qed.

Lemma VarStrIter_collect_at l it t fuel :
  iter_at it l t → (length l < fuel)%nat → VarStrIter_collect fuel it = Ok (Some l).
Proof.
  revert it fuel. induction l as [|s l IH]; intros it [|fuel] Hit Hf; simpl in Hf; try lia.
  - cbn [VarStrIter_collect]. unfold VarStrIter_next. destruct Hit as (_ & -> & _). done.
  - cbn [VarStrIter_collect]. destruct (VarStrIter_next_at _ _ _ _ Hit) as (it' & -> & Hit').
    cbn [mbind outcome_bind]. by rewrite (IH it' fuel) by (done || lia).
Qed.

(** Every item consumes a byte at least. *)
Lemma VarStrIter_next_advances it s it' :
  slice_ok (vsi_buffer it) → 0 <= vsi_offset it →
  VarStrIter_next it = Ok (Some s, it') →
  vsi_buffer it' = vsi_buffer it ∧ vsi_offset it < vsi_offset it' <= len (vsi_buffer it).
Proof.
  intros Hb Ho. unfold VarStrIter_next. case_match; [done|].
  destruct (with_offset _ _) as [v| | |] eqn:Hv; [|done..].
  destruct (deserialize_varstr v) as [[r c]| | |] eqn:Hd; [|done..].
  intros [= <- <-]. simpl. split; [done|]. apply with_offset_Ok in Hv as (_ & Hl & _); [|done].
  apply deserialize_varstr_Ok in Hd as [Hc _]; [|len_lia]. rewrite wrap64_small by len_lia. lia.
Qed.

Lemma VarStrIter_collect_fuel fuel it :
  slice_ok (vsi_buffer it) → 0 <= vsi_offset it <= len (vsi_buffer it) →
  len (vsi_buffer it) - vsi_offset it < Z.of_nat fuel →
  VarStrIter_collect fuel it ≠ Ok None.
Proof.
  revert it. induction fuel as [|fuel IH]; intros it Hb Ho Hf; [lia|].
  cbn [VarStrIter_collect]. destruct (VarStrIter_next it) as [[[s|] it']| | |] eqn:Hn;
    cbn [mbind outcome_bind]; [|done..].
  apply VarStrIter_next_advances in Hn as [Hb' Ho']; [|done|lia].
  pose proof (IH it') as Hc. rewrite Hb' in Hc.
  specialize (Hc Hb ltac:(lia) ltac:(lia)).
  by destruct (VarStrIter_collect fuel it') as [[l|]| | |].
Qed.

(** * The properties *)

(** A varint written to a buffer, or over the beginning of a slice that
    has room for it, reads back with its length, whatever follows it. *)
Theorem varint_roundtrip v rest into :
  in_u64 v → slice_ok (encode_varint v ++ rest) → 9 <= len into →
  ∃ w, serialize_varint v ([] : bytes) = Ok (w, length_varint v) ∧ len w = length_varint v ∧
    deserialize_varint (w ++ rest) = Ok (v, len w) ∧
    serialize_varint_into_slice v into = Ok (w ++ drop (length w) into, length_varint v).
Proof.
  intros Hv Hs Hi. exists (encode_varint v). pose proof (length_varint_range v).
  pose proof (len_encode_varint v) as Hl. split_and!; [by rewrite serialize_varint_spec|done| |].
  - by rewrite Hl, deserialize_varint_encode by done.
  - rewrite serialize_varint_into_slice_spec. unfold slice_write.
    rewrite (proj2 (Z.leb_le _ _)) by lia.
    cbn [mbind outcome_bind]. rewrite Z.add_0_l. unfold len at 1. by rewrite Nat2Z.id.
Qed.

Lemma varint_roundtrip_witness :
  ∃ w, serialize_varint 0xFFFF ([] : bytes) = Ok (w, 5) ∧ deserialize_varint (w ++ [Byte.x01]) = Ok (0xFFFF, len w).
Proof.
  destruct (varint_roundtrip 0xFFFF [Byte.x01] (replicate 9 Byte.x00)) as (w & H1 & _ & H2 & _).
  - split; [discriminate|reflexivity].
  - vm_compute. discriminate.
  - vm_compute. discriminate.
  - exists w. exact (conj H1 H2).
Defined.

(** The read of a length-prefixed string ends in one of three ways: the
    string, an error when the buffer is too short for it, and a panic when the length
    and the size of its prefix overflow the 64 bits of an offset, since the check of
    the bound wraps around as well. *)
Theorem varstr_read_outcomes b l n :
  slice_ok b → deserialize_varint b = Ok (l, n) →
  deserialize_varstr b =
    if n + l <=? len b then Ok (take (Z.to_nat l) (drop (Z.to_nat n) b), n + l)
    else if n + l <? 2 ^ 64 then Err "not enough data"
    else Panic "slice index out of range".
Proof.
  intros Hb Hv. destruct (deserialize_varstr_cases b l n Hb Hv) as (H1 & H2 & H3).
  destruct (Z.leb_spec (n + l) (len b)); [by apply H1|].
  destruct (Z.ltb_spec (n + l) (2 ^ 64)); [apply H2; lia|apply H3; lia].
Qed.

Lemma varstr_read_outcomes_witness :
  deserialize_varstr (replicate 9 Byte.xff) = Panic "slice index out of range".
Proof.
  rewrite (varstr_read_outcomes (replicate 9 Byte.xff) (2 ^ 64 - 1) 9).
  - reflexivity.
  - vm_compute. discriminate.
  - vm_compute. reflexivity.
Defined.

Lemma iter_at_start l rest :
  slice_ok (encode_varstrs l ++ rest) →
  ∃ it, deserialize_array_of_varsrs_iter (encode_varstrs l ++ rest) = Ok it ∧ iter_at it l rest.
Proof.
  intros Hb. unfold deserialize_array_of_varsrs_iter. rewrite deserialize_varint_varstrs by done.
  cbn [mbind outcome_bind]. eexists. split; [done|]. split_and!; [done..|]. cbn [vsi_buffer vsi_offset].
  replace (length_varint (len l)) with (0 + len (encode_varint (len l))) by (rewrite len_encode_varint; lia).
  apply tail_at_app. unfold encode_varstrs. rewrite <- app_assoc. apply tail_at_0.
Qed.

(** The iterator over an array of strings comes to an end on every
    buffer; on the encoding of a list of strings it gives these strings, and the
    reader that skips over the array gives its bytes. *)
Theorem varstrs_iterator b :
  slice_ok b →
  (∀ it, deserialize_array_of_varsrs_iter b = Ok it → VarStrIter_collect (S (length b)) it ≠ Ok None) ∧
  (∀ l rest, b = encode_varstrs l ++ rest →
     deserialize_array_of_varstr_as_varstr b = Ok (encode_varstrs l, len (encode_varstrs l)) ∧
     ∃ it, deserialize_array_of_varsrs_iter b = Ok it ∧
       VarStrIter_collect (S (length l)) it = Ok (Some l)).
Proof.
  intros Hb. split.
  - intros it Hit. unfold deserialize_array_of_varsrs_iter in Hit.
    destruct (deserialize_varint b) as [[c n]| | |] eqn:Hv; [|done..]. injection Hit as <-.
    apply deserialize_varint_Ok in Hv as (_ & Hn & Hl).
    apply VarStrIter_collect_fuel; simpl; [done|lia|unfold len; lia].
  - intros l rest ->. split; [by apply deserialize_varstrs_encode|].
    destruct (iter_at_start l rest Hb) as (it & Hit & Hat). exists it. split; [done|].
    apply VarStrIter_collect_at with rest; [done|lia].
Qed.

Lemma varstrs_iterator_witness :
  ∃ it, deserialize_array_of_varsrs_iter (encode_varstrs [bstr "a"; bstr "bc"] ++ []) = Ok it ∧
    VarStrIter_collect 3 it = Ok (Some [bstr "a"; bstr "bc"]).
Proof.
  assert (slice_ok (encode_varstrs [bstr "a"; bstr "bc"] ++ [])) as Hb by (vm_compute; discriminate).
  exact (proj2 (proj2 (varstrs_iterator _ Hb) [bstr "a"; bstr "bc"] [] eq_refl)).
Defined.
