(* ===== verification/Arena.v ===== *)
(** [src/util/arena.rs], [src/util/arenaarray.rs]: the bump allocator and the
    fixed-capacity arrays it hands out. *)
From S2P Require Import Prelude.
From S2P Require Import Extern.

(** * The allocator

    [data] is the address of the block, [consumed] the atomic counter,
    [capacity] the size of the block.  The blocks handed out never overlap (see
    the interleavings at the end of the file), so a value stored in the arena is
    represented by itself and not by its address. *)

Record Arena := mkArena {
  data : Z;
  consumed : Z;
  capacity : Z;
}.

Definition arena_new (address cap : Z) : Arena := mkArena address 0 cap.

Definition used (a : Arena) : Z := consumed a.

Definition reset (a : Arena) : Arena := mkArena (data a) 0 (capacity a).

(** The bytes to skip so that the next address is a multiple of [alignment]. *)
Definition padding_at (address alignment current : Z) : Z :=
  if alignment =? 0 then 0
  else (alignment - (address +! current) mod alignment) mod alignment.

(** The condition of the [while] loops: there is room for [size] more bytes. *)
Definition fits (a : Arena) (alignment size current : Z) : bool :=
  current +! padding_at (data a) alignment current +! size <=? capacity a.

Definition out_of_memory : string := "arena: out of memory".

(** The reservation common to the allocation functions, when no other thread
    moves the counter between the load and the exchange: the offset the counter
    had, the padding, and the arena with the counter advanced. *)
Definition reserve (a : Arena) (alignment size : Z) : outcome (Z * Z * Arena) :=
  let current := consumed a in
  let padding := padding_at (data a) alignment current in
  if fits a alignment size current
  then Ok (current, padding, mkArena (data a) (current +! padding +! size) (capacity a))
  else Panic out_of_memory.

(** A write of [size] bytes at offset [location] of the block, through a pointer
    to a type of the given alignment. *)
Definition write_ok (a : Arena) (alignment location size : Z) : bool :=
  (location + size <=? capacity a) && ((data a +! location) mod alignment =? 0).

(** * The arena monad: computations that allocate *)

Definition amonad (A : Type) : Type := Arena → outcome (A * Arena).

#[export] Instance amonad_ret : MRet amonad := λ A x a, Ok (x, a).

#[export] Instance amonad_bind : MBind amonad := λ A B f m a,
  match m a with
  | Ok (x, a') => f x a'
  | Err e => Err e
  | Panic msg => Panic msg
  | Ub => Ub
  end.

(** A computation that does not allocate. *)
Definition lift {A} (m : outcome A) : amonad A := λ a, x ← m; Ok (x, a).

(** [try_alloc]: the value goes to the offset the counter had, not to the
    padded one. *)
Definition try_alloc `{Layout} {T} (t : rust_type) (value : T) : amonad T := λ a,
  '(current, _, a') ← reserve a (align_of t) (size_of t);
  if write_ok a (align_of t) current (size_of t) then Ok (value, a') else Ub.

Definition try_alloc_array_fill_copy `{Layout} {T} (t : rust_type) (count : Z) (value : T) :
    amonad (list T) := λ a,
  '(current, padding, a') ← reserve a (align_of t) (size_of t *! count);
  if write_ok a (align_of t) (padding + current) (size_of t * count)
  then Ok (replicate (Z.to_nat count) value, a') else Ub.

Definition try_alloc_array_copy `{Layout} {T} (t : rust_type) (value : list T) :
    amonad (list T) := λ a,
  '(current, padding, a') ← reserve a (align_of t) (size_of t * len value);
  if write_ok a (align_of t) (padding + current) (size_of t * len value)
  then Ok (value, a') else Ub.

(** ** Arrays with a fixed capacity

    [aa_room] is the number of bytes that was reserved for the items: less than
    [aa_cap] items when the multiplication wrapped around. *)

Record ArenaArray (T : Type) := mkArenaArray {
  aa_type : rust_type;
  aa_items : list T;
  aa_cap : Z;
  aa_room : Z;
}.
Arguments mkArenaArray {T}.
Arguments aa_type {T}.
Arguments aa_items {T}.
Arguments aa_cap {T}.
Arguments aa_room {T}.

Definition aa_from_raw_parts {T} (t : rust_type) (room cap : Z) : ArenaArray T :=
  mkArenaArray t [] cap room.

Definition try_alloc_array_uninit `{Layout} (t : rust_type) (count : Z) : amonad Z := λ a,
  '(_, _, a') ← reserve a (align_of t) (size_of t *! count);
  Ok (size_of t *! count, a').

Definition try_alloc_arenaarray `{Layout} {T} (t : rust_type) (count : Z) :
    amonad (ArenaArray T) :=
  backing ← try_alloc_array_uninit t count;
  mret (aa_from_raw_parts t backing count).

Definition aa_len {T} (arr : ArenaArray T) : Z := len (aa_items arr).

Definition aa_is_empty {T} (arr : ArenaArray T) : bool := aa_len arr =? 0.

Definition aa_push `{Layout} {T} (arr : ArenaArray T) (item : T) : outcome (ArenaArray T) :=
  if aa_len arr =? aa_cap arr then Panic "arena array is full"
  else if size_of (aa_type arr) * (aa_len arr + 1) <=? aa_room arr
  then Ok (mkArenaArray (aa_type arr) (aa_items arr ++ [item]) (aa_cap arr) (aa_room arr))
  else Ub.

Definition aa_pop {T} (arr : ArenaArray T) : outcome (T * ArenaArray T) :=
  match last (aa_items arr) with
  | None => Panic "arena array is empty"
  | Some value =>
      Ok (value, mkArenaArray (aa_type arr) (take (length (aa_items arr) - 1) (aa_items arr))
                   (aa_cap arr) (aa_room arr))
  end.

Definition into_arena_array {T} (arr : ArenaArray T) : list T := aa_items arr.

(** * Properties of the allocator *)

(** A block that the allocator of the system can have returned (its size is far
    from half the address space), with the counter inside it. *)
Definition arena_wf (a : Arena) : Prop :=
  0 <= data a ∧ 0 <= consumed a <= capacity a ∧ capacity a <= 2 ^ 62 ∧
  data a + capacity a < 2 ^ 64.

Definition free (a : Arena) : Z := capacity a - consumed a.

(** [a'] is [a] after allocations that consumed at most [n] bytes. *)
Definition arena_step (a a' : Arena) (n : Z) : Prop :=
  arena_wf a' ∧ data a' = data a ∧ capacity a' = capacity a ∧
  consumed a <= consumed a' <= consumed a + n.

Lemma arena_step_refl a n : arena_wf a → 0 <= n → arena_step a a n.
Proof. unfold arena_step. intros. split_and!; (done || lia). Qed.

Lemma arena_step_trans a b c m n k :
  arena_step a b m → arena_step b c n → m + n <= k → arena_step a c k.
Proof. unfold arena_step. intros (?&?&?&?) (?&?&?&?) ?. split_and!; (done || congruence || lia). Qed.

Lemma arena_step_free a a' n : arena_step a a' n → free a - n <= free a'.
Proof. unfold arena_step, free. lia. Qed.

Lemma padding_range address alignment current :
  1 <= alignment → 0 <= padding_at address alignment current < alignment.
Proof.
  intros H. unfold padding_at. rewrite (proj2 (Z.eqb_neq _ _)) by lia.
  apply Z.mod_pos_bound. lia.
Qed.

(** The padded address is a multiple of the alignment. *)
Lemma padding_aligned a alignment :
  arena_wf a → 1 <= alignment →
  (data a + (padding_at (data a) alignment (consumed a) + consumed a)) mod alignment = 0.
Proof.
  intros (H1 & H2 & H3 & H4) Ha. unfold padding_at.
  rewrite (proj2 (Z.eqb_neq _ _)) by lia. rewrite wrap64_small by mlia.
  set (x := data a + consumed a).
  replace (data a + (_ + consumed a)) with ((alignment - x mod alignment) mod alignment + x)
    by (unfold x; lia).
  rewrite Zplus_mod_idemp_l. replace (alignment - x mod alignment + x)
    with (x - x mod alignment + 1 * alignment) by lia.
  rewrite Z_mod_plus_full, Zminus_mod, Zmod_mod, Z.sub_diag. by apply Z.mod_0_l; lia.
Qed.

(** A reservation with room for it. *)
Lemma reserve_Ok a alignment size :
  arena_wf a → 1 <= alignment → 0 <= size → alignment - 1 + size <= free a →
  ∃ p a', reserve a alignment size = Ok (consumed a, p, a') ∧ p = padding_at (data a) alignment (consumed a)
    ∧ 0 <= p < alignment ∧ arena_step a a' (alignment - 1 + size).
Proof.
  intros Hwf Ha Hs Hf. pose proof (padding_range (data a) alignment (consumed a) Ha).
  unfold reserve, fits, free in *.
  set (p := padding_at _ _ _) in *. destruct Hwf as (H1 & H2 & H3 & H4).
  unwrap. rewrite (proj2 (Z.leb_le _ _)) by mlia. exists p. eexists.
  split_and!; [done|done|lia|lia|]. unfold arena_step, arena_wf. simpl. mlia.
Qed.

(** A reservation that succeeds stays inside the block; when the size is that of
    an object, the reserved range ends where the counter is. *)
Lemma reserve_inside a alignment size c p a' :
  arena_wf a → 1 <= alignment <= 2 ^ 29 → 0 <= size <= isize_max →
  reserve a alignment size = Ok (c, p, a') →
  c = consumed a ∧ 0 <= p < alignment ∧ arena_wf a' ∧ data a' = data a ∧
  capacity a' = capacity a ∧ consumed a' = c + p + size.
Proof.
  intros (H1 & H2 & H3 & H4) Ha Hs. unfold reserve, fits.
  pose proof (padding_range (data a) alignment (consumed a) ltac:(lia)).
  set (q := padding_at _ _ _) in *. rewrite (wrap64_small (consumed a + q)) by mlia.
  rewrite (wrap64_small (consumed a + q + size)) by mlia.
  destruct (Z.leb_spec (consumed a + q + size) (capacity a)); [|done].
  intros [= <- <- <-]. unfold arena_wf. simpl. split_and!; (done || mlia).
Qed.

Lemma bind_amonad {A B} (f : A → amonad B) (m : amonad A) a x a' :
  m a = Ok (x, a') → (m ≫= f) a = f x a'.
Proof. unfold mbind, amonad_bind. by intros ->. Qed.

Lemma bind_amonad_Ok {A B} (f : A → amonad B) (m : amonad A) a y a' :
  (m ≫= f) a = Ok (y, a') ↔ ∃ x a1, m a = Ok (x, a1) ∧ f x a1 = Ok (y, a').
Proof.
  unfold mbind, amonad_bind. split.
  - destruct (m a) as [[x a1]| | |]; [eauto|done..].
  - by intros (x & a1 & -> & H).
Qed.

Lemma lift_Ok {A} (m : outcome A) a x : m = Ok x → lift m a = Ok (x, a).
Proof. by intros ->. Qed.

Lemma bind_lift {A B} (f : A → amonad B) (m : outcome A) a x :
  m = Ok x → (lift m ≫= f) a = f x a.
Proof. intros ->. done. Qed.

(** ** The allocation functions *)

Lemma mod_0_wrap64 z alignment :
  0 <= z < 2 ^ 64 → z mod alignment = 0 → (wrap64 z mod alignment =? 0) = true.
Proof. intros Hz H. rewrite wrap64_small by mlia. by apply Z.eqb_eq. Qed.

Lemma reserve_padded_write a alignment size c p a' :
  arena_wf a → 1 <= alignment <= 2 ^ 29 → 0 <= size <= isize_max →
  reserve a alignment size = Ok (c, p, a') →
  write_ok a alignment (p + c) size = true.
Proof.
  intros Hwf Ha Hs Hr. assert (p = padding_at (data a) alignment (consumed a)) as Hp.
  { unfold reserve in Hr. case_match; [|done]. by injection Hr. }
  pose proof (reserve_inside _ _ _ _ _ _ Hwf Ha Hs Hr) as (-> & Hpr & Hwf' & _ & Hc & Hn).
  pose proof (padding_aligned a alignment Hwf ltac:(lia)) as Hal. rewrite <- Hp in Hal.
  destruct Hwf as (H1 & H2 & H3 & H4), Hwf' as (_ & H2' & _ & _).
  unfold write_ok. rewrite (proj2 (Z.leb_le _ _)) by lia. simpl.
  apply mod_0_wrap64; [lia|done].
Qed.

Section alloc.
Context `{Layout} {T : Type}.

(** The bytes an array of [count] items can take, padding included. *)
Definition array_room (t : rust_type) (count : Z) : Z := align_of t - 1 + size_of t * count.

Lemma array_room_nonneg t count : 0 <= count → 0 <= array_room t count.
Proof.
  intros Hc. unfold array_room. pose proof (align_of_range t). pose proof (size_of_nonneg t). nia.
Qed.

Lemma try_alloc_array_fill_copy_Ok a t count (value : T) :
  arena_wf a → 0 <= count → array_room t count <= free a →
  ∃ a', try_alloc_array_fill_copy t count value a = Ok (replicate (Z.to_nat count) value, a')
    ∧ arena_step a a' (array_room t count).
Proof.
  intros Hwf Hc Hf. unfold array_room in *. pose proof (align_of_range t).
  pose proof (size_of_nonneg t). assert (0 <= size_of t * count) by nia.
  assert (free a <= 2 ^ 62) by (unfold free, arena_wf in *; lia).
  unfold try_alloc_array_fill_copy. rewrite wrap64_small by mlia.
  destruct (reserve_Ok a (align_of t) (size_of t * count)) as (p & a' & Hr & _ & _ & Hst);
    [done|lia..|].
  exists a'. split; [|done]. rewrite Hr. cbn [mbind outcome_bind].
  by rewrite (reserve_padded_write _ _ _ _ _ _ Hwf (align_of_range t)) by (done || mlia).
Qed.

Lemma try_alloc_array_copy_Ok a t (value : list T) :
  arena_wf a → array_room t (len value) <= free a →
  ∃ a', try_alloc_array_copy t value a = Ok (value, a')
    ∧ arena_step a a' (array_room t (len value)).
Proof.
  intros Hwf Hf. unfold array_room in *. pose proof (align_of_range t).
  pose proof (size_of_nonneg t). pose proof (len_nonneg value).
  assert (0 <= size_of t * len value) by nia.
  assert (free a <= 2 ^ 62) by (unfold free, arena_wf in *; lia).
  unfold try_alloc_array_copy.
  destruct (reserve_Ok a (align_of t) (size_of t * len value)) as (p & a' & Hr & _ & _ & Hst);
    [done|lia..|].
  exists a'. split; [|done]. rewrite Hr. cbn [mbind outcome_bind].
  by rewrite (reserve_padded_write _ _ _ _ _ _ Hwf (align_of_range t)) by (done || mlia).
Qed.

Lemma try_alloc_arenaarray_Ok a t count :
  arena_wf a → 0 <= count → array_room t count <= free a →
  ∃ a', try_alloc_arenaarray t count a
          = Ok (aa_from_raw_parts (T := T) t (size_of t * count) count, a')
    ∧ arena_step a a' (array_room t count).
Proof.
  intros Hwf Hc Hf. unfold array_room in *. pose proof (align_of_range t).
  pose proof (size_of_nonneg t). assert (0 <= size_of t * count) by nia.
  assert (free a <= 2 ^ 62) by (unfold free, arena_wf in *; lia).
  unfold try_alloc_arenaarray, try_alloc_array_uninit.
  destruct (reserve_Ok a (align_of t) (size_of t * count)) as (p & a' & Hr & _ & _ & Hst);
    [done|lia..|].
  exists a'. split; [|done]. unfold mbind at 1, amonad_bind.
  rewrite (wrap64_small (size_of t * count)) by mlia. by rewrite Hr.
Qed.

(** A single value is stored at the unpadded offset, which must be aligned. *)
Lemma try_alloc_Ok a t (value : T) :
  arena_wf a → (data a + consumed a) mod align_of t = 0 → array_room t 1 <= free a →
  ∃ a', try_alloc t value a = Ok (value, a') ∧ arena_step a a' (array_room t 1).
Proof.
  intros Hwf Hal Hf. unfold array_room in *. rewrite Z.mul_1_r in *.
  pose proof (align_of_range t). pose proof (size_of_nonneg t).
  unfold try_alloc.
  destruct (reserve_Ok a (align_of t) (size_of t)) as (p & a' & Hr & _ & Hp & Hst); [done|lia..|].
  exists a'. split; [|done]. rewrite Hr. cbn [mbind outcome_bind].
  destruct Hwf as (Hw1 & Hw2 & Hw3 & Hw4). unfold free in *.
  unfold write_ok. by rewrite (proj2 (Z.leb_le _ _)), mod_0_wrap64 by (done || lia).
Qed.

(** Pushing within the reserved room. *)
Lemma aa_push_Ok (arr : ArenaArray T) x :
  aa_len arr < aa_cap arr → size_of (aa_type arr) * aa_cap arr <= aa_room arr →
  aa_push arr x = Ok (mkArenaArray (aa_type arr) (aa_items arr ++ [x]) (aa_cap arr) (aa_room arr)).
Proof.
  intros Hl Hr. unfold aa_push. rewrite (proj2 (Z.eqb_neq _ _)) by lia.
  pose proof (size_of_nonneg (aa_type arr)).
  by rewrite (proj2 (Z.leb_le _ _)) by nia.
Qed.

Lemma aa_push_all (arr : ArenaArray T) l :
  aa_len arr + len l <= aa_cap arr → size_of (aa_type arr) * aa_cap arr <= aa_room arr →
  for_each aa_push l arr
  = Ok (mkArenaArray (aa_type arr) (aa_items arr ++ l) (aa_cap arr) (aa_room arr)).
Proof.
  revert arr. induction l as [|x l IH]; intros arr Hl Hr; cbn [for_each].
  - rewrite app_nil_r. by destruct arr.
  - pose proof (len_nonneg l). rewrite len_cons in Hl.
    rewrite aa_push_Ok by (done || lia). cbn [mbind outcome_bind]. rewrite IH; simpl.
    + by rewrite <- app_assoc.
    + unfold aa_len in *. simpl. rewrite len_app, len_cons, len_nil. lia.
    + done.
Qed.

End alloc.

(** * The compare-and-exchange loops, interleaved

    Each thread loads the counter, then loops: it checks that the request fits,
    and exchanges the counter it knows for the advanced one.  The exchange is
    the weak one, so it may fail although the counter has not moved. *)

(** A number of values of a type *)
Record request := mkRequest {
  rq_align : Z;
  rq_size_t : Z;
  rq_count : Z;
  rq_padded : bool; (** [false] for [try_alloc] *)
}.

(** The size as the code computes it, and the room that the values take *)
Definition rq_size (r : request) : Z := rq_size_t r *! rq_count r.
Definition rq_bytes (r : request) : Z := rq_size_t r * rq_count r.

Record region := mkRegion {
  rg_request : request;
  rg_start : Z;
}.

Definition rg_end (r : region) : Z := rg_start r + rq_bytes (rg_request r).

Record shared := mkShared {
  sh_arena : Arena;
  sh_threads : gmap nat (request * Z); (** the threads inside a loop, with the counter they know *)
  sh_regions : list region; (** what has been handed out, the latest first *)
  sh_requests : list request; (** all that were made, for the record *)
}.

(** What the language guarantees of a type and a count *)
Definition request_typed (r : request) : Prop :=
  1 <= rq_align r <= 2 ^ 29 ∧ 0 <= rq_size_t r <= isize_max ∧ in_u64 (rq_count r).

(** The values are within what memory can hold, which the code does not check. *)
Definition request_ok (r : request) : Prop := request_typed r ∧ rq_bytes r <= isize_max.

Definition advance (a : Arena) (r : request) (current : Z) : Arena :=
  mkArena (data a)
    (current +! padding_at (data a) (rq_align r) current +! rq_size r) (capacity a).

Definition location (a : Arena) (r : request) (current : Z) : Z :=
  if rq_padded r then padding_at (data a) (rq_align r) current + current else current.

Inductive alloc_step : shared → shared → Prop :=
| step_load t r a ths rgs rqs :
    ths !! t = None → request_typed r →
    alloc_step (mkShared a ths rgs rqs) (mkShared a (<[t := (r, consumed a)]> ths) rgs (r :: rqs))
| step_exchange t r a ths rgs rqs :
    ths !! t = Some (r, consumed a) →
    fits a (rq_align r) (rq_size r) (consumed a) = true →
    alloc_step (mkShared a ths rgs rqs)
      (mkShared (advance a r (consumed a)) (delete t ths)
         (mkRegion r (location a r (consumed a)) :: rgs) rqs)
| step_retry t r current a ths rgs rqs :
    ths !! t = Some (r, current) →
    fits a (rq_align r) (rq_size r) current = true →
    alloc_step (mkShared a ths rgs rqs) (mkShared a (<[t := (r, consumed a)]> ths) rgs rqs)
| step_panic t r current a ths rgs rqs :
    ths !! t = Some (r, current) →
    fits a (rq_align r) (rq_size r) current = false →
    alloc_step (mkShared a ths rgs rqs) (mkShared a (delete t ths) rgs rqs).

Definition disjoint_regions (r1 r2 : region) : Prop :=
  rg_end r1 <= rg_start r2 ∨ rg_end r2 <= rg_start r1.

Definition region_ok (a : Arena) (r : region) : Prop :=
  0 <= rg_start r ∧ rg_end r <= consumed a ∧
  (rq_padded (rg_request r) = true → (data a + rg_start r) mod rq_align (rg_request r) = 0).

Definition shared_ok (s : shared) : Prop :=
  arena_wf (sh_arena s) ∧
  (∀ t r c, sh_threads s !! t = Some (r, c) → r ∈ sh_requests s) ∧
  Forall (region_ok (sh_arena s)) (sh_regions s) ∧
  ForallOrdPairs disjoint_regions (sh_regions s).

Lemma request_ok_size r : request_ok r → rq_size r = rq_bytes r ∧ 0 <= rq_size r <= isize_max.
Proof.
  intros [(_ & Hs & Hc) Hb]. assert (0 <= rq_bytes r) by (unfold rq_bytes, in_u64 in *; nia).
  assert (rq_size r = rq_bytes r) as -> by (apply wrap64_small; fold (rq_bytes r); unfold in_u64, isize_max in *; lia). done.
Qed.

(** The exchange hands out a region after all the earlier ones. *)
Lemma exchange_region a r :
  arena_wf a → request_ok r → fits a (rq_align r) (rq_size r) (consumed a) = true →
  arena_wf (advance a r (consumed a)) ∧
  region_ok (advance a r (consumed a)) (mkRegion r (location a r (consumed a))) ∧
  consumed a <= location a r (consumed a) ∧ consumed a <= consumed (advance a r (consumed a)).
Proof.
  intros Hwf Hok Hf. pose proof (request_ok_size r Hok) as [Hsz Hs]. destruct Hok as [(Ha & _) _].
  assert (reserve a (rq_align r) (rq_size r)
    = Ok (consumed a, padding_at (data a) (rq_align r) (consumed a), advance a r (consumed a))) as Hr.
  { unfold reserve. by rewrite Hf. }
  pose proof (padding_aligned a (rq_align r) Hwf ltac:(lia)).
  pose proof (reserve_inside _ _ _ _ _ _ Hwf Ha Hs Hr) as (_ & Hp & Hwf' & Hd & Hc & Hn).
  split; [done|]. unfold region_ok, rg_end, location. cbn [rg_start rg_request]. rewrite <- Hsz.
  rewrite Hn, Hd. destruct Hwf as (_ & ? & _). destruct (rq_padded r); split_and!; (done || lia).
Qed.

Lemma region_ok_mono a a' r :
  data a' = data a → consumed a <= consumed a' → region_ok a r → region_ok a' r.
Proof. unfold region_ok. intros -> Hc (?&?&?). split_and!; (done || lia). Qed.

Lemma alloc_step_ok s s' : Forall request_ok (sh_requests s') → shared_ok s → alloc_step s s' → shared_ok s'.
Proof.
  intros Hrq (Hwf & Hth & Hrg & Hdj) Hst. rewrite Forall_forall in Hrq. destruct Hst; simpl in *.
  1,3: split_and!; simpl; try done; intros t' r' c'; rewrite lookup_insert_Some;
    intros [[_ [= <- <-]]|[_ ?]]; rewrite ?elem_of_cons; eauto.
  - destruct (exchange_region a r) as (Hwf' & Hok & Hlo & Hmono); [done|eauto|done|].
    split_and!; simpl; [done| | |].
    + intros t' r' c'. rewrite lookup_delete_Some. intros [_ ?]. eauto.
    + constructor; [done|]. eapply Forall_impl; [done|].
      intros x. by apply region_ok_mono.
    + constructor; [|done]. eapply Forall_impl; [done|].
      intros x (_ & Hx & _). right. simpl. lia.
  - split_and!; simpl; try done.
    intros t' r' c'. rewrite lookup_delete_Some. intros [_ ?]. eauto.
Qed.

Definition alloc_start (a : Arena) : shared := mkShared a ∅ [] [].

Lemma alloc_start_ok a : arena_wf a → shared_ok (alloc_start a).
Proof. intros Hwf. split_and!; simpl; [done|done|constructor|constructor]. Qed.

Lemma alloc_requests s s' : rtc alloc_step s s' → ∀ r, r ∈ sh_requests s → r ∈ sh_requests s'.
Proof. induction 1 as [|s s1 s' Hst _ IH]; [done|]. intros r Hr. apply IH. destruct Hst; [by right|done..]. Qed.

Lemma alloc_steps_ok s s' : rtc alloc_step s s' → Forall request_ok (sh_requests s') → shared_ok s → shared_ok s'.
Proof.
  induction 1 as [|s s1 s' Hst Hsts IH]; [done|]. intros Hrq Hok. apply IH; [done|]. eapply alloc_step_ok; [|exact Hok|exact Hst].
  rewrite Forall_forall in *. intros r Hr. apply Hrq. by eapply alloc_requests.
Qed.

Lemma region_ok_inside a r : arena_wf a → region_ok a r → 0 <= rg_start r ∧ rg_end r <= capacity a.
Proof. intros (_ & ? & _) (? & ? & _). lia. Qed.

(** A request for all the bytes up to [2 ^ 64] takes the counter back to zero. *)
Lemma counter_goes_back s :
  0 < consumed (sh_arena s) < 2 ^ 64 → 0 <= capacity (sh_arena s) →
  ∃ s', rtc alloc_step s s' ∧ consumed (sh_arena s') = 0 ∧ sh_regions s `suffix_of` sh_regions s'.
Proof.
  destruct s as [a ths rgs rqs]. cbn [sh_arena sh_regions]. intros Hc Hcap. set (r := mkRequest 1 1 (2 ^ 64 - consumed a) true).
  assert (padding_at (data a) (rq_align r) (consumed a) = 0) as Hp by (unfold padding_at; cbn; by rewrite !Z.mod_1_r).
  assert (consumed a +! 0 +! rq_size r = 0) as Hsum.
  { unfold rq_size, wrap64. cbn [rq_size_t rq_count r]. rewrite Z.mul_1_l, Z.add_0_r, Zplus_mod_idemp_l, Zplus_mod_idemp_r.
    by replace (consumed a + (2 ^ 64 - consumed a)) with (2 ^ 64) by lia. }
  eexists. split; [eapply rtc_l; [apply (step_load (fresh (dom ths)) r)|eapply rtc_l; [apply (step_exchange (fresh (dom ths)) r)|apply rtc_refl]]|].
  - apply not_elem_of_dom, is_fresh.
  - unfold request_typed, in_u64, isize_max. cbn. lia.
  - by rewrite lookup_insert_eq.
  - unfold fits. rewrite Hp, Hsum. by apply Z.leb_le.
  - cbn [sh_arena sh_regions advance consumed]. rewrite Hp, Hsum. split; [done|]. by eexists [_].
Qed.

(** * The properties *)

Import Toy.

(** C38. The regions handed out by any interleaving of allocations, from a fresh arena on, are inside the block, pairwise
    disjoint, and (but for those of [try_alloc]) aligned, provided that no request is for more values than memory can
    hold: the code multiplies and adds without a check. With one that is, the sum can wrap around, and
    the counter then goes back below a region that was handed out. *)
Theorem arena_regions_disjoint a s :
  arena_wf a → rtc alloc_step (alloc_start a) s →
  (Forall request_ok (sh_requests s) →
   arena_wf (sh_arena s) ∧
   ForallOrdPairs disjoint_regions (sh_regions s) ∧
   Forall (λ r, 0 <= rg_start r ∧ rg_end r <= capacity (sh_arena s) ∧
     (rq_padded (rg_request r) = true →
      (data (sh_arena s) + rg_start r) mod rq_align (rg_request r) = 0)) (sh_regions s)) ∧
  (0 < consumed (sh_arena s) < 2 ^ 64 → 0 <= capacity (sh_arena s) →
   ∃ s', rtc alloc_step s s' ∧ consumed (sh_arena s') = 0 ∧ sh_regions s `suffix_of` sh_regions s').
Proof.
  intros Hwf Hst. split; [|by apply counter_goes_back]. intros Hrq.
  destruct (alloc_steps_ok _ _ Hst Hrq (alloc_start_ok a Hwf)) as (Hw & _ & Hr & Hd).
  split_and!; [done|done|]. eapply Forall_impl; [done|]. intros r Hok.
  pose proof (region_ok_inside _ _ Hw Hok). destruct Hok as (? & ? & ?). split_and!; (done || lia).
Qed.

Lemma arena_regions_disjoint_witness :
  let r1 := mkRequest 1 1 3 true in
  let r2 := mkRequest 8 16 1 true in
  let s := mkShared (mkArena 4096 24 64) ∅ [mkRegion r2 8; mkRegion r1 0] [r2; r1] in
  rtc alloc_step (alloc_start (mkArena 4096 0 64)) s ∧ ForallOrdPairs disjoint_regions (sh_regions s).
Proof.
  intros r1 r2 s.
  assert (rtc alloc_step (alloc_start (mkArena 4096 0 64)) s) as Hst.
  { assert (request_typed r1) by (unfold request_typed, in_u64, isize_max; simpl; lia).
    assert (request_typed r2) by (unfold request_typed, in_u64, isize_max; simpl; lia).
    eapply rtc_l; [by apply (step_load 1 r1)|].
    eapply rtc_l; [by apply (step_load 2 r2)|].
    eapply rtc_l; [by apply (step_exchange 1 r1)|].
    eapply rtc_l; [by apply (step_retry 2 r2 0)|].
    eapply rtc_l; [by apply (step_exchange 2 r2)|].
    apply rtc_refl. }
  split; [done|].
  destruct (arena_regions_disjoint (mkArena 4096 0 64) s) as [Hd _]; [unfold arena_wf; simpl; lia|done|].
  apply Hd. apply Forall_cons. split; [|apply Forall_singleton].
  - split; [unfold request_typed, in_u64, isize_max|unfold rq_bytes, isize_max]; simpl; lia.
  - split; [unfold request_typed, in_u64, isize_max|unfold rq_bytes, isize_max]; simpl; lia.
Defined.

Lemma try_alloc_misaligned `{Layout} {T} a t (value : T) :
  arena_wf a → (data a + consumed a) mod align_of t ≠ 0 → array_room t 1 <= free a → try_alloc t value a = Ub.
Proof.
  intros Hwf Hal Hf. pose proof (align_of_range t). pose proof (size_of_nonneg t). pose proof (size_of_max t).
  unfold array_room in Hf. unfold try_alloc.
  destruct (reserve_Ok a (align_of t) (size_of t)) as (p & a' & -> & _); [done|lia..|].
  cbn [mbind outcome_bind]. destruct Hwf as (H1' & H2' & H3' & H4').
  unfold write_ok, free in *. rewrite wrap64_small by mlia.
  by rewrite (proj2 (Z.eqb_neq _ _) Hal), andb_false_r.
Qed.

(** The outcomes of [try_alloc] when the value would fit: the value
    is stored if the next free address happens to be aligned; otherwise the
    write goes to the unpadded address, which is undefined behaviour. *)
Theorem try_alloc_outcomes `{Layout} {T} a t (value : T) :
  arena_wf a →
  (array_room t 1 <= free a →
   ∃ a', try_alloc t value a
     = if (data a + consumed a) mod align_of t =? 0 then Ok (value, a') else Ub) ∧
  (free a < size_of t → try_alloc t value a = Panic out_of_memory).
Proof.
  intros Hwf. pose proof (align_of_range t). pose proof (size_of_nonneg t). pose proof (size_of_max t).
  split; intros Hf.
  - destruct (Z.eqb_spec ((data a + consumed a) mod align_of t) 0) as [Hal|Hal].
    + destruct (try_alloc_Ok a t value Hwf Hal Hf) as (a' & Ht & _). eauto.
    + exists a. by apply try_alloc_misaligned.
  - unfold try_alloc, reserve, fits. pose proof (padding_range (data a) (align_of t) (consumed a)).
    destruct Hwf as (H1' & H2' & H3' & H4'). unfold free in *. unwrap.
    by rewrite (proj2 (Z.leb_gt _ _)) by lia.
Qed.

Lemma try_alloc_outcomes_witness :
  arena_wf (mkArena 4096 3 64) ∧ try_alloc RInv tt (mkArena 4096 3 64) = Ub ∧
  try_alloc RInv tt (mkArena 4096 8 64) = Ok (tt, mkArena 4096 24 64).
Proof.
  assert (∀ c, 0 <= c <= 64 → arena_wf (mkArena 4096 c 64)) as Hwf
    by (intros; unfold arena_wf; simpl; lia).
  split; [apply Hwf; lia|]. split; [|done].
  destruct (try_alloc_outcomes (mkArena 4096 3 64) RInv tt (Hwf 3 ltac:(lia))) as [Hok _].
  destruct Hok as [a' Hok]; [vm_compute; discriminate|]. exact Hok.
Defined.

(** The size of an array is computed without an overflow check:
    when the product wraps around to a size that fits, the items are written
    past the end of the block. *)
Theorem fill_copy_overflow_ub `{Layout} {T} a t count (value : T) :
  arena_wf a → capacity a < size_of t * count →
  align_of t - 1 + (size_of t *! count) <= free a →
  try_alloc_array_fill_copy t count value a = Ub.
Proof.
  intros Hwf Hbig Hf. pose proof (align_of_range t).
  pose proof (wrap64_range (size_of t * count)). unfold try_alloc_array_fill_copy.
  destruct (reserve_Ok a (align_of t) (size_of t *! count)) as (p & a' & -> & _ & Hp & _);
    [done|mlia..|].
  cbn [mbind outcome_bind]. destruct Hwf as (_ & ? & _). unfold write_ok.
  by rewrite (proj2 (Z.leb_gt _ _)) by lia.
Qed.

Lemma fill_copy_overflow_ub_witness :
  try_alloc_array_fill_copy RInv (2 ^ 60) tt (mkArena 4096 0 64) = Ub.
Proof.
  apply fill_copy_overflow_ub; [|vm_compute; done|vm_compute; discriminate].
  unfold arena_wf. simpl. lia.
Defined.
