(* ===== verification/Wire.v ===== *)
(** [src/packets/mod.rs] and the traits of [src/packets/packetpayload.rs]: the
    interface between the types that travel on the wire and the generic readers
    and writers of arrays.

    A [...Borrowed] struct of the code and its [...Owned] twin hold the same
    fields, one by reference and the other by value; here they are one record,
    and the [From] implementations between them are the identity. *)
From S2P Require Import Prelude.
From S2P Require Import Extern.
From S2P Require Import Buffer.
From S2P Require Import Varint.
From S2P Require Import Arena.

(** * The traits *)

Class Default (T : Type) := default_value : T.

(** The type under which rustc lays the values of a Rocq type out. *)
Class HasType (T : Type) := type_of : rust_type.
#[export] Hint Mode HasType + : typeclass_instances.
Arguments type_of T {_}.

Class Serializable (T : Type) := {
  serialize : ∀ {B} `{BufMut B}, T → B → outcome B;
}.

(** The first argument is [&mut self]: the value whose fields are set. *)
Class DeserializableBorrowed (T : Type) := {
  deserialize_borrowed : T → bytes → amonad (T * Z);
}.

Class DeserializableOwned (T : Type) := {
  deserialize_owned : bytes → outcome (T * Z);
}.

(** * Arrays *)

(** One iteration of the loop of [deserialize_array] over the slots of the array. *)
Definition deserialize_item {T} `{DeserializableBorrowed T} (buffer : bytes)
    (s : list T * Z * Arena) (item : T) : outcome (list T * Z * Arena) :=
  let '(done, offset, a) := s in
  b ← with_offset buffer offset;
  '(item, n, a) ← deserialize_borrowed item b a;
  Ok (done ++ [item], offset +! n, a).

Definition deserialize_items {T} `{DeserializableBorrowed T} (buffer : bytes)
    (array : list T) (offset : Z) : amonad (list T * Z) := λ a,
  for_each (deserialize_item buffer) array ([], offset, a).

Definition deserialize_array {T} `{DeserializableBorrowed T, Default T, HasType T, Layout}
    (buffer : bytes) : amonad (list T * Z) :=
  '(count, offset) ← lift (deserialize_varint buffer);
  array ← try_alloc_array_fill_copy (type_of T) count (default_value (T := T));
  deserialize_items buffer array offset.

(** [Vec::with_capacity]: panics when the vector would exceed [isize::MAX] bytes. *)
Definition with_capacity `{Layout} {T} (t : rust_type) (count : Z) : outcome (list T) :=
  if size_of t * count <=? isize_max then Ok [] else Panic "capacity overflow".

Definition deserialize_item_owned {T} `{DeserializableOwned T} (buffer : bytes)
    (s : list T * Z) : outcome (list T * Z) :=
  let '(vec, offset) := s in
  b ← with_offset buffer offset;
  '(item, consumed) ← deserialize_owned b;
  Ok (vec ++ [item], offset +! consumed).

Definition deserialize_array_owned {T} `{DeserializableOwned T, HasType T, Layout}
    (buffer : bytes) : outcome (list T * Z) :=
  '(count, offset) ← deserialize_varint buffer;
  vec ← with_capacity (type_of T) count;
  repeat_for count (deserialize_item_owned buffer) (vec, offset).

Definition serialize_array {T} `{Serializable T} {B} `{BufMut B} (array : list T) (into : B) :
    outcome B :=
  '(into, _) ← serialize_varint (len array) into;
  for_each (λ into item, serialize item into) array into.

(** [impl DeserializableOwned for u64] *)
Definition u64_deserialize_owned (buffer : bytes) : outcome (Z * Z) :=
  v ← get_u64_le buffer 0; Ok (v, 8).

(** * What the implementations promise

    [encode x] is the wire format of [x], [valid x] says that the fields of [x]
    are in the range of their types. *)

Class Wire (T : Type) := {
  encode : T → bytes;
  valid : T → Prop;
}.

Class SerializableOk (T : Type) `{Wire T, Serializable T} :=
  serialize_spec : ∀ B (HB : BufMut B) (x : T) (b : B), serialize x b = put_slice b (encode x).

Class OwnedOk (T : Type) `{Wire T, DeserializableOwned T} :=
  deserialize_owned_encode : ∀ (x : T) rest, valid x → slice_ok (encode x ++ rest) →
    deserialize_owned (encode x ++ rest) = Ok (x, len (encode x)).

(** [need x] bounds the bytes of arena that reading [x] consumes. *)
Class BorrowedOk (T : Type) `{Wire T, DeserializableBorrowed T} := {
  need : T → Z;
  need_nonneg x : 0 <= need x;
  deserialize_borrowed_encode (self x : T) rest a :
    valid x → slice_ok (encode x ++ rest) → arena_wf a → need x <= free a →
    ∃ a', deserialize_borrowed self (encode x ++ rest) a = Ok (x, len (encode x), a')
      ∧ arena_step a a' (need x);
}.

(** A reader that keeps nothing of the value it overwrites and does not allocate. *)
Definition plain_reader {T} (f : bytes → outcome (T * Z)) : T → bytes → amonad (T * Z) :=
  λ _ b, lift (f b).

Lemma plain_reader_Ok {T} (f : bytes → outcome (T * Z)) self b x n a :
  arena_wf a → f b = Ok (x, n) →
  ∃ a', plain_reader f self b a = Ok (x, n, a') ∧ arena_step a a' 0.
Proof.
  intros Hwf Hf. exists a. unfold plain_reader, lift. rewrite Hf.
  split; [done|]. by apply arena_step_refl.
Qed.

Definition encode_array {T} `{Wire T} (l : list T) : bytes :=
  encode_varint (len l) ++ concat (map encode l).

(** The values of a message that is one array. *)
Definition array_valid {T} `{Wire T} (l : list T) : Prop := Forall valid l ∧ len l <= isize_max.

(** A [Vec] of the values fits in the address space. *)
Definition vec_ok {T} `{HasType T, Layout} (l : list T) : Prop :=
  size_of (type_of T) * len l <= isize_max.

Section arrays.
Context {T : Type} `{Wire T}.

Lemma len_encode_array (l : list T) :
  len (encode_array l) = length_varint (len l) + len (concat (map encode l)).
Proof. unfold encode_array. by autorewrite with len. Qed.

Lemma serialize_array_spec `{!Serializable T, !SerializableOk T} {B} `{BufMut B}
    (l : list T) (b : B) :
  serialize_array l b = put_slice b (encode_array l).
Proof.
  unfold serialize_array, encode_array. put_steps.
  apply for_each_put. intros b' x _. apply serialize_spec.
Qed.

Lemma deserialize_varint_array (l : list T) rest :
  len l <= isize_max → slice_ok (encode_array l ++ rest) →
  deserialize_varint (encode_array l ++ rest) = Ok (len l, length_varint (len l)) ∧
  tail_at (encode_array l ++ rest) (length_varint (len l)) (concat (map encode l) ++ rest).
Proof.
  intros Hl Hb. pose proof (len_nonneg l). unfold encode_array in *.
  rewrite <- app_assoc in *. split.
  - apply deserialize_varint_encode; [mlia|done].
  - rewrite <- len_encode_varint. apply (tail_at_app _ 0), tail_at_0.
Qed.

Lemma deserialize_items_encode `{!DeserializableBorrowed T, !BorrowedOk T}
    buffer (l slots : list T) i rest a acc :
  length slots = length l → Forall valid l → slice_ok buffer →
  tail_at buffer i (concat (map encode l) ++ rest) →
  arena_wf a → foldr (λ x n, need x + n) 0 l <= free a →
  ∃ a', for_each (deserialize_item buffer) slots (acc, i, a)
          = Ok (acc ++ l, i + len (concat (map encode l)), a')
    ∧ arena_step a a' (foldr (λ x n, need x + n) 0 l).
Proof.
  intros Hlen Hv Hb. revert l i a acc Hlen Hv.
  induction slots as [|slot slots IH]; intros [|x l] i a acc Hlen Hv Ht Hwf Hf; try done.
  - exists a. simpl. rewrite app_nil_r, Z.add_0_r. split; [done|]. by apply arena_step_refl.
  - simpl in *. injection Hlen as Hlen. apply Forall_cons_1 in Hv as [Hx Hv].
    rewrite <- app_assoc in Ht. pose proof (tail_at_app _ _ _ _ Ht) as Ht'.
    rewrite (with_offset_at _ _ _ Ht). cbn [mbind outcome_bind].
    assert (0 <= foldr (λ x n, need x + n) 0 l).
    { clear. induction l as [|y l IH]; simpl; [done|]. pose proof (need_nonneg y). lia. }
    destruct Ht as (Hi & Hil & _). pose proof (len_nonneg (encode x)).
    pose proof (len_nonneg (concat (map encode l) ++ rest)). pose proof (need_nonneg x).
    destruct (deserialize_borrowed_encode slot x (concat (map encode l) ++ rest) a)
      as (a1 & -> & Hst); [done|unfold slice_ok in *; rewrite len_app in *; lia|done|lia|].
    cbn [mbind outcome_bind]. rewrite wrap64_small by (rewrite len_app in *; mlia).
    pose proof (arena_step_free _ _ _ Hst).
    destruct (IH l (i + len (encode x)) a1 (acc ++ [x]) Hlen Hv Ht') as (a2 & -> & Hst');
      [by destruct Hst|lia|].
    exists a2. split; [|by eapply arena_step_trans].
    rewrite <- app_assoc, len_app. simpl. do 3 f_equal. lia.
Qed.

Context `{HasType T, Layout}.

Definition array_need `{!DeserializableBorrowed T, !BorrowedOk T} (l : list T) : Z :=
  array_room (type_of T) (len l) + foldr (λ x n, need x + n) 0 l.

Lemma sum_need_nonneg `{!DeserializableBorrowed T, !BorrowedOk T} (l : list T) :
  0 <= foldr (λ x n, need x + n) 0 l.
Proof. induction l as [|y l IH]; simpl; [done|]. pose proof (need_nonneg y). lia. Qed.

Lemma array_need_nonneg `{!DeserializableBorrowed T, !BorrowedOk T} (l : list T) :
  0 <= array_need l.
Proof.
  unfold array_need. pose proof (array_room_nonneg (type_of T) (len l) (len_nonneg l)).
  pose proof (sum_need_nonneg l). lia.
Qed.

Lemma deserialize_array_encode `{!DeserializableBorrowed T, !BorrowedOk T, !Default T}
    (l : list T) rest a :
  Forall valid l → len l <= isize_max → slice_ok (encode_array l ++ rest) →
  arena_wf a → array_need l <= free a →
  ∃ a', deserialize_array (encode_array l ++ rest) a = Ok (l, len (encode_array l), a')
    ∧ arena_step a a' (array_need l).
Proof.
  intros Hv Hl Hb Hwf Hf. pose proof (len_nonneg l). unfold array_need in *.
  pose proof (sum_need_nonneg l).
  destruct (deserialize_varint_array l rest Hl Hb) as [Hd Ht].
  unfold deserialize_array. rewrite (bind_lift _ _ _ _ Hd). cbv beta iota.
  destruct (try_alloc_array_fill_copy_Ok a (type_of T) (len l) (default_value (T := T)))
    as (a1 & Hal & Hst); [done|lia|lia|].
  rewrite (bind_amonad _ _ _ _ _ Hal). unfold deserialize_items. pose proof (arena_step_free _ _ _ Hst).
  destruct (deserialize_items_encode _ l (replicate (Z.to_nat (len l)) default_value) _ rest a1 []
    ltac:(rewrite length_replicate; unfold len; lia) Hv Hb Ht) as (a2 & -> & Hst');
    [by destruct Hst|lia|].
  exists a2. rewrite len_encode_array. split; [done|]. by eapply arena_step_trans.
Qed.

(** Messages that are one array. *)
Lemma array_message_encode `{!DeserializableBorrowed T, !BorrowedOk T, !Default T} {M}
    (wrap : list T → M) (l : list T) rest a :
  Forall valid l → len l <= isize_max → slice_ok (encode_array l ++ rest) →
  arena_wf a → array_need l <= free a →
  ∃ a', ('(deserialized, consumed) ← deserialize_array (encode_array l ++ rest);
         mret (wrap deserialized, consumed)) a = Ok (wrap l, len (encode_array l), a')
    ∧ arena_step a a' (array_need l).
Proof.
  intros. destruct (deserialize_array_encode l rest a) as (a' & Hd & Hst); [done..|].
  exists a'. by rewrite (bind_amonad _ _ _ _ _ Hd).
Qed.

Lemma deserialize_items_owned_encode `{!DeserializableOwned T, !OwnedOk T}
    buffer (l : list T) i rest acc :
  Forall valid l → slice_ok buffer → tail_at buffer i (concat (map encode l) ++ rest) →
  iter_nat (deserialize_item_owned buffer) (length l) (acc, i)
  = Ok (acc ++ l, i + len (concat (map encode l))).
Proof.
  intros Hv Hb. revert i acc Hv.
  induction l as [|x l IH]; intros i acc Hv Ht; simpl in *.
  - by rewrite app_nil_r, Z.add_0_r.
  - apply Forall_cons_1 in Hv as [Hx Hv].
    rewrite <- app_assoc in Ht. pose proof (tail_at_app _ _ _ _ Ht) as Ht'.
    rewrite (with_offset_at _ _ _ Ht). cbn [mbind outcome_bind].
    destruct Ht as (Hi & Hil & _). pose proof (len_nonneg (encode x)).
    pose proof (len_nonneg (concat (map encode l) ++ rest)).
    rewrite deserialize_owned_encode by (done || unfold slice_ok in *; rewrite len_app in *; lia).
    cbn [mbind outcome_bind]. rewrite wrap64_small by (rewrite len_app in *; mlia).
    rewrite IH by done. rewrite <- app_assoc, len_app. simpl. do 2 f_equal. lia.
Qed.

Lemma deserialize_array_owned_encode `{!DeserializableOwned T, !OwnedOk T} (l : list T) rest :
  Forall valid l → len l <= isize_max → vec_ok l → slice_ok (encode_array l ++ rest) →
  deserialize_array_owned (encode_array l ++ rest) = Ok (l, len (encode_array l)).
Proof.
  intros Hv Hl Hs Hb. destruct (deserialize_varint_array l rest Hl Hb) as [Hd Ht].
  unfold deserialize_array_owned. rewrite Hd. cbn [mbind outcome_bind].
  unfold with_capacity. rewrite (proj2 (Z.leb_le _ _)) by exact Hs. cbn [mbind outcome_bind].
  rewrite repeat_for_len, (deserialize_items_owned_encode _ _ _ _ [] Hv Hb Ht).
  by rewrite len_encode_array.
Qed.
End arrays.

(** [put_steps], through the writers of the classes as well. *)
Ltac wire_steps :=
  repeat (autorewrite with put; rewrite ?serialize_array_spec, ?serialize_spec;
          cbn [mbind outcome_bind]; rewrite ?bind_ret;
          first [reflexivity | apply bind_ext; intros ?]).

#[export] Hint Rewrite @len_encode_array : len.
