(* ===== verification/Pow.v ===== *)
(** [src/util/compact.rs] and [src/util/pow.rs]: the compact encoding of targets
    and the difficulty adjustment. *)
From S2P Require Import Prelude.
From S2P Require Import Extern.

Definition POW_TARGET_TIMESPAN : Z := 14 * 24 * 60 * 60.
Definition POW_TARGET_SPACING : Z := 10 * 60.
Definition POW_LIMIT : Z := 2 ^ 224 - 1.
Definition DIFFICULTY_ADJUSTMENT_INTERVAL : Z := POW_TARGET_TIMESPAN / POW_TARGET_SPACING.

Section pow.
Context `{U256Lib}.

Definition u256_from_compact (compact : Z) : Z :=
  let size := Z.shiftr compact 24 in
  let word := Z.land compact 0x007FFFFF in
  let ret := u256_from_u64 word in
  if size <=? 3 then u256_shr ret (8 * (3 - size))
  else u256_shl ret (8 * (size - 3)).

Definition compact_from_u256 (value : Z) : outcome Z :=
  let size := (u256_bits value + 7) / 8 in
  compact ←
    (if size <=? 3 then
       v ← u256_as_u32 value;
       Ok (wrap32 (Z.shiftl v (8 * (3 - size))))
     else u256_as_u32 (u256_shr value (8 * (size - 3))));
  let '(compact, size) :=
    if Z.land compact 0x00800000 =? 0x00800000
    then (Z.shiftr compact 8, size + 1) else (compact, size) in
  Ok (Z.lor compact (wrap32 (Z.shiftl size 24))).

(** [last_timestamp - first_block_time] is the wrapping difference of [u32]s. *)
Definition calculate_next_work_required (last_timestamp first_block_time last_bits : Z) :
    outcome Z :=
  let actual_timestamp := wrap32 (last_timestamp - first_block_time) in
  let actual_timestamp :=
    if actual_timestamp <? POW_TARGET_TIMESPAN / 4 then POW_TARGET_TIMESPAN / 4
    else if POW_TARGET_TIMESPAN * 4 <? actual_timestamp then POW_TARGET_TIMESPAN * 4
    else actual_timestamp in
  product ← u256_mul (u256_from_compact last_bits) (u256_from_u64 actual_timestamp);
  difficulty ← u256_div product (u256_from_u64 POW_TARGET_TIMESPAN);
  compact_from_u256 (if POW_LIMIT <? difficulty then POW_LIMIT else difficulty).

(** * The compact format, abstractly

    A compact value is a size in bytes and a 23-bit mantissa: it denotes the
    mantissa scaled by [256 ^ (size - 3)]. *)

Definition compact_value (size word : Z) : Z :=
  if size <=? 3 then word / 2 ^ (8 * (3 - size)) else word * 2 ^ (8 * (size - 3)).

Lemma compact_fields compact :
  in_u32 compact →
  Z.shiftr compact 24 = compact / 2 ^ 24 ∧ Z.land compact 0x007FFFFF = compact mod 2 ^ 23.
Proof.
  intros Hc. rewrite Z.shiftr_div_pow2 by lia. split; [done|].
  by apply (Z.land_ones _ 23).
Qed.

Lemma u256_from_compact_value compact :
  in_u32 compact →
  u256_from_compact compact = compact_value (compact / 2 ^ 24) (compact mod 2 ^ 23) mod 2 ^ 256.
Proof.
  intros Hc. destruct (compact_fields compact Hc) as [Hs Hw].
  assert (0 <= compact mod 2 ^ 23 < 2 ^ 23) by (apply Z.mod_pos_bound; lia).
  assert (0 <= compact / 2 ^ 24) by (apply Z.div_pos; mlia).
  assert (in_u256 (compact mod 2 ^ 23)) by (unfold in_u256; lia).
  unfold u256_from_compact, compact_value. rewrite Hs, Hw, u256_from_u64_spec by mlia.
  destruct (Z.leb_spec (compact / 2 ^ 24) 3) as [Hle|Hgt].
  - rewrite u256_shr_spec by (done || lia). rewrite Z.shiftr_div_pow2 by lia.
    symmetry. apply Z.mod_small. split; [apply Z.div_pos; lia|].
    eapply Z.le_lt_trans; [apply Z.div_le_upper_bound with (q := compact mod 2 ^ 23)|]; [lia| |lia].
    assert (1 <= 2 ^ (8 * (3 - compact / 2 ^ 24))) by (apply (Z.pow_le_mono_r 2 0); lia). nia.
  - rewrite u256_shl_spec by (done || lia). by rewrite Z.shiftl_mul_pow2 by lia.
Qed.

Lemma u256_from_compact_range compact : in_u32 compact → in_u256 (u256_from_compact compact).
Proof. intros Hc. rewrite u256_from_compact_value by done. apply Z.mod_pos_bound. lia. Qed.
End pow.

#[global] Arguments compact_value : simpl never.

(** * Lemmas on the compact format *)

Lemma land_bit23 c :
  0 <= c < 2 ^ 24 → (Z.land c 0x00800000 =? 0x00800000) = (2 ^ 23 <=? c).
Proof.
  intros Hc. change 0x00800000 with (2 ^ 23).
  replace (Z.land c (2 ^ 23)) with (if Z.testbit c 23 then 2 ^ 23 else 0).
  - replace (Z.testbit c 23) with (2 ^ 23 <=? c); [by case_match|].
    symmetry. destruct (Z.leb_spec (2 ^ 23) c) as [Hle|Hlt].
    + rewrite Z.testbit_true by lia.
      by replace (c / 2 ^ 23) with 1 by (apply Z.div_unique with (c - 2 ^ 23); lia).
    + apply Z.bits_above_log2; [lia|]. destruct (Z.eq_dec c 0) as [->|]; [done|].
      apply Z.log2_lt_pow2; lia.
  - apply Z.bits_inj'. intros i Hi. rewrite Z.land_spec, Z.pow2_bits_eqb by lia.
    destruct (Z.eqb_spec 23 i) as [<-|Hne].
    + rewrite andb_true_r. by destruct (Z.testbit c 23).
    + rewrite andb_false_r. destruct (Z.testbit c 23); [|apply Z.bits_0].
      by apply Z.pow2_bits_false.
Qed.

Lemma lor_fields m s :
  0 <= m < 2 ^ 24 → 0 <= s < 2 ^ 8 → Z.lor m (wrap32 (Z.shiftl s 24)) = m + s * 2 ^ 24.
Proof.
  intros Hm Hs. rewrite Z.shiftl_mul_pow2 by lia. unfold wrap32. rewrite Z.mod_small by lia.
  rewrite Z.add_nocarry_lxor, Z.lxor_lor; [done| |]; apply Z.bits_inj'; intros i Hi;
    rewrite Z.land_spec, Z.bits_0, Z.mul_pow2_bits by lia;
    destruct (Z.lt_ge_cases i 24); [rewrite (Z.testbit_neg_r s) by lia; apply andb_false_r| |
      rewrite (Z.testbit_neg_r s) by lia; apply andb_false_r|];
    (rewrite (Z.bits_above_log2 m i); [done|lia|];
     destruct (Z.eq_dec m 0) as [->|]; [simpl; lia|];
     apply Z.lt_le_trans with 24; [apply Z.log2_lt_pow2; lia|lia]).
Qed.

(** The number of bytes of a positive number. *)
Lemma byte_size v :
  0 < v → let n := (Z.log2 v + 1 + 7) / 8 in 1 <= n ∧ 2 ^ (8 * (n - 1)) <= v < 2 ^ (8 * n).
Proof.
  intros Hv n. pose proof (Z.log2_nonneg v). pose proof (Z.log2_spec v Hv) as [Hl Hu].
  pose proof (Z.div_mod (Z.log2 v + 1 + 7) 8 ltac:(lia)) as Hd. fold n in Hd.
  pose proof (Z.mod_pos_bound (Z.log2 v + 1 + 7) 8 ltac:(lia)). split; [lia|]. split.
  - eapply Z.le_trans; [|exact Hl]. apply Z.pow_le_mono_r; lia.
  - eapply Z.lt_le_trans; [exact Hu|]. apply Z.pow_le_mono_r; lia.
Qed.

Lemma byte_size_unique v n :
  1 <= n → 2 ^ (8 * (n - 1)) <= v < 2 ^ (8 * n) → n = (Z.log2 v + 1 + 7) / 8.
Proof.
  intros Hn [Hl Hu]. assert (0 < v) by (pose proof (Z.pow_pos_nonneg 2 (8 * (n - 1))); lia).
  apply Z.log2_le_pow2 in Hl; [|done]. apply Z.log2_lt_pow2 in Hu; [|done].
  apply Z.div_unique with (Z.log2 v - 8 * (n - 1)); lia.
Qed.

(** The value a size and a mantissa stand for, relative to a number that is
    truncated to its top bytes. *)
Lemma compact_value_trunc s v :
  3 < s → compact_value s (v / 2 ^ (8 * (s - 3))) = v - v mod 2 ^ (8 * (s - 3)).
Proof.
  intros Hs. unfold compact_value. rewrite (proj2 (Z.leb_gt _ _)) by lia.
  pose proof (Z.div_mod v (2 ^ (8 * (s - 3))) ltac:(lia)). lia.
Qed.

Lemma compact_value_small s v :
  0 <= s <= 3 → compact_value s (v * 2 ^ (8 * (3 - s))) = v.
Proof.
  intros Hs. unfold compact_value. rewrite (proj2 (Z.leb_le _ _)) by lia.
  apply Z.div_mul. lia.
Qed.

Lemma pow8_split a b : 0 <= b <= a → 2 ^ (8 * a) = 2 ^ (8 * b) * 2 ^ (8 * (a - b)).
Proof. intros. rewrite <- Z.pow_add_r by lia. f_equal. lia. Qed.

(** What a compact encoding of [v] is: a size and a mantissa with the sign bit
    clear, whose value is [v] with the low bytes cleared, and exact to 15 bits. *)
Definition compact_of (v s m : Z) : Prop :=
  0 <= s <= 33 ∧ 0 <= m < 2 ^ 23 ∧
  compact_value s m <= v ∧ (v - compact_value s m) * 2 ^ 15 <= v.

(** The mantissa before and after the sign bit is cleared, for [n] bytes. *)
Lemma compact_of_small v n :
  0 < v → 1 <= n <= 3 → 2 ^ (8 * (n - 1)) <= v < 2 ^ (8 * n) →
  let m := v * 2 ^ (8 * (3 - n)) in
  0 <= m < 2 ^ 24 ∧ (m < 2 ^ 23 → compact_of v n m) ∧ (2 ^ 23 <= m → compact_of v (n + 1) (m / 2 ^ 8)).
Proof.
  intros Hv Hn Hb m. assert (m = v * 2 ^ (8 * (3 - n))) as Hmdef by done. clearbody m.
  assert (n = 1 ∨ n = 2 ∨ n = 3) as Hcases by lia.
  assert (compact_value n m = v) as Hval by (rewrite Hmdef; apply compact_value_small; lia).
  assert (0 <= m < 2 ^ 24) as Hm by (destruct Hcases as [->|[->| ->]]; simpl in *; lia).
  split; [done|]. split; intros Hs; unfold compact_of.
  - rewrite Hval. lia.
  - assert (compact_value (n + 1) (m / 2 ^ 8) <= v ∧ (v - compact_value (n + 1) (m / 2 ^ 8)) * 2 ^ 15 <= v)
      as [? ?].
    { destruct (Z.lt_ge_cases n 3).
      - assert (m / 2 ^ 8 = v * 2 ^ (8 * (3 - (n + 1)))) as ->.
        { assert (m = v * 2 ^ (8 * (3 - (n + 1))) * 2 ^ 8) as ->; [|apply Z.div_mul; lia].
          rewrite Hmdef. destruct Hcases as [->|[->| ->]]; simpl; lia. }
        rewrite compact_value_small by lia. lia.
      - assert (n = 3) as -> by lia. assert (m = v) as -> by (rewrite Hmdef; change (2 ^ (8 * (3 - 3))) with 1; lia).
        change (2 ^ 8) with (2 ^ (8 * (3 + 1 - 3))). rewrite compact_value_trunc by lia.
        pose proof (Z.mod_pos_bound v (2 ^ (8 * (3 + 1 - 3))) ltac:(lia)). simpl in *. lia. }
    split_and!; try lia; [apply Z.div_pos; lia|apply Z.div_lt_upper_bound; lia].
Qed.

Lemma compact_of_large v n :
  3 < n <= 32 → 2 ^ (8 * (n - 1)) <= v < 2 ^ (8 * n) →
  let m := v / 2 ^ (8 * (n - 3)) in
  2 ^ 16 <= m < 2 ^ 24 ∧ (m < 2 ^ 23 → compact_of v n m) ∧
  (2 ^ 23 <= m → compact_of v (n + 1) (m / 2 ^ 8)).
Proof.
  intros Hn Hb m. set (p := 2 ^ (8 * (n - 3))) in *.
  assert (0 < p) by (apply Z.pow_pos_nonneg; lia).
  rewrite (pow8_split (n - 1) (n - 3)), (pow8_split n (n - 3)) in Hb by lia.
  replace (n - 1 - (n - 3)) with 2 in Hb by lia. replace (n - (n - 3)) with 3 in Hb by lia.
  fold p in Hb.
  assert (2 ^ 16 <= m < 2 ^ 24) as Hm.
  { split; [apply Z.div_le_lower_bound|apply Z.div_lt_upper_bound]; lia. }
  pose proof (Z.div_mod v p ltac:(lia)) as Hd. fold m in Hd.
  pose proof (Z.mod_pos_bound v p ltac:(lia)) as Hr.
  split; [done|]. split; intros Hs; unfold compact_of.
  - pose proof (compact_value_trunc n v ltac:(lia)) as Hval. fold p m in Hval. rewrite Hval.
    split_and!; nia.
  - assert (2 ^ (8 * (n + 1 - 3)) = p * 2 ^ 8) as Hp.
    { rewrite (pow8_split (n + 1 - 3) (n - 3)) by lia. fold p. f_equal. f_equal. lia. }
    assert (m / 2 ^ 8 = v / 2 ^ (8 * (n + 1 - 3))) as Hdd by (rewrite Hp; apply Z.div_div; lia).
    rewrite Hdd. rewrite compact_value_trunc by lia. rewrite <- Hdd.
    pose proof (Z.mod_pos_bound v (2 ^ (8 * (n + 1 - 3))) ltac:(lia)). rewrite Hp in *.
    split_and!; try lia; [apply Z.div_pos; lia|apply Z.div_lt_upper_bound; lia|nia].
Qed.

Section compact.
Context `{U256Lib}.

(** The encoding of a number of [n] bytes. *)
Lemma compact_from_u256_bytes v n :
  1 <= n <= 32 → 2 ^ (8 * (n - 1)) <= v < 2 ^ (8 * n) →
  let m := if n <=? 3 then v * 2 ^ (8 * (3 - n)) else v / 2 ^ (8 * (n - 3)) in
  0 <= m < 2 ^ 24 ∧
  compact_from_u256 v =
    Ok (if 2 ^ 23 <=? m then m / 2 ^ 8 + (n + 1) * 2 ^ 24 else m + n * 2 ^ 24).
Proof.
  intros Hn Hb m. assert (0 < v) as Hpos by (pose proof (Z.pow_pos_nonneg 2 (8 * (n - 1))); lia).
  assert (in_u256 v) as Hv.
  { assert (2 ^ (8 * n) <= 2 ^ 256) by (apply Z.pow_le_mono_r; lia). unfold in_u256. lia. }
  assert (0 <= m < 2 ^ 24) as Hm.
  { unfold m. destruct (Z.leb_spec n 3); [apply compact_of_small|apply proj1 in Hb as ?]; try lia.
    destruct (compact_of_large v n); lia. }
  split; [done|]. unfold compact_from_u256. rewrite u256_bits_spec by done.
  rewrite (proj2 (Z.eqb_neq _ _)) by lia.
  replace ((Z.log2 v + 1 + 7) / 8) with n by (apply byte_size_unique; lia).
  trans (compact ← Ok m;
         let '(compact, size) :=
           if Z.land compact 0x00800000 =? 0x00800000
           then (Z.shiftr compact 8, n + 1) else (compact, n) in
         Ok (Z.lor compact (wrap32 (Z.shiftl size 24)))).
  { f_equal. unfold m. destruct (Z.leb_spec n 3).
    - assert (2 ^ (8 * n) <= 2 ^ (8 * 3)) by (apply Z.pow_le_mono_r; lia).
      rewrite u256_as_u32_spec by (done || lia). simpl. rewrite Z.shiftl_mul_pow2 by lia.
      unfold wrap32. rewrite Z.mod_small; [done|]. destruct (compact_of_small v n); lia.
    - destruct (compact_of_large v n) as [Hl _]; [lia..|].
      rewrite u256_shr_spec, Z.shiftr_div_pow2 by (done || lia).
      apply u256_as_u32_spec; [unfold in_u256|]; lia. }
  cbn [mbind outcome_bind]. rewrite land_bit23 by done.
  destruct (Z.leb_spec (2 ^ 23) m).
  - assert (0 <= m / 2 ^ 8 < 2 ^ 23)
      by (split; [apply Z.div_pos; lia|apply Z.div_lt_upper_bound; lia]).
    by rewrite Z.shiftr_div_pow2, lor_fields by lia.
  - by rewrite lor_fields by lia.
Qed.

Lemma compact_from_u256_spec v :
  in_u256 v → ∃ s m, compact_from_u256 v = Ok (m + s * 2 ^ 24) ∧ compact_of v s m.
Proof.
  intros Hv. destruct (Z.eq_dec v 0) as [->|Hnz].
  { exists 0, 0. unfold compact_from_u256. rewrite u256_bits_spec by done.
    change ((0 + 7) / 8) with 0. cbn [Z.eqb Z.leb Z.compare].
    rewrite u256_as_u32_spec by (done || lia). split; [done|].
    unfold compact_of. change (compact_value 0 0) with 0. lia. }
  assert (0 < v) as Hpos by (unfold in_u256 in Hv; lia).
  destruct (byte_size v Hpos) as (Hn & Hlo & Hhi). set (n := (Z.log2 v + 1 + 7) / 8) in *.
  assert (n <= 32) as Hn32.
  { destruct (Z.le_gt_cases n 32); [done|]. exfalso.
    assert (2 ^ (8 * 32) <= 2 ^ (8 * (n - 1))) by (apply Z.pow_le_mono_r; lia).
    unfold in_u256 in Hv. lia. }
  destruct (compact_from_u256_bytes v n) as [_ ->]; [lia..|].
  destruct (Z.leb_spec n 3).
  - destruct (compact_of_small v n) as (_ & Hl & Hh); [lia..|].
    destruct (Z.leb_spec (2 ^ 23) (v * 2 ^ (8 * (3 - n)))); eauto.
  - destruct (compact_of_large v n) as (_ & Hl & Hh); [lia..|].
    destruct (Z.leb_spec (2 ^ 23) (v / 2 ^ (8 * (n - 3)))); eauto.
Qed.

(** Reading a size and a mantissa back. *)
Lemma u256_from_compact_fields s m :
  0 <= s < 2 ^ 8 → 0 <= m < 2 ^ 23 →
  u256_from_compact (m + s * 2 ^ 24) = compact_value s m mod 2 ^ 256.
Proof.
  intros Hs Hm. rewrite u256_from_compact_value by (unfold in_u32; lia).
  rewrite Z.div_add, Z.div_small, Z.add_0_l by lia.
  replace (m + s * 2 ^ 24) with (m + (s * 2) * 2 ^ 23) by lia.
  rewrite Z.mod_add, (Z.mod_small m) by lia. done.
Qed.

Lemma compact_value_nonneg s m : 0 <= m → 0 <= compact_value s m.
Proof.
  intros Hm. unfold compact_value. destruct (Z.leb_spec s 3).
  - apply Z.div_pos; [done|]. apply Z.pow_pos_nonneg; lia.
  - pose proof (Z.pow_nonneg 2 (8 * (s - 3)) ltac:(lia)). nia.
Qed.

Lemma compact_of_read v s m :
  in_u256 v → compact_of v s m →
  in_u32 (m + s * 2 ^ 24) ∧ u256_from_compact (m + s * 2 ^ 24) = compact_value s m.
Proof.
  intros Hv (Hs & Hm & Hle & _). pose proof (compact_value_nonneg s m ltac:(lia)).
  split; [unfold in_u32; lia|]. rewrite u256_from_compact_fields by lia.
  apply Z.mod_small. unfold in_u256 in Hv. lia.
Qed.
(** ** The difficulty adjustment, abstractly *)

Definition clamp (lo hi x : Z) : Z := Z.max lo (Z.min hi x).

(** The target for [target] when a period took [elapsed] seconds. *)
Definition retarget (target elapsed : Z) : Z :=
  Z.min POW_LIMIT
    (target * clamp (POW_TARGET_TIMESPAN / 4) (POW_TARGET_TIMESPAN * 4) elapsed
     / POW_TARGET_TIMESPAN).

Lemma calculate_next_work_required_spec last first bits :
  in_u32 bits → u256_from_compact bits <= POW_LIMIT →
  calculate_next_work_required last first bits
  = compact_from_u256 (retarget (u256_from_compact bits) (wrap32 (last - first))).
Proof.
  intros Hbits Hlim. pose proof (u256_from_compact_range bits Hbits) as Ht.
  set (t := u256_from_compact bits) in *.
  unfold calculate_next_work_required. fold t.
  replace (if _ <? _ then _ else _) with
    (clamp (POW_TARGET_TIMESPAN / 4) (POW_TARGET_TIMESPAN * 4) (wrap32 (last - first))); cycle 1.
  { unfold clamp. assert (POW_TARGET_TIMESPAN / 4 <= POW_TARGET_TIMESPAN * 4) by done.
    repeat case_match; rewrite ?Z.ltb_lt, ?Z.ltb_ge in *; lia. }
  unfold retarget. set (c := clamp _ _ _).
  assert (302400 <= c <= 4838400) as Hc.
  { unfold c, clamp. change (POW_TARGET_TIMESPAN / 4) with 302400.
    change (POW_TARGET_TIMESPAN * 4) with 4838400. lia. }
  change POW_TARGET_TIMESPAN with 1209600 in *. unfold POW_LIMIT, in_u256 in *.
  rewrite !u256_from_u64_spec by mlia.
  rewrite u256_mul_spec by (unfold in_u256; nia). cbn [mbind outcome_bind].
  rewrite u256_div_spec by (unfold in_u256; nia). cbn [mbind outcome_bind].
  f_equal. case_match; rewrite ?Z.ltb_lt, ?Z.ltb_ge in *; lia.
Qed.

Lemma retarget_bounds t e :
  0 <= t → 0 <= retarget t e ∧ retarget t e <= POW_LIMIT ∧ retarget t e <= 4 * t ∧
  Z.min POW_LIMIT (t / 4) <= retarget t e.
Proof.
  intros Ht. unfold retarget, clamp. change (POW_TARGET_TIMESPAN / 4) with 302400.
  change (POW_TARGET_TIMESPAN * 4) with 4838400. change POW_TARGET_TIMESPAN with 1209600.
  set (c := Z.max _ _). assert (302400 <= c <= 4838400) as Hc by lia.
  assert (0 <= t * c / 1209600) by (apply Z.div_pos; nia).
  assert (t * c / 1209600 <= 4 * t) by (apply Z.div_le_upper_bound; nia).
  assert (t / 4 <= t * c / 1209600).
  { pose proof (Z.div_mod t 4 ltac:(lia)). pose proof (Z.mod_pos_bound t 4 ltac:(lia)).
    apply Z.div_le_lower_bound; nia. }
  unfold POW_LIMIT in *. lia.
Qed.

Lemma calculate_next_work_required_Ok last first bits :
  in_u32 bits → u256_from_compact bits <= POW_LIMIT →
  ∃ b, calculate_next_work_required last first bits = Ok b ∧ in_u32 b ∧
    u256_from_compact b <= POW_LIMIT.
Proof.
  intros Hb Hlim. rewrite calculate_next_work_required_spec by done.
  pose proof (u256_from_compact_range bits Hb) as [Ht _].
  destruct (retarget_bounds (u256_from_compact bits) (wrap32 (last - first)) Ht) as (H0 & H1 & _).
  set (ideal := retarget _ _) in *.
  assert (in_u256 ideal) as Hi by (unfold in_u256, POW_LIMIT in *; lia).
  destruct (compact_from_u256_spec ideal Hi) as (s & m & -> & Hc).
  destruct (compact_of_read ideal s m Hi Hc) as [Hr He].
  exists (m + s * 2 ^ 24). rewrite He. destruct Hc as (_ & _ & Hcl & _). split_and!; (done || lia).
Qed.
End compact.

Import Toy.

(** * The properties *)

(** The compact encoding of a 256-bit number: it exists, fits in 32 bits with
    the sign bit clear, and decodes to a number that is not larger and differs
    by at most one part in [2 ^ 15]. *)
Theorem compact_precision `{U256Lib} v :
  in_u256 v →
  ∃ c, compact_from_u256 v = Ok c ∧ in_u32 c ∧ c mod 2 ^ 24 < 2 ^ 23 ∧
    u256_from_compact c <= v ∧ (v - u256_from_compact c) * 2 ^ 15 <= v.
Proof.
  intros Hv. destruct (compact_from_u256_spec v Hv) as (s & m & -> & Hc).
  destruct (compact_of_read v s m Hv Hc) as [Hr He].
  exists (m + s * 2 ^ 24). rewrite He. destruct Hc as (Hs & Hm & Hle & Hp).
  rewrite Z.mod_add, Z.mod_small by lia. split_and!; (done || lia).
Qed.

Lemma compact_precision_witness :
  in_u256 (2 ^ 255 + 12345) ∧ ∃ c, compact_from_u256 (2 ^ 255 + 12345) = Ok c ∧ in_u32 c ∧
    c mod 2 ^ 24 < 2 ^ 23 ∧ u256_from_compact c <= 2 ^ 255 + 12345 ∧
    (2 ^ 255 + 12345 - u256_from_compact c) * 2 ^ 15 <= 2 ^ 255 + 12345.
Proof.
  assert (in_u256 (2 ^ 255 + 12345)) as Hv by (unfold in_u256; lia).
  split; [exact Hv|]. exact (compact_precision _ Hv).
Defined.

(** Decoding a compact target in normal form (three bytes at
    least, a mantissa without leading zero byte or sign bit) and encoding the
    result gives the same 32 bits. *)
Theorem compact_roundtrip `{U256Lib} s m :
  3 <= s <= 32 → 2 ^ 15 <= m < 2 ^ 23 →
  compact_from_u256 (u256_from_compact (m + s * 2 ^ 24)) = Ok (m + s * 2 ^ 24).
Proof.
  intros Hs Hm. rewrite u256_from_compact_fields by lia.
  assert (compact_value s m = m * 2 ^ (8 * (s - 3))) as ->.
  { unfold compact_value. destruct (Z.leb_spec s 3); [|done].
    assert (s = 3) as -> by lia. simpl. rewrite Z.div_1_r. lia. }
  assert (0 < 2 ^ (8 * (s - 3))) by (apply Z.pow_pos_nonneg; lia).
  assert (2 ^ (8 * (s - 3)) <= 2 ^ 232) by (apply Z.pow_le_mono_r; lia).
  rewrite Z.mod_small by nia.
  destruct (Z.lt_ge_cases m (2 ^ 16)) as [Hlt|Hge].
  - destruct (compact_from_u256_bytes (m * 2 ^ (8 * (s - 3))) (s - 1)) as [_ ->]; [lia| |].
    + rewrite (pow8_split (s - 1) (s - 3)) by lia. replace (s - 1 - (s - 3)) with 2 by lia.
      split; [|nia]. rewrite <- (Z.mul_1_l (2 ^ (8 * (s - 1 - 1)))).
      replace (s - 1 - 1) with (s - 3 + 1) by lia. rewrite Z.mul_add_distr_l, Z.pow_add_r by lia. nia.
    + replace (if s - 1 <=? 3 then _ else _) with (m * 2 ^ 8).
      * rewrite (proj2 (Z.leb_le _ _)), Z.div_mul by lia. do 2 f_equal. lia.
      * destruct (Z.leb_spec (s - 1) 3) as [Hc|Hc].
        -- assert (s = 3 ∨ s = 4) as [->| ->] by lia; simpl; lia.
        -- rewrite (pow8_split (s - 3) (s - 1 - 3)) by lia.
           replace (s - 3 - (s - 1 - 3)) with 1 by lia.
           rewrite (Z.mul_comm (2 ^ (8 * (s - 1 - 3)))), Z.mul_assoc, Z.div_mul; [done|].
           apply Z.pow_nonzero; lia.
  - destruct (compact_from_u256_bytes (m * 2 ^ (8 * (s - 3))) s) as [_ ->]; [lia| |].
    + rewrite (pow8_split s (s - 3)), (pow8_split (s - 1) (s - 3)) by lia.
      replace (s - (s - 3)) with 3 by lia. replace (s - 1 - (s - 3)) with 2 by lia. nia.
    + replace (if s <=? 3 then _ else _) with m.
      * by rewrite (proj2 (Z.leb_gt _ _)) by lia.
      * destruct (Z.leb_spec s 3); [assert (s = 3) as -> by lia; simpl; lia|].
        by rewrite Z.div_mul by lia.
Qed.

Lemma compact_roundtrip_witness :
  compact_from_u256 (u256_from_compact 0x1d00ffff) = Ok 0x1d00ffff.
Proof. apply (compact_roundtrip 0x1d 0xffff); lia. Defined.

(** C39. For a target within the limit and any two times the adjustment gives a result: the compact form of the target scaled
    by the elapsed time, clamped to a quarter and four times the target timespan; the new target is within
    the limit and at most four times the old one, and it loses at most one part in [2 ^ 15] to the encoding. The elapsed time
    is the difference of two [u32]s: the true one when the last block is not older than the first; otherwise it wraps
    around, and the target is raised fourfold (as long as the times differ by less than [2 ^ 32] seconds less eight weeks)
    where it should be lowered to a quarter. *)
Theorem next_work_retargets `{U256Lib} last first bits :
  in_u32 last → in_u32 first → in_u32 bits → u256_from_compact bits <= POW_LIMIT →
  let target := u256_from_compact bits in
  let ideal := retarget target (if first <=? last then last - first else last - first + 2 ^ 32) in
  (∃ b, calculate_next_work_required last first bits = Ok b ∧ in_u32 b ∧
    u256_from_compact b <= ideal ∧ (ideal - u256_from_compact b) * 2 ^ 15 <= ideal ∧
    u256_from_compact b <= POW_LIMIT ∧ u256_from_compact b <= 4 * target) ∧
  (last < first → first - last <= 2 ^ 32 - 4 * POW_TARGET_TIMESPAN → ideal = Z.min POW_LIMIT (4 * target)).
Proof.
  intros Hl Hf Hb Hlim target ideal. split.
  2: { intros Hlt Hd. unfold ideal. rewrite (proj2 (Z.leb_gt _ _)) by done. unfold retarget, clamp. f_equal.
    change (POW_TARGET_TIMESPAN / 4) with 302400. change (POW_TARGET_TIMESPAN * 4) with 4838400. change POW_TARGET_TIMESPAN with 1209600 in *.
    replace (Z.max _ _) with 4838400 by lia. rewrite Z.mul_comm. by replace (4838400 * target) with (4 * target * 1209600) by lia; rewrite Z.div_mul. }
  rewrite calculate_next_work_required_spec by done. fold target.
  replace (wrap32 (last - first)) with (if first <=? last then last - first else last - first + 2 ^ 32).
  2: { unfold wrap32, in_u32 in *. destruct (Z.leb_spec first last); [symmetry; apply Z.mod_small; lia|].
    rewrite <- (Z_mod_plus_full _ 1). symmetry. apply Z.mod_small. lia. }
  fold ideal. pose proof (u256_from_compact_range bits Hb) as [Ht0 _]. fold target in Ht0.
  destruct (retarget_bounds target (if first <=? last then last - first else last - first + 2 ^ 32) Ht0) as (H0 & H1 & H2 & _).
  fold ideal in H0, H1, H2.
  assert (in_u256 ideal) as Hi by (unfold in_u256, POW_LIMIT in *; lia).
  destruct (compact_from_u256_spec ideal Hi) as (s & m & -> & Hc).
  destruct (compact_of_read ideal s m Hi Hc) as [Hr He].
  exists (m + s * 2 ^ 24). rewrite He. destruct Hc as (_ & _ & Hcl & Hp).
  split_and!; (done || lia).
Qed.

Lemma next_work_retargets_witness :
  ∃ b, calculate_next_work_required 1262152739 1261130161 0x1d00ffff = Ok b ∧ in_u32 b ∧
    u256_from_compact b <= 4 * u256_from_compact 0x1d00ffff.
Proof.
  destruct (next_work_retargets 1262152739 1261130161 0x1d00ffff) as [(b & Hb & Hr & _ & _ & _ & H4) _];
    [unfold in_u32; lia..|vm_compute; discriminate|].
  exists b. exact (conj Hb (conj Hr H4)).
Defined.

(** The difference of the timestamps is that of [u32]s: when the
    last block of a period is older than the first one the difference wraps
    around, and the target is raised as after the slowest period. *)
Theorem next_work_wraps `{U256Lib} last first bits :
  in_u32 last → in_u32 first → in_u32 bits → u256_from_compact bits <= POW_LIMIT →
  last < first → first - last <= 2 ^ 32 - 4 * POW_TARGET_TIMESPAN →
  calculate_next_work_required last first bits
  = calculate_next_work_required (4 * POW_TARGET_TIMESPAN) 0 bits.
Proof.
  intros Hl Hf Hb Hlim Hlt Hd. rewrite !calculate_next_work_required_spec by done.
  assert (wrap32 (last - first) = last - first + 2 ^ 32) as ->.
  { symmetry. apply (Z.mod_unique_pos _ _ (-1)); mlia. }
  change (wrap32 (4 * POW_TARGET_TIMESPAN - 0)) with (4 * POW_TARGET_TIMESPAN).
  f_equal. unfold retarget, clamp in *. change POW_TARGET_TIMESPAN with 1209600 in *. do 3 f_equal. lia.
Qed.

Lemma next_work_wraps_witness :
  calculate_next_work_required 1000 1001 0x1d00ffff
  = calculate_next_work_required (4 * POW_TARGET_TIMESPAN) 0 0x1d00ffff.
Proof.
  apply next_work_wraps; [unfold in_u32; lia..|vm_compute; discriminate|lia|vm_compute; discriminate].
Defined.

Example compact_genesis : u256_from_compact 0x1d00ffff = 0xffff * 2 ^ 208.
Proof. vm_compute. reflexivity. Qed.

Example compact_genesis_back : compact_from_u256 (0xffff * 2 ^ 208) = Ok 0x1d00ffff.
Proof. vm_compute. reflexivity. Qed.

Example next_work_example :
  calculate_next_work_required 1262152739 1261130161 0x1d00ffff = Ok 0x1d00d86a.
Proof. vm_compute. reflexivity. Qed.
