(* ===== verification/Header.v ===== *)
(** [src/packets/blockheader.rs], [src/packets/headers.rs] and
    [src/util/genesis.rs]: block headers, their proof of work and their codec. *)
From S2P Require Import Prelude.
From S2P Require Import Extern.
From S2P Require Import Buffer.
From S2P Require Import Varint.
From S2P Require Import Arena.
From S2P Require Import Wire.
From S2P Require Import Pow.

(** [BlockHeaderBorrowed] and [BlockHeaderOwned] *)
Record BlockHeader := mkBlockHeader {
  bh_version : Z;
  bh_parent : hash;
  bh_merkle_root : hash;
  bh_timestamp : Z;
  bh_bits : Z;
  bh_nonce : Z;
  bh_txs_count : Z;
  bh_hash : hash;
}.

#[export] Instance BlockHeader_eq_dec : EqDecision BlockHeader.
Proof. solve_decision. Defined.

#[export] Instance BlockHeader_default : Default BlockHeader :=
  mkBlockHeader 0 EMPTY_HASH EMPTY_HASH 0 0 0 0 EMPTY_HASH.

#[export] Instance BlockHeader_type : HasType BlockHeader := RBlockHeader.

Definition set_hash (h : BlockHeader) (x : hash) : BlockHeader :=
  mkBlockHeader (bh_version h) (bh_parent h) (bh_merkle_root h) (bh_timestamp h) (bh_bits h)
    (bh_nonce h) (bh_txs_count h) x.

Definition BlockHeader_serialize {B} `{BufMut B} (h : BlockHeader) (stream : B) : outcome B :=
  stream ← put_u32_le stream (bh_version h);
  stream ← put_slice stream (bh_parent h);
  stream ← put_slice stream (bh_merkle_root h);
  stream ← put_u32_le stream (bh_timestamp h);
  stream ← put_u32_le stream (bh_bits h);
  stream ← put_u32_le stream (bh_nonce h);
  '(stream, _) ← serialize_varint (bh_txs_count h) stream;
  Ok stream.

#[export] Instance BlockHeader_serializable : Serializable BlockHeader :=
  {| serialize B HB := BlockHeader_serialize |}.

(** [Sha256::digest(Sha256::digest(b))] *)
Definition double_sha256 `{Sha256} (b : bytes) : hash := sha256 (sha256 b).

Lemma double_sha256_ok `{Sha256} b : hash_ok (double_sha256 b).
Proof. apply sha256_length. Qed.

Section header.
Context `{Sha256, U256Lib}.

(** ** Proof of work *)

Definition get_work (h : BlockHeader) : outcome Z :=
  let uncompacted := u256_from_compact (bh_bits h) in
  let inverted := u256_not uncompacted in
  next ← u256_add uncompacted 1;
  result ← u256_div inverted next;
  u256_add result 1.

Definition is_valid (h : BlockHeader) : bool :=
  let target := u256_from_compact (bh_bits h) in
  let hash_number := u256_from_little_endian (bh_hash h) in
  hash_number <? target.

(** [human_hash], before [hex::encode] *)
Definition human_hash_bytes (h : BlockHeader) : bytes := rev (bh_hash h).

(** ** Reading *)

Definition BlockHeader_read (buffer : bytes) : outcome (BlockHeader * Z) :=
  version ← get_u32_le buffer 0;
  parent ← get_hash buffer 4;
  merkle_root ← get_hash buffer 36;
  timestamp ← get_u32_le buffer 68;
  bits ← get_u32_le buffer 72;
  nonce ← get_u32_le buffer 76;
  b ← with_offset buffer 80;
  '(txs_count, offset) ← deserialize_varint b;
  first80 ← unwrap (ok_or (slice_get buffer 0 80) "none") "called `Option::unwrap()` on a `None` value";
  let h := mkBlockHeader version parent merkle_root timestamp bits nonce txs_count
             (double_sha256 first80) in
  if is_valid h then Ok (h, 80 +! offset) else Err "invalid header".

#[export] Instance BlockHeader_borrowed : DeserializableBorrowed BlockHeader :=
  {| deserialize_borrowed := plain_reader BlockHeader_read |}.

Definition BlockHeader_construct (version : Z) (parent merkle_root : hash)
    (timestamp bits nonce txs_count : Z) : outcome BlockHeader :=
  let s := mkBlockHeader version parent merkle_root timestamp bits nonce txs_count EMPTY_HASH in
  b ← BlockHeader_serialize s ([] : bytes);
  first80 ← expect (slice_get b 0 80) "called `Option::unwrap()` on a `None` value";
  Ok (set_hash s (double_sha256 first80)).

Definition GENESIS_MERKLE_ROOT : hash :=
  map byte.of_Z
    [0x3b; 0xa3; 0xed; 0xfd; 0x7a; 0x7b; 0x12; 0xb2; 0x7a; 0xc7; 0x2c; 0x3e; 0x67; 0x76;
     0x8f; 0x61; 0x7f; 0xc8; 0x1b; 0xc3; 0x88; 0x8a; 0x51; 0x32; 0x3a; 0x9f; 0xb8; 0xaa;
     0x4b; 0x1e; 0x5e; 0x4a].

Definition GENESIS_HEADER : outcome BlockHeader :=
  BlockHeader_construct 0x01 (replicate 32 Byte.x00) GENESIS_MERKLE_ROOT 1231006505
    0x1d00ffff 0x7c2bac1d 1.

(** ** The wire format *)

Definition header_bytes (h : BlockHeader) : bytes :=
  to_le 4 (bh_version h) ++ bh_parent h ++ bh_merkle_root h ++ to_le 4 (bh_timestamp h) ++
  to_le 4 (bh_bits h) ++ to_le 4 (bh_nonce h).

Definition header_fields_ok (h : BlockHeader) : Prop :=
  in_u32 (bh_version h) ∧ hash_ok (bh_parent h) ∧ hash_ok (bh_merkle_root h) ∧
  in_u32 (bh_timestamp h) ∧ in_u32 (bh_bits h) ∧ in_u32 (bh_nonce h) ∧ in_u64 (bh_txs_count h).

#[export] Instance BlockHeader_wire : Wire BlockHeader := {|
  encode h := header_bytes h ++ encode_varint (bh_txs_count h);
  valid h := header_fields_ok h ∧ bh_hash h = double_sha256 (header_bytes h) ∧ is_valid h = true;
|}.

Lemma len_header_bytes h : header_fields_ok h → len (header_bytes h) = 80.
Proof. intros (_ & Hp & Hm & _). unfold header_bytes. len_lia. Qed.

#[export] Instance BlockHeader_serializable_ok : SerializableOk BlockHeader.
Proof.
  intros B HB h b. simpl. unfold BlockHeader_serialize, header_bytes. put_steps.
Qed.

Lemma BlockHeader_read_encode h rest :
  header_fields_ok h → slice_ok (encode h ++ rest) →
  bh_hash h = double_sha256 (header_bytes h) →
  BlockHeader_read (encode h ++ rest)
  = if is_valid h then Ok (h, len (encode h)) else Err "invalid header".
Proof.
  intros Hf Hb Hh. pose proof (len_header_bytes h Hf) as Hl.
  simpl in *. rewrite <- app_assoc in *. set (tl := encode_varint (bh_txs_count h) ++ rest) in *.
  destruct Hf as (Hv & Hp & Hm & Ht & Hbits & Hn & Hc).
  pose proof (tail_at_0 (header_bytes h ++ tl)) as T0.
  pose proof T0 as T80. tail_next T80 80.
  pose proof (tail_at_get _ _ _ _ T0) as Hg. rewrite Hl, Z.add_0_l in Hg.
  set (buf := header_bytes h ++ tl) in *.
  change (tail_at buf 0 (header_bytes h ++ tl)) in T0. unfold header_bytes in T0. rewrite <- !app_assoc in T0.
  unfold BlockHeader_read.
  rewrite (get_u32_le_at _ _ _ _ T0) by done. cbn [mbind outcome_bind].
  tail_next T0 4.
  rewrite (get_hash_at _ _ _ _ T0) by done. cbn [mbind outcome_bind].
  tail_next T0 36.
  rewrite (get_hash_at _ _ _ _ T0) by done. cbn [mbind outcome_bind].
  tail_next T0 68.
  rewrite (get_u32_le_at _ _ _ _ T0) by done. cbn [mbind outcome_bind].
  tail_next T0 72.
  rewrite (get_u32_le_at _ _ _ _ T0) by done. cbn [mbind outcome_bind].
  tail_next T0 76.
  rewrite (get_u32_le_at _ _ _ _ T0) by done. cbn [mbind outcome_bind].
  rewrite (with_offset_at _ _ _ T80). cbn [mbind outcome_bind].
  destruct T80 as (_ & T80 & _). pose proof (len_nonneg tl).
  unfold tl at 1. rewrite deserialize_varint_encode; [|done|fold tl; unfold slice_ok in *; lia].
  cbn [mbind outcome_bind]. rewrite Hg. cbn [ok_or unwrap mbind outcome_bind].
  rewrite <- Hh. replace (mkBlockHeader _ _ _ _ _ _ _ _) with h by (by destruct h).
  pose proof (length_varint_range (bh_txs_count h)).
  case_match; [|done]. rewrite len_app, Hl, len_encode_varint, wrap64_small by mlia. done.
Qed.

#[export] Program Instance BlockHeader_borrowed_ok : BorrowedOk BlockHeader := {|
  need _ := 0;
|}.
Next Obligation. done. Qed.
Next Obligation.
  intros self h rest a (Hf & Hh & Hv) Hb Hwf _. apply plain_reader_Ok; [done|].
  by rewrite BlockHeader_read_encode, Hv by done.
Qed.
End header.

(** * [headers] messages *)

Record Headers := mkHeaders { headers_inner : list BlockHeader }.

#[export] Instance Headers_default : Default Headers := mkHeaders [].
#[export] Instance Headers_type : HasType Headers := RHeaders.

Definition HEADERS_COMMAND : bytes := command_bytes "headers".

#[export] Instance Headers_serializable : Serializable Headers :=
  {| serialize B HB h stream := serialize_array (headers_inner h) stream |}.

Section headers.
Context `{Sha256, U256Lib, Layout}.

Definition Headers_deserialize (self : Headers) (buffer : bytes) : amonad (Headers * Z) :=
  '(deserialized, consumed) ← deserialize_array buffer;
  mret (mkHeaders deserialized, consumed).

#[export] Instance Headers_borrowed : DeserializableBorrowed Headers :=
  {| deserialize_borrowed := Headers_deserialize |}.

#[export] Instance Headers_wire : Wire Headers := {|
  encode h := encode_array (headers_inner h);
  valid h := array_valid (headers_inner h);
|}.

#[export] Instance Headers_serializable_ok : SerializableOk Headers.
Proof. intros B HB h b. apply serialize_array_spec. Qed.

#[export] Program Instance Headers_borrowed_ok : BorrowedOk Headers := {|
  need h := array_need (headers_inner h);
|}.
Next Obligation. intros h. apply array_need_nonneg. Qed.
Next Obligation. intros self [l] rest a [Hv Hl] Hb Hwf Hf. by apply array_message_encode. Qed.

(** ** Lemmas on the proof of work *)

Lemma u256_from_compact_not_max compact :
  in_u32 compact → u256_from_compact compact + 1 < 2 ^ 256.
Proof.
  intros Hc. pose proof (u256_from_compact_range compact Hc) as [_ Hm].
  rewrite u256_from_compact_value in * by done. set (w := compact mod 2 ^ 23) in *.
  assert (0 <= w < 2 ^ 23) by (apply Z.mod_pos_bound; lia).
  set (s := compact / 2 ^ 24) in *. set (v := compact_value s w) in *.
  destruct (Z.eq_dec (v mod 2 ^ 256 + 1) (2 ^ 256)) as [He|]; [exfalso|lia].
  destruct (Z.le_gt_cases s 3) as [Hs|Hs].
  - assert (0 <= v < 2 ^ 23) as Hv.
    { unfold v, compact_value. rewrite (proj2 (Z.leb_le _ _)) by lia.
      assert (0 < 2 ^ (8 * (3 - s))) by (apply Z.pow_pos_nonneg; lia).
      split; [apply Z.div_pos; lia|apply Z.div_lt_upper_bound; nia]. }
    rewrite Z.mod_small in He; lia.
  - assert (v mod 2 = 0) as Hv.
    { unfold v, compact_value. rewrite (proj2 (Z.leb_gt _ _)) by lia.
      replace (8 * (s - 3)) with (Z.succ (8 * (s - 3) - 1)) by lia.
      rewrite Z.pow_succ_r by lia.
      replace (w * (2 * 2 ^ (8 * (s - 3) - 1))) with (w * 2 ^ (8 * (s - 3) - 1) * 2) by lia.
      by apply Z.mod_mul. }
    pose proof (Z.div_mod v (2 ^ 256) ltac:(lia)). pose proof (Z.div_mod v 2 ltac:(lia)).
    change (2 ^ 256) with (2 * 2 ^ 255) in *. lia.
Qed.

Lemma get_work_value h :
  in_u32 (bh_bits h) →
  let t := u256_from_compact (bh_bits h) in
  if t =? 0 then ∃ m, get_work h = Panic m else get_work h = Ok (2 ^ 256 / (t + 1)).
Proof.
  intros Hb t. pose proof (u256_from_compact_range _ Hb) as Ht.
  pose proof (u256_from_compact_not_max _ Hb) as Hm. fold t in Ht, Hm.
  assert (in_u256 1) as H1' by (unfold in_u256; lia).
  assert (in_u256 (2 ^ 256 - 1 - t)) as Hi by (unfold in_u256 in *; lia).
  unfold get_work. fold t. rewrite u256_add_spec by done. cbn [mbind outcome_bind].
  rewrite u256_not_spec, u256_div_spec by (unfold in_u256 in *; lia). cbn [mbind outcome_bind].
  assert ((2 ^ 256 - 1 - t) / (t + 1) + 1 = 2 ^ 256 / (t + 1)) as Hd.
  { rewrite <- (Z.div_add _ 1) by (unfold in_u256 in *; lia). f_equal. lia. }
  destruct (Z.eqb_spec t 0) as [Hz|Hz].
  - rewrite Hz. change ((2 ^ 256 - 1 - 0) / (0 + 1)) with (2 ^ 256 - 1).
    apply u256_add_overflow; unfold in_u256; lia.
  - rewrite <- Hd. unfold in_u256 in Ht.
    assert (0 <= (2 ^ 256 - 1 - t) / (t + 1)) by (apply Z.div_pos; lia).
    assert ((2 ^ 256 - 1 - t) / (t + 1) < 2 ^ 255).
    { apply Z.div_lt_upper_bound; [lia|]. change (2 ^ 256) with (2 * 2 ^ 255). nia. }
    apply u256_add_spec; unfold in_u256; lia.
Qed.

Lemma BlockHeader_construct_Ok version parent merkle_root timestamp bits nonce txs_count :
  let h := mkBlockHeader version parent merkle_root timestamp bits nonce txs_count EMPTY_HASH in
  header_fields_ok h →
  BlockHeader_construct version parent merkle_root timestamp bits nonce txs_count
  = Ok (set_hash h (double_sha256 (header_bytes h))).
Proof.
  intros h Hf. pose proof (len_header_bytes h Hf) as Hl. unfold BlockHeader_construct. fold h.
  pose proof (BlockHeader_serializable_ok bytes _ h []) as Hs. simpl in Hs. rewrite Hs.
  cbn [mbind outcome_bind]. simpl.
  pose proof (tail_at_get _ _ _ _ (tail_at_0 (header_bytes h ++ encode_varint txs_count))) as Hg.
  rewrite Hl, Z.add_0_l in Hg. by rewrite Hg.
Qed.
End headers.

Import Toy.

(** * The properties *)

(** C35. What [serialize] writes for a header reads back, and the
    reader accepts it exactly when the double hash of its first 80 bytes, as a
    little-endian number, is below the target its [bits] encode. *)
Theorem header_roundtrip_pow `{Sha256, U256Lib} h rest :
  header_fields_ok h → bh_hash h = double_sha256 (header_bytes h) →
  ∃ w, BlockHeader_serialize h ([] : bytes) = Ok w ∧
    (slice_ok (w ++ rest) →
     BlockHeader_read (w ++ rest) =
       if from_le (bh_hash h) <? u256_from_compact (bh_bits h)
       then Ok (h, len w) else Err "invalid header").
Proof.
  intros Hf Hh. exists (encode h). split.
  - exact (BlockHeader_serializable_ok bytes vec_buf h []).
  - intros Hb. rewrite BlockHeader_read_encode by done. unfold is_valid.
    rewrite u256_from_little_endian_spec; [done|]. rewrite Hh. apply sha256_length.
Qed.

Definition toy_header : BlockHeader :=
  match GENESIS_HEADER with Ok h => h | _ => default_value end.

Lemma header_roundtrip_pow_witness :
  ∃ w, BlockHeader_serialize toy_header ([] : bytes) = Ok w ∧
    (slice_ok (w ++ []) → BlockHeader_read (w ++ []) =
      if from_le (bh_hash toy_header) <? u256_from_compact (bh_bits toy_header)
      then Ok (toy_header, len w) else Err "invalid header").
Proof.
  apply (header_roundtrip_pow toy_header []).
  - unfold header_fields_ok, hash_ok, in_u32, in_u64.
    split_and!; (vm_compute; first [reflexivity | discriminate]).
  - vm_compute. reflexivity.
Defined.

(** The work of a header is [2 ^ 256 / (target + 1)], as the sum
    of chain work needs it; a header with a zero target makes the computation
    panic, but no such header passes the check of its proof of work. *)
Theorem header_work `{Sha256, U256Lib} h :
  in_u32 (bh_bits h) → hash_ok (bh_hash h) →
  let t := u256_from_compact (bh_bits h) in
  (is_valid h = true → get_work h = Ok (2 ^ 256 / (t + 1))) ∧
  (t = 0 → is_valid h = false ∧ ∃ m, get_work h = Panic m).
Proof.
  intros Hb Hh t. pose proof (get_work_value h Hb) as Hw. cbv zeta in Hw. fold t in Hw.
  unfold is_valid. fold t. rewrite u256_from_little_endian_spec by done.
  pose proof (from_le_range (bh_hash h)). split; intros Ht.
  - apply Z.ltb_lt in Ht. by rewrite (proj2 (Z.eqb_neq _ _)) in Hw by lia.
  - rewrite Ht in *. split; [apply Z.ltb_ge; lia|done].
Qed.

Lemma header_work_witness :
  get_work toy_header = Ok (2 ^ 256 / (0xffff * 2 ^ 208 + 1)) ∧ is_valid toy_header = true.
Proof.
  assert (is_valid toy_header = true) as Hv by (vm_compute; reflexivity).
  split; [|exact Hv].
  refine (proj1 (header_work toy_header _ _) Hv).
  - split; vm_compute; [discriminate|reflexivity].
  - vm_compute. reflexivity.
Defined.
