(* ===== verification/Merkle.v ===== *)
(** [src/util/merkle.rs]: the in-place computation of merkle roots. *)
From S2P Require Import Prelude.
From S2P Require Import Extern.
From S2P Require Import Header.

(** A [MerkleTree] is the [Vec<u8>] of its hashes. *)
Definition MerkleTree : Type := bytes.

Definition mt_new : MerkleTree := [].

Definition mt_with_capacity (cap : Z) : outcome MerkleTree :=
  if cap *! 32 <=? isize_max then Ok [] else Panic "capacity overflow".

Definition append_hash (m : MerkleTree) (h : hash) : MerkleTree := m ++ h.

Definition mt_len (m : MerkleTree) : Z := len m / 32.

Definition mt_is_empty (m : MerkleTree) : bool := len m =? 0.

Definition get_block (m : MerkleTree) (block_idx : Z) : outcome bytes :=
  let block_start := block_idx *! 2 *! 32 in
  slice_idx m block_start (block_start +! 64).

Definition mt_get_hash (m : MerkleTree) (hash_idx : Z) : outcome hash :=
  let hash_start := hash_idx *! 32 in
  slice_idx m hash_start (hash_start +! 32).

Definition mt_set_hash (m : MerkleTree) (index : Z) (h : hash) : outcome MerkleTree :=
  slice_write m (index *! 32) h.

(** [0..n] *)
Definition range (n : Z) : list Z := seqZ 0 n.

Section merkle.
Context `{Sha256}.

Definition collapse_step (m : MerkleTree) (i : Z) : outcome MerkleTree :=
  block ← get_block m i;
  mt_set_hash m i (double_sha256 block).

Definition collapse (m : MerkleTree) : outcome MerkleTree :=
  if Z.land (mt_len m) 1 =? 1 then Ub
  else for_each collapse_step (range (mt_len m / 2)) m.

(** One iteration of the loop of [into_root]. *)
Definition mutation_step (m : MerkleTree) (mutation : bool) (i : Z) : outcome bool :=
  x ← mt_get_hash m i;
  y ← mt_get_hash m (i +! 1);
  Ok (if bool_decide (x = y) then true else mutation).

Definition into_root_step (m : MerkleTree) (mutation : bool) : outcome (MerkleTree * bool) :=
  mutation ← for_each (mutation_step m) (range (mt_len m -! 1)) mutation;
  m ← (if Z.land (mt_len m) 1 =? 1
       then b ← expect (slice_from m ((mt_len m -! 1) *! 32)) "slice index out of range";
            Ok (m ++ b)
       else Ok m);
  m ← collapse m;
  Ok (take (Z.to_nat (len m / 2)) m, mutation).

(** [None] when the fuel does not suffice. *)
Fixpoint into_root_loop (fuel : nat) (m : MerkleTree) (mutation : bool) :
    outcome (option (MerkleTree * bool)) :=
  if 1 <? mt_len m then
    match fuel with
    | O => Ok None
    | Datatypes.S fuel =>
        '(m, mutation) ← into_root_step m mutation;
        into_root_loop fuel m mutation
    end
  else Ok (Some (m, mutation)).

(** The fuel: every iteration halves the number of hashes. *)
Definition into_root (m : MerkleTree) : outcome (option (hash * bool)) :=
  r ← into_root_loop (Z.to_nat (mt_len m)) m false;
  match r with
  | None => Ok None
  | Some (m, mutation) =>
      if mt_is_empty m then Ok (Some (replicate 32 Byte.x00, false))
      else h ← mt_get_hash m 0; Ok (Some (h, mutation))
  end.

(** * Specification: the levels of the tree as lists of hashes *)

Fixpoint pair_up (l : list hash) : list hash :=
  match l with
  | x :: y :: l' => double_sha256 (x ++ y) :: pair_up l'
  | _ => []
  end.

(** The level, with its last hash repeated when their number is odd. *)
Definition even_level (l : list hash) : list hash :=
  if Nat.even (length l) then l
  else match last l with Some x => l ++ [x] | None => l end.

Definition next_level (l : list hash) : list hash := pair_up (even_level l).

Fixpoint adjacent_equal (l : list hash) : bool :=
  match l with
  | x :: (y :: _) as l' => bool_decide (x = y) || adjacent_equal l'
  | _ => false
  end.

(** The root of the tree above a level, and whether a level up to it holds
    twice the same hash in a row. *)
Fixpoint merkle_spec (fuel : nat) (l : list hash) : hash * bool :=
  match l with
  | [] => (replicate 32 Byte.x00, false)
  | [h] => (h, false)
  | _ =>
      match fuel with
      | O => (replicate 32 Byte.x00, false)
      | Datatypes.S fuel =>
          let '(root, mutated) := merkle_spec fuel (next_level l) in
          (root, adjacent_equal l || mutated)
      end
  end.

Definition merkle_root (l : list hash) : hash * bool := merkle_spec (length l) l.

(** * Lemmas *)

Definition hashes (l : list hash) : Prop := Forall hash_ok l.

Lemma len_concat_hashes l : hashes l → len (concat l) = 32 * len l.
Proof.
  induction 1 as [|x l Hx _ IH]; [done|]. simpl. rewrite len_app, IH, len_hash, len_cons by done. lia.
Qed.

Lemma mt_len_hashes l : hashes l → mt_len (concat l) = len l.
Proof.
  intros Hl. unfold mt_len. rewrite len_concat_hashes, Z.mul_comm by done. apply Z.div_mul. lia.
Qed.

(** The bytes of the hashes from an index on. *)
Lemma tail_at_hashes l1 l2 :
  hashes l1 → tail_at (concat (l1 ++ l2)) (32 * len l1) (concat l2).
Proof.
  intros Hl. rewrite concat_app, <- len_concat_hashes by done. apply (tail_at_app _ 0), tail_at_0.
Qed.

Definition level_ok (l : list hash) : Prop := hashes l ∧ 32 * len l <= 2 ^ 62.

Lemma mt_get_hash_at l1 x l2 :
  level_ok (l1 ++ x :: l2) → mt_get_hash (concat (l1 ++ x :: l2)) (len l1) = Ok x.
Proof.
  intros [Hl Hs]. apply Forall_app in Hl as [Hl1 Hl2]. pose proof (len_nonneg l1).
  pose proof (len_nonneg l2). rewrite len_app, len_cons in Hs.
  pose proof (tail_at_hashes l1 (x :: l2) Hl1) as Ht. apply Forall_cons_1 in Hl2 as [Hx _].
  apply tail_at_get in Ht. rewrite len_hash in Ht by done.
  unfold mt_get_hash, slice_idx. unwrap. replace (len l1 * 32) with (32 * len l1) by lia.
  by rewrite Ht.
Qed.

Lemma get_block_at l1 x y l2 k :
  level_ok (l1 ++ x :: y :: l2) → len l1 = 2 * k →
  get_block (concat (l1 ++ x :: y :: l2)) k = Ok (x ++ y).
Proof.
  intros [Hl Hs] Hk. apply Forall_app in Hl as [Hl1 Hl2]. pose proof (len_nonneg l1).
  pose proof (len_nonneg l2). rewrite len_app, !len_cons in Hs.
  pose proof (tail_at_hashes l1 (x :: y :: l2) Hl1) as Ht.
  apply Forall_cons_1 in Hl2 as [Hx Hl2]. apply Forall_cons_1 in Hl2 as [Hy _].
  simpl in Ht. rewrite app_assoc in Ht. apply tail_at_get in Ht.
  rewrite len_app, !len_hash in Ht by done.
  unfold get_block, slice_idx. unwrap. replace (k * 2 * 32) with (32 * len l1) by lia.
  by replace (32 * len l1 + 64) with (32 * len l1 + (32 + 32)) by lia; rewrite Ht.
Qed.

Lemma mt_set_hash_at l1 x l2 h :
  level_ok (l1 ++ x :: l2) → hash_ok h →
  mt_set_hash (concat (l1 ++ x :: l2)) (len l1) h = Ok (concat (l1 ++ h :: l2)).
Proof.
  intros [Hl Hs] Hh. apply Forall_app in Hl as [Hl1 Hl2]. apply Forall_cons_1 in Hl2 as [Hx _].
  pose proof (len_nonneg l1). pose proof (len_nonneg l2). rewrite len_app, len_cons in Hs.
  unfold mt_set_hash. unwrap. rewrite !concat_app. simpl.
  replace (len l1 * 32) with (len (concat l1)) by (rewrite len_concat_hashes by done; lia).
  apply slice_write_at. by rewrite !len_hash.
Qed.

Lemma pair_up_ok l : hashes (pair_up l).
Proof.
  induction l as [| |x y l IH] using list_pair_ind; simpl; [by constructor..|].
  constructor; [apply double_sha256_ok|done].
Qed.

Lemma length_pair_up l : length (pair_up l) = (length l / 2)%nat.
Proof.
  induction l as [| |x y l IH] using list_pair_ind; [done..|].
  cbn [pair_up length]. rewrite IH.
  replace (Datatypes.S (Datatypes.S (length l))) with (1 * 2 + length l)%nat by lia.
  by rewrite Nat.div_add_l.
Qed.

Lemma pair_up_app l1 l2 :
  Nat.even (length l1) = true → pair_up (l1 ++ l2) = pair_up l1 ++ pair_up l2.
Proof.
  induction l1 as [| |x y l1 IH] using list_pair_ind; simpl; [done..|].
  intros He. by rewrite IH.
Qed.

(** One iteration of [collapse]: the hash of the next pair replaces the first
    hash that is not needed any more. *)
Lemma collapse_step_spec prev junk x y todo :
  hashes prev → hashes junk → hashes (x :: y :: todo) → length junk = length prev →
  32 * len (prev ++ junk ++ x :: y :: todo) <= 2 ^ 62 →
  ∃ junk', hashes junk' ∧ length junk' = Datatypes.S (length prev) ∧
    collapse_step (concat (prev ++ junk ++ x :: y :: todo)) (len prev)
    = Ok (concat ((prev ++ [double_sha256 (x ++ y)]) ++ junk' ++ todo)).
Proof.
  intros Hp Hj Ht Hlen Hs. assert (hashes (prev ++ junk ++ x :: y :: todo)) as Hall
    by by repeat (apply Forall_app; split).
  assert (hashes [x; y]) as Hxy by by apply (Forall_app hash_ok [x; y] todo) in Ht as [? _].
  assert (∃ z junk', junk ++ x :: y :: todo = z :: junk' ++ todo ∧ hashes (z :: junk') ∧
    length junk' = Datatypes.S (length prev)) as (z & junk' & Hz & Hzj & Hl).
  { destruct junk as [|z junk]; simpl in *.
    - exists x, [y]. rewrite <- Hlen. by split_and!.
    - exists z, (junk ++ [x; y]). rewrite <- app_assoc, length_app. split_and!; [done| |simpl; lia].
      apply Forall_cons_1 in Hj as [? Hj]. constructor; [done|].
      by apply Forall_app. }
  exists junk'. apply Forall_cons_1 in Hzj as [Hzo Hj']. split_and!; [done|done|].
  unfold collapse_step. rewrite app_assoc in Hall, Hs |- * at 1.
  rewrite get_block_at by (done || (rewrite len_app; unfold len; lia)).
  cbn [mbind outcome_bind]. rewrite <- app_assoc, Hz in *.
  rewrite mt_set_hash_at by (done || apply double_sha256_ok).
  by rewrite <- ?app_assoc.
Qed.

(** The loop of [collapse], from the pair number [length prev] on. *)
Lemma collapse_loop_spec todo : ∀ prev junk,
  Nat.even (length todo) = true →
  hashes todo → hashes prev → hashes junk → length junk = length prev →
  32 * len (prev ++ junk ++ todo) <= 2 ^ 62 →
  ∃ junk', for_each collapse_step (seqZ (len prev) (len todo / 2)) (concat (prev ++ junk ++ todo))
    = Ok (concat (prev ++ pair_up todo ++ junk')) ∧
    length junk' = (length prev + length todo / 2)%nat ∧ hashes junk'.
Proof.
  induction todo as [| |x y todo IH] using list_pair_ind; intros prev junk He Ht Hd Hj Hlen Hs;
    [|done|].
  - exists junk. simpl. rewrite Nat.add_0_r, app_nil_r. done.
  - pose proof (len_nonneg todo). pose proof (Z.div_pos (len todo) 2 ltac:(done) ltac:(lia)).
    replace (len (x :: y :: todo) / 2) with (Z.succ (len todo / 2)); cycle 1.
    { rewrite !len_cons. replace (1 + (1 + len todo)) with (len todo + 1 * 2) by lia.
      rewrite Z.div_add; lia. }
    rewrite seqZ_cons by lia. cbn [for_each].
    destruct (collapse_step_spec prev junk x y todo) as (junk1 & Hj1 & Hl1 & ->); [done..|].
    cbn [mbind outcome_bind].
    destruct (IH (prev ++ [double_sha256 (x ++ y)]) junk1) as (junk' & He' & Hl' & Hj').
    { done. }
    { by apply (Forall_app hash_ok [x; y] todo) in Ht as [_ ?]. }
    { apply Forall_app; split; [done|]. constructor; [apply double_sha256_ok|constructor]. }
    { done. }
    { rewrite length_app. simpl. lia. }
    { rewrite !len_app, ?len_cons, ?len_app, ?len_nil in *. unfold len in *. lia. }
    exists junk'. rewrite len_app, len_cons, len_nil in He'.
    replace (Z.succ (len prev)) with (len prev + (1 + 0)) by lia.
    replace (Z.pred (Z.succ (len todo / 2))) with (len todo / 2) by lia.
    rewrite He'. rewrite <- !app_assoc. split_and!; [done| |done].
    rewrite Hl', length_app. cbn [length].
    replace (Datatypes.S (Datatypes.S (length todo))) with (1 * 2 + length todo)%nat by lia.
    rewrite Nat.div_add_l by lia. lia.
Qed.

Lemma collapse_spec l :
  Nat.even (length l) = true → level_ok l →
  ∃ junk, collapse (concat l) = Ok (concat (pair_up l ++ junk)) ∧
    length junk = (length l / 2)%nat ∧ hashes junk.
Proof.
  intros He [Hl Hs]. unfold collapse. rewrite mt_len_hashes by done.
  assert (Z.land (len l) 1 = 0) as ->.
  { change 1 with (Z.ones 1). rewrite Z.land_ones by lia. change (2 ^ 1) with 2.
    apply Nat.even_spec in He as [k Hk]. unfold len. rewrite Hk.
    replace (Z.of_nat (2 * k)) with (Z.of_nat k * 2) by lia. by apply Z.mod_mul. }
  simpl. destruct (collapse_loop_spec l [] []) as (junk & Hc & Hlen & Hj); [done|done|by constructor..| | |].
  - done.
  - done.
  - exists junk. simpl in *. done.
Qed.
Lemma mutation_loop_spec l2 : ∀ l1 b,
  level_ok (l1 ++ l2) →
  for_each (mutation_step (concat (l1 ++ l2))) (seqZ (len l1) (len l2 - 1)) b
  = Ok (adjacent_equal l2 || b).
Proof.
  induction l2 as [|x [|y l2] IH]; intros l1 b Hok; [done..|].
  pose proof (len_nonneg l1). pose proof (len_nonneg l2).
  rewrite seqZ_cons by (rewrite !len_cons; lia). cbn [for_each].
  unfold mutation_step at 2. rewrite mt_get_hash_at by done. cbn [mbind outcome_bind].
  pose proof Hok as [_ Hs]. rewrite len_app, !len_cons in Hs. unwrap.
  assert (level_ok ((l1 ++ [x]) ++ y :: l2)) as Hok' by by rewrite <- app_assoc.
  specialize (IH (l1 ++ [x]) (if bool_decide (x = y) then true else b) Hok').
  pose proof (mt_get_hash_at (l1 ++ [x]) y l2 Hok') as Hg.
  rewrite <- app_assoc, len_app, len_cons, len_nil in *. rewrite Z.add_0_r in *.
  simpl app in *. rewrite Hg. cbn [mbind outcome_bind].
  replace (Z.succ (len l1)) with (len l1 + 1) by lia.
  replace (Z.pred (1 + len (y :: l2) - 1)) with (len (y :: l2) - 1) by lia.
  rewrite IH. f_equal. cbn [adjacent_equal]. case_bool_decide; simpl; [|done].
  apply orb_true_r.
Qed.

Lemma level_ok_app l1 l2 : level_ok (l1 ++ l2) → level_ok l1 ∧ level_ok l2.
Proof.
  intros [Hl Hs]. rewrite len_app in Hs. apply Forall_app in Hl as [? ?].
  pose proof (len_nonneg l1). pose proof (len_nonneg l2). split; split; (done || lia).
Qed.

Lemma even_level_even l : Nat.even (length (even_level l)) = true.
Proof.
  unfold even_level. destruct (Nat.even (length l)) eqn:He; [done|].
  destruct (last l) as [x|] eqn:Hl; [|by apply last_None in Hl as ->].
  rewrite length_app. simpl. by rewrite Nat.add_1_r, Nat.even_succ, <- Nat.negb_even, He.
Qed.

Lemma length_even_level l : (length l <= length (even_level l) <= length l + 1)%nat.
Proof. unfold even_level. repeat case_match; rewrite ?length_app; simpl; lia. Qed.

Lemma even_level_ok l : level_ok l → 32 * len l <= 2 ^ 61 → level_ok (even_level l).
Proof.
  intros [Hl _] Hs. pose proof (length_even_level l). split; [|unfold len in *; lia].
  unfold even_level. destruct (Nat.even _); [done|].
  destruct (last l) as [x|] eqn:Hlast; [|done]. apply last_Some in Hlast as [l' ->].
  apply Forall_app; split; [done|]. by apply Forall_app in Hl as [_ ?].
Qed.

Lemma length_next_level l : length (next_level l) = ((length l + 1) / 2)%nat.
Proof.
  unfold next_level. rewrite length_pair_up. unfold even_level.
  destruct (Nat.even (length l)) eqn:He.
  - apply Nat.even_spec in He as [k ->]. rewrite (Nat.mul_comm 2 k), Nat.div_mul by lia.
    by rewrite Nat.div_add_l, Nat.div_small, Nat.add_0_r by lia.
  - destruct (last l) as [x|] eqn:Hl; [|by apply last_None in Hl as ->].
    by rewrite length_app.
Qed.

(** The repetition of the last hash, as the code does it. *)
Lemma extend_spec l :
  level_ok l →
  (if Z.land (mt_len (concat l)) 1 =? 1
   then b ← expect (slice_from (concat l) ((mt_len (concat l) -! 1) *! 32)) "slice index out of range";
        Ok (concat l ++ b)
   else Ok (concat l)) = Ok (concat (even_level l)).
Proof.
  intros [Hl Hs]. rewrite mt_len_hashes by done. pose proof (len_nonneg l).
  replace (Z.land (len l) 1 =? 1) with (negb (Nat.even (length l))); cycle 1.
  { change 1 with (Z.ones 1). rewrite Z.land_ones by lia. change (2 ^ 1) with 2.
    unfold len. destruct (Nat.even (length l)) eqn:He; simpl.
    - apply Nat.even_spec in He as [k ->]. replace (Z.of_nat (2 * k)) with (Z.of_nat k * 2) by lia.
      by rewrite Z.mod_mul.
    - rewrite <- Nat.negb_odd in He. apply negb_false_iff, Nat.odd_spec in He as [k ->].
      replace (Z.of_nat (2 * k + 1)) with (1 + Z.of_nat k * 2) by lia.
      by rewrite Z.mod_add. }
  unfold even_level. destruct (Nat.even (length l)) eqn:He; simpl; [done|].
  destruct (last l) as [x|] eqn:Hx; [|by apply last_None in Hx as ->].
  apply last_Some in Hx as [l' ->]. pose proof (len_nonneg l').
  rewrite len_app, len_cons, len_nil in *. unwrap.
  apply Forall_app in Hl as [Hl' Hx]. pose proof (tail_at_hashes l' [x] Hl') as Ht.
  apply tail_at_from in Ht.
  replace ((len l' + (1 + 0) - 1) * 32) with (32 * len l') by lia. rewrite Ht. simpl.
  by rewrite (concat_app (l' ++ [x])).
Qed.

Lemma into_root_step_spec l b :
  l ≠ [] → hashes l → 32 * len l <= 2 ^ 61 →
  into_root_step (concat l) b = Ok (concat (next_level l), adjacent_equal l || b).
Proof.
  intros Hne Hl Hs. assert (level_ok l) as Hok by (split; [done|lia]).
  unfold into_root_step. destruct l as [|x l]; [done|].
  rewrite extend_spec by done. rewrite mt_len_hashes by done.
  pose proof (len_nonneg l). rewrite len_cons in Hs |- *. unwrap.
  pose proof (mutation_loop_spec (x :: l) [] b Hok) as Hm. simpl app in Hm.
  rewrite len_cons in Hm. unfold range. change (len []) with 0 in Hm. rewrite Hm.
  cbn [mbind outcome_bind].
  destruct (collapse_spec (even_level (x :: l)) (even_level_even _)) as (junk & -> & Hj & Hjo);
    [apply even_level_ok; [done|rewrite len_cons; lia]|].
  cbn [mbind outcome_bind]. do 2 f_equal.
  assert (length (pair_up (even_level (x :: l))) = length junk) as Hlen
    by by rewrite length_pair_up, Hj.
  pose proof (pair_up_ok (even_level (x :: l))).
  rewrite len_concat_hashes by by apply Forall_app. unfold next_level.
  rewrite len_app. unfold len at 1 2. rewrite Hlen.
  replace (32 * (Z.of_nat (length junk) + Z.of_nat (length junk)))
    with (32 * len junk * 2) by (unfold len; lia).
  rewrite Z.div_mul, concat_app by lia.
  replace (Z.to_nat (32 * len junk)) with (length (concat (pair_up (even_level (x :: l))))).
  { apply take_app_length. }
  apply Nat2Z.inj. pose proof (len_concat_hashes _ (pair_up_ok (even_level (x :: l)))) as Hlc.
  unfold len in *. rewrite Hlen in Hlc. lia.
Qed.

Lemma into_root_loop_spec fuel : ∀ l b,
  hashes l → 32 * len l <= 2 ^ 61 → l ≠ [] → (length l <= fuel)%nat →
  into_root_loop fuel (concat l) b
  = Ok (Some (fst (merkle_spec fuel l), snd (merkle_spec fuel l) || b)) ∧
  hash_ok (fst (merkle_spec fuel l)).
Proof.
  induction fuel as [|fuel IH]; intros [|x [|y l]] b Hl Hs Hne Hf; try done; simpl in Hf; try lia.
  - cbn [into_root_loop]. rewrite mt_len_hashes by done. simpl. rewrite app_nil_r.
    split; [done|]. by apply Forall_cons_1 in Hl as [? _].
  - cbn [into_root_loop]. rewrite mt_len_hashes by done. pose proof (len_nonneg l).
    rewrite (proj2 (Z.ltb_lt _ _)) by (rewrite !len_cons; lia).
    rewrite into_root_step_spec by done. cbn [mbind outcome_bind].
    pose proof (length_next_level (x :: y :: l)) as Hn.
    assert (length (next_level (x :: y :: l)) <= fuel ∧ 1 <= length (next_level (x :: y :: l)) ∧
      length (next_level (x :: y :: l)) <= length (x :: y :: l))%nat as (Hn1 & Hn2 & Hn3).
    { rewrite Hn. cbn [length] in *.
      replace (Datatypes.S (Datatypes.S (length l)) + 1)%nat with (1 * 2 + (length l + 1))%nat by lia.
      rewrite Nat.div_add_l by lia. pose proof (Nat.Div0.div_le_upper_bound (length l + 1) 2 (length l)).
      destruct (length l) as [|k]; [simpl in *; lia|]. lia. }
    destruct (IH (next_level (x :: y :: l)) (adjacent_equal (x :: y :: l) || b)) as [-> Hok].
    + apply pair_up_ok.
    + unfold len in *. lia.
    + intros Hnil. rewrite Hnil in Hn2. simpl in Hn2. lia.
    + lia.
    + cbn [merkle_spec]. destruct (merkle_spec fuel (next_level (x :: y :: l))) as [r m].
      simpl in *. split; [|done]. by rewrite orb_assoc, (orb_comm m).
Qed.

Lemma into_root_spec l :
  hashes l → 32 * len l <= 2 ^ 61 → into_root (concat l) = Ok (Some (merkle_root l)).
Proof.
  intros Hl Hs. unfold into_root. rewrite mt_len_hashes by done.
  unfold len at 1. rewrite Nat2Z.id. destruct l as [|x l]; [done|].
  destruct (into_root_loop_spec (length (x :: l)) (x :: l) false Hl Hs) as [-> Hok]; [done|done|].
  cbn [mbind outcome_bind]. unfold mt_is_empty, merkle_root in *.
  destruct (merkle_spec (length (x :: l)) (x :: l)) as [r m]. simpl in *.
  rewrite len_hash by done. simpl. rewrite orb_false_r.
  pose proof (mt_get_hash_at [] r []) as Hg. simpl in Hg. change (len []) with 0 in Hg.
  rewrite app_nil_r in Hg. rewrite Hg; [done|]. split; [by constructor|]. rewrite len_cons, len_nil. lia.
Qed.
Lemma length_next_level_lt l :
  (2 <= length l → length (next_level l) < length l)%nat.
Proof.
  intros Hl. rewrite length_next_level. apply Nat.Div0.div_lt_upper_bound. lia.
Qed.

Lemma merkle_spec_fuel n : ∀ m l,
  (length l <= n)%nat → (length l <= m)%nat → merkle_spec n l = merkle_spec m l.
Proof.
  induction n as [|n IH]; intros m [|x [|y l]] Hn Hm; simpl in Hn, Hm; try lia; try by destruct m.
  destruct m as [|m]; [lia|]. pose proof (length_next_level_lt (x :: y :: l)) as Hlt.
  simpl length in Hlt. cbn [merkle_spec]. by rewrite (IH m) by lia.
Qed.

Lemma adjacent_equal_end l x : adjacent_equal (l ++ [x; x]) = true.
Proof.
  induction l as [|y [|z l] IH].
  - simpl. by rewrite bool_decide_true.
  - simpl. rewrite (bool_decide_true (x = x)) by done. by rewrite orb_true_r.
  - cbn [app adjacent_equal] in *. by rewrite IH, orb_true_r.
Qed.

Lemma merkle_root_next l :
  (2 <= length l)%nat →
  fst (merkle_root l) = fst (merkle_root (next_level l)) ∧
  snd (merkle_root l) = adjacent_equal l || snd (merkle_root (next_level l)).
Proof.
  intros Hl. pose proof (length_next_level_lt l Hl). unfold merkle_root.
  destruct l as [|x [|y l]]; simpl in Hl; try lia.
  cbn [length] in *. set (nl := next_level (x :: y :: l)) in *.
  rewrite (merkle_spec_fuel (length nl) (Datatypes.S (length l)) nl) by lia.
  change (merkle_spec (Datatypes.S (Datatypes.S (length l))) (x :: y :: l))
    with (let '(r, m) := merkle_spec (Datatypes.S (length l)) nl in
          (r, adjacent_equal (x :: y :: l) || m)).
  by destruct (merkle_spec _ nl).
Qed.

(** Repeating the last hash of an odd level gives the same next level. *)
Lemma merkle_root_repeat l x :
  Nat.even (length l) = true → l ≠ [] →
  fst (merkle_root (l ++ [x; x])) = fst (merkle_root (l ++ [x])) ∧
  snd (merkle_root (l ++ [x; x])) = true.
Proof.
  intros He Hne. destruct l as [|y [|z l]]; [done|done|]. cbn [app length Nat.even] in *.
  set (a := z :: l ++ [x; x]). set (b := z :: l ++ [x]).
  assert (even_level (y :: a) = y :: a) as Ha.
  { unfold even_level, a. cbn [length]. rewrite length_app. cbn [length].
    replace (length l + 2)%nat with (Datatypes.S (Datatypes.S (length l))) by lia.
    by rewrite Nat.even_succ, Nat.odd_succ, Nat.even_succ, Nat.odd_succ, He. }
  assert (even_level (y :: b) = y :: a) as Hb.
  { unfold even_level, b. cbn [length]. rewrite length_app, Nat.add_1_r. cbn [length].
    rewrite Nat.even_succ, Nat.odd_succ, Nat.even_succ, <- Nat.negb_even, He. cbn [negb].
    replace (y :: z :: l ++ [x]) with ((y :: z :: l) ++ [x]) by done.
    rewrite last_snoc. by rewrite <- app_assoc. }
  assert (next_level (y :: a) = next_level (y :: b)) as Hn by (unfold next_level; by rewrite Ha, Hb).
  destruct (merkle_root_next (y :: a)) as [-> ->]; [unfold a; simpl; lia|].
  destruct (merkle_root_next (y :: b)) as [-> _]; [unfold b; simpl; lia|].
  rewrite Hn. split; [done|]. unfold a. pose proof (adjacent_equal_end (y :: z :: l) x) as Hadj.
  simpl app in Hadj. by rewrite Hadj.
Qed.

Lemma append_all l : foldl append_hash mt_new l = concat l.
Proof.
  unfold mt_new, append_hash. trans ([] ++ concat l : bytes); [|done].
  generalize (@nil byte). induction l as [|x l IH]; intros acc; simpl; [by rewrite app_nil_r|].
  by rewrite IH, app_assoc.
Qed.
End merkle.

Import Toy.

(** * The properties *)

(** C22. The in-place computation of [into_root] gives the root of the
    tree whose levels are the lists of pairwise double hashes (the last hash
    repeated when their number is odd), and reports a mutation exactly when two
    neighbours of some level are equal.  It ends: one iteration per level. *)
Theorem into_root_refines `{Sha256} l :
  hashes l → 32 * len l <= 2 ^ 61 →
  into_root (foldl append_hash mt_new l) = Ok (Some (merkle_root l)).
Proof. intros Hl Hs. rewrite append_all. by apply into_root_spec. Qed.

Definition toy_hashes (n : nat) : list hash := map (λ i, to_le 32 (Z.of_nat i)) (seq 0 n).

Lemma into_root_refines_witness :
  into_root (foldl append_hash mt_new (toy_hashes 5)) = Ok (Some (merkle_root (toy_hashes 5))).
Proof.
  apply into_root_refines.
  - unfold hashes. vm_compute. repeat constructor.
  - vm_compute. discriminate.
Defined.

(** A block whose last transaction is repeated has the root of the
    original block when the number of transactions is odd, and [into_root] tells
    the two apart: it reports the repetition. *)
Theorem into_root_detects_repeat `{Sha256} l x :
  hashes (l ++ [x; x]) → 32 * len (l ++ [x; x]) <= 2 ^ 61 →
  Nat.even (length l) = true → l ≠ [] →
  ∃ root mutated,
    into_root (concat (l ++ [x])) = Ok (Some (root, mutated)) ∧
    into_root (concat (l ++ [x; x])) = Ok (Some (root, true)).
Proof.
  intros Hl Hs He Hne. destruct (merkle_root_repeat l x He Hne) as [Hr Hm].
  assert (hashes (l ++ [x]) ∧ 32 * len (l ++ [x]) <= 2 ^ 61) as [Hl' Hs'].
  { rewrite len_app, !len_cons in *. split; [|lia].
    apply Forall_app in Hl as [? Hx]. apply Forall_app; split; [done|].
    apply Forall_cons_1 in Hx as [? _]. by constructor. }
  rewrite !into_root_spec by done.
  destruct (merkle_root (l ++ [x])) as [r m], (merkle_root (l ++ [x; x])) as [r' m'].
  simpl in *. subst. eauto.
Qed.

Lemma into_root_detects_repeat_witness :
  ∃ root mutated,
    into_root (concat (toy_hashes 2 ++ [EMPTY_HASH])) = Ok (Some (root, mutated)) ∧
    into_root (concat (toy_hashes 2 ++ [EMPTY_HASH; EMPTY_HASH])) = Ok (Some (root, true)).
Proof.
  apply (into_root_detects_repeat (toy_hashes 2) EMPTY_HASH).
  - unfold hashes. vm_compute. repeat constructor.
  - vm_compute. discriminate.
  - vm_compute. reflexivity.
  - vm_compute. discriminate.
Defined.
