(* ===== verification/Tx.v ===== *)
(** [src/packets/tx.rs]: transactions, their hashes and their codecs. *)
From S2P Require Import Prelude.
From S2P Require Import Extern.
From S2P Require Import Buffer.
From S2P Require Import Varint.
From S2P Require Import Arena.
From S2P Require Import Wire.
From S2P Require Import Header.

(** * Data *)

Record TxIn := mkTxIn {
  prevout_hash : hash;
  prevout_index : Z;
  sequence : Z;
  sig_script : bytes;
}.

Record TxOut := mkTxOut {
  txout_value : Z;
  txout_script : bytes;
}.

Record Tx := mkTx {
  tx_version : Z;
  tx_locktime : Z;
  txins : list TxIn;
  txouts : list TxOut;
  witness_data : option (list bytes);
  tx_hash : hash;
  witness_hash : hash;
}.

#[export] Instance TxIn_default : Default TxIn := mkTxIn EMPTY_HASH 0 0 [].
#[export] Instance TxOut_default : Default TxOut := mkTxOut 0 [].
#[export] Instance Tx_default : Default Tx := mkTx 0 0 [] [] None EMPTY_HASH EMPTY_HASH.
#[export] Instance TxIn_type : HasType TxIn := RTxIn.
#[export] Instance TxOut_type : HasType TxOut := RTxOut.
#[export] Instance Tx_type : HasType Tx := RTx.

Definition TX_COMMAND : bytes := command_bytes "tx".

(** * Inputs *)

Definition TxIn_read (buffer : bytes) : outcome (TxIn * Z) :=
  hash ← get_hash buffer 0;
  index ← get_u32_le buffer 32;
  b ← with_offset buffer 36;
  '(script, offset) ← deserialize_varstr b;
  sequence ← get_u32_le buffer (offset +! 36);
  Ok (mkTxIn hash index sequence script, offset +! 40).

#[export] Instance TxIn_owned : DeserializableOwned TxIn := {| deserialize_owned := TxIn_read |}.
#[export] Instance TxIn_borrowed : DeserializableBorrowed TxIn :=
  {| deserialize_borrowed := plain_reader TxIn_read |}.

Definition TxIn_serialize {B} `{BufMut B} (t : TxIn) (stream : B) : outcome B :=
  stream ← put_slice stream (prevout_hash t);
  stream ← put_u32_le stream (prevout_index t);
  '(stream, _) ← serialize_varstr (sig_script t) stream;
  put_u32_le stream (sequence t).

#[export] Instance TxIn_serializable : Serializable TxIn :=
  {| serialize B HB := TxIn_serialize |}.

(** [TxInRef::is_empty] *)
Definition txin_is_empty (t : TxIn) : bool :=
  bool_decide (prevout_hash t = EMPTY_HASH) && (prevout_index t =? 0xFFFFFFFF).

#[export] Instance TxIn_wire : Wire TxIn := {|
  encode t := prevout_hash t ++ to_le 4 (prevout_index t) ++ encode_varstr (sig_script t) ++
              to_le 4 (sequence t);
  valid t := hash_ok (prevout_hash t) ∧ in_u32 (prevout_index t) ∧ in_u32 (sequence t);
|}.

(** * Outputs *)

Definition TxOut_read (buffer : bytes) : outcome (TxOut * Z) :=
  value ← get_u64_le buffer 0;
  b ← with_offset buffer 8;
  '(script, offset) ← deserialize_varstr b;
  Ok (mkTxOut value script, offset +! 8).

#[export] Instance TxOut_owned : DeserializableOwned TxOut := {| deserialize_owned := TxOut_read |}.
#[export] Instance TxOut_borrowed : DeserializableBorrowed TxOut :=
  {| deserialize_borrowed := plain_reader TxOut_read |}.

Definition TxOut_serialize {B} `{BufMut B} (t : TxOut) (stream : B) : outcome B :=
  stream ← put_u64_le stream (txout_value t);
  '(stream, _) ← serialize_varstr (txout_script t) stream;
  Ok stream.

#[export] Instance TxOut_serializable : Serializable TxOut :=
  {| serialize B HB := TxOut_serialize |}.

#[export] Instance TxOut_wire : Wire TxOut := {|
  encode t := to_le 8 (txout_value t) ++ encode_varstr (txout_script t);
  valid t := in_u64 (txout_value t);
|}.

Definition serialized_length (t : TxOut) : Z :=
  8 +! length_varint (len (txout_script t)) +! len (txout_script t).

(** [flat_serialize] writes through sub-slices of the slice it is given. *)
Definition flat_serialize (t : TxOut) (slice : bytes) : outcome (bytes * Z) :=
  _ ← expect (slice_get slice 0 8) "called `Option::unwrap()` on a `None` value";
  slice ← slice_write slice 0 (to_le 8 (txout_value t));
  let script := txout_script t in
  rest ← expect (slice_from slice 8) "slice index out of range";
  '(rest, n) ← serialize_varint_into_slice (len script) rest;
  let slice := take 8 slice ++ rest in
  let start_of_script := 8 +! n in
  slice ← slice_write slice start_of_script script;
  Ok (slice, start_of_script +! len script).

(** * Lemmas on inputs and outputs *)

Lemma len_encode_txin t : hash_ok (prevout_hash t) → len (encode t) = 40 + len (encode_varstr (sig_script t)).
Proof. intros H. cbn [encode TxIn_wire]. rewrite !len_app, !len_to_le, len_hash by done. lia. Qed.

Lemma len_encode_txout t : len (encode t) = 8 + len (encode_varstr (txout_script t)).
Proof. cbn [encode TxOut_wire]. by rewrite !len_app, !len_to_le. Qed.

Lemma len_varstr_pos s : 1 <= len (encode_varstr s).
Proof.
  rewrite len_encode_varstr. pose proof (length_varint_range (len s)). pose proof (len_nonneg s). lia.
Qed.

#[export] Instance TxIn_serializable_ok : SerializableOk TxIn.
Proof. intros B HB t b. cbn. unfold TxIn_serialize. put_steps. Qed.

#[export] Instance TxOut_serializable_ok : SerializableOk TxOut.
Proof. intros B HB t b. cbn. unfold TxOut_serialize. put_steps. Qed.

Lemma TxIn_read_at buf t rest :
  tail_at buf 0 (encode t ++ rest) → slice_ok buf → valid t →
  TxIn_read buf = Ok (t, len (encode t)).
Proof.
  intros T Hb (Hh & Hi & Hs). rewrite len_encode_txin by done.
  pose proof (len_varstr_pos (sig_script t)). pose proof (len_nonneg rest).
  cbn [encode TxIn_wire] in T. rewrite <- !app_assoc in T. unfold TxIn_read.
  pose proof (tail_at_len _ _ _ T) as Hl. autorewrite with len in Hl. rewrite len_hash in Hl by done.
  rewrite (get_hash_at _ _ _ _ T) by done. cbn [mbind outcome_bind]. tail_next T 32.
  rewrite (get_u32_le_at _ _ _ _ T) by done. cbn [mbind outcome_bind]. tail_next T 36.
  rewrite (with_offset_at _ _ _ T). cbn [mbind outcome_bind].
  rewrite (deserialize_varstr_at _ _ _ _ T) by done. cbn [mbind outcome_bind].
  rewrite <- len_encode_varstr in Hl. unwrap.
  tail_next T (len (encode_varstr (sig_script t)) + 36).
  rewrite (get_u32_le_at _ _ _ _ T) by done. cbn [mbind outcome_bind].
  do 2 f_equal; [by destruct t|lia].
Qed.

Lemma TxOut_read_at buf t rest :
  tail_at buf 0 (encode t ++ rest) → slice_ok buf → valid t →
  TxOut_read buf = Ok (t, len (encode t)).
Proof.
  intros T Hb Hv. rewrite len_encode_txout.
  pose proof (len_varstr_pos (txout_script t)). pose proof (len_nonneg rest).
  cbn [encode TxOut_wire] in T. rewrite <- !app_assoc in T. unfold TxOut_read.
  pose proof (tail_at_len _ _ _ T) as Hl. rewrite !len_app, len_to_le in Hl.
  rewrite (get_u64_le_at _ _ _ _ T) by done. cbn [mbind outcome_bind]. tail_next T 8.
  rewrite (with_offset_at _ _ _ T). cbn [mbind outcome_bind].
  rewrite (deserialize_varstr_at _ _ _ _ T) by done. cbn [mbind outcome_bind].
  unwrap. do 2 f_equal; [by destruct t|lia].
Qed.

#[export] Instance TxIn_owned_ok : OwnedOk TxIn.
Proof. intros t rest Hv Hb. eapply TxIn_read_at; [apply tail_at_0|done|done]. Qed.

#[export] Instance TxOut_owned_ok : OwnedOk TxOut.
Proof. intros t rest Hv Hb. eapply TxOut_read_at; [apply tail_at_0|done|done]. Qed.

#[export] Program Instance TxIn_borrowed_ok : BorrowedOk TxIn := {| need _ := 0 |}.
Next Obligation. done. Qed.
Next Obligation.
  intros self t rest a Hv Hb Hwf _. apply plain_reader_Ok; [done|]. by apply TxIn_owned_ok.
Qed.

#[export] Program Instance TxOut_borrowed_ok : BorrowedOk TxOut := {| need _ := 0 |}.
Next Obligation. done. Qed.
Next Obligation.
  intros self t rest a Hv Hb Hwf _. apply plain_reader_Ok; [done|]. by apply TxOut_owned_ok.
Qed.

(** * Transactions *)

(** [buffer.get(4..6)] compared with the marker of a transaction with witnesses *)
Definition has_witness_marker (buffer : bytes) : outcome bool :=
  match slice_get buffer 4 6 with
  | Some v => Ok (bool_decide (v = [Byte.x00; Byte.x01]))
  | None => Err "not enough data"
  end.

(** [iter().map(|txin| txin.len() == 1).reduce(&&).unwrap()] *)
Definition all_txins_empty (witnesses : list bytes) : outcome bool :=
  match map (λ w, len w =? 1) witnesses with
  | [] => Panic "called `Option::unwrap()` on a `None` value"
  | x :: l => Ok (foldl andb x l)
  end.

Definition get_unwrap (b : bytes) (i j : Z) : outcome bytes :=
  expect (slice_get b i j) "called `Option::unwrap()` on a `None` value".

Section tx.
Context `{Sha256, Layout}.

(** The loop that reads one witness per input, into an arena array. *)
Definition read_witness (buffer : bytes) (s : Z * ArenaArray bytes) :
    outcome (Z * ArenaArray bytes) :=
  let '(offset, wits) := s in
  b ← with_offset buffer offset;
  '(components, offset_delta) ← deserialize_array_of_varstr_as_varstr b;
  wits ← aa_push wits components;
  Ok (offset +! offset_delta, wits).

(** The witnesses, where they start and where they end. *)
Definition read_witnesses (buffer : bytes) (has_witness_data : bool) (count offset : Z) :
    amonad (option (list bytes) * Z * Z) :=
  if has_witness_data then
    wits ← try_alloc_arenaarray RSliceU8 count;
    '(end_, wits) ← lift (repeat_for count (read_witness buffer) (offset, wits));
    mret (Some (into_arena_array wits), offset, end_)
  else mret (None, 0, offset).

(** The hash, which leaves the witnesses out, and the hash with them. *)
Definition tx_hashes (buffer : bytes) (witnesses : option (list bytes))
    (witnesses_start witnesses_end : Z) : outcome (hash * hash) :=
  match witnesses with
  | Some witnesses =>
      version ← get_unwrap buffer 0 4;
      body ← get_unwrap buffer 6 witnesses_start;
      locktime ← get_unwrap buffer witnesses_end (witnesses_end +! 4);
      let sha := sha256_update sha256_new version in
      let sha := sha256_update sha body in
      let sha := sha256_update sha locktime in
      let hash := sha256 (sha256_finalize sha) in
      empty ← all_txins_empty witnesses;
      if (empty : bool) then Ok (hash, hash)
      else
        all ← get_unwrap buffer 0 (witnesses_end +! 4);
        Ok (hash, double_sha256 all)
  | None =>
      all ← get_unwrap buffer 0 (witnesses_end +! 4);
      Ok (double_sha256 all, double_sha256 all)
  end.

Definition Tx_deserialize (self : Tx) (buffer : bytes) : amonad (Tx * Z) :=
  version ← lift (get_u32_le buffer 0);
  has_witness_data ← lift (has_witness_marker buffer);
  let offset := if (has_witness_data : bool) then 6 else 4 in
  b ← lift (with_offset buffer offset);
  '(ins, offset_delta) ← deserialize_array b;
  let offset := offset +! offset_delta in
  _ ← lift (if len ins =? 0 then Err "0 txins" else Ok tt);
  b ← lift (with_offset buffer offset);
  '(outs, offset_delta) ← deserialize_array b;
  let offset := offset +! offset_delta in
  '(witnesses, witnesses_start, offset) ←
    read_witnesses buffer has_witness_data (len (ins : list TxIn)) offset;
  locktime ← lift (get_u32_le buffer offset);
  '(hash, whash) ← lift (tx_hashes buffer witnesses witnesses_start offset);
  mret (mkTx version locktime ins (outs : list TxOut) witnesses hash whash, offset +! 4).

#[export] Instance Tx_borrowed : DeserializableBorrowed Tx :=
  {| deserialize_borrowed := Tx_deserialize |}.

Definition Tx_serialize {B} `{BufMut B} (t : Tx) (stream : B) : outcome B :=
  stream ← put_u32_le stream (tx_version t);
  stream ← (if witness_data t is Some _ then put_u16 stream 0x0001 else Ok stream);
  stream ← serialize_array (txins t) stream;
  stream ← serialize_array (txouts t) stream;
  stream ← (match witness_data t with
            | Some witnesses => for_each put_slice witnesses stream
            | None => Ok stream
            end);
  put_u32_le stream (tx_locktime t).

#[export] Instance Tx_serializable : Serializable Tx :=
  {| serialize B HB := Tx_serialize |}.

(** ** The form in which the database keeps a transaction: without outputs *)

Definition read_witness_owned (buffer : bytes) (s : Z * list bytes) : outcome (Z * list bytes) :=
  let '(offset, wits) := s in
  b ← with_offset buffer offset;
  '(components, offset_delta) ← deserialize_array_of_varstr_as_varstr_owned b;
  Ok (offset +! offset_delta, wits ++ [components]).

Definition deserialize_without_txouts (buffer : bytes) (h : hash) : outcome (Tx * Z) :=
  version ← get_u32_le buffer 0;
  has_witness_data ← has_witness_marker buffer;
  let offset := if (has_witness_data : bool) then 6 else 4 in
  b ← with_offset buffer offset;
  '(ins, offset_delta) ← deserialize_array_owned b;
  let offset := offset +! offset_delta in
  _ ← (if len ins =? 0 then Err "0 txins" else Ok tt);
  '(witnesses, offset) ←
    (if (has_witness_data : bool) then
       wits ← with_capacity RSliceU8 (len (ins : list TxIn));
       '(offset, wits) ← repeat_for (len ins) (read_witness_owned buffer) (offset, wits);
       Ok (Some wits, offset)
     else Ok (None, offset));
  locktime ← get_u32_le buffer offset;
  Ok (mkTx version locktime ins [] witnesses h EMPTY_HASH, offset +! 4).

Definition set_witness_hash (t : Tx) (h : hash) : Tx :=
  mkTx (tx_version t) (tx_locktime t) (txins t) (txouts t) (witness_data t) (tx_hash t) h.

Definition compute_witness_hash (t : Tx) : outcome Tx :=
  match witness_data t with
  | Some witnesses =>
      empty ← all_txins_empty witnesses;
      if (empty : bool) then Ok (set_witness_hash t (tx_hash t))
      else
        serialized ← Tx_serialize t ([] : bytes);
        Ok (set_witness_hash t (double_sha256 serialized))
  | None => Ok (set_witness_hash t (tx_hash t))
  end.
End tx.

(** ** [TxRef] *)

Definition is_coinbase (t : Tx) : bool :=
  match txins t with
  | [txin] => txin_is_empty txin
  | _ => false
  end.

Definition txin_size (total : Z) (t : TxIn) : Z :=
  total +! 40 +! length_varint (len (sig_script t)) +! len (sig_script t).

Definition serialized_without_txouts_size (t : Tx) : Z :=
  let total := 4 in
  let total := if witness_data t is Some _ then total +! 2 else total in
  let total := total +! length_varint (len (txins t)) in
  let total := foldl txin_size total (txins t) in
  let total := match witness_data t with
               | Some witnesses => foldl (λ total w, total +! len w) total witnesses
               | None => total
               end in
  total +! 4.

Definition serialize_without_txouts {B} `{BufMut B} (t : Tx) (stream : B) : outcome B :=
  stream ← put_u32_le stream (tx_version t);
  stream ← (if witness_data t is Some _ then put_u16 stream 0x0001 else Ok stream);
  '(stream, _) ← serialize_varint (len (txins t)) stream;
  stream ← for_each (λ stream txin, TxIn_serialize txin stream) (txins t) stream;
  stream ← (match witness_data t with
            | Some witnesses => for_each put_slice witnesses stream
            | None => Ok stream
            end);
  put_u32_le stream (tx_locktime t).

(** * The wire format *)

Definition marker (witnesses : option (list bytes)) : bytes :=
  match witnesses with Some _ => to_be 2 1 | None => [] end.

Definition witness_bytes (witnesses : option (list bytes)) : bytes :=
  match witnesses with Some l => concat l | None => [] end.

(** The part of a transaction that its hash covers, witnesses left out. *)
Definition tx_stripped (t : Tx) : bytes :=
  to_le 4 (tx_version t) ++ encode_array (txins t) ++ encode_array (txouts t) ++
  to_le 4 (tx_locktime t).

Definition encode_tx (t : Tx) : bytes :=
  to_le 4 (tx_version t) ++ marker (witness_data t) ++ encode_array (txins t) ++
  encode_array (txouts t) ++ witness_bytes (witness_data t) ++ to_le 4 (tx_locktime t).

Definition encode_tx_without_txouts (t : Tx) : bytes :=
  to_le 4 (tx_version t) ++ marker (witness_data t) ++ encode_array (txins t) ++
  witness_bytes (witness_data t) ++ to_le 4 (tx_locktime t).

Definition is_witness (w : bytes) : Prop := ∃ l, w = encode_varstrs l.

(** The fields are in range, there is an input, and one witness per input. *)
Definition tx_fields_ok (t : Tx) : Prop :=
  in_u32 (tx_version t) ∧ in_u32 (tx_locktime t) ∧ txins t ≠ [] ∧
  array_valid (txins t) ∧ array_valid (txouts t) ∧
  match witness_data t with
  | Some ws => length ws = length (txins t) ∧ Forall is_witness ws
  | None => True
  end.

Definition txid `{Sha256} (t : Tx) : hash := double_sha256 (tx_stripped t).

Definition wtxid `{Sha256} (t : Tx) : hash :=
  match witness_data t with
  | Some ws => if forallb (λ w, len w =? 1) ws then txid t else double_sha256 (encode_tx t)
  | None => txid t
  end.

#[export] Instance Tx_wire `{Sha256} : Wire Tx := {|
  encode := encode_tx;
  valid t := tx_fields_ok t ∧ tx_hash t = txid t ∧ witness_hash t = wtxid t;
|}.

(** * Lemmas on transactions *)

Lemma encode_varint_first v :
  0 < v → in_u64 v → ∃ x r, encode_varint v = x :: r ∧ x ≠ Byte.x00.
Proof.
  intros Hv Hr. unfold encode_varint. rewrite !to_le_cons.
  destruct (Z.ltb_spec v 0xFD).
  - eexists _, _. split; [reflexivity|]. intros Hx. apply (f_equal byte.unsigned) in Hx.
    rewrite byte.unsigned_of_Z in Hx. unfold byte.wrap in Hx.
    rewrite Z.mod_small in Hx by lia. change (u8 Byte.x00) with 0 in Hx. lia.
  - repeat case_match; eexists _, _; (split; [reflexivity|done]).
Qed.

Lemma has_witness_marker_at buf t rest :
  tx_fields_ok t → tail_at buf 4 (marker (witness_data t) ++ encode_array (txins t) ++ rest) →
  4 <= len rest →
  has_witness_marker buf = Ok (bool_decide (is_Some (witness_data t))).
Proof.
  intros Hf T Hrest. unfold has_witness_marker. destruct (witness_data t) as [ws|] eqn:Hw.
  - apply tail_at_get in T. change (4 + len (marker (Some ws))) with 6 in T. rewrite T.
    done.
  - cbn [marker witness_bytes app] in T. destruct Hf as (_ & _ & Hne & [_ Hl] & _).
    destruct (encode_varint_first (len (txins t))) as (x & r & Hx & Hx0).
    { destruct (txins t); [done|]. rewrite len_cons. pose proof (len_nonneg l). lia. }
    { pose proof (len_nonneg (txins t)). mlia. }
    unfold encode_array in T at 1. rewrite Hx in T.
    cbn [app] in T. set (items := concat (map encode (txins t))) in *.
    assert (∃ y r', (r ++ items) ++ rest = y :: r') as (y & r' & Hy).
    { destruct (_ ++ rest) as [|y r'] eqn:E; [|eauto]. apply (f_equal len) in E.
      rewrite !len_app, len_nil in E. pose proof (len_nonneg (r ++ items)) as H1.
      rewrite len_app in H1. lia. }
    rewrite Hy in T. apply (tail_at_get _ _ [x; y] r') in T. change (4 + len [x; y]) with 6 in T.
    rewrite T. f_equal. rewrite !bool_decide_false; [done|by intros [? [=]]|congruence].
Qed.

Lemma read_witness_at `{Layout} buf i w t arr :
  slice_ok buf → tail_at buf i (w ++ t) → is_witness w →
  aa_len arr < aa_cap arr → size_of (aa_type arr) * aa_cap arr <= aa_room arr →
  read_witness buf (i, arr)
  = Ok (i + len w, mkArenaArray (aa_type arr) (aa_items arr ++ [w]) (aa_cap arr) (aa_room arr)).
Proof.
  intros Hb T [l ->] Hl Hr. unfold read_witness. rewrite (with_offset_at _ _ _ T).
  cbn [mbind outcome_bind]. rewrite deserialize_varstrs_encode by by eapply tail_at_slice_ok.
  cbn [mbind outcome_bind]. rewrite aa_push_Ok by done. cbn [mbind outcome_bind].
  apply tail_at_len in T as [? Hlen]. rewrite len_app in Hlen. pose proof (len_nonneg t).
  pose proof (len_nonneg (encode_varstrs l)). by unwrap.
Qed.

Lemma read_witness_loop `{Layout} buf ws : ∀ i t arr,
  slice_ok buf → tail_at buf i (concat ws ++ t) → Forall is_witness ws →
  aa_len arr + len ws <= aa_cap arr → size_of (aa_type arr) * aa_cap arr <= aa_room arr →
  iter_nat (read_witness buf) (length ws) (i, arr)
  = Ok (i + len (concat ws),
        mkArenaArray (aa_type arr) (aa_items arr ++ ws) (aa_cap arr) (aa_room arr)).
Proof.
  induction ws as [|w ws IH]; intros i t arr Hb T Hw Hl Hr; cbn [iter_nat length concat] in *.
  - rewrite app_nil_r, len_nil, Z.add_0_r. by destruct arr.
  - apply Forall_cons_1 in Hw as [Hw Hws]. rewrite <- app_assoc in T.
    pose proof (len_nonneg ws). rewrite len_cons in Hl.
    rewrite (read_witness_at _ _ _ _ _ Hb T) by (done || lia). cbn [mbind outcome_bind].
    apply tail_at_app in T. rewrite (IH _ _ _ Hb T); simpl; [|done| |done].
    + rewrite <- app_assoc, len_app. do 2 f_equal. lia.
    + unfold aa_len in *. simpl. rewrite len_app, len_cons, len_nil. lia.
Qed.

Definition witness_need `{Layout} (t : Tx) : Z :=
  if witness_data t is Some _ then array_room RSliceU8 (len (txins t)) else 0.

Lemma read_witnesses_at `{Layout} buf t i rest a :
  tx_fields_ok t → slice_ok buf → tail_at buf i (witness_bytes (witness_data t) ++ rest) →
  arena_wf a → witness_need t <= free a →
  ∃ a' start, read_witnesses buf (bool_decide (is_Some (witness_data t))) (len (txins t)) i a
    = Ok (witness_data t, start, i + len (witness_bytes (witness_data t)), a') ∧
    arena_step a a' (witness_need t) ∧ (is_Some (witness_data t) → start = i).
Proof.
  intros (_ & _ & _ & _ & _ & Hw) Hb T Hwf Hf. unfold read_witnesses, witness_need in *.
  destruct (witness_data t) as [ws|].
  - destruct Hw as [Hlen Hws]. rewrite bool_decide_true by done.
    destruct (try_alloc_arenaarray_Ok (T := bytes) a RSliceU8 (len (txins t)) Hwf (len_nonneg _) Hf)
      as (a' & Ha & Hst).
    exists a', i. split; [|done]. rewrite (bind_amonad _ _ _ _ _ Ha).
    assert (len (txins t) = len ws) as -> by (unfold len; by rewrite Hlen).
    erewrite bind_lift; cycle 1.
    { rewrite repeat_for_len. eapply read_witness_loop; [done|exact T|done| |simpl; lia].
      unfold aa_len. simpl. rewrite len_nil. lia. }
    done.
  - exists a, 0. rewrite bool_decide_false by by intros [? ?]. simpl.
    rewrite Z.add_0_r. split_and!; [done| |by intros [? ?]]. apply arena_step_refl; [done|lia].
Qed.

Lemma foldl_andb l b : foldl andb b l = b && forallb id l.
Proof.
  revert b. induction l as [|x l IH]; intros b; simpl; [by rewrite andb_true_r|].
  by rewrite IH, andb_assoc.
Qed.

Lemma all_txins_empty_spec ws :
  ws ≠ [] → all_txins_empty ws = Ok (forallb (λ w, len w =? 1) ws).
Proof.
  intros Hne. unfold all_txins_empty. destruct ws as [|w ws]; [done|]. simpl. f_equal.
  rewrite foldl_andb. f_equal. clear. induction ws as [|w' ws IH]; simpl; [done|]. by rewrite IH.
Qed.

Lemma sha256_three `{Sha256} a b c :
  sha256_finalize (sha256_update (sha256_update (sha256_update sha256_new a) b) c)
  = sha256 (a ++ b ++ c).
Proof. pose proof (sha256_parts [a; b; c]) as Hp. simpl in Hp. by rewrite app_nil_r in Hp. Qed.

(** The offsets of the parts of a transaction. *)
Definition ins_start (t : Tx) : Z := 4 + len (marker (witness_data t)).
Definition outs_start (t : Tx) : Z := ins_start t + len (encode_array (txins t)).
Definition witnesses_start (t : Tx) : Z := outs_start t + len (encode_array (txouts t)).
Definition locktime_start (t : Tx) : Z :=
  witnesses_start t + len (witness_bytes (witness_data t)).

Lemma len_marker w : len (marker w) = if w is Some _ then 2 else 0.
Proof. by destruct w. Qed.

Lemma len_encode_tx t : len (encode_tx t) = locktime_start t + 4.
Proof.
  unfold encode_tx, locktime_start, witnesses_start, outs_start, ins_start.
  rewrite !len_app, !len_to_le. lia.
Qed.

Lemma tx_hashes_spec `{Sha256} buf t rest start :
  tail_at buf 0 (encode_tx t ++ rest) → slice_ok buf → tx_fields_ok t →
  (is_Some (witness_data t) → start = witnesses_start t) →
  tx_hashes buf (witness_data t) start (locktime_start t) = Ok (txid t, wtxid t).
Proof.
  intros T Hb Hf Hstart. pose proof (tail_at_len _ _ _ T) as [_ Hl].
  rewrite len_app, len_encode_tx in Hl. pose proof (len_nonneg rest).
  assert (0 <= locktime_start t) as Hpos.
  { unfold locktime_start, witnesses_start, outs_start, ins_start.
    pose proof (len_nonneg (witness_bytes (witness_data t))).
    pose proof (len_nonneg (encode_array (txouts t))). pose proof (len_nonneg (encode_array (txins t))).
    pose proof (len_nonneg (marker (witness_data t))). lia. }
  assert (slice_get buf 0 (locktime_start t +! 4) = Some (encode_tx t)) as Hall.
  { unwrap. apply (tail_at_get_until _ _ _ _ _ T). rewrite len_encode_tx. lia. }
  unfold tx_hashes, txid, wtxid. destruct (witness_data t) as [ws|] eqn:Hw.
  - rewrite (Hstart ltac:(done)). destruct Hf as (_ & _ & Hne & _ & _ & Hws).
    rewrite Hw in Hws. destruct Hws as [Hws _].
    unfold get_unwrap. rewrite Hall. unwrap.
    unfold encode_tx in T. rewrite Hw, <- !app_assoc in T. cbn [witness_bytes] in T.
    rewrite (tail_at_get_until _ _ _ _ 4 T) by (by rewrite len_to_le).
    cbn [expect mbind outcome_bind]. tail_next T 4.
    apply (tail_at_next _ _ _ _ 6) in T; [|by rewrite len_marker].
    rewrite app_assoc in T.
    rewrite (tail_at_get_until _ _ _ _ (witnesses_start t) T); cycle 1.
    { unfold witnesses_start, outs_start, ins_start. rewrite Hw, len_app, len_marker. lia. }
    cbn [expect mbind outcome_bind].
    apply (tail_at_next _ _ _ _ (witnesses_start t)) in T; cycle 1.
    { unfold witnesses_start, outs_start, ins_start. rewrite Hw, len_app, len_marker. lia. }
    apply (tail_at_next _ _ _ _ (locktime_start t)) in T; cycle 1.
    { unfold locktime_start. by rewrite Hw. }
    rewrite (tail_at_get_until _ _ _ _ _ T) by (by rewrite len_to_le).
    cbn [expect mbind outcome_bind].
    rewrite all_txins_empty_spec by (intros ->; destruct (txins t); done).
    rewrite sha256_three. cbn [mbind outcome_bind]. unfold tx_stripped.
    rewrite <- app_assoc. by destruct (forallb _ ws).
  - unfold get_unwrap. rewrite Hall. cbn [expect mbind outcome_bind].
    unfold encode_tx, tx_stripped. by rewrite Hw.
Qed.

Section tx_codec.
Context `{Sha256, Layout}.

Definition tx_need (t : Tx) : Z :=
  array_need (txins t) + array_need (txouts t) + witness_need t.

Lemma witness_need_nonneg t : 0 <= witness_need t.
Proof.
  unfold witness_need. destruct (witness_data t); [|done].
  apply array_room_nonneg, len_nonneg.
Qed.

Lemma Tx_deserialize_encode self t rest a :
  valid t → slice_ok (encode_tx t ++ rest) → arena_wf a → tx_need t <= free a →
  ∃ a', Tx_deserialize self (encode_tx t ++ rest) a = Ok (t, len (encode_tx t), a') ∧
    arena_step a a' (tx_need t).
Proof.
  intros (Hf & Hid & Hwid) Hb Hwf Hfree. unfold tx_need in *.
  pose proof (array_need_nonneg (txins t)). pose proof (array_need_nonneg (txouts t)).
  pose proof (witness_need_nonneg t).
  pose proof (len_encode_tx t) as Hlen. pose proof (len_nonneg rest).
  pose proof (tail_at_0 (encode_tx t ++ rest)) as T. pose proof T as T0.
  revert T T0 Hb. generalize (encode_tx t ++ rest) at 1 3 5 6. intros buf T T0 Hb.
  pose proof (tail_at_len _ _ _ T) as [_ Hl]. rewrite len_app, Hlen in Hl.
  assert (0 <= len (encode_array (txins t)) ∧ 0 <= len (encode_array (txouts t)) ∧
    0 <= len (witness_bytes (witness_data t)) ∧ 0 <= len (marker (witness_data t)))
    as (? & ? & ? & ?) by (split_and!; apply len_nonneg).
  unfold locktime_start, witnesses_start, outs_start, ins_start in Hl.
  unfold encode_tx in T. rewrite <- !app_assoc in T.
  pose proof Hf as (Hv & Hlt & Hne & [Hiv Hil] & [Hov Hol] & _).
  unfold Tx_deserialize.
  rewrite (bind_lift _ _ _ _ (get_u32_le_at _ _ _ _ T Hb Hv)). tail_next T 4.
  erewrite bind_lift by (eapply has_witness_marker_at;
    [done|exact T|rewrite !len_app, len_to_le; lia]).
  replace (if bool_decide _ then 6 else 4) with (ins_start t); cycle 1.
  { unfold ins_start. rewrite len_marker. by destruct (witness_data t). }
  apply (tail_at_next _ _ _ _ (ins_start t)) in T; [|done].
  rewrite (bind_lift _ _ _ _ (with_offset_at _ _ _ T)).
  destruct (deserialize_array_encode (txins t) (encode_array (txouts t) ++
    witness_bytes (witness_data t) ++ to_le 4 (tx_locktime t) ++ rest) a)
    as (a1 & Ha1 & Hst1); [done|done|by eapply tail_at_slice_ok|done|lia|].
  rewrite (bind_amonad _ _ _ _ _ Ha1). pose proof (arena_step_free _ _ _ Hst1).
  rewrite (wrap64_small (ins_start t + _)) by (unfold ins_start; mlia).
  apply (tail_at_next _ _ _ _ (outs_start t)) in T; [|done]. fold (outs_start t).
  assert (1 <= len (txins t)) as Hpos
    by (destruct (txins t) as [|x l]; [done|]; rewrite len_cons; pose proof (len_nonneg l); lia).
  rewrite (proj2 (Z.eqb_neq (len (txins t)) 0)) by lia.
  rewrite (bind_lift _ _ _ _ eq_refl), (bind_lift _ _ _ _ (with_offset_at _ _ _ T)).
  destruct (deserialize_array_encode (txouts t) (witness_bytes (witness_data t) ++
    to_le 4 (tx_locktime t) ++ rest) a1)
    as (a2 & Ha2 & Hst2); [done|done|by eapply tail_at_slice_ok|by destruct Hst1|lia|].
  rewrite (bind_amonad _ _ _ _ _ Ha2). pose proof (arena_step_free _ _ _ Hst2).
  rewrite (wrap64_small (outs_start t + _)) by (unfold outs_start, ins_start; mlia).
  apply (tail_at_next _ _ _ _ (witnesses_start t)) in T; [|done]. fold (witnesses_start t).
  destruct (read_witnesses_at buf t (witnesses_start t) _ a2 Hf Hb T) as (a3 & start & Ha3 & Hst3 & Hs);
    [by destruct Hst2|lia|].
  rewrite (bind_amonad _ _ _ _ _ Ha3). fold (locktime_start t).
  apply (tail_at_next _ _ _ _ (locktime_start t)) in T; [|done].
  rewrite (bind_lift _ _ _ _ (get_u32_le_at _ _ _ _ T Hb Hlt)).
  rewrite (bind_lift _ _ _ _ (tx_hashes_spec _ _ _ _ T0 Hb Hf Hs)).
  exists a3. rewrite Hlen, wrap64_small
    by (unfold locktime_start, witnesses_start, outs_start, ins_start; mlia).
  split; [|eapply arena_step_trans; [eapply arena_step_trans|..]; (done || reflexivity)].
  rewrite <- Hid, <- Hwid. by destruct t.
Qed.
#[export] Program Instance Tx_borrowed_ok : BorrowedOk Tx := {| need := tx_need |}.
Next Obligation.
  intros t. unfold tx_need. pose proof (array_need_nonneg (txins t)).
  pose proof (array_need_nonneg (txouts t)). pose proof (witness_need_nonneg t). lia.
Qed.
Next Obligation. intros self t rest a Hv Hb Hwf Hf. by apply Tx_deserialize_encode. Qed.
End tx_codec.

(** ** Writing *)

Lemma put_marker {B} `{BufMut B} {C} w (stream : B) (k : B → outcome C) :
  (stream ← (if w is Some _ then put_u16 stream 0x0001 else Ok stream); k stream)
  = (stream ← put_slice stream (marker w); k stream).
Proof. destruct w; simpl; [by rewrite put_u16_spec|by rewrite put_slice_nil]. Qed.

Lemma put_witnesses {B} `{BufMut B} {C} w (stream : B) (k : B → outcome C) :
  (stream ← (match w with
             | Some witnesses => for_each put_slice witnesses stream
             | None => Ok stream
             end); k stream)
  = (stream ← put_slice stream (witness_bytes w); k stream).
Proof.
  destruct w; simpl; [|by rewrite put_slice_nil].
  rewrite (for_each_put _ id) by done. by rewrite map_id.
Qed.

#[export] Hint Rewrite @put_marker @put_witnesses : put.

#[export] Instance Tx_serializable_ok `{Sha256} : SerializableOk Tx.
Proof.
  intros B HB t b. cbn [serialize Tx_serializable encode Tx_wire].
  unfold Tx_serialize, encode_tx. wire_steps.
Qed.

Lemma serialize_without_txouts_spec {B} `{BufMut B} t (b : B) :
  serialize_without_txouts t b = put_slice b (encode_tx_without_txouts t).
Proof.
  unfold serialize_without_txouts, encode_tx_without_txouts, encode_array. put_steps.
  rewrite (for_each_put _ encode); [|intros; apply TxIn_serializable_ok]. put_steps.
Qed.

(** The size computed beforehand is that of what is written. *)
Lemma foldl_txin_size l total :
  0 <= total → Forall valid l → total + len (concat (map encode l)) <= isize_max →
  foldl txin_size total l = total + len (concat (map encode l)).
Proof.
  revert total. induction l as [|t l IH]; intros total H0 Hv Hs; simpl.
  - change (len []) with 0. lia.
  - apply Forall_cons_1 in Hv as [Ht Hv]. cbn [concat map] in Hs |- *.
    pose proof (len_encode_txin t (proj1 Ht)) as Hl. rewrite len_encode_varstr in Hl.
    pose proof (length_varint_range (len (sig_script t))). pose proof (len_nonneg (sig_script t)).
    rewrite len_app in *. pose proof (len_nonneg (concat (map encode l))).
    assert (txin_size total t = total + len (encode t)) as ->.
    { unfold txin_size. unwrap. lia. }
    change (map (λ t, _) l) with (map encode l). rewrite IH by (done || lia). 
    cbn [encode TxIn_wire] in *. lia.
Qed.

Lemma foldl_witness_size (ws : list bytes) total :
  0 <= total → total + len (concat ws) <= isize_max →
  foldl (λ total w, total +! len w) total ws = total + len (concat ws).
Proof.
  revert total. induction ws as [|w ws IH]; intros total H0 Hs; simpl.
  - change (len []) with 0. lia.
  - cbn [concat] in Hs. rewrite len_app in *. pose proof (len_nonneg w).
    pose proof (len_nonneg (concat ws)). unwrap. rewrite IH by lia. lia.
Qed.

Lemma serialized_without_txouts_size_spec t :
  Forall valid (txins t) → slice_ok (encode_tx_without_txouts t) →
  serialized_without_txouts_size t = len (encode_tx_without_txouts t).
Proof.
  intros Hv Hs. unfold slice_ok, encode_tx_without_txouts, encode_array in *.
  rewrite !len_app, !len_to_le, len_marker, len_encode_varint in *.
  pose proof (length_varint_range (len (txins t))).
  pose proof (len_nonneg (concat (map encode (txins t)))).
  pose proof (len_nonneg (witness_bytes (witness_data t))).
  unfold serialized_without_txouts_size.
  assert ((if witness_data t is Some _ then 4 +! 2 else 4)
    = 4 + (if witness_data t is Some _ then 2 else 0)) as -> by by destruct (witness_data t).
  assert (0 <= (if witness_data t is Some _ then 2 else 0)) by by destruct (witness_data t).
  set (k := if witness_data t is Some _ then 2 else 0) in *.
  rewrite (wrap64_small (4 + k + _)) by mlia. rewrite foldl_txin_size by (done || lia).
  replace (match witness_data t with Some ws => _ | None => _ end)
    with (4 + k + length_varint (len (txins t)) + len (concat (map encode (txins t)))
          + len (witness_bytes (witness_data t))); [rewrite wrap64_small by mlia; lia|].
  destruct (witness_data t) as [ws|]; cbn [witness_bytes] in *; [|change (len []) with 0 in *; lia].
  rewrite foldl_witness_size by lia. done.
Qed.

(** ** The form without outputs *)

Definition stored (t : Tx) (h : hash) : Tx :=
  mkTx (tx_version t) (tx_locktime t) (txins t) [] (witness_data t) h EMPTY_HASH.

Lemma read_witness_owned_at buf i w t acc :
  slice_ok buf → tail_at buf i (w ++ t) → is_witness w →
  read_witness_owned buf (i, acc) = Ok (i + len w, acc ++ [w]).
Proof.
  intros Hb T [l ->]. pose proof (tail_at_len _ _ _ T) as [? Hl]. rewrite len_app in Hl.
  pose proof (len_nonneg t). pose proof (len_nonneg (encode_varstrs l)).
  unfold read_witness_owned. rewrite (with_offset_at _ _ _ T). cbn [mbind outcome_bind].
  change deserialize_array_of_varstr_as_varstr_owned with deserialize_array_of_varstr_as_varstr.
  rewrite deserialize_varstrs_encode by by eapply tail_at_slice_ok.
  cbn [mbind outcome_bind]. by unwrap.
Qed.

Lemma read_witness_owned_loop buf ws : ∀ i t acc,
  slice_ok buf → tail_at buf i (concat ws ++ t) → Forall is_witness ws →
  iter_nat (read_witness_owned buf) (length ws) (i, acc) = Ok (i + len (concat ws), acc ++ ws).
Proof.
  induction ws as [|w ws IH]; intros i t acc Hb T Hw; cbn [iter_nat length concat] in *.
  - by rewrite app_nil_r, len_nil, Z.add_0_r.
  - apply Forall_cons_1 in Hw as [Hw Hws]. rewrite <- app_assoc in T.
    rewrite (read_witness_owned_at _ _ _ _ _ Hb T Hw). cbn [mbind outcome_bind].
    apply tail_at_app in T. rewrite (IH _ _ _ Hb T) by done.
    rewrite <- app_assoc, len_app. do 2 f_equal. lia.
Qed.

(** The vectors the reader reserves fit in the address space. *)
Definition tx_vecs_ok `{Layout} (t : Tx) : Prop :=
  vec_ok (txins t) ∧ size_of RSliceU8 * len (txins t) <= isize_max.

Lemma deserialize_without_txouts_encode `{Sha256, Layout} t h rest :
  tx_fields_ok t → tx_vecs_ok t → slice_ok (encode_tx_without_txouts t ++ rest) →
  deserialize_without_txouts (encode_tx_without_txouts t ++ rest) h
  = Ok (stored t h, len (encode_tx_without_txouts t)).
Proof.
  intros Hf [Hv1 Hv2] Hb. pose proof (tail_at_0 (encode_tx_without_txouts t ++ rest)) as T.
  revert T Hb. generalize (encode_tx_without_txouts t ++ rest) at 1 3 4. intros buf T Hb.
  pose proof (tail_at_len _ _ _ T) as [_ Hl]. pose proof (len_nonneg rest).
  assert (0 <= len (encode_array (txins t)) ∧ 0 <= len (witness_bytes (witness_data t)) ∧
    0 <= len (marker (witness_data t))) as (? & ? & ?) by (split_and!; apply len_nonneg).
  unfold encode_tx_without_txouts in *. rewrite <- !app_assoc in T.
  repeat rewrite ?len_app, ?len_to_le in Hl. repeat rewrite ?len_app, ?len_to_le.
  pose proof Hf as (Hv & Hlt & Hne & [Hiv Hil] & _ & Hw).
  unfold deserialize_without_txouts.
  rewrite (get_u32_le_at _ _ _ _ T) by done. cbn [mbind outcome_bind]. tail_next T 4.
  erewrite has_witness_marker_at; [|done|exact T|rewrite !len_app, len_to_le; lia].
  cbn [mbind outcome_bind]. replace (if bool_decide _ then 6 else 4) with (ins_start t); cycle 1.
  { unfold ins_start. rewrite len_marker. by destruct (witness_data t). }
  apply (tail_at_next _ _ _ _ (ins_start t)) in T; [|done].
  rewrite (with_offset_at _ _ _ T). cbn [mbind outcome_bind].
  rewrite deserialize_array_owned_encode by (done || by eapply tail_at_slice_ok).
  cbn [mbind outcome_bind]. rewrite (wrap64_small (ins_start t + _)) by (unfold ins_start; mlia).
  apply (tail_at_next _ _ _ _ (outs_start t)) in T; [|done]. fold (outs_start t).
  assert (1 <= len (txins t)) as Hpos
    by (destruct (txins t) as [|x l]; [done|]; rewrite len_cons; pose proof (len_nonneg l); lia).
  rewrite (proj2 (Z.eqb_neq (len (txins t)) 0)) by lia. cbn [mbind outcome_bind].
  trans ('(witnesses, offset) ←
      Ok (witness_data t, outs_start t + len (witness_bytes (witness_data t)));
    locktime ← get_u32_le buf offset;
    Ok (mkTx (tx_version t) locktime (txins t) [] witnesses h EMPTY_HASH, offset +! 4)).
  { f_equal. destruct (witness_data t) as [ws|].
    - rewrite bool_decide_true by done. destruct Hw as [Hlen Hws]. unfold with_capacity.
      rewrite (proj2 (Z.leb_le _ _)) by done. cbn [mbind outcome_bind].
      assert (len (txins t) = len ws) as -> by (unfold len; by rewrite Hlen).
      rewrite repeat_for_len, (read_witness_owned_loop _ _ _ _ [] Hb T) by done. done.
    - rewrite bool_decide_false by by intros [? ?]. by rewrite Z.add_0_r. }
  cbn [mbind outcome_bind]. apply tail_at_app in T.
  rewrite (get_u32_le_at _ _ _ _ T) by done. cbn [mbind outcome_bind].
  unfold outs_start, ins_start in *. unwrap. unfold stored. do 2 f_equal. lia.
Qed.

Lemma compute_witness_hash_spec `{Sha256} t :
  tx_fields_ok t → tx_hash t = txid t →
  compute_witness_hash t = Ok (set_witness_hash t (wtxid t)).
Proof.
  intros (_ & _ & Hne & _ & _ & Hw) Hid. unfold compute_witness_hash, wtxid.
  destruct (witness_data t) as [ws|]; [|by rewrite Hid].
  rewrite all_txins_empty_spec by (intros ->; destruct (txins t); [done|by destruct Hw]).
  cbn [mbind outcome_bind]. rewrite Hid. destruct (forallb _ ws); [done|].
  pose proof (Tx_serializable_ok bytes vec_buf t []) as Hs.
  cbn [serialize Tx_serializable encode Tx_wire put_slice vec_buf app] in Hs. by rewrite Hs.
Qed.

(** ** Outputs written into a slice *)

Lemma flat_serialize_spec t room rest :
  len room = len (encode t) → slice_ok (room ++ rest) →
  flat_serialize t (room ++ rest) = Ok (encode t ++ rest, serialized_length t) ∧
  serialized_length t = len (encode t).
Proof.
  intros Hl Hb. unfold slice_ok in Hb. rewrite len_app in Hb.
  rewrite len_encode_txout, len_encode_varstr in *.
  cbn [encode TxOut_wire]. unfold flat_serialize, serialized_length, encode_varstr.
  set (s := txout_script t) in *. pose proof (length_varint_range (len s)).
  pose proof (len_nonneg s). pose proof (len_nonneg rest).
  destruct (slice_split room 8 (length_varint (len s))) as (a & b & c & -> & Ha & Hvb); [lia..|].
  rewrite !len_app in Hl, Hb.
  assert (len (to_le 8 (txout_value t)) = 8 ∧ len (encode_varint (len s)) = length_varint (len s))
    as [Hv8 Hvv] by (split; [apply len_to_le|apply len_encode_varint]).
  split; [|unwrap; lia]. rewrite <- !app_assoc.
  rewrite (tail_at_get_until _ _ a (b ++ c ++ rest) 8 (tail_at_0 _)) by lia. cbn [expect mbind outcome_bind].
  pose proof (slice_write_at [] a (b ++ c ++ rest) (to_le 8 (txout_value t)) ltac:(lia)) as Hw.
  change (len []) with 0 in Hw. cbn [app] in Hw. rewrite Hw. cbn [expect mbind outcome_bind].
  pose proof (tail_at_0 (to_le 8 (txout_value t) ++ b ++ c ++ rest)) as T.
  apply (tail_at_next _ _ _ _ 8) in T; [|by rewrite Hv8].
  rewrite (tail_at_from _ _ _ T). cbn [expect mbind outcome_bind].
  rewrite serialize_varint_into_slice_spec.
  pose proof (slice_write_at [] b (c ++ rest) (encode_varint (len s)) ltac:(lia)) as Hw2.
  change (len []) with 0 in Hw2. cbn [app] in Hw2. rewrite Hw2. cbn [mbind outcome_bind].
  rewrite (take_app_length' (to_le 8 _)) by (unfold len in Hv8; lia).
  unwrap. rewrite (app_assoc (to_le 8 _)).
  replace (8 + length_varint (len s)) with (len (to_le 8 (txout_value t) ++ encode_varint (len s)))
    by (rewrite len_app; lia).
  rewrite slice_write_at by lia. cbn [mbind outcome_bind].
  rewrite <- !app_assoc. by rewrite len_app, Hv8, Hvv.
Qed.

Import Toy.

(** * The properties *)

(** [t] with the hashes the reader computes. *)
Definition with_hashes `{Sha256} (t : Tx) : Tx :=
  mkTx (tx_version t) (tx_locktime t) (txins t) (txouts t) (witness_data t) (txid t) (wtxid t).

(** C4. Writing a transaction and reading it back gives the same fields,
    consumes exactly what was written, whatever follows it, and computes the
    hash over the bytes without marker and witnesses and the witness hash over
    all of them (or the same hash when every witness is empty); the arena grows
    by the room of the arrays. *)
Theorem tx_roundtrip `{Sha256, Layout} t self rest a :
  tx_fields_ok t → arena_wf a → tx_need t <= free a →
  ∃ w, Tx_serialize t ([] : bytes) = Ok w ∧
    (slice_ok (w ++ rest) →
     ∃ a', Tx_deserialize self (w ++ rest) a = Ok (with_hashes t, len w, a') ∧
       arena_step a a' (tx_need t)).
Proof.
  intros Hf Hwf Hfree. exists (encode_tx t). split.
  - exact (Tx_serializable_ok bytes vec_buf t []).
  - intros Hb. apply (Tx_deserialize_encode self (with_hashes t) rest a); [|done..]. done.
Qed.

Definition toy_txin : TxIn := mkTxIn (to_le 32 77) 3 0xFFFFFFFE [Byte.x51; Byte.x52].
Definition toy_tx : Tx :=
  mkTx 2 500000 [toy_txin] [mkTxOut 1234 [Byte.x6a]; mkTxOut 99 []]
    (Some [encode_varstrs [[Byte.x01; Byte.x02]; []]]) EMPTY_HASH EMPTY_HASH.

Lemma toy_tx_fields_ok : tx_fields_ok toy_tx.
Proof.
  unfold tx_fields_ok, array_valid, isize_max. simpl.
  split_and!; try (unfold in_u32; lia); try done.
  - constructor; [|constructor]. unfold hash_ok, in_u32. simpl. split_and!; (reflexivity || lia).
  - repeat constructor; unfold in_u64; simpl; lia.
  - constructor; [|constructor]. by eexists.
Qed.

Lemma toy_arena_wf c n : 0 <= c <= n → n <= 2 ^ 40 → arena_wf (mkArena 4096 c n).
Proof. intros Hc Hn. unfold arena_wf. simpl. lia. Qed.

Lemma tx_roundtrip_witness :
  ∃ w, Tx_serialize toy_tx ([] : bytes) = Ok w ∧
    (slice_ok (w ++ [Byte.xff]) →
     ∃ a', Tx_deserialize default_value (w ++ [Byte.xff]) (mkArena 4096 0 4096)
       = Ok (with_hashes toy_tx, len w, a') ∧ arena_step (mkArena 4096 0 4096) a' (tx_need toy_tx)).
Proof.
  apply (tx_roundtrip toy_tx).
  - apply toy_tx_fields_ok.
  - apply toy_arena_wf; lia.
  - vm_compute. discriminate.
Defined.

(** The form without outputs, as the database keeps it: its size is
    the one computed beforehand, and it reads back to the transaction without
    its outputs and with the hash that is passed. *)
Theorem stored_tx_roundtrip `{Sha256, Layout} t h rest :
  tx_fields_ok t → tx_vecs_ok t → slice_ok (encode_tx_without_txouts t ++ rest) →
  ∃ w, serialize_without_txouts t ([] : bytes) = Ok w ∧
    serialized_without_txouts_size t = len w ∧
    deserialize_without_txouts (w ++ rest) h = Ok (stored t h, len w).
Proof.
  intros Hf Hv Hb. exists (encode_tx_without_txouts t). split_and!.
  - exact (serialize_without_txouts_spec t ([] : bytes)).
  - apply serialized_without_txouts_size_spec; [by destruct Hf as (_ & _ & _ & [? _] & _)|].
    unfold slice_ok in *. rewrite len_app in Hb. pose proof (len_nonneg rest). lia.
  - by apply deserialize_without_txouts_encode.
Qed.

Lemma stored_tx_roundtrip_witness :
  ∃ w, serialize_without_txouts toy_tx ([] : bytes) = Ok w ∧
    serialized_without_txouts_size toy_tx = len w ∧
    deserialize_without_txouts (w ++ []) EMPTY_HASH = Ok (stored toy_tx EMPTY_HASH, len w).
Proof.
  apply (stored_tx_roundtrip toy_tx).
  - apply toy_tx_fields_ok.
  - split; vm_compute; discriminate.
  - vm_compute. discriminate.
Defined.

(** The witness hash recomputed from the fields of a transaction is
    the one that was computed from its bytes when it was read. *)
Theorem witness_hash_recomputed `{Sha256, Layout} t self rest a t' n a' x :
  tx_fields_ok t → arena_wf a → tx_need t <= free a → slice_ok (encode_tx t ++ rest) →
  Tx_deserialize self (encode_tx t ++ rest) a = Ok (t', n, a') →
  compute_witness_hash (set_witness_hash t' x) = Ok t'.
Proof.
  intros Hf Hwf Hfree Hb Hd.
  destruct (Tx_deserialize_encode self (with_hashes t) rest a) as (a1 & He & _); [done..|].
  change (encode_tx (with_hashes t)) with (encode_tx t) in He. rewrite Hd in He.
  injection He as -> _ _. by rewrite compute_witness_hash_spec.
Qed.

Lemma witness_hash_recomputed_witness :
  compute_witness_hash (set_witness_hash (with_hashes toy_tx) EMPTY_HASH) = Ok (with_hashes toy_tx).
Proof.
  eapply (witness_hash_recomputed toy_tx default_value [] (mkArena 4096 0 4096)).
  - apply toy_tx_fields_ok.
  - apply toy_arena_wf; lia.
  - vm_compute. discriminate.
  - vm_compute. discriminate.
  - vm_compute. reflexivity.
Defined.

(** [flat_serialize] fills exactly the first [serialized_length]
    bytes of the slice with the encoding of the output and leaves the rest; the
    output reads back from there. *)
Theorem txout_flat_serialize t room rest :
  valid t → len room = serialized_length t → slice_ok (room ++ rest) → len (encode t) <= isize_max →
  ∃ b, flat_serialize t (room ++ rest) = Ok (b, serialized_length t) ∧
    drop (length room) b = rest ∧ TxOut_read b = Ok (t, serialized_length t).
Proof.
  intros Hv Hl Hb Hmax.
  assert (serialized_length t = len (encode t)) as He.
  { destruct (flat_serialize_spec t (replicate (length (encode t)) Byte.x00) []) as [_ He]; [| |done].
    - unfold len. by rewrite length_replicate.
    - rewrite app_nil_r. unfold slice_ok, len in *. by rewrite length_replicate. }
  destruct (flat_serialize_spec t room rest) as [Hf _]; [by rewrite Hl|done|].
  exists (encode t ++ rest). split; [done|]. rewrite He in Hl |- *. split.
  - apply drop_app_length'. unfold len in Hl. lia.
  - apply TxOut_owned_ok; [done|]. unfold slice_ok in *. rewrite len_app in *. lia.
Qed.

Lemma txout_flat_serialize_witness :
  ∃ b, flat_serialize (mkTxOut 1234 [Byte.x6a]) (replicate 10 Byte.x00 ++ [Byte.xff])
         = Ok (b, serialized_length (mkTxOut 1234 [Byte.x6a])) ∧
    drop 10 b = [Byte.xff] ∧
    TxOut_read b = Ok (mkTxOut 1234 [Byte.x6a], serialized_length (mkTxOut 1234 [Byte.x6a])).
Proof.
  apply (txout_flat_serialize (mkTxOut 1234 [Byte.x6a]) (replicate 10 Byte.x00) [Byte.xff]).
  - unfold valid. simpl. unfold in_u64. lia.
  - vm_compute. reflexivity.
  - vm_compute. discriminate.
  - vm_compute. discriminate.
Defined.
