(* ===== verification/Block.v ===== *)
(** [src/packets/block.rs]: blocks, the check of their merkle root and of the
    commitment to their witnesses. *)
From S2P Require Import Prelude.
From S2P Require Import Extern.
From S2P Require Import Buffer.
From S2P Require Import Varint.
From S2P Require Import Arena.
From S2P Require Import Wire.
From S2P Require Import Pow.
From S2P Require Import Header.
From S2P Require Import Merkle.
From S2P Require Import Tx.

Record Block := mkBlock {
  block_header : BlockHeader;
  block_txs : list Tx;
}.

#[export] Instance Block_default : Default Block := mkBlock default_value [].
#[export] Instance Block_type : HasType Block := RBlock.

Definition BLOCK_COMMAND : bytes := command_bytes "block".

(** The magic of the output that commits to the witnesses. *)
Definition COMMITMENT_MAGIC : bytes :=
  map byte.of_Z [0x6a; 0x24; 0xaa; 0x21; 0xa9; 0xed].

Section block.
Context `{Sha256, U256Lib, Layout}.

(** The root of a list of hashes, computed by a [MerkleTree] of the given
    capacity; the fuel of [into_root] always suffices. *)
Definition tree_root (capacity : Z) (l : list hash) : outcome (hash * bool) :=
  tree ← mt_with_capacity capacity;
  r ← into_root (foldl append_hash tree l);
  expect r "out of fuel".

Definition check_merkle_root (header : BlockHeader) (txs : list Tx) : outcome unit :=
  let txs_count := len txs in
  let txs_count := if Z.land txs_count 1 =? 1 then txs_count +! 1 else txs_count in
  '(root, mutated) ← tree_root txs_count (map tx_hash txs);
  if (mutated : bool) then Err "merkle root mutated"
  else if bool_decide (root = bh_merkle_root header) then Ok tt
  else Err "merkle root does not match".

Definition Block_deserialize (self : Block) (buffer : bytes) : amonad (Block * Z) :=
  '(header, _) ← deserialize_borrowed (block_header self) buffer;
  b ← lift (with_offset buffer 80);
  '(txs, offset) ← deserialize_array b;
  _ ← lift (check_merkle_root header txs);
  mret (mkBlock header txs, offset +! 80).

#[export] Instance Block_borrowed : DeserializableBorrowed Block :=
  {| deserialize_borrowed := Block_deserialize |}.

(** [coinbase_tx.txouts.iter().rev()] up to the first output that commits. *)
Fixpoint find_commitment (outs : list TxOut) : outcome (option TxOut) :=
  match outs with
  | [] => Ok None
  | txout :: outs =>
      if 38 <=? len (txout_script txout) then
        prefix ← slice_idx (txout_script txout) 0 6;
        if bool_decide (prefix = COMMITMENT_MAGIC) then Ok (Some txout)
        else find_commitment outs
      else find_commitment outs
  end.

Definition index_panic : string := "index out of bounds".

Definition verify_commitment (txs : list Tx) (coinbase_tx : Tx) (txout : TxOut) : outcome unit :=
  match witness_data coinbase_tx with
  | None => Err "missing witness data for coinbase tx in a witness block"
  | Some witnesses =>
      coinbase_witness ← expect (witnesses !! 0%nat) index_panic;
      ok ← (if len coinbase_witness =? 34 then
              prefix ← slice_idx coinbase_witness 0 2;
              Ok (bool_decide (prefix = [Byte.x01; Byte.x20]))
            else Ok false);
      if negb ok then Err "invalid coinbase witness in a witness block"
      else
        witness_commitment ← unwrap (get_hash (txout_script txout) 6) "called `Result::unwrap()` on an `Err` value";
        witness_reserve_value ← slice_idx coinbase_witness 2 34;
        '(witness_root, mutated) ← tree_root (len txs) (EMPTY_HASH :: map witness_hash (tail txs));
        if (mutated : bool) then Err "witness root mutated"
        else if bool_decide (witness_commitment = double_sha256 (witness_root ++ witness_reserve_value))
        then Ok tt
        else Err "witness commitment is invalid"
  end.

Definition verify_witness_commitment (b : Block) : outcome unit :=
  coinbase_tx ← expect (block_txs b !! 0%nat) index_panic;
  o ← find_commitment (rev (txouts coinbase_tx));
  match o with
  | None => Ok tt
  | Some txout => verify_commitment (block_txs b) coinbase_tx txout
  end.

(** [BlockOwned::serialize]: the header writes the number of transactions. *)
Definition Block_serialize {B} `{BufMut B} (b : Block) (stream : B) : outcome B :=
  stream ← BlockHeader_serialize (block_header b) stream;
  for_each (λ stream tx, Tx_serialize tx stream) (block_txs b) stream.

#[export] Instance Block_serializable : Serializable Block :=
  {| serialize B HB := Block_serialize |}.

(** * The wire format *)

Definition encode_block (b : Block) : bytes :=
  encode (block_header b) ++ concat (map encode (block_txs b)).

(** What the header says of the transactions holds. *)
Definition merkle_ok (b : Block) : Prop :=
  merkle_root (map tx_hash (block_txs b)) = (bh_merkle_root (block_header b), false).

Definition block_fields_ok (b : Block) : Prop :=
  valid (block_header b) ∧ bh_txs_count (block_header b) = len (block_txs b) ∧
  Forall valid (block_txs b) ∧ 64 * len (block_txs b) <= 2 ^ 61.

#[export] Instance Block_wire : Wire Block := {|
  encode := encode_block;
  valid b := block_fields_ok b ∧ merkle_ok b;
|}.

#[export] Instance Block_serializable_ok : SerializableOk Block.
Proof.
  intros B HB b s. cbn [serialize Block_serializable encode Block_wire].
  unfold Block_serialize, encode_block.
  pose proof (BlockHeader_serializable_ok B HB (block_header b) s) as Hs.
  cbn [serialize BlockHeader_serializable] in Hs. rewrite Hs. put_steps.
  apply for_each_put. intros s' t _. apply Tx_serializable_ok.
Qed.

Lemma tree_root_spec capacity l :
  0 <= capacity <= 2 ^ 56 → hashes l → 32 * len l <= 2 ^ 61 →
  tree_root capacity l = Ok (merkle_root l).
Proof.
  intros Hc Hl Hs. unfold tree_root, mt_with_capacity.
  rewrite wrap64_small, (proj2 (Z.leb_le _ _)) by mlia. cbn [mbind outcome_bind].
  change (foldl append_hash [] l) with (foldl append_hash mt_new l).
  rewrite append_all, into_root_spec by done. done.
Qed.

Definition merkle_verdict (header : BlockHeader) (txs : list Tx) : outcome unit :=
  let '(root, mutated) := merkle_root (map tx_hash txs) in
  if (mutated : bool) then Err "merkle root mutated"
  else if bool_decide (root = bh_merkle_root header) then Ok tt
  else Err "merkle root does not match".

Lemma check_merkle_root_spec header txs :
  Forall valid txs → 64 * len txs <= 2 ^ 61 →
  check_merkle_root header txs = merkle_verdict header txs.
Proof.
  intros Hv Hs. pose proof (len_nonneg txs). unfold check_merkle_root, merkle_verdict.
  rewrite tree_root_spec; [done| | |].
  - case_match; unwrap; mlia.
  - apply Forall_map. eapply Forall_impl; [done|]. intros t (_ & -> & _). apply double_sha256_ok.
  - unfold len in *. rewrite length_map. lia.
Qed.

Definition block_need (b : Block) : Z := array_need (block_txs b).

Lemma Block_deserialize_encode self b rest a :
  block_fields_ok b → slice_ok (encode_block b ++ rest) → arena_wf a → block_need b <= free a →
  ∃ a', Block_deserialize self (encode_block b ++ rest) a
    = (_ ← merkle_verdict (block_header b) (block_txs b); Ok (b, len (encode_block b), a')) ∧
    arena_step a a' (block_need b).
Proof.
  intros (Hh & Hc & Hv & Hs) Hb Hwf Hf. pose proof Hh as (Hhf & _ & _).
  pose proof (len_header_bytes _ Hhf) as Hl80. pose proof (len_nonneg (block_txs b)).
  assert (encode_block b ++ rest = header_bytes (block_header b) ++ encode_array (block_txs b) ++ rest)
    as Henc.
  { unfold encode_block, encode_array. cbn [encode BlockHeader_wire]. rewrite Hc.
    by rewrite <- !app_assoc. }
  unfold Block_deserialize.
  destruct (deserialize_borrowed_encode (block_header self) (block_header b)
    (concat (map encode (block_txs b)) ++ rest) a) as (a1 & Hd & Hst).
  { done. }
  { unfold encode_block in Hb. by rewrite <- app_assoc in Hb. }
  { done. }
  { cbn. unfold free, arena_wf in *. lia. }
  rewrite app_assoc in Hd. fold (encode_block b) in Hd. rewrite (bind_amonad _ _ _ _ _ Hd).
  pose proof (tail_at_0 (encode_block b ++ rest)) as T. rewrite Henc in T at 2.
  apply (tail_at_next _ _ _ _ 80) in T; [|by rewrite Hl80].
  rewrite (bind_lift _ _ _ _ (with_offset_at _ _ _ T)).
  cbn [need BlockHeader_borrowed_ok] in Hst. pose proof (arena_step_free _ _ _ Hst).
  unfold block_need in *.
  destruct (deserialize_array_encode (block_txs b) rest a1) as (a2 & Ha2 & Hst2);
    [done|mlia|by eapply tail_at_slice_ok|by destruct Hst|lia|].
  rewrite (bind_amonad _ _ _ _ _ Ha2). exists a2. split; [|by eapply arena_step_trans].
  unfold lift at 1, mbind at 1, amonad_bind.
  rewrite check_merkle_root_spec by done.
  destruct (merkle_verdict _ _); cbn [mbind outcome_bind]; [|done..].
  pose proof (tail_at_len _ _ _ T) as [_ Hl]. rewrite len_app in Hl. pose proof (len_nonneg rest).
  pose proof (len_nonneg (encode_array (block_txs b))).
  assert (len (encode_block b) = 80 + len (encode_array (block_txs b))) as ->.
  { apply (f_equal len) in Henc. rewrite !len_app in Henc. lia. }
  unwrap. unfold mret, amonad_ret. do 3 f_equal; [by destruct b|lia].
Qed.

#[export] Program Instance Block_borrowed_ok : BorrowedOk Block := {| need := block_need |}.
Next Obligation. intros b. apply array_need_nonneg. Qed.
Next Obligation.
  intros self b rest a (Hf & Hm) Hb Hwf Hn.
  destruct (Block_deserialize_encode self b rest a Hf Hb Hwf Hn) as (a' & Hd & Hst).
  exists a'. split; [|done]. cbn [deserialize_borrowed Block_borrowed encode Block_wire]. rewrite Hd.
  unfold merkle_verdict. rewrite Hm. by rewrite bool_decide_true.
Qed.

(** ** The commitment to the witnesses, abstractly *)

Definition commits (o : TxOut) : bool :=
  (38 <=? len (txout_script o)) && bool_decide (take 6 (txout_script o) = COMMITMENT_MAGIC).

(** The output that counts is the last one that commits. *)
Definition commitment_output (outs : list TxOut) : option TxOut := List.find commits (rev outs).

Lemma slice_idx_prefix b n : (n <= length b)%nat → slice_idx b 0 (Z.of_nat n) = Ok (take n b).
Proof.
  intros Hn. unfold slice_idx, slice_get.
  rewrite !(proj2 (Z.leb_le _ _)) by (unfold len; lia). simpl.
  by rewrite Z.sub_0_r, Nat2Z.id.
Qed.

Lemma find_commitment_spec outs : find_commitment outs = Ok (List.find commits outs).
Proof.
  induction outs as [|o outs IH]; [done|]. cbn [find_commitment List.find]. unfold commits at 1.
  destruct (Z.leb_spec 38 (len (txout_script o))) as [Hl|]; [|done].
  change 6 with (Z.of_nat 6). rewrite slice_idx_prefix by (unfold len in Hl; lia).
  cbn [mbind outcome_bind andb]. by case_bool_decide.
Qed.

(** What a witness block must satisfy. *)
Definition commitment_holds (txs : list Tx) (coinbase_tx : Tx) (o : TxOut) : Prop :=
  ∃ ws reserve root,
    witness_data coinbase_tx = Some (([Byte.x01; Byte.x20] ++ reserve) :: ws) ∧ len reserve = 32 ∧
    merkle_root (EMPTY_HASH :: map witness_hash (tail txs)) = (root, false) ∧
    take 32 (drop 6 (txout_script o)) = double_sha256 (root ++ reserve).

Definition coinbase_witnessed (t : Tx) : Prop := witness_data t ≠ Some [].

Lemma get_hash_6 b : 38 <= len b → slice_ok b → get_hash b 6 = Ok (take 32 (drop 6 b)).
Proof.
  intros Hl Hb. unfold get_hash, slice_get. unwrap.
  by rewrite !(proj2 (Z.leb_le _ _)) by lia.
Qed.

(** The two parts of the witness of the coinbase. *)
Lemma coinbase_witness_parts w :
  len w = 34 →
  slice_idx w 0 2 = Ok (take 2 w) ∧ slice_idx w 2 34 = Ok (drop 2 w) ∧ len (drop 2 w) = 32.
Proof.
  intros Hl. unfold slice_idx, slice_get. rewrite Hl. cbn [Z.leb Z.compare Pos.compare Pos.compare_cont andb].
  unfold len in *. rewrite length_drop. split_and!; [done| |lia].
  simpl. f_equal. apply take_ge. rewrite length_drop. lia.
Qed.

Lemma commitment_prefix (w r : bytes) (ws ws' : list bytes) :
  Some (w :: ws) = Some (([Byte.x01; Byte.x20] ++ r) :: ws') →
  take 2 w = [Byte.x01; Byte.x20] ∧ drop 2 w = r.
Proof. by intros [= -> ->]. Qed.

Lemma verify_commitment_spec txs coinbase_tx o :
  commits o = true → slice_ok (txout_script o) → coinbase_witnessed coinbase_tx →
  Forall (λ t, hash_ok (witness_hash t)) (tail txs) → 64 * (1 + len txs) <= 2 ^ 61 →
  safe (verify_commitment txs coinbase_tx o) ∧
  (verify_commitment txs coinbase_tx o = Ok tt ↔ commitment_holds txs coinbase_tx o).
Proof.
  intros Hc Hb Hw Hh Hs. unfold commits in Hc. apply andb_prop in Hc as [Hc _].
  apply Z.leb_le in Hc. unfold verify_commitment, commitment_holds, coinbase_witnessed in *.
  destruct (witness_data coinbase_tx) as [[|w ws]|]; [done| |].
  2: { split; [done|]. split; [done|]. by intros (? & ? & ? & ? & _). }
  cbn [lookup list_lookup expect mbind outcome_bind].
  destruct (Z.eqb_spec (len w) 34) as [Hl|Hl]; cycle 1.
  { split; [done|]. split; [done|]. intros (ws' & r & root & [= -> ->] & Hr & _).
    rewrite !len_cons in Hl. lia. }
  destruct (coinbase_witness_parts w Hl) as (-> & -> & Hr). cbn [mbind outcome_bind].
  case_bool_decide as Hp; cycle 1.
  { split; [done|]. split; [done|]. by intros (ws' & r & root & [? _]%commitment_prefix & _). }
  cbn [negb]. rewrite get_hash_6 by done. cbn [unwrap mbind outcome_bind].
  pose proof (len_nonneg txs). rewrite tree_root_spec; [|lia| |].
  2: { constructor; [done|]. by apply Forall_map. }
  2: { rewrite len_cons. unfold len in *. rewrite length_map.
       assert (length (tail txs) <= length txs)%nat by (destruct txs; simpl; lia). lia. }
  destruct (merkle_root _) as [root mutated] eqn:Hroot. cbn [mbind outcome_bind].
  destruct mutated.
  { split; [done|]. split; [done|]. by intros (? & ? & ? & _ & _ & [=] & _). }
  split; [by case_bool_decide|]. split.
  - case_bool_decide as Hd; [intros _|done].
    exists ws, (drop 2 w), root. split_and!; [|done..]. by rewrite <- Hp, take_drop.
  - intros (ws' & r & root' & [_ <-]%commitment_prefix & _ & [= <-] & He).
    by rewrite bool_decide_true.
Qed.
End block.

Import Toy.

(** * The properties *)

(** C3. What is written for a block, with any header and any well-formed transactions, is read back as that block,
    whatever follows it, exactly when the hash of the header is below its target, no level of the tree of the
    transactions repeats a hash and its root is the one in the header; otherwise the reader rejects it, with the error of the
    first check that fails. The arena of the reader must have room for the arrays of the transactions. *)
Theorem block_roundtrip_merkle `{Sha256, U256Lib, Layout} b self rest a :
  let h := block_header b in
  header_fields_ok h → bh_hash h = double_sha256 (header_bytes h) → bh_txs_count h = len (block_txs b) →
  Forall valid (block_txs b) → 64 * len (block_txs b) <= 2 ^ 61 → arena_wf a → block_need b <= free a →
  ∃ w, Block_serialize b ([] : bytes) = Ok w ∧
    (slice_ok (w ++ rest) →
     ∃ a', Block_deserialize self (w ++ rest) a
       = (let '(root, mutated) := merkle_root (map tx_hash (block_txs b)) in
          if negb (from_le (bh_hash h) <? u256_from_compact (bh_bits h)) then Err "invalid header"
          else if (mutated : bool) then Err "merkle root mutated"
          else if bool_decide (root = bh_merkle_root h) then Ok (b, len w, a')
          else Err "merkle root does not match")).
Proof.
  intros h Hhf Hh Hc Hv Hs Hwf Hn. exists (encode_block b). split.
  { exact (Block_serializable_ok bytes vec_buf b []). }
  intros Hb. assert (is_valid h = (from_le (bh_hash h) <? u256_from_compact (bh_bits h))) as Hpow.
  { unfold is_valid. rewrite u256_from_little_endian_spec; [done|]. rewrite Hh. apply sha256_length. }
  rewrite <- Hpow. destruct (is_valid h) eqn:Hvalid; cbn [negb].
  - destruct (Block_deserialize_encode self b rest a) as (a' & -> & _); [by split_and!|done..|].
    exists a'. unfold merkle_verdict. destruct (merkle_root _) as [root []]; [done|]. unfold h. by case_bool_decide.
  - exists a. unfold Block_deserialize. assert (encode_block b ++ rest = encode h ++ concat (map encode (block_txs b)) ++ rest) as He
      by (unfold encode_block; by rewrite <- app_assoc).
    rewrite He in *. unfold mbind at 1, amonad_bind. cbn [deserialize_borrowed BlockHeader_borrowed]. unfold plain_reader, lift at 1.
    rewrite BlockHeader_read_encode, Hvalid by done. by destruct (merkle_root _).
Qed.

Definition toy_block_txs : list Tx := [with_hashes toy_tx].

Definition toy_block : Block :=
  let root := fst (merkle_root (map tx_hash toy_block_txs)) in
  match BlockHeader_construct 1 EMPTY_HASH root 1231006505 0x1d00ffff 5 1 with
  | Ok h => mkBlock h toy_block_txs
  | _ => default_value
  end.

Lemma toy_block_fields_ok : block_fields_ok toy_block.
Proof.
  assert (toy_block = mkBlock (block_header toy_block) toy_block_txs) as -> by (vm_compute; reflexivity).
  unfold block_fields_ok. cbn [block_header block_txs]. split_and!.
  - cbn [valid BlockHeader_wire]. unfold header_fields_ok, hash_ok, in_u32, in_u64.
    split_and!; (vm_compute; first [reflexivity | discriminate]).
  - vm_compute. reflexivity.
  - constructor; [|constructor]. split; [|done]. apply toy_tx_fields_ok.
  - vm_compute. discriminate.
Qed.

Lemma block_roundtrip_merkle_witness :
  ∃ w, Block_serialize toy_block ([] : bytes) = Ok w ∧
    (slice_ok (w ++ []) →
     ∃ a', Block_deserialize default_value (w ++ []) (mkArena 4096 0 4096)
       = (let '(root, mutated) := merkle_root (map tx_hash (block_txs toy_block)) in
          if negb (from_le (bh_hash (block_header toy_block)) <? u256_from_compact (bh_bits (block_header toy_block)))
          then Err "invalid header"
          else if (mutated : bool) then Err "merkle root mutated"
          else if bool_decide (root = bh_merkle_root (block_header toy_block))
          then Ok (toy_block, len w, a')
          else Err "merkle root does not match")).
Proof.
  destruct toy_block_fields_ok as ((Hf & Hh & _) & Hc & Hv & Hs).
  apply (block_roundtrip_merkle toy_block); [exact Hf|exact Hh|exact Hc|exact Hv|exact Hs| |].
  - apply toy_arena_wf; lia.
  - vm_compute. discriminate.
Defined.

(** The check of the witness commitment never panics, and accepts a
    block exactly when no output of its coinbase commits, or the last one that
    does carries the double hash of the root over the witness hashes (with an
    empty hash for the coinbase) and the reserved value of the coinbase, whose
    witness has the form [1, 32, value]. *)
Theorem witness_commitment_checked `{Sha256, U256Lib, Layout} b coinbase txs :
  block_txs b = coinbase :: txs →
  Forall (λ o, slice_ok (txout_script o)) (txouts coinbase) → coinbase_witnessed coinbase →
  Forall (λ t, hash_ok (witness_hash t)) txs → 64 * (2 + len txs) <= 2 ^ 61 →
  safe (verify_witness_commitment b) ∧
  (verify_witness_commitment b = Ok tt ↔
     match commitment_output (txouts coinbase) with
     | None => True
     | Some o => commitment_holds (coinbase :: txs) coinbase o
     end).
Proof.
  intros Hb Ho Hw Hh Hs. unfold verify_witness_commitment, commitment_output. rewrite Hb.
  cbn [lookup list_lookup expect mbind outcome_bind]. rewrite find_commitment_spec.
  cbn [mbind outcome_bind]. destruct (List.find commits (rev (txouts coinbase))) as [o|] eqn:Hfind;
    [|done]. apply find_some in Hfind as [Hin Hc].
  apply verify_commitment_spec; [done| |done|done|rewrite len_cons; lia].
  rewrite List.Forall_forall in Ho. apply Ho. by apply in_rev.
Qed.

Definition toy_coinbase (commitment : bytes) : Tx :=
  mkTx 1 0 [mkTxIn EMPTY_HASH 0xFFFFFFFF 0 []] [mkTxOut 50 (COMMITMENT_MAGIC ++ commitment)]
    (Some [[Byte.x01; Byte.x20] ++ EMPTY_HASH]) EMPTY_HASH EMPTY_HASH.

Definition toy_commitment : bytes :=
  double_sha256 (fst (merkle_root [EMPTY_HASH; to_le 32 7]) ++ EMPTY_HASH).

Lemma witness_commitment_checked_witness :
  let other := set_witness_hash toy_tx (to_le 32 7) in
  verify_witness_commitment
    (mkBlock default_value [toy_coinbase toy_commitment; other]) = Ok tt.
Proof.
  intros other.
  apply (proj2 (witness_commitment_checked
    (mkBlock default_value [toy_coinbase toy_commitment; other])
    (toy_coinbase toy_commitment) [other] eq_refl
    ltac:(repeat constructor; vm_compute; discriminate) ltac:(vm_compute; discriminate)
    ltac:(repeat constructor) ltac:(vm_compute; discriminate))).
  exists [], EMPTY_HASH, (fst (merkle_root [EMPTY_HASH; to_le 32 7])).
  split_and!; vm_compute; reflexivity.
Defined.
