(* ===== verification/Messages.v ===== *)
(** The remaining messages of [src/packets]: network addresses ([netaddr.rs],
    [addr.rs], [addrv2.rs], [network_id.rs]), [version.rs], inventories
    ([invvector.rs], [inv.rs], [getdata.rs], [notfound.rs]), [getheaders.rs],
    [ping.rs], [pong.rs] and the messages without fields. *)
From S2P Require Import Prelude.
From S2P Require Import Extern.
From S2P Require Import Buffer.
From S2P Require Import Varint.
From S2P Require Import Arena.
From S2P Require Import Wire.

(** * Network identifiers *)

Inductive NetworkId :=
| NetError | IPv4 | IPv6 | Onionv2 | Onionv3 | I2P | CJDNS | YggDrasil.

#[export] Instance NetworkId_eq_dec : EqDecision NetworkId.
Proof. solve_decision. Defined.

Definition network_id_to_u8 (n : NetworkId) : Z :=
  match n with
  | NetError => 0 | IPv4 => 1 | IPv6 => 2 | Onionv2 => 3 | Onionv3 => 4 | I2P => 5
  | CJDNS => 6 | YggDrasil => 7
  end.

Definition network_id_from_u8 (v : Z) : option NetworkId :=
  match v with
  | 0 => Some NetError | 1 => Some IPv4 | 2 => Some IPv6 | 3 => Some Onionv2
  | 4 => Some Onionv3 | 5 => Some I2P | 6 => Some CJDNS | 7 => Some YggDrasil
  | _ => None
  end.

(** [impl Display for NetworkId] *)
Definition network_id_fmt (n : NetworkId) : string :=
  match n with
  | NetError => "error" | IPv4 => "IPv4" | IPv6 => "IPv6" | Onionv2 => "Onionv2"
  | Onionv3 => "Onionv3" | I2P => "I2P" | CJDNS => "CJDNS" | YggDrasil => "YggDrasil"
  end.

Lemma network_id_from_to n : network_id_from_u8 (network_id_to_u8 n) = Some n.
Proof. by destruct n. Qed.

(** * Addresses *)

Definition EMPTY_ADDR : bytes := replicate 16 Byte.x00.

Record NetAddrShort := mkNetAddrShort {
  nas_services : Z;
  nas_addr : bytes;
  nas_port : Z;
}.

#[export] Instance NetAddrShort_default : Default NetAddrShort := mkNetAddrShort 0 EMPTY_ADDR 0.

Definition NetAddrShort_read (buffer : bytes) : outcome (NetAddrShort * Z) :=
  match slice_get buffer 8 24 with
  | Some b =>
      services ← get_u64_le buffer 0;
      port ← get_u16 buffer 24;
      Ok (mkNetAddrShort services b port, 26)
  | None => Err "not enough bytes for netaddrshort"
  end.

#[export] Instance NetAddrShort_borrowed : DeserializableBorrowed NetAddrShort :=
  {| deserialize_borrowed := plain_reader NetAddrShort_read |}.

Definition NetAddrShort_serialize {B} `{BufMut B} (n : NetAddrShort) (stream : B) : outcome B :=
  stream ← put_u64_le stream (nas_services n);
  stream ← put_slice stream (nas_addr n);
  put_u16 stream (nas_port n).

#[export] Instance NetAddrShort_serializable : Serializable NetAddrShort :=
  {| serialize B HB := NetAddrShort_serialize |}.

Record NetAddr := mkNetAddr {
  na_services : Z;
  na_addr : bytes;
  na_time : Z;
  na_port : Z;
}.

#[export] Instance NetAddr_default : Default NetAddr := mkNetAddr 0 EMPTY_ADDR 0 0.
#[export] Instance NetAddr_type : HasType NetAddr := RNetAddr.

Definition NetAddr_read (buffer : bytes) : outcome (NetAddr * Z) :=
  match slice_get buffer 12 28 with
  | Some address =>
      time ← get_u32_le buffer 0;
      services ← get_u64_le buffer 4;
      port ← get_u16 buffer 28;
      Ok (mkNetAddr services address time port, 30)
  | None => Err "not enough bytes for netaddr"
  end.

#[export] Instance NetAddr_borrowed : DeserializableBorrowed NetAddr :=
  {| deserialize_borrowed := plain_reader NetAddr_read |}.

Definition NetAddr_serialize {B} `{BufMut B} (n : NetAddr) (stream : B) : outcome B :=
  stream ← put_u32_le stream (na_time n);
  stream ← put_u64_le stream (na_services n);
  stream ← put_slice stream (na_addr n);
  put_u16 stream (na_port n).

#[export] Instance NetAddr_serializable : Serializable NetAddr :=
  {| serialize B HB := NetAddr_serialize |}.

Record NetAddrV2 := mkNetAddrV2 {
  nv_address : bytes;
  nv_services : Z;
  nv_time : Z;
  nv_port : Z;
  nv_network_id : NetworkId;
}.

#[export] Instance NetAddrV2_default : Default NetAddrV2 := mkNetAddrV2 [] 0 0 0 NetError.
#[export] Instance NetAddrV2_type : HasType NetAddrV2 := RNetAddrV2.

Definition NetAddrV2_read (buffer : bytes) : outcome (NetAddrV2 * Z) :=
  time ← get_u32_le buffer 0;
  b ← with_offset buffer 4;
  '(services, offset) ← deserialize_varint b;
  let offset := offset +! 4 in
  network_id ← ok_or (byte_at buffer offset) "not enough bytes for netaddrv2";
  network_id ← ok_or (network_id_from_u8 (u8 network_id)) "invalid network_id";
  let offset := offset +! 1 in
  b ← with_offset buffer offset;
  '(address, offset_delta) ← deserialize_varstr b;
  let offset := offset +! offset_delta in
  port ← get_u16 buffer offset;
  Ok (mkNetAddrV2 address services time port network_id, offset +! 2).

#[export] Instance NetAddrV2_borrowed : DeserializableBorrowed NetAddrV2 :=
  {| deserialize_borrowed := plain_reader NetAddrV2_read |}.

Definition NetAddrV2_serialize {B} `{BufMut B} (n : NetAddrV2) (stream : B) : outcome B :=
  stream ← put_u32_le stream (nv_time n);
  '(stream, _) ← serialize_varint (nv_services n) stream;
  stream ← put_u8 stream (network_id_to_u8 (nv_network_id n));
  '(stream, _) ← serialize_varstr (nv_address n) stream;
  put_u16 stream (nv_port n).

#[export] Instance NetAddrV2_serializable : Serializable NetAddrV2 :=
  {| serialize B HB := NetAddrV2_serialize |}.

(** ** Their wire formats *)

#[export] Instance NetAddrShort_wire : Wire NetAddrShort := {|
  encode n := to_le 8 (nas_services n) ++ nas_addr n ++ to_be 2 (nas_port n);
  valid n := in_u64 (nas_services n) ∧ len (nas_addr n) = 16 ∧ in_u16 (nas_port n);
|}.

#[export] Instance NetAddr_wire : Wire NetAddr := {|
  encode n := to_le 4 (na_time n) ++ to_le 8 (na_services n) ++ na_addr n ++ to_be 2 (na_port n);
  valid n := in_u32 (na_time n) ∧ in_u64 (na_services n) ∧ len (na_addr n) = 16 ∧ in_u16 (na_port n);
|}.

#[export] Instance NetAddrV2_wire : Wire NetAddrV2 := {|
  encode n := to_le 4 (nv_time n) ++ encode_varint (nv_services n) ++
              to_le 1 (network_id_to_u8 (nv_network_id n)) ++ encode_varstr (nv_address n) ++
              to_be 2 (nv_port n);
  valid n := in_u32 (nv_time n) ∧ in_u64 (nv_services n) ∧ in_u16 (nv_port n);
|}.

#[export] Instance NetAddrShort_serializable_ok : SerializableOk NetAddrShort.
Proof. intros B HB n b. cbn. unfold NetAddrShort_serialize. put_steps. Qed.

#[export] Instance NetAddr_serializable_ok : SerializableOk NetAddr.
Proof. intros B HB n b. cbn. unfold NetAddr_serialize. put_steps. Qed.

#[export] Instance NetAddrV2_serializable_ok : SerializableOk NetAddrV2.
Proof. intros B HB n b. cbn. unfold NetAddrV2_serialize. put_steps. Qed.

Lemma NetAddrShort_read_at buf n rest :
  tail_at buf 0 (encode n ++ rest) → slice_ok buf → valid n →
  NetAddrShort_read buf = Ok (n, len (encode n)).
Proof.
  intros T Hb (Hs & Ha & Hp). cbn [encode NetAddrShort_wire] in *. rewrite <- !app_assoc in T.
  unfold NetAddrShort_read. pose proof T as T8. tail_next T8 8.
  rewrite (tail_at_get_until _ _ _ _ 24 T8) by lia.
  rewrite (get_u64_le_at _ _ _ _ T) by done. cbn [mbind outcome_bind].
  apply (tail_at_next _ _ _ _ 24) in T8; [|lia].
  rewrite (get_u16_at _ _ _ _ T8) by done. cbn [mbind outcome_bind].
  do 2 f_equal; [by destruct n|len_lia].
Qed.

Lemma NetAddr_read_at buf n rest :
  tail_at buf 0 (encode n ++ rest) → slice_ok buf → valid n →
  NetAddr_read buf = Ok (n, len (encode n)).
Proof.
  intros T Hb (Ht & Hs & Ha & Hp). cbn [encode NetAddr_wire] in *. rewrite <- !app_assoc in T.
  unfold NetAddr_read. pose proof T as T4. tail_next T4 4. pose proof T4 as T12. tail_next T12 12.
  rewrite (tail_at_get_until _ _ _ _ 28 T12) by lia.
  rewrite (get_u32_le_at _ _ _ _ T) by done. cbn [mbind outcome_bind].
  rewrite (get_u64_le_at _ _ _ _ T4) by done. cbn [mbind outcome_bind].
  apply (tail_at_next _ _ _ _ 28) in T12; [|lia].
  rewrite (get_u16_at _ _ _ _ T12) by done. cbn [mbind outcome_bind].
  do 2 f_equal; [by destruct n|len_lia].
Qed.

Lemma NetAddrV2_read_at buf n rest :
  tail_at buf 0 (encode n ++ rest) → slice_ok buf → valid n →
  NetAddrV2_read buf = Ok (n, len (encode n)).
Proof.
  intros T Hb (Ht & Hs & Hp). cbn [encode NetAddrV2_wire] in *. rewrite <- !app_assoc in T.
  pose proof (tail_at_len _ _ _ T) as [_ Hl]. pose proof (length_varint_range (nv_services n)).
  pose proof (length_varint_range (len (nv_address n))).
  pose proof (len_nonneg (nv_address n)). pose proof (len_nonneg rest).
  autorewrite with len in *. unfold NetAddrV2_read.
  rewrite (get_u32_le_at _ _ _ _ T) by done. cbn [mbind outcome_bind]. tail_next T 4.
  rewrite (with_offset_at _ _ _ T). cbn [mbind outcome_bind].
  rewrite (deserialize_varint_at _ _ _ _ T) by done. cbn [mbind outcome_bind].
  rewrite (wrap64_small (length_varint _ + 4)) by mlia. tail_next T (length_varint (nv_services n) + 4).
  rewrite to_le_cons in T. pose proof T as Tb. cbn [app] in Tb. rewrite (tail_at_byte _ _ _ _ Tb).
  cbn [ok_or mbind outcome_bind]. rewrite byte.unsigned_of_Z.
  replace (byte.wrap (network_id_to_u8 (nv_network_id n))) with (network_id_to_u8 (nv_network_id n))
    by by destruct (nv_network_id n).
  rewrite network_id_from_to. cbn [ok_or mbind outcome_bind].
  rewrite (wrap64_small (_ + 1)) by mlia.
  apply (tail_at_next _ _ _ _ (length_varint (nv_services n) + 4 + 1)) in T; [|done].
  rewrite (with_offset_at _ _ _ T). cbn [mbind outcome_bind].
  rewrite (deserialize_varstr_at _ _ _ _ T) by done. cbn [mbind outcome_bind].
  rewrite len_encode_varstr. rewrite (wrap64_small (_ + 1 + _)) by mlia.
  apply (fun T => tail_at_next _ _ _ _ _ T eq_refl) in T. rewrite len_encode_varstr in T.
  rewrite (get_u16_at _ _ _ _ T) by done. cbn [mbind outcome_bind]. unwrap.
  do 2 f_equal; [by destruct n|lia].
Qed.

(** Types whose reader does not allocate. *)
Ltac plain_borrowed_ok lem :=
  intros; apply plain_reader_Ok; [done|]; eapply lem; [apply tail_at_0|done|done].

#[export] Program Instance NetAddrShort_borrowed_ok : BorrowedOk NetAddrShort := {| need _ := 0 |}.
Next Obligation. done. Qed.
Next Obligation. plain_borrowed_ok NetAddrShort_read_at. Qed.

#[export] Program Instance NetAddr_borrowed_ok : BorrowedOk NetAddr := {| need _ := 0 |}.
Next Obligation. done. Qed.
Next Obligation. plain_borrowed_ok NetAddr_read_at. Qed.

#[export] Program Instance NetAddrV2_borrowed_ok : BorrowedOk NetAddrV2 := {| need _ := 0 |}.
Next Obligation. done. Qed.
Next Obligation. plain_borrowed_ok NetAddrV2_read_at. Qed.

(** * Inventory vectors *)

Inductive InventoryVectorType :=
| InvError | InvTx | InvBlock | FilteredBlock | CmpctBlock | WitnessTx | WitnessBlock
| FilteredWitnessBlock.

Definition inv_type_to_u32 (t : InventoryVectorType) : Z :=
  match t with
  | InvError => 0 | InvTx => 1 | InvBlock => 2 | FilteredBlock => 3 | CmpctBlock => 4
  | WitnessTx => 0x40000001 | WitnessBlock => 0x40000002 | FilteredWitnessBlock => 0x40000003
  end.

Definition inv_type_from_u32 (v : Z) : option InventoryVectorType :=
  match v with
  | 0 => Some InvError | 1 => Some InvTx | 2 => Some InvBlock | 3 => Some FilteredBlock
  | 4 => Some CmpctBlock | 0x40000001 => Some WitnessTx | 0x40000002 => Some WitnessBlock
  | 0x40000003 => Some FilteredWitnessBlock
  | _ => None
  end.

Lemma inv_type_from_to t : inv_type_from_u32 (inv_type_to_u32 t) = Some t.
Proof. by destruct t. Qed.

Record InventoryVector := mkInventoryVector {
  inv_type : InventoryVectorType;
  inv_hash : hash;
}.

#[export] Instance InventoryVector_default : Default InventoryVector :=
  mkInventoryVector InvError EMPTY_HASH.
#[export] Instance InventoryVector_type : HasType InventoryVector := RInv.

Definition InventoryVector_read (buffer : bytes) : outcome (InventoryVector * Z) :=
  raw_type ← get_u32_le buffer 0;
  inv_type ← ok_or (inv_type_from_u32 raw_type) "unknown inventory type";
  h ← get_hash buffer 4;
  Ok (mkInventoryVector inv_type h, 36).

#[export] Instance InventoryVector_borrowed : DeserializableBorrowed InventoryVector :=
  {| deserialize_borrowed := plain_reader InventoryVector_read |}.

Definition InventoryVector_serialize {B} `{BufMut B} (i : InventoryVector) (stream : B) : outcome B :=
  stream ← put_u32_le stream (inv_type_to_u32 (inv_type i));
  put_slice stream (inv_hash i).

#[export] Instance InventoryVector_serializable : Serializable InventoryVector :=
  {| serialize B HB := InventoryVector_serialize |}.

#[export] Instance InventoryVector_wire : Wire InventoryVector := {|
  encode i := to_le 4 (inv_type_to_u32 (inv_type i)) ++ inv_hash i;
  valid i := hash_ok (inv_hash i);
|}.

#[export] Instance InventoryVector_serializable_ok : SerializableOk InventoryVector.
Proof. intros B HB i b. cbn. unfold InventoryVector_serialize. put_steps. Qed.

Lemma InventoryVector_read_at buf i rest :
  tail_at buf 0 (encode i ++ rest) → slice_ok buf → valid i →
  InventoryVector_read buf = Ok (i, len (encode i)).
Proof.
  intros T Hb Hh. cbn [encode valid InventoryVector_wire] in *. rewrite <- !app_assoc in T.
  unfold InventoryVector_read. assert (in_u32 (inv_type_to_u32 (inv_type i))) as Hr
    by (unfold in_u32; destruct (inv_type i); simpl; lia).
  rewrite (get_u32_le_at _ _ _ _ T) by done. cbn [mbind outcome_bind].
  rewrite inv_type_from_to. cbn [ok_or mbind outcome_bind]. tail_next T 4.
  rewrite (get_hash_at _ _ _ _ T) by done. cbn [mbind outcome_bind].
  do 2 f_equal; [by destruct i|len_lia].
Qed.

#[export] Program Instance InventoryVector_borrowed_ok : BorrowedOk InventoryVector :=
  {| need _ := 0 |}.
Next Obligation. done. Qed.
Next Obligation. plain_borrowed_ok InventoryVector_read_at. Qed.

(** * Messages that are one array *)

Record Addr := mkAddr { addr_inner : list NetAddr }.
Record AddrV2 := mkAddrV2 { addrv2_inner : list NetAddrV2 }.
Record Inv := mkInv { inv_inner : list InventoryVector }.
Record GetData := mkGetData { getdata_inner : list InventoryVector }.
Record NotFound := mkNotFound { notfound_inner : list InventoryVector }.

#[export] Instance Addr_default : Default Addr := mkAddr [].
#[export] Instance AddrV2_default : Default AddrV2 := mkAddrV2 [].
#[export] Instance Inv_default : Default Inv := mkInv [].
#[export] Instance GetData_default : Default GetData := mkGetData [].
#[export] Instance NotFound_default : Default NotFound := mkNotFound [].
#[export] Instance Addr_type : HasType Addr := RAddr.
#[export] Instance AddrV2_type : HasType AddrV2 := RAddrV2.
#[export] Instance Inv_type : HasType Inv := RInvMsg.
#[export] Instance NotFound_type : HasType NotFound := RNotFound.

Definition ADDR_COMMAND : bytes := command_bytes "addr".
Definition ADDRV2_COMMAND : bytes := command_bytes "addrv2".
Definition INV_COMMAND : bytes := command_bytes "inv".
Definition GETDATA_COMMAND : bytes := command_bytes "getdata".
Definition NOTFOUND_COMMAND : bytes := command_bytes "notfound".

Definition Addr_serialize {B} `{BufMut B} (m : Addr) (stream : B) : outcome B :=
  serialize_array (addr_inner m) stream.
Definition AddrV2_serialize {B} `{BufMut B} (m : AddrV2) (stream : B) : outcome B :=
  serialize_array (addrv2_inner m) stream.
Definition Inv_serialize {B} `{BufMut B} (m : Inv) (stream : B) : outcome B :=
  serialize_array (inv_inner m) stream.
Definition GetData_serialize {B} `{BufMut B} (m : GetData) (stream : B) : outcome B :=
  serialize_array (getdata_inner m) stream.
Definition NotFound_serialize {B} `{BufMut B} (m : NotFound) (stream : B) : outcome B :=
  serialize_array (notfound_inner m) stream.

#[export] Instance Addr_serializable : Serializable Addr := {| serialize B HB := Addr_serialize |}.
#[export] Instance AddrV2_serializable : Serializable AddrV2 :=
  {| serialize B HB := AddrV2_serialize |}.
#[export] Instance Inv_serializable : Serializable Inv := {| serialize B HB := Inv_serialize |}.
#[export] Instance GetData_serializable : Serializable GetData :=
  {| serialize B HB := GetData_serialize |}.
#[export] Instance NotFound_serializable : Serializable NotFound :=
  {| serialize B HB := NotFound_serialize |}.

#[export] Instance Addr_wire : Wire Addr :=
  {| encode m := encode_array (addr_inner m); valid m := array_valid (addr_inner m) |}.
#[export] Instance AddrV2_wire : Wire AddrV2 :=
  {| encode m := encode_array (addrv2_inner m); valid m := array_valid (addrv2_inner m) |}.
#[export] Instance Inv_wire : Wire Inv :=
  {| encode m := encode_array (inv_inner m); valid m := array_valid (inv_inner m) |}.
#[export] Instance GetData_wire : Wire GetData :=
  {| encode m := encode_array (getdata_inner m); valid m := array_valid (getdata_inner m) |}.
#[export] Instance NotFound_wire : Wire NotFound :=
  {| encode m := encode_array (notfound_inner m); valid m := array_valid (notfound_inner m) |}.

#[export] Instance Addr_serializable_ok : SerializableOk Addr.
Proof. intros B HB m b. apply serialize_array_spec. Qed.
#[export] Instance AddrV2_serializable_ok : SerializableOk AddrV2.
Proof. intros B HB m b. apply serialize_array_spec. Qed.
#[export] Instance Inv_serializable_ok : SerializableOk Inv.
Proof. intros B HB m b. apply serialize_array_spec. Qed.
#[export] Instance GetData_serializable_ok : SerializableOk GetData.
Proof. intros B HB m b. apply serialize_array_spec. Qed.
#[export] Instance NotFound_serializable_ok : SerializableOk NotFound.
Proof. intros B HB m b. apply serialize_array_spec. Qed.

Section array_messages.
Context `{Layout}.

Definition Addr_deserialize (self : Addr) (buffer : bytes) : amonad (Addr * Z) :=
  '(deserialized, consumed) ← deserialize_array buffer;
  mret (mkAddr deserialized, consumed).
Definition AddrV2_deserialize (self : AddrV2) (buffer : bytes) : amonad (AddrV2 * Z) :=
  '(deserialized, consumed) ← deserialize_array buffer;
  mret (mkAddrV2 deserialized, consumed).
Definition Inv_deserialize (self : Inv) (buffer : bytes) : amonad (Inv * Z) :=
  '(deserialized, consumed) ← deserialize_array buffer;
  mret (mkInv deserialized, consumed).
Definition GetData_deserialize (self : GetData) (buffer : bytes) : amonad (GetData * Z) :=
  '(deserialized, consumed) ← deserialize_array buffer;
  mret (mkGetData deserialized, consumed).
Definition NotFound_deserialize (self : NotFound) (buffer : bytes) : amonad (NotFound * Z) :=
  '(deserialized, consumed) ← deserialize_array buffer;
  mret (mkNotFound deserialized, consumed).

#[export] Instance Addr_borrowed : DeserializableBorrowed Addr :=
  {| deserialize_borrowed := Addr_deserialize |}.
#[export] Instance AddrV2_borrowed : DeserializableBorrowed AddrV2 :=
  {| deserialize_borrowed := AddrV2_deserialize |}.
#[export] Instance Inv_borrowed : DeserializableBorrowed Inv :=
  {| deserialize_borrowed := Inv_deserialize |}.
#[export] Instance GetData_borrowed : DeserializableBorrowed GetData :=
  {| deserialize_borrowed := GetData_deserialize |}.
#[export] Instance NotFound_borrowed : DeserializableBorrowed NotFound :=
  {| deserialize_borrowed := NotFound_deserialize |}.

#[export] Program Instance Addr_borrowed_ok : BorrowedOk Addr :=
  {| need m := array_need (addr_inner m) |}.
Next Obligation. intros. apply array_need_nonneg. Qed.
Next Obligation. intros self [l] rest a [Hv Hl] Hb Hwf Hf. by apply array_message_encode. Qed.

#[export] Program Instance AddrV2_borrowed_ok : BorrowedOk AddrV2 :=
  {| need m := array_need (addrv2_inner m) |}.
Next Obligation. intros. apply array_need_nonneg. Qed.
Next Obligation. intros self [l] rest a [Hv Hl] Hb Hwf Hf. by apply array_message_encode. Qed.

#[export] Program Instance Inv_borrowed_ok : BorrowedOk Inv :=
  {| need m := array_need (inv_inner m) |}.
Next Obligation. intros. apply array_need_nonneg. Qed.
Next Obligation. intros self [l] rest a [Hv Hl] Hb Hwf Hf. by apply array_message_encode. Qed.

#[export] Program Instance GetData_borrowed_ok : BorrowedOk GetData :=
  {| need m := array_need (getdata_inner m) |}.
Next Obligation. intros. apply array_need_nonneg. Qed.
Next Obligation. intros self [l] rest a [Hv Hl] Hb Hwf Hf. by apply array_message_encode. Qed.

#[export] Program Instance NotFound_borrowed_ok : BorrowedOk NotFound :=
  {| need m := array_need (notfound_inner m) |}.
Next Obligation. intros. apply array_need_nonneg. Qed.
Next Obligation. intros self [l] rest a [Hv Hl] Hb Hwf Hf. by apply array_message_encode. Qed.
End array_messages.

(** * [version] *)

Record Version := mkVersion {
  v_services : Z;
  v_timestamp : Z;
  v_addrrecv : NetAddrShort;
  v_addrfrom : NetAddrShort;
  v_nonce : Z;
  v_user_agent : bytes;
  v_start_height : Z;
  v_version : Z;
  v_announce_relayed_transactions : bool;
}.

#[export] Instance Version_default : Default Version :=
  mkVersion 0 0 default_value default_value 0 [] 0 0 false.
#[export] Instance Version_type : HasType Version := RVersion.

Definition VERSION_COMMAND : bytes := command_bytes "version".

Definition Version_deserialize (self : Version) (buffer : bytes) : amonad (Version * Z) :=
  version ← lift (get_u32_le buffer 0);
  services ← lift (get_u64_le buffer 4);
  timestamp ← lift (get_u64_le buffer 12);
  b ← lift (with_offset buffer 20);
  '(addrrecv, _) ← deserialize_borrowed (v_addrrecv self) b;
  b ← lift (with_offset buffer 46);
  '(addrfrom, _) ← deserialize_borrowed (v_addrfrom self) b;
  nonce ← lift (get_u64_le buffer 72);
  b ← lift (with_offset buffer 80);
  '(ua, offset) ← lift (deserialize_varstr b);
  start_height ← lift (get_u32_le buffer (80 +! offset));
  let set announce :=
    mkVersion services timestamp addrrecv addrfrom nonce ua start_height version announce in
  match (if 70001 <=? version then byte_at buffer (84 +! offset) else None) with
  | Some b => mret (set (negb (u8 b =? 0)), offset +! 85)
  | None => mret (set (v_announce_relayed_transactions self), offset +! 84)
  end.

#[export] Instance Version_borrowed : DeserializableBorrowed Version :=
  {| deserialize_borrowed := Version_deserialize |}.

Definition Version_serialize {B} `{BufMut B} (v : Version) (stream : B) : outcome B :=
  stream ← put_u32_le stream (v_version v);
  stream ← put_u64_le stream (v_services v);
  stream ← put_u64_le stream (v_timestamp v);
  stream ← NetAddrShort_serialize (v_addrrecv v) stream;
  stream ← NetAddrShort_serialize (v_addrfrom v) stream;
  stream ← put_u64_le stream (v_nonce v);
  '(stream, _) ← serialize_varstr (v_user_agent v) stream;
  stream ← put_u32_le stream (v_start_height v);
  if 70001 <=? v_version v
  then put_u8 stream (if v_announce_relayed_transactions v then 1 else 0)
  else Ok stream.

#[export] Instance Version_serializable : Serializable Version :=
  {| serialize B HB := Version_serialize |}.

(** The flag that peers before version 70001 do not send. *)
Definition relay_bytes (v : Version) : bytes :=
  if 70001 <=? v_version v
  then to_le 1 (if v_announce_relayed_transactions v then 1 else 0) else [].

#[export] Instance Version_wire : Wire Version := {|
  encode v := to_le 4 (v_version v) ++ to_le 8 (v_services v) ++ to_le 8 (v_timestamp v) ++
              encode (v_addrrecv v) ++ encode (v_addrfrom v) ++ to_le 8 (v_nonce v) ++
              encode_varstr (v_user_agent v) ++ to_le 4 (v_start_height v) ++ relay_bytes v;
  valid v := in_u32 (v_version v) ∧ in_u64 (v_services v) ∧ in_u64 (v_timestamp v) ∧
             valid (v_addrrecv v) ∧ valid (v_addrfrom v) ∧ in_u64 (v_nonce v) ∧
             in_u32 (v_start_height v) ∧ 70001 <= v_version v;
|}.

#[export] Instance Version_serializable_ok : SerializableOk Version.
Proof.
  intros B HB v b. cbn [serialize Version_serializable encode Version_wire].
  unfold Version_serialize, relay_bytes, NetAddrShort_serialize. cbn [encode NetAddrShort_wire].
  destruct (70001 <=? v_version v); rewrite ?app_nil_r; put_steps.
Qed.

Lemma len_encode_netaddrshort (n : NetAddrShort) : valid n → len (encode n) = 26.
Proof. intros (_ & Ha & _). cbn [encode NetAddrShort_wire]. len_lia. Qed.

Lemma Version_read_at self buf v rest a :
  tail_at buf 0 (encode v ++ rest) → slice_ok buf → valid v →
  Version_deserialize self buf a = Ok (v, len (encode v), a).
Proof.
  intros T Hb (Hv & Hs & Ht & Hr & Hf & Hn & Hh & Hver).
  pose proof (len_encode_netaddrshort _ Hr) as Hlr. pose proof (len_encode_netaddrshort _ Hf) as Hlf.
  pose proof (tail_at_len _ _ _ T) as [_ Hl].
  pose proof (length_varint_range (len (v_user_agent v))). pose proof (len_nonneg (v_user_agent v)).
  pose proof (len_nonneg rest).
  assert (len (encode v) = 85 + len (encode_varstr (v_user_agent v))) as Hlen.
  { cbn [encode Version_wire]. unfold relay_bytes. rewrite (proj2 (Z.leb_le _ _)) by done.
    rewrite !len_app, !len_to_le, Hlr, Hlf. lia. }
  rewrite len_app, Hlen, len_encode_varstr in Hl. rewrite Hlen.
  cbn [encode Version_wire] in T. rewrite <- !app_assoc in T. unfold Version_deserialize.
  rewrite (bind_lift _ _ _ _ (get_u32_le_at _ _ _ _ T Hb Hv)). tail_next T 4.
  rewrite (bind_lift _ _ _ _ (get_u64_le_at _ _ _ _ T Hb Hs)). tail_next T 12.
  rewrite (bind_lift _ _ _ _ (get_u64_le_at _ _ _ _ T Hb Ht)). tail_next T 20.
  rewrite (bind_lift _ _ _ _ (with_offset_at _ _ _ T)).
  pose proof (tail_at_slice_ok _ _ _ T Hb) as Hb1.
  cbn [deserialize_borrowed NetAddrShort_borrowed]. unfold plain_reader at 1.
  rewrite (bind_lift _ _ _ _ (NetAddrShort_read_at _ _ _ (tail_at_0 _) Hb1 Hr)).
  apply (tail_at_next _ _ _ _ 46) in T; [|lia].
  rewrite (bind_lift _ _ _ _ (with_offset_at _ _ _ T)).
  pose proof (tail_at_slice_ok _ _ _ T Hb) as Hb2. unfold plain_reader.
  rewrite (bind_lift _ _ _ _ (NetAddrShort_read_at _ _ _ (tail_at_0 _) Hb2 Hf)).
  apply (tail_at_next _ _ _ _ 72) in T; [|lia].
  rewrite (bind_lift _ _ _ _ (get_u64_le_at _ _ _ _ T Hb Hn)). tail_next T 80.
  rewrite (bind_lift _ _ _ _ (with_offset_at _ _ _ T)).
  rewrite (bind_lift _ _ _ _ (deserialize_varstr_at _ _ _ _ T Hb)).
  apply (fun T => tail_at_next _ _ _ _ _ T eq_refl) in T. rewrite len_encode_varstr in *.
  unwrap. rewrite (bind_lift _ _ _ _ (get_u32_le_at _ _ _ _ T Hb Hh)).
  apply (fun T => tail_at_next _ _ _ _ _ T eq_refl) in T. rewrite len_to_le in T.
  replace (80 + (length_varint (len (v_user_agent v)) + len (v_user_agent v)) + Z.of_nat 4)
    with (84 + (length_varint (len (v_user_agent v)) + len (v_user_agent v))) in T by lia.
  unfold relay_bytes in T. rewrite (proj2 (Z.leb_le 70001 _)) in T |- * by done.
  rewrite to_le_cons in T. cbn [app] in T. rewrite (tail_at_byte _ _ _ _ T).
  unfold mret, amonad_ret. do 3 f_equal; [|lia].
  destruct v as [? ? ? ? ? ? ? ? []]; reflexivity.
Qed.

#[export] Program Instance Version_borrowed_ok : BorrowedOk Version := {| need _ := 0 |}.
Next Obligation. done. Qed.
Next Obligation.
  intros self v rest a Hv Hb Hwf _. exists a. split; [|by apply arena_step_refl].
  eapply Version_read_at; [apply tail_at_0|done|done].
Qed.

(** * [getheaders] *)

Record GetHeaders := mkGetHeaders {
  gh_version : Z;
  gh_block_locator : list hash;
  gh_hash_stop : hash;
}.

#[export] Instance GetHeaders_default : Default GetHeaders := mkGetHeaders 0 [] EMPTY_HASH.
#[export] Instance GetHeaders_type : HasType GetHeaders := RGetHeaders.

Definition GETHEADERS_COMMAND : bytes := command_bytes "getheaders".

Definition GetHeaders_serialize {B} `{BufMut B} (g : GetHeaders) (stream : B) : outcome B :=
  stream ← put_u32_le stream (gh_version g);
  '(stream, _) ← serialize_varint (len (gh_block_locator g)) stream;
  stream ← for_each put_slice (gh_block_locator g) stream;
  put_slice stream (gh_hash_stop g).

#[export] Instance GetHeaders_serializable : Serializable GetHeaders :=
  {| serialize B HB := GetHeaders_serialize |}.

#[export] Instance GetHeaders_wire : Wire GetHeaders := {|
  encode g := to_le 4 (gh_version g) ++ encode_varint (len (gh_block_locator g)) ++
              concat (gh_block_locator g) ++ gh_hash_stop g;
  valid g := in_u32 (gh_version g) ∧ Forall hash_ok (gh_block_locator g) ∧ hash_ok (gh_hash_stop g);
|}.

#[export] Instance GetHeaders_serializable_ok : SerializableOk GetHeaders.
Proof.
  intros B HB g b. cbn [serialize GetHeaders_serializable encode GetHeaders_wire].
  unfold GetHeaders_serialize. put_steps.
  rewrite (for_each_put _ id) by done. rewrite map_id. put_steps.
Qed.

Section getheaders.
Context `{Layout}.

Definition read_locator (buffer : bytes) (s : ArenaArray hash * Z) :
    outcome (ArenaArray hash * Z) :=
  let '(block_locator, offset) := s in
  h ← get_hash buffer offset;
  block_locator ← aa_push block_locator h;
  Ok (block_locator, offset +! 32).

Definition GetHeaders_deserialize (self : GetHeaders) (buffer : bytes) : amonad (GetHeaders * Z) :=
  version ← lift (get_u32_le buffer 0);
  b ← lift (with_offset buffer 4);
  '(length, offset) ← lift (deserialize_varint b);
  let offset := offset +! 4 in
  block_locator ← try_alloc_arenaarray RRefHash length;
  '(block_locator, offset) ← lift (repeat_for length (read_locator buffer) (block_locator, offset));
  hash_stop ← lift (get_hash buffer offset);
  mret (mkGetHeaders version (into_arena_array block_locator) hash_stop, offset +! 32).

#[export] Instance GetHeaders_borrowed : DeserializableBorrowed GetHeaders :=
  {| deserialize_borrowed := GetHeaders_deserialize |}.

Lemma read_locator_loop buf l : ∀ i t arr,
  slice_ok buf → tail_at buf i (concat l ++ t) → Forall hash_ok l →
  aa_len arr + len l <= aa_cap arr → size_of (aa_type arr) * aa_cap arr <= aa_room arr →
  iter_nat (read_locator buf) (length l) (arr, i)
  = Ok (mkArenaArray (aa_type arr) (aa_items arr ++ l) (aa_cap arr) (aa_room arr),
        i + len (concat l)).
Proof.
  induction l as [|h l IH]; intros i t arr Hb T Hl Hc Hr; cbn [iter_nat length concat] in *.
  - rewrite app_nil_r, len_nil, Z.add_0_r. by destruct arr.
  - apply Forall_cons_1 in Hl as [Hh Hl]. rewrite <- app_assoc in T.
    pose proof (tail_at_len _ _ _ T) as [? Hlen]. rewrite len_app, len_hash in Hlen by done.
    pose proof (len_nonneg l). pose proof (len_nonneg (concat l ++ t)). rewrite len_cons in Hc.
    unfold read_locator at 2. rewrite (get_hash_at _ _ _ _ T) by done. cbn [mbind outcome_bind].
    rewrite aa_push_Ok by (done || lia). cbn [mbind outcome_bind]. unwrap. tail_next T (i + 32).
    rewrite (IH _ _ _ Hb T); simpl; [|done| |done].
    + rewrite <- app_assoc, len_app, (len_hash h Hh). do 2 f_equal. lia.
    + unfold aa_len in *. simpl. rewrite len_app, len_cons, len_nil. lia.
Qed.

Lemma len_concat_hash (l : list hash) : Forall hash_ok l → len (concat l) = 32 * len l.
Proof.
  induction 1 as [|h l Hh _ IH]; [done|]. cbn [concat].
  rewrite len_app, IH, len_hash, len_cons by done. lia.
Qed.

Lemma GetHeaders_read_at self buf g rest a :
  tail_at buf 0 (encode g ++ rest) → slice_ok buf → valid g → arena_wf a →
  array_room RRefHash (len (gh_block_locator g)) <= free a →
  ∃ a', GetHeaders_deserialize self buf a = Ok (g, len (encode g), a') ∧
    arena_step a a' (array_room RRefHash (len (gh_block_locator g))).
Proof.
  intros T Hb (Hv & Hl & Hs) Hwf Hf. pose proof (tail_at_len _ _ _ T) as [_ Hlen].
  cbn [encode GetHeaders_wire] in *. set (l := gh_block_locator g) in *.
  pose proof (len_nonneg rest). pose proof (len_nonneg l). pose proof (len_nonneg (concat l)).
  pose proof (length_varint_range (len l)). rewrite <- !app_assoc in T.
  pose proof (len_concat_hash l Hl) as Hcl.
  autorewrite with len in *. rewrite (len_hash (gh_hash_stop g)) in * by done.
  assert (in_u64 (len l)) by mlia.
  destruct (try_alloc_arenaarray_Ok (T := hash) a RRefHash (len l)) as (a' & Ha & Hst); [done..|].
  exists a'. split; [|done]. unfold GetHeaders_deserialize.
  rewrite (bind_lift _ _ _ _ (get_u32_le_at _ _ _ _ T Hb Hv)). tail_next T 4.
  rewrite (bind_lift _ _ _ _ (with_offset_at _ _ _ T)).
  rewrite (bind_lift _ _ _ _ (deserialize_varint_at _ _ _ _ T Hb ltac:(done))).
  rewrite (bind_amonad _ _ _ _ _ Ha). tail_next T (length_varint (len l) + 4). unwrap.
  erewrite bind_lift; cycle 1.
  { rewrite repeat_for_len. eapply read_locator_loop; [done|exact T|done| |simpl; lia].
    unfold aa_len. simpl. rewrite len_nil. lia. }
  apply (fun T => tail_at_next _ _ _ _ _ T eq_refl) in T.
  cbv beta iota. rewrite (bind_lift _ _ _ _ (get_hash_at _ _ _ _ T Hb Hs)).
  unfold mret, amonad_ret. unwrap. do 3 f_equal; [by destruct g|lia].
Qed.

#[export] Program Instance GetHeaders_borrowed_ok : BorrowedOk GetHeaders :=
  {| need g := array_room RRefHash (len (gh_block_locator g)) |}.
Next Obligation. intros g. apply array_room_nonneg, len_nonneg. Qed.
Next Obligation.
  intros self g rest a Hv Hb Hwf Hf. eapply GetHeaders_read_at; [apply tail_at_0|done..].
Qed.
End getheaders.

(** * [ping] and [pong] *)

Record Ping := mkPing { ping_nonce : Z }.
Record Pong := mkPong { pong_nonce : Z }.

#[export] Instance Ping_default : Default Ping := mkPing 0.
#[export] Instance Pong_default : Default Pong := mkPong 0.
#[export] Instance Ping_type : HasType Ping := RPing.
#[export] Instance Pong_type : HasType Pong := RPong.

Definition PING_COMMAND : bytes := command_bytes "ping".
Definition PONG_COMMAND : bytes := command_bytes "pong".

Definition Ping_read (buffer : bytes) : outcome (Ping * Z) :=
  nonce ← get_u64_le buffer 0; Ok (mkPing nonce, 8).

Definition Pong_read (buffer : bytes) : outcome (Pong * Z) :=
  nonce ← get_u64_le buffer 0; Ok (mkPong nonce, 8).

#[export] Instance Ping_borrowed : DeserializableBorrowed Ping :=
  {| deserialize_borrowed := plain_reader Ping_read |}.
#[export] Instance Pong_borrowed : DeserializableBorrowed Pong :=
  {| deserialize_borrowed := plain_reader Pong_read |}.

#[export] Instance Ping_serializable : Serializable Ping :=
  {| serialize B HB p stream := put_u64_le stream (ping_nonce p) |}.
#[export] Instance Pong_serializable : Serializable Pong :=
  {| serialize B HB p stream := put_u64_le stream (pong_nonce p) |}.

#[export] Instance Ping_wire : Wire Ping :=
  {| encode p := to_le 8 (ping_nonce p); valid p := in_u64 (ping_nonce p) |}.
#[export] Instance Pong_wire : Wire Pong :=
  {| encode p := to_le 8 (pong_nonce p); valid p := in_u64 (pong_nonce p) |}.

#[export] Instance Ping_serializable_ok : SerializableOk Ping.
Proof. intros B HB p b. apply put_u64_le_spec. Qed.
#[export] Instance Pong_serializable_ok : SerializableOk Pong.
Proof. intros B HB p b. apply put_u64_le_spec. Qed.

Lemma Ping_read_at buf p rest :
  tail_at buf 0 (encode p ++ rest) → slice_ok buf → valid p → Ping_read buf = Ok (p, len (encode p)).
Proof.
  intros T Hb Hv. unfold Ping_read. cbn [encode Ping_wire] in *.
  rewrite (get_u64_le_at _ _ _ _ T) by done. rewrite len_to_le. by destruct p.
Qed.

Lemma Pong_read_at buf p rest :
  tail_at buf 0 (encode p ++ rest) → slice_ok buf → valid p → Pong_read buf = Ok (p, len (encode p)).
Proof.
  intros T Hb Hv. unfold Pong_read. cbn [encode Pong_wire] in *.
  rewrite (get_u64_le_at _ _ _ _ T) by done. rewrite len_to_le. by destruct p.
Qed.

#[export] Program Instance Ping_borrowed_ok : BorrowedOk Ping := {| need _ := 0 |}.
Next Obligation. done. Qed.
Next Obligation. plain_borrowed_ok Ping_read_at. Qed.

#[export] Program Instance Pong_borrowed_ok : BorrowedOk Pong := {| need _ := 0 |}.
Next Obligation. done. Qed.
Next Obligation. plain_borrowed_ok Pong_read_at. Qed.

(** * Messages without fields *)

Record VerAck := mkVerAck {}.
Record SendAddrV2 := mkSendAddrV2 {}.
Record SendHeaders := mkSendHeaders {}.
Record GetAddr := mkGetAddr {}.

#[export] Instance VerAck_default : Default VerAck := mkVerAck.
#[export] Instance SendAddrV2_default : Default SendAddrV2 := mkSendAddrV2.
#[export] Instance SendHeaders_default : Default SendHeaders := mkSendHeaders.
#[export] Instance GetAddr_default : Default GetAddr := mkGetAddr.
#[export] Instance VerAck_type : HasType VerAck := RVerAck.
#[export] Instance SendAddrV2_type : HasType SendAddrV2 := RSendAddrV2.
#[export] Instance SendHeaders_type : HasType SendHeaders := RSendHeaders.

Definition VERACK_COMMAND : bytes := command_bytes "verack".
Definition SENDADDRV2_COMMAND : bytes := command_bytes "sendaddrv2".
Definition SENDHEADERS_COMMAND : bytes := command_bytes "sendheaders".
Definition GETADDR_COMMAND : bytes := command_bytes "getaddr".

Definition VerAck_deserialize (self : VerAck) (buffer : bytes) : amonad (VerAck * Z) :=
  mret (self, 0).
Definition SendAddrV2_deserialize (self : SendAddrV2) (buffer : bytes) : amonad (SendAddrV2 * Z) :=
  mret (self, 0).
Definition SendHeaders_deserialize (self : SendHeaders) (buffer : bytes) :
    amonad (SendHeaders * Z) :=
  mret (self, 0).
Definition GetAddr_deserialize (self : GetAddr) (buffer : bytes) : amonad (GetAddr * Z) :=
  mret (self, 0).

#[export] Instance VerAck_borrowed : DeserializableBorrowed VerAck :=
  {| deserialize_borrowed := VerAck_deserialize |}.
#[export] Instance SendAddrV2_borrowed : DeserializableBorrowed SendAddrV2 :=
  {| deserialize_borrowed := SendAddrV2_deserialize |}.
#[export] Instance SendHeaders_borrowed : DeserializableBorrowed SendHeaders :=
  {| deserialize_borrowed := SendHeaders_deserialize |}.
#[export] Instance GetAddr_borrowed : DeserializableBorrowed GetAddr :=
  {| deserialize_borrowed := GetAddr_deserialize |}.

#[export] Instance VerAck_serializable : Serializable VerAck :=
  {| serialize B HB _ stream := Ok stream |}.
#[export] Instance SendAddrV2_serializable : Serializable SendAddrV2 :=
  {| serialize B HB _ stream := Ok stream |}.
#[export] Instance SendHeaders_serializable : Serializable SendHeaders :=
  {| serialize B HB _ stream := Ok stream |}.
#[export] Instance GetAddr_serializable : Serializable GetAddr :=
  {| serialize B HB _ stream := Ok stream |}.

#[export] Instance VerAck_wire : Wire VerAck := {| encode _ := []; valid _ := True |}.
#[export] Instance SendAddrV2_wire : Wire SendAddrV2 := {| encode _ := []; valid _ := True |}.
#[export] Instance SendHeaders_wire : Wire SendHeaders := {| encode _ := []; valid _ := True |}.
#[export] Instance GetAddr_wire : Wire GetAddr := {| encode _ := []; valid _ := True |}.

#[export] Instance VerAck_serializable_ok : SerializableOk VerAck.
Proof. intros B HB p b. symmetry. apply put_slice_nil. Qed.
#[export] Instance SendAddrV2_serializable_ok : SerializableOk SendAddrV2.
Proof. intros B HB p b. symmetry. apply put_slice_nil. Qed.
#[export] Instance SendHeaders_serializable_ok : SerializableOk SendHeaders.
Proof. intros B HB p b. symmetry. apply put_slice_nil. Qed.
#[export] Instance GetAddr_serializable_ok : SerializableOk GetAddr.
Proof. intros B HB p b. symmetry. apply put_slice_nil. Qed.

Ltac empty_borrowed_ok :=
  intros [] [] rest a _ _ Hwf _; exists a; split; [done|by apply arena_step_refl].

#[export] Program Instance VerAck_borrowed_ok : BorrowedOk VerAck := {| need _ := 0 |}.
Next Obligation. done. Qed.
Next Obligation. empty_borrowed_ok. Qed.

#[export] Program Instance SendAddrV2_borrowed_ok : BorrowedOk SendAddrV2 := {| need _ := 0 |}.
Next Obligation. done. Qed.
Next Obligation. empty_borrowed_ok. Qed.

#[export] Program Instance SendHeaders_borrowed_ok : BorrowedOk SendHeaders := {| need _ := 0 |}.
Next Obligation. done. Qed.
Next Obligation. empty_borrowed_ok. Qed.

#[export] Program Instance GetAddr_borrowed_ok : BorrowedOk GetAddr := {| need _ := 0 |}.
Next Obligation. done. Qed.
Next Obligation. empty_borrowed_ok. Qed.
