(* ===== verification/Payload.v ===== *)
(** [src/packets/packetpayload.rs], [packetheader.rs], [packet.rs], [magic.rs] and
    [src/connect/connection.rs]: the dispatch over the kinds of messages and the
    framing of packets. *)
From S2P Require Import Prelude.
From S2P Require Import Extern.
From S2P Require Import Buffer.
From S2P Require Import Varint.
From S2P Require Import Arena.
From S2P Require Import Wire.
From S2P Require Import Header.
From S2P Require Import Tx.
From S2P Require Import Block.
From S2P Require Import Messages.

Definition MAGIC_MAINNET : Z := 0xD9B4BEF9.
Definition MAGIC_TESTNET : Z := 0xDAB5BFFA.
Definition MAGIC_TESTNET3 : Z := 0x0709110B.
Definition MAGIC_SIGNET : Z := 0x40CF030A.
Definition MAGIC_NAMECOIN : Z := 0xFEB4BEF9.
Definition ACTIVE_MAGIC : Z := MAGIC_MAINNET.

Definition MAX_PACKET_SIZE : Z := 4 * 1024 * 1024.
Definition SMALL_ARENA_SIZE : Z := 8 * 1024.

Inductive ReceivedPayload :=
| RecvPing (p : Ping) | RecvInv (i : Inv) | RecvVersion (v : Version) | RecvVerAck (v : VerAck)
| RecvAddr (a : Addr) | RecvAddrV2 (a : AddrV2) | RecvGetAddr (g : GetAddr) | RecvPong (p : Pong)
| RecvSendHeaders (s : SendHeaders) | RecvSendAddrV2 (s : SendAddrV2) | RecvTx (t : Tx)
| RecvBlock (b : Block) | RecvGetData (g : GetData) | RecvHeaders (h : Headers)
| RecvGetHeaders (g : GetHeaders) | RecvNotFound (n : NotFound).

Inductive PayloadToSend :=
| SendPing (p : Ping) | SendInv (i : Inv) | SendVersion (v : Version) | SendVerAck (v : VerAck)
| SendAddr (a : Addr) | SendAddrV2P (a : AddrV2) | SendGetAddr (g : GetAddr) | SendPong (p : Pong)
| SendSendHeaders (s : SendHeaders) | SendSendAddrV2 (s : SendAddrV2) | SendTx (t : Tx)
| SendBlock (b : Block) | SendGetData (g : GetData) | SendHeadersP (h : Headers)
| SendGetHeaders (g : GetHeaders) | SendNotFound (n : NotFound).

Record PacketHeader := mkPacketHeader {
  ph_magic : Z;
  ph_command : bytes;
  ph_length : Z;
  ph_checksum : Z;
}.

(** [read_exact] and [read_u32_le] of the stream, which is the list of the bytes
    it still delivers. *)
Definition read_exact (stream : bytes) (n : Z) : outcome (bytes * bytes) :=
  if len stream <? n then Err "early eof"
  else Ok (take (Z.to_nat n) stream, drop (Z.to_nat n) stream).

Definition read_u32_le (stream : bytes) : outcome (Z * bytes) :=
  '(b, stream) ← read_exact stream 4; Ok (from_le b, stream).

Definition read_header (stream : bytes) : outcome (PacketHeader * bytes) :=
  '(magic, stream) ← read_u32_le stream;
  '(command, stream) ← read_exact stream 12;
  '(length, stream) ← read_u32_le stream;
  '(checksum, stream) ← read_exact stream 4;
  if MAX_PACKET_SIZE <? length then Err "packet size too large"
  else Ok (mkPacketHeader magic command length (from_le checksum), stream).

Section payload.
Context `{Sha256, U256Lib, Layout}.

(** [&hash[..4]] of the double hash of a payload, as a number *)
Definition shorthash (buffer : bytes) : bytes := take 4 (double_sha256 buffer).

(** One arm of the match: a default value in the arena, filled by the reader. *)
Definition receive {T} `{DeserializableBorrowed T, Default T, HasType T}
    (wrap : T → ReceivedPayload) (buffer : bytes) : amonad (option ReceivedPayload) :=
  v ← try_alloc (type_of T) (default_value (T := T));
  '(v, _) ← deserialize_borrowed v buffer;
  mret (Some (wrap v)).

Definition dispatch (command buffer : bytes) : amonad (option ReceivedPayload) :=
  if bool_decide (command = VERSION_COMMAND) then receive RecvVersion buffer
  else if bool_decide (command = VERACK_COMMAND) then receive RecvVerAck buffer
  else if bool_decide (command = PING_COMMAND) then receive RecvPing buffer
  else if bool_decide (command = PONG_COMMAND) then receive RecvPong buffer
  else if bool_decide (command = SENDADDRV2_COMMAND) then receive RecvSendAddrV2 buffer
  else if bool_decide (command = SENDHEADERS_COMMAND) then receive RecvSendHeaders buffer
  else if bool_decide (command = TX_COMMAND) then receive RecvTx buffer
  else if bool_decide (command = BLOCK_COMMAND) then receive RecvBlock buffer
  else if bool_decide (command = ADDR_COMMAND) then receive RecvAddr buffer
  else if bool_decide (command = ADDRV2_COMMAND) then receive RecvAddrV2 buffer
  else if bool_decide (command = INV_COMMAND) then receive RecvInv buffer
  else if bool_decide (command = HEADERS_COMMAND) then receive RecvHeaders buffer
  else if bool_decide (command = GETHEADERS_COMMAND) then receive RecvGetHeaders buffer
  else if bool_decide (command = NOTFOUND_COMMAND) then receive RecvNotFound buffer
  else mret None.

Definition deserialize_payload (buffer : bytes) (checksum : Z) (command : bytes) :
    amonad (option ReceivedPayload) :=
  if from_le (shorthash buffer) =? checksum then dispatch command buffer
  else lift (Err "invalid checksum").

Definition PayloadToSend_serialize {B} `{BufMut B} (p : PayloadToSend) (stream : B) : outcome B :=
  match p with
  | SendVersion v => serialize v stream
  | SendVerAck v => serialize v stream
  | SendPing v => serialize v stream
  | SendPong v => serialize v stream
  | SendSendHeaders v => serialize v stream
  | SendSendAddrV2 v => serialize v stream
  | SendTx v => serialize v stream
  | SendBlock v => serialize v stream
  | SendAddr v => serialize v stream
  | SendAddrV2P v => serialize v stream
  | SendGetAddr v => serialize v stream
  | SendGetData v => serialize v stream
  | SendInv v => serialize v stream
  | SendHeadersP v => serialize v stream
  | SendGetHeaders v => serialize v stream
  | SendNotFound v => serialize v stream
  end.

Definition PayloadToSend_command (p : PayloadToSend) : bytes :=
  match p with
  | SendVersion _ => VERSION_COMMAND
  | SendVerAck _ => VERACK_COMMAND
  | SendPing _ => PING_COMMAND
  | SendPong _ => PONG_COMMAND
  | SendSendHeaders _ => SENDHEADERS_COMMAND
  | SendSendAddrV2 _ => SENDADDRV2_COMMAND
  | SendTx _ => TX_COMMAND
  | SendBlock _ => BLOCK_COMMAND
  | SendAddr _ => ADDR_COMMAND
  | SendAddrV2P _ => ADDRV2_COMMAND
  | SendGetAddr _ => GETADDR_COMMAND
  | SendGetData _ => GETDATA_COMMAND
  | SendInv _ => INV_COMMAND
  | SendHeadersP _ => HEADERS_COMMAND
  | SendGetHeaders _ => GETHEADERS_COMMAND
  | SendNotFound _ => NOTFOUND_COMMAND
  end.

(** The bytes [Connection::write_packet] writes to the stream. *)
Definition write_packet (p : PayloadToSend) : outcome bytes :=
  buf ← PayloadToSend_serialize p ([] : bytes);
  Ok (to_le 4 ACTIVE_MAGIC ++ PayloadToSend_command p ++ to_le 4 (wrap32 (len buf)) ++
      shorthash buf ++ buf).

(** [read_packet]: the arenas of the two pools are at the addresses [small] and
    [large]; the payload is read into the arena, then deserialized with it.  A
    payload that cannot be deserialized is dropped. *)
Definition read_packet (small large : Z) (stream : bytes) :
    outcome (PacketHeader * option ReceivedPayload * bytes) :=
  '(header, stream) ← read_header stream;
  let allocator :=
    if SMALL_ARENA_SIZE / 2 <? ph_length header
    then arena_new large MAX_PACKET_SIZE else arena_new small SMALL_ARENA_SIZE in
  '(_, allocator) ← unwrap (try_alloc_array_fill_copy RU8 (ph_length header) Byte.x00 allocator)
                      "called `Result::unwrap()` on an `Err` value";
  '(buffer, stream) ← read_exact stream (ph_length header);
  match deserialize_payload buffer (ph_checksum header) (ph_command header) allocator with
  | Ok (p, _) => Ok (header, p, stream)
  | Err _ => Ok (header, None, stream)
  | Panic m => Panic m
  | Ub => Ub
  end.

(** * What a packet is read back as *)

Definition encode_payload (p : PayloadToSend) : bytes :=
  match p with
  | SendVersion v => encode v
  | SendVerAck v => encode v
  | SendPing v => encode v
  | SendPong v => encode v
  | SendSendHeaders v => encode v
  | SendSendAddrV2 v => encode v
  | SendTx v => encode v
  | SendBlock v => encode v
  | SendAddr v => encode v
  | SendAddrV2P v => encode v
  | SendGetAddr v => encode v
  | SendGetData v => encode v
  | SendInv v => encode v
  | SendHeadersP v => encode v
  | SendGetHeaders v => encode v
  | SendNotFound v => encode v
  end.

(** [received p r]: [p] reads back as [r]; [need_] bounds the room this takes
    and [t] is the type of the value, with respect to an arena. *)
Definition readable {T} `{Wire T, DeserializableBorrowed T, !BorrowedOk T, HasType T}
    (x : T) (a : Arena) : Prop :=
  valid x ∧ (data a + consumed a) mod align_of (type_of T) = 0 ∧
  array_room (type_of T) 1 + need x <= free a.

(** The conditions under which the payload can be read back with the arena, and
    what it is read back as; the code does not read [getaddr] and [getdata]. *)
Definition payload_readable (p : PayloadToSend) (a : Arena) : Prop :=
  match p with
  | SendVersion v => readable v a
  | SendVerAck v => readable v a
  | SendPing v => readable v a
  | SendPong v => readable v a
  | SendSendHeaders v => readable v a
  | SendSendAddrV2 v => readable v a
  | SendTx v => readable v a
  | SendBlock v => readable v a
  | SendAddr v => readable v a
  | SendAddrV2P v => readable v a
  | SendGetAddr _ | SendGetData _ => True
  | SendInv v => readable v a
  | SendHeadersP v => readable v a
  | SendGetHeaders v => readable v a
  | SendNotFound v => readable v a
  end.

Definition received (p : PayloadToSend) : option ReceivedPayload :=
  match p with
  | SendVersion v => Some (RecvVersion v)
  | SendVerAck v => Some (RecvVerAck v)
  | SendPing v => Some (RecvPing v)
  | SendPong v => Some (RecvPong v)
  | SendSendHeaders v => Some (RecvSendHeaders v)
  | SendSendAddrV2 v => Some (RecvSendAddrV2 v)
  | SendTx v => Some (RecvTx v)
  | SendBlock v => Some (RecvBlock v)
  | SendAddr v => Some (RecvAddr v)
  | SendAddrV2P v => Some (RecvAddrV2 v)
  | SendGetAddr _ | SendGetData _ => None
  | SendInv v => Some (RecvInv v)
  | SendHeadersP v => Some (RecvHeaders v)
  | SendGetHeaders v => Some (RecvGetHeaders v)
  | SendNotFound v => Some (RecvNotFound v)
  end.

Lemma serialize_vec {T} `{Wire T, Serializable T, !SerializableOk T} (x : T) :
  serialize x ([] : bytes) = Ok (encode x).
Proof. exact (serialize_spec bytes vec_buf x []). Qed.

Lemma PayloadToSend_serialize_spec p :
  PayloadToSend_serialize p ([] : bytes) = Ok (encode_payload p).
Proof. destruct p; apply serialize_vec. Qed.

Lemma receive_encode {T} `{Wire T, DeserializableBorrowed T, !BorrowedOk T, Default T, HasType T}
    (wrap : T → ReceivedPayload) (x : T) a :
  arena_wf a → slice_ok (encode x) → readable x a →
  ∃ a', receive wrap (encode x) a = Ok (Some (wrap x), a').
Proof.
  intros Hwf Hb (Hv & Hal & Hf). pose proof (need_nonneg x).
  destruct (try_alloc_Ok a (type_of T) (default_value (T := T)) Hwf Hal) as (a1 & Ha1 & Hst); [lia|].
  pose proof (arena_step_free _ _ _ Hst). unfold receive. rewrite (bind_amonad _ _ _ _ _ Ha1).
  destruct (deserialize_borrowed_encode default_value x [] a1) as (a2 & Ha2 & _);
    [done|by rewrite app_nil_r|by destruct Hst|lia|].
  rewrite app_nil_r in Ha2. rewrite (bind_amonad _ _ _ _ _ Ha2). by exists a2.
Qed.

Lemma dispatch_encode p a :
  arena_wf a → slice_ok (encode_payload p) → payload_readable p a →
  ∃ a', dispatch (PayloadToSend_command p) (encode_payload p) a = Ok (received p, a').
Proof.
  intros Hwf Hb Hr. destruct p; cbn [payload_readable encode_payload received] in *.
  all: try (by apply (receive_encode _ _ a Hwf Hb Hr)).
  all: by exists a.
Qed.

(** The type that a message is read into; [getaddr] and [getdata] are not read. *)
Definition message_type (p : PayloadToSend) : option rust_type :=
  match p with
  | SendVersion _ => Some RVersion
  | SendVerAck _ => Some RVerAck
  | SendPing _ => Some RPing
  | SendPong _ => Some RPong
  | SendSendHeaders _ => Some RSendHeaders
  | SendSendAddrV2 _ => Some RSendAddrV2
  | SendTx _ => Some RTx
  | SendBlock _ => Some RBlock
  | SendAddr _ => Some RAddr
  | SendAddrV2P _ => Some RAddrV2
  | SendGetAddr _ | SendGetData _ => None
  | SendInv _ => Some RInvMsg
  | SendHeadersP _ => Some RHeaders
  | SendGetHeaders _ => Some RGetHeaders
  | SendNotFound _ => Some RNotFound
  end.

(** The value that a message is read into goes to an address that need not be aligned for it. *)
Lemma dispatch_misaligned p t buffer a :
  message_type p = Some t → arena_wf a → (data a + consumed a) mod align_of t ≠ 0 → array_room t 1 <= free a →
  dispatch (PayloadToSend_command p) buffer a = Ub.
Proof.
  intros Hp Hwf Hal Hroom.
  assert (∀ T `(DeserializableBorrowed T, Default T) (HT : HasType T) (wrap : T → ReceivedPayload), type_of T = t → receive wrap buffer a = Ub) as Hr.
  { intros T ? ? HT wrap Ht. unfold receive, mbind, amonad_bind. rewrite Ht. by rewrite (try_alloc_misaligned a t default_value Hwf Hal Hroom). }
  destruct p; cbn [message_type] in Hp; try discriminate Hp; injection Hp as <-; by apply Hr.
Qed.

(** ** Framing *)

Lemma read_exact_app x s n : n = len x → read_exact (x ++ s) n = Ok (x, s).
Proof.
  intros ->. unfold read_exact. rewrite len_app. pose proof (len_nonneg s).
  rewrite (proj2 (Z.ltb_ge _ _)) by lia. unfold len.
  by rewrite Nat2Z.id, take_app_length, drop_app_length.
Qed.

Lemma read_u32_le_app v s : in_u32 v → read_u32_le (to_le 4 v ++ s) = Ok (v, s).
Proof.
  intros Hv. unfold read_u32_le. rewrite read_exact_app by by rewrite len_to_le.
  cbn [mbind outcome_bind]. rewrite from_le_to_le; [done|mlia].
Qed.

Lemma len_shorthash b : len (shorthash b) = 4.
Proof. unfold shorthash, len. by rewrite length_take, double_sha256_ok. Qed.

Lemma len_command p : len (PayloadToSend_command p) = 12.
Proof. by destruct p. Qed.

(** The twenty-four bytes of a header, read back. *)
Lemma read_header_app command length checksum s :
  len command = 12 → in_u32 length → len checksum = 4 →
  read_header (to_le 4 ACTIVE_MAGIC ++ command ++ to_le 4 length ++ checksum ++ s)
  = if MAX_PACKET_SIZE <? length then Err "packet size too large"
    else Ok (mkPacketHeader ACTIVE_MAGIC command length (from_le checksum), s).
Proof.
  intros Hc Hl Hs. unfold read_header.
  rewrite read_u32_le_app by (unfold in_u32, ACTIVE_MAGIC, MAGIC_MAINNET; lia).
  cbn [mbind outcome_bind]. rewrite read_exact_app by done. cbn [mbind outcome_bind].
  rewrite read_u32_le_app by done. cbn [mbind outcome_bind].
  by rewrite read_exact_app by done.
Qed.

(** The arena a payload of [n] bytes is read into, and the same after the
    buffer was taken from it. *)
Definition packet_arena (small large n : Z) : Arena :=
  if SMALL_ARENA_SIZE / 2 <? n then arena_new large MAX_PACKET_SIZE
  else arena_new small SMALL_ARENA_SIZE.

Definition after_buffer (small large n : Z) : Arena :=
  let a := packet_arena small large n in mkArena (data a) n (capacity a).

Definition address_ok (address : Z) : Prop := 0 <= address < 2 ^ 63.

Lemma alloc_buffer small large n :
  address_ok small → address_ok large → 0 <= n <= MAX_PACKET_SIZE →
  try_alloc_array_fill_copy RU8 n Byte.x00 (packet_arena small large n)
  = Ok (replicate (Z.to_nat n) Byte.x00, after_buffer small large n) ∧
  arena_wf (after_buffer small large n).
Proof.
  intros Hs Hl Hn. unfold address_ok, MAX_PACKET_SIZE in *.
  assert (arena_wf (packet_arena small large n) ∧ consumed (packet_arena small large n) = 0 ∧
    n <= capacity (packet_arena small large n)) as (Hwf & Hc & Hcap).
  { unfold packet_arena, arena_wf, arena_new, SMALL_ARENA_SIZE, MAX_PACKET_SIZE.
    change (8 * 1024 / 2) with 4096.
    destruct (Z.ltb_spec 4096 n); simpl; split_and!; lia. }
  unfold after_buffer. set (a := packet_arena small large n) in *.
  destruct Hwf as (Hw1 & Hw2 & Hw3 & Hw4).
  split; [|unfold arena_wf; simpl; lia].
  unfold try_alloc_array_fill_copy, reserve, fits, padding_at, write_ok.
  rewrite size_of_u8, align_of_u8, Hc.
  change (1 =? 0) with false. cbn iota. rewrite !Z.mod_1_r. unwrap.
  rewrite (proj2 (Z.leb_le _ _)) by lia. cbn [mbind outcome_bind].
  rewrite Z.mod_1_r, Z.eqb_refl. replace (0 + 0 + 1 * n) with n by lia.
  by rewrite (proj2 (Z.leb_le _ _)) by lia.
Qed.
End payload.

Import Toy.

(** * The properties *)

(** A packet that is written is read back as the same message, and the rest of the stream is left, provided the reader's arena has room
    for the message and the address after the buffer is aligned for its type;
    [getaddr] and [getdata] are read as packets without payload. *)
Theorem packet_roundtrip `{Sha256, U256Lib, Layout} p small large rest :
  address_ok small → address_ok large → len (encode_payload p) <= MAX_PACKET_SIZE →
  payload_readable p (after_buffer small large (len (encode_payload p))) →
  ∃ w, write_packet p = Ok w ∧
    read_packet small large (w ++ rest)
    = Ok (mkPacketHeader ACTIVE_MAGIC (PayloadToSend_command p) (len (encode_payload p))
            (from_le (shorthash (encode_payload p))), received p, rest).
Proof.
  intros Hs Hl Hm Hr. set (e := encode_payload p) in *. pose proof (len_nonneg e).
  assert (in_u32 (len e)) as Hlen by (unfold in_u32, MAX_PACKET_SIZE in *; lia).
  exists (to_le 4 ACTIVE_MAGIC ++ PayloadToSend_command p ++ to_le 4 (len e) ++ shorthash e ++ e).
  split.
  { unfold write_packet. rewrite PayloadToSend_serialize_spec. cbn [mbind outcome_bind]. fold e.
    unfold wrap32. by rewrite Z.mod_small by exact Hlen. }
  rewrite <- !app_assoc. unfold read_packet.
  rewrite read_header_app by (done || apply len_command || apply len_shorthash).
  rewrite (proj2 (Z.ltb_ge _ _)) by done. cbn [mbind outcome_bind ph_length ph_checksum ph_command].
  destruct (alloc_buffer small large (len e)) as [Ha Hwf]; [done..|].
  fold (packet_arena small large (len e)). rewrite Ha. cbn [unwrap mbind outcome_bind].
  rewrite read_exact_app by done. cbn [mbind outcome_bind].
  unfold deserialize_payload. rewrite Z.eqb_refl.
  assert (slice_ok e) as Hb by (unfold slice_ok, isize_max, MAX_PACKET_SIZE in *; lia).
  destruct (dispatch_encode p _ Hwf Hb Hr) as (a' & Hd). fold e in Hd. by rewrite Hd.
Qed.

(** A message whose buffer ends where its type cannot be stored: the write is undefined behaviour. *)
Lemma packet_misaligned `{Sha256, U256Lib, Layout} p t small large w rest :
  address_ok small → address_ok large → len (encode_payload p) <= MAX_PACKET_SIZE → message_type p = Some t →
  let a := after_buffer small large (len (encode_payload p)) in
  (data a + consumed a) mod align_of t ≠ 0 → array_room t 1 <= free a → write_packet p = Ok w →
  read_packet small large (w ++ rest) = Ub.
Proof.
  intros Hs Hl Hm Ht a Hal Hroom Hw. set (e := encode_payload p) in *. pose proof (len_nonneg e).
  assert (in_u32 (len e)) as Hlen by (unfold in_u32, MAX_PACKET_SIZE in *; lia).
  unfold write_packet in Hw. rewrite PayloadToSend_serialize_spec in Hw. cbn [mbind outcome_bind] in Hw. fold e in Hw.
  unfold wrap32 in Hw. rewrite Z.mod_small in Hw by exact Hlen. injection Hw as <-.
  rewrite <- !app_assoc. unfold read_packet.
  rewrite read_header_app by (done || apply len_command || apply len_shorthash).
  rewrite (proj2 (Z.ltb_ge _ _)) by done. cbn [mbind outcome_bind ph_length ph_checksum ph_command].
  destruct (alloc_buffer small large (len e)) as [Ha Hwf]; [done..|].
  fold (packet_arena small large (len e)). rewrite Ha. cbn [unwrap mbind outcome_bind].
  rewrite read_exact_app by done. cbn [mbind outcome_bind].
  unfold deserialize_payload. rewrite Z.eqb_refl. by rewrite (dispatch_misaligned p t _ _ Ht Hwf Hal Hroom).
Qed.

Lemma packet_roundtrip_witness :
  let p := SendTx (with_hashes toy_tx) in
  ∃ w, write_packet p = Ok w ∧
    read_packet 4097 4096 (w ++ [Byte.xff])
    = Ok (mkPacketHeader ACTIVE_MAGIC (PayloadToSend_command p) (len (encode_payload p))
            (from_le (shorthash (encode_payload p))), received p, [Byte.xff]).
Proof.
  apply (packet_roundtrip (SendTx (with_hashes toy_tx)) 4097 4096 [Byte.xff]).
  - unfold address_ok. lia.
  - unfold address_ok. lia.
  - vm_compute. discriminate.
  - split_and!.
    + split; [|done]. apply toy_tx_fields_ok.
    + vm_compute. reflexivity.
    + vm_compute. discriminate.
Defined.

(** A packet whose payload does not have the checksum of its header
    is delivered without payload, and one whose header announces more than
    [MAX_PACKET_SIZE] bytes is refused before the payload is read. *)
Theorem packet_rejected `{Sha256, U256Lib, Layout} small large command checksum payload rest length :
  address_ok small → address_ok large → len command = 12 → len checksum = 4 →
  (len payload <= MAX_PACKET_SIZE → checksum ≠ shorthash payload →
   read_packet small large
     (to_le 4 ACTIVE_MAGIC ++ command ++ to_le 4 (len payload) ++ checksum ++ payload ++ rest)
   = Ok (mkPacketHeader ACTIVE_MAGIC command (len payload) (from_le checksum), None, rest)) ∧
  (in_u32 length → MAX_PACKET_SIZE < length →
   read_packet small large (to_le 4 ACTIVE_MAGIC ++ command ++ to_le 4 length ++ checksum ++ rest)
   = Err "packet size too large").
Proof.
  intros Hs Hl Hc Hk. split.
  - intros Hm Hne. pose proof (len_nonneg payload).
    assert (in_u32 (len payload)) by (unfold in_u32, MAX_PACKET_SIZE in *; lia).
    unfold read_packet. rewrite read_header_app by done. rewrite (proj2 (Z.ltb_ge _ _)) by done.
    cbn [mbind outcome_bind ph_length ph_checksum ph_command].
    destruct (alloc_buffer small large (len payload)) as [Ha _]; [done..|].
    fold (packet_arena small large (len payload)). rewrite Ha. cbn [unwrap mbind outcome_bind].
    rewrite read_exact_app by done. cbn [mbind outcome_bind]. unfold deserialize_payload.
    rewrite (proj2 (Z.eqb_neq _ _)); [done|]. intros He. apply Hne.
    rewrite <- (to_le_from_le 4 checksum), <- (to_le_from_le 4 (shorthash payload)), He; [done| |].
    + pose proof (len_shorthash payload) as Hsl. unfold len in Hsl. lia.
    + unfold len in Hk. lia.
  - intros Hr Hlen. unfold read_packet. rewrite read_header_app by done.
    by rewrite (proj2 (Z.ltb_lt _ _)) by done.
Qed.

Lemma packet_rejected_witness :
  read_packet 0 0 (to_le 4 ACTIVE_MAGIC ++ PING_COMMAND ++ to_le 4 (len [Byte.x01]) ++
    [Byte.xff; Byte.xff; Byte.xff; Byte.xff] ++ [Byte.x01] ++ [])
  = Ok (mkPacketHeader ACTIVE_MAGIC PING_COMMAND (len [Byte.x01])
          (from_le [Byte.xff; Byte.xff; Byte.xff; Byte.xff]), None, []).
Proof.
  assert (address_ok 0) as Ha by (unfold address_ok; lia).
  refine (proj1 (packet_rejected 0 0 PING_COMMAND [Byte.xff; Byte.xff; Byte.xff; Byte.xff]
    [Byte.x01] [] 0 Ha Ha _ _) _ _); vm_compute; (reflexivity || discriminate).
Defined.

(** The arena of a packet also holds its payload: when a payload of
    an accepted size leaves less room than the struct of its message takes,
    reading it panics instead of failing with an error. *)
Theorem full_packet_panics `{Sha256, U256Lib, Layout} small large payload rest :
  address_ok small → address_ok large →
  MAX_PACKET_SIZE - size_of RTx < len payload <= MAX_PACKET_SIZE →
  SMALL_ARENA_SIZE / 2 < len payload →
  read_packet small large
    (to_le 4 ACTIVE_MAGIC ++ TX_COMMAND ++ to_le 4 (len payload) ++ shorthash payload ++
     payload ++ rest) = Panic out_of_memory.
Proof.
  intros Hs Hl Hm Hbig. pose proof (len_nonneg payload).
  assert (in_u32 (len payload)) by (unfold in_u32, MAX_PACKET_SIZE in *; lia).
  unfold read_packet. rewrite read_header_app by (done || apply len_shorthash).
  rewrite (proj2 (Z.ltb_ge _ _)) by lia. cbn [mbind outcome_bind ph_length ph_checksum ph_command].
  destruct (alloc_buffer small large (len payload)) as [Ha Hwf]; [done..|lia|].
  fold (packet_arena small large (len payload)). rewrite Ha. cbn [unwrap mbind outcome_bind].
  rewrite read_exact_app by done. cbn [mbind outcome_bind]. unfold deserialize_payload.
  rewrite Z.eqb_refl. change (dispatch TX_COMMAND payload) with (receive RecvTx payload).
  unfold receive, mbind, amonad_bind, try_alloc, reserve.
  set (a := after_buffer small large (len payload)) in *.
  assert (capacity a = MAX_PACKET_SIZE ∧ consumed a = len payload) as [Hcap Hcons].
  { unfold a, after_buffer, packet_arena. by rewrite (proj2 (Z.ltb_lt _ _)). }
  pose proof (padding_range (data a) (align_of RTx) (consumed a)) as Hp.
  pose proof (align_of_range RTx). pose proof (size_of_nonneg RTx). pose proof (size_of_max RTx).
  destruct Hwf as (_ & ? & _). unfold fits. change (type_of Tx) with RTx.
  unfold MAX_PACKET_SIZE in *. unwrap. by rewrite (proj2 (Z.leb_gt _ _)) by lia.
Qed.

Definition full_payload : bytes := replicate (Z.to_nat MAX_PACKET_SIZE) Byte.x00.

Lemma full_packet_panics_witness :
  read_packet 0 0
    (to_le 4 ACTIVE_MAGIC ++ TX_COMMAND ++ to_le 4 (len full_payload) ++ shorthash full_payload ++
     full_payload ++ []) = Panic out_of_memory.
Proof.
  assert (len full_payload = MAX_PACKET_SIZE) as Hl.
  { unfold full_payload, len. rewrite length_replicate.
    apply Z2Nat.id. unfold MAX_PACKET_SIZE. lia. }
  apply (full_packet_panics 0 0 full_payload []).
  - unfold address_ok. lia.
  - unfold address_ok. lia.
  - rewrite Hl. change (size_of RTx) with 120. lia.
  - rewrite Hl. vm_compute. reflexivity.
Defined.
