(* ===== verification/Stream.v ===== *)
(** [src/util/speedtracker.rs] and the tasks of [src/connect/]: the payload of a packet, read in as many pieces
    as the network delivers, and the stream of a peer as a sequence of packets. *)
From S2P Require Import Prelude.
From S2P Require Import Extern.
From S2P Require Import Buffer.
From S2P Require Import Wire.
From S2P Require Import Arena.
From S2P Require Import Tx.
From S2P Require Import Messages.
From S2P Require Import Payload.

(** * The payload, piece by piece *)

(** What a poll of the stream gives: nothing yet, at most so many of the bytes that are still to come, or an error. *)
Inductive poll_result :=
| Pending
| Delivers (most : nat)
| Fails (e : string).

(** The future [ReadPayloadBytes]: the bytes the stream still delivers, what is filled of the buffer and its free
    rest, and the counter [TOTAL_IN] *)
Record ReadPayloadBytes := mkReadPayloadBytes {
  rp_stream : bytes;
  rp_filled : bytes;
  rp_remaining : nat;
  TOTAL_IN : Z;
}.

(** [poll], over the polls of the stream; [None] as long as the payload is not complete. *)
Fixpoint poll (polls : list poll_result) (f : ReadPayloadBytes) : ReadPayloadBytes * option (outcome nat) :=
  match rp_remaining f with
  | O => (f, Some (Ok (length (rp_filled f))))
  | rem =>
      match polls with
      | [] => (f, None)
      | Pending :: polls => poll polls f
      | Fails e :: _ => (f, Some (Err e))
      | Delivers most :: polls =>
          let n := ((most `min` rem) `min` length (rp_stream f))%nat in
          if (n =? 0)%nat then (f, Some (Err "early eof"))
          else poll polls (mkReadPayloadBytes (drop n (rp_stream f)) (rp_filled f ++ take n (rp_stream f)) (rem - n)
                             (TOTAL_IN f +! Z.of_nat n))
      end
  end.

(** [buffer] has [n] bytes. *)
Definition read_payload (stream : bytes) (n : nat) (total : Z) : ReadPayloadBytes := mkReadPayloadBytes stream [] n total.

(** ** It reads just what is asked for *)

Definition delivers (p : poll_result) : Prop := match p with Pending => True | Delivers most => (0 < most)%nat | Fails _ => False end.
Definition is_delivery (p : poll_result) : bool := match p with Delivers _ => true | _ => false end.

Lemma poll_spec polls : ∀ f,
  let n := rp_remaining f in
  match poll polls f with
  | (f', Some (Ok filled)) =>
      (n ≤ length (rp_stream f))%nat ∧ filled = (length (rp_filled f) + n)%nat ∧
      rp_filled f' = rp_filled f ++ take n (rp_stream f) ∧ rp_stream f' = drop n (rp_stream f) ∧
      wrap64 (TOTAL_IN f') = wrap64 (TOTAL_IN f + Z.of_nat n)
  | (f', Some (Err e)) => Forall delivers polls → e = "early eof" ∧ (length (rp_stream f) < n)%nat
  | (f', None) => Forall delivers polls → (length (List.filter is_delivery polls) < n)%nat
  | _ => False
  end.
Proof.
  assert (∀ f, rp_remaining f = 0%nat → (0 ≤ length (rp_stream f))%nat ∧ length (rp_filled f) = (length (rp_filled f) + 0)%nat ∧
    rp_filled f = rp_filled f ++ take 0 (rp_stream f) ∧ rp_stream f = drop 0 (rp_stream f) ∧
    wrap64 (TOTAL_IN f) = wrap64 (TOTAL_IN f + Z.of_nat 0)) as Hdone.
  { intros f _. split_and!; [lia|lia|by rewrite take_0, app_nil_r|done|by rewrite Z.add_0_r]. }
  induction polls as [|p polls IH]; intros f; cbn [poll]; destruct (rp_remaining f) as [|rem] eqn:Hrem; try by apply Hdone.
  { intros _. cbn. lia. }
  destruct p as [|most|e]; [|set (k := ((most `min` S rem) `min` length (rp_stream f))%nat)|].
  - specialize (IH f). rewrite Hrem in IH. destruct (poll polls f) as [f' [[]|]]; try done.
    all: intros [_ Hd]%Forall_cons; by apply IH.
  - destruct (Nat.eqb_spec k 0) as [Hk|Hk].
    { intros [Hm _]%Forall_cons. cbn in Hm. split; [done|lia]. }
    match goal with |- context [poll polls ?g] => specialize (IH g) end. cbn [rp_remaining rp_stream rp_filled TOTAL_IN] in IH.
    destruct (poll polls _) as [f' [[filled|e| |]|]]; try done.
    + destruct IH as (Hn & -> & -> & -> & Ht). rewrite length_drop in Hn. rewrite length_app, length_take, drop_drop.
      split_and!; [lia|lia| | |].
      * rewrite <- app_assoc, take_take_drop. do 2 f_equal. lia.
      * f_equal. lia.
      * rewrite Ht, wrap64_add_l. f_equal. lia.
    + intros [_ Hd]%Forall_cons. destruct (IH Hd) as [-> Hn]. rewrite length_drop in Hn. split; [done|lia].
    + intros [_ Hd]%Forall_cons. specialize (IH Hd). cbn [List.filter is_delivery length]. lia.
  - intros [[] _]%Forall_cons.
Qed.

(** * The packets of a peer *)

Section stream.
Context `{Sha256, U256Lib, Layout}.

(** What a packet is to its reader: the header and the payload, if there is one. *)
Definition Packet : Type := PacketHeader * option ReceivedPayload.

(** The task of a connection: it sends what it reads until reading fails; [arenas k] are the addresses of the
    arenas the [k]-th packet is read into. A panic ends the task and sends nothing. Every packet takes the
    twenty-four bytes of a header at least, and so [S (length stream)] rounds are enough. *)
Fixpoint messages_loop (fuel : nat) (arenas : nat → Z * Z) (k : nat) (stream : bytes) : list (outcome Packet) :=
  match fuel with
  | O => []
  | S fuel =>
      match read_packet (arenas k).1 (arenas k).2 stream with
      | Ok (header, payload, stream) => Ok (header, payload) :: messages_loop fuel arenas (S k) stream
      | Err e => [Err e]
      | Panic _ => []
      | Ub => [Ub]
      end
  end.

Definition read_and_send_messages (arenas : nat → Z * Z) (k : nat) (stream : bytes) : list (outcome Packet) :=
  messages_loop (S (length stream)) arenas k stream.

(** [Connection::read_packet], for what the task still sends before its end of the channel is dropped. *)
Definition connection_read_packet (chan : list (outcome Packet)) : outcome Packet * list (outcome Packet) :=
  match chan with
  | v :: chan => (v, chan)
  | [] => (Err "read chan closed", [])
  end.

(** The first [n] reads of the connection *)
Fixpoint connection_reads (n : nat) (chan : list (outcome Packet)) : list (outcome Packet) :=
  match n with
  | O => []
  | S n => let '(v, chan) := connection_read_packet chan in v :: connection_reads n chan
  end.

(** ** Enough rounds *)

Lemma read_exact_shorter stream n x s : 0 <= n → read_exact stream n = Ok (x, s) → len s = len stream - n.
Proof.
  unfold read_exact, len. intros Hn. destruct (Z.ltb_spec (Z.of_nat (length stream)) n); [done|].
  intros E. injection E as _ <-. rewrite length_drop. lia.
Qed.

Lemma read_u32_le_shorter stream x s : read_u32_le stream = Ok (x, s) → len s = len stream - 4.
Proof.
  unfold read_u32_le. destruct (read_exact stream 4) as [[b s']| | |] eqn:E; try done.
  intros [= _ <-]. by apply read_exact_shorter in E.
Qed.

Lemma read_header_shorter stream h s : read_header stream = Ok (h, s) → len s = len stream - 24.
Proof.
  unfold read_header. destruct (read_u32_le stream) as [[? s1]| | |] eqn:E1; try done. cbn [mbind outcome_bind].
  destruct (read_exact s1 12) as [[? s2]| | |] eqn:E2; try done. cbn [mbind outcome_bind].
  destruct (read_u32_le s2) as [[? s3]| | |] eqn:E3; try done. cbn [mbind outcome_bind].
  destruct (read_exact s3 4) as [[? s4]| | |] eqn:E4; try done. cbn [mbind outcome_bind].
  case_match; [done|]. intros [= _ <-].
  apply read_u32_le_shorter in E1, E3. apply read_exact_shorter in E2; [|lia]. apply read_exact_shorter in E4; lia.
Qed.

Lemma read_packet_shorter small large stream h p s :
  read_packet small large stream = Ok (h, p, s) → (length s < length stream)%nat.
Proof.
  unfold read_packet. destruct (read_header stream) as [[header s1]| | |] eqn:E1; try done. cbn [mbind outcome_bind].
  destruct (unwrap _ _) as [[? a]| | |]; try done. cbn [mbind outcome_bind].
  destruct (read_exact s1 _) as [[b s2]| | |] eqn:E2; try done. cbn [mbind outcome_bind].
  intros Hs. assert (s = s2) as -> by (by repeat case_match; simplify_eq).
  apply read_header_shorter in E1. unfold read_exact in E2. destruct (len s1 <? _); [done|]. injection E2 as _ <-.
  rewrite length_drop. unfold len in *. lia.
Qed.

Lemma messages_loop_fuel fuel1 : ∀ fuel2 arenas k stream,
  (length stream < fuel1)%nat → (length stream < fuel2)%nat →
  messages_loop fuel1 arenas k stream = messages_loop fuel2 arenas k stream.
Proof.
  induction fuel1 as [|fuel1 IH]; intros [|fuel2] arenas k stream Hf1 Hf2; try lia. cbn [messages_loop].
  destruct (read_packet _ _ stream) as [[[h p] s]| | |] eqn:E; try done.
  apply read_packet_shorter in E. f_equal. apply IH; lia.
Qed.

Lemma read_and_send_Ok arenas k stream h p s :
  read_packet (arenas k).1 (arenas k).2 stream = Ok (h, p, s) →
  read_and_send_messages arenas k stream = Ok (h, p) :: read_and_send_messages arenas (S k) s.
Proof.
  intros E. unfold read_and_send_messages.
  rewrite (messages_loop_fuel (S (length s)) (length stream)) by (apply read_packet_shorter in E; lia).
  change (messages_loop (S (length stream)) arenas k stream)
    with (match read_packet (arenas k).1 (arenas k).2 stream with
          | Ok (header, payload, stream') => Ok (header, payload) :: messages_loop (length stream) arenas (S k) stream'
          | Err e => [Err e] | Panic _ => [] | Ub => [Ub] end).
  by rewrite E.
Qed.

Lemma read_and_send_Err arenas k stream e :
  read_packet (arenas k).1 (arenas k).2 stream = Err e → read_and_send_messages arenas k stream = [Err e].
Proof. intros E. unfold read_and_send_messages. cbn [messages_loop]. by rewrite E. Qed.

Lemma read_packet_short small large stream : len stream < 24 → read_packet small large stream = Err "early eof".
Proof.
  intros Hs. unfold read_packet. replace (read_header stream) with (Err (A := PacketHeader * bytes) "early eof"); [done|].
  unfold read_header, read_u32_le.
  destruct (read_exact stream 4) as [[b1 s1]| | |] eqn:E1; cbn [mbind outcome_bind].
  2-4: unfold read_exact in E1; case_match; congruence.
  apply read_exact_shorter in E1; [|lia].
  destruct (read_exact s1 12) as [[b2 s2]| | |] eqn:E2; cbn [mbind outcome_bind].
  2-4: unfold read_exact in E2; case_match; congruence.
  apply read_exact_shorter in E2; [|lia].
  destruct (read_exact s2 4) as [[b3 s3]| | |] eqn:E3; cbn [mbind outcome_bind].
  2-4: unfold read_exact in E3; case_match; congruence.
  apply read_exact_shorter in E3; [|lia].
  unfold read_exact. rewrite (proj2 (Z.ltb_lt (len s3) 4)) by lia. done.
Qed.

(** ** What a peer sends *)

(** A message, or the header and the payload of a packet whose checksum is not that of its payload. *)
Inductive item :=
| Message (p : PayloadToSend)
| Spoilt (command checksum payload : bytes).

Definition item_payload (i : item) : bytes := match i with Message p => encode_payload p | Spoilt _ _ payload => payload end.

Definition written (i : item) : outcome bytes :=
  match i with
  | Message p => write_packet p
  | Spoilt command checksum payload =>
      Ok (to_le 4 ACTIVE_MAGIC ++ command ++ to_le 4 (len payload) ++ checksum ++ payload)
  end.

(** The header the reader sees, and the message. *)
Definition delivered (i : item) : Packet :=
  match i with
  | Message p =>
      (mkPacketHeader ACTIVE_MAGIC (PayloadToSend_command p) (len (encode_payload p))
         (from_le (shorthash (encode_payload p))), received p)
  | Spoilt command checksum payload => (mkPacketHeader ACTIVE_MAGIC command (len payload) (from_le checksum), None)
  end.

Definition item_ok (arenas : Z * Z) (i : item) : Prop :=
  address_ok arenas.1 ∧ address_ok arenas.2 ∧ len (item_payload i) <= MAX_PACKET_SIZE ∧
  match i with
  | Message p => payload_readable p (after_buffer arenas.1 arenas.2 (len (encode_payload p)))
  | Spoilt command checksum payload => len command = 12 ∧ len checksum = 4 ∧ checksum ≠ shorthash payload
  end.

Lemma read_item arenas i w rest :
  item_ok arenas i → written i = Ok w →
  read_packet arenas.1 arenas.2 (w ++ rest) = Ok (delivered i, rest).
Proof.
  destruct i as [p|command checksum payload]; intros (Hs & Hl & Hm & Hi) Hw; cbn [item_payload written delivered] in *.
  - destruct (packet_roundtrip p arenas.1 arenas.2 rest) as (w' & Hw' & Hr); [done..|].
    assert (w = w') as -> by congruence. exact Hr.
  - destruct Hi as (Hc & Hk & Hne). injection Hw as <-. rewrite <- !app_assoc.
    exact (proj1 (packet_rejected arenas.1 arenas.2 command checksum payload rest 0 Hs Hl Hc Hk) Hm Hne).
Qed.

Lemma read_items arenas rest items : ∀ ws k,
  (∀ j i, items !! j = Some i → item_ok (arenas (k + j)%nat) i) → mapM written items = Ok ws →
  read_and_send_messages arenas k (concat ws ++ rest)
  = (Ok <$> (delivered <$> items)) ++ read_and_send_messages arenas (k + length items) rest.
Proof.
  induction items as [|i items IH]; intros ws k Hok Hws.
  { cbn in Hws. injection Hws as <-. cbn. by rewrite Nat.add_0_r. }
  cbn [mapM] in Hws. destruct (written i) as [w| | |] eqn:Hw; try done. cbn [mbind outcome_bind] in Hws.
  destruct (mapM written items) as [ws'| | |] eqn:Hws'; try done. injection Hws as <-.
  cbn [concat fmap list_fmap app length]. rewrite <- app_assoc.
  pose proof (Hok 0%nat i eq_refl) as Hi. rewrite Nat.add_0_r in Hi.
  pose proof (read_item _ _ _ (concat ws' ++ rest) Hi Hw) as Hr.
  destruct (delivered i) as [h p] eqn:Hd. rewrite (read_and_send_Ok _ _ _ _ _ _ Hr). f_equal.
  rewrite (IH ws' (S k)); [f_equal; f_equal; lia| |done].
  intros j i' Hj. replace (S k + j)%nat with (k + S j)%nat by lia. by apply Hok.
Qed.

(** A message whose type does not fit the address after its payload *)
Definition misplaced (arenas : Z * Z) (p : PayloadToSend) : Prop :=
  address_ok arenas.1 ∧ address_ok arenas.2 ∧ len (encode_payload p) <= MAX_PACKET_SIZE ∧
  let a := after_buffer arenas.1 arenas.2 (len (encode_payload p)) in
  ∃ t, message_type p = Some t ∧ (data a + consumed a) mod align_of t ≠ 0 ∧ array_room t 1 <= free a.

Lemma read_and_send_Ub arenas k stream :
  read_packet (arenas k).1 (arenas k).2 stream = Ub → read_and_send_messages arenas k stream = [Ub].
Proof. intros E. unfold read_and_send_messages. cbn [messages_loop]. by rewrite E. Qed.

Lemma connection_reads_app xs n chan : connection_reads (length xs + n) (xs ++ chan) = xs ++ connection_reads n chan.
Proof. induction xs as [|x xs IH]; [done|]. cbn. by rewrite IH. Qed.

Lemma connection_reads_closed n : connection_reads n [] = replicate n (Err "read chan closed").
Proof. induction n as [|n IH]; [done|]. cbn. by rewrite IH. Qed.
End stream.

Import Toy.

(** * The properties *)

(** However the network cuts the stream, a payload is read just as if it came at once: when the future of
    [read_payload] completes, its buffer is full of the next bytes of the stream, the bytes after them are left
    and [TOTAL_IN] grew by the size of the payload, that is, its result is that of [read_exact]; it fails only if
    the stream ends before; and as many deliveries as the payload has bytes are enough for it to complete. *)
Theorem payload_in_pieces polls stream n total :
  Forall delivers polls →
  match poll polls (read_payload stream n total) with
  | (f, Some (Ok filled)) =>
      filled = n ∧ read_exact stream (Z.of_nat n) = Ok (rp_filled f, rp_stream f) ∧
      wrap64 (TOTAL_IN f) = wrap64 (total + Z.of_nat n)
  | (f, Some r) => r = Err "early eof" ∧ read_exact stream (Z.of_nat n) = Err "early eof"
  | (f, None) => (length (List.filter is_delivery polls) < n)%nat
  end.
Proof.
  intros Hp. pose proof (poll_spec polls (read_payload stream n total)) as Hs.
  cbn [read_payload rp_remaining rp_stream rp_filled TOTAL_IN] in Hs. unfold read_exact, len.
  destruct (poll polls _) as [f [[filled|e| |]|]]; try done.
  - destruct Hs as (Hn & -> & -> & -> & Ht). rewrite (proj2 (Z.ltb_ge _ _)) by lia. by rewrite Nat2Z.id.
  - destruct (Hs Hp) as [-> Hn]. by rewrite (proj2 (Z.ltb_lt _ _)) by lia.
  - by apply Hs.
Qed.

Lemma payload_in_pieces_witness :
  (poll [Delivers 1; Pending; Delivers 7] (read_payload [Byte.x01; Byte.x02; Byte.x03; Byte.x04] 3 5)).1
  = mkReadPayloadBytes [Byte.x04] [Byte.x01; Byte.x02; Byte.x03] 0 8 ∧
  read_exact [Byte.x01; Byte.x02; Byte.x03; Byte.x04] 3 = Ok ([Byte.x01; Byte.x02; Byte.x03], [Byte.x04]).
Proof.
  assert (Forall delivers [Delivers 1; Pending; Delivers 7]) as Hp by (repeat constructor).
  pose proof (payload_in_pieces _ [Byte.x01; Byte.x02; Byte.x03; Byte.x04] 3 5 Hp) as Hs. vm_compute in Hs.
  split; [vm_compute; reflexivity|exact (proj1 (proj2 Hs))].
Defined.

(** C5. What one side of a connection writes is what the other side reads: when the stream of a peer is a sequence of
    messages, and of packets whose checksum is wrong, followed by less than a header, the reads of the connection give
    these messages in their order ([getaddr] and [getdata], and the packets with a wrong checksum, as packets
    without payload), then the end of the stream, then that the channel is closed, for every further read. A wrong checksum is
    never reported to the reader. This is so provided that each message is well formed (a [version] has a number from 70001 on)
    and at most as long as the largest packet, its arena has room for it (the reader panics otherwise), and the address after its
    payload, which depends on its length, is aligned for its type; the first message for whose type it
    is not aligned is written there all the same, which is undefined behaviour. *)
Theorem stream_roundtrip `{Sha256, U256Lib, Layout} arenas items ws :
  (∀ j i, items !! j = Some i → item_ok (arenas j) i) → mapM written items = Ok ws →
  (∀ rest n, len rest < 24 →
   connection_reads (length items + S n) (read_and_send_messages arenas 0 (concat ws ++ rest))
   = (Ok <$> (delivered <$> items)) ++ Err "early eof" :: replicate n (Err "read chan closed")) ∧
  (∀ p w more, misplaced (arenas (length items)) p → write_packet p = Ok w →
   read_and_send_messages arenas 0 (concat ws ++ w ++ more) = (Ok <$> (delivered <$> items)) ++ [Ub]).
Proof.
  intros Hok Hws. split.
  - intros rest n Hr. rewrite (read_items arenas rest items ws 0 Hok Hws).
    rewrite <- (length_fmap delivered items) at 1. rewrite <- (length_fmap Ok (delivered <$> items)).
    rewrite connection_reads_app. f_equal.
    rewrite (read_and_send_Err _ _ _ "early eof") by by apply read_packet_short.
    cbn. by rewrite connection_reads_closed.
  - intros p w more (Hs & Hl & Hm & t & Ht & Hal & Hroom) Hw. rewrite (read_items arenas (w ++ more) items ws 0 Hok Hws). f_equal.
    apply read_and_send_Ub. by eapply packet_misaligned.
Qed.

Definition toy_spoilt : item := Spoilt PING_COMMAND [Byte.xff; Byte.xff; Byte.xff; Byte.xff] [Byte.x01].

Definition toy_items : list item :=
  [Message (SendTx (with_hashes toy_tx)); toy_spoilt; Message (SendGetAddr mkGetAddr)].

Lemma stream_roundtrip_witness :
  ∃ ws, mapM written toy_items = Ok ws ∧
  connection_reads 5 (read_and_send_messages (λ _, (4097, 4096)) 0 (concat ws ++ [Byte.x00]))
  = (Ok <$> (delivered <$> toy_items)) ++ [Err "early eof"; Err "read chan closed"].
Proof.
  destruct (mapM written toy_items) as [ws| | |] eqn:Hws; [|vm_compute in Hws; discriminate..].
  exists ws. split; [reflexivity|].
  refine (proj1 (stream_roundtrip (λ _, (4097, 4096)) toy_items ws _ Hws) [Byte.x00] 1%nat _); [|vm_compute; reflexivity].
  intros j i. destruct j as [|[|[|j]]]; intros E; [injection E as <-..|discriminate E].
  - refine (conj _ (conj _ (conj _ _))); [unfold address_ok; cbn; lia..|vm_compute; discriminate|].
    split_and!; [split; [|done]; apply toy_tx_fields_ok|vm_compute; reflexivity|vm_compute; discriminate].
  - refine (conj _ (conj _ (conj _ (conj _ (conj _ _))))); [unfold address_ok; cbn; lia..|vm_compute; discriminate|reflexivity|reflexivity|vm_compute; discriminate].
  - refine (conj _ (conj _ (conj _ _))); [unfold address_ok; cbn; lia..|vm_compute; discriminate|exact I].
Defined.
