(* ===== verification/Loops.v ===== *)
(** Pieces of Rust the higher components share: [loop]s without an evident
    bound, error values that leave the state changed, and
    [String::from_utf8_lossy]. *)
From S2P Require Import Prelude.

(** * Computations that may still be running

    A [loop] is evaluated with fuel. [Running] says that the fuel ran out, which
    is no result: the theorems show how much fuel is enough. *)

Inductive comp (A : Type) : Type :=
| Finished (o : outcome A)
| Running.

Arguments Finished {A} o.
Arguments Running {A}.

#[export] Instance comp_ret : MRet comp := λ A a, Finished (Ok a).

#[export] Instance comp_bind : MBind comp := λ A B f m,
  match m with
  | Finished (Ok a) => f a
  | Finished (Err e) => Finished (Err e)
  | Finished (Panic msg) => Finished (Panic msg)
  | Finished Ub => Finished Ub
  | Running => Running
  end.

(** An iteration goes on with a state or leaves the loop with a value. *)
Fixpoint loop {S R} (body : S → comp (S + R)) (fuel : nat) (s : S) : comp R :=
  match fuel with
  | O => Running
  | Datatypes.S n =>
      x ← body s;
      match x with
      | inl s' => loop body n s'
      | inr r => mret r
      end
  end.

Lemma comp_bind_Finished {A B} (f : A → comp B) a : (Finished (Ok a) ≫= f) = f a.
Proof. done. Qed.

Lemma Finished_Ok_inj {A} (a b : A) : Finished (Ok a) = Finished (Ok b) → a = b.
Proof. by intros [= ->]. Qed.

Lemma comp_bind_Ok {A B} (f : A → comp B) (m : comp A) b :
  m ≫= f = Finished (Ok b) ↔ ∃ a, m = Finished (Ok a) ∧ f a = Finished (Ok b).
Proof.
  split; [|by intros (a & -> & H)]. by destruct m as [[]|]; intros H; [eexists|..].
Qed.

(** Breaks [H : m ≫= f = Finished (Ok b)] down into the steps that succeeded. *)
Ltac cbind H :=
  let a := fresh "v" in
  let Ha := fresh "Hv" in
  apply comp_bind_Ok in H as (a & Ha & H).

Lemma loop_inl {S R} (body : S → comp (S + R)) n s s' :
  body s = Finished (Ok (inl s')) → loop body (Datatypes.S n) s = loop body n s'.
Proof. simpl. by intros ->. Qed.

Lemma loop_inr {S R} (body : S → comp (S + R)) n s r :
  body s = Finished (Ok (inr r)) → loop body (Datatypes.S n) s = Finished (Ok r).
Proof. simpl. by intros ->. Qed.

(** The rule for a loop with a variant: an invariant of the states, a measure
    that decreases, and what holds of the value the loop is left with. *)
Lemma loop_total {S R} (body : S → comp (S + R)) (I : S → Prop) (m : S → nat) (Q : S → R → Prop) :
  (∀ s, I s → ∃ x, body s = Finished (Ok x) ∧
    match x with
    | inl s' => I s' ∧ (m s' < m s)%nat ∧ (∀ r, Q s' r → Q s r)
    | inr r => Q s r
    end) →
  ∀ fuel s, I s → (m s < fuel)%nat → ∃ r, loop body fuel s = Finished (Ok r) ∧ Q s r.
Proof.
  intros Hb fuel. induction fuel as [|fuel IH]; intros s HI Hm; [lia|].
  destruct (Hb s HI) as (x & Hx & Hr). simpl. rewrite Hx. simpl. destruct x as [s'|r].
  - destruct Hr as (HI' & Hm' & HQ). destruct (IH s' HI') as (r & -> & Hr); [lia|]. eauto.
  - eauto.
Qed.

Lemma loop_ext {S R} (f g : S → comp (S + R)) fuel s :
  (∀ x, f x = g x) → loop f fuel s = loop g fuel s.
Proof.
  intros Hfg. revert s. induction fuel as [|fuel IH]; intros s; simpl; [done|].
  rewrite Hfg. by destruct (g s) as [[[s'|r]| | |]|]; simpl.
Qed.

(** More fuel does not change the result of a loop. *)
Lemma loop_more_fuel {S R} (body : S → comp (S + R)) o n k s :
  loop body n s = Finished o → loop body (n + k) s = Finished o.
Proof.
  revert s. induction n as [|n IH]; simpl; [done|]. intros s.
  destruct (body s) as [[[s'|r]| | |]|]; simpl; auto.
Qed.

(** [for x in l] with a body that may loop. *)
Fixpoint for_comp {A S} (f : S → A → comp S) (l : list A) (s : S) : comp S :=
  match l with
  | [] => mret s
  | x :: l => s ← f s x; for_comp f l s
  end.

(** * [Result] as a value

    What a function leaves behind when it gives an error is part of its result
    where the caller goes on with the state. *)
Definition result (A : Type) : Type := string + A.

(** * [String::from_utf8_lossy]

    A string is the bytes of its UTF-8 encoding. Each maximal prefix of a
    sequence that is not one becomes U+FFFD. *)

Definition in_range (lo hi : Z) (b : option byte) : bool :=
  match b with Some b => (lo <=? u8 b) && (u8 b <=? hi) | None => false end.

Definition continuation (b : option byte) : bool := in_range 0x80 0xBF b.

(** The length of the sequence at the head of [b :: rest] and whether it is
    well formed; of an ill-formed one, the length of the part that is replaced. *)
Definition utf8_sequence (b : byte) (rest : bytes) : nat * bool :=
  let x := u8 b in
  let first := rest !! 0%nat in
  if x <? 0x80 then (1%nat, true)
  else if (0xC2 <=? x) && (x <=? 0xDF) then
    if continuation first then (2%nat, true) else (1%nat, false)
  else if (0xE0 <=? x) && (x <=? 0xEF) then
    let lo := if x =? 0xE0 then 0xA0 else 0x80 in
    let hi := if x =? 0xED then 0x9F else 0xBF in
    if in_range lo hi first then
      if continuation (rest !! 1%nat) then (3%nat, true) else (2%nat, false)
    else (1%nat, false)
  else if (0xF0 <=? x) && (x <=? 0xF4) then
    let lo := if x =? 0xF0 then 0x90 else 0x80 in
    let hi := if x =? 0xF4 then 0x8F else 0xBF in
    if in_range lo hi first then
      if continuation (rest !! 1%nat) then
        if continuation (rest !! 2%nat) then (4%nat, true) else (3%nat, false)
      else (2%nat, false)
    else (1%nat, false)
  else (1%nat, false).

Definition REPLACEMENT_CHARACTER : bytes := map byte.of_Z [0xEF; 0xBF; 0xBD].

Fixpoint from_utf8_lossy_fuel (fuel : nat) (b : bytes) : bytes :=
  match fuel, b with
  | S fuel, x :: rest =>
      let '(n, ok) := utf8_sequence x rest in
      (if ok then take n b else REPLACEMENT_CHARACTER) ++ from_utf8_lossy_fuel fuel (drop n b)
  | _, _ => []
  end.

(** Every round drops at least one byte, so the length is enough fuel. *)
Definition from_utf8_lossy (b : bytes) : bytes := from_utf8_lossy_fuel (length b) b.

Example from_utf8_lossy_example :
  from_utf8_lossy (bstr "ok" ++ map byte.of_Z [0xC3; 0xA9; 0xE2; 0x28; 0xA1])
  = bstr "ok" ++ map byte.of_Z [0xC3; 0xA9] ++ REPLACEMENT_CHARACTER ++ bstr "(" ++ REPLACEMENT_CHARACTER.
Proof. vm_compute. reflexivity. Qed.
