(* ===== verification/Chain.v ===== *)
(** [src/chainman/chain.rs], [src/types/blockheaderwithnumber.rs] and the
    read-only part of [src/chainman/mod.rs]: the tree of known headers, the walks
    along the ancestors of a header, and the queries of the chain. *)
From S2P Require Import Prelude.
From S2P Require Import Extern.
From S2P Require Import Pow.
From S2P Require Import Arena.
From S2P Require Import Wire.
From S2P Require Import Header.
From S2P Require Import Messages.
From S2P Require Import Payload.
From S2P Require Import Loops.

(** * Data *)

Record BlockHeaderWithNumber := mkBlockHeaderWithNumber {
  bn_header : BlockHeader;
  bn_number : Z;
  bn_fetched_full : bool;
  bn_total_work : Z;
  bn_coinbase_ascii : option bytes;
}.

#[export] Instance BlockHeaderWithNumber_eq_dec : EqDecision BlockHeaderWithNumber.
Proof. solve_decision. Defined.

Abbreviation bn_hash x := (bh_hash (bn_header x)).
Abbreviation bn_parent x := (bh_parent (bn_header x)).
Abbreviation bn_timestamp x := (bh_timestamp (bn_header x)).

(** The headers by their hash. *)
Abbreviation headers_map := (gmap (list byte) BlockHeaderWithNumber).

Record Chain := mkChain {
  top_header : BlockHeaderWithNumber;
  known_headers : headers_map;
  number_to_hash : gmap Z (list byte);
  most_work_chain : gset (list byte);
}.

Definition set_top_header (c : Chain) (x : BlockHeaderWithNumber) : Chain :=
  mkChain x (known_headers c) (number_to_hash c) (most_work_chain c).

Definition set_known_headers (c : Chain) (m : headers_map) : Chain :=
  mkChain (top_header c) m (number_to_hash c) (most_work_chain c).

Record HeaderApplicationResult := mkHeaderApplicationResult {
  removed_blocks : list (hash * Z);
  added_blocks : list (hash * Z);
}.

(** [map[key]] and [map.get(key).unwrap()] *)
Definition known (c : Chain) (h : hash) : outcome BlockHeaderWithNumber :=
  expect (known_headers c !! h) "called `Option::unwrap()` on a `None` value".

Lemma known_Some c h x : known_headers c !! h = Some x → known c h = Ok x.
Proof. unfold known. by intros ->. Qed.

(** The walks along the parents are [loop]s over this state. *)
Definition step_to {R} (c : Chain) (h : hash) : comp (BlockHeaderWithNumber + R) :=
  p ← Finished (known c h); mret (inl p).

(** * The operations of [Chain] *)

Section chain.
Context `{Sha256, U256Lib}.

Definition Chain_default : outcome Chain :=
  genesis_header ← GENESIS_HEADER;
  work ← get_work genesis_header;
  let genesis := mkBlockHeaderWithNumber genesis_header 0 false work None in
  Ok (mkChain genesis {[ bh_hash genesis_header := genesis ]} {[ 0 := bh_hash genesis_header ]}
        {[ bh_hash genesis_header ]}).

Definition get_ancestor (c : Chain) (fuel : nat) (header : BlockHeaderWithNumber) (height : Z) :
    comp (option BlockHeaderWithNumber) :=
  loop (λ top,
    mret (if height <? bn_number top then
            match known_headers c !! bn_parent top with
            | Some next => inl next
            | None => inr None
            end
          else inr (Some top))) fuel header.

Definition get_next_bits_required (c : Chain) (fuel : nat) (header : BlockHeaderWithNumber) :
    comp Z :=
  if bool_decide ((bn_number header +! 1) mod DIFFICULTY_ADJUSTMENT_INTERVAL ≠ 0)
  then mret (bh_bits (bn_header header))
  else
    let first_height := bn_number header -! (DIFFICULTY_ADJUSTMENT_INTERVAL - 1) in
    first ← get_ancestor c fuel header first_height;
    first_header ← Finished (expect first
      "get_next_bits_required called on a header without proper history");
    Finished (calculate_next_work_required (bn_timestamp header) (bn_timestamp first_header)
                (bh_bits (bn_header header))).

Definition update_most_work_chain (c : Chain) (r : HeaderApplicationResult) : Chain :=
  let removed := foldl (λ s '(hash, _), s ∖ {[ hash ]}) (most_work_chain c) (removed_blocks r) in
  let '(most_work_chain, number_to_hash) :=
    foldl (λ '(s, m) '(hash, number), (s ∪ {[ hash ]}, <[ number := hash ]> m))
      (removed, number_to_hash c) (added_blocks r) in
  mkChain (top_header c) (known_headers c) number_to_hash most_work_chain.
End chain.

(** * The queries of [chainman] *)

Definition get_top_header_hash (c : Chain) : hash := bn_hash (top_header c).
Definition get_top_header_number (c : Chain) : Z := bn_number (top_header c).
Definition get_header_by_hash (c : Chain) (h : hash) : option BlockHeaderWithNumber :=
  known_headers c !! h.
Definition get_hash_by_number (c : Chain) (number : Z) : option hash := number_to_hash c !! number.

Definition get_top_synced_header_hash (c : Chain) (fuel : nat) : comp (option hash) :=
  loop (λ last_hash,
    header ← Finished (known c last_hash);
    mret (if bn_fetched_full header then inr (Some last_hash)
          else if bool_decide (bn_parent header = EMPTY_HASH) then inr None
          else inl (bn_parent header))) fuel (bn_hash (top_header c)).

Definition get_top_synced_header_number (c : Chain) (fuel : nat) : comp Z :=
  loop (λ last_hash,
    header ← Finished (known c last_hash);
    mret (if bn_fetched_full header then inr (bn_number header)
          else if bool_decide (bn_parent header = EMPTY_HASH) then inr 0
          else inl (bn_parent header))) fuel (bn_hash (top_header c)).

(** The result grows at its end and is reversed before it is returned. *)
Definition get_blocks_with_timestamps_and_coinbase_asciis (c : Chain) (fuel : nat) (last : hash) :
    comp (list (hash * Z * Z * bytes)) :=
  result ← loop (λ '(last, result),
      header ← Finished (known c last);
      let result :=
        match bn_coinbase_ascii header with
        | Some v => result ++ [(last, bn_number header, bn_timestamp header, v)]
        | None => result
        end in
      mret (if bool_decide (bn_parent header = EMPTY_HASH) then inr result
            else inl (bn_parent header, result))) fuel (last, []);
  mret (rev result).

Definition get_block_timestamps_and_numbers (c : Chain) (hashes : list hash) :
    outcome (list Z * list Z) :=
  timestamps ← for_each (λ acc v, x ← known c v; Ok (acc ++ [bn_timestamp x])) hashes [];
  numbers ← for_each (λ acc v, x ← known c v; Ok (acc ++ [bn_number x])) hashes [];
  Ok (timestamps, numbers).

Definition try_get_block_timestamps_and_numbers_and_cb_asciis (c : Chain) (hashes : list hash) :
    outcome (list (Z * Z * bytes)) :=
  for_each (λ acc hash,
    v ← ok_or (known_headers c !! hash) "header not found";
    Ok (acc ++ [(bn_timestamp v, bn_number v, default [] (bn_coinbase_ascii v))])) hashes [].

Definition get_parents (c : Chain) (fuel : nat) (h : hash) (limit : Z) : comp (list hash) :=
  match known_headers c !! h with
  | None => mret []
  | Some last =>
      loop (λ '(last, result),
        mret (if len result <? limit then
                if bool_decide (bn_parent last = EMPTY_HASH) then inr result
                else match known_headers c !! bn_parent last with
                     | Some last => inl (last, result ++ [bn_hash last])
                     | None => inr result
                     end
              else inr result)) fuel (last, [])
  end.

Definition filter_tx_spends (c : Chain) (spends : list (Z * hash * hash)) : list (Z * hash) :=
  if bool_decide (spends = []) then []
  else map (λ item, (item.1.1, item.1.2))
         (List.filter (λ item, bool_decide (item.2 ∈ most_work_chain c)) spends).

(** [for i in 0..count] from the header [number + i], with its [break]. *)
Fixpoint headers_from (c : Chain) (block_stop : hash) (number : Z) (count : nat) :
    outcome (list BlockHeader) :=
  match count with
  | O => Ok []
  | S n =>
      hash ← expect (number_to_hash c !! number)
               "we have a higher top_header but no entry in number_to_hash";
      if bool_decide (hash = block_stop) then Ok []
      else
        x ← known c hash;
        rest ← headers_from c block_stop (number +! 1) n;
        Ok (bn_header x :: rest)
  end.

Definition respond_to_getheaders (c : Chain) (locator : list hash) (block_stop : hash) :
    outcome (option (list BlockHeader)) :=
  if bool_decide (locator = []) then Ok None
  else
    match List.find (λ h, bool_decide (h ∈ most_work_chain c)) locator with
    | None => Ok None
    | Some matched_hash =>
        header ← expect (known_headers c !! matched_hash)
                   "hash is in our most_work_chain but not in known_headers?";
        let blocks_to_send_count := bn_number (top_header c) -! bn_number header in
        if blocks_to_send_count =? 0 then Ok None
        else
          let blocks_to_send_count :=
            if 2000 <? blocks_to_send_count then 2000 else blocks_to_send_count in
          result ← headers_from c block_stop (bn_number header) (Z.to_nat blocks_to_send_count);
          Ok (Some result)
    end.

(** [now] is the time of the system clock, in seconds since the epoch. *)
Definition need_ihd (c : Chain) (now : Z) : bool :=
  let top_header_time := bn_timestamp (top_header c) in
  (top_header_time <? now) && (24 * 3600 <? now -! top_header_time).

Definition build_get_headers (c : Chain) (fuel : nat) : comp PayloadToSend :=
  if bn_number (top_header c) =? 0 then
    mret (SendGetHeaders (mkGetHeaders 70016 [bn_hash (top_header c)] EMPTY_HASH))
  else
    block_locator ← loop (λ '(current, step, block_locator),
        if 0 <? bn_number current then
          let step := if 10 <=? len block_locator then step *! 2 else step in
          let step := if bn_number current <? step then bn_number current else step in
          ancestor ← get_ancestor c fuel current (bn_number current -! step);
          new ← Finished (expect ancestor "failed to get ancestor");
          mret (inl (new, step, block_locator ++ [bn_hash new]))
        else mret (inr block_locator))
      fuel (top_header c, 1, [bn_hash (top_header c)]);
    mret (SendGetHeaders (mkGetHeaders 70016 block_locator EMPTY_HASH)).

Definition calculate_downloaded_blocks (c : Chain) (fuel : nat) : comp Z :=
  loop (λ last,
    if bn_fetched_full last then mret (inr (bn_number last +! 1))
    else if bn_number last =? 0 then mret (inr 0)
    else step_to c (bn_parent last)) fuel (top_header c).

Definition generate_top_work_chain_hashset (c : Chain) (fuel : nat) : comp Chain :=
  '(new_hashset, new_number_to_hash) ← loop (λ '(last, new_hashset, new_number_to_hash),
      let new_hashset := new_hashset ∪ {[ bn_hash last ]} in
      let new_number_to_hash := <[ bn_number last := bn_hash last ]> new_number_to_hash in
      if bn_number last =? 0 then mret (inr (new_hashset, new_number_to_hash))
      else
        last ← Finished (known c (bn_parent last));
        mret (inl (last, new_hashset, new_number_to_hash)))
    fuel (top_header c, ∅, ∅);
  mret (mkChain (top_header c) (known_headers c) new_number_to_hash new_hashset).

Definition get_top_downloaded_block_hash (c : Chain) (fuel : nat) : comp (option hash) :=
  loop (λ last,
    if bn_fetched_full last then mret (inr (Some (bn_hash last)))
    else if bn_number last =? 0 then mret (inr None)
    else step_to c (bn_parent last)) fuel (top_header c).

(** [downloaded] is the value of [DOWNLOADED_BLOCKS]. *)
Definition get_block_hashes_to_download (c : Chain) (downloaded : Z) (fuel : nat) :
    comp (option (list hash * Z)) :=
  if bn_number (top_header c) <? downloaded then mret None
  else
    '(all, last_added) ← loop (λ '(x, all),
        let all := all ++ [bn_hash x] in
        let last_added := bn_number x in
        if bn_number x =? 0 then mret (inr (all, last_added))
        else
          match known_headers c !! bn_parent x with
          | None => mret (inr (all, last_added))
          | Some x =>
              if bn_fetched_full x then mret (inr (all, last_added)) else mret (inl (x, all))
          end)
      fuel (top_header c, []);
    mret (Some (rev all, last_added)).

(** * Well-formed chains *)

Section chain_wf.
Context `{Sha256, U256Lib}.

(** The difficulty of a header is one that the retargeting can handle. *)
Definition bits_ok (h : BlockHeader) : Prop :=
  in_u32 (bh_bits h) ∧ u256_from_compact (bh_bits h) <= POW_LIMIT.

(** [x] is a known header, up to the copy of the ASCII part of its coinbase. *)
Definition in_chain (c : Chain) (x : BlockHeaderWithNumber) : Prop :=
  ∃ y, known_headers c !! bn_hash x = Some y ∧ bn_header y = bn_header x ∧
    bn_number y = bn_number x ∧ bn_fetched_full y = bn_fetched_full x ∧
    bn_total_work y = bn_total_work x.

Record chain_wf (c : Chain) : Prop := {
  wf_key h x : known_headers c !! h = Some x → bn_hash x = h;
  wf_empty : known_headers c !! EMPTY_HASH = None;
  wf_number h x : known_headers c !! h = Some x →
    0 <= bn_number x < Z.of_nat (size (known_headers c));
  wf_root h x : known_headers c !! h = Some x → bn_number x = 0 ↔ bn_parent x = EMPTY_HASH;
  wf_one_root h x h' y : known_headers c !! h = Some x → known_headers c !! h' = Some y →
    bn_number x = 0 → bn_number y = 0 → h = h';
  wf_parent h x : known_headers c !! h = Some x → bn_number x ≠ 0 →
    ∃ p w, known_headers c !! bn_parent x = Some p ∧ bn_number x = bn_number p + 1 ∧
      get_work (bn_header x) = Ok w ∧ bn_total_work x = bn_total_work p + w;
  wf_work h x : known_headers c !! h = Some x → in_u256 (bn_total_work x);
  wf_bits h x : known_headers c !! h = Some x → bits_ok (bn_header x);
  wf_top : in_chain c (top_header c);
  wf_most_work h x : known_headers c !! h = Some x →
    bn_total_work x <= bn_total_work (top_header c);
}.

Lemma in_chain_known c h x : chain_wf c → known_headers c !! h = Some x → in_chain c x.
Proof. intros Hwf Hx. exists x. by rewrite (wf_key c Hwf h x Hx). Qed.

Lemma in_chain_number c x :
  chain_wf c → in_chain c x → 0 <= bn_number x < Z.of_nat (size (known_headers c)).
Proof. intros Hwf (y & Hy & _ & <- & _). eapply wf_number; eauto. Qed.

Lemma in_chain_root c x :
  chain_wf c → in_chain c x → bn_number x = 0 ↔ bn_parent x = EMPTY_HASH.
Proof. intros Hwf (y & Hy & <- & <- & _). eapply wf_root; eauto. Qed.

Lemma in_chain_parent c x :
  chain_wf c → in_chain c x → bn_number x ≠ 0 →
  ∃ p, known_headers c !! bn_parent x = Some p ∧ in_chain c p ∧ bn_number x = bn_number p + 1 ∧
    bn_hash p = bn_parent x.
Proof.
  intros Hwf (y & Hy & Hh & Hn & _) Hx. rewrite <- Hn in Hx.
  destruct (wf_parent c Hwf _ y Hy Hx) as (p & w & Hp & Hnp & _).
  exists p. rewrite <- Hh, <- Hn. split_and!; [done| |done|]; [by eapply in_chain_known|].
  by eapply wf_key.
Qed.

(** ** The ancestors of a header, itself first *)

Fixpoint branch (m : headers_map) (n : nat) (x : BlockHeaderWithNumber) :
    list BlockHeaderWithNumber :=
  x :: match n with
       | O => []
       | S n => match m !! bn_parent x with Some p => branch m n p | None => [] end
       end.

Definition ancestors (c : Chain) (x : BlockHeaderWithNumber) : list BlockHeaderWithNumber :=
  branch (known_headers c) (Z.to_nat (bn_number x)) x.

Lemma ancestors_root c x : bn_number x = 0 → ancestors c x = [x].
Proof. intros Hx. unfold ancestors. by rewrite Hx. Qed.

Lemma ancestors_cons c x p :
  0 <= bn_number p → bn_number x = bn_number p + 1 →
  known_headers c !! bn_parent x = Some p → ancestors c x = x :: ancestors c p.
Proof.
  intros Hpos Hn Hp. unfold ancestors. rewrite Hn, Z2Nat.inj_add, Nat.add_1_r by lia.
  cbn [branch]. by rewrite Hp.
Qed.

Lemma ancestors_head c x : ∃ l, ancestors c x = x :: l.
Proof. unfold ancestors. destruct (Z.to_nat (bn_number x)); simpl; eauto. Qed.

(** Induction along the ancestors of a header of the chain. *)
Lemma in_chain_ind c (P : BlockHeaderWithNumber → Prop) :
  chain_wf c →
  (∀ x, in_chain c x → bn_number x = 0 → ancestors c x = [x] → P x) →
  (∀ x p, in_chain c x → in_chain c p → known_headers c !! bn_parent x = Some p →
     bn_hash p = bn_parent x → bn_number x = bn_number p + 1 →
     ancestors c x = x :: ancestors c p → P p → P x) →
  ∀ x, in_chain c x → P x.
Proof.
  intros Hwf Hroot Hstep x Hx. remember (Z.to_nat (bn_number x)) as n eqn:Hn.
  revert x Hx Hn. induction n as [|n IH]; intros x Hx Hn.
  - destruct (in_chain_number c x Hwf Hx). apply Hroot; [done|lia|]. apply ancestors_root. lia.
  - destruct (in_chain_parent c x Hwf Hx) as (p & Hp & Hip & Hnp & Hh); [lia|].
    pose proof (in_chain_number c p Hwf Hip).
    eapply Hstep; eauto; [|apply IH; [done|lia]]. apply ancestors_cons; (done || lia).
Qed.

Lemma length_ancestors c x :
  chain_wf c → in_chain c x → Z.of_nat (length (ancestors c x)) = bn_number x + 1.
Proof.
  intros Hwf. revert x. apply in_chain_ind; [done|..].
  - intros x _ Hn ->. simpl. lia.
  - intros x p _ _ _ _ Hn -> IH. simpl. lia.
Qed.

Lemma ancestors_lookup c x i a :
  chain_wf c → in_chain c x → ancestors c x !! i = Some a →
  in_chain c a ∧ bn_number a = bn_number x - Z.of_nat i ∧
  ancestors c x = take i (ancestors c x) ++ ancestors c a.
Proof.
  intros Hwf Hx. revert i. revert x Hx.
  apply (in_chain_ind c (λ x, ∀ i, ancestors c x !! i = Some a → _)); [done|..].
  - intros x Hx Hn Ha i. rewrite Ha. destruct i; [|done]. intros [= <-].
    split_and!; [done|lia|]. simpl. by rewrite Ha.
  - intros x p Hx Hp _ _ Hn Ha IH i. rewrite Ha. destruct i as [|i]; simpl.
    + intros [= <-]. rewrite Ha. split_and!; (done || lia).
    + intros Hi. destruct (IH i Hi) as (? & ? & Heq). split_and!; [done|lia|].
      by rewrite Heq at 1.
Qed.

Lemma ancestors_at c x n :
  chain_wf c → in_chain c x → 0 <= n <= bn_number x →
  ∃ a, ancestors c x !! Z.to_nat (bn_number x - n) = Some a ∧ bn_number a = n ∧ in_chain c a.
Proof.
  intros Hwf Hx Hn. pose proof (length_ancestors c x Hwf Hx).
  destruct (lookup_lt_is_Some_2 (ancestors c x) (Z.to_nat (bn_number x - n))) as [a Ha]; [lia|].
  destruct (ancestors_lookup c x _ a Hwf Hx Ha) as (? & ? & _). exists a. split_and!; (done || lia).
Qed.

Lemma elem_of_ancestors c x a :
  chain_wf c → in_chain c x → a ∈ ancestors c x → in_chain c a ∧ 0 <= bn_number a <= bn_number x.
Proof.
  intros Hwf Hx [i Ha]%list_elem_of_lookup.
  destruct (ancestors_lookup c x i a Hwf Hx Ha) as (Hi & Hn & _). split; [done|].
  pose proof (in_chain_number c a Hwf Hi). lia.
Qed.

(** There is one ancestor of each number, so their hashes differ. *)
Lemma ancestors_number_inj c x a b :
  chain_wf c → in_chain c x → a ∈ ancestors c x → b ∈ ancestors c x →
  bn_number a = bn_number b → a = b.
Proof.
  intros Hwf Hx [i Ha]%list_elem_of_lookup [j Hb]%list_elem_of_lookup Hab.
  destruct (ancestors_lookup c x i a Hwf Hx Ha) as (_ & Hi & _).
  destruct (ancestors_lookup c x j b Hwf Hx Hb) as (_ & Hj & _).
  assert (i = j) as -> by lia. congruence.
Qed.

Lemma in_chain_hash_inj c a b :
  in_chain c a → in_chain c b → bn_hash a = bn_hash b → bn_number a = bn_number b.
Proof. intros (x & Hx & _ & <- & _) (y & Hy & _ & <- & _) Heq. rewrite Heq in Hx. congruence. Qed.
End chain_wf.

(** * The walks along the ancestors *)

(** The number of known headers is fuel enough for every walk, and it is below
    the largest size of an object. *)
Definition enough (c : Chain) (fuel : nat) : Prop := (size (known_headers c) ≤ fuel)%nat.
Definition chain_fits (c : Chain) : Prop := Z.of_nat (size (known_headers c)) <= isize_max.

Section walks.
Context `{Sha256, U256Lib} (c : Chain) (fuel : nat).
Context (Hwf : chain_wf c) (Hfuel : enough c fuel).

Lemma number_fuel x : in_chain c x → (Z.to_nat (bn_number x) < fuel)%nat.
Proof. intros Hx. pose proof (in_chain_number c x Hwf Hx). unfold enough in Hfuel. lia. Qed.

Lemma number_small x : chain_fits c → in_chain c x → 0 <= bn_number x < isize_max.
Proof. intros Hs Hx. pose proof (in_chain_number c x Hwf Hx). unfold chain_fits in Hs. lia. Qed.

(** A walk that stops at the first ancestor a test accepts, or at the root. *)
Lemma walk_spec {R} (body : BlockHeaderWithNumber → comp (BlockHeaderWithNumber + R))
    (test : BlockHeaderWithNumber → bool) (yes : BlockHeaderWithNumber → R) (no : R) x :
  (∀ a, in_chain c a →
    body a = if test a then Finished (Ok (inr (yes a)))
             else if bn_number a =? 0 then Finished (Ok (inr no))
             else step_to c (bn_parent a)) →
  in_chain c x →
  loop body fuel x
  = Finished (Ok (match List.find test (ancestors c x) with Some a => yes a | None => no end)).
Proof.
  intros Hbody Hx.
  destruct (loop_total body (in_chain c) (λ a, Z.to_nat (bn_number a))
    (λ a r, r = match List.find test (ancestors c a) with Some a => yes a | None => no end))
    with (fuel := fuel) (s := x) as (r & -> & ->); [|done|by apply number_fuel|done].
  clear x Hx. intros a Ha. rewrite Hbody by done. destruct (ancestors_head c a) as [l Hl].
  destruct (test a) eqn:Ht.
  { eexists. split; [done|]. simpl. by rewrite Hl; simpl; rewrite Ht. }
  destruct (Z.eqb_spec (bn_number a) 0) as [Hz|Hz].
  { eexists. split; [done|]. rewrite ancestors_root by done. simpl. by rewrite Ht. }
  destruct (in_chain_parent c a Hwf Ha Hz) as (p & Hp & Hip & Hn & _).
  pose proof (in_chain_number c p Hwf Hip).
  unfold step_to, known. rewrite Hp. eexists. split; [done|]. split_and!; [done|lia|].
  intros r. rewrite (ancestors_cons c a p) by (done || lia). simpl. by rewrite Ht.
Qed.

Definition first_fetched : option BlockHeaderWithNumber :=
  List.find bn_fetched_full (ancestors c (top_header c)).

Lemma calculate_downloaded_blocks_spec :
  chain_fits c →
  calculate_downloaded_blocks c fuel
  = Finished (Ok (match first_fetched with Some a => bn_number a + 1 | None => 0 end)).
Proof.
  intros Hs. unfold calculate_downloaded_blocks.
  rewrite (walk_spec _ bn_fetched_full (λ a, bn_number a + 1) 0); [done| |by apply wf_top].
  intros a Ha. pose proof (number_small a Hs Ha). case_match; [|by case_match].
  by rewrite wrap64_small by mlia.
Qed.

Lemma get_top_downloaded_block_hash_spec :
  get_top_downloaded_block_hash c fuel = Finished (Ok (bh_hash ∘ bn_header <$> first_fetched)).
Proof.
  unfold get_top_downloaded_block_hash.
  rewrite (walk_spec _ bn_fetched_full (λ a, Some (bn_hash a)) None);
    [|by intros a _; repeat case_match|by apply wf_top].
  unfold first_fetched. by destruct (List.find _ _).
Qed.

(** The walks by hash start from the known copy of the top header. *)
Lemma hash_walk_spec {R} (yes : BlockHeaderWithNumber → R) (no : R) x :
  in_chain c x →
  loop (λ last_hash,
    header ← Finished (known c last_hash);
    mret (if bn_fetched_full header then inr (yes header)
          else if bool_decide (bn_parent header = EMPTY_HASH) then inr no
          else inl (bn_parent header))) fuel (bn_hash x)
  = Finished (Ok (match List.find bn_fetched_full (ancestors c x) with
                  | Some a => yes (default a (known_headers c !! bn_hash a)) | None => no end)).
Proof.
  intros Hx.
  assert (∀ n a, in_chain c a → (Z.to_nat (bn_number a) < n)%nat →
    loop (λ last_hash,
      header ← Finished (known c last_hash);
      mret (if bn_fetched_full header then inr (yes header)
            else if bool_decide (bn_parent header = EMPTY_HASH) then inr no
            else inl (bn_parent header))) n (bn_hash a)
    = Finished (Ok (match List.find bn_fetched_full (ancestors c a) with
                  | Some a => yes (default a (known_headers c !! bn_hash a)) | None => no end)))
    as Hgen; [|by apply Hgen, number_fuel].
  clear x Hx. induction n as [|n IH]; intros a Ha Hn; [lia|]. cbn [loop].
  pose proof Ha as (y & Hy & Hh & Hny & Hf & _). unfold known. rewrite Hy. simpl.
  pose proof (in_chain_root c a Hwf Ha) as Hr.
  destruct (decide (bn_number a = 0)) as [Hz|Hz].
  - rewrite ancestors_root by done. simpl. rewrite <- Hf. destruct (bn_fetched_full y); simpl.
    + by rewrite Hy.
    + rewrite Hh, bool_decide_true by tauto. done.
  - destruct (in_chain_parent c a Hwf Ha Hz) as (p & Hp & Hip & Hnp & Hhp).
    pose proof (in_chain_number c p Hwf Hip).
    rewrite (ancestors_cons c a p) by (done || lia). simpl. rewrite <- Hf.
    destruct (bn_fetched_full y); simpl; [by rewrite Hy|].
    rewrite Hh, bool_decide_false by tauto. simpl. rewrite <- Hhp. apply IH; [done|lia].
Qed.

Lemma get_top_synced_header_hash_spec :
  get_top_synced_header_hash c fuel = Finished (Ok (bh_hash ∘ bn_header <$> first_fetched)).
Proof.
  pose proof (wf_top c Hwf) as Ht. unfold get_top_synced_header_hash.
  trans (loop (λ last_hash,
    header ← Finished (known c last_hash);
    mret (if bn_fetched_full header then inr (Some (bn_hash header))
          else if bool_decide (bn_parent header = EMPTY_HASH) then inr None
          else inl (bn_parent header))) fuel (bn_hash (top_header c))).
  { apply (loop_ext). intros h. unfold known. destruct (known_headers c !! h) eqn:E; [|done].
    simpl. by rewrite (wf_key c Hwf _ _ E). }
  rewrite (hash_walk_spec (λ a, Some (bn_hash a))) by done. unfold first_fetched.
  destruct (List.find _ _) as [a|] eqn:E; [|done]. do 3 f_equal. simpl.
  destruct (known_headers c !! bn_hash a) as [y|] eqn:Ey; simpl; [|done].
  by rewrite (wf_key c Hwf _ _ Ey).
Qed.

Lemma get_top_synced_header_number_spec :
  get_top_synced_header_number c fuel
  = Finished (Ok (match first_fetched with Some a => bn_number a | None => 0 end)).
Proof.
  pose proof (wf_top c Hwf) as Ht. unfold get_top_synced_header_number.
  rewrite (hash_walk_spec bn_number) by done. unfold first_fetched.
  destruct (List.find _ _) as [a|] eqn:E; [|done]. do 2 f_equal.
  apply List.find_some in E as [E _]. apply list_elem_of_In in E.
  destruct (elem_of_ancestors c _ a Hwf Ht E) as [(y & -> & _ & Hn & _) _]. done.
Qed.
End walks.

Section ancestor.
Context `{Sha256, U256Lib} (c : Chain) (fuel : nat).
Context (Hwf : chain_wf c) (Hfuel : enough c fuel).

(** [get_ancestor] above the header is the header itself. *)
Lemma get_ancestor_above x height :
  in_chain c x → bn_number x <= height → get_ancestor c fuel x height = Finished (Ok (Some x)).
Proof.
  intros Hx Hle. pose proof (number_fuel c fuel Hwf Hfuel x Hx). unfold get_ancestor.
  destruct fuel as [|n]; [lia|]. simpl. by rewrite (proj2 (Z.ltb_ge _ _)) by done.
Qed.

Lemma get_ancestor_at x height :
  in_chain c x → 0 <= height <= bn_number x →
  ∃ a, get_ancestor c fuel x height = Finished (Ok (Some a)) ∧
    ancestors c x !! Z.to_nat (bn_number x - height) = Some a ∧ bn_number a = height ∧ in_chain c a.
Proof.
  intros Hx Hh.
  destruct (loop_total (λ top,
      mret (if height <? bn_number top then
              match known_headers c !! bn_parent top with
              | Some next => inl next | None => inr None end
            else inr (Some top)))
    (λ a, in_chain c a ∧ 0 <= height <= bn_number a) (λ a, Z.to_nat (bn_number a))
    (λ a r, ∃ y, r = Some y ∧ ancestors c a !! Z.to_nat (bn_number a - height) = Some y))
    with (fuel := fuel) (s := x) as (r & Hr & y & -> & Hy); [| |by apply (number_fuel c fuel)|].
  - clear x Hx Hh. intros a [Ha Hle]. eexists. split; [done|].
    destruct (Z.ltb_spec height (bn_number a)) as [Hlt|Hge].
    + destruct (Z.eq_dec (bn_number a) 0) as [Hz|Hz].
      { exfalso. lia. }
      destruct (in_chain_parent c a Hwf Ha Hz) as (p & Hp & Hip & Hn & _). rewrite Hp.
      pose proof (in_chain_number c p Hwf Hip). split_and!; [done|lia|lia|lia|].
      intros r (y & -> & Hy). exists y. split; [done|].
      rewrite (ancestors_cons c a p) by (done || lia).
      replace (Z.to_nat (bn_number a - height)) with (S (Z.to_nat (bn_number p - height))) by lia.
      done.
    + exists a. split; [done|]. replace (bn_number a - height) with 0 by lia.
      destruct (ancestors_head c a) as [l ->]. done.
  - split; [done|lia].
  - exists y. destruct (ancestors_lookup c x _ y Hwf Hx Hy) as (Hiy & Hny & _).
    split_and!; (done || lia).
Qed.

(** The bits the code wants of the child of [x]: those of [x] itself, except
    at the end of a period, where they are recomputed from the first and last
    header of the period. *)
Lemma get_next_bits_required_spec x :
  chain_fits c → in_chain c x →
  if decide ((bn_number x + 1) mod DIFFICULTY_ADJUSTMENT_INTERVAL = 0) then
    ∃ first, ancestors c x !! Z.to_nat (DIFFICULTY_ADJUSTMENT_INTERVAL - 1) = Some first ∧
      get_next_bits_required c fuel x
      = Finished (calculate_next_work_required (bn_timestamp x) (bn_timestamp first)
                    (bh_bits (bn_header x)))
  else get_next_bits_required c fuel x = Finished (Ok (bh_bits (bn_header x))).
Proof.
  intros Hs Hx. pose proof (number_small c Hwf x Hs Hx) as Hn. unfold get_next_bits_required.
  rewrite (wrap64_small (bn_number x + 1)) by mlia. set (n := bn_number x) in *.
  change DIFFICULTY_ADJUSTMENT_INTERVAL with 2016 in *. case_decide as Hm; cycle 1.
  { by rewrite bool_decide_true by done. }
  rewrite bool_decide_false by tauto.
  assert (2015 <= n) as Hge.
  { pose proof (Z.div_mod (n + 1) 2016 ltac:(lia)) as Hd. rewrite Hm in Hd.
    destruct (Z.le_gt_cases 2015 n); [done|]. rewrite Z.mod_small in Hm by lia. lia. }
  rewrite (wrap64_small (n - (2016 - 1))) by mlia.
  destruct (get_ancestor_at x (n - (2016 - 1)) Hx) as (a & Ha & Hl & _); [unfold n in *; lia|].
  exists a. rewrite Ha. split; [|done]. rewrite <- Hl. f_equal. unfold n. lia.
Qed.

Lemma get_next_bits_required_Ok x :
  chain_fits c → in_chain c x →
  ∃ b, get_next_bits_required c fuel x = Finished (Ok b) ∧ in_u32 b ∧
    u256_from_compact b <= POW_LIMIT.
Proof.
  intros Hs Hx. pose proof (get_next_bits_required_spec x Hs Hx) as Hb.
  assert (bits_ok (bn_header x)) as [Hu Hl].
  { destruct Hx as (y & Hy & <- & _). by eapply wf_bits. }
  case_decide; [|by exists (bh_bits (bn_header x))].
  destruct Hb as (first & _ & ->).
  destruct (calculate_next_work_required_Ok (bn_timestamp x) (bn_timestamp first) _ Hu Hl)
    as (b & -> & Hb). by exists b.
Qed.

(** [generate_top_work_chain_hashset] collects the ancestors of the top header. *)
Definition chain_index (c : Chain) : Prop :=
  (∀ h, h ∈ most_work_chain c ↔ ∃ a, a ∈ ancestors c (top_header c) ∧ bn_hash a = h) ∧
  (∀ n h, number_to_hash c !! n = Some h ↔
     ∃ a, a ∈ ancestors c (top_header c) ∧ bn_number a = n ∧ bn_hash a = h).

Lemma generate_loop x s m :
  in_chain c x →
  ∃ s' m', loop (λ '(last, new_hashset, new_number_to_hash),
      let new_hashset := new_hashset ∪ {[ bn_hash last ]} in
      let new_number_to_hash := <[ bn_number last := bn_hash last ]> new_number_to_hash in
      if bn_number last =? 0 then mret (inr (new_hashset, new_number_to_hash))
      else
        last ← Finished (known c (bn_parent last));
        mret (inl (last, new_hashset, new_number_to_hash)))
    fuel (x, s : gset (list byte), m : gmap Z (list byte)) = Finished (Ok (s', m')) ∧
    (∀ h, h ∈ s' ↔ h ∈ s ∨ ∃ a, a ∈ ancestors c x ∧ bn_hash a = h) ∧
    (∀ n, m' !! n = if decide (0 <= n <= bn_number x)
                    then (bh_hash ∘ bn_header) <$> ancestors c x !! Z.to_nat (bn_number x - n)
                    else m !! n).
Proof.
  intros Hx. pose proof (number_fuel c fuel Hwf Hfuel x Hx) as Hn. clear Hfuel.
  revert fuel s m Hn. revert x Hx.
  apply (in_chain_ind c (λ x, ∀ fuel s m, (Z.to_nat (bn_number x) < fuel)%nat → _)); [done|..].
  - intros x Hx Hz Ha n s m Hn. destruct n as [|n]; [lia|]. cbn [loop]. cbv zeta.
    rewrite (proj2 (Z.eqb_eq _ _)) by done. simpl. do 2 eexists. split; [done|]. split.
    + intros h. rewrite Ha. set_solver.
    + intros k. rewrite Ha, Hz. case_decide as Hk.
      * replace k with 0 by lia. by rewrite lookup_insert_eq.
      * by rewrite lookup_insert_ne by lia.
  - intros x p Hx Hp Hlp Hhp Hnp Ha IH n s m Hn. destruct n as [|n]; [lia|]. cbn [loop]. cbv zeta.
    pose proof (in_chain_number c p Hwf Hp).
    rewrite (proj2 (Z.eqb_neq _ _)) by lia. rewrite (known_Some c _ p) by done. simpl.
    edestruct (IH n) as (s' & m' & Hl & Hs & Hm); [lia|]. cbv zeta in Hl. do 2 eexists.
    split; [exact Hl|]. split.
    + intros h. rewrite Hs, Ha. set_solver.
    + intros k. rewrite Hm, Ha. case_decide as Hk.
      * rewrite decide_True by lia.
        replace (Z.to_nat (bn_number x - k)) with (S (Z.to_nat (bn_number p - k))) by lia. done.
      * case_decide as Hk'.
        -- replace k with (bn_number x) by lia. rewrite lookup_insert_eq.
           by replace (bn_number x - bn_number x) with 0 by lia.
        -- by rewrite lookup_insert_ne by lia.
Qed.

Lemma generate_top_work_chain_hashset_Ok :
  ∃ c', generate_top_work_chain_hashset c fuel = Finished (Ok c') ∧
    top_header c' = top_header c ∧ known_headers c' = known_headers c ∧ chain_index c'.
Proof.
  pose proof (wf_top c Hwf) as Ht. unfold generate_top_work_chain_hashset.
  destruct (generate_loop (top_header c) ∅ ∅ Ht) as (s & m & Hl & Hs & Hm).
  cbv zeta in Hl. rewrite Hl. simpl. eexists. split; [done|]. split_and!; [done..|]. split.
  - intros h. simpl. unfold ancestors in *. simpl. rewrite Hs. set_solver.
  - intros n h. simpl. unfold ancestors in *. simpl. fold (ancestors c (top_header c)) in *.
    rewrite Hm. case_decide as Hn.
    + destruct (ancestors_at c _ n Hwf Ht Hn) as (a & Ha & Hna & _). rewrite Ha. simpl. split.
      * intros [= <-]. exists a. split_and!; [|done..]. by eapply list_elem_of_lookup_2.
      * intros (b & Hb & Hnb & <-). f_equal. do 2 f_equal.
        eapply (ancestors_number_inj c (top_header c)); eauto; [|lia].
        by eapply list_elem_of_lookup_2.
    + rewrite lookup_empty. split; [done|]. intros (a & Ha & <- & _).
      apply elem_of_ancestors in Ha as [_ Ha]; [lia|done..].
Qed.
End ancestor.

(** * The main chain as a list, the root first *)

Fixpoint take_while {A} (f : A → bool) (l : list A) : list A :=
  match l with
  | [] => []
  | x :: l => if f x then x :: take_while f l else []
  end.

Definition main_chain (c : Chain) : list BlockHeaderWithNumber :=
  reverse (ancestors c (top_header c)).

Section main_chain.
Context `{Sha256, U256Lib} (c : Chain) (fuel : nat).
Context (Hwf : chain_wf c).

Lemma length_main_chain : Z.of_nat (length (main_chain c)) = bn_number (top_header c) + 1.
Proof. unfold main_chain. rewrite length_reverse. apply length_ancestors; [done|by apply wf_top]. Qed.

Lemma main_chain_lookup n :
  (n < length (main_chain c))%nat →
  ∃ a, main_chain c !! n = Some a ∧ bn_number a = Z.of_nat n ∧ in_chain c a ∧
    a ∈ ancestors c (top_header c).
Proof.
  intros Hn. pose proof length_main_chain as Hl. pose proof (wf_top c Hwf) as Ht.
  destruct (lookup_lt_is_Some_2 (main_chain c) n Hn) as [a Ha]. exists a.
  pose proof Ha as Ha'. unfold main_chain in Ha'.
  rewrite reverse_lookup_Some in Ha'. destruct Ha' as [Ha' Hlt].
  destruct (ancestors_lookup c _ _ a Hwf Ht Ha') as (Hi & Hna & _).
  unfold main_chain in Hl. rewrite length_reverse in Hl. split_and!; [done|lia|done|].
  by eapply list_elem_of_lookup_2.
Qed.

Lemma number_to_hash_main n a :
  chain_index c → main_chain c !! n = Some a → number_to_hash c !! Z.of_nat n = Some (bn_hash a).
Proof.
  intros [_ Hix] Ha. destruct (main_chain_lookup n) as (b & Hb & Hn & _ & Hb').
  { by eapply lookup_lt_Some. }
  simplify_eq. apply Hix. by exists a.
Qed.

Lemma known_header x : in_chain c x → ∃ y, known c (bn_hash x) = Ok y ∧ bn_header y = bn_header x ∧
  bn_number y = bn_number x.
Proof. intros (y & Hy & Hh & Hn & _). exists y. by rewrite (known_Some c _ y). Qed.

Lemma headers_from_spec stop n count :
  chain_fits c → chain_index c → (n + count ≤ length (main_chain c))%nat →
  headers_from c stop (Z.of_nat n) count
  = Ok (map bn_header (take_while (λ a, negb (bool_decide (bn_hash a = stop)))
                        (take count (drop n (main_chain c))))).
Proof.
  intros Hs Hix. revert n. induction count as [|count IH]; intros n Hn; [done|].
  pose proof length_main_chain as Hl. pose proof (number_small c Hwf _ Hs (wf_top c Hwf)) as Ht.
  destruct (main_chain_lookup n) as (a & Ha & Hna & Hia & _); [lia|].
  cbn [headers_from]. rewrite (number_to_hash_main n a) by done. cbn [expect mbind outcome_bind].
  rewrite (drop_S (main_chain c) a n) by done. cbn [take take_while].
  case_bool_decide as Hstop; cbn [negb]; [done|].
  destruct (known_header a Hia) as (y & -> & Hy & _). cbn [mbind outcome_bind].
  rewrite wrap64_small by mlia. replace (Z.of_nat n + 1) with (Z.of_nat (S n)) by lia.
  rewrite IH by lia. cbn [mbind outcome_bind map]. by rewrite Hy.
Qed.

Context (Hfuel : enough c fuel).

Lemma get_parents_loop limit x :
  in_chain c x → ∀ fuel l, (Z.to_nat (bn_number x) < fuel)%nat →
  loop (λ '(last, result),
      mret (if len result <? limit then
              if bool_decide (bn_parent last = EMPTY_HASH) then inr result
              else match known_headers c !! bn_parent last with
                   | Some last => inl (last, result ++ [bn_hash last])
                   | None => inr result
                   end
            else inr result)) fuel (x, l)
  = Finished (Ok (l ++ take (Z.to_nat (limit - len l))
                         (tail (map (λ a, bn_hash a) (ancestors c x))))).
Proof.
  revert x. refine (in_chain_ind c _ Hwf _ _).
  - intros x Hx Hz Ha n l Hn. destruct n as [|n]; [lia|]. cbn [loop]. rewrite Ha. simpl.
    pose proof (in_chain_root c x Hwf Hx). rewrite bool_decide_true by tauto.
    rewrite take_nil, app_nil_r. by destruct (len l <? limit).
  - intros x p Hx Hp Hlp Hhp Hnp Ha IH n l Hn. destruct n as [|n]; [lia|]. cbn [loop]. rewrite Ha.
    pose proof (in_chain_number c p Hwf Hp).
    destruct (ancestors_head c p) as [t Ht]. rewrite Ht in *. simpl.
    destruct (Z.ltb_spec (len l) limit) as [Hlt|Hge]; simpl; cycle 1.
    { rewrite Z2Nat.nonpos by lia. by rewrite app_nil_r. }
    rewrite bool_decide_false, Hlp by (intros ?%(in_chain_root c x Hwf Hx); lia). simpl.
    rewrite IH by lia. do 2 f_equal. rewrite <- app_assoc. f_equal. unfold len in *.
    rewrite length_app. simpl.
    replace (Z.to_nat (limit - Z.of_nat (length l)))
      with (S (Z.to_nat (limit - Z.of_nat (length l + 1)))) by lia. done.
Qed.

Lemma get_parents_spec h x limit :
  known_headers c !! h = Some x →
  get_parents c fuel h limit
  = Finished (Ok (take (Z.to_nat limit) (tail (map (λ a, bn_hash a) (ancestors c x))))).
Proof.
  intros Hx. unfold get_parents. rewrite Hx.
  assert (in_chain c x) as Hix by by eapply in_chain_known.
  rewrite get_parents_loop by (done || by apply (number_fuel c fuel)).
  change (len (@nil hash)) with 0. by rewrite Z.sub_0_r.
Qed.
End main_chain.

(** * How chains grow *)

Section grow.
Context `{Sha256, U256Lib}.

Lemma in_chain_mono c c' x :
  known_headers c ⊆ known_headers c' → in_chain c x → in_chain c' x.
Proof. intros Hsub (y & Hy & Hr). exists y. split; [|done]. by eapply lookup_weaken. Qed.

(** A new header on top of a known one. *)
Lemma chain_wf_insert c x p w t nums most :
  chain_wf c → known_headers c !! bn_hash x = None → bn_hash x ≠ EMPTY_HASH →
  known_headers c !! bn_parent x = Some p → bn_number x = bn_number p + 1 →
  get_work (bn_header x) = Ok w → bn_total_work x = bn_total_work p + w →
  in_u256 (bn_total_work x) → bits_ok (bn_header x) →
  let m := <[ bn_hash x := x ]> (known_headers c) in
  in_chain (mkChain t m nums most) t → bn_total_work x <= bn_total_work t →
  bn_total_work (top_header c) <= bn_total_work t →
  chain_wf (mkChain t m nums most).
Proof.
  intros Hwf Hnew Hne Hp Hn Hw Htw Hu Hb m Ht Hle1 Hle2.
  pose proof (wf_number c Hwf _ _ Hp) as Hpn. unfold m in *.
  assert (size (<[ bn_hash x := x ]> (known_headers c)) = S (size (known_headers c))) as Hsize
    by by apply map_size_insert_None.
  assert (∀ h y, known_headers c !! h = Some y →
    <[ bn_hash x := x ]> (known_headers c) !! h = Some y) as Hold.
  { intros h y Hy. rewrite lookup_insert_ne; [done|]. congruence. }
  constructor; simpl.
  - intros h y [[<- <-]|[_ Hy]]%lookup_insert_Some; [done|]. by eapply wf_key.
  - rewrite lookup_insert_ne by done. by apply (wf_empty c).
  - rewrite Hsize. intros h y [[<- <-]|[_ Hy]]%lookup_insert_Some; [lia|].
    pose proof (wf_number c Hwf h y Hy). lia.
  - intros h y [[<- <-]|[_ Hy]]%lookup_insert_Some; [|by eapply wf_root].
    split; [lia|]. intros He. rewrite He, (wf_empty c Hwf) in Hp. done.
  - intros h y h' y' [[<- <-]|[_ Hy]]%lookup_insert_Some [[<- <-]|[_ Hy']]%lookup_insert_Some;
      [done|lia|lia|]. by eapply wf_one_root.
  - intros h y [[<- <-]|[_ Hy]]%lookup_insert_Some; intros Hy0.
    + exists p, w. split_and!; [by apply Hold|done..].
    + destruct (wf_parent c Hwf h y Hy Hy0) as (q & v & Hq & Hr). exists q, v. eauto.
  - intros h y [[<- <-]|[_ Hy]]%lookup_insert_Some; [done|]. by eapply wf_work.
  - intros h y [[<- <-]|[_ Hy]]%lookup_insert_Some; [done|]. by eapply wf_bits.
  - done.
  - intros h y [[<- <-]|[_ Hy]]%lookup_insert_Some; [done|].
    pose proof (wf_most_work c Hwf h y Hy). lia.
Qed.

(** A new header beside the main chain, and one that becomes the top header. *)
Lemma chain_wf_insert_side c x p w :
  chain_wf c → known_headers c !! bn_hash x = None → bn_hash x ≠ EMPTY_HASH →
  known_headers c !! bn_parent x = Some p → bn_number x = bn_number p + 1 →
  get_work (bn_header x) = Ok w → bn_total_work x = bn_total_work p + w →
  in_u256 (bn_total_work x) → bits_ok (bn_header x) →
  bn_total_work x <= bn_total_work (top_header c) →
  chain_wf (set_known_headers c (<[ bn_hash x := x ]> (known_headers c))).
Proof.
  intros Hwf Hnew Hne Hp Hn Hw Htw Hu Hb Hle.
  eapply chain_wf_insert; eauto; [|lia].
  apply (in_chain_mono c); [by apply insert_subseteq|by apply wf_top].
Qed.

Lemma chain_wf_insert_top c x p w nums most :
  chain_wf c → known_headers c !! bn_hash x = None → bn_hash x ≠ EMPTY_HASH →
  known_headers c !! bn_parent x = Some p → bn_number x = bn_number p + 1 →
  get_work (bn_header x) = Ok w → bn_total_work x = bn_total_work p + w →
  in_u256 (bn_total_work x) → bits_ok (bn_header x) →
  bn_total_work (top_header c) <= bn_total_work x →
  chain_wf (mkChain x (<[ bn_hash x := x ]> (known_headers c)) nums most).
Proof.
  intros Hwf Hnew Hne Hp Hn Hw Htw Hu Hb Hle.
  eapply chain_wf_insert; eauto; [|lia].
  exists x. simpl. by rewrite lookup_insert_eq.
Qed.

(** What is known of a header stays so, and its ancestors stay the same. *)
Lemma ancestors_mono c c' x :
  chain_wf c → known_headers c ⊆ known_headers c' → in_chain c x →
  ancestors c' x = ancestors c x.
Proof.
  intros Hwf Hsub. revert x. refine (in_chain_ind c _ Hwf _ _).
  - intros x _ Hz ->. by apply ancestors_root.
  - intros x p _ Hp Hlp _ Hn -> IH. rewrite <- IH. pose proof (in_chain_number c p Hwf Hp).
    apply ancestors_cons; [lia|done|]. by eapply lookup_weaken.
Qed.

(** A header on top of the top header extends the index by its own entry. *)
Lemma chain_index_extend c x m :
  chain_wf c → chain_index c → known_headers c ⊆ m →
  known_headers c !! bn_parent x = Some (top_header c) →
  bn_number x = bn_number (top_header c) + 1 →
  chain_index (mkChain x m (<[ bn_number x := bn_hash x ]> (number_to_hash c))
    (most_work_chain c ∪ {[ bn_hash x ]})).
Proof.
  intros Hwf [Hi1 Hi2] Hsub Hp Hn. set (c' := mkChain _ _ _ _).
  pose proof (wf_top c Hwf) as Ht. pose proof (in_chain_number c _ Hwf Ht) as Htn.
  assert (ancestors c' x = x :: ancestors c (top_header c)) as Ha.
  { rewrite <- (ancestors_mono c c' (top_header c)) by done.
    apply ancestors_cons; [lia|done|]. by eapply lookup_weaken. }
  split; unfold c' at 1; cbn [most_work_chain number_to_hash]; change (top_header c') with x; rewrite Ha.
  - intros h. rewrite elem_of_union, elem_of_singleton, Hi1. split.
    + intros [(a & Hin & <-)| ->]; [exists a|exists x]; rewrite elem_of_cons; auto.
    + intros (a & [-> |Hin]%elem_of_cons & <-); eauto.
  - intros n h. rewrite lookup_insert_Some, Hi2. split.
    + intros [[<- <-]|(_ & a & Hin & Hr)]; [exists x|exists a]; rewrite elem_of_cons; auto.
    + intros (a & [-> |Hin]%elem_of_cons & <- & <-); [by left|]. right.
      destruct (elem_of_ancestors c _ a Hwf Ht Hin). split; [lia|eauto].
Qed.

Definition genesis : BlockHeader :=
  set_hash (mkBlockHeader 1 (replicate 32 Byte.x00) GENESIS_MERKLE_ROOT 1231006505
              0x1d00ffff 0x7c2bac1d 1 EMPTY_HASH)
    (double_sha256 (header_bytes (mkBlockHeader 1 (replicate 32 Byte.x00) GENESIS_MERKLE_ROOT
       1231006505 0x1d00ffff 0x7c2bac1d 1 EMPTY_HASH))).

Lemma GENESIS_HEADER_Ok : GENESIS_HEADER = Ok genesis.
Proof.
  unfold GENESIS_HEADER, genesis. apply BlockHeader_construct_Ok.
  unfold header_fields_ok, hash_ok, in_u32, in_u64. simpl. split_and!; (lia || reflexivity).
Qed.

Lemma genesis_target : u256_from_compact 0x1d00ffff = 0xffff * 2 ^ 208.
Proof.
  rewrite u256_from_compact_value by (unfold in_u32; lia).
  change (0x1d00ffff / 2 ^ 24) with 29. change (0x1d00ffff mod 2 ^ 23) with 65535.
  unfold compact_value. by vm_compute.
Qed.

Lemma Chain_default_Ok :
  bh_hash genesis ≠ EMPTY_HASH →
  ∃ c, Chain_default = Ok c ∧ chain_wf c ∧ chain_index c ∧
    bn_number (top_header c) = 0 ∧ bn_header (top_header c) = genesis ∧
    known_headers c = {[ bh_hash genesis := top_header c ]}.
Proof.
  intros Hne. unfold Chain_default. rewrite GENESIS_HEADER_Ok. cbn [mbind outcome_bind].
  assert (in_u32 0x1d00ffff) as Hu by (unfold in_u32; lia).
  pose proof (get_work_value genesis Hu) as Hw. cbv zeta in Hw.
  change (bh_bits genesis) with 0x1d00ffff in Hw. rewrite genesis_target in Hw.
  change (0xffff * 2 ^ 208 =? 0) with false in Hw. cbv iota in Hw. rewrite Hw.
  cbn [mbind outcome_bind]. set (t := mkBlockHeaderWithNumber _ _ _ _ _).
  assert (∀ h x, ({[ bh_hash genesis := t ]} : headers_map) !! h = Some x → h = bh_hash genesis ∧ x = t)
    as Hall by (intros h x [<- <-]%lookup_singleton_Some; done).
  eexists. split; [reflexivity|]. split; [constructor; simpl|split; [split|]; simpl].
  - by intros h x [-> ->]%Hall.
  - by rewrite lookup_singleton_ne.
  - intros h x [-> ->]%Hall. rewrite map_size_singleton. simpl. lia.
  - by intros h x [-> ->]%Hall.
  - by intros h x h' y [-> ->]%Hall [-> ->]%Hall.
  - by intros h x [-> ->]%Hall.
  - intros h x [-> ->]%Hall. unfold in_u256. simpl. vm_compute. split; [discriminate|done].
  - intros h x [-> ->]%Hall. split; [done|]. simpl. rewrite genesis_target. by vm_compute.
  - exists t. simpl. by rewrite lookup_singleton_eq.
  - by intros h x [-> ->]%Hall.
  - intros h. rewrite elem_of_singleton, ancestors_root by done. set_solver.
  - intros n h. rewrite ancestors_root, lookup_singleton_Some by done. set_solver.
  - done.
Qed.
End grow.

(** * Lemmas on the block locator *)

(** How far behind the top header the [i]-th entry of a locator is. *)
Definition locator_distance (i : nat) : Z :=
  if (i <? 10)%nat then Z.of_nat i else 7 + 2 ^ (Z.of_nat i - 8).

(** The number of the [i]-th entry for a top header with number [n]. *)
Definition locator_number (n : Z) (i : nat) : Z := Z.max 0 (n - locator_distance i).

(** The step to the [k]-th entry. *)
Definition locator_step (k : nat) : Z := if (k <? 10)%nat then 1 else 2 ^ (Z.of_nat k - 9).

Lemma locator_distance_S i :
  locator_distance (S i) = locator_distance i + locator_step (S i).
Proof.
  unfold locator_distance, locator_step. repeat case_match; rewrite ?Nat.ltb_lt, ?Nat.ltb_ge in *; try lia.
  - assert (i = 9%nat) as -> by lia. done.
  - replace (Z.of_nat (S i) - 8) with (Z.succ (Z.of_nat i - 8)) by lia.
    replace (Z.of_nat (S i) - 9) with (Z.of_nat i - 8) by lia. rewrite Z.pow_succ_r by lia. lia.
Qed.

Lemma locator_step_pos k : 1 <= locator_step k.
Proof.
  unfold locator_step. case_match; rewrite ?Nat.ltb_lt, ?Nat.ltb_ge in *; [done|].
  pose proof (Z.pow_pos_nonneg 2 (Z.of_nat k - 9)). lia.
Qed.

Lemma locator_distance_log i n : locator_distance i < n → Z.of_nat i <= 9 + Z.log2 n.
Proof.
  intros Hi. pose proof (Z.log2_nonneg n). unfold locator_distance in Hi.
  case_match; rewrite ?Nat.ltb_lt, ?Nat.ltb_ge in *; [lia|].
  assert (Z.of_nat i - 8 <= Z.log2 n); [|lia].
  rewrite <- (Z.log2_pow2 (Z.of_nat i - 8)) by lia. apply Z.log2_le_mono. lia.
Qed.

Section locator.
Context `{Sha256, U256Lib} (c : Chain) (fuel : nat).
Context (Hwf : chain_wf c) (Hfuel : enough c fuel) (Hs : chain_fits c).

(** The headers a locator names so far. *)
Record locator_of (xs : list BlockHeaderWithNumber) : Prop := {
  lo_anc x : x ∈ xs → x ∈ ancestors c (top_header c);
  lo_number i x : xs !! i = Some x →
    bn_number x = locator_number (bn_number (top_header c)) i;
  lo_head : head xs = Some (top_header c);
}.

Definition locator_state (s : BlockHeaderWithNumber * Z * list hash) (xs : list BlockHeaderWithNumber) :
    Prop :=
  let '(current, step, block_locator) := s in
  block_locator = map (λ x, bn_hash x) xs ∧ locator_of xs ∧ last xs = Some current ∧
  (∀ i x, xs !! i = Some x → (S i < length xs)%nat → 0 < bn_number x) ∧
  (0 < bn_number current → step = locator_step (length xs - 1)).

Lemma locator_not_clipped x i :
  bn_number x = locator_number (bn_number (top_header c)) i → 0 < bn_number x →
  bn_number x = bn_number (top_header c) - locator_distance i.
Proof. unfold locator_number. lia. Qed.

Lemma locator_step_next xs current step :
  let n := bn_number current in
  last xs = Some current → locator_of xs → 0 < n → step = locator_step (length xs - 1) →
  let step' := if 10 <=? len (map (λ x, bn_hash x) xs) then step *! 2 else step in
  let step'' := if n <? step' then n else step' in
  0 < step'' <= n ∧ n - step'' = locator_number (bn_number (top_header c)) (length xs) ∧
  (0 < n - step'' → step'' = locator_step (length xs)).
Proof.
  intros n Hlast Hlo Hn -> step'. rewrite last_lookup in Hlast.
  pose proof (lo_number _ Hlo _ _ Hlast) as Hnum.
  pose proof (locator_not_clipped _ _ Hnum Hn) as Hx. fold n in Hx, Hnum.
  destruct (length xs) as [|k] eqn:Hl; [by destruct xs|].
  replace (S k - 1)%nat with k by lia. cbn [Nat.pred] in *.
  assert (step' = locator_step (S k)) as ->.
  { unfold step'. assert (len (map (λ x, bn_hash x) xs) = Z.of_nat (S k)) as ->
      by (unfold len; rewrite length_map; lia).
    replace (S k - 1)%nat with k by lia.
    pose proof (number_small c Hwf _ Hs (wf_top c Hwf)) as Ht. unfold isize_max in Ht.
    pose proof (locator_step_pos k). assert (locator_step k <= 2 ^ 62) as Hb.
    { destruct k as [|k']; [done|]. pose proof (locator_distance_S k').
      assert (0 <= locator_distance k').
      { unfold locator_distance. case_match; [lia|]. pose proof (Z.pow_nonneg 2 (Z.of_nat k' - 8)). lia. }
      assert (locator_step (S k') < 2 ^ 63) as Hlt by lia.
      unfold locator_step in *. case_match; [done|]. rewrite Nat.ltb_ge in *.
      apply Z.pow_le_mono_r; [lia|]. apply (Z.pow_lt_mono_r_iff 2) in Hlt; lia. }
    rewrite wrap64_small by mlia. unfold locator_step.
    destruct (Nat.ltb_spec k 10), (Nat.ltb_spec (S k) 10), (Z.leb_spec 10 (Z.of_nat (S k)));
      try lia.
    - by assert (k = 9%nat) as -> by lia.
    - replace (Z.of_nat (S k) - 9) with (Z.succ (Z.of_nat k - 9)) by lia.
      rewrite Z.pow_succ_r by lia. lia. }
  pose proof (locator_distance_S k). pose proof (locator_step_pos (S k)).
  unfold locator_number. destruct (Z.ltb_spec n (locator_step (S k))); lia.
Qed.

(** One more entry. *)
Lemma locator_of_snoc xs a :
  locator_of xs → xs ≠ [] → a ∈ ancestors c (top_header c) →
  bn_number a = locator_number (bn_number (top_header c)) (length xs) → locator_of (xs ++ [a]).
Proof.
  intros Hlo Hne Ha Hn. constructor.
  - intros x [Hx| ->%list_elem_of_singleton]%elem_of_app; [by eapply lo_anc|done].
  - intros i x [Hx|(Hi & Hx)]%lookup_app_Some; [by eapply lo_number|].
    apply list_lookup_singleton_Some in Hx as [Hi0 <-].
    replace i with (length xs) by lia. done.
  - destruct xs; [done|]. apply (lo_head _ Hlo).
Qed.

Lemma locator_body s xs :
  locator_state s xs →
  ∃ x, (let '(current, step, block_locator) := s in
      if 0 <? bn_number current then
        let step := if 10 <=? len block_locator then step *! 2 else step in
        let step := if bn_number current <? step then bn_number current else step in
        ancestor ← get_ancestor c fuel current (bn_number current -! step);
        new ← Finished (expect ancestor "failed to get ancestor");
        mret (inl (new, step, block_locator ++ [bn_hash new]))
      else mret (inr block_locator)) = Finished (Ok x) ∧
    match x with
    | inl s' => (∃ xs', locator_state s' xs') ∧ bn_number s'.1.1 < bn_number s.1.1 ∧ 0 <= bn_number s'.1.1
    | inr r => r = s.2 ∧ bn_number s.1.1 <= 0
    end.
Proof.
  destruct s as [[current step] loc]. intros (-> & Hlo & Hlast & Hpos & Hstep). cbn [fst snd].
  destruct (Z.ltb_spec 0 (bn_number current)) as [Hlt|Hge]; [|by eexists].
  destruct (locator_step_next xs current step Hlast Hlo Hlt (Hstep Hlt)) as (H1 & H2 & H3).
  cbv zeta in H1, H2, H3 |- *. set (st := if bn_number current <? _ then _ else _) in *.
  assert (current ∈ ancestors c (top_header c)) as Hcur.
  { apply (lo_anc _ Hlo). rewrite last_lookup in Hlast. by eapply list_elem_of_lookup_2. }
  pose proof (wf_top c Hwf) as Ht. destruct (elem_of_ancestors c _ _ Hwf Ht Hcur) as [Hic Hcn].
  pose proof (number_small c Hwf _ Hs Ht) as Hn.
  rewrite wrap64_small by mlia.
  destruct (get_ancestor_at c fuel Hwf Hfuel current (bn_number current - st)) as (a & Ha & Hl & Hna & Hia);
    [done|lia|].
  rewrite Ha. simpl. eexists. split; [done|]. cbn [fst]. split; [|lia].
  exists (xs ++ [a]). unfold locator_state. rewrite map_app.
  assert (xs ≠ []) as Hne by (by intros ->).
  assert (a ∈ ancestors c (top_header c)) as Haa.
  { apply list_elem_of_lookup in Hcur as [i Hi].
    destruct (ancestors_lookup c _ i _ Hwf Ht Hi) as (_ & _ & ->). apply elem_of_app. right.
    by eapply list_elem_of_lookup_2. }
  split_and!; [done| | | |].
  - apply locator_of_snoc; (done || lia).
  - by rewrite last_snoc.
  - intros i x Hx Hi. rewrite length_app in Hi. simpl in Hi.
    rewrite lookup_app_l in Hx by lia. destruct (decide (S i = length xs)) as [He|].
    + rewrite last_lookup, <- He in Hlast. simpl in Hlast. by simplify_eq.
    + apply (Hpos i x Hx). lia.
  - intros Hp. rewrite length_app. simpl. replace (length xs + 1 - 1)%nat with (length xs) by lia.
    apply H3. lia.
Qed.

Lemma build_get_headers_spec :
  ∃ xs, build_get_headers c fuel
    = Finished (Ok (SendGetHeaders (mkGetHeaders 70016 (map (λ x, bn_hash x) xs) EMPTY_HASH))) ∧
    locator_of xs ∧ (∃ x, last xs = Some x ∧ bn_number x = 0) ∧
    (∀ i x, xs !! i = Some x → (S i < length xs)%nat → 0 < bn_number x).
Proof.
  pose proof (wf_top c Hwf) as Ht. pose proof (in_chain_number c _ Hwf Ht) as Hn0.
  assert (locator_of [top_header c]) as Hl0.
  { constructor; [| |done].
    - intros x ->%list_elem_of_singleton. destruct (ancestors_head c (top_header c)) as [l ->].
      apply list_elem_of_here.
    - intros i x [-> <-]%list_lookup_singleton_Some. unfold locator_number, locator_distance.
      simpl. lia. }
  unfold build_get_headers. destruct (Z.eqb_spec (bn_number (top_header c)) 0) as [Hz|Hnz].
  { exists [top_header c]. split; [done|]. split_and!; [done|by eexists|]. simpl. intros. lia. }
  match goal with |- context [loop ?b fuel ?s0] =>
    destruct (loop_total b (λ s, (∃ xs, locator_state s xs) ∧ 0 <= bn_number s.1.1)
      (λ s, Z.to_nat (bn_number s.1.1))
      (λ _ r, ∃ current step xs, locator_state (current, step, r) xs ∧ bn_number current <= 0 ∧
         0 <= bn_number current)) with (fuel := fuel) (s := s0)
      as (r & Hr & current & step & xs & (-> & Hlo & Hlast & Hpos & _) & Hz & Hz')
  end.
  - intros s [(xs & Hst) Hns]. destruct (locator_body s xs Hst) as (x & Hx & Hr).
    destruct s as [[current step] loc]. exists x. split; [exact Hx|]. destruct x as [s'|r].
    + destruct Hr as (? & ? & ?). cbn [fst] in *. split_and!; [done|done|lia|done].
    + destruct Hr as [-> Hle]. cbn [fst snd] in *. by exists current, step, xs.
  - cbn [fst]. split; [|lia]. exists [top_header c]. split_and!; [done..| |done].
    intros i x _ Hi. simpl in Hi. lia.
  - cbn [fst]. by apply (number_fuel c fuel).
  - rewrite Hr. exists xs. split; [done|]. split_and!; [done| |done]. exists current. split; [done|lia].
Qed.
End locator.

(** * Lemmas on the missing blocks *)

Lemma take_while_find {A} (f : A → bool) l :
  ∃ i, take_while (λ x, negb (f x)) l = take i l ∧ List.find f l = l !! i ∧ (i ≤ length l)%nat.
Proof.
  induction l as [|x l (i & Ht & Hf & Hi)]; simpl; [by exists 0%nat|].
  destruct (f x) eqn:Hx; simpl; [exists 0%nat; split_and!; (done || lia)|].
  exists (S i). rewrite Ht. split_and!; (done || simpl; lia).
Qed.

Lemma reverse_rev {A} (l : list A) : reverse l = rev l.
Proof. by rewrite List.rev_alt. Qed.

Section missing.
Context `{Sha256, U256Lib} (c : Chain) (fuel : nat).
Context (Hwf : chain_wf c) (Hfuel : enough c fuel).

Definition unfetched (l : list BlockHeaderWithNumber) : list BlockHeaderWithNumber :=
  match l with
  | [] => []
  | x :: l => x :: take_while (λ a, negb (bn_fetched_full a)) l
  end.

Lemma unfetched_cons x y l :
  bn_fetched_full y = false → unfetched (x :: y :: l) = x :: unfetched (y :: l).
Proof. intros Hy. simpl. by rewrite Hy. Qed.

Lemma download_loop x :
  in_chain c x → ∀ fuel all, (Z.to_nat (bn_number x) < fuel)%nat →
  ∃ y, last (unfetched (ancestors c x)) = Some y ∧
  loop (λ '(x, all),
      let all := all ++ [bn_hash x] in
      let last_added := bn_number x in
      if bn_number x =? 0 then mret (inr (all, last_added))
      else
        match known_headers c !! bn_parent x with
        | None => mret (inr (all, last_added))
        | Some x =>
            if bn_fetched_full x then mret (inr (all, last_added)) else mret (inl (x, all))
        end) fuel (x, all)
  = Finished (Ok (all ++ map (λ a, bn_hash a) (unfetched (ancestors c x)), bn_number y)).
Proof.
  revert x. refine (in_chain_ind c _ Hwf _ _).
  - intros x Hx Hz Ha n all Hn. destruct n as [|n]; [lia|]. rewrite Ha. exists x.
    split; [done|]. cbn [loop]. cbv zeta. by rewrite (proj2 (Z.eqb_eq _ _)) by done.
  - intros x p Hx Hp Hlp Hhp Hnp Ha IH n all Hn. destruct n as [|n]; [lia|].
    pose proof (in_chain_number c p Hwf Hp). destruct (ancestors_head c p) as [t Ht].
    destruct (bn_fetched_full p) eqn:Hf.
    + exists x. rewrite Ha, Ht. simpl. rewrite Hf. simpl. split; [done|].
      rewrite (proj2 (Z.eqb_neq _ _)), Hlp by lia. simpl. by rewrite Hf.
    + destruct (IH n (all ++ [bn_hash x])) as (y & Hy & Hl); [lia|]. exists y.
      rewrite Ha, Ht, unfetched_cons, <- Ht by done. split.
      { rewrite Ht in *. exact Hy. }
      cbn [loop]. cbv zeta. rewrite (proj2 (Z.eqb_neq _ _)), Hlp by lia. rewrite Hf.
      cbv zeta in Hl. simpl. rewrite Hl, <- app_assoc. done.
Qed.

(** With the counter up to date these are the headers above the counter. *)
Lemma get_block_hashes_to_download_spec downloaded :
  chain_fits c → calculate_downloaded_blocks c fuel = Finished (Ok downloaded) →
  get_block_hashes_to_download c downloaded fuel
  = Finished (Ok (if bn_number (top_header c) <? downloaded then None
                  else Some (map (λ a, bn_hash a) (drop (Z.to_nat downloaded) (main_chain c)),
                             downloaded))).
Proof.
  intros Hs. rewrite (calculate_downloaded_blocks_spec c fuel Hwf Hfuel Hs). intros [= Hd].
  pose proof (wf_top c Hwf) as Ht. pose proof (length_ancestors c _ Hwf Ht) as Hlen.
  unfold get_block_hashes_to_download.
  destruct (Z.ltb_spec (bn_number (top_header c)) downloaded) as [|Hle]; [done|].
  destruct (download_loop (top_header c) Ht fuel []) as (y & Hy & Hl);
    [by apply (number_fuel c fuel)|].
  cbv zeta in Hl. rewrite Hl. clear Hl. simpl.
  destruct (take_while_find bn_fetched_full (ancestors c (top_header c))) as (i & Hti & Hfi & Hi).
  unfold first_fetched in Hd. rewrite Hfi in Hd.
  assert (Z.of_nat i = bn_number (top_header c) + 1 - downloaded) as Hid.
  { destruct (ancestors c (top_header c) !! i) as [a|] eqn:Ha.
    - destruct (ancestors_lookup c _ i a Hwf Ht Ha) as (_ & Hna & _). lia.
    - apply lookup_ge_None in Ha. lia. }
  assert (unfetched (ancestors c (top_header c)) = take i (ancestors c (top_header c))) as Hu.
  { rewrite <- Hti. destruct (ancestors c (top_header c)) as [|x l] eqn:E; [done|]. simpl in *.
    destruct (bn_fetched_full x) eqn:Hx; [|done]. exfalso. destruct i; [|done]. lia. }
  rewrite Hu in *. rewrite <- map_rev.
  assert (drop (Z.to_nat downloaded) (main_chain c) = rev (take i (ancestors c (top_header c)))) as ->.
  { unfold main_chain. rewrite reverse_rev, skipn_rev. do 2 f_equal. lia. }
  assert (bn_number y = downloaded) as ->; [|done].
  rewrite last_lookup, length_take_le in Hy by done. destruct i as [|i]; [done|].
  simpl in Hy. rewrite lookup_take_lt in Hy by lia.
  destruct (ancestors_lookup c _ i y Hwf Ht Hy) as (_ & Hny & _). lia.
Qed.
End missing.

(** * A chain of three headers, for the witnesses *)

Module ToyChain.
Import Toy.

Definition chain0 : Chain :=
  match Chain_default with
  | Ok c => c
  | _ => mkChain (mkBlockHeaderWithNumber default_value 0 false 0 None) ∅ ∅ ∅
  end.

(** The header with the given nonce on top of [p]. *)
Definition child (p : BlockHeaderWithNumber) (nonce : Z) : BlockHeaderWithNumber :=
  match BlockHeader_construct 1 (bn_hash p) EMPTY_HASH 1231469665 0x1d00ffff nonce 0 with
  | Ok h =>
      match get_work h with
      | Ok w => mkBlockHeaderWithNumber h (bn_number p + 1) false (bn_total_work p + w) None
      | _ => p
      end
  | _ => p
  end.

Definition extend (c : Chain) (x : BlockHeaderWithNumber) : Chain :=
  mkChain x (<[ bn_hash x := x ]> (known_headers c)) (<[ bn_number x := bn_hash x ]> (number_to_hash c))
    (most_work_chain c ∪ {[ bn_hash x ]}).

Definition chain1 : Chain := extend chain0 (child (top_header chain0) 1).
Definition chain2 : Chain := extend chain1 (child (top_header chain1) 2).

Lemma chain0_ok : chain_wf chain0 ∧ chain_index chain0.
Proof.
  assert (bool_decide (bh_hash genesis = EMPTY_HASH) = false) as Hne by (vm_compute; reflexivity).
  apply bool_decide_eq_false in Hne.
  destruct (Chain_default_Ok Hne) as (c & Hc & Hwf & Hix & _).
  unfold chain0. rewrite Hc. exact (conj Hwf Hix).
Qed.

Definition toy_work : Z := 2 ^ 256 / (0xffff * 2 ^ 208 + 1).

(** The conditions under which a header extends a chain, as a test. *)
Definition extends (c : Chain) (x : BlockHeaderWithNumber) : bool :=
  bool_decide (known_headers c !! bn_hash x = None) && negb (bool_decide (bn_hash x = EMPTY_HASH)) &&
  bool_decide (known_headers c !! bn_parent x = Some (top_header c)) &&
  (bn_number x =? bn_number (top_header c) + 1) &&
  bool_decide (match get_work (bn_header x) with Ok w => w =? toy_work | _ => false end = true) &&
  (bn_total_work x =? bn_total_work (top_header c) + toy_work) &&
  (0 <=? bn_total_work x) && (bn_total_work x <? 2 ^ 256) &&
  (bh_bits (bn_header x) =? 0x1d00ffff).

Lemma extend_wf c x : chain_wf c → extends c x = true → chain_wf (extend c x).
Proof.
  intros Hwf He. unfold extends in He. rewrite !andb_true_iff in He.
  destruct He as ((((((((H1 & H2) & H3) & H4) & H5) & H6) & H7) & H8) & H9).
  apply bool_decide_eq_true in H1, H3, H5. apply negb_true_iff, bool_decide_eq_false in H2.
  apply Z.eqb_eq in H4, H6, H9. apply Z.leb_le in H7. apply Z.ltb_lt in H8.
  destruct (get_work (bn_header x)) as [w| | |] eqn:Hw; try done. apply Z.eqb_eq in H5 as ->.
  assert (0 <= toy_work) by (vm_compute; discriminate).
  refine (chain_wf_insert c x _ toy_work x _ _ Hwf H1 H2 H3 H4 Hw H6 (conj H7 H8) _ _ _ _); [| |lia|lia].
  - unfold bits_ok. rewrite H9.
    split; [unfold in_u32; lia|vm_compute; discriminate].
  - exists x. simpl. by rewrite lookup_insert_eq.
Qed.

Lemma extend_index c x : chain_wf c → chain_index c → extends c x = true → chain_index (extend c x).
Proof.
  intros Hwf Hix He. pose proof (extend_wf c x Hwf He) as Hwf'. unfold extends in He.
  rewrite !andb_true_iff in He. destruct He as ((((((((H1 & _) & H3) & H4) & _) & _) & _) & _) & _).
  apply bool_decide_eq_true in H1, H3. apply Z.eqb_eq in H4.
  apply (chain_index_extend c x (<[ bn_hash x := x ]> (known_headers c))); try done.
  by apply insert_subseteq.
Qed.

Lemma chain2_wf : chain_wf chain2.
Proof.
  apply extend_wf; [apply extend_wf; [apply chain0_ok|]|]; vm_compute; reflexivity.
Qed.

Lemma chain2_small : enough chain2 10 ∧ chain_fits chain2.
Proof. split; vm_compute; [repeat constructor|discriminate]. Qed.
End ToyChain.

(** * The properties *)

(** [get_ancestor] of a header of a well-formed chain is the one
    ancestor with the asked number, or the header itself for a larger one; and
    the child of a header must have the header's own [bits], except at the end
    of a period of 2016 headers, where they are the retargeted ones for the first
    header of that period. *)
Theorem ancestor_and_next_bits `{Sha256, U256Lib} c fuel x height :
  chain_wf c → chain_fits c → enough c fuel → in_chain c x → 0 <= height →
  (∃ a, get_ancestor c fuel x height = Finished (Ok (Some a)) ∧ a ∈ ancestors c x ∧
     bn_number a = Z.min height (bn_number x)) ∧
  (if decide ((bn_number x + 1) mod DIFFICULTY_ADJUSTMENT_INTERVAL = 0) then
     ∃ first b, first ∈ ancestors c x ∧
       bn_number first = bn_number x + 1 - DIFFICULTY_ADJUSTMENT_INTERVAL ∧
       calculate_next_work_required (bn_timestamp x) (bn_timestamp first) (bh_bits (bn_header x)) = Ok b ∧
       get_next_bits_required c fuel x = Finished (Ok b)
   else get_next_bits_required c fuel x = Finished (Ok (bh_bits (bn_header x)))).
Proof.
  intros Hwf Hs Hf Hx Hh. split.
  - destruct (Z.le_gt_cases height (bn_number x)).
    + destruct (get_ancestor_at c fuel Hwf Hf x height) as (a & Ha & Hl & Hn & _); [done..|].
      exists a. split_and!; [done| |lia]. by eapply list_elem_of_lookup_2.
    + exists x. rewrite get_ancestor_above by (done || lia). split_and!; [done| |lia].
      destruct (ancestors_head c x) as [l ->]. apply list_elem_of_here.
  - pose proof (get_next_bits_required_spec c fuel Hwf Hf x Hs Hx) as Hb. case_decide; [|done].
    destruct Hb as (first & Hl & Hb). destruct (ancestors_lookup c x _ _ Hwf Hx Hl) as (_ & Hn & _).
    destruct (get_next_bits_required_Ok c fuel Hwf Hf x Hs Hx) as (b & Hb' & _).
    rewrite Hb in Hb'. injection Hb' as Hb'. exists first, b.
    split_and!; [by eapply list_elem_of_lookup_2| |done|by rewrite Hb, Hb'].
    change DIFFICULTY_ADJUSTMENT_INTERVAL with 2016 in *. lia.
Qed.

(** The walks down from the top header agree: each gives the first
    ancestor with a body, and the count of downloaded blocks is one more than
    its number, or 0 when there is none. *)
Theorem downloaded_walks `{Sha256, U256Lib} c fuel :
  chain_wf c → chain_fits c → enough c fuel →
  let found := List.find bn_fetched_full (ancestors c (top_header c)) in
  calculate_downloaded_blocks c fuel
    = Finished (Ok (match found with Some a => bn_number a + 1 | None => 0 end)) ∧
  get_top_downloaded_block_hash c fuel = Finished (Ok (bh_hash ∘ bn_header <$> found)) ∧
  get_top_synced_header_hash c fuel = Finished (Ok (bh_hash ∘ bn_header <$> found)) ∧
  get_top_synced_header_number c fuel
    = Finished (Ok (match found with Some a => bn_number a | None => 0 end)).
Proof.
  intros Hwf Hs Hf found. split_and!.
  - by apply calculate_downloaded_blocks_spec.
  - by apply get_top_downloaded_block_hash_spec.
  - by apply get_top_synced_header_hash_spec.
  - by apply get_top_synced_header_number_spec.
Qed.

(** C36. [generate_top_work_chain_hashset] terminates on a well-formed
    chain; afterwards the set holds exactly the hashes of the ancestors of the
    top header and the map takes each number to the one ancestor that has it. *)
Theorem generate_indexes_main_chain `{Sha256, U256Lib} c fuel :
  chain_wf c → enough c fuel →
  ∃ c', generate_top_work_chain_hashset c fuel = Finished (Ok c') ∧
    top_header c' = top_header c ∧ known_headers c' = known_headers c ∧
    (∀ h, h ∈ most_work_chain c' ↔ ∃ a, a ∈ ancestors c (top_header c) ∧ bn_hash a = h) ∧
    (∀ n h, number_to_hash c' !! n = Some h ↔
       ∃ a, a ∈ ancestors c (top_header c) ∧ bn_number a = n ∧ bn_hash a = h).
Proof.
  intros Hwf Hf. destruct (generate_top_work_chain_hashset_Ok c fuel Hwf Hf) as (c' & Hc & Ht & Hk & Hi).
  exists c'. unfold chain_index, ancestors in Hi. rewrite Ht, Hk in Hi. by destruct Hi.
Qed.

(** The block locator starts at the top header, ends at the root,
    takes the ten newest headers one by one and then doubles the distance with
    every entry; it has at most [11 + log2 n] entries. Building it terminates
    and does not panic. *)
Theorem locator_shape `{Sha256, U256Lib} c fuel :
  chain_wf c → chain_fits c → enough c fuel →
  ∃ xs, build_get_headers c fuel
      = Finished (Ok (SendGetHeaders (mkGetHeaders 70016 (map (λ x, bn_hash x) xs) EMPTY_HASH))) ∧
    (∀ x, x ∈ xs → x ∈ ancestors c (top_header c)) ∧
    (∀ i x, xs !! i = Some x →
       bn_number x = Z.max 0 (bn_number (top_header c) -
                              (if (i <? 10)%nat then Z.of_nat i else 7 + 2 ^ (Z.of_nat i - 8)))) ∧
    head xs = Some (top_header c) ∧ (∃ x, last xs = Some x ∧ bn_number x = 0) ∧
    Z.of_nat (length xs) <= 11 + Z.log2 (bn_number (top_header c)).
Proof.
  intros Hwf Hs Hf. destruct (build_get_headers_spec c fuel Hwf Hf Hs) as (xs & Hb & Hlo & Hl & Hp).
  exists xs. split_and!; [done|apply Hlo..|done|].
  pose proof (Z.log2_nonneg (bn_number (top_header c))).
  destruct xs as [|x [|y l]]; [simpl; lia..|]. set (xs := x :: y :: l) in *.
  destruct (lookup_lt_is_Some_2 xs (length xs - 2)) as [z Hz]; [simpl; lia|].
  pose proof (Hp _ _ Hz ltac:(simpl; lia)) as Hzp.
  pose proof (locator_not_clipped c z _ (lo_number _ _ Hlo _ _ Hz) Hzp).
  assert (Z.of_nat (length xs - 2) <= 9 + Z.log2 (bn_number (top_header c)))
    by (apply locator_distance_log; lia).
  lia.
Qed.

(** The answer to [getheaders]: the first locator entry on the main
    chain decides it. The headers sent are those numbered from the matched one on,
    at most 2000 of them, up to the stop hash; the matched header itself is sent
    and the top header never is. *)
Theorem getheaders_response `{Sha256, U256Lib} c locator stop :
  chain_wf c → chain_fits c → chain_index c →
  respond_to_getheaders c locator stop
  = Ok (match List.find (λ h, bool_decide (h ∈ most_work_chain c)) locator with
        | None => None
        | Some h =>
            match known_headers c !! h with
            | None => None
            | Some x =>
                let top := bn_number (top_header c) in
                if bn_number x =? top then None
                else Some (map bn_header (take_while (λ a, negb (bool_decide (bn_hash a = stop)))
                       (take (Z.to_nat (Z.min 2000 (top - bn_number x)))
                          (drop (Z.to_nat (bn_number x)) (main_chain c)))))
            end
        end).
Proof.
  intros Hwf Hs Hix. unfold respond_to_getheaders. case_bool_decide as Hl; [by rewrite Hl|].
  destruct (List.find _ locator) as [h|] eqn:E; [|done].
  apply List.find_some in E as [_ E]. apply bool_decide_eq_true in E.
  pose proof (wf_top c Hwf) as Ht. pose proof (number_small c Hwf _ Hs Ht) as Htn.
  pose proof (length_main_chain c Hwf) as Hlen.
  apply Hix in E as (a & Ha & <-). destruct (elem_of_ancestors c _ a Hwf Ht Ha) as [Hia Han].
  destruct Hia as (x & Hx & _ & Hn & _). rewrite Hx. cbn [expect mbind outcome_bind]. rewrite Hn.
  rewrite wrap64_small by mlia.
  destruct (Z.eqb_spec (bn_number (top_header c) - bn_number a) 0) as [He|He].
  { by rewrite (proj2 (Z.eqb_eq _ _)) by lia. }
  rewrite (proj2 (Z.eqb_neq (bn_number a) _)) by lia. cbv zeta.
  replace (if 2000 <? _ then _ else _) with (Z.min 2000 (bn_number (top_header c) - bn_number a))
    by (case_match; rewrite ?Z.ltb_lt, ?Z.ltb_ge in *; lia).
  rewrite <- (Z2Nat.id (bn_number a)) at 1 by lia. rewrite headers_from_spec by (done || lia). done.
Qed.

(** With [DOWNLOADED_BLOCKS] up to date, the blocks to download are
    exactly the headers of the main chain from that number on, lowest first, and
    there are none when the top header has its body. *)
Theorem missing_blocks `{Sha256, U256Lib} c fuel downloaded :
  chain_wf c → chain_fits c → enough c fuel →
  calculate_downloaded_blocks c fuel = Finished (Ok downloaded) →
  get_block_hashes_to_download c downloaded fuel
  = Finished (Ok (if bn_number (top_header c) <? downloaded then None
                  else Some (map (λ a, bn_hash a) (drop (Z.to_nat downloaded) (main_chain c)),
                             downloaded))).
Proof. intros Hwf Hs Hf Hd. by apply get_block_hashes_to_download_spec. Qed.

(** [get_parents] gives the hashes of the nearest ancestors, the
    parent first, and all of them when there are fewer than the limit. *)
Theorem parents_are_ancestors `{Sha256, U256Lib} c fuel h x limit :
  chain_wf c → enough c fuel → known_headers c !! h = Some x →
  get_parents c fuel h limit
  = Finished (Ok (take (Z.to_nat limit) (tail (map (λ a, bn_hash a) (ancestors c x))))).
Proof. intros Hwf Hf. by apply get_parents_spec. Qed.

(** * The properties at the chain of three headers *)

Import Toy.
Import ToyChain.

Lemma ancestor_and_next_bits_witness :
  (∃ a, get_ancestor chain2 10 (top_header chain2) 1 = Finished (Ok (Some a)) ∧
     a ∈ ancestors chain2 (top_header chain2) ∧ bn_number a = 1) ∧
  get_next_bits_required chain2 10 (top_header chain2) = Finished (Ok 0x1d00ffff).
Proof.
  destruct chain2_small as [Hf Hs].
  destruct (ancestor_and_next_bits chain2 10 (top_header chain2) 1 chain2_wf Hs Hf
    (wf_top _ chain2_wf) ltac:(lia)) as [H1 H2].
  split; [exact H1|].
  destruct (decide _) as [Hd|_] in H2; [exfalso; vm_compute in Hd; discriminate Hd|exact H2].
Defined.

Lemma downloaded_walks_witness :
  calculate_downloaded_blocks chain2 10 = Finished (Ok 0) ∧
  get_top_synced_header_hash chain2 10 = Finished (Ok None).
Proof.
  destruct chain2_small as [Hf Hs].
  destruct (downloaded_walks chain2 10 chain2_wf Hs Hf) as (H1 & _ & H3 & _).
  rewrite H1, H3. split; vm_compute; reflexivity.
Defined.

Lemma generate_indexes_main_chain_witness :
  ∃ c', generate_top_work_chain_hashset chain2 10 = Finished (Ok c') ∧
    bn_hash (top_header chain2) ∈ most_work_chain c'.
Proof.
  destruct (generate_indexes_main_chain chain2 10 chain2_wf (proj1 chain2_small))
    as (c' & Hc & _ & _ & Hs & _).
  exists c'. split; [exact Hc|]. apply Hs. exists (top_header chain2). split; [|reflexivity].
  destruct (ancestors_head chain2 (top_header chain2)) as [l Hl]. rewrite Hl. apply list_elem_of_here.
Defined.

Lemma locator_shape_witness :
  ∃ xs, build_get_headers chain2 10
      = Finished (Ok (SendGetHeaders (mkGetHeaders 70016 (map (λ x, bn_hash x) xs) EMPTY_HASH))) ∧
    head xs = Some (top_header chain2).
Proof.
  destruct chain2_small as [Hf Hs].
  destruct (locator_shape chain2 10 chain2_wf Hs Hf) as (xs & Hb & _ & _ & Hh & _).
  exists xs. exact (conj Hb Hh).
Defined.

Lemma chain2_index : chain_index chain2.
Proof.
  destruct chain0_ok as [Hwf Hix].
  assert (extends chain0 (top_header chain1) = true) as H1 by (vm_compute; reflexivity).
  assert (extends chain1 (top_header chain2) = true) as H2 by (vm_compute; reflexivity).
  exact (extend_index _ _ (extend_wf _ _ Hwf H1) (extend_index _ _ Hwf Hix H1) H2).
Qed.

Lemma getheaders_response_witness :
  ∃ h, respond_to_getheaders chain2 [bn_hash (top_header chain1)] EMPTY_HASH = Ok (Some [h]) ∧
    h = bn_header (top_header chain1).
Proof.
  exists (bn_header (top_header chain1)). split; [|reflexivity].
  rewrite (getheaders_response chain2 _ _ chain2_wf (proj2 chain2_small) chain2_index).
  vm_compute. reflexivity.
Defined.

Lemma missing_blocks_witness :
  get_block_hashes_to_download chain2 0 10
  = Finished (Ok (Some (map (λ a, bn_hash a)
      [top_header chain0; top_header chain1; top_header chain2], 0))).
Proof.
  rewrite (missing_blocks chain2 10 0 chain2_wf (proj2 chain2_small) (proj1 chain2_small)).
  - vm_compute. reflexivity.
  - vm_compute. reflexivity.
Defined.

Lemma parents_are_ancestors_witness :
  get_parents chain2 10 (bn_hash (top_header chain2)) 1 = Finished (Ok [bn_hash (top_header chain1)]).
Proof.
  rewrite (parents_are_ancestors chain2 10 _ (top_header chain2) 1 chain2_wf (proj1 chain2_small)).
  - vm_compute. reflexivity.
  - vm_compute. reflexivity.
Defined.
