(* ===== verification/ChainMan.v ===== *)
(** [src/chainman/mod.rs] and [src/chainman/headersync.rs]: the application of
    headers to the chain, forks, the bookkeeping of downloaded blocks and the
    handling of packets during the header sync. *)
From S2P Require Import Prelude.
From S2P Require Import Extern.
From S2P Require Import Pow.
From S2P Require Import Arena.
From S2P Require Import Wire.
From S2P Require Import Header.
From S2P Require Import Messages.
From S2P Require Import Payload.
From S2P Require Import Loops.
From S2P Require Import Chain.

(** The statics of the module, with the metrics, and the calls of
    [db::sqlite::insert_header] that were spawned so far. *)
Record ChainMan := mkChainMan {
  CHAIN : Chain;
  DOWNLOADED_BLOCKS : Z;
  METRIC_TOP_HEADER_HEIGHT : Z;
  METRIC_FULL_BLOCKS_DOWNLOADED : Z;
  inserted_headers : list BlockHeaderWithNumber;
}.

Definition set_CHAIN (s : ChainMan) (c : Chain) : ChainMan :=
  mkChainMan c (DOWNLOADED_BLOCKS s) (METRIC_TOP_HEADER_HEIGHT s)
    (METRIC_FULL_BLOCKS_DOWNLOADED s) (inserted_headers s).

Definition set_top_height (s : ChainMan) (number : Z) : ChainMan :=
  mkChainMan (CHAIN s) (DOWNLOADED_BLOCKS s) (as_i64 number)
    (METRIC_FULL_BLOCKS_DOWNLOADED s) (inserted_headers s).

Definition insert_header (s : ChainMan) (x : BlockHeaderWithNumber) : ChainMan :=
  mkChainMan (CHAIN s) (DOWNLOADED_BLOCKS s) (METRIC_TOP_HEADER_HEIGHT s)
    (METRIC_FULL_BLOCKS_DOWNLOADED s) (inserted_headers s ++ [x]).

(** [DOWNLOADED_BLOCKS.store(count)] and the metric that goes with it. *)
Definition store_downloaded (s : ChainMan) (count : Z) : ChainMan :=
  mkChainMan (CHAIN s) count (METRIC_TOP_HEADER_HEIGHT s) (as_i64 count) (inserted_headers s).

Section chainman.
Context `{Sha256, U256Lib}.

(** The block of the main chain with the number of the parent, and the blocks
    above it. *)
Definition find_same_height (c : Chain) (fuel : nat) (parent_number : Z)
    (visited_old : list (hash * Z)) : comp (hash * Z * list (hash * Z)) :=
  loop (λ '(last, last_number, visited_old),
    header ← Finished (known c last);
    mret (if bn_number header =? parent_number then inr (last, last_number, visited_old)
          else inl (bn_parent header, last_number -! 1,
                    visited_old ++ [(bn_hash header, bn_number header)])))
    fuel (bn_hash (top_header c), bn_number (top_header c), visited_old).

(** Back along both branches until they match. *)
Definition step_back (c : Chain) (fuel : nat) (from_new_hash : hash) (from_new_number : Z)
    (from_old_hash : hash) (from_old_number : Z) (visited_new visited_old : list (hash * Z)) :
    comp (list (hash * Z) * list (hash * Z)) :=
  loop (λ '(from_new_hash, from_new_number, from_old_hash, from_old_number, visited_new, visited_old),
    if bool_decide (from_new_hash = from_old_hash) then mret (inr (visited_new, visited_old))
    else
      let visited_new := visited_new ++ [(from_new_hash, from_new_number)] in
      let visited_old := visited_old ++ [(from_old_hash, from_old_number)] in
      old ← Finished (known c from_old_hash);
      new ← Finished (known c from_new_hash);
      mret (inl (bn_parent new, from_new_number -! 1, bn_parent old, from_old_number -! 1,
                 visited_new, visited_old)))
    fuel (from_new_hash, from_new_number, from_old_hash, from_old_number, visited_new, visited_old).

Definition validate_and_apply_header_inner (s : ChainMan) (fuel : nat) (header : BlockHeader)
    (is_headersync : bool) : comp (ChainMan * result (option HeaderApplicationResult)) :=
  let w := CHAIN s in
  if bool_decide (is_Some (known_headers w !! bh_hash header)) then mret (s, inr None)
  else
  match known_headers w !! bh_parent header with
  | None => mret (s, inl "dont have the parent"%string)
  | Some parent =>
      expected_bits ← get_next_bits_required w fuel parent;
      if negb (expected_bits =? bh_bits header)
      then mret (s, inl "invalid difficulty transition"%string)
      else
      work ← Finished (get_work header);
      new_total_work ← Finished (u256_add (bn_total_work parent) work);
      let new_header :=
        mkBlockHeaderWithNumber header (bn_number parent +! 1) false new_total_work None in
      let parent_number := bn_number parent in
      let w := set_known_headers w (<[ bn_hash new_header := new_header ]> (known_headers w)) in
      let s := insert_header (set_CHAIN s w) new_header in
      if new_total_work <? bn_total_work (top_header w) then mret (s, inr None)
      else
      let s := set_top_height s (bn_number new_header) in
      if is_headersync then mret (set_CHAIN s (set_top_header w new_header), inr None)
      else if bool_decide (bn_parent new_header = bn_hash (top_header w)) then
        mret (set_CHAIN s (set_top_header w new_header),
              inr (Some (mkHeaderApplicationResult [] [(bn_hash new_header, bn_number new_header)])))
      else
        let visited_new := [(bn_hash new_header, bn_number new_header)] in
        let visited_old := [(bn_hash (top_header w), bn_number (top_header w))] in
        '(from_old_hash, from_old_number, visited_old) ←
          find_same_height w fuel parent_number visited_old;
        '(visited_new, visited_old) ←
          step_back w fuel (bn_parent new_header) (bn_number new_header) from_old_hash
            from_old_number visited_new visited_old;
        let w := set_top_header w new_header in
        new_count ← calculate_downloaded_blocks w fuel;
        mret (store_downloaded (set_CHAIN s w) new_count,
              inr (Some (mkHeaderApplicationResult visited_old (rev visited_new))))
  end.

Fixpoint validate_and_apply_headers (s : ChainMan) (fuel : nat) (headers : list BlockHeader) :
    comp (ChainMan * result unit) :=
  match headers with
  | [] => mret (s, inr tt)
  | header :: headers =>
      '(s, r) ← validate_and_apply_header_inner s fuel header true;
      match r with
      | inl e => mret (s, inl e)
      | inr _ => validate_and_apply_headers s fuel headers
      end
  end.

(** [headers] is the result of [db::sqlite::get_all_headers]. *)
Definition load_headers_from_sqlite (s : ChainMan) (fuel : nat)
    (headers : list BlockHeaderWithNumber) : comp ChainMan :=
  let s := foldl (λ s new_header,
      let w := CHAIN s in
      let '(s, w) :=
        if bn_total_work (top_header w) <? bn_total_work new_header
        then (set_top_height s (bn_number new_header), set_top_header w new_header) else (s, w) in
      set_CHAIN s (set_known_headers w (<[ bn_hash new_header := new_header ]> (known_headers w))))
    s headers in
  w ← generate_top_work_chain_hashset (CHAIN s) fuel;
  count ← calculate_downloaded_blocks w fuel;
  mret (store_downloaded (set_CHAIN s w) count).

Definition mark_downloaded (x : BlockHeaderWithNumber) (coinbase_ascii : bytes) :
    BlockHeaderWithNumber :=
  mkBlockHeaderWithNumber (bn_header x) (bn_number x) true (bn_total_work x)
    (Some (from_utf8_lossy coinbase_ascii)).

Definition set_fetched_full (x : BlockHeaderWithNumber) (b : bool) : BlockHeaderWithNumber :=
  mkBlockHeaderWithNumber (bn_header x) (bn_number x) b (bn_total_work x) (bn_coinbase_ascii x).

Definition mark_as_downloaded (s : ChainMan) (fuel : nat) (blocks : list hash)
    (coinbase_asciis : list bytes) : comp ChainMan :=
  let w := CHAIN s in
  m ← Finished (for_each (λ m '(block, coinbase_ascii),
        h ← expect ((m : headers_map) !! block) "the header to be present in known_headers";
        Ok (<[ block := mark_downloaded h coinbase_ascii ]> m))
      (zip blocks coinbase_asciis) (known_headers w));
  let w := set_known_headers w m in
  top ← Finished (known w (bn_hash (top_header w)));
  let w := set_top_header w (set_fetched_full (top_header w) (bn_fetched_full top)) in
  new_downloaded_blocks ← calculate_downloaded_blocks w fuel;
  mret (store_downloaded (set_CHAIN s w) new_downloaded_blocks).

(** The part of [start] after the header sync. *)
Definition after_header_sync (s : ChainMan) (fuel : nat) : comp ChainMan :=
  new_count ← calculate_downloaded_blocks (CHAIN s) fuel;
  w ← generate_top_work_chain_hashset (CHAIN s) fuel;
  mret (set_CHAIN (store_downloaded s new_count) w).

(** ** [headersync.rs]

    [now] is the system clock when [need_ihd] reads it; the state of the loop
    of [sync_headers] is whether to break and whether the deadline was renewed. *)
Definition handle_packet_during_headersync (s : ChainMan) (fuel : nat) (now : Z)
    (packet : ReceivedPayload) (need_break : bool) :
    comp (ChainMan * bool * bool * option (list PayloadToSend)) :=
  match packet with
  | RecvHeaders headers =>
      if bool_decide (headers_inner headers = []) then mret (s, true, false, None)
      else
        '(s, r) ← validate_and_apply_headers s fuel (headers_inner headers);
        match r with
        | inl _ => mret (s, true, false, None)
        | inr _ =>
            if need_ihd (CHAIN s) now then
              last ← Finished (expect (last (headers_inner headers))
                "called `Option::unwrap()` on a `None` value");
              mret (s, need_break, true,
                Some [SendGetHeaders (mkGetHeaders 70016 [bh_hash last] EMPTY_HASH)])
            else mret (s, true, true, None)
        end
  | _ => mret (s, need_break, false, None)
  end.
End chainman.

(** * Lemmas on forks *)

(** The entry of a header in the lists of applied and removed blocks. *)
Definition entry (x : BlockHeaderWithNumber) : hash * Z := (bn_hash x, bn_number x).

Section fork.
Context `{Sha256, U256Lib} (c : Chain).
Context (Hwf : chain_wf c).

Definition entries (x : BlockHeaderWithNumber) : list (hash * Z) := map entry (ancestors c x).

Lemma entries_cons x p :
  in_chain c p → bn_number x = bn_number p + 1 → known_headers c !! bn_parent x = Some p →
  entries x = entry x :: entries p.
Proof.
  intros Hp Hn Hl. unfold entries. pose proof (in_chain_number c p Hwf Hp).
  by rewrite (ancestors_cons c x p) by (done || lia).
Qed.

Lemma entries_nonempty x : entries x ≠ [].
Proof. unfold entries. by destruct (ancestors_head c x) as [l ->]. Qed.

(** The ancestors of a header are determined by its hash. *)
Lemma entries_hash x y :
  in_chain c x → in_chain c y → bn_hash x = bn_hash y → entries x = entries y.
Proof.
  intros Hx Hy Hh. pose proof (in_chain_hash_inj c x y Hx Hy Hh) as Hn.
  assert (bn_header x = bn_header y) as Hhd.
  { destruct Hx as (x' & Hx & <- & _), Hy as (y' & Hy & <- & _). rewrite Hh in Hx. congruence. }
  unfold entries, ancestors. rewrite <- Hn.
  destruct (Z.to_nat (bn_number x)); simpl; unfold entry; by rewrite Hn, Hhd.
Qed.

Lemma entries_number x e : in_chain c x → e ∈ entries x → 0 <= e.2 <= bn_number x.
Proof.
  intros Hx [a [-> Ha]]%list_elem_of_fmap. by apply (elem_of_ancestors c x a).
Qed.

Lemma known_parent x p : in_chain c x → known_headers c !! bn_parent x = Some p →
  ∃ x', known c (bn_hash x) = Ok x' ∧ bn_parent x' = bn_parent x ∧ bn_number x' = bn_number x ∧
    bn_header x' = bn_header x.
Proof.
  intros (y & Hy & Hh & Hn & _) _. exists y. rewrite (known_Some c _ y), Hh by done.
  split_and!; (done || congruence).
Qed.

Lemma find_loop n x :
  0 <= n → in_chain c x → ∀ fuel v, n <= bn_number x → bn_number x <= isize_max →
  (Z.to_nat (bn_number x) < fuel)%nat →
  ∃ a, in_chain c a ∧ bn_number a = n ∧
    entries x = take (Z.to_nat (bn_number x - n)) (entries x) ++ entries a ∧
    loop (λ '(last, last_number, visited_old),
      header ← Finished (known c last);
      mret (if bn_number header =? n then inr (last, last_number, visited_old)
            else inl (bn_parent header, last_number -! 1,
                      visited_old ++ [(bn_hash header, bn_number header)])))
      fuel (bn_hash x, bn_number x, v)
    = Finished (Ok (bn_hash a, n, v ++ take (Z.to_nat (bn_number x - n)) (entries x))).
Proof.
  intros Hn0. revert x. refine (in_chain_ind c _ Hwf _ _).
  - intros x Hx Hz Ha fuel v Hn Hmax Hf. destruct fuel as [|fuel]; [lia|]. exists x.
    assert (n = 0) as -> by lia. rewrite Hz. simpl. split_and!; [done..|].
    destruct (known_header c x Hx) as (y & Hy & _ & Hny). rewrite Hy. simpl.
    rewrite Hny, Hz. simpl. by rewrite app_nil_r.
  - intros x p Hx Hp Hlp Hhp Hnp Ha IH fuel v Hn Hmax Hf. destruct fuel as [|fuel]; [lia|].
    pose proof (in_chain_number c p Hwf Hp).
    destruct (known_parent x p Hx Hlp) as (y & Hy & Hpy & Hny & Hhy).
    destruct (Z.eqb_spec (bn_number y) n) as [He|He]; rewrite Hny in He.
    + exists x. rewrite He, Z.sub_diag. split_and!; [done..|]. apply loop_inr. rewrite Hy. simpl.
      rewrite Hny, He, Z.eqb_refl. by rewrite app_nil_r.
    + destruct (IH fuel (v ++ [(bn_hash x, bn_number x)])) as (a & Hia & Hna & Hta & Hl); [lia..|].
      exists a. rewrite (entries_cons x p) by done.
      replace (Z.to_nat (bn_number x - n)) with (S (Z.to_nat (bn_number p - n))) by lia.
      cbn [take app]. split_and!; [done..|by f_equal|].
      erewrite loop_inl; [rewrite Hl, <- app_assoc; done|]. rewrite Hy. simpl.
      rewrite Hny, (proj2 (Z.eqb_neq _ _)), Hpy, <- Hhp, Hhy by done.
      by replace (bn_number x -! 1) with (bn_number p) by (rewrite wrap64_small by mlia; lia).
Qed.

(** There is no block of a larger number: the walk runs past the root. *)
Lemma find_loop_panics n x :
  in_chain c x → ∀ fuel v, bn_number x < n → bn_number x <= isize_max →
  (Z.to_nat (bn_number x) + 1 < fuel)%nat →
  ∃ m, loop (λ '(last, last_number, visited_old),
      header ← Finished (known c last);
      mret (if bn_number header =? n then inr (last, last_number, visited_old)
            else inl (bn_parent header, last_number -! 1,
                      visited_old ++ [(bn_hash header, bn_number header)])))
      fuel (bn_hash x, bn_number x, v)
    = Finished (Panic (A := hash * Z * list (hash * Z)) m).
Proof.
  revert x. refine (in_chain_ind c _ Hwf _ _).
  - intros x Hx Hz Ha fuel v Hn Hmx Hf. destruct fuel as [|[|fuel]]; [lia..|].
    destruct (known_header c x Hx) as (y & Hy & Hhy & Hny). eexists.
    erewrite loop_inl; [|rewrite Hy; simpl; by rewrite Hny, (proj2 (Z.eqb_neq _ _)) by lia].
    rewrite Hhy, (proj1 (in_chain_root c x Hwf Hx) Hz). cbn [loop].
    assert (known c EMPTY_HASH = Panic "called `Option::unwrap()` on a `None` value") as ->
      by (unfold known; by rewrite (wf_empty c Hwf)).
    reflexivity.
  - intros x p Hx Hp Hlp Hhp Hnp Ha IH fuel v Hn Hmx Hf. destruct fuel as [|fuel]; [lia|].
    pose proof (in_chain_number c p Hwf Hp).
    destruct (known_parent x p Hx Hlp) as (y & Hy & Hpy & Hny & Hhy).
    destruct (IH fuel (v ++ [entry x])) as [m Hm]; [lia..|]. exists m.
    erewrite loop_inl; [exact Hm|]. rewrite Hy. simpl.
    rewrite Hny, (proj2 (Z.eqb_neq _ _)), Hpy, <- Hhp, Hhy by lia.
    by replace (bn_number x -! 1) with (bn_number p)
      by (rewrite wrap64_small by mlia; lia).
Qed.

(** The walk back from two headers with the same number to where their
    branches meet. *)
Lemma step_back_loop x :
  in_chain c x → ∀ fuel y nx vn vo,
  in_chain c y → bn_number x = bn_number y → bn_number x <= isize_max →
  bn_number x <= nx <= isize_max → (Z.to_nat (bn_number x) < fuel)%nat →
  ∃ A B C, entries x = A ++ C ∧ entries y = B ++ C ∧ C ≠ [] ∧ (∀ e, e ∈ A → e ∉ entries y) ∧
    step_back c fuel (bn_hash x) nx (bn_hash y) (bn_number y) vn vo
    = Finished (Ok (vn ++ map (λ e, (e.1, e.2 + (nx - bn_number x))) A, vo ++ B)).
Proof.
  revert x. refine (in_chain_ind c _ Hwf _ _).
  - intros x Hx Hz Ha fuel y nx vn vo Hy Hny Hmx Hnx Hf. destruct fuel as [|fuel]; [lia|].
    assert (bn_hash x = bn_hash y) as Hh.
    { destruct Hx as (x' & Hx & _ & Hnx' & _), Hy as (y' & Hy & _ & Hny' & _).
      eapply (wf_one_root c Hwf); eauto; lia. }
    exists [], [], (entries x). rewrite (entries_hash y x) by done.
    split_and!; [done..|apply entries_nonempty|by intros e ?%elem_of_nil|]. unfold step_back. cbn [loop].
    rewrite bool_decide_true by done. simpl. by rewrite !app_nil_r.
  - intros x p Hx Hp Hlp Hhp Hnp Ha IH fuel y nx vn vo Hy Hny Hmx Hnx Hf.
    destruct fuel as [|fuel]; [lia|]. pose proof (in_chain_number c p Hwf Hp).
    destruct (decide (bn_hash x = bn_hash y)) as [Hh|Hh].
    { exists [], [], (entries x). rewrite (entries_hash y x) by done.
      split_and!; [done..|apply entries_nonempty|by intros e ?%elem_of_nil|]. apply loop_inr.
      rewrite bool_decide_true by done. simpl. by rewrite !app_nil_r. }
    destruct (in_chain_parent c y Hwf Hy) as (q & Hlq & Hq & Hnq & Hhq); [lia|].
    destruct (known_parent x p Hx Hlp) as (x' & Hx' & Hpx & _).
    destruct (known_parent y q Hy Hlq) as (y' & Hy' & Hpy & _).
    destruct (IH fuel q (nx - 1) (vn ++ [(bn_hash x, nx)]) (vo ++ [(bn_hash y, bn_number y)]))
      as (A & B & C & HA & HB & HC & Hd & Hl); [done|lia..|].
    exists (entry x :: A), (entry y :: B), C.
    rewrite (entries_cons x p), (entries_cons y q), HA, HB by done. split_and!; [done..| |].
    + intros e He He'. rewrite <- HB in He'. apply elem_of_cons in He as [-> |He], He' as [He'|He'].
      * injection He'. intros _ E. by apply Hh.
      * apply entries_number in He'; [|done]. simpl in He'. lia.
      * subst e. assert (entry y ∈ entries p) as Hin by (rewrite HA; by apply elem_of_app; left).
        apply entries_number in Hin; [|done]. simpl in Hin. lia.
      * by apply (Hd e).
    + unfold step_back in Hl |- *.
      erewrite loop_inl; [rewrite Hl|].
      * simpl. rewrite <- !app_assoc. unfold entry.
        replace (bn_number x + (nx - bn_number x)) with nx by lia.
        by replace (nx - 1 - bn_number p) with (nx - bn_number x) by lia.
      * rewrite bool_decide_false by done. rewrite Hx', Hy'. simpl.
        rewrite Hpx, Hpy, <- Hhp, <- Hhq.
        rewrite (wrap64_small (nx - 1)), (wrap64_small (bn_number y - 1)) by mlia.
        by replace (bn_number y - 1) with (bn_number q) by lia.
Qed.
End fork.

(** * Lemmas on the application of a header *)

Section apply.
Context `{Sha256, U256Lib}.

(** What the reader of headers guarantees, and that the hash is not the one
    that stands for no parent. *)
Definition acceptable (h : BlockHeader) : Prop :=
  hash_ok (bh_hash h) ∧ is_valid h = true ∧ bh_hash h ≠ EMPTY_HASH.

(** The work of a header, as the chain adds it up. *)
Definition work_of (h : BlockHeader) : Z := 2 ^ 256 / (u256_from_compact (bh_bits h) + 1).

Definition new_header (p : BlockHeaderWithNumber) (h : BlockHeader) : BlockHeaderWithNumber :=
  mkBlockHeaderWithNumber h (bn_number p + 1) false (bn_total_work p + work_of h) None.

(** The chain with the header added beside it. *)
Definition with_header (s : ChainMan) (x : BlockHeaderWithNumber) : ChainMan :=
  insert_header
    (set_CHAIN s (set_known_headers (CHAIN s) (<[ bn_hash x := x ]> (known_headers (CHAIN s))))) x.

(** The same chain with the header as the top header. *)
Definition with_top (s : ChainMan) (x : BlockHeaderWithNumber) : ChainMan :=
  let s := set_top_height (with_header s x) (bn_number x) in
  set_CHAIN s (set_top_header (CHAIN s) x).

(** The header extends a known header with the bits it must have, and the sum
    of the work does not overflow. *)
Record extends_chain (s : ChainMan) (fuel : nat) (h : BlockHeader) (p : BlockHeaderWithNumber) :
    Prop := {
  ec_ok : acceptable h;
  ec_new : known_headers (CHAIN s) !! bh_hash h = None;
  ec_parent : known_headers (CHAIN s) !! bh_parent h = Some p;
  ec_bits : get_next_bits_required (CHAIN s) fuel p = Finished (Ok (bh_bits h));
  ec_work : bn_total_work p + work_of h < 2 ^ 256;
}.

Record healthy (s : ChainMan) (fuel : nat) : Prop := {
  h_wf : chain_wf (CHAIN s);
  h_size : Z.of_nat (size (known_headers (CHAIN s))) < isize_max;
  h_fuel : (size (known_headers (CHAIN s)) < fuel)%nat;
}.

Lemma healthy_fits s fuel : healthy s fuel → chain_fits (CHAIN s) ∧ enough (CHAIN s) fuel.
Proof. intros Hh. split; red; [pose proof (h_size _ _ Hh)|pose proof (h_fuel _ _ Hh)]; lia. Qed.

Lemma acceptable_work s fuel h p :
  healthy s fuel → extends_chain s fuel h p →
  get_work h = Ok (work_of h) ∧ 0 < work_of h ∧ bits_ok h ∧ in_u256 (bn_total_work p).
Proof.
  intros Hh He. destruct (healthy_fits _ _ Hh) as [Hs Hf]. pose proof (h_wf _ _ Hh) as Hwf.
  destruct (get_next_bits_required_Ok (CHAIN s) fuel Hwf Hf p Hs) as (b & Hb & Hu & Hl).
  { eapply in_chain_known; [done|]. apply He. }
  rewrite (ec_bits _ _ _ _ He) in Hb. injection Hb as Hb. subst b.
  destruct (ec_ok _ _ _ _ He) as (Hok & Hv & _). unfold is_valid in Hv.
  rewrite u256_from_little_endian_spec in Hv by done. apply Z.ltb_lt in Hv.
  pose proof (from_le_range (bh_hash h)). pose proof (get_work_value h Hu) as Hw. cbv zeta in Hw.
  rewrite (proj2 (Z.eqb_neq _ _)) in Hw by lia. split; [done|].
  pose proof (u256_from_compact_not_max _ Hu).
  split; [|split; [by split|]].
  - unfold work_of. apply Z.div_str_pos. lia.
  - eapply (wf_work _ Hwf). apply He.
Qed.

Lemma apply_new s fuel h p is_headersync :
  healthy s fuel → extends_chain s fuel h p →
  let x := new_header p h in
  let top := top_header (CHAIN s) in
  let s1 := with_header s x in
  let w := CHAIN s1 in
  validate_and_apply_header_inner s fuel h is_headersync
  = if bn_total_work x <? bn_total_work top then Finished (Ok (s1, inr None))
    else if is_headersync then Finished (Ok (with_top s x, inr None))
    else if bool_decide (bh_parent h = bn_hash top) then
      Finished (Ok (with_top s x, inr (Some (mkHeaderApplicationResult [] [entry x]))))
    else
      '(from_old_hash, from_old_number, visited_old) ←
        find_same_height w fuel (bn_number p) [entry top];
      '(visited_new, visited_old) ←
        step_back w fuel (bh_parent h) (bn_number x) from_old_hash from_old_number [entry x] visited_old;
      new_count ← calculate_downloaded_blocks (CHAIN (with_top s x)) fuel;
      Finished (Ok (store_downloaded (with_top s x) new_count,
        inr (Some (mkHeaderApplicationResult visited_old (rev visited_new))))).
Proof.
  intros Hh He x top s1 w. destruct (acceptable_work s fuel h p Hh He) as (Hw & Hpos & Hb & Hu).
  pose proof (ec_work _ _ _ _ He). pose proof (h_size _ _ Hh).
  pose proof (wf_number _ (h_wf _ _ Hh) _ _ (ec_parent _ _ _ _ He)).
  unfold validate_and_apply_header_inner.
  rewrite (ec_new _ _ _ _ He), (ec_parent _ _ _ _ He), bool_decide_false
    by (by intros [? ?]).
  rewrite (ec_bits _ _ _ _ He). cbn [mbind comp_bind]. rewrite Z.eqb_refl, Hw. cbn [negb mbind comp_bind].
  rewrite u256_add_spec by (unfold in_u256 in *; lia). cbn [mbind comp_bind].
  rewrite wrap64_small by mlia. fold (new_header p h). fold x. reflexivity.
Qed.

Lemma with_header_wf s fuel h p :
  healthy s fuel → extends_chain s fuel h p →
  let x := new_header p h in
  (bn_total_work x <= bn_total_work (top_header (CHAIN s)) → chain_wf (CHAIN (with_header s x))) ∧
  (bn_total_work (top_header (CHAIN s)) <= bn_total_work x → chain_wf (CHAIN (with_top s x))).
Proof.
  intros Hh He x. destruct (acceptable_work s fuel h p Hh He) as (Hw & Hpos & Hb & Hu).
  pose proof (ec_work _ _ _ _ He). pose proof (h_wf _ _ Hh) as Hwf.
  destruct He as [(_ & _ & Hne) Hnew Hp Hbits _].
  assert (in_u256 (bn_total_work x)) by (unfold in_u256, x, new_header in *; simpl; lia).
  split; intros Hle.
  - eapply (chain_wf_insert_side (CHAIN s) x p (work_of h)); done.
  - eapply (chain_wf_insert_top (CHAIN s) x p (work_of h)); done.
Qed.

Lemma with_header_known s x :
  known_headers (CHAIN (with_header s x)) = <[ bn_hash x := x ]> (known_headers (CHAIN s)) ∧
  known_headers (CHAIN (with_top s x)) = <[ bn_hash x := x ]> (known_headers (CHAIN s)).
Proof. done. Qed.
End apply.

Section apply_fork.
Context `{Sha256, U256Lib} (s : ChainMan) (fuel : nat) (h : BlockHeader) (p : BlockHeaderWithNumber).
Context (Hh : healthy s fuel) (He : extends_chain s fuel h p).

Let c := CHAIN s.
Let top := top_header c.
Let x := new_header p h.
Let c' := CHAIN (with_top s x).

Lemma known_grows : known_headers c ⊆ known_headers c'.
Proof. apply insert_subseteq. apply He. Qed.

Lemma grown_fuel :
  (size (known_headers c') = S (size (known_headers c)))%nat ∧ chain_fits c' ∧ enough c' fuel.
Proof.
  assert (size (known_headers c') = S (size (known_headers c))) as Hsz
    by (apply map_size_insert_None; apply He).
  unfold chain_fits, enough. rewrite Hsz.
  pose proof (h_size _ _ Hh) as Hs. pose proof (h_fuel _ _ Hh) as Hf. unfold c. split_and!; lia.
Qed.

Lemma old_in_chain a : in_chain c a → in_chain c' a ∧ entries c' a = entries c a.
Proof.
  intros Ha. split; [by eapply in_chain_mono; [apply known_grows|]|].
  unfold entries. by rewrite (ancestors_mono c c' a (h_wf _ _ Hh) known_grows Ha).
Qed.

Lemma parent_in_chain : in_chain c p.
Proof. eapply in_chain_known; [apply (h_wf _ _ Hh)|apply He]. Qed.

Lemma new_entries : bn_total_work top <= bn_total_work x → entries c' x = entry x :: entries c p.
Proof.
  intros Hle. destruct (with_header_wf s fuel h p Hh He) as [_ Hwf]. specialize (Hwf Hle).
  destruct (old_in_chain p parent_in_chain) as [Hp <-].
  apply entries_cons; [done..|]. eapply lookup_weaken; [apply He|apply known_grows].
Qed.

Lemma apply_fork :
  bn_total_work top <= bn_total_work x → bh_parent h ≠ bn_hash top →
  bn_number p <= bn_number top →
  ∃ A B C count,
    entries c p = A ++ C ∧ entries c top = B ++ C ∧ C ≠ [] ∧ (∀ e, e ∈ A → e ∉ entries c top) ∧
    calculate_downloaded_blocks c' fuel = Finished (Ok count) ∧
    validate_and_apply_header_inner s fuel h false
    = Finished (Ok (store_downloaded (with_top s x) count,
        inr (Some (mkHeaderApplicationResult (entry top :: B)
                     (rev (entry x :: map (λ e, (e.1, e.2 + 1)) A)))))).
Proof.
  intros Hle Hne Hn. destruct (with_header_wf s fuel h p Hh He) as [_ Hwf]. specialize (Hwf Hle).
  fold x c' in Hwf. destruct grown_fuel as (Hsz & Hs' & Hf').
  destruct (old_in_chain p parent_in_chain) as [Hp Hpe].
  destruct (old_in_chain top (wf_top _ (h_wf _ _ Hh))) as [Ht Hte].
  pose proof (number_small c' Hwf p Hs' Hp). pose proof (number_small c' Hwf top Hs' Ht).
  pose proof (number_fuel c' fuel Hwf Hf' p Hp). pose proof (number_fuel c' fuel Hwf Hf' top Ht).
  assert (bn_hash p = bh_parent h) as Hph by (eapply (wf_key _ (h_wf _ _ Hh)); apply He).
  destruct (find_loop c' Hwf (bn_number p) top ltac:(lia) Ht fuel [entry top])
    as (a & Ha & Hna & Hta & Hfind); [lia..|].
  destruct (step_back_loop c' Hwf p Hp fuel a (bn_number p + 1) [entry x]
    ([entry top] ++ take (Z.to_nat (bn_number top - bn_number p)) (entries c' top)))
    as (A & B & C & HA & HB & HC & Hd & Hback); [done|lia..|].
  set (T := take _ _) in *. pose proof (calculate_downloaded_blocks_spec c' fuel Hwf Hf' Hs') as Hcnt.
  exists A, (T ++ B), C. eexists. rewrite <- Hpe, <- Hte. split_and!; [done| |done| |exact Hcnt|].
  - by rewrite Hta, HB, app_assoc.
  - intros e HeA. rewrite Hta, elem_of_app. intros [HeT|Hea]; [|by apply (Hd e)].
    assert (e ∈ entries c' p) as Hep by (rewrite HA; apply elem_of_app; by left).
    apply entries_number in Hep; [|done..]. apply list_elem_of_lookup in HeT as [i HeT].
    unfold T, entries in HeT. rewrite lookup_take_Some, list_lookup_fmap, fmap_Some in HeT.
    destruct HeT as ((b & Hb & ->) & Hi).
    destruct (ancestors_lookup c' top i b Hwf Ht Hb) as (_ & Hnb & _). simpl in Hep. lia.
  - rewrite apply_new with (p := p) by done. cbv zeta. fold x c top.
    rewrite (proj2 (Z.ltb_ge _ _)), bool_decide_false by done.
    unfold find_same_height. change (top_header (CHAIN (with_header s x))) with top.
    change (known (CHAIN (with_header s x))) with (known c'). rewrite Hfind. cbn [mbind comp_bind].
    rewrite Hna, Hph in Hback. change (bn_number x) with (bn_number p + 1).
    unfold step_back in Hback |- *. change (known (CHAIN (with_header s x))) with (known c').
    rewrite Hback. cbn [mbind comp_bind]. fold c'. rewrite Hcnt. cbn [mbind comp_bind].
    replace (bn_number p + 1 - bn_number p) with 1 by lia. done.
Qed.

Lemma apply_fork_panics :
  bn_total_work top <= bn_total_work x → bh_parent h ≠ bn_hash top → bn_number top < bn_number p →
  ∃ m, validate_and_apply_header_inner s fuel h false = Finished (Panic m).
Proof.
  intros Hle Hne Hn. destruct (with_header_wf s fuel h p Hh He) as [_ Hwf]. specialize (Hwf Hle).
  fold x c' in Hwf. destruct grown_fuel as (Hsz & Hs' & Hf').
  destruct (old_in_chain p parent_in_chain) as [Hp _].
  destruct (old_in_chain top (wf_top _ (h_wf _ _ Hh))) as [Ht _].
  pose proof (number_small c' Hwf top Hs' Ht). pose proof (number_fuel c' fuel Hwf Hf' p Hp).
  destruct (find_loop_panics c' Hwf (bn_number p) top Ht fuel [entry top]) as [m Hm]; [lia..|].
  exists m. rewrite apply_new with (p := p) by done. cbv zeta. fold x c top.
  rewrite (proj2 (Z.ltb_ge _ _)), bool_decide_false by done.
  unfold find_same_height. change (top_header (CHAIN (with_header s x))) with top.
  change (known (CHAIN (with_header s x))) with (known c'). by rewrite Hm.
Qed.
End apply_fork.

(** * Lemmas on [update_most_work_chain] *)

Section update.
Context `{Sha256, U256Lib}.

Lemma removed_members (l : list (hash * Z)) (m : gset (list byte)) h :
  h ∈ foldl (λ s '(hash, _), s ∖ {[ hash ]}) m l ↔ h ∈ m ∧ h ∉ l.*1.
Proof.
  revert m. induction l as [|[x n] l IH]; intros m; simpl; [set_solver|].
  rewrite IH. set_solver.
Qed.

Lemma added_members (l : list (hash * Z)) (m : gset (list byte)) (ns : gmap Z (list byte)) h :
  h ∈ (foldl (λ '(s, m) '(hash, number), (s ∪ {[ hash ]}, <[ number := hash ]> m)) (m, ns) l).1
  ↔ h ∈ m ∨ h ∈ l.*1.
Proof.
  revert m ns. induction l as [|[x n] l IH]; intros m ns; simpl; [set_solver|].
  rewrite IH. set_solver.
Qed.

Lemma added_numbers (l : list (hash * Z)) (m : gset (list byte)) (ns : gmap Z (list byte)) n h :
  (foldl (λ '(s, m) '(hash, number), (s ∪ {[ hash ]}, <[ number := hash ]> m)) (m, ns) l).2 !! n
  = Some h → (h, n) ∈ l ∨ ns !! n = Some h.
Proof.
  revert m ns. induction l as [|[x k] l IH]; intros m ns; simpl; [auto|].
  intros [Hl|Hl]%IH; [left; by right|].
  apply lookup_insert_Some in Hl as [[-> ->]|[_ Hl]]; [left; by left|auto].
Qed.

Lemma update_spec c r :
  let c' := update_most_work_chain c r in
  top_header c' = top_header c ∧ known_headers c' = known_headers c ∧
  (∀ h, h ∈ most_work_chain c' ↔
     (h ∈ most_work_chain c ∧ h ∉ (removed_blocks r).*1) ∨ h ∈ (added_blocks r).*1) ∧
  (∀ n h, number_to_hash c' !! n = Some h →
     (h, n) ∈ added_blocks r ∨ number_to_hash c !! n = Some h).
Proof.
  cbv zeta. unfold update_most_work_chain. set (removed := foldl _ (most_work_chain c) (removed_blocks r)).
  destruct (foldl _ (removed, number_to_hash c) (added_blocks r)) as [m ns] eqn:E.
  split_and!; [done|done| |].
  - intros h. simpl. pose proof (added_members (added_blocks r) removed (number_to_hash c) h) as Ha.
    rewrite E in Ha. simpl in Ha. rewrite Ha. unfold removed. by rewrite removed_members.
  - intros n h. simpl. pose proof (added_numbers (added_blocks r) removed (number_to_hash c) n h) as Ha.
    by rewrite E in Ha.
Qed.

Lemma elem_of_entries c y h n :
  (h, n) ∈ entries c y ↔ ∃ a, a ∈ ancestors c y ∧ bn_number a = n ∧ bn_hash a = h.
Proof.
  unfold entries. rewrite list_elem_of_fmap. split.
  - intros (a & [= -> ->] & Ha). by exists a.
  - intros (a & Ha & <- & <-). by exists a.
Qed.

Lemma elem_of_entry_hashes c y h :
  h ∈ (entries c y).*1 ↔ ∃ a, a ∈ ancestors c y ∧ bn_hash a = h.
Proof.
  rewrite list_elem_of_fmap. split.
  - intros ([h' n] & -> & (a & Ha & _ & Hh)%elem_of_entries). by exists a.
  - intros (a & Ha & <-). exists (entry a). split; [done|]. apply elem_of_entries. by exists a.
Qed.

(** The index of the main chain, by the entries of the top header. *)
Lemma index_entries c :
  chain_index c ↔
  (∀ h, h ∈ most_work_chain c ↔ h ∈ (entries c (top_header c)).*1) ∧
  (∀ n h, number_to_hash c !! n = Some h ↔ (h, n) ∈ entries c (top_header c)).
Proof.
  unfold chain_index. split; intros [H1 H2]; split; intros.
  - by rewrite H1, elem_of_entry_hashes.
  - by rewrite H2, elem_of_entries.
  - by rewrite H1, elem_of_entry_hashes.
  - by rewrite H2, elem_of_entries.
Qed.

Lemma entries_hash_inj c y e e' :
  chain_wf c → in_chain c y → e ∈ entries c y → e' ∈ entries c y → e.1 = e'.1 → e.2 = e'.2.
Proof.
  intros Hwf Hy [a [-> Ha]]%list_elem_of_fmap [b [-> Hb]]%list_elem_of_fmap Heq.
  apply (in_chain_hash_inj c); [by apply (elem_of_ancestors c y a)|by apply (elem_of_ancestors c y b)|done].
Qed.

Lemma entries_NoDup c y : chain_wf c → in_chain c y → NoDup (entries c y).*1.
Proof.
  intros Hwf. revert y. refine (in_chain_ind c _ Hwf _ _).
  - intros x Hx Hz Ha. unfold entries. rewrite Ha. simpl. apply NoDup_singleton.
  - intros x p Hx Hp Hlp Hhp Hnp Ha IH. rewrite (entries_cons c Hwf x p) by done. simpl.
    constructor; [|done]. intros [e [Heq He]]%list_elem_of_fmap.
    assert (entry x ∈ entries c x) as Hex
      by (rewrite (entries_cons c Hwf x p) by done; apply list_elem_of_here).
    assert (e ∈ entries c x) as Hee
      by (rewrite (entries_cons c Hwf x p) by done; by apply list_elem_of_further).
    pose proof (entries_hash_inj c x _ _ Hwf Hx Hex Hee Heq) as Hn. simpl in Hn.
    apply entries_number in He; [|done..]. lia.
Qed.
End update.

(** * Lemmas on sequences of headers *)

Section batch.
Context `{Sha256, U256Lib}.

(** The ways the application of a header can go. *)
Inductive application (s : ChainMan) (fuel : nat) (h : BlockHeader) : Prop :=
| App_known : is_Some (known_headers (CHAIN s) !! bh_hash h) → application s fuel h
| App_orphan : known_headers (CHAIN s) !! bh_hash h = None →
    known_headers (CHAIN s) !! bh_parent h = None → application s fuel h
| App_bits p b : known_headers (CHAIN s) !! bh_hash h = None →
    known_headers (CHAIN s) !! bh_parent h = Some p →
    get_next_bits_required (CHAIN s) fuel p = Finished (Ok b) → b ≠ bh_bits h → application s fuel h
| App_overflow p : known_headers (CHAIN s) !! bh_hash h = None →
    known_headers (CHAIN s) !! bh_parent h = Some p →
    get_next_bits_required (CHAIN s) fuel p = Finished (Ok (bh_bits h)) →
    2 ^ 256 <= bn_total_work p + work_of h → application s fuel h
| App_new p : extends_chain s fuel h p → application s fuel h.

Lemma application_cases s fuel h :
  healthy s fuel → acceptable h → application s fuel h.
Proof.
  intros Hh Ha. destruct (healthy_fits _ _ Hh) as [Hs Hf]. pose proof (h_wf _ _ Hh) as Hwf.
  destruct (known_headers (CHAIN s) !! bh_hash h) eqn:Hk; [apply App_known; by rewrite Hk|].
  destruct (known_headers (CHAIN s) !! bh_parent h) as [p|] eqn:Hp; [|by apply App_orphan].
  destruct (get_next_bits_required_Ok (CHAIN s) fuel Hwf Hf p Hs) as (b & Hb & _).
  { by eapply in_chain_known. }
  destruct (decide (b = bh_bits h)) as [-> |Hne]; [|by eapply App_bits].
  destruct (Z.le_gt_cases (2 ^ 256) (bn_total_work p + work_of h)); [by eapply App_overflow|].
  by apply App_new with p.
Qed.

Lemma apply_known s fuel h b :
  is_Some (known_headers (CHAIN s) !! bh_hash h) →
  validate_and_apply_header_inner s fuel h b = Finished (Ok (s, inr None)).
Proof. intros Hk. unfold validate_and_apply_header_inner. by rewrite bool_decide_true by done. Qed.

Lemma apply_orphan s fuel h b :
  known_headers (CHAIN s) !! bh_hash h = None → known_headers (CHAIN s) !! bh_parent h = None →
  validate_and_apply_header_inner s fuel h b = Finished (Ok (s, inl "dont have the parent"%string)).
Proof.
  intros Hk Hp. unfold validate_and_apply_header_inner.
  by rewrite Hk, Hp, bool_decide_false by by intros [? ?].
Qed.

Lemma apply_bits s fuel h b p bits :
  known_headers (CHAIN s) !! bh_hash h = None → known_headers (CHAIN s) !! bh_parent h = Some p →
  get_next_bits_required (CHAIN s) fuel p = Finished (Ok bits) → bits ≠ bh_bits h →
  validate_and_apply_header_inner s fuel h b
  = Finished (Ok (s, inl "invalid difficulty transition"%string)).
Proof.
  intros Hk Hp Hb Hne. unfold validate_and_apply_header_inner.
  rewrite Hk, Hp, bool_decide_false by by intros [? ?]. rewrite Hb. cbn [mbind comp_bind].
  by rewrite (proj2 (Z.eqb_neq _ _)) by done.
Qed.

Lemma apply_overflow s fuel h b p :
  healthy s fuel → acceptable h →
  known_headers (CHAIN s) !! bh_hash h = None → known_headers (CHAIN s) !! bh_parent h = Some p →
  get_next_bits_required (CHAIN s) fuel p = Finished (Ok (bh_bits h)) →
  2 ^ 256 <= bn_total_work p + work_of h →
  ∃ m, validate_and_apply_header_inner s fuel h b = Finished (Panic m).
Proof.
  intros Hh (Hok & Hv & _) Hk Hp Hb Hover. destruct (healthy_fits _ _ Hh) as [Hs Hf].
  pose proof (h_wf _ _ Hh) as Hwf.
  destruct (get_next_bits_required_Ok (CHAIN s) fuel Hwf Hf p Hs) as (b' & Hb' & Hu & _).
  { by eapply in_chain_known. }
  assert (b' = bh_bits h) as -> by congruence.
  unfold is_valid in Hv. rewrite u256_from_little_endian_spec in Hv by done. apply Z.ltb_lt in Hv.
  pose proof (from_le_range (bh_hash h)). pose proof (get_work_value h Hu) as Hw. cbv zeta in Hw.
  pose proof (u256_from_compact_not_max _ Hu).
  rewrite (proj2 (Z.eqb_neq _ _)) in Hw by lia. fold (work_of h) in Hw.
  unfold validate_and_apply_header_inner.
  rewrite Hk, Hp, bool_decide_false by by intros [? ?]. rewrite Hb. cbn [mbind comp_bind].
  rewrite Z.eqb_refl, Hw. cbn [negb mbind comp_bind].
  destruct (u256_add_overflow (bn_total_work p) (work_of h)) as [m ->]; [| |done|by exists m].
  - by eapply wf_work.
  - unfold in_u256, work_of. split; [apply Z.div_pos; lia|].
    apply Z.div_lt_upper_bound; [lia|].
    assert (2 <= u256_from_compact (bh_bits h) + 1) by lia.
    assert (0 < 2 ^ 256) by done. nia.
Qed.

(** The relation between the states before and after. *)
Record grows (s s' : ChainMan) : Prop := {
  gr_wf : chain_wf (CHAIN s) → chain_wf (CHAIN s');
  gr_known : known_headers (CHAIN s) ⊆ known_headers (CHAIN s');
  gr_work : bn_total_work (top_header (CHAIN s)) <= bn_total_work (top_header (CHAIN s'));
  gr_index : number_to_hash (CHAIN s') = number_to_hash (CHAIN s) ∧
    most_work_chain (CHAIN s') = most_work_chain (CHAIN s);
}.

Lemma grows_refl s : grows s s.
Proof. by constructor. Qed.

Lemma grows_trans s1 s2 s3 : grows s1 s2 → grows s2 s3 → grows s1 s3.
Proof.
  intros [H1 H2 H3 [H4 H4']] [H5 H6 H7 [H8 H8']].
  constructor; [auto|by etrans|by etrans|split; by etrans].
Qed.

Lemma apply_grows s fuel h b s' r :
  healthy s fuel → acceptable h →
  validate_and_apply_header_inner s fuel h b = Finished (Ok (s', r)) →
  grows s s' ∧ (size (known_headers (CHAIN s')) ≤ S (size (known_headers (CHAIN s))))%nat ∧
  (is_Some (known_headers (CHAIN s') !! bh_hash h) ↔ ∃ v, r = inr v).
Proof.
  intros Hh Ha Hr. destruct (application_cases s fuel h Hh Ha) as
    [Hk|Hk Hp|p bits Hk Hp Hb Hne|p Hk Hp Hb Ho|p He].
  - rewrite apply_known in Hr by done. injection Hr as <- <-.
    split_and!; [apply grows_refl|lia|split; [intros _; by eexists|done]].
  - rewrite apply_orphan in Hr by done. injection Hr as <- <-. rewrite Hk.
    split_and!; [apply grows_refl|lia|split; by intros [? ?]].
  - rewrite (apply_bits s fuel h b p bits) in Hr by done. injection Hr as <- <-. rewrite Hk.
    split_and!; [apply grows_refl|lia|split; by intros [? ?]].
  - destruct (apply_overflow s fuel h b p Hh Ha Hk Hp Hb Ho) as [m Hm]. by rewrite Hm in Hr.
  - set (x := new_header p h) in *. destruct (with_header_wf s fuel h p Hh He) as [Hw1 Hw2].
    assert (known_headers (CHAIN s) ⊆ <[ bn_hash x := x ]> (known_headers (CHAIN s))) as Hsub
      by (apply insert_subseteq; apply He).
    assert (size (<[ bn_hash x := x ]> (known_headers (CHAIN s)))
            = S (size (known_headers (CHAIN s)))) as Hsz by (apply map_size_insert_None; apply He).
    assert (is_Some (<[ bn_hash x := x ]> (known_headers (CHAIN s)) !! bh_hash h)) as Hin.
    { change (bh_hash h) with (bn_hash x). rewrite lookup_insert_eq. by eauto. }
    rewrite apply_new with (p := p) in Hr by done. cbv zeta in Hr. fold x in Hr, Hw1, Hw2.
    destruct (Z.ltb_spec (bn_total_work x) (bn_total_work (top_header (CHAIN s)))) as [Hlt|Hge].
    { injection Hr as <- <-. split_and!; [|by rewrite <- Hsz|split; [intros _; by eexists|done]].
      constructor; [intros _; apply Hw1; lia|done|done|done]. }
    assert (grows s (with_top s x)) as Hg by (constructor; [auto|done|done|done]).
    destruct b.
    { injection Hr as <- <-. split_and!; [done|by rewrite <- Hsz|split; [intros _; by eexists|done]]. }
    case_bool_decide.
    { injection Hr as <- <-. split_and!; [done|by rewrite <- Hsz|split; [intros _; by eexists|done]]. }
    cbind Hr. destruct v as [[fo fn] vo]. cbind Hr. destruct v as [vn vo']. cbind Hr.
    injection Hr as <- <-. split_and!; [|by rewrite <- Hsz|split; [intros _; by eexists|done]].
    destruct Hg. by constructor.
Qed.

Lemma headers_grow hs : ∀ s fuel s' r,
  chain_wf (CHAIN s) → Forall acceptable hs →
  Z.of_nat (size (known_headers (CHAIN s)) + length hs) < isize_max →
  (size (known_headers (CHAIN s)) + length hs < fuel)%nat →
  validate_and_apply_headers s fuel hs = Finished (Ok (s', r)) →
  grows s s' ∧ chain_wf (CHAIN s') ∧
  (r = inr tt → ∀ h, h ∈ hs → is_Some (known_headers (CHAIN s') !! bh_hash h)).
Proof.
  induction hs as [|h hs IH]; intros s fuel s' r Hwf Hall Hs Hf Hr; cbn [validate_and_apply_headers] in Hr.
  { injection Hr as <- <-. split_and!; [apply grows_refl|done|]. by intros _ h ?%elem_of_nil. }
  apply Forall_cons in Hall as [Ha Hall]. simpl in Hs, Hf.
  assert (healthy s fuel) as Hh by (constructor; [done|lia|lia]).
  cbind Hr. destruct v as [s1 r1].
  destruct (apply_grows s fuel h true s1 r1 Hh Ha Hv) as (Hg & Hsz & Hin).
  destruct r1 as [e|v].
  { injection Hr as <- <-. split_and!; [done|by apply Hg|done]. }
  destruct (IH s1 fuel s' r) as (Hg' & Hwf' & Hall'); [by apply Hg|done|lia|lia|done|].
  split_and!; [by eapply grows_trans|done|]. intros -> y [-> |Hy]%elem_of_cons; [|by apply Hall'].
  destruct (proj2 Hin (ex_intro _ v eq_refl)) as [z Hz]. exists z.
  eapply lookup_weaken; [exact Hz|apply Hg'].
Qed.
End batch.

(** * Lemmas on downloaded blocks *)

Section mark.
Context `{Sha256, U256Lib}.

(** Two copies of a header that differ in what was downloaded of its block. *)
Definition same_header (x y : BlockHeaderWithNumber) : Prop :=
  bn_header y = bn_header x ∧ bn_number y = bn_number x ∧ bn_total_work y = bn_total_work x.

Definition relabels (m m' : headers_map) : Prop :=
  ∀ h, option_Forall2 same_header (m !! h) (m' !! h).

Lemma same_header_refl x : same_header x x.
Proof. done. Qed.

Lemma relabels_refl m : relabels m m.
Proof. intros h. by destruct (m !! h); constructor. Qed.

Lemma relabels_trans m1 m2 m3 : relabels m1 m2 → relabels m2 m3 → relabels m1 m3.
Proof.
  intros H12 H23 h. specialize (H12 h). specialize (H23 h).
  destruct H12 as [x y (Hh & Hn & Hw)|]; inversion H23 as [? z (Hh' & Hn' & Hw')|]; subst; constructor.
  unfold same_header. by rewrite Hh', Hn', Hw'.
Qed.

Lemma relabels_insert m h x y :
  m !! h = Some x → same_header x y → relabels m (<[ h := y ]> m).
Proof.
  intros Hx Hxy k. destruct (decide (h = k)) as [<-|Hne].
  - rewrite lookup_insert_eq, Hx. by constructor.
  - rewrite lookup_insert_ne by done. apply relabels_refl.
Qed.

Lemma relabels_lookup m m' h y :
  relabels m m' → m' !! h = Some y → ∃ x, m !! h = Some x ∧ same_header x y.
Proof. intros Hr Hy. specialize (Hr h). rewrite Hy in Hr. inversion Hr; subst. eauto. Qed.

Lemma relabels_lookup_l m m' h x :
  relabels m m' → m !! h = Some x → ∃ y, m' !! h = Some y ∧ same_header x y.
Proof. intros Hr Hx. specialize (Hr h). rewrite Hx in Hr. inversion Hr; subst. eauto. Qed.

Lemma relabels_size m m' : relabels m m' → size m' = size m.
Proof.
  intros Hr. rewrite <- !size_dom. f_equal. apply set_eq. intros h. rewrite !elem_of_dom.
  destruct (Hr h) as [x y _|]; (split; intros [? ?]; eauto); done.
Qed.

Lemma relabels_wf c m top :
  chain_wf c → relabels (known_headers c) m → same_header (top_header c) top →
  in_chain (mkChain top m (number_to_hash c) (most_work_chain c)) top →
  chain_wf (mkChain top m (number_to_hash c) (most_work_chain c)).
Proof.
  intros Hwf Hr (Hth & Htn & Htw) Ht. pose proof (λ h y, relabels_lookup _ _ h y Hr) as Hl.
  constructor; simpl; rewrite ?(relabels_size _ _ Hr).
  - intros h y Hy. destruct (Hl _ _ Hy) as (x & Hx & -> & _). by eapply wf_key.
  - specialize (Hr EMPTY_HASH). rewrite (wf_empty c Hwf) in Hr. by inversion Hr.
  - intros h y Hy. destruct (Hl _ _ Hy) as (x & Hx & _ & -> & _). by eapply wf_number.
  - intros h y Hy. destruct (Hl _ _ Hy) as (x & Hx & -> & -> & _). by eapply wf_root.
  - intros h y h' y' Hy Hy'.
    destruct (Hl _ _ Hy) as (x & Hx & _ & -> & _), (Hl _ _ Hy') as (x' & Hx' & _ & -> & _).
    by eapply wf_one_root.
  - intros h y Hy Hn. destruct (Hl _ _ Hy) as (x & Hx & Hh & Hnx & Hw).
    rewrite Hnx in Hn. destruct (wf_parent c Hwf h x Hx Hn) as (p & w & Hp & Hnp & Hgw & Htot).
    destruct (relabels_lookup_l _ _ _ _ Hr Hp) as (q & Hq & _ & Hqn & Hqw). exists q, w.
    rewrite Hh, Hnx, Hw, Hqn, Hqw. done.
  - intros h y Hy. destruct (Hl _ _ Hy) as (x & Hx & _ & _ & ->). by eapply wf_work.
  - intros h y Hy. destruct (Hl _ _ Hy) as (x & Hx & -> & _ & _). by eapply wf_bits.
  - done.
  - intros h y Hy. destruct (Hl _ _ Hy) as (x & Hx & _ & _ & ->). rewrite Htw.
    by eapply wf_most_work.
Qed.

Lemma relabels_ancestors c c' x y :
  relabels (known_headers c) (known_headers c') → same_header x y →
  map entry (ancestors c' y) = map entry (ancestors c x).
Proof.
  intros Hr Hxy. unfold ancestors. rewrite (proj1 (proj2 Hxy)).
  generalize (Z.to_nat (bn_number x)). intros n. revert x y Hxy.
  induction n as [|n IH]; intros a b (Hh & Hn & Hw);
    assert (entry b = entry a) as He by (unfold entry; by rewrite Hh, Hn); simpl; rewrite He; [done|].
  f_equal. rewrite Hh.
  destruct (Hr (bn_parent a)); [by apply IH|done].
Qed.

Lemma mark_loop blocks asciis : ∀ m,
  Forall (λ h, is_Some (m !! h)) blocks →
  ∃ m', for_each (λ m '(block, coinbase_ascii),
      h ← expect ((m : headers_map) !! block) "the header to be present in known_headers";
      Ok (<[ block := mark_downloaded h coinbase_ascii ]> m)) (zip blocks asciis) m = Ok m' ∧
    relabels m m' ∧
    (∀ h, bn_fetched_full <$> m' !! h
          = (λ x, bn_fetched_full x || bool_decide (h ∈ (zip blocks asciis).*1)) <$> m !! h).
Proof.
  revert asciis. induction blocks as [|b blocks IH]; intros asciis m Hall.
  { exists m. split_and!; [done|apply relabels_refl|]. intros h. simpl.
    destruct (m !! h) as [x|]; simpl; [|done]. by rewrite orb_false_r. }
  destruct asciis as [|a asciis].
  { exists m. split_and!; [done|apply relabels_refl|]. intros h. simpl.
    destruct (m !! h) as [x|]; simpl; [|done]. by rewrite orb_false_r. }
  apply Forall_cons in Hall as [[x Hx] Hall].
  destruct (IH asciis (<[ b := mark_downloaded x a ]> m)) as (m' & Hm' & Hr & Hf).
  { eapply Forall_impl; [exact Hall|]. intros h [y Hy]. destruct (decide (b = h)) as [<-|].
    - rewrite lookup_insert_eq. eauto.
    - rewrite lookup_insert_ne by done. eauto. }
  exists m'. simpl. rewrite Hx. cbn [expect mbind outcome_bind]. split_and!; [done| |].
  - eapply relabels_trans; [|exact Hr]. by eapply relabels_insert.
  - intros h. rewrite Hf. destruct (decide (b = h)) as [<-|Hne].
    + rewrite lookup_insert_eq, Hx. simpl. rewrite (bool_decide_true (b ∈ b :: _)) by left.
      by rewrite orb_true_r.
    + rewrite lookup_insert_ne by done. destruct (m !! h) as [y|]; simpl; [|done]. do 2 f_equal.
      apply bool_decide_ext. rewrite elem_of_cons. split; [auto|]. by intros [->|].
Qed.
End mark.

(** * Lemmas on the index after an application *)

Lemma elem_of_rev_fst (l : list (hash * Z)) k : k ∈ (rev l).*1 ↔ k ∈ l.*1.
Proof.
  rewrite !list_elem_of_fmap. split; intros (e & -> & Hin); exists e; (split; [done|]).
  - by apply list_elem_of_In, in_rev, list_elem_of_In.
  - apply list_elem_of_In. rewrite <- in_rev. by apply list_elem_of_In.
Qed.

Section record.
Context `{Sha256, U256Lib} (s : ChainMan) (fuel : nat) (h : BlockHeader) (p : BlockHeaderWithNumber).
Context (Hh : healthy s fuel) (He : extends_chain s fuel h p) (Hix : chain_index (CHAIN s)).

Let c := CHAIN s.
Let top := top_header c.
Let x := new_header p h.
Context (Hle : bn_total_work top <= bn_total_work x).

Lemma record_extension :
  bh_parent h = bn_hash top →
  let r := mkHeaderApplicationResult [] [entry x] in
  validate_and_apply_header_inner s fuel h false = Finished (Ok (with_top s x, inr (Some r))) ∧
  chain_index (update_most_work_chain (CHAIN (with_top s x)) r).
Proof.
  intros Hp r. split.
  { rewrite apply_new with (p := p) by done. cbv zeta. fold x c top.
    by rewrite (proj2 (Z.ltb_ge _ _)), bool_decide_true by done. }
  pose proof (h_wf _ _ Hh) as Hwf. pose proof (wf_top _ Hwf) as Ht. fold c top in Ht.
  pose proof (parent_in_chain s fuel h p Hh He) as Hip.
  assert (bn_hash p = bn_hash top) as Hpt by (rewrite <- Hp; eapply wf_key; [done|apply He]).
  pose proof (new_entries s fuel h p Hh He Hle) as Hnew. fold x c in Hnew.
  rewrite (entries_hash c p top) in Hnew by done.
  pose proof (in_chain_hash_inj c p top Hip Ht Hpt) as Hn.
  apply index_entries in Hix as [H1 H2]. fold c top in H1, H2. apply index_entries.
  set (c' := update_most_work_chain _ _).
  change (entries c' (top_header c')) with (entries (CHAIN (with_top s x)) x). rewrite Hnew. split.
  - intros k. destruct (update_spec (CHAIN (with_top s x)) r) as (_ & _ & Hm & _).
    fold c' in Hm. rewrite Hm. change (most_work_chain (CHAIN _)) with (most_work_chain c).
    rewrite H1. simpl. rewrite !elem_of_cons. pose proof (not_elem_of_nil k). tauto.
  - intros n k. change (number_to_hash c') with (<[ bn_number x := bn_hash x ]> (number_to_hash c)).
    rewrite lookup_insert_Some, H2, elem_of_cons. split.
    + intros [[<- <-]|[_ Hk]]; auto.
    + intros [[= -> ->]|Hk]; [by left|]. right. split; [|done].
      apply entries_number in Hk; [|done..]. simpl in *. lia.
Qed.

Lemma record_fork :
  bh_parent h ≠ bn_hash top → bn_number p <= bn_number top →
  ∃ (new : list (hash * Z)) r s', validate_and_apply_header_inner s fuel h false = Finished (Ok (s', inr (Some r))) ∧
    CHAIN s' = CHAIN (with_top s x) ∧
    let c' := update_most_work_chain (CHAIN s') r in
    (∀ k, k ∈ most_work_chain c' ↔ k ∈ (entries c' (top_header c')).*1) ∧
    (∀ e, e ∈ new ↔ e ∈ entries c p ∧ e ∉ entries c top) ∧
    (∀ e, e ∈ new → number_to_hash c' !! e.2 ≠ Some e.1).
Proof.
  intros Hp Hn. destruct (apply_fork s fuel h p Hh He Hle Hp Hn) as
    (A & B & C & count & HA & HB & HC & Hd & _ & Hr). fold c top x in HA, HB, Hd, Hr.
  pose proof (h_wf _ _ Hh) as Hwf. pose proof (wf_top _ Hwf) as Ht. fold c top in Ht.
  pose proof (parent_in_chain s fuel h p Hh He) as Hip. fold c in Hip.
  pose proof (new_entries s fuel h p Hh He Hle) as Hnew. fold x c in Hnew.
  apply index_entries in Hix as [H1 H2]. fold c top in H1, H2.
  eexists A, _, _. split; [exact Hr|]. split; [done|]. cbv zeta.
  match goal with |- context [update_most_work_chain ?w ?r] => destruct (update_spec w r) as
    (Htop & Hknown & Hmost & Hnums); set (c' := update_most_work_chain w r) in * end.
  cbn [added_blocks removed_blocks] in Hmost, Hnums.
  replace (entries c' (top_header c')) with (entries (CHAIN (with_top s x)) x)
    by (unfold entries, ancestors; by rewrite Htop, Hknown).
  rewrite Hnew.
  assert (∀ k, k ∈ (map (λ e : hash * Z, (e.1, e.2 + 1)) A).*1 ↔ k ∈ A.*1) as Hshift.
  { intros k. rewrite <- list_fmap_compose. reflexivity. }
  assert (entry top ∈ B) as HtB.
  { destruct B as [|e B]; [exfalso|].
    - simpl in HB. assert (entry top ∈ entries c p) as Hin.
      { rewrite HA, <- HB. apply elem_of_app. right. unfold entries.
        destruct (ancestors_head c top) as [l ->]. apply list_elem_of_here. }
      pose proof (entries_number c Hwf _ _ Hip Hin) as Hb. simpl in Hb.
      apply elem_of_entries in Hin as (a & Ha & Hna & Hah).
      assert (a = p) as ->.
      { eapply (ancestors_number_inj c p); [done..| |lia].
        destruct (ancestors_head c p) as [l ->]. apply list_elem_of_here. }
      apply Hp. rewrite <- Hah. symmetry. eapply wf_key; [done|apply He].
    - unfold entries in HB. destruct (ancestors_head c top) as [l Hl]. rewrite Hl in HB.
      injection HB as <- _. apply list_elem_of_here. }
  assert (∀ k, k ∈ B.*1 → k ∈ C.*1 → False) as Hdisj.
  { pose proof (entries_NoDup c top Hwf Ht) as Hnd. rewrite HB, fmap_app in Hnd.
    apply NoDup_app in Hnd as (_ & Hnd & _). intros k HkB. by apply Hnd. }
  split_and!.
  - intros k. rewrite Hmost. change (most_work_chain (CHAIN _)) with (most_work_chain c).
    rewrite H1, HB, HA. rewrite elem_of_rev_fst. cbn [fmap list_fmap fst entry].
    rewrite !fmap_app, !elem_of_cons, !elem_of_app, Hshift.
    assert (k = bn_hash top → k ∈ B.*1) by (intros ->; apply list_elem_of_fmap; by exists (entry top)).
    specialize (Hdisj k). tauto.
  - intros e. split.
    + intros HeA. split; [rewrite HA; apply elem_of_app; by left|by apply Hd].
    + rewrite HA, elem_of_app. intros [[?|HeC] Hne]; [done|]. destruct Hne. rewrite HB.
      apply elem_of_app. by right.
  - intros e HeA Hn2h. assert (e ∈ entries c p) as Hep by (rewrite HA; apply elem_of_app; by left).
    pose proof (entries_number c Hwf _ _ Hip Hep) as Hen.
    apply Hnums in Hn2h as [Hin|Hin].
    + apply list_elem_of_In, in_rev, list_elem_of_In in Hin. rewrite elem_of_cons in Hin. destruct Hin as [[= _ Hin]|Hin]; [simpl in *; lia|].
      apply list_elem_of_fmap in Hin as (e' & [= Heq Hnum] & He').
      assert (e' ∈ entries c p) as Hep' by (rewrite HA; apply elem_of_app; by left).
      pose proof (entries_hash_inj c p e e' Hwf Hip Hep Hep' Heq). lia.
    + apply H2 in Hin. apply (Hd e HeA). by destruct e.
Qed.
End record.

(** * The properties *)

(** C2. Applying a header to a well-formed chain always comes to an end,
    and the outcome is one of these: nothing for a known header; an error without
    a known parent or with other bits than the difficulty adjustment asks for; a
    panic when the sum of the work overflows; the header beside the main chain when
    it has less work than the top header, and as the new top header otherwise. Out
    of the header sync an extension queues the header itself, and a fork from above the top header panics. Any other
    fork queues just the blocks of its branch since the split, oldest first, with numbers that are one too large but for
    the header itself, and removes those of the old branch since the split, newest first, of which
    the old top header is listed twice; the downloaded blocks are counted anew. *)
Theorem apply_header_outcomes `{Sha256, U256Lib} s fuel h is_headersync :
  healthy s fuel → acceptable h →
  let c := CHAIN s in
  let result := validate_and_apply_header_inner s fuel h is_headersync in
  match known_headers c !! bh_hash h, known_headers c !! bh_parent h with
  | Some _, _ => result = Finished (Ok (s, inr None))
  | None, None => result = Finished (Ok (s, inl "dont have the parent"%string))
  | None, Some p =>
      let x := new_header p h in
      ∃ bits, get_next_bits_required c fuel p = Finished (Ok bits) ∧
      if negb (bits =? bh_bits h)
      then result = Finished (Ok (s, inl "invalid difficulty transition"%string))
      else if 2 ^ 256 <=? bn_total_work x then ∃ m, result = Finished (Panic m)
      else if bn_total_work x <? bn_total_work (top_header c)
      then result = Finished (Ok (with_header s x, inr None))
      else if is_headersync then result = Finished (Ok (with_top s x, inr None))
      else if bool_decide (bh_parent h = bn_hash (top_header c)) then
        result = Finished (Ok (with_top s x, inr (Some (mkHeaderApplicationResult [] [entry x]))))
      else if bn_number (top_header c) <? bn_number p then ∃ m, result = Finished (Panic m)
      else ∃ new old common count,
        entries c p = new ++ common ∧ entries c (top_header c) = old ++ common ∧ common ≠ [] ∧
        (∀ e, e ∈ new → e ∉ entries c (top_header c)) ∧
        calculate_downloaded_blocks (CHAIN (with_top s x)) fuel = Finished (Ok count) ∧
        result = Finished (Ok (store_downloaded (with_top s x) count,
          inr (Some (mkHeaderApplicationResult (entry (top_header c) :: old)
                       (rev (map (λ e, (e.1, e.2 + 1)) new) ++ [entry x])))))
  end.
Proof.
  intros Hh Ha c res. destruct (application_cases s fuel h Hh Ha) as
    [[y Hk]|Hk Hp|p bits Hk Hp Hb Hne|p Hk Hp Hb Ho|p He]; unfold c.
  - rewrite Hk. apply apply_known. by eauto.
  - rewrite Hk, Hp. by apply apply_orphan.
  - rewrite Hk, Hp. exists bits. split; [done|]. rewrite (proj2 (Z.eqb_neq _ _)) by done.
    by apply (apply_bits s fuel h is_headersync p bits).
  - rewrite Hk, Hp. eexists. split; [exact Hb|]. rewrite Z.eqb_refl. cbn [negb].
    change (bn_total_work (new_header p h)) with (bn_total_work p + work_of h).
    rewrite (proj2 (Z.leb_le _ _)) by lia. by apply apply_overflow with p.
  - rewrite (ec_new _ _ _ _ He), (ec_parent _ _ _ _ He). eexists. split; [apply He|].
    rewrite Z.eqb_refl. cbn [negb].
    change (bn_total_work (new_header p h)) with (bn_total_work p + work_of h).
    rewrite (proj2 (Z.leb_gt _ _)) by apply He. unfold res.
    rewrite apply_new with (p := p) by done. cbv zeta.
    change (bn_total_work (new_header p h)) with (bn_total_work p + work_of h).
    destruct (Z.ltb_spec (bn_total_work p + work_of h) (bn_total_work (top_header (CHAIN s)))); [done|].
    destruct is_headersync; [done|].
    case_bool_decide as Htop; [done|].
    destruct (Z.ltb_spec (bn_number (top_header (CHAIN s))) (bn_number p)).
    + destruct (apply_fork_panics s fuel h p) as [m Hm]; [done..|]. exists m.
      rewrite apply_new with (p := p) in Hm by done. cbv zeta in Hm.
      rewrite (proj2 (Z.ltb_ge _ _)), bool_decide_false in Hm by done. exact Hm.
    + destruct (apply_fork s fuel h p) as (A & B & C & count & HA & HB & HC & Hd & Hcnt & Hm); [done..|].
      exists A, B, C, count. split_and!; try done.
      rewrite apply_new with (p := p) in Hm by done. cbv zeta in Hm.
      rewrite (proj2 (Z.ltb_ge _ _)), bool_decide_false in Hm by done. exact Hm.
Qed.

(** C1. A sequence of headers keeps the chain well formed (every header
    but the root has a known parent, its number is one more and its total work is
    that of the parent plus its own), keeps every known header, and never lowers
    the work of the top header, which stays the largest, even when a header is
    rejected; when none is, all are known afterwards. *)
Theorem header_sync_invariant `{Sha256, U256Lib} s fuel hs s' r :
  chain_wf (CHAIN s) → Forall acceptable hs →
  Z.of_nat (size (known_headers (CHAIN s)) + length hs) < isize_max →
  (size (known_headers (CHAIN s)) + length hs < fuel)%nat →
  validate_and_apply_headers s fuel hs = Finished (Ok (s', r)) →
  chain_wf (CHAIN s') ∧ known_headers (CHAIN s) ⊆ known_headers (CHAIN s') ∧
  bn_total_work (top_header (CHAIN s)) <= bn_total_work (top_header (CHAIN s')) ∧
  (r = inr tt → ∀ h, h ∈ hs → is_Some (known_headers (CHAIN s') !! bh_hash h)).
Proof.
  intros Hwf Hall Hs Hf Hr. destruct (headers_grow hs s fuel s' r) as ([_ Hk Hw _] & Hwf' & Hin); done.
Qed.

(** The result of a fork: the blocks of the new branch since the split,
    oldest first, and those of the old branch, of which the old top block is listed
    twice. The numbers that go with the new blocks are one too large, except for
    the new header itself. *)
Theorem fork_outcome `{Sha256, U256Lib} s fuel h p :
  healthy s fuel → extends_chain s fuel h p →
  let c := CHAIN s in
  let x := new_header p h in
  bn_total_work (top_header c) <= bn_total_work x → bh_parent h ≠ bn_hash (top_header c) →
  bn_number p <= bn_number (top_header c) →
  ∃ new old common count,
    entries c p = new ++ common ∧ entries c (top_header c) = old ++ common ∧ common ≠ [] ∧
    (∀ e, e ∈ new → e ∉ entries c (top_header c)) ∧
    validate_and_apply_header_inner s fuel h false
    = Finished (Ok (store_downloaded (with_top s x) count,
        inr (Some (mkHeaderApplicationResult (entry (top_header c) :: old)
                     (rev (map (λ e, (e.1, e.2 + 1)) new) ++ [entry x]))))).
Proof.
  intros Hh He c x Hle Hne Hn.
  destruct (apply_fork s fuel h p Hh He Hle Hne Hn) as (A & B & C & count & HA & HB & HC & Hd & _ & Hr).
  exists A, B, C, count. split_and!; done.
Qed.

(** Recording an extension keeps the index of the main chain exact:
    both the set of hashes and the map from numbers. *)
Theorem extension_keeps_index `{Sha256, U256Lib} s fuel h p :
  healthy s fuel → chain_index (CHAIN s) → extends_chain s fuel h p →
  bn_total_work (top_header (CHAIN s)) <= bn_total_work (new_header p h) →
  bh_parent h = bn_hash (top_header (CHAIN s)) →
  ∃ s' r, validate_and_apply_header_inner s fuel h false = Finished (Ok (s', inr (Some r))) ∧
    chain_index (update_most_work_chain (CHAIN s') r).
Proof.
  intros Hh Hix He Hle Hp. destruct (record_extension s fuel h p Hh He Hix Hle Hp) as [Hr Hi]. eauto.
Qed.

(** Recording a fork makes the set of hashes that of the new main chain,
    but the map from numbers is wrong: no block that the fork brings in, the new
    header apart, can be found under its own number. *)
Theorem fork_loses_numbers `{Sha256, U256Lib} s fuel h p :
  healthy s fuel → chain_index (CHAIN s) → extends_chain s fuel h p →
  bn_total_work (top_header (CHAIN s)) <= bn_total_work (new_header p h) →
  bh_parent h ≠ bn_hash (top_header (CHAIN s)) →
  bn_number p <= bn_number (top_header (CHAIN s)) →
  ∃ s' r, validate_and_apply_header_inner s fuel h false = Finished (Ok (s', inr (Some r))) ∧
    let c' := update_most_work_chain (CHAIN s') r in
    (∀ k, k ∈ most_work_chain c' ↔ ∃ a, a ∈ ancestors c' (top_header c') ∧ bn_hash a = k) ∧
    (∀ a, a ∈ ancestors (CHAIN s) p → entry a ∉ entries (CHAIN s) (top_header (CHAIN s)) →
       number_to_hash c' !! bn_number a ≠ Some (bn_hash a)).
Proof.
  intros Hh Hix He Hle Hp Hn.
  destruct (record_fork s fuel h p Hh He Hix Hle Hp Hn) as (new & r & s' & Hr & _ & Hm & Hnew & Hlost).
  exists s', r. split; [done|]. cbv zeta in *. split.
  - intros k. by rewrite Hm, elem_of_entry_hashes.
  - intros a Ha Hnot. apply (Hlost (entry a)). apply Hnew. split; [|done].
    apply list_elem_of_fmap. by exists a.
Qed.

(** What marking blocks does; used when a block is applied. *)
Lemma mark_as_downloaded_effect `{Sha256, U256Lib} s fuel blocks asciis :
  chain_wf (CHAIN s) → chain_fits (CHAIN s) → enough (CHAIN s) fuel →
  Forall (λ h, is_Some (known_headers (CHAIN s) !! h)) blocks → length asciis = length blocks →
  ∃ s', mark_as_downloaded s fuel blocks asciis = Finished (Ok s') ∧ chain_wf (CHAIN s') ∧
    (∀ h, bn_fetched_full <$> known_headers (CHAIN s') !! h
          = (λ x, bn_fetched_full x || bool_decide (h ∈ blocks)) <$> known_headers (CHAIN s) !! h) ∧
    bn_fetched_full (top_header (CHAIN s'))
      = bn_fetched_full (top_header (CHAIN s)) || bool_decide (bn_hash (top_header (CHAIN s)) ∈ blocks) ∧
    calculate_downloaded_blocks (CHAIN s') fuel = Finished (Ok (DOWNLOADED_BLOCKS s')) ∧
    (chain_index (CHAIN s) → chain_index (CHAIN s')).
Proof.
  intros Hwf Hs Hf Hall Hlen. pose proof (wf_top _ Hwf) as (t & Ht & Hth & Htn & Htf & Htw).
  destruct (mark_loop blocks asciis (known_headers (CHAIN s)) Hall) as (m & Hm & Hr & Hmf).
  rewrite fst_zip in Hmf by lia.
  destruct (relabels_lookup_l _ _ _ _ Hr Ht) as (t' & Ht' & Hth' & Htn' & Htw').
  pose proof (Hmf (bn_hash (top_header (CHAIN s)))) as Htm. rewrite Ht', Ht in Htm. injection Htm as Htm.
  set (top := set_fetched_full (top_header (CHAIN s)) (bn_fetched_full t')).
  set (c' := mkChain top m (number_to_hash (CHAIN s)) (most_work_chain (CHAIN s))).
  assert (chain_wf c') as Hwf'.
  { apply relabels_wf; [done..|]. exists t'. simpl. by rewrite Hth', Htn', Htw', Hth, Htn, Htw. }
  assert (chain_fits c' ∧ enough c' fuel) as [Hs' Hf'].
  { unfold chain_fits, enough. simpl. by rewrite (relabels_size _ _ Hr). }
  unfold mark_as_downloaded. rewrite Hm. cbn [mbind comp_bind].
  change (top_header (set_known_headers (CHAIN s) m)) with (top_header (CHAIN s)).
  rewrite (known_Some _ _ t') by exact Ht'. cbn [mbind comp_bind].
  change (set_top_header (set_known_headers (CHAIN s) m) _) with c'.
  rewrite (calculate_downloaded_blocks_spec c' fuel Hwf' Hf' Hs'). cbn [mbind comp_bind].
  eexists. split; [reflexivity|]. split_and!; [done|exact Hmf| | |].
  - simpl. by rewrite Htm, Htf.
  - simpl. by apply (calculate_downloaded_blocks_spec c' fuel).
  - intros Hix. simpl. apply index_entries in Hix. apply index_entries.
    assert (entries c' (top_header c') = entries (CHAIN s) (top_header (CHAIN s))) as He
      by by apply relabels_ancestors.
    by rewrite He.
Qed.

(** Marking known blocks as downloaded does not fail, sets the mark of
    exactly those blocks, keeps the chain well formed and its index, keeps the top
    header in step with its copy among the known headers, and brings
    [DOWNLOADED_BLOCKS] up to date. *)
Theorem mark_downloaded_spec `{Sha256, U256Lib} s fuel blocks asciis :
  chain_wf (CHAIN s) → chain_fits (CHAIN s) → enough (CHAIN s) fuel →
  Forall (λ h, is_Some (known_headers (CHAIN s) !! h)) blocks → length asciis = length blocks →
  ∃ s', mark_as_downloaded s fuel blocks asciis = Finished (Ok s') ∧ chain_wf (CHAIN s') ∧
    (∀ h, bn_fetched_full <$> known_headers (CHAIN s') !! h
          = (λ x, bn_fetched_full x || bool_decide (h ∈ blocks)) <$> known_headers (CHAIN s) !! h) ∧
    bn_fetched_full (top_header (CHAIN s'))
      = bn_fetched_full (top_header (CHAIN s)) || bool_decide (bn_hash (top_header (CHAIN s)) ∈ blocks) ∧
    calculate_downloaded_blocks (CHAIN s') fuel = Finished (Ok (DOWNLOADED_BLOCKS s')) ∧
    (chain_index (CHAIN s) → chain_index (CHAIN s')).
Proof. apply mark_as_downloaded_effect. Qed.

(** * The properties at the chain of three headers *)

Import Toy.
Import ToyChain.

Definition state2 : ChainMan := mkChainMan chain2 0 2 0 [].

(** The next header of the main chain, and two headers of another branch. *)
Definition next_header : BlockHeader := bn_header (child (top_header chain2) 3).
Definition side_parent : BlockHeaderWithNumber := child (top_header chain0) 9.
Definition side_header : BlockHeader := bn_header (child side_parent 10).

(** The state with the first header of the other branch. *)
Definition state_fork : ChainMan := with_header state2 side_parent.

Definition acceptableb (h : BlockHeader) : bool :=
  (length (bh_hash h) =? 32)%nat && is_valid h && negb (bool_decide (bh_hash h = EMPTY_HASH)).

Lemma acceptableb_ok h : acceptableb h = true → acceptable h.
Proof.
  unfold acceptableb. rewrite !andb_true_iff, Nat.eqb_eq, negb_true_iff, bool_decide_eq_false.
  intros [[H1 H2] H3]. exact (conj H1 (conj H2 H3)).
Qed.

Definition extends_chainb (s : ChainMan) (fuel : nat) (h : BlockHeader) (p : BlockHeaderWithNumber) :
    bool :=
  acceptableb h && bool_decide (known_headers (CHAIN s) !! bh_hash h = None) &&
  bool_decide (known_headers (CHAIN s) !! bh_parent h = Some p) &&
  match get_next_bits_required (CHAIN s) fuel p with
  | Finished (Ok b) => b =? bh_bits h
  | _ => false
  end &&
  (bn_total_work p + work_of h <? 2 ^ 256).

Lemma extends_chainb_ok s fuel h p : extends_chainb s fuel h p = true → extends_chain s fuel h p.
Proof.
  unfold extends_chainb. rewrite !andb_true_iff. intros ((((H1 & H2) & H3) & H4) & H5).
  apply acceptableb_ok in H1. apply bool_decide_eq_true in H2, H3. apply Z.ltb_lt in H5.
  destruct (get_next_bits_required _ _ _) as [[b| | |]|] eqn:E; try discriminate.
  apply Z.eqb_eq in H4. subst b. by constructor.
Qed.

Lemma state2_healthy : healthy state2 10.
Proof.
  constructor; [exact chain2_wf|vm_compute; reflexivity|vm_compute; repeat constructor].
Qed.

Lemma side_parent_extends : extends_chain state2 10 (bn_header side_parent) (top_header chain0).
Proof. apply extends_chainb_ok. vm_compute. reflexivity. Qed.

Lemma state_fork_healthy : healthy state_fork 10.
Proof.
  constructor; [|vm_compute; reflexivity|vm_compute; repeat constructor].
  assert (side_parent = new_header (top_header chain0) (bn_header side_parent)) as E
    by (vm_compute; reflexivity).
  unfold state_fork. rewrite E at 1. 
  apply (with_header_wf state2 10 _ _ state2_healthy side_parent_extends). vm_compute. discriminate.
Qed.

Lemma side_header_extends : extends_chain state_fork 10 side_header side_parent.
Proof. apply extends_chainb_ok. vm_compute. reflexivity. Qed.

Lemma state_fork_index : chain_index (CHAIN state_fork).
Proof.
  pose proof chain2_index as Hix. apply index_entries in Hix. apply index_entries.
  change (top_header (CHAIN state_fork)) with (top_header (CHAIN state2)).
  destruct (old_in_chain state2 10 _ _ state2_healthy side_parent_extends (top_header (CHAIN state2)))
    as [_ He]; [apply (wf_top _ chain2_wf)|].
  assert (entries (CHAIN state_fork) (top_header (CHAIN state2))
          = entries (CHAIN state2) (top_header (CHAIN state2))) as ->
    by (vm_compute; reflexivity).
  exact Hix.
Qed.

Lemma apply_header_outcomes_witness :
  ∃ count r, validate_and_apply_header_inner state_fork 10 side_header false
    = Finished (Ok (store_downloaded (with_top state_fork (new_header side_parent side_header)) count,
                    inr (Some r))).
Proof.
  assert (acceptable side_header) as Ha by (apply acceptableb_ok; vm_compute; reflexivity).
  pose proof (apply_header_outcomes state_fork 10 side_header false state_fork_healthy Ha) as Hr.
  cbv zeta in Hr. rewrite (ec_new _ _ _ _ side_header_extends), (ec_parent _ _ _ _ side_header_extends) in Hr.
  destruct Hr as (bits & Hb & Hr). rewrite (ec_bits _ _ _ _ side_header_extends) in Hb.
  apply Finished_Ok_inj in Hb. subst bits. rewrite Z.eqb_refl in Hr. cbn [negb] in Hr.
  destruct (2 ^ 256 <=? _) eqn:E1 in Hr; [vm_compute in E1; discriminate E1|].
  destruct (_ <? _) eqn:E2 in Hr; [vm_compute in E2; discriminate E2|].
  destruct (bool_decide _) eqn:E3 in Hr; [vm_compute in E3; discriminate E3|].
  destruct Hr as (new & old & common & count & _ & _ & _ & _ & _ & Hr). eexists count, _. exact Hr.
Defined.

Lemma next_header_extends : extends_chain state2 10 next_header (top_header chain2).
Proof. apply extends_chainb_ok. vm_compute. reflexivity. Qed.

Lemma state2_sync :
  validate_and_apply_headers state2 10 [next_header]
  = Finished (Ok (with_top state2 (new_header (top_header chain2) next_header), inr tt)).
Proof.
  cbn [validate_and_apply_headers].
  rewrite (apply_new state2 10 next_header _ true state2_healthy next_header_extends). cbv zeta.
  destruct (_ <? _) eqn:E; [vm_compute in E; discriminate E|]. reflexivity.
Qed.

Lemma header_sync_invariant_witness :
  ∃ s', validate_and_apply_headers state2 10 [next_header] = Finished (Ok (s', inr tt)) ∧
    chain_wf (CHAIN s') ∧ is_Some (known_headers (CHAIN s') !! bh_hash next_header).
Proof.
  eexists. split; [exact state2_sync|].
  assert (Forall acceptable [next_header]) as H1
    by (repeat constructor; apply (ec_ok _ _ _ _ next_header_extends)).
  assert (Z.of_nat (size (known_headers (CHAIN state2)) + length [next_header]) < isize_max) as H2
    by (vm_compute; reflexivity).
  assert (size (known_headers (CHAIN state2)) + length [next_header] < 10)%nat as H3
    by (vm_compute; repeat constructor).
  destruct (header_sync_invariant state2 10 [next_header] _ _ chain2_wf H1 H2 H3 state2_sync)
    as (Hwf & _ & _ & Hin).
  split; [exact Hwf|]. apply Hin; [reflexivity|apply list_elem_of_here].
Defined.

Lemma fork_outcome_witness :
  ∃ new old common count,
    entries (CHAIN state_fork) side_parent = new ++ common ∧
    validate_and_apply_header_inner state_fork 10 side_header false
    = Finished (Ok (store_downloaded (with_top state_fork (new_header side_parent side_header)) count,
        inr (Some (mkHeaderApplicationResult (entry (top_header chain2) :: old)
             (rev (map (λ e, (e.1, e.2 + 1)) new) ++ [entry (new_header side_parent side_header)]))))).
Proof.
  destruct (fork_outcome state_fork 10 side_header side_parent state_fork_healthy side_header_extends)
    as (new & old & common & count & H1 & _ & _ & _ & H2).
  - vm_compute. discriminate.
  - apply (proj1 (bool_decide_eq_false _)). vm_compute. reflexivity.
  - vm_compute. discriminate.
  - exists new, old, common, count. exact (conj H1 H2).
Defined.

Lemma extension_keeps_index_witness :
  ∃ s' r, validate_and_apply_header_inner state2 10 next_header false = Finished (Ok (s', inr (Some r))) ∧
    chain_index (update_most_work_chain (CHAIN s') r).
Proof.
  refine (extension_keeps_index state2 10 next_header (top_header chain2) state2_healthy chain2_index
    next_header_extends _ _).
  - vm_compute. discriminate.
  - apply (proj1 (bool_decide_eq_true _)). vm_compute. reflexivity.
Defined.

Lemma fork_loses_numbers_witness :
  ∃ s' r, validate_and_apply_header_inner state_fork 10 side_header false = Finished (Ok (s', inr (Some r))) ∧
    number_to_hash (update_most_work_chain (CHAIN s') r) !! 1 ≠ Some (bn_hash side_parent).
Proof.
  destruct (fork_loses_numbers state_fork 10 side_header side_parent state_fork_healthy state_fork_index
    side_header_extends) as (s' & r & Hr & _ & Hlost).
  - vm_compute. discriminate.
  - apply (proj1 (bool_decide_eq_false _)). vm_compute. reflexivity.
  - vm_compute. discriminate.
  - exists s', r. split; [exact Hr|]. apply (Hlost side_parent).
    + destruct (ancestors_head (CHAIN state_fork) side_parent) as [l Hl]. rewrite Hl.
      apply list_elem_of_here.
    + apply (proj1 (bool_decide_eq_false _)). vm_compute. reflexivity.
Defined.

Lemma mark_downloaded_spec_witness :
  ∃ s', mark_as_downloaded state2 10 [bn_hash (top_header chain0)] [bstr "The Times"] = Finished (Ok s') ∧
    chain_wf (CHAIN s') ∧ calculate_downloaded_blocks (CHAIN s') 10 = Finished (Ok (DOWNLOADED_BLOCKS s')).
Proof.
  destruct chain2_small as [Hf Hs].
  destruct (mark_downloaded_spec state2 10 [bn_hash (top_header chain0)] [bstr "The Times"]
    chain2_wf Hs Hf) as (s' & H1 & H2 & _ & _ & H3 & _).
  - repeat constructor. exists (top_header chain0). vm_compute. reflexivity.
  - reflexivity.
  - exists s'. exact (conj H1 (conj H2 H3)).
Defined.
