(* ===== verification/Script.v ===== *)
(** [src/tx/script.rs] and [src/util/hash.rs]: building scripts, taking them apart, and
    counting their signature operations. *)
From S2P Require Import Prelude.
From S2P Require Import Extern.
From S2P Require Import Varint.
From S2P Require Import Arena.
From S2P Require Import Wire.
From S2P Require Import Tx.
From S2P Require Import Loops.
From S2P Require Import Opcodes.

Definition MAX_PUBKEYS_PER_MULTISIG : Z := 20.
Definition WITNESS_V0_SCRIPTHASH_SIZE : Z := 32.
Definition WITNESS_V0_KEYHASH_SIZE : Z := 20.
Definition WITNESS_V1_TAPROOT_SIZE : Z := 32.

(** * Building scripts *)

Inductive AppendableToScript :=
| Int64 (n : Z)
| DataSize (size : Z)
| ByteArray (items : bytes).

(** [self.push(b)] for a [u8]. *)
Definition push (script : bytes) (b : Z) : bytes := script ++ [byte.of_Z b].

(** The bytes of [absvalue], lowest first; eight rounds empty a [u64]. *)
Fixpoint absvalue_bytes (fuel : nat) (absvalue : Z) : bytes :=
  match fuel with
  | O => []
  | S fuel =>
      if absvalue =? 0 then []
      else byte.of_Z (Z.land absvalue 0xFF) :: absvalue_bytes fuel (Z.shiftr absvalue 8)
  end.

(** [last_mut]: the result without its last byte, and that byte. *)
Definition serialize_i64 (value : Z) : bytes :=
  if value =? 0 then []
  else
    let neg := value <? 0 in
    let absvalue :=
      if neg then wrap64 (2 ^ 64 - 1 - wrap64 value + 1) else wrap64 value in
    let result := absvalue_bytes 8 absvalue in
    let last := match List.last result Byte.x00 with b => u8 b end in
    if bool_decide (Z.land last 0x80 ≠ 0) then push result (if neg then 0x80 else 0)
    else if neg then push (List.removelast result) (Z.lor last 0x80)
    else result.

Definition append_data_size (self : bytes) (size : Z) : bytes :=
  if size <? OP_PUSHDATA1 then push self (wrap8 size)
  else if size <=? 0xFF then push (push self OP_PUSHDATA1) (wrap8 size)
  else if size <=? 0xFFFF then push self OP_PUSHDATA2 ++ to_le 2 (wrap16 size)
  else push self OP_PUSHDATA4 ++ to_le 4 size.

Definition append_byte_array (self : bytes) (items : bytes) : bytes :=
  append_data_size self (wrap32 (len items)) ++ items.

Definition append_item (self : bytes) (item : AppendableToScript) : bytes :=
  match item with
  | Int64 n =>
      if (n =? -1) || ((1 <=? n) && (n <=? 16)) then push self (wrap8 (n + (OP_1 - 1)))
      else if n =? 0 then push self OP_0
      else append_byte_array self (serialize_i64 n)
  | DataSize size => append_data_size self size
  | ByteArray items => append_byte_array self items
  end.

Inductive Destination :=
| DestNone (items : bytes)
| PubKey (items : bytes)
| PubKeyHash (items : bytes)
| ScriptHash (items : bytes)
| WitnessV0KeyHash (items : bytes)
| WitnessV0ScriptHash (items : bytes)
| WitnessV1Taproot (items : bytes)
| WitnessUnknown (version : Z) (program : bytes).

Definition encode_op_n (value : Z) : Z :=
  if value =? 0 then OP_0 else wrap8 (OP_1 + value - 1).

Definition decode_op_n (opcode : Z) : Z :=
  if opcode =? OP_0 then 0 else wrap8 (opcode - (OP_1 - 1)).

Definition hash160 `{Sha256, Ripemd160} (input : bytes) : bytes := ripemd160 (sha256 input).

Definition get_script_for_destination `{Sha256, Ripemd160} (destination : Destination) : bytes :=
  match destination with
  | DestNone items => items
  | PubKey items => push (append_item [] (ByteArray items)) OP_CHECKSIG
  | PubKeyHash items =>
      let res := push (push [] OP_DUP) OP_HASH160 in
      let res := append_item res (ByteArray items) in
      push (push res OP_EQUALVERIFY) OP_CHECKSIG
  | ScriptHash items =>
      let res := push [] OP_HASH160 in
      push (append_item res (ByteArray (hash160 items))) OP_EQUAL
  | WitnessV0KeyHash items => append_item (push [] OP_0) (ByteArray (hash160 items))
  | WitnessV0ScriptHash items => append_item (push [] OP_0) (ByteArray (sha256 items))
  | WitnessV1Taproot items => append_item (push [] OP_1) (ByteArray items)
  | WitnessUnknown version program =>
      append_item (push [] (encode_op_n version)) (ByteArray program)
  end.

Definition get_script_for_multisig (n_required : Z) (keys : list bytes) : bytes :=
  let res := append_item [] (Int64 n_required) in
  let res := foldl (λ res k, append_item res (ByteArray k)) res keys in
  let res := append_item res (Int64 (as_i64 (len keys))) in
  push res OP_CHECKMULTISIG.

(** * Taking scripts apart *)

(** The size of the operand and what follows it. *)
Definition operand_size (opcode : Z) (script : bytes) : option (Z * bytes) :=
  if opcode <? OP_PUSHDATA1 then Some (opcode, script)
  else if opcode =? OP_PUSHDATA1 then
    match script with [] => None | size :: script => Some (u8 size, script) end
  else if opcode =? OP_PUSHDATA2 then
    if len script <? 2 then None else Some (from_le (take 2 script), drop 2 script)
  else if opcode =? OP_PUSHDATA4 then
    if len script <? 4 then None else Some (from_le (take 4 script), drop 4 script)
  else Some (0, script).

(** The result, and the script the argument is left at. *)
Definition get_script_op (script : bytes) : option (Z * option bytes) * bytes :=
  match script with
  | [] => (None, [])
  | b :: script =>
      let opcode := u8 b in
      if opcode <=? OP_PUSHDATA4 then
        match operand_size opcode script with
        | None => (None, script)
        | Some (nsize, script) =>
            if len script <? nsize then (None, script)
            else (Some (opcode, Some (take (Z.to_nat nsize) script)), drop (Z.to_nat nsize) script)
        end
      else (Some (opcode, None), script)
  end.

Definition is_pay_to_script_hash (script : bytes) : bool :=
  (len script =? 23) && (u8 (default Byte.x00 (script !! 0%nat)) =? OP_HASH160) &&
  (u8 (default Byte.x00 (script !! 1%nat)) =? 0x14) &&
  (u8 (default Byte.x00 (script !! 22%nat)) =? OP_EQUAL).

(** The sum in [script[1] + 2] is one of [u8]s. *)
Definition get_witness_program (script : bytes) : option (Z * bytes) :=
  if (len script <? 4) || (42 <? len script) then None
  else
    let s0 := u8 (default Byte.x00 (script !! 0%nat)) in
    let s1 := u8 (default Byte.x00 (script !! 1%nat)) in
    if negb (s0 =? OP_0) && ((s0 <? OP_1) || (OP_16 <? s0)) then None
    else if wrap8 (s1 + 2) =? len script then Some (decode_op_n s0, drop 2 script)
    else None.

(** The loops over a script take at least one byte per round, so that one round
    more than the script has bytes is fuel enough. *)
Definition script_loop {S R} (body : bytes * S → comp (bytes * S + R)) (script : bytes) (s : S) : comp R :=
  loop body (Datatypes.S (length script)) (script, s).

Definition is_push_only (script : bytes) : comp bool :=
  script_loop (λ '(remaining_script, tt),
    mret (if bool_decide (remaining_script = []) then inr true
          else
            match get_script_op remaining_script with
            | (Some (opcode, _), remaining_script) =>
                if OP_16 <? opcode then inr false else inl (remaining_script, tt)
            | (None, _) => inr false
            end)) script tt.

(** * Counting signature operations ([u32]) *)

Definition get_sigop_count (script : bytes) (accurate : bool) : comp Z :=
  script_loop (λ '(remaining_script, (total, last_opcode)),
    mret (if bool_decide (remaining_script = []) then inr total
          else
            match get_script_op remaining_script with
            | (None, _) => inr total
            | (Some (opcode, _), remaining_script) =>
                let total :=
                  if (opcode =? OP_CHECKSIG) || (opcode =? OP_CHECKSIGVERIFY) then wrap32 (total + 1)
                  else if (opcode =? OP_CHECKMULTISIG) || (opcode =? OP_CHECKMULTISIGVERIFY) then
                    if accurate && ((OP_1 <=? last_opcode) && (last_opcode <=? OP_16))
                    then wrap32 (total + decode_op_n last_opcode)
                    else wrap32 (total + MAX_PUBKEYS_PER_MULTISIG)
                  else total in
                inl (remaining_script, (total, opcode))
            end)) script (0, OP_INVALIDOPCODE).

Definition get_sigop_count2 (script_pub_key script_sig : bytes) : comp Z :=
  if negb (is_pay_to_script_hash script_pub_key) then get_sigop_count script_pub_key true
  else
    last_operand ← script_loop (λ '(remaining_script, last_operand),
        mret (if bool_decide (remaining_script = []) then inr (Some last_operand)
              else
                match get_script_op remaining_script with
                | (Some (opcode, operand), remaining_script) =>
                    if OP_16 <? opcode then inr None else inl (remaining_script, operand)
                | (None, _) => inr None
                end)) script_sig None;
    match last_operand with
    | None => mret 0
    | Some None => mret 0
    | Some (Some v) => get_sigop_count v true
    end.

Definition witness_sigops (version : Z) (witprogram witness : bytes) : comp Z :=
  if version =? 0 then
    if len witprogram =? WITNESS_V0_KEYHASH_SIZE then mret 1
    else if (len witprogram =? WITNESS_V0_SCRIPTHASH_SIZE) &&
            match witness with [] => false | b :: _ => negb (u8 b =? 0) end then
      witness_components ← Finished (unwrap (deserialize_array_of_varsrs_iter witness)
        "called `Result::unwrap()` on an `Err` value");
      items ← Finished (VarStrIter_collect (S (length witness)) witness_components);
      match items with
      | None => Running
      | Some items =>
          subscript ← Finished (expect (last items) "called `Option::unwrap()` on a `None` value");
          get_sigop_count subscript true
      end
    else mret 0
  else mret 0.

Definition count_witness_sigops (script script_pub_key witness_components : bytes) (flags : Z) : comp Z :=
  if Z.land flags SCRIPT_VERIFY_WITNESS =? 0 then mret 0
  else
    match get_witness_program script_pub_key with
    | Some (version, program) => witness_sigops version program witness_components
    | None =>
        push_only ← (if is_pay_to_script_hash script_pub_key then is_push_only script else mret false);
        if push_only : bool then
          last_data ← script_loop (λ '(remaining_script_sig, last_data),
              mret (if bool_decide (remaining_script_sig = []) then inr last_data
                    else
                      match get_script_op remaining_script_sig with
                      | (Some (_, Some data), remaining_script_sig) =>
                          inl (remaining_script_sig, Some data)
                      | (_, remaining_script_sig) => inl (remaining_script_sig, last_data)
                      end)) script None;
          match last_data with
          | None => mret 0
          | Some data =>
              match get_witness_program data with
              | Some (version, witness_program) =>
                  witness_sigops version witness_program witness_components
              | None => mret 0
              end
          end
        else mret 0
    end.

Definition get_legacy_sigops (tx : Tx) : comp Z :=
  let count (scripts : list bytes) :=
    for_comp (λ total script, n ← get_sigop_count script false; mret (wrap32 (total + n))) scripts 0 in
  txins_sigops ← count (map sig_script (txins tx));
  txouts_sigops ← count (map txout_script (txouts tx));
  mret (wrap32 (txins_sigops + txouts_sigops)).

(** [dependencies[i]] *)
Definition dependency (dependencies : list TxOut) (i : nat) : comp TxOut :=
  Finished (expect (dependencies !! i) "index out of bounds").

Definition get_p2sh_sigop_count (tx : Tx) (dependencies : list TxOut) : comp Z :=
  if is_coinbase tx then mret 0
  else
    for_comp (λ total '(i, txin),
      txout ← dependency dependencies i;
      if is_pay_to_script_hash (txout_script txout) then
        n ← get_sigop_count2 (txout_script txout) (sig_script txin);
        mret (wrap32 (total + n))
      else mret total) (imap pair (txins tx)) 0.

Definition get_transaction_sigop_cost (tx : Tx) (dependencies : list TxOut) (flags : Z) : comp Z :=
  legacy ← get_legacy_sigops tx;
  let sigops := wrap32 (4 * legacy) in
  if is_coinbase tx then mret sigops
  else
    sigops ← (if negb (Z.land flags SCRIPT_VERIFY_P2SH =? 0) then
                n ← get_p2sh_sigop_count tx dependencies;
                mret (wrap32 (sigops + wrap32 (4 * n)))
              else mret sigops);
    if negb (Z.land flags SCRIPT_VERIFY_WITNESS =? 0) then
      for_comp (λ sigops '(txin_idx, txin),
        txout ← dependency dependencies txin_idx;
        wd ← Finished (expect (witness_data tx) "called `Option::unwrap()` on a `None` value");
        a ← Finished (expect (wd !! txin_idx) "index out of bounds");
        n ← count_witness_sigops (sig_script txin) (txout_script txout) a flags;
        mret (wrap32 (sigops + n))) (imap pair (txins tx)) sigops
    else mret sigops.

(** * Lemmas on operations *)

Lemma push_app a script b : push (a ++ script) b = a ++ push script b.
Proof. unfold push. by rewrite app_assoc. Qed.

Lemma append_data_size_app self n : append_data_size self n = self ++ append_data_size [] n.
Proof.
  unfold append_data_size, push. repeat case_match; by rewrite <- ?app_assoc.
Qed.

Lemma append_byte_array_app self d : append_byte_array self d = self ++ append_byte_array [] d.
Proof. unfold append_byte_array. by rewrite append_data_size_app, <- app_assoc. Qed.

Lemma append_item_app self i : append_item self i = self ++ append_item [] i.
Proof.
  destruct i; simpl; [|apply append_data_size_app|apply append_byte_array_app].
  repeat case_match; [done..|apply append_byte_array_app].
Qed.

Lemma u8_of_Z z : 0 <= z < 2 ^ 8 → u8 (byte.of_Z z) = z.
Proof. intros Hz. rewrite byte.unsigned_of_Z. unfold byte.wrap. by apply Z.mod_small. Qed.

Lemma get_script_op_shorter script r script' :
  get_script_op script = (r, script') → script ≠ [] → (length script' < length script)%nat.
Proof.
  unfold get_script_op, operand_size. destruct script as [|b script]; [done|]. intros Hr _.
  repeat case_match; simplify_eq; simpl in *; rewrite ?length_drop; lia.
Qed.

(** What an operation of size [n] is prefixed with. *)
Lemma operand_size_data b0 n :
  0 <= n < 2 ^ 32 →
  ∃ b t, append_data_size [] n = b :: t ∧ u8 b <= OP_PUSHDATA4 ∧
    (n < OP_PUSHDATA1 → u8 b = n) ∧
    operand_size (u8 b) (t ++ b0) = Some (n, b0).
Proof.
  intros Hn. unfold append_data_size, push, OP_PUSHDATA1, OP_PUSHDATA4, OP_PUSHDATA2.
  destruct (Z.ltb_spec n 0x4c); [|destruct (Z.leb_spec n 0xFF); [|destruct (Z.leb_spec n 0xFFFF)]].
  - exists (byte.of_Z (wrap8 n)), []. unfold wrap8. rewrite Z.mod_small, u8_of_Z by lia.
    split_and!; [done|lia|done|]. unfold operand_size, OP_PUSHDATA1. by rewrite (proj2 (Z.ltb_lt _ _)).
  - exists (byte.of_Z 0x4c), [byte.of_Z (wrap8 n)]. rewrite u8_of_Z by lia.
    split_and!; [done|lia|lia|]. unfold operand_size, OP_PUSHDATA1. simpl.
    unfold wrap8. by rewrite Z.mod_small, u8_of_Z by lia.
  - exists (byte.of_Z 0x4d), (to_le 2 (wrap16 n)). rewrite u8_of_Z by lia.
    split_and!; [done|lia|lia|]. unfold operand_size, OP_PUSHDATA1, OP_PUSHDATA2. simpl.
    pose proof (len_nonneg b0). rewrite len_app, len_to_le, (proj2 (Z.ltb_ge _ _)) by lia.
    assert (length (to_le 2 (wrap16 n)) = 2%nat) as Hl by (pose proof (len_to_le 2 (wrap16 n)); unfold len in *; lia).
    rewrite take_app_length', drop_app_length' by done. unfold wrap16.
    by rewrite Z.mod_small, from_le_to_le by (simpl; lia).
  - exists (byte.of_Z 0x4e), (to_le 4 n). rewrite u8_of_Z by lia.
    split_and!; [done|lia|lia|]. unfold operand_size, OP_PUSHDATA1, OP_PUSHDATA2, OP_PUSHDATA4. simpl.
    pose proof (len_nonneg b0). rewrite len_app, len_to_le, (proj2 (Z.ltb_ge _ _)) by lia.
    assert (length (to_le 4 n) = 4%nat) as Hl by (pose proof (len_to_le 4 n); unfold len in *; lia).
    by rewrite take_app_length', drop_app_length', from_le_to_le by (done || simpl; lia).
Qed.

Lemma get_script_op_data d rest :
  len d < 2 ^ 32 →
  ∃ op, op <= OP_PUSHDATA4 ∧ (len d < OP_PUSHDATA1 → op = len d) ∧
    get_script_op (append_byte_array [] d ++ rest) = (Some (op, Some d), rest).
Proof.
  intros Hd. pose proof (len_nonneg d). pose proof (len_nonneg rest).
  destruct (operand_size_data (d ++ rest) (len d)) as (b & t & Hb & Hop & Hsmall & Hsize); [lia|].
  exists (u8 b). split_and!; [done|done|]. unfold append_byte_array.
  unfold wrap32. rewrite Z.mod_small, Hb by lia. simpl.
  rewrite (proj2 (Z.leb_le _ _)), <- app_assoc, Hsize by done.
  rewrite (proj2 (Z.ltb_ge _ _)) by (rewrite len_app; lia).
  unfold len. by rewrite Nat2Z.id, take_app_length, drop_app_length.
Qed.

Lemma get_script_op_simple b rest :
  OP_PUSHDATA4 < u8 b → get_script_op (b :: rest) = (Some (u8 b, None), rest).
Proof. intros Hb. simpl. by rewrite (proj2 (Z.leb_gt _ _)). Qed.

(** ** The operations of a script

    [script_ops script ops whole]: the operations [get_script_op] finds in a script
    one after the other, and whether they make up the whole of it. *)
Inductive script_ops : bytes → list (Z * option bytes) → bool → Prop :=
| SO_empty : script_ops [] [] true
| SO_bad script rest : script ≠ [] → get_script_op script = (None, rest) → script_ops script [] false
| SO_op script op rest ops whole :
    script ≠ [] → get_script_op script = (Some op, rest) → script_ops rest ops whole →
    script_ops script (op :: ops) whole.

Lemma script_ops_total script : ∃ ops whole, script_ops script ops whole.
Proof.
  remember (length script) as n eqn:Hn. assert (length script ≤ n)%nat as Hle by lia. clear Hn.
  revert script Hle. induction n as [|n IH]; intros script Hle.
  { destruct script; [|simpl in Hle; lia]. do 2 eexists. constructor. }
  destruct (decide (script = [])) as [-> |Hne]; [do 2 eexists; constructor|].
  destruct (get_script_op script) as [[op|] rest] eqn:E; [|do 2 eexists; by eapply SO_bad].
  pose proof (get_script_op_shorter _ _ _ E Hne).
  destruct (IH rest) as (ops & whole & Hr); [lia|]. do 2 eexists. by eapply SO_op.
Qed.

Lemma script_ops_fun script ops whole ops' whole' :
  script_ops script ops whole → script_ops script ops' whole' → ops = ops' ∧ whole = whole'.
Proof.
  intros H. revert ops' whole'. induction H as [|script rest Hne E|script op rest ops whole Hne E H IH];
    intros ops' whole' H'; inversion H'; subst; try done; try congruence.
  match goal with E' : get_script_op script = _ |- _ => rewrite E in E'; injection E' as <- <- end.
  match goal with Ho : script_ops rest ?o ?w |- _ => by destruct (IH o w Ho) as [-> ->] end.
Qed.

Lemma script_loop_ext {S R} (f g : bytes * S → comp (bytes * S + R)) script s :
  (∀ x, f x = g x) → script_loop f script s = script_loop g script s.
Proof. apply loop_ext. Qed.

(** The loops over a script fold over its operations. *)
Lemma script_loop_spec {S R} (step : S → Z * option bytes → S + R) (bad fin : S → R) script ops whole s :
  script_ops script ops whole →
  script_loop (λ '(script, s),
    mret (if bool_decide (script = []) then inr (fin s)
          else match get_script_op script with
               | (Some op, script) =>
                   match step s op with inl s => inl (script, s) | inr r => inr r end
               | (None, _) => inr (bad s)
               end)) script s
  = Finished (Ok ((fix run ops s :=
      match ops with
      | [] => if whole then fin s else bad s
      | op :: ops => match step s op with inl s => run ops s | inr r => r end
      end) ops s)).
Proof.
  intros Hops. unfold script_loop.
  assert (∀ fuel s, (length script < fuel)%nat → loop (λ '(script, s),
    mret (if bool_decide (script = []) then inr (fin s)
          else match get_script_op script with
               | (Some op, script) =>
                   match step s op with inl s => inl (script, s) | inr r => inr r end
               | (None, _) => inr (bad s)
               end)) fuel (script, s)
  = Finished (Ok ((fix run ops s :=
      match ops with
      | [] => if whole then fin s else bad s
      | op :: ops => match step s op with inl s => run ops s | inr r => r end
      end) ops s))) as Hgen; [|by apply Hgen; lia].
  clear s. induction Hops as [|script rest Hne E|script op rest ops whole Hne E Hops IH]; intros fuel s Hf.
  - destruct fuel; [simpl in Hf; lia|]. done.
  - destruct fuel; [simpl in Hf; lia|]. apply loop_inr. by rewrite bool_decide_false, E.
  - destruct fuel as [|fuel]; [lia|]. pose proof (get_script_op_shorter _ _ _ E Hne).
    destruct (step s op) as [s'|r] eqn:Hs.
    + erewrite loop_inl; [apply IH; lia|]. by rewrite bool_decide_false, E, Hs.
    + apply loop_inr. by rewrite bool_decide_false, E, Hs.
Qed.

(** ** The counts, as functions of the operations *)

Fixpoint parse_ops (fuel : nat) (script : bytes) : list (Z * option bytes) * bool :=
  match fuel, script with
  | O, _ => ([], false)
  | _, [] => ([], true)
  | S fuel, _ =>
      match get_script_op script with
      | (None, _) => ([], false)
      | (Some op, rest) => let '(ops, whole) := parse_ops fuel rest in (op :: ops, whole)
      end
  end.

Definition ops (script : bytes) : list (Z * option bytes) * bool :=
  parse_ops (S (length script)) script.

Lemma parse_ops_script_ops fuel script :
  (length script < fuel)%nat → script_ops script (parse_ops fuel script).1 (parse_ops fuel script).2.
Proof.
  revert script. induction fuel as [|fuel IH]; intros script Hf; [lia|].
  destruct (decide (script = [])) as [-> |Hne]; [constructor|].
  assert (parse_ops (S fuel) script = match get_script_op script with
      | (None, _) => ([], false)
      | (Some op, rest) => let '(ops, whole) := parse_ops fuel rest in (op :: ops, whole)
      end) as -> by by destruct script.
  destruct (get_script_op script) as [[op|] rest] eqn:E; [|by eapply SO_bad].
  pose proof (get_script_op_shorter _ _ _ E Hne). specialize (IH rest ltac:(lia)).
  destruct (parse_ops fuel rest) as [l w]. by eapply SO_op.
Qed.

Lemma ops_script_ops script : script_ops script (ops script).1 (ops script).2.
Proof. apply parse_ops_script_ops. lia. Qed.

(** The signature operations of one operation, after the opcode [last]. *)
Definition op_sigops (accurate : bool) (last opcode : Z) : Z :=
  if (opcode =? OP_CHECKSIG) || (opcode =? OP_CHECKSIGVERIFY) then 1
  else if (opcode =? OP_CHECKMULTISIG) || (opcode =? OP_CHECKMULTISIGVERIFY) then
    if accurate && ((OP_1 <=? last) && (last <=? OP_16)) then last - (OP_1 - 1) else 20
  else 0.

Fixpoint sigops_of (accurate : bool) (last : Z) (l : list (Z * option bytes)) : Z :=
  match l with
  | [] => 0
  | (opcode, _) :: l => op_sigops accurate last opcode + sigops_of accurate opcode l
  end.

Definition sigops (accurate : bool) (script : bytes) : Z :=
  sigops_of accurate OP_INVALIDOPCODE (ops script).1.

Definition push_only (script : bytes) : bool :=
  (ops script).2 && forallb (λ op, op.1 <=? OP_16) (ops script).1.

(** The operand of the last operation, when it has one. *)
Definition last_operand (script : bytes) : option bytes := last (ops script).1 ≫= snd.

(** The operand of the last operation that has one. *)
Definition last_data (script : bytes) : option bytes := last (omap snd (ops script).1).

Lemma wrap32_add_l a b : wrap32 (wrap32 a + b) = wrap32 (a + b).
Proof. apply Zplus_mod_idemp_l. Qed.

(** The total after one more operation. *)
Definition add_sigops (accurate : bool) (total last opcode : Z) : Z :=
  let n := op_sigops accurate last opcode in if n =? 0 then total else wrap32 (total + n).

Lemma add_sigops_wrap accurate t last opcode :
  add_sigops accurate (wrap32 t) last opcode = wrap32 (t + op_sigops accurate last opcode).
Proof.
  unfold add_sigops. destruct (Z.eqb_spec (op_sigops accurate last opcode) 0) as [->|].
  - by rewrite Z.add_0_r.
  - apply wrap32_add_l.
Qed.

Lemma get_sigop_count_spec script accurate :
  get_sigop_count script accurate = Finished (Ok (wrap32 (sigops accurate script))).
Proof.
  unfold get_sigop_count, sigops. pose proof (ops_script_ops script) as Hops.
  destruct (ops script) as [l whole]. simpl in *.
  etrans; [apply script_loop_ext|etrans; [apply (script_loop_spec
    (λ '(total, last) '(opcode, _), inl (add_sigops accurate total last opcode, opcode))
    fst fst _ l whole (0, OP_INVALIDOPCODE) Hops)|]].
  - intros [s [total last]]. case_bool_decide; [done|].
    destruct (get_script_op s) as [[[opcode operand]|] rest]; [|done]. unfold add_sigops, op_sigops. do 3 f_equal.
    repeat case_match; try done; do 3 f_equal;
      unfold decode_op_n, wrap8, OP_0, OP_1, OP_16, MAX_PUBKEYS_PER_MULTISIG in *;
      rewrite ?andb_true_iff, ?Z.leb_le, ?Z.eqb_eq in *; try lia;
      rewrite ?(proj2 (Z.eqb_neq _ _)) by lia; rewrite ?Z.mod_small by lia; done.
  - do 2 f_equal. assert (∀ t last, (fix run ops s := match ops with
      | [] => if whole then fst s else fst s
      | op :: ops => match (λ '(total, last) '(opcode, _),
            inl (add_sigops accurate total last opcode, opcode)) s op : (Z * Z) + Z
          with inl s => run ops s | inr r => r end
      end) l (wrap32 t, last) = wrap32 (t + sigops_of accurate last l)) as Hrun.
    { clear Hops. induction l as [|[opcode o] l IH]; intros t last; simpl.
      - rewrite Z.add_0_r. by destruct whole.
      - by rewrite add_sigops_wrap, IH, <- Z.add_assoc. }
    apply (Hrun 0).
Qed.

Lemma is_push_only_spec script : is_push_only script = Finished (Ok (push_only script)).
Proof.
  unfold is_push_only, push_only. pose proof (ops_script_ops script) as Hops.
  destruct (ops script) as [l whole]. simpl in *.
  etrans; [apply script_loop_ext|etrans; [apply (script_loop_spec
    (λ (_ : unit) '(opcode, _), if OP_16 <? opcode then inr false else inl tt)
    (λ _, false) (λ _, true) _ l whole tt Hops)|]].
  - intros [s []]. case_bool_decide; [done|].
    destruct (get_script_op s) as [[[opcode operand]|] rest]; [|done]. by case_match.
  - do 2 f_equal. clear Hops. induction l as [|[opcode o] l IH]; simpl; [by destruct whole|].
    destruct (Z.ltb_spec OP_16 opcode), (Z.leb_spec opcode OP_16); try lia.
    by rewrite IH.
Qed.

(** The signature operations of what a P2SH output is spent with. *)
Definition p2sh_sigops (script_pub_key script_sig : bytes) : Z :=
  if is_pay_to_script_hash script_pub_key then
    if push_only script_sig then
      match last_operand script_sig with Some v => sigops true v | None => 0 end
    else 0
  else sigops true script_pub_key.

Lemma last_cons_snd {A B} (f : A → option B) x (l : list A) :
  last (x :: l) ≫= f = match l with [] => f x | _ => last l ≫= f end.
Proof. by destruct l. Qed.

Lemma get_sigop_count2_spec script_pub_key script_sig :
  get_sigop_count2 script_pub_key script_sig
  = Finished (Ok (wrap32 (p2sh_sigops script_pub_key script_sig))).
Proof.
  unfold get_sigop_count2, p2sh_sigops. destruct (is_pay_to_script_hash script_pub_key); simpl;
    [|apply get_sigop_count_spec].
  pose proof (ops_script_ops script_sig) as Hops. unfold push_only, last_operand.
  destruct (ops script_sig) as [l whole]. simpl in *.
  assert (∀ o, script_loop (λ '(remaining_script, last_operand),
        mret (if bool_decide (remaining_script = []) then inr (Some last_operand)
              else
                match get_script_op remaining_script with
                | (Some (opcode, operand), remaining_script) =>
                    if OP_16 <? opcode then inr None else inl (remaining_script, operand)
                | (None, _) => inr None
                end)) script_sig o
    = Finished (Ok (if whole && forallb (λ op, op.1 <=? OP_16) l
                    then Some (match l with [] => o | _ => last l ≫= snd end) else None))) as Hloop.
  { intros o. etrans; [apply script_loop_ext|etrans; [apply (script_loop_spec
      (λ (_ : option bytes) '(opcode, operand), if OP_16 <? opcode then inr None else inl operand)
      (λ _, None) Some _ l whole o Hops)|]].
    - intros [s o']. case_bool_decide; [done|].
      destruct (get_script_op s) as [[[opcode operand]|] rest]; [|done]. by case_match.
    - do 2 f_equal. clear Hops. revert o. induction l as [|[opcode operand] l IH]; intros o.
      { by destruct whole. }
      rewrite last_cons_snd. simpl.
      destruct (Z.ltb_spec OP_16 opcode), (Z.leb_spec opcode OP_16); try lia.
      + by destruct whole.
      + by rewrite IH. }
  rewrite Hloop. cbn [mbind comp_bind]. destruct (whole && _); [|done].
  destruct l as [|op l]; [done|]. destruct (last (op :: l) ≫= snd) as [v|]; [|done].
  apply get_sigop_count_spec.
Qed.

(** A witness is the encoding of a list of items. *)
Definition items_sigops (version : Z) (program : bytes) (items : list bytes) : Z :=
  if version =? 0 then
    if len program =? WITNESS_V0_KEYHASH_SIZE then 1
    else if len program =? WITNESS_V0_SCRIPTHASH_SIZE then
      match last items with Some v => wrap32 (sigops true v) | None => 0 end
    else 0
  else 0.

Lemma encode_varint_head v : in_u64 v → ∃ b t, encode_varint v = b :: t ∧ (u8 b = 0 ↔ v = 0).
Proof.
  intros Hv. unfold encode_varint. varint_cases v; rewrite to_le_cons;
    do 2 eexists; (split; [reflexivity|]); rewrite u8_of_Z by mlia; lia.
Qed.

Lemma witness_sigops_spec version program items :
  slice_ok (encode_varstrs items) →
  witness_sigops version program (encode_varstrs items)
  = Finished (Ok (items_sigops version program items)).
Proof.
  intros Hs. unfold witness_sigops, items_sigops. destruct (version =? 0); [|done].
  destruct (len program =? WITNESS_V0_KEYHASH_SIZE); [done|].
  destruct (len program =? WITNESS_V0_SCRIPTHASH_SIZE); [|done]. cbn [andb].
  assert (in_u64 (len items)) as Hi.
  { pose proof (len_concat_encode_varstr items). pose proof (len_nonneg items).
    pose proof (length_varint_range (len items)).
    unfold encode_varstrs, slice_ok in Hs. autorewrite with len in Hs. unfold isize_max in Hs. mlia. }
  destruct (encode_varint_head (len items) Hi) as (b & t & Hb & Hz).
  assert (match encode_varstrs items with [] => false | b :: _ => negb (u8 b =? 0) end
          = negb (len items =? 0)) as ->.
  { unfold encode_varstrs. rewrite Hb. simpl. f_equal.
    destruct (Z.eqb_spec (u8 b) 0), (Z.eqb_spec (len items) 0); tauto || lia. }
  destruct items as [|x items].
  { done. }
  rewrite (proj2 (Z.eqb_neq _ _)) by len_lia. cbn [negb].
  unfold deserialize_array_of_varsrs_iter.
  pose proof (deserialize_varint_varstrs (x :: items) []) as Hd. rewrite app_nil_r in Hd.
  rewrite Hd by done. cbn [mbind outcome_bind unwrap comp_bind].
  rewrite (VarStrIter_collect_at (x :: items) _ []).
  - cbn [mbind comp_bind]. destruct (last (x :: items)) as [v|] eqn:E; [|by apply last_None in E].
    cbn [expect mbind comp_bind]. apply get_sigop_count_spec.
  - split_and!; [done..|]. simpl vsi_buffer. simpl vsi_offset.
    replace (length_varint (len (x :: items))) with (0 + len (encode_varint (len (x :: items))))
      by (rewrite len_encode_varint; lia).
    apply tail_at_app. rewrite app_nil_r. apply tail_at_0.
  - pose proof (len_concat_encode_varstr (x :: items)). unfold encode_varstrs. rewrite length_app.
    unfold len in *. lia.
Qed.

Definition witness_cost (script script_pub_key : bytes) (items : list bytes) : Z :=
  match get_witness_program script_pub_key with
  | Some (version, program) => items_sigops version program items
  | None =>
      if is_pay_to_script_hash script_pub_key && push_only script then
        match last_data script ≫= get_witness_program with
        | Some (version, program) => items_sigops version program items
        | None => 0
        end
      else 0
  end.

Lemma last_data_loop script :
  push_only script = true →
  script_loop (λ '(remaining_script_sig, last_data),
      mret (if bool_decide (remaining_script_sig = []) then inr last_data
            else
              match get_script_op remaining_script_sig with
              | (Some (_, Some data), remaining_script_sig) => inl (remaining_script_sig, Some data)
              | (_, remaining_script_sig) => inl (remaining_script_sig, last_data)
              end)) script None
  = Finished (Ok (last_data script)).
Proof.
  unfold push_only, last_data. pose proof (ops_script_ops script) as Hops.
  destruct (ops script) as [l whole]. simpl in *. intros [-> _]%andb_true_iff.
  assert (∀ fuel (o : option bytes), (length script < fuel)%nat →
    loop (λ '(remaining_script_sig, last_data),
      mret (if bool_decide (remaining_script_sig = []) then inr last_data
            else
              match get_script_op remaining_script_sig with
              | (Some (_, Some data), remaining_script_sig) => inl (remaining_script_sig, Some data)
              | (_, remaining_script_sig) => inl (remaining_script_sig, last_data)
              end)) fuel (script, o)
    = Finished (Ok (match omap snd l with [] => o | d => last d end))) as Hgen.
  { remember true as whole eqn:Hw. induction Hops as [| |script [opcode o'] rest l whole Hne E Hops IH];
      [|done|]; intros fuel o Hf.
    - destruct fuel; [simpl in Hf; lia|]. by apply loop_inr.
    - destruct fuel as [|fuel]; [lia|]. pose proof (get_script_op_shorter _ _ _ E Hne).
      rewrite (loop_inl _ _ _ (rest, match o' with Some d => Some d | None => o end))
        by (rewrite bool_decide_false, E by done; by destruct o').
      destruct o' as [d|]; rewrite IH by (done || lia); [|done].
      change (omap snd ((opcode, Some d) :: l)) with (d :: omap snd l). by destruct (omap snd l). }
  unfold script_loop. rewrite Hgen by lia. by destruct (omap snd l).
Qed.

Lemma count_witness_sigops_spec script script_pub_key items flags :
  slice_ok (encode_varstrs items) →
  count_witness_sigops script script_pub_key (encode_varstrs items) flags
  = Finished (Ok (if Z.land flags SCRIPT_VERIFY_WITNESS =? 0 then 0
                  else witness_cost script script_pub_key items)).
Proof.
  intros Hs. unfold count_witness_sigops, witness_cost. case_match; [done|].
  destruct (get_witness_program script_pub_key) as [[version program]|].
  { by apply witness_sigops_spec. }
  destruct (is_pay_to_script_hash script_pub_key); [|done]. rewrite is_push_only_spec.
  cbn [mbind comp_bind andb]. destruct (push_only script) eqn:Hp; [|done].
  rewrite last_data_loop by done. cbn [mbind comp_bind].
  destruct (last_data script) as [data|]; [|done]. simpl.
  destruct (get_witness_program data) as [[version program]|]; [|done]. by apply witness_sigops_spec.
Qed.

(** ** The cost of a transaction *)

Definition sumZ (l : list Z) : Z := foldr Z.add 0 l.

Lemma for_comp_sum {A} (h : Z → A → comp Z) (g : A → Z) l t :
  (∀ x t, x ∈ l → h (wrap32 t) x = Finished (Ok (wrap32 (t + g x)))) →
  for_comp h l (wrap32 t) = Finished (Ok (wrap32 (t + sumZ (map g l)))).
Proof.
  revert t. induction l as [|x l IH]; intros t Hh; simpl.
  - by rewrite Z.add_0_r.
  - rewrite Hh by left. cbn [mbind comp_bind]. rewrite IH, Z.add_assoc; [done|].
    intros y t' Hy. apply Hh. by right.
Qed.

Definition legacy_sigops (tx : Tx) : Z :=
  sumZ (map (sigops false) (map sig_script (txins tx))) +
  sumZ (map (sigops false) (map txout_script (txouts tx))).

Lemma get_legacy_sigops_spec tx :
  get_legacy_sigops tx = Finished (Ok (wrap32 (legacy_sigops tx))).
Proof.
  unfold get_legacy_sigops, legacy_sigops. change 0 with (wrap32 0) at 1 2.
  assert (∀ l : list bytes, for_comp (λ total script,
      n ← get_sigop_count script false; mret (wrap32 (total + n))) l (wrap32 0)
    = Finished (Ok (wrap32 (sumZ (map (sigops false) l))))) as Hl.
  { intros l. rewrite (for_comp_sum _ (sigops false)); [done|]. intros x t _.
    rewrite get_sigop_count_spec. cbn [mbind comp_bind].
    by rewrite wrap32_add_l, Z.add_comm, wrap32_add_l, Z.add_comm. }
  rewrite !Hl. cbn [mbind comp_bind]. by rewrite wrap32_add_l, Z.add_comm, wrap32_add_l, Z.add_comm.
Qed.

(** What an input adds to the cost, besides the count of its script. *)
Definition input_p2sh (dependencies : list TxOut) (x : nat * TxIn) : Z :=
  match dependencies !! x.1 with
  | Some txout =>
      if is_pay_to_script_hash (txout_script txout)
      then p2sh_sigops (txout_script txout) (sig_script x.2) else 0
  | None => 0
  end.

Definition input_witness (dependencies : list TxOut) (witnesses : list (list bytes))
    (x : nat * TxIn) : Z :=
  match dependencies !! x.1, witnesses !! x.1 with
  | Some txout, Some items => witness_cost (sig_script x.2) (txout_script txout) items
  | _, _ => 0
  end.

Lemma imap_pair_lookup {A} (l : list A) i x : (i, x) ∈ imap pair l → l !! i = Some x.
Proof.
  intros [j Hj]%list_elem_of_lookup. rewrite list_lookup_imap in Hj.
  destruct (l !! j) as [y|] eqn:E; simpl in Hj; [|done]. by simplify_eq.
Qed.

Lemma get_p2sh_sigop_count_spec tx dependencies :
  is_coinbase tx = false → (length (txins tx) ≤ length dependencies)%nat →
  get_p2sh_sigop_count tx dependencies
  = Finished (Ok (wrap32 (sumZ (map (input_p2sh dependencies) (imap pair (txins tx)))))).
Proof.
  intros Hc Hl. unfold get_p2sh_sigop_count. rewrite Hc. change 0 with (wrap32 0) at 1.
  rewrite (for_comp_sum _ (input_p2sh dependencies)); [done|]. intros [i x] t Hx.
  apply imap_pair_lookup, lookup_lt_Some in Hx.
  destruct (lookup_lt_is_Some_2 dependencies i) as [o Ho]; [lia|].
  unfold dependency, input_p2sh. simpl. rewrite Ho. cbn [expect mbind comp_bind].
  destruct (is_pay_to_script_hash (txout_script o)); [|by rewrite Z.add_0_r].
  rewrite get_sigop_count2_spec. cbn [mbind comp_bind].
  by rewrite wrap32_add_l, Z.add_comm, wrap32_add_l, Z.add_comm.
Qed.

(** ** Scripts of destinations *)

Lemma append_short self d :
  len d < OP_PUSHDATA1 → append_item self (ByteArray d) = self ++ byte.of_Z (len d) :: d.
Proof.
  intros Hd. pose proof (len_nonneg d). unfold OP_PUSHDATA1 in Hd. simpl.
  rewrite append_byte_array_app. unfold append_byte_array, append_data_size, OP_PUSHDATA1.
  unfold wrap32. rewrite Z.mod_small by lia. rewrite (proj2 (Z.ltb_lt _ _)) by lia.
  unfold push, wrap8. by rewrite Z.mod_small by lia.
Qed.

Lemma get_witness_program_intro v program :
  0 <= v <= 16 → 2 <= len program <= 40 →
  get_witness_program (append_item (push [] (encode_op_n v)) (ByteArray program)) = Some (v, program).
Proof.
  intros Hv Hl. rewrite append_short by (unfold OP_PUSHDATA1; lia). unfold push. simpl.
  unfold get_witness_program. rewrite !len_cons. simpl.
  rewrite (proj2 (Z.ltb_ge _ 4)), (proj2 (Z.ltb_ge 42 _)) by lia. cbn [orb].
  assert (u8 (byte.of_Z (encode_op_n v)) = if v =? 0 then 0 else 0x50 + v) as ->.
  { unfold encode_op_n, OP_0, OP_1, wrap8.
    destruct (Z.eqb_spec v 0); rewrite u8_of_Z; rewrite ?Z.mod_small by lia; lia. }
  rewrite u8_of_Z by lia. unfold decode_op_n, wrap8, OP_0, OP_1, OP_16.
  rewrite (Z.mod_small (len program + 2)), (proj2 (Z.eqb_eq _ (1 + (1 + len program)))) by lia.
  destruct (Z.eqb_spec v 0) as [-> |Hv0]; [done|].
  rewrite (proj2 (Z.eqb_neq (0x50 + v) 0)) by lia.
  rewrite (proj2 (Z.ltb_ge (0x50 + v) _)), (proj2 (Z.ltb_ge 0x60 _)) by lia. cbn [negb orb andb].
  rewrite Z.mod_small by lia. do 2 f_equal. lia.
Qed.

(** The operations of a script that starts with a push or with a simple opcode. *)
Lemma ops_unique script l whole : script_ops script l whole → ops script = (l, whole).
Proof.
  intros H. destruct (script_ops_fun _ _ _ _ _ (ops_script_ops script) H) as [<- <-].
  by destruct (ops script).
Qed.

Lemma script_ops_push d rest l whole :
  len d < 2 ^ 32 → script_ops rest l whole →
  ∃ op, op <= OP_PUSHDATA4 ∧ script_ops (append_byte_array [] d ++ rest) ((op, Some d) :: l) whole.
Proof.
  intros Hd Hr. destruct (get_script_op_data d rest Hd) as (op & Hop & _ & Hg). exists op.
  split; [done|]. eapply SO_op; [|done|done]. intros E. by rewrite E in Hg.
Qed.

Lemma script_ops_simple z rest l whole :
  OP_PUSHDATA4 < z < 2 ^ 8 → script_ops rest l whole →
  script_ops (byte.of_Z z :: rest) ((z, None) :: l) whole.
Proof.
  intros Hz Hr. eapply SO_op; [done| |done]. unfold OP_PUSHDATA4 in *.
  rewrite get_script_op_simple; rewrite u8_of_Z by lia; (done || (unfold OP_PUSHDATA4; lia)).
Qed.

(** ** Script numbers *)

(** The number that bytes stand for: little-endian, the highest bit a sign. *)
Definition decode_number (b : bytes) : Z :=
  let m := 2 ^ (8 * len b - 1) in
  if from_le b <? m then from_le b else m - from_le b.

Lemma absvalue_bytes_spec fuel v :
  0 <= v < 2 ^ (8 * Z.of_nat fuel) →
  from_le (absvalue_bytes fuel v) = v ∧
  (0 < v → 2 ^ (8 * (len (absvalue_bytes fuel v) - 1)) <= v ∧ absvalue_bytes fuel v ≠ []).
Proof.
  revert v. induction fuel as [|fuel IH]; intros v Hv.
  { simpl. replace v with 0 by lia. split; [done|lia]. }
  cbn [absvalue_bytes]. destruct (Z.eqb_spec v 0) as [-> |Hnz]; [split; [done|lia]|].
  rewrite Z.shiftr_div_pow2 by lia.
  assert (0 <= v / 2 ^ 8 < 2 ^ (8 * Z.of_nat fuel)) as Hd.
  { split; [apply Z.div_pos; lia|]. apply Z.div_lt_upper_bound; [lia|].
    rewrite <- Z.pow_add_r by lia. replace (8 + 8 * Z.of_nat fuel) with (8 * Z.of_nat (S fuel)) by lia. lia. }
  destruct (IH _ Hd) as [Hf Hmin]. change (Z.land v 0xFF) with (Z.land v (Z.ones 8)).
  rewrite Z.land_ones by lia. pose proof (Z.div_mod v (2 ^ 8) ltac:(lia)) as Hdm.
  pose proof (Z.mod_pos_bound v (2 ^ 8) ltac:(lia)) as Hm. split.
  - assert (from_le (byte.of_Z (v mod 2 ^ 8) :: absvalue_bytes fuel (v / 2 ^ 8))
      = v mod 2 ^ 8 + 2 ^ 8 * from_le (absvalue_bytes fuel (v / 2 ^ 8))) as ->; [|lia].
    rewrite from_le_cons, u8_of_Z by lia. lia.
  - intros _. split; [|done]. rewrite len_cons.
    destruct (Z.eq_dec (v / 2 ^ 8) 0) as [Hz|Hz].
    + rewrite Hz. assert (absvalue_bytes fuel 0 = []) as -> by (by destruct fuel).
      change (2 ^ (8 * (1 + len (@nil byte) - 1))) with 1. lia.
    + destruct (Hmin ltac:(lia)) as [Hle _].
      pose proof (len_nonneg (absvalue_bytes fuel (v / 2 ^ 8))).
      assert (1 <= len (absvalue_bytes fuel (v / 2 ^ 8))).
      { destruct (Z.eq_dec (len (absvalue_bytes fuel (v / 2 ^ 8))) 0) as [E|]; [|lia].
        destruct (Hmin ltac:(lia)) as [_ Hne]. by destruct (absvalue_bytes fuel (v / 2 ^ 8)). }
      replace (8 * (1 + len (absvalue_bytes fuel (v / 2 ^ 8)) - 1))
        with (8 + 8 * (len (absvalue_bytes fuel (v / 2 ^ 8)) - 1)) by lia.
      rewrite Z.pow_add_r by lia. lia.
Qed.

Lemma from_le_snoc l b : from_le (l ++ [b]) = from_le l + 2 ^ (8 * len l) * u8 b.
Proof.
  induction l as [|x l IH].
  - change ([] ++ [b]) with [b]. rewrite from_le_cons. change (from_le []) with 0.
    change (2 ^ (8 * len (@nil byte))) with 1. lia.
  - change ((x :: l) ++ [b]) with (x :: (l ++ [b])). rewrite !from_le_cons, IH, len_cons.
    replace (8 * (1 + len l)) with (8 + 8 * len l) by lia.
    pose proof (len_nonneg l). rewrite Z.pow_add_r by lia. lia.
Qed.

Lemma len_snoc (l : bytes) b : len (l ++ [b]) = len l + 1.
Proof. rewrite len_app. done. Qed.

Lemma high_bit (b : byte) :
  (Z.land (u8 b) 0x80 = 0 ∧ u8 b < 2 ^ 7 ∧ Z.lor (u8 b) 0x80 = u8 b + 2 ^ 7) ∨
  (Z.land (u8 b) 0x80 ≠ 0 ∧ 2 ^ 7 <= u8 b).
Proof. destruct b; (left; repeat split; done) || (right; split; done). Qed.

Lemma decode_number_small b : from_le b < 2 ^ (8 * len b - 1) → decode_number b = from_le b.
Proof. intros Hb. unfold decode_number. by rewrite (proj2 (Z.ltb_lt _ _)). Qed.

Lemma decode_number_large b a :
  0 <= a → from_le b = 2 ^ (8 * len b - 1) + a → decode_number b = - a.
Proof.
  intros Ha Hb. unfold decode_number. rewrite (proj2 (Z.ltb_ge _ _)) by lia. lia.
Qed.

Lemma decode_serialize_i64 n : in_i64 n → decode_number (serialize_i64 n) = n ∧ len (serialize_i64 n) <= 9.
Proof.
  intros Hn. unfold in_i64 in Hn. unfold serialize_i64.
  destruct (Z.eqb_spec n 0) as [-> |Hnz]; [done|]. set (neg := n <? 0).
  set (a := if neg then _ else _).
  assert (a = Z.abs n) as Ha.
  { unfold a, neg. destruct (Z.ltb_spec n 0).
    - assert (wrap64 n = n + 2 ^ 64) as -> by (symmetry; apply (Z.mod_unique_pos _ _ (-1)); lia).
      rewrite wrap64_small by mlia. lia.
    - rewrite wrap64_small by mlia. lia. }
  destruct (absvalue_bytes_spec 8 a) as [Hfrom Hmin]; [change (8 * Z.of_nat 8) with 64; lia|].
  destruct (Hmin ltac:(lia)) as [Hlo Hne]. set (r := absvalue_bytes 8 a) in *.
  assert (len r <= 8) as Hr8.
  { destruct (Z.le_gt_cases (len r) 8); [done|].
    assert (2 ^ 64 <= 2 ^ (8 * (len r - 1))) by (apply Z.pow_le_mono_r; lia). lia. }
  destruct (exists_last Hne) as (l & b & Hlb). rewrite Hlb in *.
  rewrite List.last_last, List.removelast_last. rewrite from_le_snoc in Hfrom.
  pose proof (from_le_range l) as Hl. pose proof (len_nonneg l). rewrite len_snoc in *.
  set (p := 2 ^ (8 * len l)) in *. pose proof (u8_range b).
  assert (2 ^ (8 * (len l + 1)) = p * 2 ^ 8) as Hp8
    by (rewrite Z.mul_add_distr_l, Z.pow_add_r by lia; done).
  assert (2 ^ (8 * (len l + 1) - 1) = p * 2 ^ 7) as Hp7.
  { replace (8 * (len l + 1) - 1) with (8 * len l + 7) by lia. by rewrite Z.pow_add_r by lia. }
  destruct (high_bit b) as [(Hb & Hb7 & Hlor)|(Hb & Hb7)].
  - rewrite bool_decide_false by tauto. unfold neg. destruct (Z.ltb_spec n 0).
    + unfold push. rewrite len_snoc. split; [|lia].
      rewrite (decode_number_large _ (Z.abs n)); [lia|lia|].
      rewrite from_le_snoc, len_snoc, u8_of_Z, Hlor by lia. fold p. lia.
    + rewrite len_snoc. split; [|lia].
      rewrite decode_number_small; rewrite from_le_snoc; fold p; [lia|].
      rewrite len_snoc, Hp7. nia.
  - rewrite bool_decide_true by done. unfold push.
    split; [|rewrite !len_snoc; lia].
    assert (from_le (l ++ [b]) = a) as Hlb' by (rewrite from_le_snoc; fold p; lia).
    pose proof (from_le_range (l ++ [b])) as Hrange. rewrite len_snoc, Hp8, Hlb' in Hrange.
    assert (2 ^ (8 * (len l + 1 + 1) - 1) = p * 2 ^ 8 * 2 ^ 7) as Hp15.
    { replace (8 * (len l + 1 + 1) - 1) with (8 * (len l + 1) + 7) by lia.
      by rewrite Z.pow_add_r, Hp8 by lia. }
    unfold neg. destruct (Z.ltb_spec n 0).
    + rewrite (decode_number_large _ (Z.abs n)); [lia|lia|].
      rewrite from_le_snoc, Hlb', !len_snoc, u8_of_Z, Hp8, Hp15 by lia. lia.
    + rewrite decode_number_small; rewrite from_le_snoc, Hlb', u8_of_Z by lia; [lia|].
      rewrite !len_snoc, Hp15. nia.
Qed.

(** * The properties *)

(** The scripts built for the destinations are read back as what they
    are: the witness programs with their version, the script hash as such; and a
    script for a key or the hash of a key has one signature operation. *)
Theorem destination_scripts `{Sha256, Ripemd160} items version :
  len items < 2 ^ 32 →
  is_pay_to_script_hash (get_script_for_destination (ScriptHash items)) = true ∧
  get_witness_program (get_script_for_destination (WitnessV0KeyHash items)) = Some (0, hash160 items) ∧
  get_witness_program (get_script_for_destination (WitnessV0ScriptHash items)) = Some (0, sha256 items) ∧
  (2 <= len items <= 40 →
     get_witness_program (get_script_for_destination (WitnessV1Taproot items)) = Some (1, items) ∧
     (0 <= version <= 16 →
      get_witness_program (get_script_for_destination (WitnessUnknown version items))
      = Some (version, items))) ∧
  get_sigop_count (get_script_for_destination (PubKey items)) true = Finished (Ok 1) ∧
  get_sigop_count (get_script_for_destination (PubKeyHash items)) true = Finished (Ok 1).
Proof.
  intros Hl. assert (len (hash160 items) = 20) as H20 by (unfold len, hash160; by rewrite ripemd160_length).
  assert (len (sha256 items) = 32) as H32 by (unfold len; by rewrite sha256_length).
  assert (∀ l, script_ops [] l true → l = []) as Hnil by (intros l Hl'; by inversion Hl').
  split_and!.
  - cbn [get_script_for_destination]. rewrite (append_short _ (hash160 items)) by (rewrite H20; done).
    assert (length (hash160 items) = 20%nat) as Hh by apply ripemd160_length.
    unfold push, is_pay_to_script_hash. rewrite len_app, len_app, len_cons, H20.
    destruct (hash160 items) as [|x0 h]; [done|]. do 19 (destruct h as [|? h]; [done|]).
    destruct h; [reflexivity|done].
  - apply (get_witness_program_intro 0); lia.
  - apply (get_witness_program_intro 0); lia.
  - intros Hlen. split; [apply (get_witness_program_intro 1); lia|]. intros Hv.
    by apply get_witness_program_intro.
  - rewrite get_sigop_count_spec. unfold sigops.
    destruct (script_ops_push items [byte.of_Z OP_CHECKSIG] [(OP_CHECKSIG, None)] true Hl) as (op & Hop & Hs).
    { apply script_ops_simple; [unfold OP_PUSHDATA4, OP_CHECKSIG; lia|constructor]. }
    assert (ops (get_script_for_destination (PubKey items)) = ([(op, Some items); (OP_CHECKSIG, None)], true))
      as -> by (by apply ops_unique).
    unfold OP_PUSHDATA4 in Hop. simpl. unfold op_sigops at 1, OP_CHECKSIG, OP_CHECKSIGVERIFY, OP_CHECKMULTISIG,
      OP_CHECKMULTISIGVERIFY. rewrite !(proj2 (Z.eqb_neq op _)) by lia. done.
  - rewrite get_sigop_count_spec. unfold sigops.
    set (tail := [byte.of_Z OP_EQUALVERIFY; byte.of_Z OP_CHECKSIG]).
    destruct (script_ops_push items tail [(OP_EQUALVERIFY, None); (OP_CHECKSIG, None)] true Hl) as (op & Hop & Hs).
    { repeat (apply script_ops_simple; [unfold OP_PUSHDATA4, OP_CHECKSIG, OP_EQUALVERIFY; lia|]). constructor. }
    assert (ops (get_script_for_destination (PubKeyHash items))
      = ([(OP_DUP, None); (OP_HASH160, None); (op, Some items); (OP_EQUALVERIFY, None); (OP_CHECKSIG, None)], true))
      as ->.
    { apply ops_unique.
      replace (get_script_for_destination (PubKeyHash items)) with
        (byte.of_Z OP_DUP :: byte.of_Z OP_HASH160 :: append_byte_array [] items ++ tail).
      - do 2 (apply script_ops_simple; [unfold OP_PUSHDATA4, OP_DUP, OP_HASH160; lia|]). done.
      - simpl. unfold push, tail. simpl.
        by rewrite (append_byte_array_app [_; _] items), <- !app_assoc. }
    unfold OP_PUSHDATA4 in Hop. simpl.
    assert (∀ l, op_sigops true l op = 0) as Hz.
    { intros l. unfold op_sigops, OP_CHECKSIG, OP_CHECKSIGVERIFY, OP_CHECKMULTISIG, OP_CHECKMULTISIGVERIFY.
      rewrite !(proj2 (Z.eqb_neq op _)) by lia. done. }
    rewrite Hz. done.
Qed.

(** Counting the signature operations of a script terminates, and the
    count is the sum over the operations up to the first malformed one, where a
    multisignature check counts for the number pushed just before it when counted
    accurately and for 20 otherwise; for a script hash they are those of the last
    operand of a spending script that only pushes. *)
Theorem sigop_counts script script_pub_key accurate :
  get_sigop_count script accurate = Finished (Ok (wrap32 (sigops accurate script))) ∧
  is_push_only script = Finished (Ok (push_only script)) ∧
  get_sigop_count2 script_pub_key script
  = Finished (Ok (wrap32 (if is_pay_to_script_hash script_pub_key then
                            if push_only script then
                              match last_operand script with Some v => sigops true v | None => 0 end
                            else 0
                          else sigops true script_pub_key))) ∧
  script_ops script (ops script).1 (ops script).2.
Proof.
  split_and!; [apply get_sigop_count_spec|apply is_push_only_spec|apply get_sigop_count2_spec|
    apply ops_script_ops].
Qed.

(** C40. The cost of a transaction whose inputs all have an output to spend
    and a well-formed witness: computing it neither panics nor loops, and it is, in
    32 bits, four times the count of the scripts and of the P2SH scripts, plus the
    count of the witnesses; a coinbase transaction has only the first part. *)
Theorem transaction_sigop_cost tx dependencies witnesses flags :
  (length (txins tx) ≤ length dependencies)%nat →
  witness_data tx = Some (map encode_varstrs witnesses) → length witnesses = length (txins tx) →
  Forall (λ items, slice_ok (encode_varstrs items)) witnesses →
  get_transaction_sigop_cost tx dependencies flags
  = Finished (Ok (wrap32 (4 * legacy_sigops tx +
      (if is_coinbase tx then 0
       else (if Z.land flags SCRIPT_VERIFY_P2SH =? 0 then 0
             else 4 * sumZ (map (input_p2sh dependencies) (imap pair (txins tx)))) +
            (if Z.land flags SCRIPT_VERIFY_WITNESS =? 0 then 0
             else sumZ (map (input_witness dependencies witnesses) (imap pair (txins tx)))))))).
Proof.
  intros Hdep Hwit Hlen Hall. unfold get_transaction_sigop_cost.
  rewrite get_legacy_sigops_spec. cbn [mbind comp_bind].
  assert (∀ a, wrap32 (4 * wrap32 a) = wrap32 (4 * a)) as H4 by (intros; apply Zmult_mod_idemp_r).
  rewrite H4. destruct (is_coinbase tx) eqn:Hc; [by rewrite Z.add_0_r|].
  set (p2sh := sumZ (map (input_p2sh dependencies) _)).
  assert ((if negb (Z.land flags SCRIPT_VERIFY_P2SH =? 0) then
      n ← get_p2sh_sigop_count tx dependencies;
      mret (wrap32 (wrap32 (4 * legacy_sigops tx) + wrap32 (4 * n)))
    else mret (wrap32 (4 * legacy_sigops tx)))
    = Finished (Ok (wrap32 (4 * legacy_sigops tx +
        (if Z.land flags SCRIPT_VERIFY_P2SH =? 0 then 0 else 4 * p2sh))))) as ->.
  { destruct (Z.land flags SCRIPT_VERIFY_P2SH =? 0); cbn [negb]; [by rewrite Z.add_0_r|].
    rewrite get_p2sh_sigop_count_spec by done. cbn [mbind comp_bind]. fold p2sh.
    by rewrite H4, wrap32_add_l, Z.add_comm, wrap32_add_l, Z.add_comm. }
  cbn [mbind comp_bind]. rewrite Z.add_assoc. set (t := 4 * legacy_sigops tx + _).
  destruct (Z.land flags SCRIPT_VERIFY_WITNESS =? 0) eqn:Hf; cbn [negb]; [by rewrite Z.add_0_r|].
  rewrite (for_comp_sum _ (input_witness dependencies witnesses)); [done|].
  intros [i x] t' Hx. apply imap_pair_lookup, lookup_lt_Some in Hx.
  destruct (lookup_lt_is_Some_2 dependencies i) as [o Ho]; [lia|].
  destruct (lookup_lt_is_Some_2 witnesses i) as [items Hi]; [lia|].
  unfold dependency, input_witness. simpl. rewrite Ho, Hi, Hwit. cbn [expect mbind comp_bind].
  assert (map encode_varstrs witnesses !! i = Some (encode_varstrs items)) as ->
    by (apply list_lookup_fmap_Some; exists items; done).
  cbn [expect mbind comp_bind]. rewrite count_witness_sigops_spec.
  - cbn [mbind comp_bind]. by rewrite Hf, wrap32_add_l.
  - by apply (Forall_lookup_1 _ _ i _ Hall).
Qed.

(** A number that does not fit into one opcode is pushed as bytes that
    decode to it, lowest byte first and with the highest bit as its sign, and every
    pushed string is read back by [get_script_op], whatever follows it. *)
Theorem script_number_roundtrip n rest :
  in_i64 n →
  decode_number (serialize_i64 n) = n ∧ len (serialize_i64 n) <= 9 ∧
  ∃ op, op <= OP_PUSHDATA4 ∧
    get_script_op (append_item [] (ByteArray (serialize_i64 n)) ++ rest)
    = (Some (op, Some (serialize_i64 n)), rest).
Proof.
  intros Hn. destruct (decode_serialize_i64 n Hn) as [Hd Hl]. split_and!; [done..|].
  destruct (get_script_op_data (serialize_i64 n) rest) as (op & Hop & _ & Hg); [lia|]. eauto.
Qed.

(** * The properties at concrete inputs *)

Import Toy.

(** The script of the first test of [script_test.rs]. *)
Definition dummy : bytes := replicate 20 Byte.x00.
Definition s1 : bytes :=
  push (push (append_item (push [] OP_1) (ByteArray dummy)) OP_2) OP_CHECKMULTISIG.
Definition s1_if : bytes := push (push (push s1 OP_IF) OP_CHECKSIG) OP_ENDIF.

Example sigops_s1 : get_sigop_count s1 true = Finished (Ok 2).
Proof. vm_compute. reflexivity. Qed.

Example sigops_s1_if :
  get_sigop_count s1_if true = Finished (Ok 3) ∧ get_sigop_count s1_if false = Finished (Ok 21).
Proof. split; vm_compute; reflexivity. Qed.

Example sigops_p2sh :
  get_sigop_count2 (get_script_for_destination (ScriptHash s1_if))
    (append_item (push [] OP_0) (ByteArray s1_if)) = Finished (Ok 3).
Proof. vm_compute. reflexivity. Qed.

Example sigops_multisig :
  get_sigop_count (get_script_for_multisig 1 [dummy; dummy; dummy]) true = Finished (Ok 3).
Proof. vm_compute. reflexivity. Qed.

Lemma destination_scripts_witness :
  is_pay_to_script_hash (get_script_for_destination (ScriptHash dummy)) = true ∧
  get_witness_program (get_script_for_destination (WitnessUnknown 16 dummy)) = Some (16, dummy).
Proof.
  assert (len dummy < 2 ^ 32) as Hl by (vm_compute; reflexivity).
  assert (2 <= len dummy <= 40) as Hd by (vm_compute; split; discriminate).
  destruct (destination_scripts dummy 16 Hl) as (H1 & _ & _ & H2 & _).
  split; [exact H1|]. refine (proj2 (H2 Hd) _). lia.
Defined.

Definition spending_tx : Tx :=
  mkTx 1 0 [mkTxIn (to_le 32 5) 0 0 (append_item [] (ByteArray s1))] []
    (Some (map encode_varstrs [[[]; s1]])) EMPTY_HASH EMPTY_HASH.

Definition spent : list TxOut := [mkTxOut 1 (get_script_for_destination (ScriptHash s1))].

Lemma transaction_sigop_cost_witness :
  get_transaction_sigop_cost spending_tx spent (Z.lor SCRIPT_VERIFY_P2SH SCRIPT_VERIFY_WITNESS)
  = Finished (Ok 8).
Proof.
  rewrite (transaction_sigop_cost spending_tx spent [[[]; s1]]).
  - vm_compute. reflexivity.
  - vm_compute. repeat constructor.
  - reflexivity.
  - reflexivity.
  - repeat constructor. vm_compute. discriminate.
Defined.

Lemma script_number_roundtrip_witness :
  decode_number (serialize_i64 (-255)) = -255 ∧ len (serialize_i64 (-255)) <= 9.
Proof.
  destruct (script_number_roundtrip (-255) []) as (H1 & H2 & _).
  - split; vm_compute; [discriminate|reflexivity].
  - exact (conj H1 H2).
Defined.
