(* ===== verification/Weight.v ===== *)
(** [src/tx/size.rs] and [src/tx/fee.rs]: the weight and the fee of a transaction. *)
From S2P Require Import Prelude.
From S2P Require Import Extern.
From S2P Require Import Varint.
From S2P Require Import Arena.
From S2P Require Import Wire.
From S2P Require Import Header.
From S2P Require Import Tx.
From S2P Require Import Loops.
From S2P Require Import Script.

(** The borrowed and the owned form of a transaction have the same code. The sums
    are of [usize]s. *)
Definition calculate_tx_size_wus (tx : Tx) : Z :=
  let result := 0 in
  let result := result +! 16 in
  let result := result +! 16 in
  let result := result +! 4 *! length_varint (len (txins tx)) in
  let result := foldl (λ result txin,
    let txin_size := 32 +! 4 +! 4 +! length_varint (len (sig_script txin)) +! len (sig_script txin) in
    result +! txin_size *! 4) result (txins tx) in
  let result := result +! 4 *! length_varint (len (txouts tx)) in
  let result := foldl (λ result txout,
    let txout_size := 8 +! length_varint (len (txout_script txout)) +! len (txout_script txout) in
    result +! txout_size *! 4) result (txouts tx) in
  let result :=
    match witness_data tx with
    | Some witness_data =>
        foldl (λ result witness, result +! len witness) (result +! 2) witness_data
    | None => result
    end in
  wrap32 result.

(** The sums of [u64]s wrap around. *)
Definition calculate_fee (tx : Tx) (dependencies : list TxOut) : Z :=
  let total_in := foldl (λ t x, t +! txout_value x) 0 dependencies in
  let total_out := foldl (λ t x, t +! txout_value x) 0 (txouts tx) in
  total_in -! total_out.

(** * Lemmas *)

Lemma foldl_wrap {A} (f g : A → Z) l a :
  (∀ x, x ∈ l → wrap64 (f x) = wrap64 (g x)) →
  foldl (λ t x, t +! f x) (wrap64 a) l = wrap64 (a + sumZ (map g l)).
Proof.
  revert a. induction l as [|x l IH]; intros a Hf; simpl.
  - by rewrite Z.add_0_r.
  - rewrite wrap64_add_l, Z.add_comm, <- wrap64_add_l, Hf by left.
    rewrite wrap64_add_l, Z.add_comm, IH, Z.add_assoc; [done|]. intros y Hy. apply Hf. by right.
Qed.

Lemma wrap32_wrap64 z : wrap32 (wrap64 z) = wrap32 z.
Proof.
  apply Z.mod_mod_divide. by exists (2 ^ 32).
Qed.

Lemma wrap64_mul_l a b : wrap64 (wrap64 a * b) = wrap64 (a * b).
Proof. apply Zmult_mod_idemp_l. Qed.

Lemma sumZ_scale {A} (f : A → Z) k l : sumZ (map (λ x, f x * k) l) = sumZ (map f l) * k.
Proof. induction l as [|x l IH]; simpl; [done|]. rewrite IH. lia. Qed.

Lemma len_concat_sum {A} (f : A → bytes) l : len (concat (map f l)) = sumZ (map (λ x, len (f x)) l).
Proof. induction l as [|x l IH]; simpl; [done|]. by rewrite len_app, IH. Qed.

Lemma txin_weight t :
  hash_ok (prevout_hash t) →
  wrap64 ((32 +! 4 +! 4 +! length_varint (len (sig_script t)) +! len (sig_script t)) *! 4)
  = wrap64 (len (encode t) * 4).
Proof.
  intros Hh. rewrite len_encode_txin, len_encode_varstr by done.
  change (32 +! 4 +! 4) with 40. rewrite wrap64_wrap64, wrap64_add_l, wrap64_mul_l. f_equal. lia.
Qed.

Lemma txout_weight t :
  wrap64 ((8 +! length_varint (len (txout_script t)) +! len (txout_script t)) *! 4)
  = wrap64 (len (encode t) * 4).
Proof.
  rewrite len_encode_txout, len_encode_varstr.
  rewrite wrap64_wrap64, wrap64_add_l, wrap64_mul_l. f_equal. lia.
Qed.

Lemma len_encode_array_items {A} `{Wire A} (l : list A) :
  len (encode_array l) = length_varint (len l) + sumZ (map (λ x, len (encode x)) l).
Proof. unfold encode_array. by rewrite len_app, len_encode_varint, len_concat_sum. Qed.

Lemma wrap64_varint4 n : 4 *! length_varint n = 4 * length_varint n.
Proof. pose proof (length_varint_range n). apply wrap64_small. mlia. Qed.

(** * The properties *)

(** The weight of a transaction is, in 32 bits, three times the size of
    its serialization without witnesses plus the size of the whole. *)
Theorem tx_weight t :
  Forall (λ i, hash_ok (prevout_hash i)) (txins t) →
  calculate_tx_size_wus t = wrap32 (3 * len (tx_stripped t) + len (encode_tx t)).
Proof.
  intros Hall. unfold calculate_tx_size_wus. cbv zeta. rewrite !wrap64_varint4.
  change (0 +! 16 +! 16) with 32.
  rewrite (foldl_wrap _ (λ x, len (encode x) * 4) (txins t)); cycle 1.
  { intros x Hx. apply txin_weight. rewrite Forall_forall in Hall. by apply Hall. }
  rewrite wrap64_add_l. rewrite (foldl_wrap _ (λ x, len (encode x) * 4) (txouts t)) by (intros; apply txout_weight).
  rewrite !sumZ_scale. unfold tx_stripped, encode_tx, marker, witness_bytes.
  rewrite !len_app, !len_to_le, !len_encode_array_items.
  destruct (witness_data t) as [ws|].
  - rewrite wrap64_add_l, (foldl_wrap _ len) by done. rewrite wrap32_wrap64. f_equal.
    rewrite len_to_be. assert (len (concat ws) = sumZ (map len ws)) as ->.
    { rewrite <- (map_id ws) at 1. apply (len_concat_sum (λ x, x)). }
    lia.
  - rewrite wrap32_wrap64. f_equal. change (len (@nil byte)) with 0. lia.
Qed.

Lemma tx_weight_witness : calculate_tx_size_wus toy_tx = 295.
Proof.
  rewrite (tx_weight toy_tx).
  - vm_compute. reflexivity.
  - repeat constructor.
Defined.

(** The fee is what the inputs have over the outputs. *)
Lemma calculate_fee_spec t dependencies :
  let total_in := sumZ (map txout_value dependencies) in
  let total_out := sumZ (map txout_value (txouts t)) in
  0 <= total_out <= total_in → in_u64 total_in → calculate_fee t dependencies = total_in - total_out.
Proof.
  intros total_in total_out Hle Hin. unfold calculate_fee.
  rewrite <- (wrap64_small 0) by done. rewrite !(foldl_wrap _ txout_value), !Z.add_0_l by done.
  fold total_in total_out.
  rewrite (wrap64_small total_in), (wrap64_small total_out), wrap64_small by (unfold in_u64 in *; lia). done.
Qed.
