(* ===== verification/Address.v ===== *)
(** [src/tx/address.rs] and the functions of [src/tx/mod.rs] that take the address
    out of an output script: as raw bytes, for the keys of the database, and in the
    form people read. *)
From Stdlib Require Import Ascii.
From S2P Require Import Prelude.
From S2P Require Import Extern.
From S2P Require Import Arena.
From S2P Require Import Wire.
From S2P Require Import Tx.
From S2P Require Import Loops.
From S2P Require Import Opcodes.
From S2P Require Import Script.

(** * [hex], [bs58] and [bech32]

    The encoders of the addresses. Each has a decoder that gives the bytes back;
    the encoder of witness programs checks their length. *)
Class AddressEncoders := {
  hex_encode : bytes → string;
  bs58_check_encode : Z → bytes → string;
  segwit_encode_v0 : bytes → outcome string;
  segwit_encode_v1 : bytes → outcome string;
  hex_encode_inj a b : hex_encode a = hex_encode b → a = b;
  bs58_check_encode_inj v a b : bs58_check_encode v a = bs58_check_encode v b → a = b;
  segwit_encode_v0_Ok a : len a = 20 ∨ len a = 32 → is_ok (segwit_encode_v0 a) = true;
  segwit_encode_v1_Ok a : 2 <= len a <= 40 → is_ok (segwit_encode_v1 a) = true;
  segwit_encode_v0_inj a b s : segwit_encode_v0 a = Ok s → segwit_encode_v0 b = Ok s → a = b;
  segwit_encode_v1_inj a b s : segwit_encode_v1 a = Ok s → segwit_encode_v1 b = Ok s → a = b;
}.

Inductive Address :=
| P2PKFull (value : string)
| P2PKShort (value : string)
| P2PKH (value : string)
| P2SH (value : string)
| P2WSH (value : string)
| P2WPKH (value : string)
| Taproot (value : string)
| OpReturn
| Unknown
| Coinbase.

#[export] Instance Address_eq_dec : EqDecision Address.
Proof. solve_decision. Defined.

(** [impl Display] *)
Definition Address_fmt (a : Address) : string :=
  match a with
  | P2PKFull value => value
  | P2PKShort value => value
  | P2PKH value => value
  | P2SH value => value
  | P2WSH value => value
  | P2WPKH value => value
  | Taproot value => value
  | OpReturn => "OP_RETURN"
  | Unknown => "Unknown"
  | Coinbase => "Coinbase"
  end.

(** [script[i] == v]; the conditions check the length of the script first. *)
Definition script_at (script : bytes) (i : nat) (v : Z) : bool :=
  u8 (default Byte.x00 (script !! i)) =? v.

(** [&script[i..j]] *)
Definition script_slice (script : bytes) (i j : nat) : bytes := take (j - i) (drop i script).

(** * Raw addresses *)

Definition get_p2pk_address (script : bytes) : option bytes :=
  if (len script =? 67) && script_at script 0 0x41 && script_at script 66 OP_CHECKSIG
  then Some (script_slice script 1 66)
  else if (len script =? 35) && script_at script 0 0x21 && script_at script 34 OP_CHECKSIG
  then Some (script_slice script 1 34)
  else None.

Definition get_p2sh_address (script : bytes) : option bytes :=
  if (len script =? 23) && script_at script 0 OP_HASH160 && script_at script 1 0x14 &&
     script_at script 22 OP_EQUAL
  then Some (script_slice script 2 22) else None.

Definition get_p2pkh_address (script : bytes) : option bytes :=
  if negb ((len script =? 25) && script_at script 0 OP_DUP && script_at script 1 OP_HASH160 &&
           script_at script 2 0x14 && script_at script 23 OP_EQUALVERIFY &&
           script_at script 24 OP_CHECKSIG)
  then None
  else Some (script_slice script 3 23).

Definition get_bech32_address (script : bytes) : option bytes :=
  if (len script =? 22) && script_at script 0 OP_0 && script_at script 1 0x14 then Some (drop 2 script)
  else if (len script =? 34) && script_at script 0 OP_0 && script_at script 1 0x20 then Some (drop 2 script)
  else if (len script =? 34) && script_at script 0 OP_1 && script_at script 1 0x20 then Some (drop 2 script)
  else None.

Definition script_has_address (script : bytes) : bool :=
  if get_p2pk_address script is Some _ then true
  else if get_p2sh_address script is Some _ then true
  else if get_p2pkh_address script is Some _ then true
  else if get_bech32_address script is Some _ then true
  else false.

(** The four matches of [get_address_from_script_copy_into_arena_with_txhash]. *)
Definition raw_address (script : bytes) : option bytes :=
  match get_p2pk_address script with
  | Some p2pk => Some p2pk
  | None =>
      match get_p2sh_address script with
      | Some p2sh => Some p2sh
      | None =>
          match get_p2pkh_address script with
          | Some p2pkh => Some p2pkh
          | None => get_bech32_address script
          end
      end
  end.

(** * Human addresses *)

Definition segwit_panic : string := "called `Result::unwrap()` on an `Err` value".

Section human.
Context `{AddressEncoders}.

Definition get_p2pk_address_human (script : bytes) : option Address :=
  if (len script =? 67) && script_at script 0 0x41 && script_at script 66 OP_CHECKSIG
  then Some (P2PKFull (hex_encode (script_slice script 1 66)))
  else if (len script =? 35) && script_at script 0 0x21 && script_at script 34 OP_CHECKSIG
  then Some (P2PKShort (hex_encode (script_slice script 1 34)))
  else None.

Definition get_p2sh_address_human (script : bytes) : option Address :=
  if (len script =? 23) && script_at script 0 OP_HASH160 && script_at script 1 0x14 &&
     script_at script 22 OP_EQUAL
  then Some (P2SH (bs58_check_encode 0x05 (script_slice script 2 22))) else None.

Definition get_p2pkh_address_human (script : bytes) : option Address :=
  if (len script =? 25) && script_at script 0 OP_DUP && script_at script 1 OP_HASH160 &&
     script_at script 2 0x14 && script_at script 23 OP_EQUALVERIFY && script_at script 24 OP_CHECKSIG
  then Some (P2PKH (bs58_check_encode 0x00 (script_slice script 3 23)))
  else None.

Definition get_bech32_address_human (script : bytes) : outcome (option Address) :=
  if (len script =? 22) && script_at script 0 OP_0 && script_at script 1 0x14 then
    value ← unwrap (segwit_encode_v0 (drop 2 script)) segwit_panic;
    Ok (Some (P2WSH value))
  else if (len script =? 34) && script_at script 0 OP_0 && script_at script 1 0x20 then
    value ← unwrap (segwit_encode_v0 (drop 2 script)) segwit_panic;
    Ok (Some (P2WPKH value))
  else if (len script =? 34) && script_at script 0 OP_1 && script_at script 1 0x20 then
    value ← unwrap (segwit_encode_v1 (drop 2 script)) segwit_panic;
    Ok (Some (Taproot value))
  else Ok None.

Definition get_human_address_from_script (script : bytes) : outcome Address :=
  match get_p2pk_address_human script with
  | Some p2pk => Ok p2pk
  | None =>
      match get_p2sh_address_human script with
      | Some p2sh => Ok p2sh
      | None =>
          match get_p2pkh_address_human script with
          | Some p2pkh => Ok p2pkh
          | None =>
              bech32 ← get_bech32_address_human script;
              match bech32 with
              | Some bech32 => Ok bech32
              | None =>
                  Ok (match script with
                      | [] => Unknown
                      | b :: _ => if u8 b =? OP_RETURN then OpReturn else Unknown
                      end)
              end
          end
      end
  end.
End human.

(** * The kinds of scripts

    What the matches above recognise, as the scripts they come from. *)
Inductive template :=
| key_full (key : bytes)
| key_short (key : bytes)
| script_hash (h : bytes)
| key_hash (h : bytes)
| witness_20 (h : bytes)
| witness_32 (h : bytes)
| taproot_key (key : bytes).

Definition template_ok (t : template) : Prop :=
  match t with
  | key_full k => length k = 65%nat
  | key_short k => length k = 33%nat
  | script_hash h | key_hash h | witness_20 h => length h = 20%nat
  | witness_32 h | taproot_key h => length h = 32%nat
  end.

Definition template_script (t : template) : bytes :=
  match t with
  | key_full k => [byte.of_Z 0x41] ++ k ++ [byte.of_Z OP_CHECKSIG]
  | key_short k => [byte.of_Z 0x21] ++ k ++ [byte.of_Z OP_CHECKSIG]
  | script_hash h => map byte.of_Z [OP_HASH160; 0x14] ++ h ++ [byte.of_Z OP_EQUAL]
  | key_hash h =>
      map byte.of_Z [OP_DUP; OP_HASH160; 0x14] ++ h ++ map byte.of_Z [OP_EQUALVERIFY; OP_CHECKSIG]
  | witness_20 h => map byte.of_Z [OP_0; 0x14] ++ h
  | witness_32 h => map byte.of_Z [OP_0; 0x20] ++ h
  | taproot_key k => map byte.of_Z [OP_1; 0x20] ++ k
  end.

Definition template_data (t : template) : bytes :=
  match t with
  | key_full b | key_short b | script_hash b | key_hash b | witness_20 b | witness_32 b
  | taproot_key b => b
  end.

Definition template_address `{AddressEncoders} (t : template) : outcome Address :=
  match t with
  | key_full k => Ok (P2PKFull (hex_encode k))
  | key_short k => Ok (P2PKShort (hex_encode k))
  | script_hash h => Ok (P2SH (bs58_check_encode 5 h))
  | key_hash h => Ok (P2PKH (bs58_check_encode 0 h))
  | witness_20 h => v ← segwit_encode_v0 h; Ok (P2WSH v)
  | witness_32 h => v ← segwit_encode_v0 h; Ok (P2WPKH v)
  | taproot_key k => v ← segwit_encode_v1 k; Ok (Taproot v)
  end.

(** * Lemmas *)

(** Names the bytes of a list of a known length. *)
Ltac explode l H :=
  lazymatch type of H with
  | length l = S _ =>
      let b := fresh "b" in let r := fresh "r" in
      destruct l as [|b r]; [discriminate H|]; apply (f_equal pred) in H; cbn [length pred] in H;
      explode r H
  | length l = 0%nat => apply length_zero_iff_nil in H; subst l
  end.

(** On the script of a template every match is decided. *)
Lemma raw_address_template t :
  template_ok t →
  raw_address (template_script t) = Some (template_data t) ∧
  script_has_address (template_script t) = true.
Proof.
  destruct t as [l|l|l|l|l|l|l]; cbn [template_ok]; intros Hl; explode l Hl; split; reflexivity.
Qed.

Lemma is_ok_Ok {A} (m : outcome A) : is_ok m = true → ∃ a, m = Ok a.
Proof. destruct m; [eauto|done..]. Qed.

Lemma template_address_Ok `{AddressEncoders} t :
  template_ok t → is_ok (template_address t) = true.
Proof.
  destruct t as [l|l|l|l|l|l|l]; cbn [template_ok template_address]; intros Hl; try done.
  - destruct (is_ok_Ok (segwit_encode_v0 l)) as [v ->]; [|done].
    apply segwit_encode_v0_Ok. left. unfold len. by rewrite Hl.
  - destruct (is_ok_Ok (segwit_encode_v0 l)) as [v ->]; [|done].
    apply segwit_encode_v0_Ok. right. unfold len. by rewrite Hl.
  - destruct (is_ok_Ok (segwit_encode_v1 l)) as [v ->]; [|done].
    apply segwit_encode_v1_Ok. unfold len. rewrite Hl. lia.
Qed.

Lemma human_bech32 `{AddressEncoders} script a :
  get_p2pk_address_human script = None → get_p2sh_address_human script = None →
  get_p2pkh_address_human script = None → get_bech32_address_human script = Ok (Some a) →
  get_human_address_from_script script = Ok a.
Proof. intros H1 H2 H3 H4. unfold get_human_address_from_script. by rewrite H1, H2, H3, H4. Qed.

(** A script in one of the three forms of witness programs. *)
Lemma bech32_human `{AddressEncoders} b0 b1 l (m : outcome string) (C : string → Address) :
  let script := b0 :: b1 :: l in
  get_p2pk_address_human script = None → get_p2sh_address_human script = None →
  get_p2pkh_address_human script = None →
  get_bech32_address_human script = (v ← unwrap m segwit_panic; Ok (Some (C v))) →
  is_ok m = true → get_human_address_from_script script = (v ← m; Ok (C v)).
Proof.
  intros script H1 H2 H3 H4 Hok. destruct (is_ok_Ok _ Hok) as [v Hv]. rewrite Hv in *.
  by apply human_bech32.
Qed.

Lemma human_address_template `{AddressEncoders} t :
  template_ok t → get_human_address_from_script (template_script t) = template_address t.
Proof.
  intros Hok. destruct t as [l|l|l|l|l|l|l]; cbn [template_ok template_address] in *.
  1-4: explode l Hok; reflexivity.
  all: assert (len l = 20 ∨ len l = 32) as Hlen by (unfold len; rewrite Hok; auto).
  - pose proof (segwit_encode_v0_Ok l Hlen) as He. clear Hlen. explode l Hok.
    by apply bech32_human.
  - pose proof (segwit_encode_v0_Ok l Hlen) as He. clear Hlen. explode l Hok.
    by apply bech32_human.
  - pose proof (segwit_encode_v1_Ok l ltac:(lia)) as He. clear Hlen. explode l Hok.
    by apply bech32_human.
Qed.

Lemma script_at_byte script i v b :
  script_at script i v = true → script !! i = Some b → b = byte.of_Z v.
Proof.
  unfold script_at. intros Hv Hb. rewrite Hb in Hv. apply Z.eqb_eq in Hv. simpl in Hv.
  rewrite <- Hv. symmetry. apply byte.of_Z_unsigned.
Qed.

(** Takes the bytes a match fixes from its conditions. *)
Ltac read_match Hm :=
  repeat match type of Hm with
  | (_ && _)%bool = true => apply andb_true_iff in Hm as [Hm ?]
  end;
  let script := lazymatch type of Hm with (len ?s =? _) = true => s end in
  let Hl := fresh "Hl" in
  assert (Hl : length script = Z.to_nat (len script)) by (unfold len; lia);
  apply Z.eqb_eq in Hm; rewrite Hm in Hl; cbv [Z.to_nat Pos.to_nat Pos.iter_op Nat.add] in Hl; clear Hm;
  explode script Hl;
  repeat match goal with
  | H : script_at _ _ _ = true |- _ =>
      eapply script_at_byte in H; [|reflexivity]; cbn beta iota in H;
      lazymatch type of H with ?b = _ => subst b end
  end.

(** The first condition of [Hr] holds, and its match recognises [C]; or it does not. *)
Ltac recognise Hr C :=
  let Hm := fresh "Hm" in
  match type of Hr with
  | context [if ?c then _ else _] =>
      lazymatch c with
      | negb ?c => destruct c eqn:Hm
      | (_ && _)%bool => destruct c eqn:Hm
      end
  end;
  cbn beta iota delta [negb] in Hr;
  [ lazymatch type of Hr with Some ?x = Some ?d => apply Some_inj in Hr; exists (C d) end;
    read_match Hm; rewrite <- Hr; split; reflexivity
  | clear Hm ].

(** What a match recognises comes from a template. *)
Lemma raw_address_sound script d :
  raw_address script = Some d → ∃ t, template_ok t ∧ template_script t = script.
Proof.
  unfold raw_address, get_p2pk_address, get_p2sh_address, get_p2pkh_address, get_bech32_address.
  intros Hr. recognise Hr key_full. recognise Hr key_short. recognise Hr script_hash.
  recognise Hr key_hash. recognise Hr witness_20. recognise Hr witness_32.
  recognise Hr taproot_key. done.
Qed.

Definition op_return (script : bytes) : bool :=
  match script with [] => false | b :: _ => u8 b =? OP_RETURN end.

(** Without a raw address the human one is one of the two without a value. *)
Lemma raw_address_None `{AddressEncoders} script :
  raw_address script = None →
  script_has_address script = false ∧
  get_human_address_from_script script = Ok (if op_return script then OpReturn else Unknown).
Proof.
  unfold raw_address, script_has_address, get_human_address_from_script, get_p2pk_address_human,
    get_p2sh_address_human, get_p2pkh_address_human, get_bech32_address_human, get_p2pk_address,
    get_p2sh_address, get_p2pkh_address, get_bech32_address.
  intros Hr. repeat (case_match; try discriminate); simpl in *; split; congruence.
Qed.

Lemma template_address_inj `{AddressEncoders} t t' a :
  template_address t = Ok a → template_address t' = Ok a → t = t'.
Proof.
  intros Ht Ht'.
  destruct t, t'; cbn [template_address] in *;
    repeat match goal with
    | H : (_ ≫= _) = Ok _ |- _ => obind H
    end; simplify_eq; f_equal;
    eauto using hex_encode_inj, bs58_check_encode_inj, segwit_encode_v0_inj, segwit_encode_v1_inj.
Qed.

(** What the scripts built for the destinations are. *)
Lemma script_of_key_hash `{Sha256, Ripemd160} h :
  length h = 20%nat → get_script_for_destination (PubKeyHash h) = template_script (key_hash h).
Proof.
  intros Hh. assert (len h = 20) as Hl by (unfold len; lia). cbn [get_script_for_destination].
  rewrite append_short, Hl by (rewrite Hl; done). unfold push. by rewrite <- !app_assoc.
Qed.

Lemma script_of_witness_key_hash `{Sha256, Ripemd160} key :
  get_script_for_destination (WitnessV0KeyHash key) = template_script (witness_20 (hash160 key)).
Proof.
  assert (len (hash160 key) = 20) as Hl by (unfold len, hash160; by rewrite ripemd160_length).
  cbn [get_script_for_destination]. by rewrite append_short, Hl by (rewrite Hl; done).
Qed.

(** * Properties *)

(** The matches on a script recognise exactly the scripts of seven
    templates (full and compressed keys, key and script hashes, the witness
    programs of 20 and 32 bytes, taproot): then the raw address is the data of the
    template, the human one the encoding of the same data, and computing it does
    not panic. Every other script has no address, and is shown as [OpReturn] or
    [Unknown]. *)
Theorem addresses_classified `{AddressEncoders} script :
  (∃ t, template_ok t ∧ script = template_script t ∧
     raw_address script = Some (template_data t) ∧ script_has_address script = true ∧
     get_human_address_from_script script = template_address t ∧
     is_ok (get_human_address_from_script script) = true) ∨
  ((∀ t, template_ok t → script ≠ template_script t) ∧
   raw_address script = None ∧ script_has_address script = false ∧
   get_human_address_from_script script = Ok (if op_return script then OpReturn else Unknown)).
Proof.
  destruct (raw_address script) as [d|] eqn:Hr.
  - left. destruct (raw_address_sound _ _ Hr) as (t & Hok & <-). exists t.
    destruct (raw_address_template t Hok) as [Hraw Hhas].
    rewrite <- Hr, Hraw, Hhas, human_address_template, template_address_Ok by done. done.
  - right. destruct (raw_address_None script Hr) as [Hhas Hhuman].
    rewrite Hhas, Hhuman. split_and!; try done.
    intros t Hok ->. by rewrite (proj1 (raw_address_template t Hok)) in Hr.
Qed.

(** The human form of an address determines the script it is of. *)
Theorem human_address_injective `{AddressEncoders} script script' a :
  get_human_address_from_script script = Ok a → get_human_address_from_script script' = Ok a →
  a ≠ OpReturn → a ≠ Unknown → script = script'.
Proof.
  intros Ha Ha' Hret Hunk.
  destruct (raw_address script) as [d|] eqn:Hr;
    [|rewrite (proj2 (raw_address_None script Hr)) in Ha; by destruct (op_return script); simplify_eq].
  destruct (raw_address script') as [d'|] eqn:Hr';
    [|rewrite (proj2 (raw_address_None script' Hr')) in Ha'; by destruct (op_return script'); simplify_eq].
  destruct (raw_address_sound _ _ Hr) as (t & Hok & <-), (raw_address_sound _ _ Hr') as (t' & Hok' & <-).
  rewrite human_address_template in Ha, Ha' by done. f_equal. by eapply template_address_inj.
Qed.

(** The raw form does not: the hash of a key stands both for its
    pay-to-public-key-hash and for its witness script, so that the two, which have
    different human addresses, share the entries of the database. The latter is
    shown as a script hash ([P2WSH]). *)
Theorem address_keys_collide `{Sha256, Ripemd160, AddressEncoders} key :
  let legacy := get_script_for_destination (PubKeyHash (hash160 key)) in
  let witness := get_script_for_destination (WitnessV0KeyHash key) in
  raw_address legacy = Some (hash160 key) ∧ raw_address witness = Some (hash160 key) ∧
  get_human_address_from_script legacy = Ok (P2PKH (bs58_check_encode 0 (hash160 key))) ∧
  ∃ value, get_human_address_from_script witness = Ok (P2WSH value).
Proof.
  assert (length (hash160 key) = 20%nat) as Hh by apply ripemd160_length.
  intros legacy witness. unfold legacy, witness.
  rewrite script_of_key_hash, script_of_witness_key_hash by done.
  pose proof (raw_address_template (key_hash (hash160 key)) Hh) as [-> _].
  pose proof (raw_address_template (witness_20 (hash160 key)) Hh) as [-> _].
  rewrite !human_address_template by done. split_and!; [done..|].
  destruct (is_ok_Ok _ (segwit_encode_v0_Ok (hash160 key) ltac:(left; unfold len; lia))) as [v Hv].
  exists v. cbn [template_address]. by rewrite Hv.
Qed.

(** * An example *)

Module ToyAddress.

(** The bytes themselves as text, with the version in front. *)
Definition show (v : Ascii.ascii) (b : bytes) : string :=
  String.String v (String.string_of_list_byte b).

Lemma string_of_list_byte_inj a b :
  String.string_of_list_byte a = String.string_of_list_byte b → a = b.
Proof.
  intros Hs. rewrite <- (String.list_byte_of_string_of_list_byte a),
    <- (String.list_byte_of_string_of_list_byte b). by rewrite Hs.
Qed.

Lemma show_inj v a b : show v a = show v b → a = b.
Proof. unfold show. intros Hs. apply string_of_list_byte_inj. by injection Hs. Qed.

#[export] Instance toy_encoders : AddressEncoders.
Proof.
  refine {| hex_encode := show "x"%char;
            bs58_check_encode v := show (if v =? 0 then "1"%char else "3"%char);
            segwit_encode_v0 b := Ok (show "q"%char b); segwit_encode_v1 b := Ok (show "p"%char b) |}.
  - apply show_inj.
  - intros v. apply show_inj.
  - done.
  - done.
  - intros a b s Ha Hb. apply (show_inj "q"%char). congruence.
  - intros a b s Ha Hb. apply (show_inj "p"%char). congruence.
Defined.
End ToyAddress.

Import ToyAddress.

Lemma human_address_injective_witness :
  get_human_address_from_script (template_script (key_hash dummy)) = Ok (P2PKH (show "1"%char dummy)) ∧
  template_script (key_hash dummy) = template_script (key_hash dummy).
Proof.
  assert (get_human_address_from_script (template_script (key_hash dummy))
          = Ok (P2PKH (show "1"%char dummy))) as Ha by reflexivity.
  split; [done|].
  apply (human_address_injective (template_script (key_hash dummy)) (template_script (key_hash dummy))
           (P2PKH (show "1"%char dummy))); [done..|discriminate|discriminate].
Defined.
