(* ===== verification/Analyze.v ===== *)
(** [src/tx/mod.rs]: what is stored of a transaction. [analyze_tx] computes it and lays
    it out in an arena; [deserialize_analyzed_tx] reads the main part back. *)
From stdpp Require Import sorting.
From S2P Require Import Prelude.
From S2P Require Import Extern.
From S2P Require Import Buffer.
From S2P Require Import Varint.
From S2P Require Import Arena.
From S2P Require Import Wire.
From S2P Require Import Header.
From S2P Require Import Tx.
From S2P Require Import Loops.
From S2P Require Import Opcodes.
From S2P Require Import Script.
From S2P Require Import Weight.
From S2P Require Import Address.

Record AnalyzedTx := mkAnalyzedTx {
  an_fee : Z;
  an_txouts_sum : Z;
  an_size_wus : Z;
  an_sigops : Z;
  an_block_hash : hash;
  an_tx : Tx;
  an_txin_values : list Z;
}.

(** [db::rocksdb::SerializedTx]; a [spent_txos] is the key of an output. *)
Record SerializedTx := mkSerializedTx {
  st_hash : hash;
  st_analyzed_tx : option bytes;
  st_tx_outs : option bytes;
  st_spent_txos : option (list bytes);
  st_address_amends : option (list (bytes * Z));
  st_fee : Z;
  st_txouts_sum : Z;
  st_size_wus : Z;
}.

#[local] Instance u64_type : HasType Z := RU64.
#[local] Instance u64_owned : DeserializableOwned Z := {| deserialize_owned := u64_deserialize_owned |}.
#[local] Instance u64_wire : Wire Z := {| encode v := to_le 8 v; valid v := in_u64 v |}.

(** * Reading *)

Definition deserialize_analyzed_tx `{Layout} (data : bytes) (h : hash) : outcome AnalyzedTx :=
  fee ← unwrap (get_u64_le data 0) "to deserialize fee";
  txouts_sum ← unwrap (get_u64_le data 8) "to deserialize txouts_sum";
  size_wus ← unwrap (get_u32_le data 16) "to deserialize size_wus";
  sigops ← unwrap (get_u32_le data 20) "to deserialize sigops";
  block_hash ← unwrap (get_hash data 24) "to deserialize block hash";
  b ← unwrap (with_offset data 56) "to offset before deserializing tx";
  '(tx, consumed) ← unwrap (deserialize_without_txouts b h) "to deserialize tx without txouts";
  b ← unwrap (with_offset data (56 +! consumed)) "to offset before deserializing txin_values";
  '(txin_values, _) ← unwrap (deserialize_array_owned b) "to deserialize txin_values";
  Ok (mkAnalyzedTx fee txouts_sum size_wus sigops block_hash tx txin_values).

(** * Writing *)

Definition index_panic : string := "slice index out of range".

Definition txin_values_size (dependencies : list TxOut) : Z :=
  length_varint (len dependencies) +! len dependencies *! 8.

(** The writes into the bytes of [analyzed_tx]. *)
Definition write_analyzed_tx (tx : Tx) (dependencies : list TxOut)
    (fee txouts_sum size_wus sigops : Z) (block_hash : hash) (analyzed_tx : bytes) : outcome bytes :=
  let serialized_tx_size := serialized_without_txouts_size tx in
  analyzed_tx ← slice_write analyzed_tx 0 (to_le 8 fee);
  analyzed_tx ← slice_write analyzed_tx 8 (to_le 8 txouts_sum);
  analyzed_tx ← slice_write analyzed_tx 16 (to_le 4 size_wus);
  analyzed_tx ← slice_write analyzed_tx 20 (to_le 4 sigops);
  analyzed_tx ← slice_write analyzed_tx 24 block_hash;
  for_tx ← expect (slice_from analyzed_tx 56) index_panic;
  for_tx ← serialize_without_txouts tx (SliceBuf [] for_tx);
  let analyzed_tx := take 56 analyzed_tx ++ sb_written for_tx ++ sb_room for_tx in
  let values_start := 56 +! serialized_tx_size in
  values ← expect (slice_from analyzed_tx values_start) index_panic;
  '(values, size_offset) ← serialize_varint_into_slice (len dependencies) values;
  let analyzed_tx := take (Z.to_nat values_start) analyzed_tx ++ values in
  for_each (λ analyzed_tx '(index, dep),
      let pos := 56 +! serialized_tx_size +! 8 *! Z.of_nat index +! size_offset in
      slice_write analyzed_tx pos (to_le 8 (txout_value dep)))
    (imap pair dependencies) analyzed_tx.

Section analyze.
Context `{Layout}.

Definition alloc_expect : string := "called `Result::expect()` on an `Err` value".

Definition serialize_txout_at (s : bytes * Z) (txout : TxOut) : outcome (bytes * Z) :=
  let '(result, offset) := s in
  with_offset ← expect (slice_from result offset) "called `Option::unwrap()` on a `None` value";
  '(with_offset, n) ← flat_serialize txout with_offset;
  Ok (take (Z.to_nat offset) result ++ with_offset, offset +! n).

(** The [debug_assert_eq] is not part of a release build. *)
Definition serialize_txouts (tx : Tx) : amonad bytes :=
  let size := foldl (λ size txout, size +! serialized_length txout) (length_varint (len (txouts tx))) (txouts tx) in
  result ← try_alloc_array_fill_copy RU8 size Byte.x00;
  '(result, offset) ← lift (serialize_varint_into_slice (len (txouts tx)) result);
  '(result, _) ← lift (for_each serialize_txout_at (txouts tx) (result, offset));
  mret result.

(** [key[0..32]] and [key[32..36]] of a [[u8; 36]] *)
Definition spend_key (txin : TxIn) (key : bytes) : outcome bytes :=
  key ← slice_write key 0 (prevout_hash txin);
  slice_write key 32 (to_le 4 (prevout_index txin)).

Definition serialize_spend (result : ArenaArray bytes) (txin : TxIn) : amonad (ArenaArray bytes) :=
  key ← try_alloc RSpendKey (zeros 36);
  key ← lift (spend_key txin key);
  lift (aa_push result key).

(** [for x in l] in the arena monad *)
Fixpoint for_alloc {A S} (f : S → A → amonad S) (l : list A) (s : S) : amonad S :=
  match l with
  | [] => mret s
  | x :: l => s ← f s x; for_alloc f l s
  end.

Definition serialize_spends (tx : Tx) : amonad (list bytes) :=
  result ← try_alloc_arenaarray RRefSpendKey (len (txins tx));
  result ← for_alloc serialize_spend (txins tx) result;
  mret (into_arena_array result).

(** The key of an amend: the address, the time, and the transaction. *)
Definition address_key (address : bytes) (timestamp : Z) (txhash : hash) : amonad bytes :=
  key ← try_alloc_array_fill_copy RU8 (len address +! 8 +! 32) Byte.x00;
  key ← lift (slice_write key 0 address);
  key ← lift (slice_write key (len address) (to_be 8 timestamp));
  lift (slice_write key (len address +! 8) txhash).

Definition get_address_from_script_copy_into_arena_with_txhash (script : bytes) (txhash : hash)
    (timestamp : Z) : amonad (option bytes) :=
  let timestamp := 2 ^ 64 - 1 - timestamp in
  match get_p2pk_address script with
  | Some p2pk => key ← address_key p2pk timestamp txhash; mret (Some key)
  | None =>
      match get_p2sh_address script with
      | Some p2sh => key ← address_key p2sh timestamp txhash; mret (Some key)
      | None =>
          match get_p2pkh_address script with
          | Some p2pkh => key ← address_key p2pkh timestamp txhash; mret (Some key)
          | None =>
              match get_bech32_address script with
              | Some bech32 => key ← address_key bech32 timestamp txhash; mret (Some key)
              | None => mret None
              end
          end
      end
  end.

Definition neg_i64 (v : Z) : Z := as_i64 (- v).

(** An amend of an output, with its value negated for a spent one. *)
Definition push_amend (h : hash) (timestamp : Z) (delta : TxOut → Z)
    (amends : ArenaArray (bytes * Z)) (txout : TxOut) : amonad (ArenaArray (bytes * Z)) :=
  key ← get_address_from_script_copy_into_arena_with_txhash (txout_script txout) h timestamp;
  match key with
  | Some address_bytes => lift (aa_push amends (address_bytes, delta txout))
  | None => mret amends
  end.

Definition addressed (outs : list TxOut) : list TxOut :=
  List.filter (λ txout, script_has_address (txout_script txout)) outs.

Definition serialize_address_amends `{UnstableSort} (tx : Tx) (deps : list TxOut) (timestamp : Z) :
    amonad (option (list (bytes * Z))) :=
  let amends_count :=
    (if is_coinbase tx then 0 else len (addressed deps)) +! len (addressed (txouts tx)) in
  if amends_count =? 0 then mret None
  else
    amends ← try_alloc_arenaarray RAddressAmend amends_count;
    amends ← for_alloc (push_amend (tx_hash tx) timestamp (λ txout, neg_i64 (as_i64 (txout_value txout))))
               deps amends;
    amends ← for_alloc (push_amend (tx_hash tx) timestamp (λ txout, as_i64 (txout_value txout)))
               (txouts tx) amends;
    mret (Some (sort_unstable_by (λ a b, bytes_leb a.1 b.1) (into_arena_array amends))).

(** The part that needs the number of signature operations. *)
Definition serialize_analysis `{UnstableSort} (block_hash : hash) (tx : Tx) (dependencies : list TxOut)
    (timestamp fee txouts_sum size_wus sigops : Z) : amonad SerializedTx :=
  analyzed_tx ← try_alloc_array_fill_copy RU8
    (serialized_without_txouts_size tx +! 8 +! 8 +! 4 +! 4 +! 8 +! 32 +! txin_values_size dependencies)
    Byte.x00;
  analyzed_tx ← lift (write_analyzed_tx tx dependencies fee txouts_sum size_wus sigops block_hash analyzed_tx);
  tx_outs ← serialize_txouts tx;
  spent_txos ← (if is_coinbase tx then mret None
                else spends ← serialize_spends tx; mret (Some spends));
  address_amends ← serialize_address_amends tx dependencies timestamp;
  mret (mkSerializedTx (tx_hash tx) (Some analyzed_tx) (Some tx_outs) spent_txos address_amends
          fee txouts_sum size_wus).

Definition analyze_flags (tx : Tx) : Z :=
  if witness_data tx is Some _ then Z.lor SCRIPT_VERIFY_P2SH SCRIPT_VERIFY_WITNESS
  else SCRIPT_VERIFY_P2SH.

Definition analyze_tx `{UnstableSort} (block_hash : hash) (tx : Tx) (dependencies : list TxOut)
    (timestamp : Z) (arena : Arena) : comp (SerializedTx * Arena) :=
  let fee := if is_coinbase tx then 0 else calculate_fee tx dependencies in
  let txouts_sum := foldl (λ t x, t +! txout_value x) 0 (txouts tx) in
  let size_wus := calculate_tx_size_wus tx in
  sigops ← get_transaction_sigop_cost tx dependencies (analyze_flags tx);
  Finished (serialize_analysis block_hash tx dependencies timestamp fee txouts_sum size_wus sigops arena).
End analyze.

(** * The bytes of an analyzed transaction *)

Definition analysis_header (fee txouts_sum size_wus sigops : Z) (block_hash : hash) : bytes :=
  to_le 8 fee ++ to_le 8 txouts_sum ++ to_le 4 size_wus ++ to_le 4 sigops ++ block_hash.

Definition analysis_bytes (tx : Tx) (dependencies : list TxOut)
    (fee txouts_sum size_wus sigops : Z) (block_hash : hash) : bytes :=
  analysis_header fee txouts_sum size_wus sigops block_hash ++
  encode_tx_without_txouts tx ++ encode_array (map txout_value dependencies).

Lemma len_u64s (l : list Z) : len (concat (map encode l)) = 8 * len l.
Proof.
  induction l as [|v l IH]; [done|]. cbn [map concat]. rewrite len_app, len_cons, IH.
  cbn [encode u64_wire]. rewrite len_to_le. lia.
Qed.

Lemma len_analysis_header fee txouts_sum size_wus sigops block_hash :
  hash_ok block_hash → len (analysis_header fee txouts_sum size_wus sigops block_hash) = 56.
Proof.
  intros Hh. unfold analysis_header. rewrite !len_app, !len_to_le.
  unfold len. rewrite Hh. done.
Qed.

Lemma slice_buf_zeros n x : len x <= n →
  put_slice (SliceBuf [] (zeros n)) x = Ok (SliceBuf x (zeros (n - len x))).
Proof.
  intros Hn. pose proof (len_nonneg x). cbn [put_slice slice_buf_mut]. unfold slice_put. simpl.
  by rewrite len_zeros, (proj2 (Z.leb_le _ _)), drop_zeros by lia.
Qed.

Lemma write_values (position : Z → Z) l : ∀ k pre n,
  (∀ i, 0 <= i < k + len l → position i = len pre + 8 * (i - k)) → 0 <= k → 8 * len l <= n →
  for_each (λ b '(index, dep), slice_write b (position (Z.of_nat index)) (to_le 8 (txout_value dep)))
    (imap (λ i, pair (Z.to_nat k + i)%nat) l) (pre ++ zeros n)
  = Ok ((pre ++ concat (map encode (map txout_value l))) ++ zeros (n - 8 * len l)).
Proof.
  induction l as [|dep l IH]; intros k pre n Hpos Hk Hn.
  - cbn. by rewrite app_nil_r, Z.mul_0_r, Z.sub_0_r.
  - rewrite len_cons in *. pose proof (len_nonneg l). rewrite imap_cons. cbn [for_each map concat].
    rewrite slice_write_zeros; [|rewrite Hpos by lia; lia|rewrite len_to_le; lia].
    cbn [mbind outcome_bind]. rewrite len_to_le.
    erewrite imap_ext; [rewrite (IH (k + 1))|].
    + cbn [encode u64_wire]. rewrite <- !app_assoc.
      by replace (n - Z.of_nat 8 - 8 * len l) with (n - 8 * (1 + len l)) by lia.
    + intros i Hi. rewrite Hpos, len_app, len_to_le by lia. lia.
    + lia.
    + lia.
    + intros i x Hi. cbn. f_equal. lia.
Qed.

(** The sizes that are computed beforehand are those of the parts. *)
Definition analysis_ok (tx : Tx) (dependencies : list TxOut) : Prop :=
  Forall valid (txins tx) ∧
  len (encode_tx_without_txouts tx) + 8 * len dependencies <= 2 ^ 61.

Lemma txin_values_size_spec dependencies :
  8 * len dependencies <= 2 ^ 61 →
  txin_values_size dependencies = len (encode_array (map txout_value dependencies)).
Proof.
  intros Hd. pose proof (len_nonneg dependencies). pose proof (length_varint_range (len dependencies)).
  unfold txin_values_size. rewrite len_encode_array, len_u64s, !len_map. unwrap. lia.
Qed.

Lemma write_analyzed_tx_spec tx dependencies fee txouts_sum size_wus sigops block_hash :
  analysis_ok tx dependencies → hash_ok block_hash →
  let all := analysis_bytes tx dependencies fee txouts_sum size_wus sigops block_hash in
  write_analyzed_tx tx dependencies fee txouts_sum size_wus sigops block_hash (zeros (len all + 8))
  = Ok (all ++ zeros 8).
Proof.
  intros [Hv Hlen] Hh all.
  assert (len all = 56 + len (encode_tx_without_txouts tx) +
    (length_varint (len dependencies) + 8 * len dependencies)) as Hall.
  { unfold all, analysis_bytes. rewrite !len_app, len_analysis_header by done.
    rewrite len_encode_array, len_u64s, len_map. lia. }
  pose proof (length_varint_range (len dependencies)) as Hvr.
  pose proof (len_nonneg dependencies) as Hdn. pose proof (len_nonneg (encode_tx_without_txouts tx)) as Hen.
  set (L := len all) in *. clearbody L. unfold write_analyzed_tx.
  rewrite serialized_without_txouts_size_spec by (done || (unfold slice_ok; mlia)).
  rewrite (wrap64_small (56 + _)) by mlia.
  change (zeros (L + 8)) with ([] ++ zeros (L + 8)).
  assert (len block_hash = 32) as Hbh by (unfold len; rewrite Hh; done).
  assert (len (analysis_header fee txouts_sum size_wus sigops block_hash) = 56) as Hhd
    by by apply len_analysis_header.
  do 5 (rewrite slice_write_zeros by (rewrite ?len_app, ?len_to_le, ?Hbh; done || lia);
    cbn [mbind outcome_bind]).
  set (header := analysis_header fee txouts_sum size_wus sigops block_hash) in *.
  set (E := encode_tx_without_txouts tx) in *. set (N := L + 8 - _ - _ - _ - _ - _).
  set (values := encode_array (map txout_value dependencies)) in *.
  assert (N = len E + (length_varint (len dependencies) + 8 * len dependencies) + 8) as HN
    by (unfold N; rewrite !len_to_le, Hbh; lia).
  match goal with |- context [expect (slice_from (?p ++ zeros N) 56)] =>
    replace p with header by (unfold header, analysis_header; by rewrite <- !app_assoc) end.
  rewrite slice_from_app by done. cbn [expect mbind outcome_bind].
  rewrite serialize_without_txouts_spec, slice_buf_zeros by (fold E; lia).
  cbn [mbind outcome_bind sb_written sb_room]. fold E.
  change 56%nat with (Z.to_nat 56). rewrite (take_len header (zeros N) 56) by done. rewrite app_assoc.
  assert (len (header ++ E) = 56 + len E) as HhE by (rewrite len_app; lia).
  rewrite slice_from_app by done. cbn [expect mbind outcome_bind].
  rewrite serialize_varint_into_slice_spec.
  change (slice_write (zeros ?n) 0 ?x) with (slice_write ([] ++ zeros n) 0 x).
  rewrite slice_write_zeros by (done || (rewrite len_encode_varint; lia)). cbn [mbind outcome_bind app].
  rewrite take_len by done. rewrite app_assoc, len_encode_varint.
  change (imap pair dependencies) with (imap (λ i, pair (Z.to_nat 0 + i)%nat) dependencies).
  rewrite (write_values (λ i, 56 + len E +! 8 *! i +! length_varint (len dependencies))).
  - unfold all, analysis_bytes. fold header E.
    replace (N - _ - _ - _) with 8 by lia. unfold encode_array in *. rewrite len_map.
    by rewrite <- !app_assoc.
  - intros i Hi. rewrite len_app, len_encode_varint. unwrap. lia.
  - done.
  - lia.
Qed.

#[local] Instance u64_owned_ok : OwnedOk Z.
Proof.
  intros v rest Hv Hb. cbn [deserialize_owned u64_owned encode u64_wire] in *.
  unfold u64_deserialize_owned. rewrite (get_u64_le_at _ 0 v rest) by (done || apply tail_at_0).
  cbn [mbind outcome_bind]. by rewrite len_to_le.
Qed.

Lemma deserialize_analyzed_tx_spec `{Sha256, Layout} tx dependencies fee txouts_sum size_wus sigops block_hash h rest :
  tx_fields_ok tx → tx_vecs_ok tx → hash_ok block_hash →
  in_u64 fee → in_u64 txouts_sum → in_u32 size_wus → in_u32 sigops →
  Forall (λ o, in_u64 (txout_value o)) dependencies → vec_ok (map txout_value dependencies) →
  let data := analysis_bytes tx dependencies fee txouts_sum size_wus sigops block_hash ++ rest in
  slice_ok data →
  deserialize_analyzed_tx data h
  = Ok (mkAnalyzedTx fee txouts_sum size_wus sigops block_hash (stored tx h) (map txout_value dependencies)).
Proof.
  intros Hf Hvec Hh Hfee Hsum Hsize Hsig Hdeps Hvd data Hb. unfold deserialize_analyzed_tx.
  pose proof (tail_at_0 data) as T. unfold data at 2, analysis_bytes, analysis_header in T.
  rewrite <- !app_assoc in T.
  rewrite (get_u64_le_at _ _ _ _ T) by done. cbn [unwrap mbind outcome_bind]. tail_next T 8.
  rewrite (get_u64_le_at _ _ _ _ T) by done. cbn [unwrap mbind outcome_bind]. tail_next T 16.
  rewrite (get_u32_le_at _ _ _ _ T) by done. cbn [unwrap mbind outcome_bind]. tail_next T 20.
  rewrite (get_u32_le_at _ _ _ _ T) by done. cbn [unwrap mbind outcome_bind]. tail_next T 24.
  rewrite (get_hash_at _ _ _ _ T) by done. cbn [unwrap mbind outcome_bind]. tail_next T 56.
  rewrite (with_offset_at _ _ _ T). cbn [unwrap mbind outcome_bind].
  pose proof (tail_at_len _ _ _ T) as [_ Hl]. rewrite !len_app in Hl.
  rewrite deserialize_without_txouts_encode by (done || by eapply tail_at_slice_ok).
  cbn [unwrap mbind outcome_bind]. pose proof (len_nonneg (encode_tx_without_txouts tx)).
  pose proof (len_nonneg (encode_array (map txout_value dependencies))). pose proof (len_nonneg rest).
  unfold slice_ok in Hb. rewrite (wrap64_small (56 + _)) by mlia.
  apply (tail_at_next _ _ _ _ (56 + len (encode_tx_without_txouts tx))) in T; [|lia].
  rewrite (with_offset_at _ _ _ T). cbn [unwrap mbind outcome_bind].
  rewrite deserialize_array_owned_encode; [done| | |done|by eapply tail_at_slice_ok].
  - by apply Forall_map.
  - rewrite len_encode_array, len_u64s in *. pose proof (length_varint_range (len (map txout_value dependencies))).
    pose proof (len_nonneg (map txout_value dependencies)). lia.
Qed.

(** * The outputs *)

Lemma serialized_length_spec t :
  len (encode t) <= isize_max → serialized_length t = len (encode t).
Proof.
  rewrite len_encode_txout, len_encode_varstr. intros Hl.
  pose proof (length_varint_range (len (txout_script t))). pose proof (len_nonneg (txout_script t)).
  unfold serialized_length. unwrap. lia.
Qed.

Lemma txouts_size l size :
  0 <= size → size + len (concat (map encode l)) <= isize_max →
  foldl (λ size txout, size +! serialized_length txout) size l = size + len (concat (map encode l)).
Proof.
  revert size. induction l as [|t l IH]; intros size H0 Hs; cbn [foldl map concat] in *.
  - rewrite len_nil. lia.
  - rewrite len_app in *. pose proof (len_nonneg (encode t)). pose proof (len_nonneg (concat (map encode l))).
    rewrite serialized_length_spec by lia. unwrap. rewrite IH by lia. lia.
Qed.

Lemma zeros_split n k : 0 <= k <= n → zeros n = zeros k ++ zeros (n - k).
Proof. intros Hk. unfold zeros. rewrite <- replicate_add. f_equal. lia. Qed.

Lemma serialize_txout_at_spec pre n t :
  len pre + n <= isize_max → len (encode t) <= n →
  serialize_txout_at (pre ++ zeros n, len pre) t
  = Ok ((pre ++ encode t) ++ zeros (n - len (encode t)), len (pre ++ encode t)).
Proof.
  intros Hb Hn. pose proof (len_nonneg pre). pose proof (len_nonneg (encode t)).
  unfold serialize_txout_at. cbn beta iota. rewrite slice_from_app by done. cbn [expect mbind outcome_bind].
  rewrite (zeros_split n (len (encode t))) by lia.
  destruct (flat_serialize_spec t (zeros (len (encode t))) (zeros (n - len (encode t)))) as [-> ->].
  - by apply len_zeros.
  - unfold slice_ok. rewrite len_app, !len_zeros by lia. lia.
  - cbn [mbind outcome_bind]. rewrite <- zeros_split, take_len by (done || lia).
    rewrite app_assoc, len_app. by unwrap.
Qed.

Lemma serialize_txouts_loop l : ∀ pre n,
  len pre + n <= isize_max → len (concat (map encode l)) <= n →
  ∃ offset, for_each serialize_txout_at l (pre ++ zeros n, len pre)
    = Ok ((pre ++ concat (map encode l)) ++ zeros (n - len (concat (map encode l))), offset).
Proof.
  induction l as [|t l IH]; intros pre n Hb Hn; cbn [for_each map concat] in *.
  - exists (len pre). by rewrite app_nil_r, len_nil, Z.sub_0_r.
  - rewrite len_app in *. pose proof (len_nonneg (encode t)).
    pose proof (len_nonneg (concat (map encode l))).
    rewrite serialize_txout_at_spec by lia. cbn [mbind outcome_bind].
    destruct (IH (pre ++ encode t) (n - len (encode t))) as [offset ->].
    + rewrite len_app. lia.
    + lia.
    + exists offset. rewrite <- !app_assoc, Z.sub_add_distr. done.
Qed.

Lemma serialize_txouts_spec `{Layout} t a :
  arena_wf a → array_room RU8 (len (encode_array (txouts t))) <= free a →
  ∃ a', serialize_txouts t a = Ok (encode_array (txouts t), a') ∧
    arena_step a a' (array_room RU8 (len (encode_array (txouts t)))).
Proof.
  intros Hwf Hf. pose proof (len_nonneg (txouts t)).
  pose proof (length_varint_range (len (txouts t))). pose proof (len_nonneg (concat (map encode (txouts t)))).
  assert (len (encode_array (txouts t)) <= 2 ^ 62) as Hmax.
  { unfold array_room, free, arena_wf in *. rewrite size_of_u8, align_of_u8 in *. lia. }
  unfold serialize_txouts. rewrite len_encode_array in *. unfold isize_max in *.
  rewrite txouts_size by (unfold isize_max; lia).
  destruct (try_alloc_array_fill_copy_Ok a RU8
    (length_varint (len (txouts t)) + len (concat (map encode (txouts t)))) Byte.x00)
    as (a' & Ha & Hstep); [done|lia|done|].
  exists a'. split; [|done]. erewrite bind_amonad by exact Ha.
  fold (zeros (length_varint (len (txouts t)) + len (concat (map encode (txouts t))))).
  rewrite serialize_varint_into_slice_spec.
  change (slice_write (zeros ?n) 0 ?x) with (slice_write ([] ++ zeros n) 0 x).
  rewrite slice_write_zeros by (done || (rewrite len_encode_varint; lia)). cbn [mbind outcome_bind app].
  erewrite bind_lift by reflexivity. rewrite len_encode_varint.
  destruct (serialize_txouts_loop (txouts t) (encode_varint (len (txouts t)))
    (length_varint (len (txouts t)) + len (concat (map encode (txouts t))) - length_varint (len (txouts t))))
    as [offset Hloop]; [rewrite len_encode_varint; unfold isize_max; lia|lia|].
  rewrite len_encode_varint in Hloop. erewrite bind_lift by exact Hloop. cbn.
  replace (_ - _ - _) with 0 by lia. unfold mret, amonad_ret. by rewrite app_nil_r.
Qed.

(** * Filling an array of the arena *)

Definition appended {T} (arr : ArenaArray T) (l : list T) : ArenaArray T :=
  mkArenaArray (aa_type arr) (aa_items arr ++ l) (aa_cap arr) (aa_room arr).

Definition room_for `{Layout} {T} (arr : ArenaArray T) (n : Z) : Prop :=
  aa_len arr + n <= aa_cap arr ∧ size_of (aa_type arr) * aa_cap arr <= aa_room arr.

Lemma appended_nil {T} (arr : ArenaArray T) : appended arr [] = arr.
Proof. unfold appended. rewrite app_nil_r. by destruct arr. Qed.

Lemma appended_appended {T} (arr : ArenaArray T) l k :
  appended (appended arr l) k = appended arr (l ++ k).
Proof. unfold appended. simpl. by rewrite app_assoc. Qed.

Lemma room_for_appended `{Layout} {T} (arr : ArenaArray T) l n :
  room_for (appended arr l) n ↔ room_for arr (len l + n).
Proof. unfold room_for, aa_len. simpl. rewrite len_app. split; intros []; split; (done || lia). Qed.

Definition total_cost {A} (cost : A → Z) (l : list A) : Z := sumZ (map cost l).

Lemma total_cost_nonneg {A} (cost : A → Z) : (∀ x, 0 <= cost x) → ∀ l, 0 <= total_cost cost l.
Proof.
  intros Hcost l. unfold total_cost. induction l as [|x l IH]; simpl; [done|].
  pose proof (Hcost x). lia.
Qed.

Lemma total_cost_in {A} (cost : A → Z) l x :
  (∀ x, 0 <= cost x) → x ∈ l → cost x <= total_cost cost l.
Proof.
  intros Hcost Hx. induction Hx as [z k|z y k Hx IH]; unfold total_cost in *; cbn [map sumZ foldr] in *.
  - pose proof (total_cost_nonneg cost Hcost k). unfold total_cost, sumZ in *. lia.
  - pose proof (Hcost y). unfold sumZ in *. lia.
Qed.

(** A loop that pushes what [item] gives for some of the values. *)
Lemma for_alloc_collect `{Layout} {A T} (f : ArenaArray T → A → amonad (ArenaArray T))
    (item : A → option T) (cost : A → Z) (l : list A) :
  (∀ x, 0 <= cost x) →
  (∀ arr a x, x ∈ l → arena_wf a → cost x <= free a → room_for arr (len (omap item [x])) →
     ∃ a', f arr x a = Ok (appended arr (omap item [x]), a') ∧ arena_step a a' (cost x)) →
  ∀ arr a, arena_wf a → total_cost cost l <= free a → room_for arr (len (omap item l)) →
  ∃ a', for_alloc f l arr a = Ok (appended arr (omap item l), a') ∧ arena_step a a' (total_cost cost l).
Proof.
  intros Hcost Hf. pose proof (total_cost_nonneg cost Hcost) as Hnn.
  induction l as [|x l IH]; intros arr a Hwf Hfree Hroom.
  - exists a. cbn. rewrite appended_nil. split; [done|]. by apply arena_step_refl.
  - change (total_cost cost (x :: l)) with (cost x + total_cost cost l) in *.
    assert (omap item (x :: l) = omap item [x] ++ omap item l) as Ho
      by (cbn; by destruct (item x)).
    rewrite Ho, len_app in *. pose proof (Hnn l). pose proof (Hcost x).
    pose proof (len_nonneg (omap item l)).
    destruct (Hf arr a x ltac:(by left) Hwf ltac:(lia)) as (a1 & Ha1 & Hs1).
    { destruct Hroom. split; [lia|done]. }
    pose proof (arena_step_free _ _ _ Hs1).
    destruct (IH ltac:(intros; apply Hf; [by right|done..]) (appended arr (omap item [x])) a1)
      as (a2 & Ha2 & Hs2); [by destruct Hs1|lia|by apply room_for_appended|].
    exists a2. split; [|by eapply arena_step_trans].
    cbn [for_alloc]. erewrite bind_amonad by exact Ha1. by rewrite Ha2, appended_appended.
Qed.

Lemma lift_push_Ok `{Layout} {T} (arr : ArenaArray T) x a :
  room_for arr 1 → lift (aa_push arr x) a = Ok (appended arr [x], a).
Proof. intros [Hl Hr]. apply lift_Ok. by rewrite aa_push_Ok by (done || lia). Qed.

(** ** The outputs that are spent *)

(** The key of an output: the hash of its transaction and its index. *)
Definition outpoint (t : TxIn) : bytes := prevout_hash t ++ to_le 4 (prevout_index t).

Lemma spend_key_spec t : hash_ok (prevout_hash t) → spend_key t (zeros 36) = Ok (outpoint t).
Proof.
  intros Hh. assert (len (prevout_hash t) = 32) as Hl by (unfold len; by rewrite Hh).
  unfold spend_key. change (zeros 36) with ([] ++ zeros 36).
  rewrite slice_write_zeros by (done || lia). cbn [mbind outcome_bind app].
  rewrite slice_write_zeros by (rewrite ?Hl, ?len_to_le; done). rewrite Hl, len_to_le.
  by rewrite app_nil_r.
Qed.

Lemma serialize_spends_spec `{Layout} t a :
  arena_wf a → Forall valid (txins t) →
  array_room RRefSpendKey (len (txins t)) + 36 * len (txins t) <= free a →
  ∃ a', serialize_spends t a = Ok (map outpoint (txins t), a') ∧
    arena_step a a' (array_room RRefSpendKey (len (txins t)) + 36 * len (txins t)).
Proof.
  intros Hwf Hv Hf. pose proof (len_nonneg (txins t)). unfold serialize_spends.
  destruct (try_alloc_arenaarray_Ok (T := bytes) a RRefSpendKey (len (txins t))) as (a1 & Ha1 & Hs1);
    [done..|lia|].
  erewrite bind_amonad by exact Ha1. pose proof (arena_step_free _ _ _ Hs1).
  assert (total_cost (λ _ : TxIn, 36) (txins t) = 36 * len (txins t)) as Hc.
  { unfold total_cost. clear. induction (txins t) as [|x l IH]; [done|].
    cbn [map sumZ foldr]. fold (sumZ (map (λ _ : TxIn, 36) l)). rewrite IH, len_cons. lia. }
  assert (omap (λ x, Some (outpoint x)) (txins t) = map outpoint (txins t)) as Ho.
  { clear. induction (txins t) as [|x l IH]; [done|]. cbn. by f_equal. }
  destruct (for_alloc_collect serialize_spend (λ x, Some (outpoint x)) (λ _, 36) (txins t))
    with (arr := aa_from_raw_parts (T := bytes) RRefSpendKey (size_of RRefSpendKey * len (txins t)) (len (txins t)))
         (a := a1) as (a2 & Ha2 & Hs2).
  - done.
  - intros arr a0 x Hx Hwf0 Hf0 Hr. rewrite Forall_forall in Hv. destruct (Hv x Hx) as [Hh _].
    assert (array_room RSpendKey 1 = 36) as Har
      by (unfold array_room; rewrite align_of_spend_key, size_of_spend_key; done).
    destruct (try_alloc_Ok a0 RSpendKey (zeros 36)) as (a3 & Ha3 & Hs3);
      [done|rewrite align_of_spend_key; apply Z.mod_1_r|lia|].
    exists a3. rewrite Har in Hs3. split; [|done]. unfold serialize_spend.
    erewrite bind_amonad by exact Ha3. rewrite spend_key_spec by done.
    erewrite bind_lift by reflexivity. by apply lift_push_Ok.
  - by destruct Hs1.
  - lia.
  - rewrite Ho, len_map. unfold room_for. simpl. unfold aa_len. simpl. rewrite len_nil. lia.
  - exists a2. erewrite bind_amonad by exact Ha2. rewrite Ho. split; [done|].
    rewrite Hc in Hs2. by eapply arena_step_trans.
Qed.

(** ** The amends of addresses *)

(** The key of the database for an address and a transaction: later transactions
    come first. *)
Definition address_entry (address : bytes) (timestamp : Z) (h : hash) : bytes :=
  address ++ to_be 8 (2 ^ 64 - 1 - timestamp) ++ h.

Definition amend (h : hash) (timestamp : Z) (delta : TxOut → Z) (txout : TxOut) : option (bytes * Z) :=
  match raw_address (txout_script txout) with
  | Some address => Some (address_entry address timestamp h, delta txout)
  | None => None
  end.

Definition amend_cost (txout : TxOut) : Z :=
  match raw_address (txout_script txout) with Some address => len address + 40 | None => 0 end.

Lemma raw_address_len script d : raw_address script = Some d → 20 <= len d <= 65.
Proof.
  intros Hr. destruct (raw_address_sound _ _ Hr) as (t & Hok & <-).
  rewrite (proj1 (raw_address_template t Hok)) in Hr. apply Some_inj in Hr. subst d. unfold len.
  destruct t; cbn [template_ok template_data] in *; rewrite Hok; lia.
Qed.

Lemma amend_cost_nonneg x : 0 <= amend_cost x.
Proof. unfold amend_cost. case_match; [|done]. match goal with d : bytes |- _ => pose proof (len_nonneg d) end. lia. Qed.

Lemma address_key_spec `{Layout} d timestamp h a :
  arena_wf a → hash_ok h → len d <= 65 → len d + 40 <= free a →
  ∃ a', address_key d timestamp h a = Ok (d ++ to_be 8 timestamp ++ h, a') ∧
    arena_step a a' (len d + 40).
Proof.
  intros Hwf Hh Hd Hf. pose proof (len_nonneg d). assert (len h = 32) as Hl by (unfold len; by rewrite Hh).
  assert (array_room RU8 (len d + 40) = len d + 40) as Har
    by (unfold array_room; rewrite align_of_u8, size_of_u8; lia).
  destruct (try_alloc_array_fill_copy_Ok a RU8 (len d + 40) Byte.x00) as (a' & Ha & Hs); [done|lia|lia|].
  rewrite Har in Hs. exists a'. split; [|done]. unfold address_key.
  replace (len d +! 8 +! 32) with (len d + 40) by (unwrap; lia).
  erewrite bind_amonad by exact Ha. fold (zeros (len d + 40)).
  change (zeros (len d + 40)) with ([] ++ zeros (len d + 40)).
  rewrite slice_write_zeros by (done || lia). erewrite bind_lift by reflexivity.
  rewrite app_nil_l, slice_write_zeros by (done || (rewrite len_to_be; lia)). erewrite bind_lift by reflexivity.
  rewrite slice_write_zeros by (rewrite ?len_app, ?len_to_be; (unwrap; lia) || lia).
  unfold lift. cbn. rewrite len_to_be, Hl. replace (len d + 40 - len d - Z.of_nat 8 - 32) with 0 by lia.
  by rewrite app_nil_r, <- app_assoc.
Qed.

Lemma copy_address_raw `{Layout} script h timestamp a :
  get_address_from_script_copy_into_arena_with_txhash script h timestamp a
  = match raw_address script with
    | Some d => (key ← address_key d (2 ^ 64 - 1 - timestamp) h; mret (Some key)) a
    | None => Ok (None, a)
    end.
Proof.
  unfold get_address_from_script_copy_into_arena_with_txhash, raw_address. by repeat case_match.
Qed.

Lemma push_amend_spec `{Layout} h timestamp delta arr a x :
  hash_ok h → arena_wf a → amend_cost x <= free a →
  room_for arr (len (omap (amend h timestamp delta) [x])) →
  ∃ a', push_amend h timestamp delta arr x a = Ok (appended arr (omap (amend h timestamp delta) [x]), a')
    ∧ arena_step a a' (amend_cost x).
Proof.
  intros Hh Hwf Hf Hr. unfold push_amend, amend_cost in *. cbn [omap list_omap] in *.
  unfold amend at 1 in Hr. unfold amend.
  destruct (raw_address (txout_script x)) as [d|] eqn:Hd.
  - pose proof (raw_address_len _ _ Hd).
    destruct (address_key_spec d (2 ^ 64 - 1 - timestamp) h a) as (a' & Ha & Hs); [done..|lia|lia|].
    exists a'. split; [|done].
    erewrite bind_amonad; [|rewrite copy_address_raw, Hd; by erewrite bind_amonad by exact Ha].
    by apply lift_push_Ok.
  - exists a. split; [|by apply arena_step_refl].
    erewrite bind_amonad; [|by rewrite copy_address_raw, Hd]. by rewrite appended_nil.
Qed.

Lemma len_addressed h timestamp delta l : len (addressed l) = len (omap (amend h timestamp delta) l).
Proof.
  unfold addressed. induction l as [|x l IH]; [done|]. cbn. unfold amend at 1.
  destruct (raw_address (txout_script x)) as [d|] eqn:Hd.
  - destruct (raw_address_sound _ _ Hd) as (t & Hok & Ht). rewrite <- Ht.
    rewrite (proj2 (raw_address_template t Hok)). rewrite !len_cons. by rewrite IH.
  - unfold script_has_address. unfold raw_address in Hd. by repeat case_match.
Qed.

Lemma length_amends_le h timestamp delta l : len (omap (amend h timestamp delta) l) <= len l.
Proof.
  induction l as [|x l IH]; [done|]. cbn. unfold amend at 1. rewrite len_cons.
  case_match; rewrite ?len_cons; lia.
Qed.

(** What a spent and a paid output add. *)
Definition spent_delta (o : TxOut) : Z := neg_i64 (as_i64 (txout_value o)).
Definition paid_delta (o : TxOut) : Z := as_i64 (txout_value o).

(** The amends of a transaction: what it spends, negated, and what it pays. *)
Definition amends_of (t : Tx) (deps : list TxOut) (timestamp : Z) : list (bytes * Z) :=
  omap (amend (tx_hash t) timestamp spent_delta) deps ++
  omap (amend (tx_hash t) timestamp paid_delta) (txouts t).

Definition amends_need `{Layout} (t : Tx) (deps : list TxOut) (timestamp : Z) : Z :=
  array_room RAddressAmend (len (amends_of t deps timestamp)) +
  (total_cost amend_cost deps + total_cost amend_cost (txouts t)).

Lemma push_amends `{Layout} h timestamp delta l arr a :
  hash_ok h → arena_wf a → total_cost amend_cost l <= free a →
  room_for arr (len (omap (amend h timestamp delta) l)) →
  ∃ a', for_alloc (push_amend h timestamp delta) l arr a
    = Ok (appended arr (omap (amend h timestamp delta) l), a') ∧
    arena_step a a' (total_cost amend_cost l).
Proof.
  intros Hh Hwf Hf Hr. apply for_alloc_collect; [apply amend_cost_nonneg| |done..].
  intros. by apply push_amend_spec.
Qed.

Lemma amends_need_nonneg `{Layout} t deps timestamp : 0 <= amends_need t deps timestamp.
Proof.
  pose proof (array_room_nonneg RAddressAmend (len (amends_of t deps timestamp)) (len_nonneg _)).
  pose proof (total_cost_nonneg _ amend_cost_nonneg deps).
  pose proof (total_cost_nonneg _ amend_cost_nonneg (txouts t)). unfold amends_need. lia.
Qed.

Lemma amends_count_spec t deps timestamp :
  (is_coinbase t = true → deps = []) → len deps + len (txouts t) <= isize_max →
  (if is_coinbase t then 0 else len (addressed deps)) +! len (addressed (txouts t))
  = len (amends_of t deps timestamp).
Proof.
  intros Hcb Hlen.
  assert ((if is_coinbase t then 0 else len (addressed deps)) = len (addressed deps)) as ->.
  { destruct (is_coinbase t); [|done]. by rewrite Hcb. }
  rewrite (len_addressed (tx_hash t) timestamp spent_delta deps),
    (len_addressed (tx_hash t) timestamp paid_delta (txouts t)).
  pose proof (length_amends_le (tx_hash t) timestamp spent_delta deps).
  pose proof (length_amends_le (tx_hash t) timestamp paid_delta (txouts t)).
  unfold amends_of. rewrite len_app. by unwrap.
Qed.

Lemma serialize_address_amends_spec `{Layout, UnstableSort} t deps timestamp a :
  arena_wf a → hash_ok (tx_hash t) → (is_coinbase t = true → deps = []) →
  amends_need t deps timestamp <= free a → len deps + len (txouts t) <= isize_max →
  ∃ a', serialize_address_amends t deps timestamp a
    = Ok (if bool_decide (amends_of t deps timestamp = []) then None
          else Some (sort_unstable_by (λ a b, bytes_leb a.1 b.1) (amends_of t deps timestamp)), a') ∧
    arena_step a a' (amends_need t deps timestamp).
Proof.
  intros Hwf Hh Hcb Hf Hlen. unfold serialize_address_amends, amends_need in *.
  rewrite (amends_count_spec _ _ timestamp) by done.
  pose proof (total_cost_nonneg _ amend_cost_nonneg deps).
  pose proof (total_cost_nonneg _ amend_cost_nonneg (txouts t)).
  pose proof (len_nonneg (amends_of t deps timestamp)) as Hn.
  pose proof (array_room_nonneg RAddressAmend _ Hn).
  destruct (Z.eqb_spec (len (amends_of t deps timestamp)) 0) as [Hz|Hz].
  - assert (amends_of t deps timestamp = []) as Hnil by (destruct (amends_of t deps timestamp); done).
    rewrite bool_decide_true by done. exists a. split; [done|]. apply arena_step_refl; [done|lia].
  - rewrite bool_decide_false by (intros Hnil; by rewrite Hnil in Hz).
    destruct (try_alloc_arenaarray_Ok (T := bytes * Z) a RAddressAmend (len (amends_of t deps timestamp)))
      as (a1 & Ha1 & Hs1); [done..|lia|].
    pose proof (arena_step_free _ _ _ Hs1). erewrite bind_amonad by exact Ha1.
    match type of Ha1 with _ = Ok (?arr, _) => set (arr0 := arr) in * end.
    assert (room_for arr0 (len (amends_of t deps timestamp))) as Hroom
      by (unfold room_for, arr0, aa_len; simpl; rewrite len_nil; lia).
    unfold amends_of in Hroom. rewrite len_app in Hroom. pose proof Hroom as [Hroom1 Hroom2].
    destruct (push_amends (tx_hash t) timestamp spent_delta deps arr0 a1) as (a2 & Ha2 & Hs2);
      [done|by destruct Hs1|lia|split; [pose proof (len_nonneg (omap (amend (tx_hash t) timestamp paid_delta) (txouts t))); lia|done]|].
    pose proof (arena_step_free _ _ _ Hs2). erewrite bind_amonad by exact Ha2.
    destruct (push_amends (tx_hash t) timestamp paid_delta (txouts t)
      (appended arr0 (omap (amend (tx_hash t) timestamp spent_delta) deps)) a2) as (a3 & Ha3 & Hs3);
      [done|by destruct Hs2|lia|by apply room_for_appended|].
    exists a3. split; [erewrite bind_amonad by exact Ha3; by rewrite appended_appended|].
    eapply arena_step_trans; [exact Hs1|by eapply arena_step_trans|lia].
Qed.

(** * The whole analysis *)

Lemma for_comp_inv {A S} (I : S → Prop) (f : S → A → comp S) l s s' :
  (∀ s x s', I s → f s x = Finished (Ok s') → I s') →
  I s → for_comp f l s = Finished (Ok s') → I s'.
Proof.
  intros Hf. revert s. induction l as [|x l IH]; intros s Hs Hl; cbn [for_comp] in Hl.
  - apply Finished_Ok_inj in Hl. by subst.
  - cbind Hl. by apply (IH v); [apply (Hf s x)|].
Qed.

Lemma wrap32_range z : in_u32 (wrap32 z).
Proof. apply Z.mod_pos_bound. done. Qed.

Lemma sigop_cost_range tx dependencies flags n :
  get_transaction_sigop_cost tx dependencies flags = Finished (Ok n) → in_u32 n.
Proof.
  unfold get_transaction_sigop_cost. intros Hn. cbind Hn.
  destruct (is_coinbase tx); [apply Finished_Ok_inj in Hn; subst; apply wrap32_range|].
  cbind Hn. assert (in_u32 v0) as Hrange.
  { destruct (negb _); [cbind Hv0|]; apply Finished_Ok_inj in Hv0; subst; apply wrap32_range. }
  destruct (negb (Z.land flags SCRIPT_VERIFY_WITNESS =? 0));
    [|by apply Finished_Ok_inj in Hn; subst].
  revert Hn. apply for_comp_inv; [|done]. clear. intros s [i x] s' _ Hs.
  repeat cbind Hs. apply Finished_Ok_inj in Hs. subst. apply wrap32_range.
Qed.

Definition tx_fee (t : Tx) (deps : list TxOut) : Z := if is_coinbase t then 0 else calculate_fee t deps.
Definition txouts_total (t : Tx) : Z := foldl (λ t x, t +! txout_value x) 0 (txouts t).

Lemma foldl_sum_range l : in_u64 (foldl (λ t x, t +! txout_value x) 0 l).
Proof.
  assert (∀ k, in_u64 k → in_u64 (foldl (λ t x, t +! txout_value x) k l)) as Hk; [|by apply Hk].
  induction l as [|x l IH]; intros k Hk; [done|]. cbn. apply IH, wrap64_range.
Qed.

Lemma tx_fee_range t deps : in_u64 (tx_fee t deps).
Proof. unfold tx_fee, calculate_fee. destruct (is_coinbase t); [done|apply wrap64_range]. Qed.

Definition analysis_of (t : Tx) (deps : list TxOut) (sigops : Z) (block_hash : hash) : bytes :=
  analysis_bytes t deps (tx_fee t deps) (txouts_total t) (calculate_tx_size_wus t) sigops block_hash.

Definition spends_need `{Layout} (t : Tx) : Z :=
  if is_coinbase t then 0 else array_room RRefSpendKey (len (txins t)) + 36 * len (txins t).

Lemma spends_need_nonneg `{Layout} t : 0 <= spends_need t.
Proof.
  unfold spends_need. pose proof (len_nonneg (txins t)).
  pose proof (array_room_nonneg RRefSpendKey (len (txins t)) (len_nonneg _)). destruct (is_coinbase t); lia.
Qed.

Lemma maybe_spends_spec `{Layout} t a :
  arena_wf a → Forall valid (txins t) → spends_need t <= free a →
  ∃ a', (if is_coinbase t then mret None else spends ← serialize_spends t; mret (Some spends)) a
    = Ok (if is_coinbase t then None else Some (map outpoint (txins t)), a') ∧
    arena_step a a' (spends_need t).
Proof.
  intros Hwf Hv Hf. unfold spends_need in *. destruct (is_coinbase t).
  - exists a. split; [done|]. by apply arena_step_refl.
  - destruct (serialize_spends_spec t a) as (a' & Ha & Hs); [done..|].
    exists a'. split; [by erewrite bind_amonad by exact Ha|done].
Qed.

Definition analysis_need `{Layout} (t : Tx) (deps : list TxOut) (block_hash : hash) (timestamp : Z) : Z :=
  len (analysis_of t deps 0 block_hash) + 8 + (len (encode_array (txouts t)) +
  (spends_need t +
   amends_need t deps timestamp)).

(** What is stored of a transaction. *)
Definition analysis `{UnstableSort} (t : Tx) (deps : list TxOut) (sigops : Z) (block_hash : hash)
    (timestamp : Z) : SerializedTx :=
  mkSerializedTx (tx_hash t)
    (Some (analysis_of t deps sigops block_hash ++ zeros 8))
    (Some (encode_array (txouts t)))
    (if is_coinbase t then None else Some (map outpoint (txins t)))
    (if bool_decide (amends_of t deps timestamp = []) then None
     else Some (sort_unstable_by (λ a b, bytes_leb a.1 b.1) (amends_of t deps timestamp)))
    (tx_fee t deps) (txouts_total t) (calculate_tx_size_wus t).

Lemma array_room_u8 `{Layout} n : array_room RU8 n = n.
Proof. unfold array_room. rewrite size_of_u8, align_of_u8. lia. Qed.

Lemma len_analysis_of t deps sigops block_hash :
  hash_ok block_hash →
  len (analysis_of t deps sigops block_hash)
  = 56 + len (encode_tx_without_txouts t) + (length_varint (len deps) + 8 * len deps).
Proof.
  intros Hh. unfold analysis_of, analysis_bytes.
  rewrite !len_app, len_analysis_header, len_encode_array, len_u64s, len_map by done. lia.
Qed.

Definition analyzable (t : Tx) (deps : list TxOut) : Prop :=
  Forall valid (txins t) ∧ hash_ok (tx_hash t) ∧ (is_coinbase t = true → deps = []) ∧
  len (encode_tx_without_txouts t) + 8 * len deps <= 2 ^ 61 ∧ len (txouts t) <= 2 ^ 61.

Lemma serialize_analysis_spec `{Layout, UnstableSort} t deps timestamp block_hash sigops a :
  arena_wf a → analyzable t deps → hash_ok block_hash →
  analysis_need t deps block_hash timestamp <= free a →
  ∃ a', serialize_analysis block_hash t deps timestamp (tx_fee t deps) (txouts_total t)
          (calculate_tx_size_wus t) sigops a
    = Ok (analysis t deps sigops block_hash timestamp, a') ∧
    arena_step a a' (analysis_need t deps block_hash timestamp).
Proof.
  intros Hwf (Hv & Hh & Hcb & Hlen & Houts) Hbh Hf. unfold analysis_need in *.
  pose proof (len_nonneg deps). pose proof (len_nonneg (encode_tx_without_txouts t)).
  pose proof (length_varint_range (len deps)). pose proof (len_nonneg (encode_array (txouts t))).
  pose proof (spends_need_nonneg t). pose proof (amends_need_nonneg t deps timestamp).
  assert (len (analysis_of t deps 0 block_hash) = len (analysis_of t deps sigops block_hash)) as Hall
    by (by rewrite !len_analysis_of).
  pose proof (len_analysis_of t deps sigops block_hash Hbh) as Hlen'. rewrite Hall in *.
  set (all := analysis_of t deps sigops block_hash) in *.
  unfold serialize_analysis.
  replace (_ +! 8 +! 8 +! 4 +! 4 +! 8 +! 32 +! _) with (len all + 8); cycle 1.
  { rewrite serialized_without_txouts_size_spec, txin_values_size_spec by (done || (unfold slice_ok; mlia) || lia).
    rewrite len_encode_array, len_u64s, len_map. unwrap. lia. }
  destruct (try_alloc_array_fill_copy_Ok a RU8 (len all + 8) Byte.x00) as (a1 & Ha1 & Hs1);
    [done|lia|rewrite array_room_u8; lia|].
  rewrite array_room_u8 in Hs1. pose proof (arena_step_free _ _ _ Hs1).
  erewrite bind_amonad by exact Ha1. fold (zeros (len all + 8)).
  erewrite bind_lift by (apply write_analyzed_tx_spec; done).
  destruct (serialize_txouts_spec t a1) as (a2 & Ha2 & Hs2);
    [by destruct Hs1|rewrite array_room_u8; lia|].
  rewrite array_room_u8 in Hs2. pose proof (arena_step_free _ _ _ Hs2).
  erewrite bind_amonad by exact Ha2.
  destruct (maybe_spends_spec t a2) as (a3 & Ha3 & Hs3); [by destruct Hs2|done|lia|].
  pose proof (arena_step_free _ _ _ Hs3). erewrite bind_amonad by exact Ha3.
  destruct (serialize_address_amends_spec t deps timestamp a3) as (a4 & Ha4 & Hs4);
    [by destruct Hs3|done|done|lia|unfold isize_max; lia|].
  exists a4. split; [by erewrite bind_amonad by exact Ha4|].
  repeat (eapply arena_step_trans; [eassumption| |reflexivity]). done.
Qed.

(** * Properties *)

(** C37. The analysis of a transaction ends as soon as the count of its signature
    operations does, and fills the arena with: the main part (fee, sum of the
    outputs, weight, cost, hash of the block, the transaction without outputs, the
    values it spends, and eight bytes that stay zero), the outputs, the keys of the
    outputs it spends (none for a coinbase transaction), and the amends of the
    addresses, sorted by their keys. The main part reads back to what went in. *)
Theorem analyzed_tx_roundtrip `{Sha256, Layout, UnstableSort} t deps timestamp block_hash sigops a :
  arena_wf a → analyzable t deps → hash_ok block_hash →
  analysis_need t deps block_hash timestamp <= free a →
  get_transaction_sigop_cost t deps (analyze_flags t) = Finished (Ok sigops) →
  ∃ a', analyze_tx block_hash t deps timestamp a
          = Finished (Ok (analysis t deps sigops block_hash timestamp, a')) ∧
    arena_step a a' (analysis_need t deps block_hash timestamp) ∧
    (tx_fields_ok t → tx_vecs_ok t → Forall (λ o, in_u64 (txout_value o)) deps →
     vec_ok (map txout_value deps) →
     deserialize_analyzed_tx (analysis_of t deps sigops block_hash ++ zeros 8) (tx_hash t)
     = Ok (mkAnalyzedTx (tx_fee t deps) (txouts_total t) (calculate_tx_size_wus t) sigops block_hash
             (stored t (tx_hash t)) (map txout_value deps))).
Proof.
  intros Hwf Han Hbh Hf Hsig.
  destruct (serialize_analysis_spec t deps timestamp block_hash sigops a Hwf Han Hbh Hf) as (a' & Ha & Hs).
  exists a'. split_and!; [|done|].
  - unfold analyze_tx. rewrite Hsig. cbn [mbind comp_bind]. by rewrite <- Ha.
  - intros Hfields Hvecs Hdeps Hvd. apply deserialize_analyzed_tx_spec; try done.
    + apply tx_fee_range.
    + apply foldl_sum_range.
    + apply wrap32_range.
    + by eapply sigop_cost_range.
    + change (slice_ok (analysis_of t deps sigops block_hash ++ zeros 8)).
      unfold slice_ok. rewrite len_app, len_zeros, len_analysis_of by done.
      destruct Han as (_ & _ & _ & Hlen & _). pose proof (length_varint_range (len deps)). mlia.
Qed.

(** What the amends add up to for a key. *)
Definition key_total (key : bytes) (l : list (bytes * Z)) : Z :=
  sumZ (map snd (List.filter (λ x, bool_decide (x.1 = key)) l)).

(** The value the outputs give to an address. *)
Definition paid_to (address : bytes) (outs : list TxOut) : Z :=
  sumZ (map txout_value (List.filter (λ o, bool_decide (raw_address (txout_script o) = Some address)) outs)).

Lemma key_total_app key l k : key_total key (l ++ k) = key_total key l + key_total key k.
Proof.
  unfold key_total. rewrite List.filter_app, map_app. induction (map snd _) as [|x r IH]; simpl; lia.
Qed.

Lemma key_total_perm key l k : l ≡ₚ k → key_total key l = key_total key k.
Proof.
  unfold key_total, sumZ. induction 1; simpl; repeat case_bool_decide; simpl; lia.
Qed.

Lemma address_entry_inj d d' timestamp h : address_entry d timestamp h = address_entry d' timestamp h → d = d'.
Proof. unfold address_entry. apply app_inv_tail. Qed.

Lemma as_i64_small v : 0 <= v < 2 ^ 63 → as_i64 v = v ∧ neg_i64 v = - v.
Proof.
  intros Hv. unfold neg_i64, as_i64. split.
  - rewrite wrap64_small by (unfold in_u64; lia). by rewrite (proj2 (Z.ltb_lt _ _)) by lia.
  - destruct (Z.eq_dec v 0) as [-> |Hv0]; [done|]. unfold wrap64. rewrite Z_mod_nz_opp_full.
    + rewrite Z.mod_small by lia. destruct (Z.ltb_spec (2 ^ 64 - v) (2 ^ 63)); lia.
    + rewrite Z.mod_small by lia. done.
Qed.

Lemma amends_total h timestamp delta k address outs :
  Forall (λ o, delta o = k * txout_value o) outs →
  key_total (address_entry address timestamp h) (omap (amend h timestamp delta) outs)
  = k * paid_to address outs.
Proof.
  induction 1 as [|o outs Ho Houts IH]; [unfold key_total, paid_to; simpl; lia|].
  unfold paid_to, key_total, sumZ in *. cbn. unfold amend at 1.
  destruct (raw_address (txout_script o)) as [d|].
  - cbn. destruct (decide (d = address)) as [-> |Hd].
    + rewrite !bool_decide_true by done. cbn. rewrite IH. lia.
    + rewrite !bool_decide_false; [done|congruence|by intros ?%address_entry_inj].
  - by rewrite bool_decide_false.
Qed.

(** The amends of a transaction with values below [2 ^ 63] are sorted by
    their keys, as the database needs them, and add up for every address to what
    the transaction pays to it less what it spends of it; a missing list stands for
    no amends. *)
Theorem address_amends_balance `{Layout, UnstableSort} t deps timestamp a :
  arena_wf a → hash_ok (tx_hash t) → (is_coinbase t = true → deps = []) →
  amends_need t deps timestamp <= free a → len deps + len (txouts t) <= isize_max →
  Forall (λ o, 0 <= txout_value o < 2 ^ 63) (deps ++ txouts t) →
  ∃ amends a', serialize_address_amends t deps timestamp a = Ok (amends, a') ∧
    StronglySorted (λ x y, bytes_leb x.1 y.1 = true) (default [] amends) ∧
    (∀ address, key_total (address_entry address timestamp (tx_hash t)) (default [] amends)
                = paid_to address (txouts t) - paid_to address deps).
Proof.
  intros Hwf Hh Hcb Hf Hlen Hval. apply Forall_app in Hval as [Hdeps Houts].
  destruct (serialize_address_amends_spec t deps timestamp a) as (a' & Ha & _); [done..|].
  eexists _, a'. split; [exact Ha|].
  assert (∀ address, key_total (address_entry address timestamp (tx_hash t)) (amends_of t deps timestamp)
    = paid_to address (txouts t) - paid_to address deps) as Htotal.
  { intros address. unfold amends_of. rewrite key_total_app.
    rewrite (amends_total _ _ _ (-1)), (amends_total _ _ _ 1); [lia|..].
    - eapply Forall_impl; [exact Houts|]. intros o Ho. unfold paid_delta.
      rewrite (proj1 (as_i64_small _ Ho)). lia.
    - eapply Forall_impl; [exact Hdeps|]. intros o Ho. unfold spent_delta.
      rewrite (proj1 (as_i64_small _ Ho)), (proj2 (as_i64_small _ Ho)). lia. }
  case_bool_decide as Hnil; simpl.
  - split; [constructor|]. intros address. by rewrite <- Htotal, Hnil.
  - split.
    + apply (sort_unstable_by_sorted _ (λ x y : bytes * Z, bytes_leb x.1 y.1)), total_preorder_key.
    + intros address. rewrite <- Htotal. apply key_total_perm, sort_unstable_by_perm.
Qed.

Import Toy.

(** A payment with change: 2000 spent of an address, 1234 back to it. *)
Definition toy_payment : Tx :=
  mkTx 2 500000 [toy_txin] [mkTxOut 1234 (template_script (key_hash dummy)); mkTxOut 99 []]
    (Some [encode_varstrs [[Byte.x01; Byte.x02]; []]]) (to_le 32 42) EMPTY_HASH.

Definition toy_deps : list TxOut := [mkTxOut 2000 (template_script (key_hash dummy))].

Definition toy_arena : Arena := mkArena 4096 0 4096.

Lemma toy_payment_analyzable : analyzable toy_payment toy_deps.
Proof.
  split_and!; try done.
  - constructor; [|constructor]. vm_compute. split_and!; (reflexivity || discriminate).
Qed.

Lemma toy_payment_fields : tx_fields_ok toy_payment.
Proof.
  split; [split; [discriminate|reflexivity]|]. split; [split; [discriminate|reflexivity]|].
  split; [discriminate|]. split.
  { split; [|vm_compute; discriminate]. constructor; [|constructor].
    split; [reflexivity|]. split; split; (discriminate || reflexivity). }
  split.
  { split; [|vm_compute; discriminate]. repeat (constructor; [split; [discriminate|reflexivity]|]). constructor. }
  split; [reflexivity|]. constructor; [|constructor]. by eexists.
Qed.

Lemma analyzed_tx_roundtrip_witness :
  ∃ a', analyze_tx EMPTY_HASH toy_payment toy_deps 77 toy_arena
          = Finished (Ok (analysis toy_payment toy_deps 4 EMPTY_HASH 77, a')) ∧
    deserialize_analyzed_tx (analysis_of toy_payment toy_deps 4 EMPTY_HASH ++ zeros 8) (tx_hash toy_payment)
    = Ok (mkAnalyzedTx 667 1333 (calculate_tx_size_wus toy_payment) 4 EMPTY_HASH
            (stored toy_payment (tx_hash toy_payment)) [2000]).
Proof.
  destruct (analyzed_tx_roundtrip toy_payment toy_deps 77 EMPTY_HASH 4 toy_arena) as (a' & Ha & _ & Hd).
  - apply toy_arena_wf; lia.
  - apply toy_payment_analyzable.
  - reflexivity.
  - vm_compute. discriminate.
  - vm_compute. reflexivity.
  - exists a'. split; [exact Ha|]. apply Hd.
    + apply toy_payment_fields.
    + split; vm_compute; discriminate.
    + constructor; [|constructor]. split; [discriminate|reflexivity].
    + vm_compute. discriminate.
Defined.

Lemma address_amends_balance_witness :
  ∃ amends a', serialize_address_amends toy_payment toy_deps 77 toy_arena = Ok (amends, a') ∧
    key_total (address_entry dummy 77 (tx_hash toy_payment)) (default [] amends) = -766.
Proof.
  destruct (address_amends_balance toy_payment toy_deps 77 toy_arena) as (amends & a' & Ha & _ & Hb).
  - apply toy_arena_wf; lia.
  - reflexivity.
  - discriminate.
  - vm_compute. discriminate.
  - vm_compute. discriminate.
  - repeat (constructor; [split; [discriminate|reflexivity]|]). constructor.
  - exists amends, a'. split; [exact Ha|]. refine (eq_trans (Hb dummy) _). vm_compute. reflexivity.
Defined.
