(* ===== verification/Keys.v ===== *)
(** The order of the keys of the database: keys are compared byte by byte, so that a
    big-endian number in a key sorts by its value. *)
From stdpp Require Import sorting.
From S2P Require Import Prelude.

Definition bytes_ltb (a b : bytes) : bool := negb (bytes_leb b a).

Lemma bytes_ltb_cmp a b : bytes_ltb a b = true ↔ bytes_cmp a b = Lt.
Proof.
  unfold bytes_ltb, bytes_leb. rewrite (bytes_cmp_antisym a b). by destruct (bytes_cmp a b).
Qed.

Lemma bytes_ltb_irrefl a : bytes_ltb a a = false.
Proof. unfold bytes_ltb. by rewrite bytes_leb_refl. Qed.

Lemma bytes_ltb_leb a b : bytes_ltb a b = true → bytes_leb a b = true.
Proof. rewrite bytes_ltb_cmp, bytes_leb_cmp. by intros ->. Qed.

Lemma bytes_leb_ltb a b : bytes_leb a b = true → a ≠ b → bytes_ltb a b = true.
Proof.
  rewrite bytes_ltb_cmp, bytes_leb_cmp. intros Hab Hne.
  destruct (bytes_cmp a b) eqn:Hc; [|done..]. by apply bytes_cmp_eq in Hc.
Qed.

Lemma bytes_ltb_leb_trans a b c : bytes_ltb a b = true → bytes_leb b c = true → bytes_ltb a c = true.
Proof.
  intros Hab Hbc. apply bytes_leb_ltb.
  - eapply bytes_leb_trans; [by apply bytes_ltb_leb|done].
  - intros ->. unfold bytes_ltb in Hab. by rewrite Hbc in Hab.
Qed.

Lemma bytes_leb_ltb_trans a b c : bytes_leb a b = true → bytes_ltb b c = true → bytes_ltb a c = true.
Proof.
  intros Hab Hbc. apply bytes_leb_ltb.
  - eapply bytes_leb_trans; [done|by apply bytes_ltb_leb].
  - intros ->. unfold bytes_ltb in Hbc. by rewrite Hab in Hbc.
Qed.

(** Keys with parts of the same length compare part by part. *)
Lemma bytes_cmp_app a b x y :
  length a = length b →
  bytes_cmp (a ++ x) (b ++ y) = match bytes_cmp a b with Eq => bytes_cmp x y | c => c end.
Proof.
  revert b. induction a as [|u a IH]; intros [|v b] Hl; try done. simpl.
  destruct (u8 u ?= u8 v); [|done..]. apply IH. by injection Hl.
Qed.

Lemma bytes_cmp_prefix a x y : bytes_cmp (a ++ x) (a ++ y) = bytes_cmp x y.
Proof. by rewrite bytes_cmp_app, bytes_cmp_refl. Qed.

#[local] Transparent to_be to_le from_be from_le.

Lemma to_be_snoc n v : to_be (S n) v = to_be n (Z.shiftr v 8) ++ [byte.of_Z v].
Proof. done. Qed.

Lemma to_be_from_be b n : length b = n → to_be n (from_be b) = b.
Proof.
  intros Hb. unfold to_be, from_be. change (le_split n ?v) with (to_le n v).
  change (le_combine (rev b)) with (from_le (rev b)).
  rewrite to_le_from_le by (by rewrite length_rev). apply rev_involutive.
Qed.

#[local] Opaque to_be to_le from_be from_le.

Lemma length_to_be n v : length (to_be n v) = n.
Proof. pose proof (len_to_be n v). unfold len in *. lia. Qed.

Lemma bytes_cmp_to_be n x y :
  0 <= x < 2 ^ (8 * Z.of_nat n) → 0 <= y < 2 ^ (8 * Z.of_nat n) →
  bytes_cmp (to_be n x) (to_be n y) = (x ?= y).
Proof.
  revert x y. induction n as [|n IH]; intros x y Hx Hy.
  - change (2 ^ (8 * Z.of_nat 0)) with 1 in *. assert (x = 0) as -> by lia. by assert (y = 0) as -> by lia.
  - assert (2 ^ (8 * Z.of_nat (S n)) = 2 ^ 8 * 2 ^ (8 * Z.of_nat n)) as Hp
      by (rewrite <- Z.pow_add_r by lia; f_equal; lia).
    rewrite Hp in *. rewrite !to_be_snoc, !Z.shiftr_div_pow2 by lia.
    rewrite bytes_cmp_app by (by rewrite !length_to_be).
    assert (∀ v, 0 <= v < 2 ^ 8 * 2 ^ (8 * Z.of_nat n) → 0 <= v / 2 ^ 8 < 2 ^ (8 * Z.of_nat n)) as Hdiv.
    { intros v Hv. split; [apply Z.div_pos; lia|]. apply Z.div_lt_upper_bound; lia. }
    rewrite IH by (apply Hdiv; lia). simpl. rewrite !byte.unsigned_of_Z. unfold byte.wrap.
    pose proof (Z_div_mod_eq_full x (2 ^ 8)). pose proof (Z_div_mod_eq_full y (2 ^ 8)).
    pose proof (Z.mod_pos_bound x (2 ^ 8) ltac:(lia)). pose proof (Z.mod_pos_bound y (2 ^ 8) ltac:(lia)).
    destruct (Z.compare_spec (x / 2 ^ 8) (y / 2 ^ 8)); symmetry.
    + destruct (Z.compare_spec (x mod 2 ^ 8) (y mod 2 ^ 8)).
      * apply Z.compare_eq_iff. nia.
      * apply Z.compare_lt_iff. nia.
      * apply Z.compare_gt_iff. nia.
    + apply Z.compare_lt_iff. nia.
    + apply Z.compare_gt_iff. nia.
Qed.

(** * Lists sorted by a key *)

Section sorted.
Context {A : Type} (key : A → bytes).

Definition key_le (x y : A) : Prop := bytes_leb (key x) (key y) = true.
Definition key_lt (x y : A) : Prop := bytes_ltb (key x) (key y) = true.

Lemma key_lt_ne x y : key_lt x y → key x ≠ key y.
Proof. unfold key_lt. intros Hlt He. by rewrite He, bytes_ltb_irrefl in Hlt. Qed.

(** Without two equal keys the order is strict. *)
Lemma sorted_strict l : StronglySorted key_le l → NoDup (map key l) → StronglySorted key_lt l.
Proof.
  induction 1 as [|x l Hl IH Hx]; intros Hnd; [constructor|].
  cbn [map] in Hnd. apply NoDup_cons in Hnd as [Hni Hnd]. constructor; [by apply IH|].
  rewrite Forall_forall in *. intros y Hy. apply bytes_leb_ltb; [by apply Hx|].
  intros He. apply Hni. rewrite He. by apply list_elem_of_fmap_2.
Qed.

Lemma sorted_NoDup l : StronglySorted key_lt l → NoDup (map key l).
Proof.
  induction 1 as [|x l Hl IH Hx]; cbn [map]; constructor; [|done].
  intros (y & Hy & Hin)%list_elem_of_fmap_1. rewrite Forall_forall in Hx. by apply (key_lt_ne x y); [apply Hx|].
Qed.

Lemma sorted_filter (R : A → A → Prop) f l : StronglySorted R l → StronglySorted R (List.filter f l).
Proof.
  induction 1 as [|x l Hl IH Hx]; simpl; [constructor|].
  destruct (f x); [|done]. constructor; [done|].
  rewrite Forall_forall in *. intros y Hy. apply Hx.
  apply list_elem_of_In, List.filter_In in Hy as [Hy _]. by apply list_elem_of_In.
Qed.

(** Two strictly sorted lists with the same members are equal. *)
Lemma sorted_unique l k :
  StronglySorted key_lt l → StronglySorted key_lt k → (∀ x, x ∈ l ↔ x ∈ k) → l = k.
Proof.
  intros Hl. revert k. induction Hl as [|x l Hl IH Hx]; intros k Hk Heq.
  - destruct k as [|y k]; [done|]. exfalso. apply (not_elem_of_nil y), Heq. by left.
  - destruct Hk as [|y k Hk Hy]; [exfalso; apply (not_elem_of_nil x), Heq; by left|].
    rewrite Forall_forall in Hx, Hy.
    assert (x = y) as <-.
    { destruct (proj1 (elem_of_cons _ _ _) (proj1 (Heq x) ltac:(by left))) as [?|Hxk]; [done|].
      destruct (proj1 (elem_of_cons _ _ _) (proj2 (Heq y) ltac:(by left))) as [?|Hyl]; [done|].
      exfalso. pose proof (Hx y Hyl) as Hxy. pose proof (Hy x Hxk) as Hyx. unfold key_lt in *.
      apply bytes_ltb_leb in Hxy. unfold bytes_ltb in Hyx. by rewrite Hxy in Hyx. }
    f_equal. apply IH; [done|]. intros z. specialize (Heq z). rewrite !elem_of_cons in Heq.
    split; intros Hz.
    + destruct (proj1 Heq (or_intror Hz)) as [->|?]; [|done].
      exfalso. by apply (key_lt_ne x x); [apply Hx|].
    + destruct (proj2 Heq (or_intror Hz)) as [->|?]; [|done].
      exfalso. by apply (key_lt_ne x x); [apply Hy|].
Qed.
End sorted.
