(* ===== verification/Store.v ===== *)
(** [src/db/mod.rs] and [src/db/rocksdb.rs]: how analyzed blocks are written to
    the database. *)
From stdpp Require Import sorting.
From S2P Require Import Prelude.
From S2P Require Import Extern.
From S2P Require Import Buffer.
From S2P Require Import Varint.
From S2P Require Import Arena.
From S2P Require Import Wire.
From S2P Require Import Header.
From S2P Require Import Tx.
From S2P Require Import Loops.
From S2P Require Import Opcodes.
From S2P Require Import Script.
From S2P Require Import Weight.
From S2P Require Import Address.
From S2P Require Import Keys.
From S2P Require Import Analyze.

(** * [rocksdb]

    A database maps keys to values. It grows by whole files: a writer takes pairs
    in strictly ascending order of their keys and refuses all others, a file must
    not be empty, and ingesting it puts its pairs over what the database holds. An
    iterator goes over the keys between two bounds in ascending order. *)

Class RocksDb := {
  DB : Type;
  contents : DB → gmap bytes bytes;
  get_pinned : DB → bytes → outcome (option bytes);
  SstFileWriter : Type;
  sst_entries : SstFileWriter → list (bytes * bytes);
  sst_open : SstFileWriter;
  sst_put : SstFileWriter → bytes → bytes → outcome SstFileWriter;
  sst_finish : SstFileWriter → outcome unit;
  ingest : DB → SstFileWriter → outcome DB;
  iterate : DB → bytes → bytes → list (bytes * bytes);
  prefix_iterator : DB → bytes → list (bytes * bytes);
  get_pinned_spec d k : get_pinned d k = Ok (contents d !! k);
  sst_open_spec : sst_entries sst_open = [];
  sst_put_spec w k v :
    (∀ x, x ∈ sst_entries w → bytes_ltb x.1 k = true) →
    ∃ w', sst_put w k v = Ok w' ∧ sst_entries w' = sst_entries w ++ [(k, v)];
  sst_put_refused w k v x :
    x ∈ sst_entries w → bytes_ltb x.1 k = false → ∃ e, sst_put w k v = Err e;
  sst_finish_spec w : sst_entries w ≠ [] → sst_finish w = Ok tt;
  sst_finish_empty w : sst_entries w = [] → ∃ e, sst_finish w = Err e;
  ingest_spec d w : sst_finish w = Ok tt →
    ∃ d', ingest d w = Ok d' ∧ contents d' = list_to_map (sst_entries w) ∪ contents d;
  iterate_sorted d lo hi : StronglySorted (λ x y, bytes_ltb x.1 y.1 = true) (iterate d lo hi);
  iterate_spec d lo hi k v :
    (k, v) ∈ iterate d lo hi ↔
    contents d !! k = Some v ∧ bytes_leb lo k = true ∧ bytes_ltb k hi = true;
  prefix_iterator_sorted d p : StronglySorted (λ x y, bytes_ltb x.1 y.1 = true) (prefix_iterator d p);
  prefix_iterator_spec d p k v :
    (k, v) ∈ prefix_iterator d p ↔ contents d !! k = Some v ∧ p `prefix_of` k;
}.

(** The five databases. *)
Record Databases `{RocksDb} := mkDatabases {
  TXS_DB : DB;
  TXOUTS_DB : DB;
  BLOCKTXS_DB : DB;
  ADDRESSES_DB : DB;
  TXSPENDS_DB : DB;
}.

Section store.
Context `{RocksDb}.

(** * Writing files *)

Definition put_or_panic (msg : string) (writer : SstFileWriter) (pair : bytes * bytes) :
    outcome SstFileWriter :=
  unwrap (sst_put writer pair.1 pair.2) msg.

Definition finish_and_ingest (d : DB) (writer : SstFileWriter) : outcome DB :=
  _ ← unwrap (sst_finish writer) "to close the sst file";
  unwrap (ingest d writer) "to ingest the sst file".

(** The loop of [write_txouts] and [write_txs]: consecutive transactions with the
    same hash are written once. *)
Definition put_tx (field : SerializedTx → option bytes) (msg : string)
    (s : SstFileWriter * hash) (tx : SerializedTx) : outcome (SstFileWriter * hash) :=
  let '(writer, last_key) := s in
  if bool_decide (st_hash tx = last_key) then Ok s
  else
    value ← expect (field tx) "called `Option::unwrap()` on a `None` value";
    writer ← put_or_panic msg writer (st_hash tx, value);
    Ok (writer, st_hash tx).

Definition write_txouts (d : DB) (txs : list SerializedTx) : outcome DB :=
  '(writer, _) ← for_each (put_tx st_tx_outs "to add txout into sst file") txs (sst_open, EMPTY_HASH);
  finish_and_ingest d writer.

Definition write_txs (d : DB) (txs : list SerializedTx) : outcome DB :=
  '(writer, _) ← for_each (put_tx st_analyzed_tx "to add tx into sst file") txs (sst_open, EMPTY_HASH);
  finish_and_ingest d writer.

Definition write_pairs (d : DB) (pairs : list (bytes * bytes)) : outcome DB :=
  writer ← for_each (put_or_panic "to add tx hashes into sst file") pairs sst_open;
  finish_and_ingest d writer.

Definition write_block_txs (d : DB) (blocks_with_txs_pairs : list (bytes * bytes)) : outcome DB :=
  write_pairs d blocks_with_txs_pairs.

Definition write_txspends (d : DB) (spends : list (bytes * bytes)) : outcome DB :=
  write_pairs d spends.

Definition write_address_amends (d : DB) (address_amends : list (bytes * bytes)) : outcome DB :=
  write_pairs d address_amends.

(** * [write_analyzed_txs] *)

Context `{Layout, UnstableSort}.

(** [result.sort_unstable_by(...)] on the items of an arena array *)
Definition aa_sort {T} (leb : T → T → bool) (arr : ArenaArray T) : ArenaArray T :=
  mkArenaArray (aa_type arr) (sort_unstable_by leb (aa_items arr)) (aa_cap arr) (aa_room arr).

Definition serialize_entry (s : bytes * Z) (transaction : SerializedTx) : outcome (bytes * Z) :=
  let '(serialized, offset) := s in
  serialized ← slice_write serialized offset (st_hash transaction);
  serialized ← slice_write serialized (offset +! 32) (to_le 8 (st_txouts_sum transaction));
  serialized ← slice_write serialized (offset +! 40) (to_le 8 (st_fee transaction));
  serialized ← slice_write serialized (offset +! 48) (to_le 4 (st_size_wus transaction));
  Ok (serialized, offset +! 52).

Definition serialize_block (transactions : list SerializedTx) : amonad bytes :=
  let offset := length_varint (len transactions) in
  serialized ← try_alloc_array_fill_copy RU8 (offset +! 52 *! len transactions) Byte.x00;
  '(serialized, _) ← lift (serialize_varint_into_slice (len transactions) serialized);
  '(serialized, _) ← lift (for_each serialize_entry transactions (serialized, offset));
  mret serialized.

Definition push_block (arr : ArenaArray (hash * bytes)) (x : list SerializedTx * hash) :
    amonad (ArenaArray (hash * bytes)) :=
  let '(transactions, block_hash) := x in
  serialized ← serialize_block transactions;
  lift (aa_push arr (block_hash, serialized)).

Definition serialized_txhashes (blocks : list hash) (txs : list (list SerializedTx)) :
    amonad (list (hash * bytes)) :=
  blocks_arena_array ← try_alloc_arenaarray RBlockTxs (len blocks);
  blocks_arena_array ← for_alloc push_block (zip txs blocks) blocks_arena_array;
  mret (into_arena_array (aa_sort (λ a b, bytes_leb a.1 b.1) blocks_arena_array)).

Definition collapsed (txs : list (list SerializedTx)) : amonad (list SerializedTx) :=
  let txs_count := foldl (λ count transactions, count +! len transactions) 0 txs in
  result ← try_alloc_arenaarray RRefSerializedTx txs_count;
  result ← lift (for_each (λ result transactions, for_each aa_push transactions result) txs result);
  mret (into_arena_array (aa_sort (λ a b, bytes_leb (st_hash a) (st_hash b)) result)).

(** The sum over the transactions of the lengths of a part of them. *)
Definition count_parts {T} (part : SerializedTx → option (list T)) (txs : list (list SerializedTx)) : Z :=
  foldl (λ count transactions,
    foldl (λ count transaction,
      match part transaction with Some i => count +! len i | None => count end) count transactions) 0 txs.

Definition push_spends (block_hash : hash) (result : ArenaArray (bytes * bytes)) (transaction : SerializedTx) :
    outcome (ArenaArray (bytes * bytes)) :=
  match st_spent_txos transaction with
  | Some spends =>
      value ← slice_write (zeros 64) 0 (st_hash transaction);
      value ← slice_write value 32 block_hash;
      for_each (λ result txin, aa_push result (txin, value)) spends result
  | None => Ok result
  end.

Definition spends (blocks : list hash) (txs : list (list SerializedTx)) :
    amonad (option (list (bytes * bytes))) :=
  let spends_count := count_parts st_spent_txos txs in
  if spends_count =? 0 then mret None
  else
    result ← try_alloc_arenaarray RTxSpend spends_count;
    result ← lift (for_each (λ result '(transactions, block_hash),
                     for_each (push_spends block_hash) transactions result) (zip txs blocks) result);
    mret (Some (into_arena_array (aa_sort (λ a b, bytes_leb a.1 b.1) result))).

Definition add_i64 (a b : Z) : Z := as_i64 (a + b).

(** An amend; one with the key of the one before it is added to that. *)
Definition push_amend_entry (block_hash : hash) (s : ArenaArray (bytes * bytes) * option bytes)
    (txin : bytes * Z) : outcome (ArenaArray (bytes * bytes) * option bytes) :=
  let '(result, last_key) := s in
  value ← slice_write (zeros 40) 0 block_hash;
  '(delta, result) ←
    (if bool_decide (last_key = Some txin.1) then
       '((_, prev_key), result) ← aa_pop result;
       prev ← slice_idx prev_key 32 40;
       Ok (to_le 8 (wrap64 (add_i64 (as_i64 (from_le prev)) txin.2)), result)
     else Ok (to_le 8 (wrap64 txin.2), result));
  value ← slice_write value 32 delta;
  result ← aa_push result (txin.1, value);
  Ok (result, Some txin.1).

Definition push_amends_of (block_hash : hash) (result : ArenaArray (bytes * bytes))
    (transaction : SerializedTx) : outcome (ArenaArray (bytes * bytes)) :=
  match st_address_amends transaction with
  | Some amends =>
      '(result, _) ← for_each (push_amend_entry block_hash) amends (result, None);
      Ok result
  | None => Ok result
  end.

Definition address_amends (blocks : list hash) (txs : list (list SerializedTx)) :
    amonad (option (list (bytes * bytes))) :=
  let amends_count := count_parts st_address_amends txs in
  if amends_count =? 0 then mret None
  else
    result ← try_alloc_arenaarray RAmendEntry amends_count;
    result ← lift (for_each (λ result '(transactions, block_hash),
                     for_each (push_amends_of block_hash) transactions result) (zip txs blocks) result);
    mret (Some (into_arena_array (aa_sort (λ a b, bytes_leb a.1 b.1) result))).

(** [sqlite::mark_blocks_as_downloaded]: the rows that are updated, and the rows of
    metrics that are inserted. *)
Definition mark_blocks_as_downloaded {M} (hashes : list hash) (coinbase_asciis : list bytes)
    (metrics : list M) : outcome (list (hash * bytes) * list (hash * M)) :=
  if negb (bool_decide (length hashes = length metrics)) then Panic "assertion failed"
  else if negb (bool_decide (length hashes = length coinbase_asciis)) then Panic "assertion failed"
  else Ok (zip hashes coinbase_asciis, zip hashes metrics).

(** A task of the scope that writes a file. The scope hands a panic to its caller
    as a value, which is dropped: a write that fails leaves its database as it was. *)
Definition spawned (d : DB) (task : outcome DB) : DB :=
  match task with Ok d' => d' | _ => d end.

(** The tasks write to different databases, so that their order does not matter. *)
Definition write_analyzed_txs {M} (d : Databases) (blocks : list hash) (txs : list (list SerializedTx))
    (coinbase_asciis : list bytes) (block_metrics : list M) :
    amonad (Databases * (list (hash * bytes) * list (hash * M))) :=
  if negb (bool_decide (length blocks = length txs)) then lift (Panic "assertion failed")
  else if negb (bool_decide (length blocks = length coinbase_asciis)) then lift (Panic "assertion failed")
  else
  serialized_txhashes ← serialized_txhashes blocks txs;
  collapsed ← collapsed txs;
  spends ← spends blocks txs;
  address_amends ← address_amends blocks txs;
  let txouts_db := spawned (TXOUTS_DB d) (write_txouts (TXOUTS_DB d) collapsed) in
  let txs_db := spawned (TXS_DB d) (write_txs (TXS_DB d) collapsed) in
  let blocktxs_db := spawned (BLOCKTXS_DB d) (write_block_txs (BLOCKTXS_DB d) serialized_txhashes) in
  let addresses_db :=
    match address_amends with
    | Some amends => spawned (ADDRESSES_DB d) (write_address_amends (ADDRESSES_DB d) amends)
    | None => ADDRESSES_DB d
    end in
  let txspends_db :=
    match spends with
    | Some spends => spawned (TXSPENDS_DB d) (write_txspends (TXSPENDS_DB d) spends)
    | None => TXSPENDS_DB d
    end in
  marks ← lift (mark_blocks_as_downloaded blocks coinbase_asciis block_metrics);
  mret (mkDatabases _ txs_db txouts_db blocktxs_db addresses_db txspends_db, marks).

End store.

(** * A database in memory *)

Module ToyDb.
Import Toy.

Definition put (w : list (bytes * bytes)) (k v : bytes) : outcome (list (bytes * bytes)) :=
  if forallb (λ x, bytes_ltb x.1 k) w then Ok (w ++ [(k, v)]) else Err "keys must be added in strict ascending order".

Definition items (d : gmap bytes bytes) : list (bytes * bytes) :=
  merge_sort (ordered_by (λ x y : bytes * bytes, bytes_leb x.1 y.1)) (map_to_list d).

Lemma items_sorted d : StronglySorted (key_lt fst) (items d).
Proof.
  apply sorted_strict.
  - apply (toy_sort.(sort_unstable_by_sorted) _ (λ x y : bytes * bytes, bytes_leb x.1 y.1)).
    apply (total_preorder_key (A := bytes * bytes) fst).
  - change (map fst (items d)) with ((items d).*1). unfold items.
    rewrite merge_sort_Permutation. apply NoDup_fst_map_to_list.
Qed.

Lemma elem_of_items d k v : (k, v) ∈ items d ↔ d !! k = Some v.
Proof. unfold items. rewrite merge_sort_Permutation. apply elem_of_map_to_list. Qed.

Lemma elem_of_filter_items f d k v : (k, v) ∈ List.filter f (items d) ↔ d !! k = Some v ∧ f (k, v) = true.
Proof.
  by rewrite list_elem_of_In, List.filter_In, <- list_elem_of_In, elem_of_items.
Qed.

#[export] Program Instance toy_db : RocksDb := {
  DB := gmap bytes bytes;
  contents d := d;
  get_pinned d k := Ok (d !! k);
  SstFileWriter := list (bytes * bytes);
  sst_entries w := w;
  sst_open := [];
  sst_put := put;
  sst_finish w := if bool_decide (w = []) then Err "cannot create sst file with no entries" else Ok tt;
  ingest d w := Ok (list_to_map w ∪ d);
  iterate d lo hi := List.filter (λ x, bytes_leb lo x.1 && bytes_ltb x.1 hi) (items d);
  prefix_iterator d p := List.filter (λ x, bool_decide (p `prefix_of` x.1)) (items d);
}.
Next Obligation. done. Qed.
Next Obligation. done. Qed.
Next Obligation.
  intros w k v Hw. eexists. split; [|done]. unfold put.
  by rewrite (proj2 (List.forallb_forall _ w)) by (intros x Hx; apply Hw; by apply list_elem_of_In).
Qed.
Next Obligation.
  intros w k v x Hx Hlt. unfold put. destruct (forallb _ w) eqn:Hf; [|by eexists].
  rewrite List.forallb_forall in Hf. rewrite Hf in Hlt; [done|]. by apply list_elem_of_In.
Qed.
Next Obligation. intros w Hw. simpl in *. by case_bool_decide. Qed.
Next Obligation. intros w Hw. simpl in *. case_bool_decide; [by eexists|done]. Qed.
Next Obligation. intros d w _. by eexists. Qed.
Next Obligation. intros d lo hi. apply sorted_filter, items_sorted. Qed.
Next Obligation.
  intros d lo hi k v. cbv beta. by rewrite elem_of_filter_items, andb_true_iff.
Qed.
Next Obligation. intros d p. apply sorted_filter, items_sorted. Qed.
Next Obligation.
  intros d p k v. cbv beta. by rewrite elem_of_filter_items, bool_decide_eq_true.
Qed.
End ToyDb.

(** * Writing files *)

Section files.
Context `{RocksDb}.

Abbreviation sorted := (StronglySorted (key_lt (fst : bytes * bytes → bytes))).

(** What a database holds after a file of [pairs] was ingested. *)
Definition written (d d' : DB) (pairs : list (bytes * bytes)) : Prop :=
  (∀ k v, (k, v) ∈ pairs → contents d' !! k = Some v) ∧
  (∀ k, k ∉ map fst pairs → contents d' !! k = contents d !! k).

(** Puts succeed as long as the keys ascend, and panic otherwise. *)
Lemma put_all msg l w :
  sorted (sst_entries w) →
  (sorted (sst_entries w ++ l) ∧
   ∃ w', for_each (put_or_panic msg) l w = Ok w' ∧ sst_entries w' = sst_entries w ++ l) ∨
  (¬ sorted (sst_entries w ++ l) ∧ ∃ m, for_each (put_or_panic msg) l w = Panic m).
Proof.
  revert w. induction l as [|[k v] l IH]; intros w Hw; cbn [for_each].
  - left. rewrite app_nil_r. eauto.
  - destruct (decide (Forall (λ x, bytes_ltb x.1 k = true) (sst_entries w))) as [Hall|Hnot].
    + rewrite Forall_forall in Hall. destruct (sst_put_spec w k v Hall) as (w' & Hput & Hw').
      assert (put_or_panic msg w (k, v) = Ok w') as -> by (unfold put_or_panic; simpl; by rewrite Hput).
      cbn [mbind outcome_bind].
      replace (sst_entries w ++ (k, v) :: l) with (sst_entries w' ++ l)
        by (rewrite Hw'; by rewrite <- app_assoc).
      apply IH. rewrite Hw'. apply StronglySorted_app. split_and!; [|done|repeat constructor].
      intros x y Hx Hy%list_elem_of_singleton. subst y. by apply Hall.
    + right. apply not_Forall_Exists in Hnot; [|apply _].
      apply Exists_exists in Hnot as (x & Hx & Hlt). apply not_true_iff_false in Hlt.
      split.
      * intros Hs. apply StronglySorted_app in Hs as (Hs & _). specialize (Hs x (k, v) Hx ltac:(by left)).
        unfold key_lt in Hs. simpl in Hs. by rewrite Hlt in Hs.
      * destruct (sst_put_refused w k v x Hx Hlt) as [e He].
        assert (put_or_panic msg w (k, v) = Panic msg) as -> by (unfold put_or_panic; simpl; by rewrite He).
        by eexists.
Qed.

Lemma finish_and_ingest_spec d w :
  sorted (sst_entries w) → sst_entries w ≠ [] →
  ∃ d', finish_and_ingest d w = Ok d' ∧ written d d' (sst_entries w).
Proof.
  intros Hs Hne. unfold finish_and_ingest. rewrite sst_finish_spec by done. cbn [unwrap mbind outcome_bind].
  destruct (ingest_spec d w (sst_finish_spec w Hne)) as (d' & -> & Hd'). exists d'. split; [done|].
  apply sorted_NoDup in Hs. unfold written. rewrite Hd'. split.
  - intros k v Hkv. apply lookup_union_Some_l, elem_of_list_to_map_1; done.
  - intros k Hk. apply lookup_union_r, not_elem_of_list_to_map_1; done.
Qed.

Lemma finish_empty d w : sst_entries w = [] → ∃ m, finish_and_ingest d w = Panic m.
Proof.
  intros He. unfold finish_and_ingest. destruct (sst_finish_empty w He) as [e ->]. by eexists.
Qed.

Lemma write_pairs_spec d l :
  (l ≠ [] ∧ sorted l ∧ ∃ d', write_pairs d l = Ok d' ∧ written d d' l) ∨
  ((l = [] ∨ ¬ sorted l) ∧ ∃ m, write_pairs d l = Panic m).
Proof.
  unfold write_pairs.
  destruct (put_all "to add tx hashes into sst file" l sst_open) as [(Hs & w & Hw & He)|(Hs & m & Hm)];
    rewrite ?sst_open_spec in *.
  - constructor.
  - rewrite Hw. cbn [mbind outcome_bind app] in *. subst l. destruct (decide (sst_entries w = [])) as [Hn|Hn].
    + right. split; [by left|]. by apply finish_empty.
    + left. split_and!; [done..|]. by apply finish_and_ingest_spec.
  - right. rewrite Hm. eauto.
Qed.

(** The transactions that are not skipped. *)
Fixpoint distinct_runs (last_key : hash) (l : list SerializedTx) : list SerializedTx :=
  match l with
  | [] => []
  | tx :: l =>
      if bool_decide (st_hash tx = last_key) then distinct_runs last_key l
      else tx :: distinct_runs (st_hash tx) l
  end.

Lemma put_txs field (value : SerializedTx → bytes) msg l : ∀ w last_key,
  Forall (λ tx, field tx = Some (value tx)) l →
  (s ← for_each (put_tx field msg) l (w, last_key); Ok s.1)
  = for_each (put_or_panic msg) (map (λ tx, (st_hash tx, value tx)) (distinct_runs last_key l)) w.
Proof.
  induction l as [|tx l IH]; intros w last_key Hl; [done|].
  apply Forall_cons in Hl as [Htx Hl]. cbn [for_each distinct_runs].
  assert (put_tx field msg (w, last_key) tx =
    if bool_decide (st_hash tx = last_key) then Ok (w, last_key)
    else (writer ← put_or_panic msg w (st_hash tx, value tx); Ok (writer, st_hash tx))) as ->
    by (unfold put_tx; by rewrite Htx).
  case_bool_decide as Hk; cbn [mbind outcome_bind map for_each]; [by apply IH|].
  destruct (put_or_panic msg w (st_hash tx, value tx)); cbn [mbind outcome_bind]; [|done..].
  by apply IH.
Qed.

Lemma distinct_runs_sorted last_key l :
  StronglySorted (key_le st_hash) l → Forall (λ tx, bytes_leb last_key (st_hash tx) = true) l →
  StronglySorted (key_lt st_hash) (distinct_runs last_key l) ∧
  (∀ tx, tx ∈ distinct_runs last_key l → bytes_ltb last_key (st_hash tx) = true ∧ tx ∈ l) ∧
  (∀ tx, tx ∈ l → st_hash tx ≠ last_key → ∃ tx', tx' ∈ distinct_runs last_key l ∧ st_hash tx' = st_hash tx).
Proof.
  intros Hs. revert last_key. induction Hs as [|tx l Hs IH Htx]; intros last_key Hle; cbn [distinct_runs].
  - split_and!; [constructor|by intros tx ?%elem_of_nil..].
  - apply Forall_cons in Hle as [Hk Hle]. case_bool_decide as He.
    + destruct (IH last_key Hle) as (H1 & H2 & H3). split_and!; [done| |].
      * intros x Hx. destruct (H2 x Hx). split; [done|by right].
      * intros x [->|Hx]%elem_of_cons Hne; [by rewrite He in Hne|by apply H3].
    + destruct (IH (st_hash tx) Htx) as (H1 & H2 & H3).
      assert (bytes_ltb last_key (st_hash tx) = true) as Hlt by by apply bytes_leb_ltb.
      split_and!.
      * constructor; [done|]. apply Forall_forall. intros x Hx. by apply H2.
      * intros x [->|Hx]%elem_of_cons; [split; [done|by left]|].
        destruct (H2 x Hx) as [Hx1 Hx2]. split; [|by right].
        eapply bytes_ltb_leb_trans; [exact Hlt|by apply bytes_ltb_leb].
      * intros x [->|Hx]%elem_of_cons Hne; [exists tx; split; [by left|done]|].
        destruct (decide (st_hash x = st_hash tx)) as [Heq|Hneq]; [exists tx; split; [by left|done]|].
        destruct (H3 x Hx Hneq) as (x' & Hx' & He'). exists x'. split; [by right|done].
Qed.
(** The smallest key. *)
Lemma empty_hash_min h : hash_ok h → bytes_leb EMPTY_HASH h = true.
Proof.
  unfold hash_ok, EMPTY_HASH. intros <-. apply bytes_leb_cmp.
  induction h as [|x h IH]; [done|]. cbn [length replicate bytes_cmp].
  destruct (Z.compare_spec (u8 Byte.x00) (u8 x)) as [| |Hgt]; [done..|].
  pose proof (byte.unsigned_range x). change (u8 Byte.x00) with 0 in Hgt. lia.
Qed.

Lemma write_tx_field_spec d field (value : SerializedTx → bytes) msg l :
  Forall (λ tx, field tx = Some (value tx)) l → StronglySorted (key_le st_hash) l →
  Forall (λ tx, hash_ok (st_hash tx) ∧ st_hash tx ≠ EMPTY_HASH) l → l ≠ [] →
  ∃ d', ('(writer, _) ← for_each (put_tx field msg) l (sst_open, EMPTY_HASH); finish_and_ingest d writer) = Ok d' ∧
    (∀ tx, tx ∈ l → ∃ tx', tx' ∈ l ∧ st_hash tx' = st_hash tx ∧ contents d' !! st_hash tx = Some (value tx')) ∧
    (∀ k, k ∉ map st_hash l → contents d' !! k = contents d !! k).
Proof.
  intros Hf Hs Hh Hne.
  destruct (distinct_runs_sorted EMPTY_HASH l Hs) as (Hsorted & Hin & Hcover).
  { eapply Forall_impl; [exact Hh|]. intros tx [Hok _]. by apply empty_hash_min. }
  set (pairs := map (λ tx, (st_hash tx, value tx)) (distinct_runs EMPTY_HASH l)).
  assert (sorted pairs) as Hps.
  { unfold pairs. clear -Hsorted. induction Hsorted as [|x r Hr IH Hx]; cbn [map]; constructor; [done|].
    apply Forall_map. exact Hx. }
  rewrite Forall_forall in Hh.
  assert (pairs ≠ []) as Hpne.
  { destruct l as [|tx l]; [done|]. destruct (Hh tx ltac:(by left)) as [_ Hz].
    destruct (Hcover tx ltac:(by left) Hz) as (x & Hx & _). unfold pairs.
    by destruct (distinct_runs EMPTY_HASH (tx :: l)); [apply elem_of_nil in Hx|]. }
  destruct (put_all msg pairs sst_open) as [(_ & w & Hw & He)|(Hns & _)];
    rewrite ?sst_open_spec in *; [constructor| |done].
  pose proof (put_txs field value msg l sst_open EMPTY_HASH Hf) as Hput. fold pairs in Hput. rewrite Hw in Hput.
  apply bind_Ok in Hput as ([w' k] & Hloop & [= ->]). rewrite Hloop. cbn [mbind outcome_bind].
  cbn [app] in He. destruct (finish_and_ingest_spec d w) as (d' & -> & Hd1 & Hd2); [by rewrite He..|].
  rewrite He in Hd1, Hd2. exists d'. split_and!; [done| |].
  - intros tx Htx. destruct (Hcover tx Htx (proj2 (Hh tx Htx))) as (tx' & Htx' & Heq).
    exists tx'. split_and!; [by apply Hin|done|]. apply Hd1. rewrite <- Heq. unfold pairs.
    by apply (list_elem_of_fmap_2 (λ tx, (st_hash tx, value tx))).
  - intros k0 Hk0. apply Hd2. unfold pairs. rewrite map_map. cbn [fst].
    intros (tx & -> & Htx)%list_elem_of_fmap_1. apply Hk0, list_elem_of_fmap_2. by apply Hin.
Qed.
End files.

(** * Laying the files out in the arena *)

Definition entry_bytes (t : SerializedTx) : bytes :=
  st_hash t ++ to_le 8 (st_txouts_sum t) ++ to_le 8 (st_fee t) ++ to_le 4 (st_size_wus t).

Definition block_bytes (txs : list SerializedTx) : bytes :=
  encode_varint (len txs) ++ concat (map entry_bytes txs).

Lemma len_entry_bytes t : hash_ok (st_hash t) → len (entry_bytes t) = 52.
Proof.
  intros Hh. unfold entry_bytes. rewrite !len_app, !len_to_le. unfold len. rewrite Hh. done.
Qed.

Lemma len_entries l : Forall (λ t, hash_ok (st_hash t)) l → len (concat (map entry_bytes l)) = 52 * len l.
Proof.
  induction 1 as [|t l Ht Hl IH]; [done|]. cbn [map concat].
  rewrite len_app, len_entry_bytes, IH, len_cons by done. lia.
Qed.

Lemma serialize_entry_spec pre n t :
  hash_ok (st_hash t) → len pre + n <= isize_max → 52 <= n →
  serialize_entry (pre ++ zeros n, len pre) t
  = Ok ((pre ++ entry_bytes t) ++ zeros (n - 52), len (pre ++ entry_bytes t)).
Proof.
  intros Hh Hb Hn. pose proof (len_nonneg pre). assert (len (st_hash t) = 32) as Hl by (unfold len; by rewrite Hh).
  unfold serialize_entry. cbn beta iota. rewrite len_app, len_entry_bytes by done.
  rewrite !(wrap64_small (len pre + _)) by mlia.
  rewrite slice_write_zeros by (done || lia). cbn [mbind outcome_bind].
  do 3 (rewrite slice_write_zeros by (rewrite ?len_app, ?len_to_le, ?Hl; lia); cbn [mbind outcome_bind]).
  unfold entry_bytes. rewrite !len_to_le, Hl, <- !app_assoc. do 2 f_equal.
  replace (n - 32 - Z.of_nat 8 - Z.of_nat 8 - Z.of_nat 4) with (n - 52) by lia. done.
Qed.

Lemma serialize_entries l : ∀ pre n,
  Forall (λ t, hash_ok (st_hash t)) l → len pre + n <= isize_max → 52 * len l <= n →
  ∃ offset, for_each serialize_entry l (pre ++ zeros n, len pre)
    = Ok ((pre ++ concat (map entry_bytes l)) ++ zeros (n - 52 * len l), offset).
Proof.
  induction l as [|t l IH]; intros pre n Hl Hb Hn; cbn [for_each map concat].
  - exists (len pre). change (len (@nil SerializedTx)) with 0. by rewrite Z.mul_0_r, Z.sub_0_r, app_nil_r.
  - apply Forall_cons in Hl as [Ht Hl]. rewrite len_cons in *. pose proof (len_nonneg l).
    rewrite serialize_entry_spec by (done || lia). cbn [mbind outcome_bind].
    destruct (IH (pre ++ entry_bytes t) (n - 52)) as [offset ->]; [done| |lia|].
    + rewrite len_app, len_entry_bytes by done. lia.
    + exists offset. rewrite <- !app_assoc. by replace (n - 52 - 52 * len l) with (n - 52 * (1 + len l)) by lia.
Qed.

Lemma serialize_block_spec `{Layout} txs a :
  arena_wf a → Forall (λ t, hash_ok (st_hash t)) txs → len (block_bytes txs) <= free a →
  ∃ a', serialize_block txs a = Ok (block_bytes txs, a') ∧ arena_step a a' (len (block_bytes txs)).
Proof.
  intros Hwf Hh Hf. pose proof (len_nonneg txs). pose proof (length_varint_range (len txs)).
  assert (len (block_bytes txs) = length_varint (len txs) + 52 * len txs) as Hlen
    by (unfold block_bytes; by rewrite len_app, len_encode_varint, len_entries).
  assert (free a <= 2 ^ 62) by (unfold free, arena_wf in *; lia).
  unfold serialize_block. replace (_ +! 52 *! len txs) with (len (block_bytes txs)) by (unwrap; lia).
  destruct (try_alloc_array_fill_copy_Ok a RU8 (len (block_bytes txs)) Byte.x00) as (a' & Ha & Hs);
    [done|lia|by rewrite array_room_u8|]. rewrite array_room_u8 in Hs.
  exists a'. split; [|done]. erewrite bind_amonad by exact Ha. fold (zeros (len (block_bytes txs))).
  rewrite serialize_varint_into_slice_spec.
  change (slice_write (zeros ?n) 0 ?x) with (slice_write ([] ++ zeros n) 0 x).
  rewrite slice_write_zeros by (done || (rewrite len_encode_varint; lia)). cbn [mbind outcome_bind app].
  erewrite bind_lift by reflexivity. rewrite len_encode_varint.
  destruct (serialize_entries txs (encode_varint (len txs)) (len (block_bytes txs) - length_varint (len txs)))
    as [offset Hloop]; [done|rewrite len_encode_varint; unfold isize_max; lia|lia|].
  rewrite len_encode_varint in Hloop. erewrite bind_lift by exact Hloop. cbn.
  replace (_ - _ - _) with 0 by lia. unfold mret, amonad_ret, block_bytes. by rewrite app_nil_r.
Qed.

(** ** Loops that append to an array *)

Lemma for_each_append `{Layout} {A T} (f : ArenaArray T → A → outcome (ArenaArray T)) (g : A → list T) l :
  (∀ arr x, x ∈ l → room_for arr (len (g x)) → f arr x = Ok (appended arr (g x))) →
  ∀ arr, room_for arr (len (concat (map g l))) → for_each f l arr = Ok (appended arr (concat (map g l))).
Proof.
  induction l as [|x l IH]; intros Hf arr Hr; cbn [for_each map concat] in *.
  - by rewrite appended_nil.
  - rewrite len_app in Hr. pose proof (len_nonneg (concat (map g l))).
    rewrite Hf; [|by left|destruct Hr; split; [lia|done]]. cbn [mbind outcome_bind].
    rewrite IH; [by rewrite appended_appended| |by apply room_for_appended].
    intros arr' y Hy. apply Hf. by right.
Qed.

Lemma push_list `{Layout} {T} (arr : ArenaArray T) l :
  room_for arr (len l) → for_each aa_push l arr = Ok (appended arr l).
Proof. intros [Hl Hr]. by apply aa_push_all. Qed.

Lemma push_mapped `{Layout} {A T} (arr : ArenaArray T) (f : A → T) l :
  room_for arr (len l) → for_each (λ r x, aa_push r (f x)) l arr = Ok (appended arr (map f l)).
Proof.
  intros Hr. replace (map f l) with (concat (map (λ x, [f x]) l)).
  - apply (for_each_append _ (λ x, [f x])).
    + intros a x _ [Hl Hc]. rewrite len_cons in Hl. change (len (@nil T)) with 0 in Hl.
      by rewrite aa_push_Ok by (done || lia).
    + destruct Hr. split; [|done]. replace (len (concat (map (λ x, [f x]) l))) with (len l); [lia|].
      clear. induction l as [|x l IH]; [done|]. cbn [map concat app]. by rewrite !len_cons, IH.
  - clear. induction l as [|x l IH]; [done|]. simpl. by rewrite IH.
Qed.

Lemma foldl_count {A} (f : A → Z) l : ∀ k,
  0 <= k → (∀ x, x ∈ l → 0 <= f x) → k + sumZ (map f l) <= isize_max →
  foldl (λ count x, count +! f x) k l = k + sumZ (map f l).
Proof.
  induction l as [|x l IH]; intros k Hk Hf Hb; cbn [foldl map sumZ foldr] in *; [lia|].
  fold (sumZ (map f l)) in *. pose proof (Hf x ltac:(by left)).
  assert (0 <= sumZ (map f l)).
  { clear -Hf. induction l as [|y l IH]; [done|]. cbn [map sumZ foldr]. fold (sumZ (map f l)).
    pose proof (Hf y ltac:(right; by left)). apply Z.add_nonneg_nonneg; [done|]. apply IH.
    intros z [->|Hz]%elem_of_cons; apply Hf; [by left|by do 2 right]. }
  rewrite (wrap64_small (k + f x)) by mlia. rewrite IH; [lia|lia| |lia].
  intros y Hy. apply Hf. by right.
Qed.

Lemma len_concat {A} (l : list (list A)) : len (concat l) = sumZ (map len l).
Proof. induction l as [|x l IH]; [done|]. cbn [concat map sumZ foldr]. by rewrite len_app, IH. Qed.

(** An array that is allocated for a list, filled with it and sorted. *)
Lemma collect_sorted `{Layout, UnstableSort} {T R} (wrap : list T → R) (t : rust_type) (leb : T → T → bool)
    (fill : ArenaArray T → outcome (ArenaArray T)) l n a :
  arena_wf a → len l <= n → array_room t n <= free a →
  (∀ arr, room_for arr (len l) → fill arr = Ok (appended arr l)) →
  ∃ a', (result ← try_alloc_arenaarray t n; result ← lift (fill result);
         mret (wrap (into_arena_array (aa_sort leb result))) : amonad R) a
        = Ok (wrap (sort_unstable_by leb l), a') ∧ arena_step a a' (array_room t n).
Proof.
  intros Hwf Hn Hf Hfill. pose proof (len_nonneg l).
  destruct (try_alloc_arenaarray_Ok (T := T) a t n) as (a' & Ha & Hs); [done|lia|done|].
  exists a'. split; [|done]. erewrite bind_amonad by exact Ha. erewrite bind_lift; [|apply Hfill].
  - unfold mret, amonad_ret, into_arena_array, aa_sort. simpl. done.
  - unfold room_for, aa_len. simpl. change (len (@nil T)) with 0. lia.
Qed.

Section layout.
Context `{RocksDb, Layout, UnstableSort}.

Definition block_pair (x : list SerializedTx * hash) : hash * bytes := (x.2, block_bytes x.1).

Definition block_cost (x : list SerializedTx * hash) : Z := len (block_bytes x.1).

Lemma serialized_txhashes_spec blocks txs a :
  arena_wf a → length blocks = length txs → Forall (λ t, hash_ok (st_hash t)) (concat txs) →
  array_room RBlockTxs (len blocks) + total_cost block_cost (zip txs blocks) <= free a →
  ∃ a', serialized_txhashes blocks txs a
    = Ok (sort_unstable_by (λ a b, bytes_leb a.1 b.1) (map block_pair (zip txs blocks)), a') ∧
    arena_step a a' (array_room RBlockTxs (len blocks) + total_cost block_cost (zip txs blocks)).
Proof.
  intros Hwf Hlen Hh Hf. pose proof (len_nonneg blocks).
  assert (∀ x, 0 <= block_cost x) as Hcost by (intros x; apply len_nonneg).
  pose proof (total_cost_nonneg block_cost Hcost (zip txs blocks)).
  destruct (try_alloc_arenaarray_Ok (T := hash * bytes) a RBlockTxs (len blocks)) as (a1 & Ha1 & Hs1);
    [done..|lia|].
  pose proof (arena_step_free _ _ _ Hs1). unfold serialized_txhashes. erewrite bind_amonad by exact Ha1.
  assert (∀ l, omap (λ x, Some (block_pair x)) l = map block_pair l) as Homap
    by (intros l; induction l as [|x l IH]; [done|]; cbn; by f_equal).
  destruct (for_alloc_collect push_block (λ x, Some (block_pair x)) block_cost (zip txs blocks))
    with (arr := aa_from_raw_parts (T := hash * bytes) RBlockTxs (size_of RBlockTxs * len blocks) (len blocks))
         (a := a1) as (a2 & Ha2 & Hs2).
  - done.
  - intros arr a0 [ts h] Hx Hwf0 Hf0 Hr. cbn [omap list_omap] in *.
    destruct (serialize_block_spec ts a0) as (a3 & Ha3 & Hs3); [done| |done|].
    { rewrite Forall_forall in *. intros t Ht. apply Hh. apply list_elem_of_In, List.in_concat.
      exists ts. split; apply list_elem_of_In; [by apply elem_of_zip_l in Hx|done]. }
    exists a3. split; [|done]. unfold push_block. erewrite bind_amonad by exact Ha3. by apply lift_push_Ok.
  - by destruct Hs1.
  - lia.
  - rewrite Homap, len_map. unfold room_for, aa_len. simpl. change (len (@nil (hash * bytes))) with 0.
    unfold len in *. rewrite length_zip. lia.
  - exists a2. erewrite bind_amonad by exact Ha2. rewrite Homap. split; [done|].
    by eapply arena_step_trans.
Qed.

Lemma collapsed_spec txs a :
  arena_wf a → len (concat txs) <= isize_max → array_room RRefSerializedTx (len (concat txs)) <= free a →
  ∃ a', collapsed txs a
    = Ok (sort_unstable_by (λ a b, bytes_leb (st_hash a) (st_hash b)) (concat txs), a') ∧
    arena_step a a' (array_room RRefSerializedTx (len (concat txs))).
Proof.
  intros Hwf Hl Hf. unfold collapsed.
  rewrite (foldl_count (A := list SerializedTx) len) by (try done; intros; rewrite <- ?len_concat; (apply len_nonneg || lia)).
  rewrite Z.add_0_l, <- len_concat. apply (collect_sorted id); [done..|].
  intros arr Hr. rewrite <- (map_id txs) at 2. apply for_each_append; [|by rewrite map_id].
  intros arr' x _ Hr'. by apply push_list.
Qed.

(** ** Parts of the transactions, with the block they are in *)

Definition parts {T} (part : SerializedTx → option (list T)) (t : SerializedTx) : list T := default [] (part t).

Lemma foldl_concat {A B} (f : B → A → B) ls : ∀ k, foldl (λ k l, foldl f k l) k ls = foldl f k (concat ls).
Proof. induction ls as [|l ls IH]; intros k; [done|]. cbn [foldl concat]. by rewrite IH, foldl_app. Qed.

Lemma count_parts_spec {T} (part : SerializedTx → option (list T)) txs :
  len (concat (map (parts part) (concat txs))) <= isize_max →
  count_parts part txs = len (concat (map (parts part) (concat txs))).
Proof.
  unfold count_parts. rewrite foldl_concat. generalize (concat txs). clear txs. intros l Hb.
  assert (∀ l k, 0 <= k → k + len (concat (map (parts part) l)) <= isize_max →
    foldl (λ count transaction,
      match part transaction with Some i => count +! len i | None => count end) k l
    = k + len (concat (map (parts part) l))) as Hl; [|by apply (Hl l 0)].
  clear l Hb. induction l as [|t l IH]; intros k Hk Hb; cbn [foldl map concat] in *.
  - change (len (@nil T)) with 0. lia.
  - rewrite len_app in *. pose proof (len_nonneg (parts part t)) as Hp.
    pose proof (len_nonneg (concat (map (parts part) l))) as Hc.
    assert (match part t with Some i => k +! len i | None => k end = k + len (parts part t)) as ->.
    { unfold parts in *. destruct (part t) as [i|]; cbn [from_option id] in *; unfold id in *; [by unwrap|].
      change (len (@nil T)) with 0. lia. }
    rewrite IH by lia. lia.
Qed.

(** The items of a block, and of a batch of blocks. *)
Definition in_block {A T} (g : hash → A → list T) (x : list A * hash) : list T := concat (map (g x.2) x.1).

Lemma for_blocks {T} (f : hash → ArenaArray T → SerializedTx → outcome (ArenaArray T))
    (g : hash → SerializedTx → list T) blocks txs arr :
  (∀ h arr t, h ∈ blocks → t ∈ concat txs → room_for arr (len (g h t)) → f h arr t = Ok (appended arr (g h t))) →
  room_for arr (len (concat (map (in_block g) (zip txs blocks)))) →
  for_each (λ result '(transactions, block_hash), for_each (f block_hash) transactions result) (zip txs blocks) arr
  = Ok (appended arr (concat (map (in_block g) (zip txs blocks)))).
Proof.
  intros Hf. apply for_each_append. intros arr' [ts h] Hx Hr.
  apply (for_each_append (f h) (g h)); [|done]. intros arr0 t Ht. apply Hf.
  - by apply elem_of_zip_r in Hx.
  - apply list_elem_of_In, List.in_concat. exists ts.
    split; apply list_elem_of_In; [by apply elem_of_zip_l in Hx|done].
Qed.

(** The number of items against the number that is counted. *)
Lemma len_in_blocks {A T U} (g : hash → A → list T) (p : A → list U) blocks txs :
  length blocks = length txs → (∀ h t, len (g h t) <= len (p t)) →
  len (concat (map (in_block g) (zip txs blocks))) <= len (concat (map p (concat txs))).
Proof.
  intros Hlen Hg. revert blocks Hlen. induction txs as [|ts txs IH]; intros [|b blocks] Hlen; try done.
  cbn [zip zip_with map concat]. rewrite map_app, concat_app, !len_app. unfold in_block at 1. cbn [fst snd].
  assert (len (concat (map (g b) ts)) <= len (concat (map p ts))).
  { clear -Hg. induction ts as [|t ts IH]; [done|]. cbn [map concat]. rewrite !len_app.
    pose proof (Hg b t). lia. }
  pose proof (IH blocks ltac:(by injection Hlen)). unfold zip in *. lia.
Qed.

Lemma elem_of_in_blocks {A T} (g : hash → A → list T) blocks txs y :
  y ∈ concat (map (in_block g) (zip txs blocks)) ↔
  ∃ ts h t, (ts, h) ∈ zip txs blocks ∧ t ∈ ts ∧ y ∈ g h t.
Proof.
  rewrite list_elem_of_In, List.in_concat. split.
  - intros (l & Hl & Hy). apply List.in_map_iff in Hl as ([ts h] & <- & Hx).
    apply List.in_concat in Hy as (k & Hk & Hy). apply List.in_map_iff in Hk as (t & <- & Ht).
    exists ts, h, t. by rewrite !list_elem_of_In.
  - intros (ts & h & t & Hx & Ht & Hy). rewrite !list_elem_of_In in *. exists (in_block g (ts, h)).
    split; [by apply (List.in_map (in_block g))|]. apply List.in_concat. exists (g h t).
    split; [by apply (List.in_map (g h))|done].
Qed.

(** ** The spends *)

Definition spend_pairs (block_hash : hash) (t : SerializedTx) : list (bytes * bytes) :=
  map (λ txin, (txin, st_hash t ++ block_hash)) (parts st_spent_txos t).

Lemma push_spends_spec block_hash arr t :
  hash_ok block_hash → hash_ok (st_hash t) → room_for arr (len (spend_pairs block_hash t)) →
  push_spends block_hash arr t = Ok (appended arr (spend_pairs block_hash t)).
Proof.
  intros Hb Hh Hr. unfold push_spends, spend_pairs, parts in *.
  destruct (st_spent_txos t) as [l|]; cbn [from_option id map] in *; [|by rewrite appended_nil].
  assert (len (st_hash t) = 32) as Hl by (unfold len; by rewrite Hh).
  assert (len block_hash = 32) as Hlb by (unfold len; by rewrite Hb).
  change (zeros 64) with ([] ++ zeros 64). rewrite slice_write_zeros by (done || lia). cbn [mbind outcome_bind app].
  rewrite slice_write_zeros by lia. cbn [mbind outcome_bind]. rewrite Hl, Hlb. cbn [app].
  rewrite app_nil_r. rewrite len_map in Hr. by apply push_mapped.
Qed.

(** ** The amends: one entry per key *)

Lemma as_i64_wrap z : as_i64 (wrap64 z) = as_i64 z.
Proof. unfold as_i64. by rewrite wrap64_wrap64. Qed.

Lemma wrap64_as_i64 z : wrap64 (as_i64 z) = wrap64 z.
Proof.
  unfold as_i64. pose proof (wrap64_range z) as Hr. unfold in_u64 in Hr.
  destruct (wrap64 z <? 2 ^ 63); [apply wrap64_wrap64|].
  unfold wrap64 at 1. replace (wrap64 z - 2 ^ 64) with (wrap64 z + -1 * 2 ^ 64) by lia.
  rewrite Z_mod_plus_full. apply wrap64_wrap64.
Qed.

Lemma add_i64_l a b : add_i64 (as_i64 a) b = add_i64 a b.
Proof.
  unfold add_i64. rewrite <- as_i64_wrap, <- wrap64_add_l, wrap64_as_i64, wrap64_add_l. apply as_i64_wrap.
Qed.

Lemma as_i64_id z : in_i64 z → as_i64 z = z.
Proof.
  intros Hz. unfold in_i64, as_i64, wrap64 in *. destruct (Z.lt_ge_cases z 0).
  - replace (z mod 2 ^ 64) with (z + 2 ^ 64); [destruct (Z.ltb_spec (z + 2 ^ 64) (2 ^ 63)); lia|].
    rewrite <- (Z_mod_plus_full z 1), Z.mod_small by lia. lia.
  - rewrite Z.mod_small by lia. by rewrite (proj2 (Z.ltb_lt _ _)) by lia.
Qed.

Lemma as_i64_range z : in_i64 (as_i64 z).
Proof.
  unfold as_i64, in_i64. pose proof (wrap64_range z) as Hr. unfold in_u64 in Hr.
  destruct (Z.ltb_spec (wrap64 z) (2 ^ 63)); lia.
Qed.

(** [acc] holds the entries so far, the latest first. *)
Definition merge_step (acc : list (bytes * Z)) (x : bytes * Z) : list (bytes * Z) :=
  match acc with
  | (k, v) :: acc' => if bool_decide (k = x.1) then (k, add_i64 v x.2) :: acc' else x :: acc
  | [] => [x]
  end.

Definition merged (l : list (bytes * Z)) : list (bytes * Z) := rev (foldl merge_step [] l).

Definition amend_pair (block_hash : hash) (x : bytes * Z) : bytes * bytes :=
  (x.1, block_hash ++ to_le 8 (wrap64 x.2)).

Definition acc_ok (acc : list (bytes * Z)) : Prop := Forall (λ x, in_i64 x.2) acc.

Lemma merge_step_ok acc x : acc_ok acc → in_i64 x.2 → acc_ok (merge_step acc x).
Proof.
  intros Ha Hx. unfold merge_step. destruct acc as [|[k v] acc']; [by constructor|].
  case_bool_decide; [|by constructor]. apply Forall_cons in Ha as [_ Ha].
  constructor; [apply as_i64_range|done].
Qed.

Lemma aa_pop_appended {T} (arr : ArenaArray T) l x :
  aa_pop (appended arr (l ++ [x])) = Ok (x, appended arr l).
Proof.
  unfold aa_pop, appended. simpl. rewrite app_assoc, last_snoc. do 3 f_equal.
  rewrite length_app. simpl. rewrite take_app_length'; [done|lia].
Qed.

Lemma push_appended {T} (arr : ArenaArray T) l x :
  room_for arr (len l + 1) → aa_push (appended arr l) x = Ok (appended arr (l ++ [x])).
Proof.
  intros [Hr1 Hr2]. rewrite aa_push_Ok; [|unfold aa_len in *; simpl; rewrite len_app; lia|done].
  unfold appended. simpl. by rewrite <- app_assoc.
Qed.

Lemma write_delta block_hash d :
  hash_ok block_hash → slice_write (block_hash ++ zeros 8) 32 (to_le 8 d) = Ok (block_hash ++ to_le 8 d).
Proof.
  intros Hb. assert (len block_hash = 32) as Hl by (unfold len; by rewrite Hb).
  rewrite slice_write_zeros by (done || (rewrite len_to_le; lia)). rewrite len_to_le.
  change (zeros (8 - Z.of_nat 8)) with (@nil byte). by rewrite app_nil_r.
Qed.

Lemma read_delta block_hash d :
  hash_ok block_hash → slice_idx (block_hash ++ to_le 8 d) 32 40 = Ok (to_le 8 d).
Proof.
  intros Hb. unfold slice_idx, slice_get. rewrite len_app, len_to_le. unfold len. rewrite Hb.
  cbn. by rewrite drop_app_length' by done.
Qed.

(** One turn of the loop over the amends of a transaction. *)
Lemma push_amend_entry_spec block_hash arr acc x :
  hash_ok block_hash → acc_ok acc → in_i64 x.2 → room_for arr (len (merge_step acc x)) →
  push_amend_entry block_hash (appended arr (map (amend_pair block_hash) (rev acc)), fst <$> head acc) x
  = Ok (appended arr (map (amend_pair block_hash) (rev (merge_step acc x))),
        fst <$> head (merge_step acc x)).
Proof.
  intros Hb Ha Hx Hr. assert (len block_hash = 32) as Hl by (unfold len; by rewrite Hb).
  unfold push_amend_entry. change (zeros 40) with ([] ++ zeros 40).
  rewrite slice_write_zeros by (done || lia). cbn [mbind outcome_bind app]. rewrite Hl.
  change (40 - 32) with 8.
  assert (∀ acc, room_for arr (len acc + 1) →
    aa_push (appended arr (map (amend_pair block_hash) (rev acc))) (amend_pair block_hash x)
    = Ok (appended arr (map (amend_pair block_hash) (rev (x :: acc))))) as Hpush.
  { intros l Hroom. rewrite push_appended.
    - simpl. by rewrite map_app.
    - rewrite len_map. unfold len in *. by rewrite length_rev. }
  destruct acc as [|[k v] acc]; cbn [head fmap option_fmap option_map fst merge_step].
  - rewrite bool_decide_false by done. cbn [mbind outcome_bind].
    rewrite write_delta by done. cbn [mbind outcome_bind].
    change (x.1, block_hash ++ to_le 8 (wrap64 x.2)) with (amend_pair block_hash x).
    by rewrite (Hpush []).
  - case_bool_decide as Hk; case_bool_decide as Hk'; try congruence.
    + apply Forall_cons in Ha as [Hv Ha]. cbn [snd] in Hv.
      change (rev ((k, v) :: acc)) with (rev acc ++ [(k, v)]). rewrite map_app. cbn [map].
      rewrite aa_pop_appended. cbn [mbind outcome_bind]. unfold amend_pair at 1. cbn [fst snd].
      rewrite read_delta by done. cbn [mbind outcome_bind].
      rewrite from_le_to_le by apply (wrap64_range v). rewrite as_i64_wrap, as_i64_id by done.
      rewrite write_delta by done. cbn [mbind outcome_bind].
      rewrite push_appended by (destruct Hr as [Hr1 Hr2]; cbn [merge_step] in Hr1;
        rewrite bool_decide_true, len_cons in Hr1 by done; split;
        [rewrite len_map; unfold len in *; rewrite length_rev; lia|done]).
      cbn [mbind outcome_bind fst]. rewrite Hk'. do 3 f_equal.
      change (rev ((x.1, add_i64 v x.2) :: acc)) with (rev acc ++ [(x.1, add_i64 v x.2)]).
      by rewrite map_app.
    + cbn [mbind outcome_bind]. rewrite write_delta by done. cbn [mbind outcome_bind].
      change (x.1, block_hash ++ to_le 8 (wrap64 x.2)) with (amend_pair block_hash x).
      cbn [merge_step] in Hr. rewrite bool_decide_false, len_cons, Z.add_comm in Hr by done.
      by rewrite (Hpush ((k, v) :: acc)).
Qed.

Lemma len_merge_step acc x : len acc <= len (merge_step acc x) <= len acc + 1.
Proof.
  unfold merge_step. destruct acc as [|[k v] acc]; [rewrite len_cons; change (len (@nil (bytes * Z))) with 0; lia|].
  case_bool_decide; rewrite !len_cons; lia.
Qed.

Lemma len_merge l : ∀ acc, len acc <= len (foldl merge_step acc l) <= len acc + len l.
Proof.
  induction l as [|x l IH]; intros acc; cbn [foldl]; [change (len (@nil (bytes * Z))) with 0; lia|].
  rewrite len_cons. pose proof (IH (merge_step acc x)). pose proof (len_merge_step acc x). lia.
Qed.

Lemma len_merged l : len (merged l) <= len l.
Proof.
  unfold merged. pose proof (len_merge l []). change (len (@nil (bytes * Z))) with 0 in *.
  unfold len in *. rewrite length_rev. lia.
Qed.

Lemma push_amends_loop block_hash arr l : ∀ acc,
  hash_ok block_hash → acc_ok acc → Forall (λ x, in_i64 x.2) l →
  room_for arr (len (foldl merge_step acc l)) →
  for_each (push_amend_entry block_hash) l
    (appended arr (map (amend_pair block_hash) (rev acc)), fst <$> head acc)
  = Ok (appended arr (map (amend_pair block_hash) (rev (foldl merge_step acc l))),
        fst <$> head (foldl merge_step acc l)).
Proof.
  induction l as [|x l IH]; intros acc Hb Ha Hl Hr; [done|].
  apply Forall_cons in Hl as [Hx Hl]. cbn [for_each foldl] in *.
  rewrite push_amend_entry_spec; [|done..|].
  - cbn [mbind outcome_bind]. apply IH; try done. by apply merge_step_ok.
  - destruct Hr as [Hr1 Hr2]. split; [|done]. pose proof (len_merge l (merge_step acc x)). lia.
Qed.

Definition amend_pairs (block_hash : hash) (t : SerializedTx) : list (bytes * bytes) :=
  map (amend_pair block_hash) (merged (parts st_address_amends t)).

Lemma push_amends_of_spec block_hash arr t :
  hash_ok block_hash → Forall (λ x, in_i64 x.2) (parts st_address_amends t) →
  room_for arr (len (amend_pairs block_hash t)) →
  push_amends_of block_hash arr t = Ok (appended arr (amend_pairs block_hash t)).
Proof.
  intros Hb Ha Hr. unfold push_amends_of, amend_pairs, parts in *.
  destruct (st_address_amends t) as [l|]; cbn [from_option] in *; [|unfold merged; cbn [id foldl rev map]; by rewrite appended_nil].
  rewrite len_map in Hr. unfold merged, id in *.
  assert (for_each (push_amend_entry block_hash) l (arr, None)
    = Ok (appended arr (map (amend_pair block_hash) (rev (foldl merge_step [] l))),
          fst <$> head (foldl merge_step [] l))) as ->; [|done].
  rewrite <- (appended_nil arr) at 1. apply (push_amends_loop block_hash arr l []); [done|constructor|done|].
  destruct Hr as [Hr1 Hr2]. split; [|done]. unfold len in *. by rewrite length_rev in Hr1.
Qed.

(** *** What the merge gives *)

Lemma as_i64_add_l a b : as_i64 (as_i64 a + b) = as_i64 (a + b).
Proof. apply (add_i64_l a b). Qed.

Lemma key_total_cons k x l : key_total k (x :: l) = (if bool_decide (x.1 = k) then x.2 else 0) + key_total k l.
Proof. unfold key_total, sumZ. simpl. by case_bool_decide. Qed.

Lemma merge_step_total k acc x rest :
  as_i64 (key_total k (merge_step acc x) + rest) = as_i64 (key_total k acc + (key_total k [x] + rest)).
Proof.
  unfold merge_step. destruct acc as [|[k' v] acc]; [f_equal; change (key_total k []) with 0; lia|].
  case_bool_decide as Hk.
  - rewrite !key_total_cons. cbn [fst snd]. change (key_total k []) with 0. subst k'.
    case_bool_decide; [|f_equal; lia].
    unfold add_i64. rewrite <- Z.add_assoc, as_i64_add_l. f_equal. lia.
  - f_equal. rewrite (key_total_cons k x), (key_total_cons k x []). change (key_total k []) with 0. lia.
Qed.

Lemma merge_step_keys k acc x : k ∈ map fst (merge_step acc x) ↔ k ∈ map fst acc ∨ k = x.1.
Proof.
  unfold merge_step. destruct acc as [|[k' v] acc]; [simpl; set_solver|].
  case_bool_decide; simpl; set_solver.
Qed.

(** The new head is after the entries that are there. *)
Lemma merge_step_sorted acc x :
  StronglySorted (key_lt fst) (rev acc) → (∀ y, y ∈ acc → key_le fst y x) →
  StronglySorted (key_lt fst) (rev (merge_step acc x)).
Proof.
  intros Hs Hle. unfold merge_step. destruct acc as [|[k v] acc]; [repeat constructor|].
  change (rev ((k, v) :: acc)) with (rev acc ++ [(k, v)]) in Hs.
  apply StronglySorted_app in Hs as (Hlt & Hs & _).
  assert (∀ y, y ∈ acc → bytes_ltb y.1 k = true) as Hacc.
  { intros y Hy. apply (Hlt y (k, v)); [|by left]. apply list_elem_of_In. rewrite <- List.in_rev.
    by apply list_elem_of_In. }
  assert (∀ y z (l : list (bytes * Z)), y ∈ rev l → (∀ y, y ∈ l → bytes_ltb y.1 z = true) → bytes_ltb y.1 z = true)
    as Hrev.
  { intros y z l Hy Hl. apply Hl, list_elem_of_In, List.in_rev. by apply list_elem_of_In. }
  case_bool_decide as Hk; cbn [rev]; rewrite StronglySorted_app.
  - split_and!; [|done|repeat constructor].
    intros y z Hy ->%list_elem_of_singleton. by apply (Hrev y k acc).
  - assert (bytes_ltb k x.1 = true) as Hkx by (apply bytes_leb_ltb; [apply (Hle (k, v)); by left|done]).
    split_and!; [| |repeat constructor].
    + intros y z Hy ->%list_elem_of_singleton. apply elem_of_app in Hy as [Hy| ->%list_elem_of_singleton]; [|done].
      apply (Hrev y x.1 acc); [done|]. intros u Hu.
      eapply bytes_ltb_leb_trans; [by apply Hacc|by apply bytes_ltb_leb].
    + apply StronglySorted_app. split_and!; [|done|repeat constructor]. done.
Qed.

(** The entries stay sorted, keep the keys, and add up. *)
Lemma merge_spec l : ∀ acc,
  StronglySorted (key_le fst) l → StronglySorted (key_lt fst) (rev acc) →
  (∀ x y, x ∈ acc → y ∈ l → key_le fst x y) →
  let r := foldl merge_step acc l in
  StronglySorted (key_lt fst) (rev r) ∧
  (∀ k, k ∈ map fst r ↔ k ∈ map fst acc ∨ k ∈ map fst l) ∧
  (∀ k, as_i64 (key_total k r) = as_i64 (key_total k acc + key_total k l)).
Proof.
  induction l as [|x l IH]; intros acc Hl Hacc Hle; cbn [foldl].
  - split_and!; [done|intros k; simpl; set_solver|]. intros k. f_equal. change (key_total k []) with 0. lia.
  - apply StronglySorted_inv in Hl as [Hl Hx]. rewrite Forall_forall in Hx.
    assert (∀ y, y ∈ acc → key_le fst y x) as Hyx by (intros y Hy; apply Hle; [done|by left]).
    destruct (IH (merge_step acc x) Hl) as (H2 & H3 & H4).
    + by apply merge_step_sorted.
    + intros y z Hy Hz. unfold key_le.
      destruct (proj1 (merge_step_keys y.1 acc x) ltac:(by apply (list_elem_of_fmap_2 fst))) as [Hy'|He].
      * apply list_elem_of_fmap_1 in Hy' as (w & He & Hw). rewrite He. apply Hle; [done|by right].
      * rewrite He. by apply Hx.
    + split_and!; [done| |].
      * intros k. rewrite H3, merge_step_keys. simpl. rewrite elem_of_cons. tauto.
      * intros k. rewrite H4, merge_step_total. f_equal. rewrite (key_total_cons k x l), (key_total_cons k x []).
        change (key_total k []) with 0. lia.
Qed.

Lemma merge_ok l : ∀ acc, acc_ok acc → Forall (λ x, in_i64 x.2) l → acc_ok (foldl merge_step acc l).
Proof.
  induction l as [|x l IH]; intros acc Ha Hl; [done|]. apply Forall_cons in Hl as [Hx Hl].
  apply IH; [by apply merge_step_ok|done].
Qed.

Lemma key_total_unique l k v : NoDup (map fst l) → (k, v) ∈ l → key_total k l = v.
Proof.
  induction l as [|[k' v'] l IH]; intros Hnd Hin; [by apply elem_of_nil in Hin|].
  cbn [map fst] in Hnd. apply NoDup_cons in Hnd as [Hni Hnd]. rewrite key_total_cons. cbn [fst snd].
  apply elem_of_cons in Hin as [[= <- <-]|Hin].
  - rewrite bool_decide_true by done. enough (key_total k l = 0) by lia.
    clear -Hni. induction l as [|[k' v'] l IH]; [done|]. cbn [map fst] in Hni.
    rewrite not_elem_of_cons in Hni. destruct Hni as [Hne Hni]. rewrite key_total_cons. cbn [fst snd].
    rewrite bool_decide_false by done. rewrite IH by done. done.
  - rewrite bool_decide_false; [rewrite IH by done; lia|].
    intros ->. by apply Hni, (list_elem_of_fmap_2 fst _ (k, v)).
Qed.

(** A sorted list of amends is merged to one entry per key, with the sum. *)
Lemma merged_spec l :
  StronglySorted (key_le fst) l → Forall (λ x, in_i64 x.2) l →
  StronglySorted (key_lt fst) (merged l) ∧
  (∀ k v, (k, v) ∈ merged l → v = as_i64 (key_total k l)) ∧
  (∀ k, k ∈ map fst (merged l) ↔ k ∈ map fst l).
Proof.
  intros Hl Hr. destruct (merge_spec l [] Hl) as (Hs & Hk & Ht); [constructor|by intros x y ?%elem_of_nil|].
  assert (∀ x, x ∈ merged l ↔ x ∈ foldl merge_step [] l) as Hrev
    by (intros x; unfold merged; by rewrite !list_elem_of_In, <- List.in_rev).
  split_and!; [done| |].
  - intros k v Hin. pose proof (key_total_unique _ k v (sorted_NoDup _ _ Hs) Hin) as Hu.
    assert (in_i64 v) as Hv.
    { pose proof (merge_ok l [] (Forall_nil_2 _) Hr) as Hok. unfold acc_ok in Hok. rewrite Forall_forall in Hok.
      apply (Hok (k, v)). by apply Hrev. }
    rewrite <- (as_i64_id v Hv), <- Hu. rewrite (key_total_perm k (rev _) (foldl merge_step [] l)); [apply Ht|].
    symmetry. apply Permutation_rev.
  - intros k. unfold merged. rewrite <- (Permutation_rev (foldl merge_step [] l)), Hk. simpl. set_solver.
Qed.

(** * A batch of blocks *)

Definition all_spends (blocks : list hash) (txs : list (list SerializedTx)) : list (bytes * bytes) :=
  concat (map (in_block spend_pairs) (zip txs blocks)).

Definition all_amends (blocks : list hash) (txs : list (list SerializedTx)) : list (bytes * bytes) :=
  concat (map (in_block amend_pairs) (zip txs blocks)).

(** The transactions come from [analyze_tx]: everything is there, and the amends are sorted. *)
Record tx_stored (t : SerializedTx) : Prop := mkTxStored {
  ts_hash : hash_ok (st_hash t);
  ts_hash_ne : st_hash t ≠ EMPTY_HASH;
  ts_analyzed : is_Some (st_analyzed_tx t);
  ts_outs : is_Some (st_tx_outs t);
  ts_amends : StronglySorted (key_le fst) (parts st_address_amends t);
  ts_deltas : Forall (λ x, in_i64 x.2) (parts st_address_amends t);
}.

Definition spends_count (txs : list (list SerializedTx)) : Z := len (concat (map (parts st_spent_txos) (concat txs))).
Definition amends_count (txs : list (list SerializedTx)) : Z := len (concat (map (parts st_address_amends) (concat txs))).

Lemma spends_spec blocks txs a :
  arena_wf a → length blocks = length txs → Forall hash_ok blocks → Forall tx_stored (concat txs) →
  spends_count txs <= isize_max → array_room RTxSpend (spends_count txs) <= free a →
  ∃ a', spends blocks txs a
    = Ok (if spends_count txs =? 0 then None
          else Some (sort_unstable_by (λ a b, bytes_leb a.1 b.1) (all_spends blocks txs)), a') ∧
    arena_step a a' (array_room RTxSpend (spends_count txs)).
Proof.
  intros Hwf Hlen Hb Ht Hmax Hf. unfold spends. rewrite count_parts_spec by done. fold (spends_count txs).
  pose proof (array_room_nonneg RTxSpend (spends_count txs) (len_nonneg _)).
  destruct (Z.eqb_spec (spends_count txs) 0); [exists a; split; [done|by apply arena_step_refl]|].
  destruct (collect_sorted Some RTxSpend (λ a b : bytes * bytes, bytes_leb a.1 b.1)
    (λ result, for_each (λ result '(transactions, block_hash),
       for_each (push_spends block_hash) transactions result) (zip txs blocks) result)
    (all_spends blocks txs) (spends_count txs) a) as (a' & Ha & Hs); [done| |done| |].
  - apply len_in_blocks; [done|]. intros h t. unfold spend_pairs. by rewrite len_map.
  - intros arr Hr. apply (for_blocks push_spends spend_pairs); [|done]. intros h arr' t Hh Htx Hr'.
    apply push_spends_spec; [by apply (proj1 (Forall_forall _ _) Hb)|by apply (proj1 (Forall_forall _ _) Ht)|done].
  - by exists a'.
Qed.

Lemma address_amends_spec blocks txs a :
  arena_wf a → length blocks = length txs → Forall hash_ok blocks → Forall tx_stored (concat txs) →
  amends_count txs <= isize_max → array_room RAmendEntry (amends_count txs) <= free a →
  ∃ a', address_amends blocks txs a
    = Ok (if amends_count txs =? 0 then None
          else Some (sort_unstable_by (λ a b, bytes_leb a.1 b.1) (all_amends blocks txs)), a') ∧
    arena_step a a' (array_room RAmendEntry (amends_count txs)).
Proof.
  intros Hwf Hlen Hb Ht Hmax Hf. unfold address_amends. rewrite count_parts_spec by done. fold (amends_count txs).
  pose proof (array_room_nonneg RAmendEntry (amends_count txs) (len_nonneg _)).
  destruct (Z.eqb_spec (amends_count txs) 0); [exists a; split; [done|by apply arena_step_refl]|].
  destruct (collect_sorted Some RAmendEntry (λ a b : bytes * bytes, bytes_leb a.1 b.1)
    (λ result, for_each (λ result '(transactions, block_hash),
       for_each (push_amends_of block_hash) transactions result) (zip txs blocks) result)
    (all_amends blocks txs) (amends_count txs) a) as (a' & Ha & Hs); [done| |done| |].
  - apply len_in_blocks; [done|]. intros h t. unfold amend_pairs. rewrite len_map. apply len_merged.
  - intros arr Hr. apply (for_blocks push_amends_of amend_pairs); [|done]. intros h arr' t Hh Htx Hr'.
    apply push_amends_of_spec; [by apply (proj1 (Forall_forall _ _) Hb)|by apply (proj1 (Forall_forall _ _) Ht)|done].
  - by exists a'.
Qed.

(** Sorting pairs with different keys makes a file that can be ingested, and that
    holds the same pairs. *)
Lemma write_sorted_pairs d l :
  l ≠ [] → NoDup (map fst l) →
  ∃ d', write_pairs d (sort_unstable_by (λ a b, bytes_leb a.1 b.1) l) = Ok d' ∧ written d d' l.
Proof.
  intros Hne Hnd. set (leb := λ a b : bytes * bytes, bytes_leb a.1 b.1).
  pose proof (sort_unstable_by_perm _ leb l) as Hp.
  destruct (write_pairs_spec d (sort_unstable_by leb l)) as [(_ & _ & d' & Hw & Hd1 & Hd2)|([Hn|Hn] & _)].
  - exists d'. split; [done|]. split.
    + intros k v Hkv. apply Hd1. by rewrite Hp.
    + intros k Hk. apply Hd2. change (map fst ?x) with (x.*1) in *. by rewrite Hp.
  - rewrite Hn in Hp. by apply Permutation_nil_l in Hp.
  - exfalso. apply Hn, sorted_strict.
    + apply (sort_unstable_by_sorted _ leb), (total_preorder_key (A := bytes * bytes) fst).
    + change (map fst ?x) with (x.*1) in *. by rewrite Hp.
Qed.

Lemma written_nil d : written d d [].
Proof. split; [by intros k v ?%elem_of_nil|done]. Qed.

(** What a database of transactions holds after a batch: one of the values of each hash. *)
Definition written_txs (field : SerializedTx → option bytes) (d d' : DB) (l : list SerializedTx) : Prop :=
  (∀ t, t ∈ l → ∃ t', t' ∈ l ∧ st_hash t' = st_hash t ∧ contents d' !! st_hash t = field t') ∧
  (∀ k, k ∉ map st_hash l → contents d' !! k = contents d !! k).

Lemma write_sorted_txs d field msg l :
  Forall tx_stored l → (∀ t, t ∈ l → is_Some (field t)) → l ≠ [] →
  ∃ d', ('(writer, _) ← for_each (put_tx field msg)
           (sort_unstable_by (λ a b, bytes_leb (st_hash a) (st_hash b)) l) (sst_open, EMPTY_HASH);
         finish_and_ingest d writer) = Ok d' ∧ written_txs field d d' l.
Proof.
  intros Ht Hf Hne. set (leb := λ a b, bytes_leb (st_hash a) (st_hash b)).
  pose proof (sort_unstable_by_perm _ leb l) as Hp. rewrite Forall_forall in Ht.
  destruct (write_tx_field_spec d field (λ t, default [] (field t)) msg (sort_unstable_by leb l))
    as (d' & Hw & Hd1 & Hd2).
  - apply Forall_forall. intros t Hin. rewrite Hp in Hin. by destruct (Hf t Hin) as [v ->].
  - apply (sort_unstable_by_sorted _ leb), total_preorder_key.
  - apply Forall_forall. intros t Hin. rewrite Hp in Hin. by destruct (Ht t Hin).
  - intros Hn. rewrite Hn in Hp. by apply Permutation_nil_l in Hp.
  - exists d'. split; [done|]. split.
    + intros t Hin. rewrite <- Hp in Hin. destruct (Hd1 t Hin) as (t' & Hin' & He & Hc).
      rewrite Hp in Hin'. exists t'. split_and!; [done..|]. rewrite Hc. by destruct (Hf t' Hin') as [v ->].
    + intros k Hk. apply Hd2. change (map st_hash ?x) with (st_hash <$> x) in *. by rewrite Hp.
Qed.

Definition batch_need (blocks : list hash) (txs : list (list SerializedTx)) : Z :=
  array_room RBlockTxs (len blocks) + total_cost block_cost (zip txs blocks) +
  (array_room RRefSerializedTx (len (concat txs)) +
   (array_room RTxSpend (spends_count txs) + array_room RAmendEntry (amends_count txs))).

Lemma batch_need_nonneg blocks txs : 0 <= batch_need blocks txs.
Proof.
  unfold batch_need, spends_count, amends_count.
  pose proof (array_room_nonneg RBlockTxs _ (len_nonneg blocks)).
  pose proof (total_cost_nonneg block_cost (λ x, len_nonneg (block_bytes x.1)) (zip txs blocks)).
  pose proof (array_room_nonneg RRefSerializedTx _ (len_nonneg (concat txs))).
  pose proof (array_room_nonneg RTxSpend _ (len_nonneg (concat (map (parts st_spent_txos) (concat txs))))).
  pose proof (array_room_nonneg RAmendEntry _ (len_nonneg (concat (map (parts st_address_amends) (concat txs))))).
  lia.
Qed.

(** A batch as [analyze_tx] makes it. *)
Record batch_formed (blocks : list hash) (txs : list (list SerializedTx)) : Prop := mkBatchFormed {
  bf_len : length blocks = length txs;
  bf_blocks : Forall hash_ok blocks;
  bf_txs : Forall tx_stored (concat txs);
  bf_max : len (concat txs) <= isize_max ∧ spends_count txs <= isize_max ∧ amends_count txs <= isize_max;
}.

(** A batch whose keys do not clash. *)
Record batch_ok (blocks : list hash) (txs : list (list SerializedTx)) : Prop := mkBatchOk {
  bo_formed : batch_formed blocks txs;
  bo_nonempty : concat txs ≠ [];
  bo_distinct_blocks : NoDup blocks;
  bo_distinct_spends : NoDup (map fst (all_spends blocks txs));
  bo_distinct_amends : NoDup (map fst (all_amends blocks txs));
}.

Lemma len_in_blocks_eq {A T U} (g : hash → A → list T) (p : A → list U) blocks txs :
  length blocks = length txs → (∀ h t, len (g h t) = 0 → len (p t) = 0) →
  concat (map (in_block g) (zip txs blocks)) = [] → len (concat (map p (concat txs))) = 0.
Proof.
  intros Hlen Hg Hnil. destruct (concat (map p (concat txs))) as [|y l] eqn:Hy; [done|].
  assert (y ∈ concat (map p (concat txs))) as Hin by (rewrite Hy; by left).
  apply list_elem_of_In, List.in_concat in Hin as (k & Hk & Hin).
  apply List.in_map_iff in Hk as (t & <- & Ht). apply List.in_concat in Ht as (ts & Hts & Ht).
  apply list_elem_of_In, list_elem_of_lookup_1 in Hts as (i & Hi).
  destruct (lookup_lt_is_Some_2 blocks i) as [h Hh]; [rewrite Hlen; by eapply lookup_lt_Some|].
  assert (len (g h t) = 0) as Hz0.
  { destruct (g h t) as [|z r] eqn:Hz; [done|]. exfalso.
    apply (not_elem_of_nil z). rewrite <- Hnil. apply elem_of_in_blocks. exists ts, h, t.
    split_and!; [|by apply list_elem_of_In|rewrite Hz; by left].
    apply list_elem_of_lookup_2 with i. by rewrite lookup_zip_with, Hi, Hh. }
  apply Hg in Hz0. destruct (p t); done.
Qed.

(** The task of an optional file: none when there is nothing to write. *)
Definition optional_write (d : DB) (count : Z) (l : list (bytes * bytes)) : DB :=
  match (if count =? 0 then None else Some (sort_unstable_by (λ a b : bytes * bytes, bytes_leb a.1 b.1) l)) with
  | Some pairs => spawned d (write_pairs d pairs)
  | None => d
  end.

Lemma optional_write_spec d (count : Z) l :
  (count = 0 ↔ l = []) → NoDup (map fst l) → written d (optional_write d count l) l.
Proof.
  intros Hc Hnd. unfold optional_write. destruct (Z.eqb_spec count 0) as [Hz|Hz].
  - rewrite (proj1 Hc Hz). apply written_nil.
  - destruct (write_sorted_pairs d l) as (d' & -> & Hw); [|done..]. intros Hl. by apply Hz, Hc.
Qed.

(** Two pairs with the same key keep the whole file from being written. *)
Lemma clash_not_written d l :
  ¬ NoDup (map fst l) → spawned d (write_pairs d (sort_unstable_by (λ a b, bytes_leb a.1 b.1) l)) = d.
Proof.
  intros Hnd. set (leb := λ a b : bytes * bytes, bytes_leb a.1 b.1).
  destruct (write_pairs_spec d (sort_unstable_by leb l)) as [(_ & Hs & _)|(_ & m & ->)]; [exfalso|done].
  apply Hnd. apply sorted_NoDup in Hs. change (map fst ?x) with (x.*1) in *.
  by rewrite (sort_unstable_by_perm _ leb l) in Hs.
Qed.

Lemma spends_count_zero blocks txs :
  length blocks = length txs → spends_count txs = 0 ↔ all_spends blocks txs = [].
Proof.
  intros Hlen. split.
  - intros Hz. pose proof (len_in_blocks spend_pairs (parts st_spent_txos) blocks txs Hlen
      ltac:(intros; unfold spend_pairs; by rewrite len_map)) as Hle.
    fold (all_spends blocks txs) (spends_count txs) in Hle. rewrite Hz in Hle.
    destruct (all_spends blocks txs); [done|]. rewrite len_cons in Hle. pose proof (len_nonneg l). lia.
  - apply len_in_blocks_eq; [done|]. intros h t. unfold spend_pairs. by rewrite len_map.
Qed.

Lemma amends_count_zero blocks txs :
  length blocks = length txs → Forall tx_stored (concat txs) →
  amends_count txs = 0 ↔ all_amends blocks txs = [].
Proof.
  intros Hlen _. split.
  - intros Hz. pose proof (len_in_blocks amend_pairs (parts st_address_amends) blocks txs Hlen
      ltac:(intros; unfold amend_pairs; rewrite len_map; apply len_merged)) as Hle.
    fold (all_amends blocks txs) (amends_count txs) in Hle. rewrite Hz in Hle.
    destruct (all_amends blocks txs); [done|]. rewrite len_cons in Hle. pose proof (len_nonneg l). lia.
  - apply len_in_blocks_eq; [done|]. intros h t. unfold amend_pairs, merged. rewrite len_map.
    unfold len. rewrite length_rev. intros Hz. destruct (parts st_address_amends t) as [|x l]; [done|].
    exfalso. cbn [foldl merge_step] in Hz. pose proof (len_merge l [x]) as Hl. rewrite len_cons in Hl.
    change (len (@nil (bytes * Z))) with 0 in Hl. unfold len in Hl. lia.
Qed.

(** The whole batch: what becomes of each database. *)
Lemma write_batch_spec {M} d blocks txs asciis (metrics : list M) a :
  batch_formed blocks txs → length asciis = length blocks → length metrics = length blocks →
  arena_wf a → batch_need blocks txs <= free a →
  ∃ a', write_analyzed_txs d blocks txs asciis metrics a
    = Ok (mkDatabases _
        (spawned (TXS_DB d) (write_txs (TXS_DB d)
           (sort_unstable_by (λ a b, bytes_leb (st_hash a) (st_hash b)) (concat txs))))
        (spawned (TXOUTS_DB d) (write_txouts (TXOUTS_DB d)
           (sort_unstable_by (λ a b, bytes_leb (st_hash a) (st_hash b)) (concat txs))))
        (spawned (BLOCKTXS_DB d) (write_pairs (BLOCKTXS_DB d)
           (sort_unstable_by (λ a b, bytes_leb a.1 b.1) (map block_pair (zip txs blocks)))))
        (optional_write (ADDRESSES_DB d) (amends_count txs) (all_amends blocks txs))
        (optional_write (TXSPENDS_DB d) (spends_count txs) (all_spends blocks txs)),
      (zip blocks asciis, zip blocks metrics), a').
Proof.
  intros [Hlen Hb Ht (Hm1 & Hm2 & Hm3)] Hasc Hmet Hwf Hf. unfold batch_need in Hf.
  assert (∀ t n, 0 <= n → 0 <= array_room t n) as Hroom by (intros; by apply array_room_nonneg).
  pose proof (Hroom RRefSerializedTx _ (len_nonneg (concat txs))) as Hr1.
  pose proof (Hroom RTxSpend (spends_count txs) (len_nonneg _)) as Hr2.
  pose proof (Hroom RAmendEntry (amends_count txs) (len_nonneg _)) as Hr3.
  unfold write_analyzed_txs. rewrite !bool_decide_true by done. cbn [negb].
  destruct (serialized_txhashes_spec blocks txs a) as (a1 & Ha1 & Hs1); [done..| |lia|].
  { eapply Forall_impl; [exact Ht|]. by intros t []. }
  pose proof (arena_step_free _ _ _ Hs1). erewrite bind_amonad by exact Ha1.
  destruct (collapsed_spec txs a1) as (a2 & Ha2 & Hs2); [by destruct Hs1|done|lia|].
  pose proof (arena_step_free _ _ _ Hs2). erewrite bind_amonad by exact Ha2.
  destruct (spends_spec blocks txs a2) as (a3 & Ha3 & Hs3); [by destruct Hs2|done..|lia|].
  pose proof (arena_step_free _ _ _ Hs3). erewrite bind_amonad by exact Ha3.
  destruct (address_amends_spec blocks txs a3) as (a4 & Ha4 & Hs4); [by destruct Hs3|done..|lia|].
  erewrite bind_amonad by exact Ha4.
  unfold mark_blocks_as_downloaded. rewrite !bool_decide_true by done. cbn [negb].
  by exists a4.
Qed.

Lemma write_batch_ok d blocks txs :
  batch_ok blocks txs →
  written (BLOCKTXS_DB d) (spawned (BLOCKTXS_DB d) (write_pairs (BLOCKTXS_DB d)
    (sort_unstable_by (λ a b, bytes_leb a.1 b.1) (map block_pair (zip txs blocks))))) (map block_pair (zip txs blocks)) ∧
  written_txs st_analyzed_tx (TXS_DB d) (spawned (TXS_DB d) (write_txs (TXS_DB d)
    (sort_unstable_by (λ a b, bytes_leb (st_hash a) (st_hash b)) (concat txs)))) (concat txs) ∧
  written_txs st_tx_outs (TXOUTS_DB d) (spawned (TXOUTS_DB d) (write_txouts (TXOUTS_DB d)
    (sort_unstable_by (λ a b, bytes_leb (st_hash a) (st_hash b)) (concat txs)))) (concat txs) ∧
  written (TXSPENDS_DB d) (optional_write (TXSPENDS_DB d) (spends_count txs) (all_spends blocks txs))
    (all_spends blocks txs) ∧
  written (ADDRESSES_DB d) (optional_write (ADDRESSES_DB d) (amends_count txs) (all_amends blocks txs))
    (all_amends blocks txs).
Proof.
  intros [[Hlen Hb Ht _] Hne Hnb Hns Hna]. pose proof Ht as Ht'. rewrite Forall_forall in Ht'.
  split_and!.
  - destruct (write_sorted_pairs (BLOCKTXS_DB d) (map block_pair (zip txs blocks))) as (d3 & -> & Hw3); [| |done].
    + intros Hnil. apply Hne. destruct txs as [|ts txs]; [done|]. by destruct blocks.
    + rewrite map_map. change (map _ (zip txs blocks)) with ((zip txs blocks).*2). by rewrite snd_zip by lia.
  - unfold write_txs. destruct (write_sorted_txs (TXS_DB d) st_analyzed_tx "to add tx into sst file" (concat txs))
      as (d2 & -> & Hw2); [done|by intros t Hin; destruct (Ht' t Hin)|done..].
  - unfold write_txouts. destruct (write_sorted_txs (TXOUTS_DB d) st_tx_outs "to add txout into sst file" (concat txs))
      as (d1 & -> & Hw1); [done|by intros t Hin; destruct (Ht' t Hin)|done..].
  - apply optional_write_spec; [by apply spends_count_zero|done].
  - apply optional_write_spec; [by apply amends_count_zero|done].
Qed.

(** * Properties *)

(** A batch in which two amends have the same key is marked as downloaded all the
    same, but nothing of it reaches the database of addresses. *)
Theorem clash_loses_amends {M} d blocks txs asciis (metrics : list M) a :
  batch_formed blocks txs → length asciis = length blocks → length metrics = length blocks →
  arena_wf a → batch_need blocks txs <= free a →
  ¬ NoDup (map fst (all_amends blocks txs)) →
  ∃ d' a', write_analyzed_txs d blocks txs asciis metrics a
      = Ok (d', (zip blocks asciis, zip blocks metrics), a') ∧ ADDRESSES_DB d' = ADDRESSES_DB d.
Proof.
  intros Hbf Hasc Hmet Hwf Hf Hnd.
  destruct (write_batch_spec d blocks txs asciis metrics a) as (a' & Ha); [done..|].
  eexists _, a'. split; [exact Ha|]. cbn [ADDRESSES_DB]. unfold optional_write.
  destruct (amends_count txs =? 0); [done|]. by apply clash_not_written.
Qed.
End layout.

(** * An example *)

Import Toy ToyDb.

(** A transaction that spends an output, with two amends of one address. *)
Definition toy_stored : SerializedTx :=
  mkSerializedTx (to_le 32 5) (Some [Byte.x01]) (Some [Byte.x02]) (Some [to_le 36 7])
    (Some [(to_le 60 3, -2000); (to_le 60 3, 1234)]) 0 1234 400.

Definition toy_databases : Databases := mkDatabases toy_db ∅ ∅ ∅ ∅ ∅.

Definition toy_blocks : list hash := [to_le 32 9].

Lemma toy_stored_ok : tx_stored toy_stored.
Proof.
  constructor.
  - reflexivity.
  - vm_compute. discriminate.
  - by eexists.
  - by eexists.
  - constructor; [repeat constructor|]. constructor; [apply bytes_leb_refl|constructor].
  - repeat (constructor; [split; [discriminate|reflexivity]|]). constructor.
Qed.

Lemma toy_batch_formed n : (n <= 2)%nat → batch_formed (replicate n (to_le 32 9)) (replicate n [toy_stored]).
Proof.
  intros Hn. constructor.
  - by rewrite !length_replicate.
  - by apply Forall_replicate.
  - destruct n as [|[|[|n]]]; [..|lia]; repeat (constructor; [apply toy_stored_ok|]); constructor.
  - destruct n as [|[|[|n]]]; [..|lia]; split_and!; vm_compute; discriminate.
Qed.

Lemma toy_batch_ok : batch_ok toy_blocks [[toy_stored]].
Proof.
  constructor.
  - apply (toy_batch_formed 1). lia.
  - discriminate.
  - apply NoDup_singleton.
  - apply NoDup_singleton.
  - apply NoDup_singleton.
Qed.

Lemma clash_loses_amends_witness :
  ∃ d' a', write_analyzed_txs toy_databases (replicate 2 (to_le 32 9)) (replicate 2 [toy_stored]) [[]; []] [tt; tt]
      (mkArena 4096 0 4096)
      = Ok (d', (zip (replicate 2 (to_le 32 9)) [[]; []], zip (replicate 2 (to_le 32 9)) [tt; tt]), a') ∧
    ADDRESSES_DB d' = ADDRESSES_DB toy_databases.
Proof.
  apply clash_loses_amends.
  - apply (toy_batch_formed 2). lia.
  - reflexivity.
  - reflexivity.
  - apply toy_arena_wf; lia.
  - vm_compute. discriminate.
  - intros Hnd. vm_compute in Hnd. apply NoDup_cons in Hnd as [Hni _]. apply Hni. left.
Defined.
