(* ===== verification/Queries.v ===== *)
(** [src/db/rocksdb.rs]: the queries over the database. *)
From stdpp Require Import sorting.
From S2P Require Import Prelude.
From S2P Require Import Extern.
From S2P Require Import Buffer.
From S2P Require Import Varint.
From S2P Require Import Arena.
From S2P Require Import Wire.
From S2P Require Import Header.
From S2P Require Import Tx.
From S2P Require Import Loops.
From S2P Require Import Opcodes.
From S2P Require Import Script.
From S2P Require Import Weight.
From S2P Require Import Address.
From S2P Require Import Analyze.
From S2P Require Import Keys.
From S2P Require Import Store.

Record BlockTxEntry := mkBlockTxEntry {
  be_hash : hash;
  be_value_sats : Z;
  be_fee_sats : Z;
  be_size_wus : Z;
}.

Section queries.
Context `{RocksDb, Layout}.

(** A task on the pool of blocking threads: awaiting one that has panicked gives an
    error, which the callers hand on. *)
Definition spawn_blocking {A} (m : outcome A) : outcome A :=
  match m with Panic _ => Err "task panicked" | m => m end.

(** [get_pinned], and the checks of what it gives *)
Definition with_data {A} (d : DB) (key : bytes) (f : bytes → outcome A) : outcome A :=
  spawn_blocking (
    data ← get_pinned d key;
    match data with
    | None => Err "data does not exist"
    | Some data => if bool_decide (data = []) then Err "data empty" else f data
    end).

Definition get_transaction_outputs (d : Databases) (h : hash) : outcome (list TxOut) :=
  with_data (TXOUTS_DB d) h (λ data, '(result, _) ← deserialize_array_owned data; Ok result).

Definition read_tx_entry (data : bytes) (s : list BlockTxEntry * Z) : outcome (list BlockTxEntry * Z) :=
  let '(result, continue_at) := s in
  b ← expect (slice_from data continue_at) index_panic;
  h ← slice_idx b 0 32;
  value_sats ← slice_idx b 32 40;
  fee_sats ← slice_idx b 40 48;
  size_wus ← slice_idx b 48 52;
  Ok (result ++ [mkBlockTxEntry h (from_le value_sats) (from_le fee_sats) (from_le size_wus)],
      continue_at +! 52).

Definition get_block_tx_entries (d : Databases) (h : hash) : outcome (list BlockTxEntry) :=
  with_data (BLOCKTXS_DB d) h (λ data,
    '(count, continue_at) ← deserialize_varint data;
    result ← with_capacity RBlockTxEntry count;
    '(result, _) ← repeat_for count (read_tx_entry data) (result, continue_at);
    Ok result).

Definition get_analyzed_tx (d : Databases) (h : hash) : outcome AnalyzedTx :=
  with_data (TXS_DB d) h (λ data, deserialize_analyzed_tx data h).

Definition assert_eq (a b : Z) : outcome unit := if a =? b then Ok tt else Panic "assertion failed".

Definition read_spend (results : list (Z * hash * hash)) (item : bytes * bytes) :
    outcome (list (Z * hash * hash)) :=
  let '(key, value) := item in
  _ ← assert_eq 36 (len key);
  _ ← assert_eq 64 (len value);
  i ← slice_idx key 32 36;
  t ← slice_idx value 0 32;
  b ← slice_idx value 32 64;
  Ok (results ++ [(from_le i, t, b)]).

Definition get_tx_spends (d : Databases) (txhash : hash) : outcome (list (Z * hash * hash)) :=
  spawn_blocking (for_each read_spend (prefix_iterator (TXSPENDS_DB d) txhash) []).

(** The transaction, the block and the delta of an entry of an address. *)
Definition read_address_entry (expected_key_len : Z) (item : bytes * bytes) : outcome (hash * hash * Z) :=
  let '(key, value) := item in
  _ ← assert_eq expected_key_len (len key);
  _ ← assert_eq 40 (len value);
  tx_hash ← slice_idx key (expected_key_len - 32) (len key);
  block_hash ← slice_idx value 0 32;
  delta ← slice_idx value 32 40;
  Ok (tx_hash, block_hash, as_i64 (from_le delta)).

(** The loop over an iterator, until there are [limit] results. *)
Fixpoint read_address_entries (expected_key_len limit : Z) (items : list (bytes * bytes))
    (results : list (hash * hash * Z)) : outcome (list (hash * hash * Z)) :=
  match items with
  | [] => Ok results
  | item :: items =>
      entry ← read_address_entry expected_key_len item;
      let results := results ++ [entry] in
      if len results =? limit then Ok results
      else read_address_entries expected_key_len limit items results
  end.

Definition u64_max : Z := 2 ^ 64 - 1.

Definition get_address_entires (d : Databases) (address : bytes) (from_timestamp to_timestamp limit : Z) :
    outcome (list (hash * hash * Z)) :=
  spawn_blocking (
    let expected_key_len := len address +! 8 +! 32 in
    let start := address ++ to_be 8 (u64_max - to_timestamp) in
    let end_ := address ++ to_be 8 (u64_max - from_timestamp) in
    read_address_entries expected_key_len limit (iterate (ADDRESSES_DB d) start end_) []).

(** [iterator.next()] leaves out the entry the query continues after. *)
Definition get_address_entires_continue (d : Databases) (address : bytes) (after_tx : hash)
    (after_timestamp limit : Z) : outcome (list (hash * hash * Z)) :=
  spawn_blocking (
    let expected_key_len := len address +! 8 +! 32 in
    let start := address ++ to_be 8 (u64_max - after_timestamp) ++ after_tx in
    let end_ := address ++ to_be 8 u64_max in
    read_address_entries expected_key_len limit (tail (iterate (ADDRESSES_DB d) start end_)) []).

Record TopAddressData := mkTopAddressData {
  ta_transactions : list (hash * hash * Z);
  ta_total_txs : Z;
  ta_total_spent : Z;
  ta_total_received : Z;
  ta_first_seen : Z;
}.

Definition top_entry (address_len top_count : Z) (s : TopAddressData) (item : bytes * bytes) :
    outcome TopAddressData :=
  '(tx_hash, block_hash, delta) ← read_address_entry (address_len +! 8 +! 32) item;
  let results :=
    if len (ta_transactions s) <? top_count then ta_transactions s ++ [(tx_hash, block_hash, delta)]
    else ta_transactions s in
  timestamp_bytes ← slice_idx item.1 address_len (address_len +! 8);
  let timestamp := u64_max - from_be timestamp_bytes in
  let '(total_sent, total_received) :=
    if delta <? 0 then (ta_total_spent s +! wrap64 (neg_i64 delta), ta_total_received s)
    else (ta_total_spent s, ta_total_received s +! delta) in
  Ok (mkTopAddressData results (ta_total_txs s +! 1) total_sent total_received timestamp).

Definition get_top_address_data (d : Databases) (address : bytes) (top_count : Z) : outcome TopAddressData :=
  spawn_blocking (
    let start := address ++ to_be 8 0 in
    let end_ := address ++ to_be 8 u64_max in
    for_each (top_entry (len address) top_count) (iterate (ADDRESSES_DB d) start end_)
      (mkTopAddressData [] 0 0 0 0)).

(** * What the queries give *)

(** ** Transactions of a block *)

Definition tx_entry (t : SerializedTx) : BlockTxEntry :=
  mkBlockTxEntry (st_hash t) (st_txouts_sum t) (st_fee t) (st_size_wus t).

(** The numbers of a transaction fit their widths. *)
Definition entry_ok (t : SerializedTx) : Prop :=
  hash_ok (st_hash t) ∧ in_u64 (st_txouts_sum t) ∧ in_u64 (st_fee t) ∧ in_u32 (st_size_wus t).

Lemma with_data_Ok {A} d key (f : bytes → outcome A) data :
  contents d !! key = Some data → data ≠ [] → with_data d key f = spawn_blocking (f data).
Proof.
  intros Hd Hne. unfold with_data. rewrite get_pinned_spec, Hd. cbn [mbind outcome_bind].
  by rewrite bool_decide_false.
Qed.

Lemma with_data_missing {A} d key (f : bytes → outcome A) :
  contents d !! key = None → ∃ e, with_data d key f = Err e.
Proof. intros Hd. unfold with_data. rewrite get_pinned_spec, Hd. by eexists. Qed.

Lemma read_tx_entry_spec pre t rest result :
  entry_ok t → len (pre ++ entry_bytes t ++ rest) <= isize_max →
  read_tx_entry (pre ++ entry_bytes t ++ rest) (result, len pre)
  = Ok (result ++ [tx_entry t], len (pre ++ entry_bytes t)).
Proof.
  intros (Hh & Hv & Hf & Hs) Hl. unfold read_tx_entry.
  assert (len (st_hash t) = 32) as Hl32 by (unfold len; by rewrite Hh).
  rewrite (slice_from_app pre) by done. cbn [expect mbind outcome_bind].
  pose proof (tail_at_0 (entry_bytes t ++ rest)) as Ht. unfold entry_bytes in Ht at 2.
  rewrite <- !app_assoc in Ht. unfold slice_idx.
  rewrite (tail_at_get_until _ _ _ _ 32 Ht) by lia. tail_next Ht 32.
  rewrite (tail_at_get_until _ _ _ _ 40 Ht) by (rewrite len_to_le; lia). tail_next Ht 40.
  rewrite (tail_at_get_until _ _ _ _ 48 Ht) by (rewrite len_to_le; lia). tail_next Ht 48.
  rewrite (tail_at_get_until _ _ _ _ 52 Ht) by (rewrite len_to_le; lia).
  cbn [expect mbind outcome_bind]. rewrite !from_le_to_le by done.
  rewrite !len_app, len_entry_bytes in * by done. pose proof (len_nonneg rest).
  rewrite wrap64_small by (unfold in_u64, isize_max in *; pose proof (len_nonneg pre); lia). done.
Qed.

Lemma read_tx_entries l : ∀ pre result,
  Forall entry_ok l → len (pre ++ concat (map entry_bytes l)) <= isize_max →
  ∃ k, iter_nat (read_tx_entry (pre ++ concat (map entry_bytes l))) (length l) (result, len pre)
    = Ok (result ++ map tx_entry l, k).
Proof.
  induction l as [|t l IH]; intros pre result Hl Hb; cbn [length iter_nat map concat].
  - exists (len pre). by rewrite app_nil_r.
  - apply Forall_cons in Hl as [Ht Hl]. cbn [map concat] in Hb.
    rewrite read_tx_entry_spec by done. cbn [mbind outcome_bind].
    rewrite (app_assoc pre). destruct (IH (pre ++ entry_bytes t) (result ++ [tx_entry t])) as [k Hk];
      [done|by rewrite <- app_assoc|].
    exists k. rewrite Hk, <- app_assoc. done.
Qed.

Lemma block_entries_read d h txs :
  contents (BLOCKTXS_DB d) !! h = Some (block_bytes txs) →
  Forall entry_ok txs → len (block_bytes txs) <= isize_max →
  size_of RBlockTxEntry * len txs <= isize_max →
  get_block_tx_entries d h = Ok (map tx_entry txs).
Proof.
  intros Hd Hok Hl Hcap. pose proof (len_nonneg txs).
  assert (len (block_bytes txs) = length_varint (len txs) + 52 * len txs) as Hlen.
  { unfold block_bytes. rewrite len_app, len_encode_varint, len_entries; [done|].
    eapply Forall_impl; [exact Hok|]. by intros t []. }
  pose proof (length_varint_range (len txs)).
  unfold get_block_tx_entries. erewrite with_data_Ok; [|exact Hd|].
  2: { intros Hn. rewrite Hn in Hlen. change (len []) with 0 in Hlen. lia. }
  cbv beta. unfold block_bytes in *. rewrite deserialize_varint_encode by (exact Hl || (unfold in_u64, isize_max in *; lia)). cbn [mbind outcome_bind].
  unfold with_capacity. rewrite (proj2 (Z.leb_le _ _)) by done. cbn [mbind outcome_bind].
  rewrite repeat_for_len, <- len_encode_varint.
  destruct (read_tx_entries txs (encode_varint (len txs)) []) as [k ->]; [done|exact Hl|]. done.
Qed.

(** ** Spends of a transaction *)

(** What is in the database of spends: the outpoint that is spent, and the
    transaction that spends it with its block. *)
Definition spends_ok (d : Databases) : Prop :=
  ∀ k v, contents (TXSPENDS_DB d) !! k = Some v → len k = 36 ∧ len v = 64.

Definition spend_item (h : hash) (x : Z * hash * hash) : bytes * bytes :=
  let '(i, t, b) := x in (h ++ to_le 4 i, t ++ b).

Definition spend_ok (x : Z * hash * hash) : Prop :=
  let '(i, t, b) := x in in_u32 i ∧ hash_ok t ∧ hash_ok b.

Lemma spend_item_inj h x y : spend_ok x → spend_ok y → spend_item h x = spend_item h y → x = y.
Proof.
  destruct x as [[i t] b], y as [[j u] c]. intros (Hi & Ht & Hb) (Hj & Hu & Hc). cbn.
  intros [= He1 He2]. apply app_inv_head in He1. apply (f_equal from_le) in He1.
  rewrite !from_le_to_le in He1 by done. apply app_inj_1 in He2 as [-> ->]; [by subst|].
  unfold hash_ok in *. congruence.
Qed.

Lemma read_spend_spec h x results :
  hash_ok h → spend_ok x → read_spend results (spend_item h x) = Ok (results ++ [x]).
Proof.
  destruct x as [[i t] b]. intros Hh (Hi & Ht & Hb). cbn. unfold slice_idx, assert_eq.
  assert (len (h ++ to_le 4 i) = 36) as -> by (rewrite len_app, len_to_le, len_hash by done; done).
  assert (len (t ++ b) = 64) as -> by (rewrite len_app, !len_hash by done; done).
  rewrite Z.eqb_refl. cbn [mbind outcome_bind].
  pose proof (tail_at_0 (h ++ to_le 4 i ++ [])) as Hk. tail_next Hk 32.
  pose proof (tail_at_0 (t ++ b ++ [])) as Hv. pose proof Hv as Hv'. tail_next Hv' 32.
  rewrite !app_nil_r in Hk, Hv, Hv'.
  rewrite (tail_at_get_until _ 32 (to_le 4 i) [] 36), (tail_at_get_until _ 0 t b 32),
    (tail_at_get_until _ 32 b [] 64) by (rewrite ?app_nil_r, ?len_to_le, ?len_hash by done; done).
  cbn [expect mbind outcome_bind]. by rewrite from_le_to_le by done.
Qed.

Lemma read_spends h l : ∀ results,
  hash_ok h → Forall spend_ok l → for_each read_spend (map (spend_item h) l) results = Ok (results ++ l).
Proof.
  induction l as [|x l IH]; intros results Hh Hl; cbn [map for_each]; [by rewrite app_nil_r|].
  apply Forall_cons in Hl as [Hx Hl]. rewrite read_spend_spec by done. cbn [mbind outcome_bind].
  by rewrite IH, <- app_assoc.
Qed.

(** A list of items whose members have a form is the image of a list. *)
Lemma items_of {A} (item : A → bytes * bytes) (ok : A → Prop) l :
  (∀ y, y ∈ l → ∃ x, ok x ∧ item x = y) → ∃ k, l = map item k ∧ Forall ok k.
Proof.
  induction l as [|y l IH]; intros Hl; [by exists []|].
  destruct (Hl y) as (x & Hx & Hy); [by left|].
  destruct IH as (k & -> & Hk); [intros z Hz; apply Hl; by right|].
  exists (x :: k). cbn [map]. rewrite Hy. by split; [|constructor].
Qed.

(** The members of the image, for a map that is injective on them. *)
Lemma elem_of_items_map {A} (item : A → bytes * bytes) (ok : A → Prop) k x :
  (∀ x y, ok x → ok y → item x = item y → x = y) → Forall ok k → ok x →
  item x ∈ map item k ↔ x ∈ k.
Proof.
  intros Hinj Hk Hx. rewrite Forall_forall in Hk. split; [|by apply list_elem_of_fmap_2].
  intros (y & He & Hy)%list_elem_of_fmap_1. by rewrite (Hinj x y) by auto.
Qed.

Lemma NoDup_items {A} (item : A → bytes * bytes) k :
  StronglySorted (λ x y, bytes_ltb x.1 y.1 = true) (map item k) → NoDup k.
Proof.
  intros Hs. apply (sorted_NoDup fst) in Hs. rewrite map_map in Hs.
  by apply NoDup_fmap_1 in Hs.
Qed.

Lemma get_tx_spends_spec d h :
  spends_ok d → hash_ok h →
  ∃ l, get_tx_spends d h = Ok l ∧ NoDup l ∧
    ∀ x, x ∈ l ↔ spend_ok x ∧ contents (TXSPENDS_DB d) !! (spend_item h x).1 = Some (spend_item h x).2.
Proof.
  intros Hd Hh. destruct (items_of (spend_item h) spend_ok (prefix_iterator (TXSPENDS_DB d) h)) as (l & Hl & Hok).
  { intros [k v] [Hc [y ->]]%prefix_iterator_spec. destruct (Hd _ _ Hc) as [Hk Hv].
    rewrite len_app, len_hash in Hk by done.
    exists (from_le y, take 32 v, drop 32 v). unfold spend_item, spend_ok, hash_ok, len in *.
    rewrite length_take, length_drop, take_drop, to_le_from_le by lia.
    split_and!; [|lia..|done]. pose proof (from_le_range y) as Hy. unfold len in Hy. unfold in_u32.
    by replace (8 * Z.of_nat (length y)) with 32 in Hy by lia. }
  exists l. unfold get_tx_spends. rewrite Hl, read_spends by done. split_and!; [done| |].
  - apply (NoDup_items (spend_item h)). rewrite <- Hl. apply prefix_iterator_sorted.
  - intros x. pose proof (prefix_iterator_spec (TXSPENDS_DB d) h (spend_item h x).1 (spend_item h x).2) as Hx.
    rewrite <- surjective_pairing, Hl in Hx. split.
    + intros Hin. split; [by eapply Forall_forall in Hok|]. by apply Hx, list_elem_of_fmap_2.
    + intros [Hxok Hc]. apply (elem_of_items_map (spend_item h) spend_ok); [apply spend_item_inj|done..|].
      apply Hx. split; [done|]. destruct x as [[i t] b]. by eexists.
Qed.

(** ** Entries of an address *)

(** An entry of an address: when, in which transaction and in which block its
    balance changed, and by how much. *)
Record AddressRow := mkAddressRow {
  row_time : Z;
  row_tx : hash;
  row_block : hash;
  row_delta : Z;
}.

Definition row_ok (r : AddressRow) : Prop :=
  in_u64 (row_time r) ∧ hash_ok (row_tx r) ∧ hash_ok (row_block r) ∧ in_i64 (row_delta r).

Definition row_item (address : bytes) (r : AddressRow) : bytes * bytes :=
  (address_entry address (row_time r) (row_tx r), row_block r ++ to_le 8 (wrap64 (row_delta r))).

Definition row_result (r : AddressRow) : hash * hash * Z := (row_tx r, row_block r, row_delta r).

(** Newer rows come first, those of one time by the hash of the transaction. *)
Definition row_before (r s : AddressRow) : Prop :=
  row_time s < row_time r ∨ (row_time r = row_time s ∧ bytes_ltb (row_tx r) (row_tx s) = true).

Definition stored_row (d : Databases) (address : bytes) (r : AddressRow) : Prop :=
  contents (ADDRESSES_DB d) !! (row_item address r).1 = Some (row_item address r).2.

(** All keys from the address on, up to its last one, are entries of this address:
    none of another address, whose key is longer, is among them. *)
Definition own_range (d : Databases) (address : bytes) : Prop :=
  ∀ k v, contents (ADDRESSES_DB d) !! k = Some v → bytes_leb (address ++ to_be 8 0) k = true →
    bytes_ltb k (address ++ to_be 8 u64_max) = true → ∃ r, row_ok r ∧ row_item address r = (k, v).

Lemma as_i64_wrap64 z : in_i64 z → as_i64 (wrap64 z) = z.
Proof.
  intros Hz. unfold as_i64. rewrite wrap64_wrap64. unfold in_i64, wrap64 in *.
  destruct (Z.ltb_spec (z mod 2 ^ 64) (2 ^ 63)); Z.div_mod_to_equations; lia.
Qed.

Lemma inv_range t : in_u64 t → in_u64 (u64_max - t).
Proof. unfold in_u64, u64_max. lia. Qed.

#[local] Hint Resolve inv_range : core.

Lemma row_item_inj address r s :
  row_ok r → row_ok s → row_item address r = row_item address s → r = s.
Proof.
  destruct r as [t x b z], s as [u y c w]. intros (Ht & Hx & Hb & Hz) (Hu & Hy & Hc & Hw).
  unfold row_item, address_entry. cbn in *. intros [= He1 He2]. apply app_inv_head in He1.
  apply app_inj_1 in He1 as [He3 ->]; [|by rewrite !length_to_be].
  apply app_inj_1 in He2 as [-> He4]; [|unfold hash_ok in *; congruence].
  apply (f_equal from_be) in He3. rewrite !from_be_to_be in He3 by (by apply inv_range).
  apply (f_equal from_le) in He4. rewrite !from_le_to_le in He4 by apply wrap64_range.
  apply (f_equal as_i64) in He4. rewrite !as_i64_wrap64 in He4 by done. f_equal; [lia|done].
Qed.

(** Keys with the inverted time sort like the times, downwards. *)
Lemma entry_from_spec address t x u :
  in_u64 t → in_u64 u → hash_ok x →
  bytes_leb (address ++ to_be 8 (u64_max - u)) (address_entry address t x) = true ↔ t <= u.
Proof.
  intros Ht Hu Hx. unfold address_entry. rewrite bytes_leb_cmp, bytes_cmp_prefix.
  change (2 ^ 64 - 1) with u64_max. rewrite <- (app_nil_r (to_be 8 (u64_max - u))).
  rewrite bytes_cmp_app, bytes_cmp_to_be by (rewrite ?length_to_be; by try apply inv_range).
  destruct (Z.compare_spec (u64_max - u) (u64_max - t)); 
    destruct x; split; intros Hc; (done || lia).
Qed.

Lemma entry_until_spec address t x u :
  in_u64 t → in_u64 u → hash_ok x →
  bytes_ltb (address_entry address t x) (address ++ to_be 8 (u64_max - u)) = true ↔ u < t.
Proof.
  intros Ht Hu Hx. unfold bytes_ltb. rewrite negb_true_iff, <- not_true_iff_false.
  rewrite entry_from_spec by done. lia.
Qed.

Lemma row_before_key address r s :
  row_ok r → row_ok s →
  bytes_ltb (row_item address r).1 (row_item address s).1 = true ↔ row_before r s.
Proof.
  intros (Ht & Hx & _) (Hu & Hy & _). cbn [row_item fst]. unfold address_entry, row_before.
  change (2 ^ 64 - 1) with u64_max. rewrite !bytes_ltb_cmp, bytes_cmp_prefix.
  rewrite bytes_cmp_app, bytes_cmp_to_be by (rewrite ?length_to_be; by try apply inv_range).
  destruct (Z.compare_spec (u64_max - row_time r) (u64_max - row_time s)); split; intros Hc; (done || lia || auto).
  - right. split; [lia|done].
  - by destruct Hc as [?|[_ ?]]; [lia|].
Qed.

Lemma len_entry address t x : hash_ok x → len (address_entry address t x) = len address + 40.
Proof. intros Hx. unfold address_entry. rewrite !len_app, len_to_be, (len_hash x) by done. lia. Qed.

Lemma expected_key_len (address : bytes) : len address <= 2 ^ 61 → len address +! 8 +! 32 = len address + 40.
Proof. intros Ha. pose proof (len_nonneg address). unwrap. lia. Qed.

Lemma read_address_entry_spec address r :
  len address <= 2 ^ 61 → row_ok r →
  read_address_entry (len address +! 8 +! 32) (row_item address r) = Ok (row_result r).
Proof.
  intros Ha (Ht & Hx & Hb & Hz). unfold read_address_entry, row_item, slice_idx, assert_eq, row_result.
  rewrite expected_key_len, len_entry by done.
  assert (len (row_block r ++ to_le 8 (wrap64 (row_delta r))) = 40) as ->
    by (rewrite len_app, len_to_le, len_hash by done; done).
  rewrite !Z.eqb_refl. cbn [mbind outcome_bind].
  pose proof (tail_at_0 (address_entry address (row_time r) (row_tx r) ++ [])) as Hk.
  unfold address_entry in Hk at 2. rewrite <- !app_assoc in Hk. tail_next Hk (len address).
  tail_next Hk (len address + 8). rewrite app_nil_r in Hk.
  pose proof (tail_at_0 (row_block r ++ to_le 8 (wrap64 (row_delta r)) ++ [])) as Hv.
  pose proof Hv as Hv'. tail_next Hv' 32. rewrite !app_nil_r in Hv, Hv'.
  rewrite (tail_at_get_until _ (len address + 40 - 32) (row_tx r) [] (len address + 40)).
  2: { by replace (len address + 40 - 32) with (len address + 8) by lia. }
  2: { rewrite (len_hash (row_tx r)) by done. lia. }
  rewrite (tail_at_get_until _ 0 (row_block r) (to_le 8 (wrap64 (row_delta r))) 32) by (rewrite ?len_hash by done; done).
  rewrite (tail_at_get_until _ 32 (to_le 8 (wrap64 (row_delta r))) [] 40) by (rewrite ?app_nil_r, ?len_to_le; done).
  cbn [expect mbind outcome_bind]. rewrite from_le_to_le by apply wrap64_range. by rewrite as_i64_wrap64.
Qed.

(** The loop stops at the limit; a limit that is never met, as 0, is none. *)
Definition limited {A} (limit : Z) (l : list A) : list A :=
  if limit <=? 0 then l else take (Z.to_nat limit) l.

Lemma read_address_entries_spec address limit rows : ∀ results,
  len address <= 2 ^ 61 → Forall row_ok rows → (limit <= 0 ∨ len results < limit) →
  read_address_entries (len address +! 8 +! 32) limit (map (row_item address) rows) results
  = Ok (results ++ map row_result (limited (if limit <=? 0 then 0 else limit - len results) rows)).
Proof.
  induction rows as [|r rows IH]; intros results Ha Hr Hl; cbn [map read_address_entries].
  - unfold limited. case_match; by rewrite ?take_nil, app_nil_r.
  - apply Forall_cons in Hr as [Hr Hrows]. rewrite read_address_entry_spec by done. cbn [mbind outcome_bind].
    pose proof (len_nonneg results) as Hn. rewrite len_app. change (len [row_result r]) with 1.
    destruct (Z.eqb_spec (len results + 1) limit) as [He|He].
    + rewrite (proj2 (Z.leb_gt limit 0)) by lia. unfold limited.
      rewrite (proj2 (Z.leb_gt _ 0)) by lia. by replace (limit - len results) with 1 by lia.
    + rewrite IH by (done || (rewrite len_app; change (len [row_result r]) with 1; lia)).
      rewrite len_app, <- app_assoc. change (len [row_result r]) with 1. do 2 f_equal. unfold limited.
      destruct (Z.leb_spec limit 0); [done|]. rewrite !(proj2 (Z.leb_gt _ 0)) by lia.
      by replace (Z.to_nat (limit - len results)) with (S (Z.to_nat (limit - (len results + 1)))) by lia.
Qed.

(** The rows an iterator goes over. *)
Lemma rows_between d address lo hi :
  own_range d address →
  bytes_leb (address ++ to_be 8 0) lo = true → bytes_leb hi (address ++ to_be 8 u64_max) = true →
  ∃ rows, iterate (ADDRESSES_DB d) lo hi = map (row_item address) rows ∧ Forall row_ok rows ∧
    StronglySorted row_before rows ∧
    ∀ r, r ∈ rows ↔ row_ok r ∧ stored_row d address r ∧
      bytes_leb lo (row_item address r).1 = true ∧ bytes_ltb (row_item address r).1 hi = true.
Proof.
  intros Hown Hlo Hhi.
  destruct (items_of (row_item address) row_ok (iterate (ADDRESSES_DB d) lo hi)) as (rows & Hrows & Hok).
  { intros [k v] (Hc & Hl & Hh)%iterate_spec. apply Hown; [done|by eapply bytes_leb_trans|].
    by eapply bytes_ltb_leb_trans. }
  exists rows. split_and!; [done..| |].
  - pose proof (iterate_sorted (ADDRESSES_DB d) lo hi) as Hs. rewrite Hrows in Hs. clear Hrows.
    induction Hok as [|r rows Hr Hok IH]; [constructor|]. cbn [map] in Hs.
    apply StronglySorted_inv in Hs as [Hs Hr']. constructor; [by apply IH|].
    rewrite Forall_forall in Hr'. rewrite Forall_forall in Hok. rewrite Forall_forall. intros s Hin. apply (row_before_key address); [done|by apply Hok|].
    apply (Hr' (row_item address s)). by apply list_elem_of_fmap_2.
  - intros r. pose proof (iterate_spec (ADDRESSES_DB d) lo hi (row_item address r).1 (row_item address r).2) as Hr.
    rewrite <- surjective_pairing, Hrows in Hr. split.
    + intros Hin. split; [by eapply Forall_forall in Hok|]. by apply Hr, list_elem_of_fmap_2.
    + intros [Hrok Hc]. apply (elem_of_items_map (row_item address) row_ok); [apply row_item_inj|done..|].
      by apply Hr.
Qed.

Lemma low_bound address u : in_u64 u → bytes_leb (address ++ to_be 8 0) (address ++ to_be 8 u) = true.
Proof.
  intros Hu. rewrite bytes_leb_cmp, bytes_cmp_prefix, bytes_cmp_to_be by (done || split; done).
  destruct (Z.compare_spec 0 u); [done..|]. destruct Hu. lia.
Qed.

Lemma high_bound address u : in_u64 u → bytes_leb (address ++ to_be 8 u) (address ++ to_be 8 u64_max) = true.
Proof.
  intros Hu. rewrite bytes_leb_cmp, bytes_cmp_prefix, bytes_cmp_to_be by (done || split; done).
  destruct (Z.compare_spec u u64_max); [done..|]. unfold in_u64, u64_max in *. lia.
Qed.

Lemma rows_in_time d address from to :
  own_range d address → in_u64 from → in_u64 to →
  ∃ rows, iterate (ADDRESSES_DB d) (address ++ to_be 8 (u64_max - to)) (address ++ to_be 8 (u64_max - from))
      = map (row_item address) rows ∧ Forall row_ok rows ∧ StronglySorted row_before rows ∧
    ∀ r, r ∈ rows ↔ row_ok r ∧ stored_row d address r ∧ from < row_time r <= to.
Proof.
  intros Hown Hf Ht.
  destruct (rows_between d address (address ++ to_be 8 (u64_max - to)) (address ++ to_be 8 (u64_max - from)))
    as (rows & Hi & Hok & Hs & Hr); [done|by apply low_bound, inv_range|by apply high_bound, inv_range|].
  exists rows. split_and!; [done..|]. intros r. rewrite Hr. split.
  - intros (Hrok & Hst & Hlo & Hhi). split_and!; [done..| |]; destruct Hrok as (Hrt & Hx & _).
    + by apply (entry_until_spec address (row_time r) (row_tx r)) in Hhi.
    + by apply (entry_from_spec address (row_time r) (row_tx r)) in Hlo.
  - intros (Hrok & Hst & Hlo & Hhi). split_and!; [done..| |]; destruct Hrok as (Hrt & Hx & _).
    + by apply (entry_from_spec address (row_time r) (row_tx r)).
    + by apply (entry_until_spec address (row_time r) (row_tx r)).
Qed.

Lemma limited_le {A} limit (l : list A) : limited (if limit <=? 0 then 0 else limit - 0) l = limited limit l.
Proof. unfold limited. rewrite Z.sub_0_r. by destruct (Z.leb_spec limit 0) as [|Hl%Z.leb_gt]; [|rewrite Hl]. Qed.

(** An iterator that starts at a key another one passes goes on like that. *)
Lemma iterate_suffix d lo hi pre x post :
  iterate d lo hi = pre ++ x :: post → iterate d x.1 hi = x :: post.
Proof.
  intros Hi. pose proof (iterate_sorted d lo hi) as Hs. rewrite Hi in Hs.
  apply StronglySorted_app in Hs as (Hlt & _ & Hs).
  apply (sorted_unique fst); [apply iterate_sorted|done|]. intros [k v].
  assert ((k, v) ∈ iterate d lo hi ↔ (k, v) ∈ pre ++ x :: post) as Hin by (by rewrite Hi).
  rewrite iterate_spec, elem_of_app in Hin. rewrite iterate_spec.
  assert (x ∈ iterate d lo hi) as Hx by (rewrite Hi; apply elem_of_app; right; by left).
  destruct x as [k0 v0]. apply iterate_spec in Hx as (_ & Hlo & _). cbn [fst]. split.
  - intros (Hc & Hle & Hh). destruct (proj1 Hin) as [Hp|]; [|exfalso|done].
    + split_and!; [done|by eapply bytes_leb_trans|done].
    + specialize (Hlt _ (k0, v0) Hp ltac:(by left)). cbn in Hlt. unfold bytes_ltb in Hlt. by rewrite Hle in Hlt.
  - intros Hp. destruct (proj2 Hin (or_intror Hp)) as (Hc & _ & Hh). split_and!; [done| |done].
    apply elem_of_cons in Hp as [[= -> ->]|Hp]; [apply bytes_leb_refl|].
    apply StronglySorted_inv in Hs as [_ Hs]. rewrite Forall_forall in Hs. by apply bytes_ltb_leb, (Hs (k, v)).
Qed.

(** The query for the next page goes on after the last row of the page before. *)
Lemma continue_spec d address pre r post limit to :
  len address <= 2 ^ 61 → in_u64 to → Forall row_ok (pre ++ r :: post) →
  iterate (ADDRESSES_DB d) (address ++ to_be 8 (u64_max - to)) (address ++ to_be 8 (u64_max - 0))
    = map (row_item address) (pre ++ r :: post) →
  get_address_entires_continue d address (row_tx r) (row_time r) limit
    = Ok (map row_result (limited limit post)).
Proof.
  intros Ha Ht Hok Hi. rewrite map_app in Hi. cbn [map] in Hi. apply iterate_suffix in Hi.
  unfold get_address_entires_continue. change (u64_max - 0) with u64_max in Hi.
  change (address ++ to_be 8 (u64_max - row_time r) ++ row_tx r) with (row_item address r).1. rewrite Hi. cbn [tail].
  apply Forall_app in Hok as [_ [_ Hok]%Forall_cons].
  rewrite read_address_entries_spec; [|done..|change (len (@nil (hash * hash * Z))) with 0; lia].
  change (len (@nil (hash * hash * Z))) with 0. by rewrite limited_le.
Qed.

(** ** The totals of an address *)

(** The values the deltas below 0, and those from 0 on, add up to. *)
Definition total_spent (rows : list AddressRow) : Z := sumZ (map (λ r, Z.max 0 (- row_delta r)) rows).
Definition total_received (rows : list AddressRow) : Z := sumZ (map (λ r, Z.max 0 (row_delta r)) rows).

Definition top_state (top_count : Z) (rows : list AddressRow) : TopAddressData :=
  mkTopAddressData (map row_result (take (Z.to_nat top_count) rows)) (wrap64 (len rows))
    (wrap64 (total_spent rows)) (wrap64 (total_received rows))
    (match last rows with Some r => row_time r | None => 0 end).

Lemma sumZ_app l k : sumZ (l ++ k) = sumZ l + sumZ k.
Proof. induction l as [|x l IH]; cbn; [done|]. unfold sumZ in *. lia. Qed.

Lemma wrap64_neg z : in_i64 z → z < 0 → wrap64 (neg_i64 z) = - z.
Proof.
  intros Hz Hn. unfold neg_i64, as_i64, wrap64, in_i64 in *.
  rewrite (Z.mod_small (- z)) by lia. destruct (Z.ltb_spec (- z) (2 ^ 63)); [by rewrite Z.mod_small by lia|].
  by replace z with (- 2 ^ 63) by lia.
Qed.

Lemma total_spent_snoc rows r : total_spent (rows ++ [r]) = total_spent rows + Z.max 0 (- row_delta r).
Proof. unfold total_spent. rewrite map_app, sumZ_app. cbn. lia. Qed.

Lemma total_received_snoc rows r : total_received (rows ++ [r]) = total_received rows + Z.max 0 (row_delta r).
Proof. unfold total_received. rewrite map_app, sumZ_app. cbn. lia. Qed.

Lemma add_delta s r z :
  in_i64 z →
  (if z <? 0 then (wrap64 s +! wrap64 (neg_i64 z), wrap64 r) else (wrap64 s, wrap64 r +! z))
  = (wrap64 (s + Z.max 0 (- z)), wrap64 (r + Z.max 0 z)).
Proof.
  intros Hz. destruct (Z.ltb_spec z 0) as [Hn|Hn].
  - rewrite wrap64_neg, wrap64_add_l by done. do 2 f_equal; lia.
  - rewrite wrap64_add_l. do 2 f_equal; lia.
Qed.

Lemma top_entry_spec address top_count rows r :
  len address <= 2 ^ 61 → 0 <= top_count → row_ok r →
  top_entry (len address) top_count (top_state top_count rows) (row_item address r)
  = Ok (top_state top_count (rows ++ [r])).
Proof.
  intros Ha Hc Hr. unfold top_entry. rewrite read_address_entry_spec by done.
  cbn [row_result mbind outcome_bind]. destruct Hr as (Ht & Hx & Hb & Hz).
  pose proof (len_nonneg address). rewrite (wrap64_small (len address + 8)) by mlia.
  pose proof (tail_at_0 (address_entry address (row_time r) (row_tx r))) as Hk.
  unfold address_entry in Hk at 2. tail_next Hk (len address). unfold slice_idx.
  cbn [row_item fst]. rewrite (tail_at_get_until _ _ _ _ (len address + 8) Hk) by (rewrite len_to_be; done).
  cbn [expect mbind outcome_bind]. change (2 ^ 64 - 1) with u64_max. rewrite from_be_to_be by (by apply inv_range).
  unfold top_state. cbn [ta_transactions ta_total_txs ta_total_spent ta_total_received].
  rewrite add_delta by done. rewrite last_snoc, total_spent_snoc, total_received_snoc, len_app.
  change (len [r]) with 1. rewrite (wrap64_add_l (len rows) 1).
  rewrite len_map. unfold len at 1. rewrite length_take. do 2 f_equal; [|unfold u64_max; lia].
  destruct (Z.ltb_spec (Z.of_nat (Z.to_nat top_count `min` length rows)) top_count) as [Hlt|Hge].
  - rewrite !take_ge by (rewrite ?length_app; cbn; lia). by rewrite map_app.
  - by rewrite take_app_le by lia.
Qed.

Lemma top_entries_spec address top_count l : ∀ rows,
  len address <= 2 ^ 61 → 0 <= top_count → Forall row_ok l →
  for_each (top_entry (len address) top_count) (map (row_item address) l) (top_state top_count rows)
  = Ok (top_state top_count (rows ++ l)).
Proof.
  induction l as [|r l IH]; intros rows Ha Hc Hl; cbn [map for_each]; [by rewrite app_nil_r|].
  apply Forall_cons in Hl as [Hr Hl]. rewrite top_entry_spec by done. cbn [mbind outcome_bind].
  by rewrite IH, <- app_assoc.
Qed.

(** ** A key of a longer address *)

(** A loop of steps that succeed or panic panics where a step has to. *)
Lemma for_each_panics {A S} (f : S → A → outcome S) l s x :
  (∀ s x, (∃ s', f s x = Ok s') ∨ ∃ m, f s x = Panic m) →
  x ∈ l → (∀ s, ∃ m, f s x = Panic m) → ∃ m, for_each f l s = Panic m.
Proof.
  intros Hf Hx Hp. revert s. induction l as [|y l IH]; intros s; [by apply elem_of_nil in Hx|].
  cbn [for_each]. destruct (Hf s y) as [[s' Hs']|[m Hm]].
  - rewrite Hs'. cbn [mbind outcome_bind]. apply elem_of_cons in Hx as [<-|Hx]; [|by apply IH].
    destruct (Hp s) as [m Hm]. by rewrite Hm in Hs'.
  - rewrite Hm. by eexists.
Qed.

Lemma slice_idx_outcome b i j : (∃ x, slice_idx b i j = Ok x) ∨ ∃ m, slice_idx b i j = Panic m.
Proof. unfold slice_idx. destruct (slice_get b i j); [left|right]; by eexists. Qed.

Lemma top_entry_outcome n top_count s x :
  (∃ s', top_entry n top_count s x = Ok s') ∨ ∃ m, top_entry n top_count s x = Panic m.
Proof.
  unfold top_entry, read_address_entry, assert_eq. destruct x as [key value]. cbn [fst].
  destruct (_ =? len key); [|right; by eexists]. destruct (_ =? len value); [|right; by eexists].
  cbn [mbind outcome_bind].
  repeat match goal with
  | |- context [slice_idx ?b ?i ?j] =>
      destruct (slice_idx_outcome b i j) as [[? ->]|[? ->]]; cbn [mbind outcome_bind]; [|right; by eexists]
  end.
  left. destruct (as_i64 _ <? 0); by eexists.
Qed.

Lemma foreign_key_in_range address x t h :
  8 <= len x → take 8 x ≠ to_be 8 u64_max →
  bytes_leb (address ++ to_be 8 0) (address_entry (address ++ x) t h) = true ∧
  bytes_ltb (address_entry (address ++ x) t h) (address ++ to_be 8 u64_max) = true.
Proof.
  intros Hx Hne. unfold address_entry. rewrite <- app_assoc. rewrite <- (take_drop 8 x), <- app_assoc.
  assert (length (take 8 x) = 8%nat) as Hl by (rewrite length_take; unfold len in Hx; lia).
  assert (take 8 x = to_be 8 (from_be (take 8 x))) as Hb.
  { by rewrite to_be_from_be. }
  pose proof (from_be_range (take 8 x)) as Hr. unfold len in Hr. rewrite Hl in Hr.
  change (8 * Z.of_nat 8) with 64 in Hr. remember (from_be (take 8 x)) as v eqn:Hv.
  assert (v ≠ u64_max) by (intros ->; done). rewrite Hb.
  rewrite bytes_leb_cmp, bytes_ltb_cmp, !bytes_cmp_prefix.
  rewrite <- (app_nil_r (to_be 8 0)), <- (app_nil_r (to_be 8 u64_max)).
  rewrite !bytes_cmp_app, !bytes_cmp_to_be by (rewrite ?length_to_be; done).
  unfold u64_max in *. rewrite (proj2 (Z.compare_lt_iff v _)) by lia. split; [|done].
  destruct (Z.compare_spec 0 v); [|done|lia]. by destruct (drop 8 x ++ to_be 8 (2 ^ 64 - 1 - t) ++ h).
Qed.

Lemma batch_written `{UnstableSort} {M} d blocks txs asciis (metrics : list M) a :
  batch_ok blocks txs → length asciis = length blocks → length metrics = length blocks →
  arena_wf a → batch_need blocks txs <= free a →
  Forall (λ ts, Forall entry_ok ts ∧ size_of RBlockTxEntry * len ts <= isize_max) txs →
  ∃ d' a', write_analyzed_txs d blocks txs asciis metrics a
      = Ok (d', (zip blocks asciis, zip blocks metrics), a') ∧
    (∀ i h ts, blocks !! i = Some h → txs !! i = Some ts →
       get_block_tx_entries d' h = Ok (map tx_entry ts)) ∧
    (∀ h, h ∉ blocks → get_block_tx_entries d' h = get_block_tx_entries d h) ∧
    written_txs st_analyzed_tx (TXS_DB d) (TXS_DB d') (concat txs) ∧
    written_txs st_tx_outs (TXOUTS_DB d) (TXOUTS_DB d') (concat txs) ∧
    written (TXSPENDS_DB d) (TXSPENDS_DB d') (all_spends blocks txs) ∧
    written (ADDRESSES_DB d) (ADDRESSES_DB d') (all_amends blocks txs).
Proof.
  intros Hb Hasc Hmet Hwf Hf Htxs.
  pose proof (bo_formed _ _ Hb) as Hbf. pose proof (bf_len _ _ Hbf) as Hlen.
  destruct (write_batch_spec d blocks txs asciis metrics a) as (a' & Hw); [done..|].
  destruct (write_batch_ok d blocks txs Hb) as [[Hin Hout] Hrest].
  eexists _, a'. split_and!; [exact Hw| | |apply Hrest..].
  - intros i h ts Hi Hts. pose proof (list_elem_of_lookup_2 _ _ _ Hts) as Hmem.
    assert ((ts, h) ∈ zip txs blocks) as Hz.
    { apply list_elem_of_lookup_2 with i. by rewrite lookup_zip_with, Hts, Hi. }
    destruct (proj1 (Forall_forall _ _) Htxs ts Hmem) as [Hok Hcap].
    apply block_entries_read; [|done| |done].
    + apply Hin. apply (list_elem_of_fmap_2 block_pair _ _ Hz).
    + assert (len (block_bytes ts) <= total_cost block_cost (zip txs blocks)) as Hle.
      { apply (total_cost_in block_cost _ (ts, h)); [|done]. intros x. apply len_nonneg. }
      unfold batch_need in Hf. pose proof (array_room_nonneg RBlockTxs _ (len_nonneg blocks)).
      pose proof (array_room_nonneg RRefSerializedTx _ (len_nonneg (concat txs))).
      pose proof (array_room_nonneg RTxSpend _ (len_nonneg (concat (map (parts st_spent_txos) (concat txs))))).
      pose proof (array_room_nonneg RAmendEntry _ (len_nonneg (concat (map (parts st_address_amends) (concat txs))))).
      unfold spends_count, amends_count in Hf. unfold free, arena_wf, isize_max in *. lia.
  - intros h Hh. unfold get_block_tx_entries, with_data. rewrite !get_pinned_spec, Hout; [done|].
    rewrite map_map. change (map _ (zip txs blocks)) with ((zip txs blocks).*2). by rewrite snd_zip by lia.
Qed.

(** * Properties *)

(** Writing a batch of analyzed blocks whose keys do not clash succeeds. Afterwards the
    query of a block gives its transactions, the databases of transactions and of
    outputs have a value for the hash of every transaction, that of spends has for
    every spent output the transaction and the block, and that of addresses one entry
    per address and transaction; all other keys keep their values, and the blocks are
    marked as downloaded. *)
Theorem batch_queried `{UnstableSort} {M} d blocks txs asciis (metrics : list M) a :
  batch_ok blocks txs → length asciis = length blocks → length metrics = length blocks →
  arena_wf a → batch_need blocks txs <= free a →
  Forall (λ ts, Forall entry_ok ts ∧ size_of RBlockTxEntry * len ts <= isize_max) txs →
  ∃ d' a', write_analyzed_txs d blocks txs asciis metrics a
      = Ok (d', (zip blocks asciis, zip blocks metrics), a') ∧
    (∀ i h ts, blocks !! i = Some h → txs !! i = Some ts →
       get_block_tx_entries d' h = Ok (map tx_entry ts)) ∧
    (∀ h, h ∉ blocks → get_block_tx_entries d' h = get_block_tx_entries d h) ∧
    written_txs st_analyzed_tx (TXS_DB d) (TXS_DB d') (concat txs) ∧
    written_txs st_tx_outs (TXOUTS_DB d) (TXOUTS_DB d') (concat txs) ∧
    written (TXSPENDS_DB d) (TXSPENDS_DB d') (all_spends blocks txs) ∧
    written (ADDRESSES_DB d) (ADDRESSES_DB d') (all_amends blocks txs).
Proof. apply batch_written. Qed.

(** The transactions that spend outputs of a transaction: each once, all those of
    the database, and no other. *)
Theorem spends_queried d h :
  spends_ok d → hash_ok h →
  ∃ l, get_tx_spends d h = Ok l ∧ NoDup l ∧
    ∀ i t b, (i, t, b) ∈ l ↔
      in_u32 i ∧ hash_ok t ∧ hash_ok b ∧ contents (TXSPENDS_DB d) !! (h ++ to_le 4 i) = Some (t ++ b).
Proof.
  intros Hd Hh. destruct (get_tx_spends_spec d h Hd Hh) as (l & Hl & Hnd & Hin).
  exists l. split_and!; [done..|]. intros i t b. rewrite Hin. cbn. tauto.
Qed.

Lemma read_address_entry_outcome n item : (∃ r, read_address_entry n item = Ok r) ∨ ∃ m, read_address_entry n item = Panic m.
Proof.
  unfold read_address_entry, assert_eq. destruct item as [key value].
  destruct (_ =? len key); [|right; by eexists]. destruct (_ =? len value); [|right; by eexists].
  cbn [mbind outcome_bind].
  repeat match goal with
  | |- context [slice_idx ?b ?i ?j] =>
      destruct (slice_idx_outcome b i j) as [[? ->]|[? ->]]; cbn [mbind outcome_bind]; [|right; by eexists]
  end.
  left. by eexists.
Qed.

(** Without a limit every entry is read, and one with a key of another length panics. *)
Lemma read_entries_panics n items : ∀ results x,
  x ∈ items → len x.1 ≠ n → ∃ m, read_address_entries n 0 items results = Panic m.
Proof.
  induction items as [|item items IH]; intros results x Hx Hn; [by apply elem_of_nil in Hx|]. cbn [read_address_entries].
  destruct (read_address_entry_outcome n item) as [[entry Hr]|[m Hm]]; [|exists m; by rewrite Hm].
  rewrite Hr. cbn [mbind outcome_bind]. rewrite len_app. change (len [entry]) with 1. pose proof (len_nonneg results).
  rewrite (proj2 (Z.eqb_neq _ 0)) by lia. apply elem_of_cons in Hx as [<- |Hx]; [|by apply (IH _ x)].
  unfold read_address_entry in Hr. destruct x as [key value]. unfold assert_eq in Hr. cbn in Hn.
  by rewrite (proj2 (Z.eqb_neq n (len key))) in Hr.
Qed.

(** C17. The entries of an address between two times, the earlier one excluded and the later one included: those of the database,
    newest first, up to the limit on their number; a limit of 0 is none. This is so if all keys from that of the
    address on, up to its last one, are its own, and not of longer addresses that begin with it: if one between those of the two
    times is, the assertion on the length of the keys panics, and the query without a limit fails. *)
Theorem address_query d address from to :
  len address <= 2 ^ 61 → in_u64 from → in_u64 to →
  (own_range d address →
   ∃ rows, StronglySorted row_before rows ∧
     (∀ r, r ∈ rows ↔ row_ok r ∧ stored_row d address r ∧ from < row_time r <= to) ∧
     ∀ limit, 0 <= limit →
       get_address_entires d address from to limit = Ok (map row_result (limited limit rows))) ∧
  (∀ k v, contents (ADDRESSES_DB d) !! k = Some v → bytes_leb (address ++ to_be 8 (u64_max - to)) k = true →
     bytes_ltb k (address ++ to_be 8 (u64_max - from)) = true → len k ≠ len address + 40 →
     ∃ e, get_address_entires d address from to 0 = Err e).
Proof.
  intros Ha Hf Ht. split.
  - intros Hown. destruct (rows_in_time d address from to) as (rows & Hi & Hok & Hs & Hr); [done..|].
    exists rows. split_and!; [done..|]. intros limit Hl. unfold get_address_entires. rewrite Hi.
    rewrite read_address_entries_spec; [|done..|change (len (@nil (hash * hash * Z))) with 0; lia].
    change (len (@nil (hash * hash * Z))) with 0. by rewrite limited_le.
  - intros k v Hk Hlo Hhi Hlen. unfold get_address_entires. pose proof (len_nonneg address). rewrite expected_key_len by lia.
    destruct (read_entries_panics (len address + 40) _ [] (k, v) ltac:(apply iterate_spec; split_and!; [exact Hk|exact Hlo|exact Hhi]) Hlen)
      as [m ->]. by eexists.
Qed.

(** The pages of an address fit together: continuing after an entry gives the
    entries that come after it in the answer of the query. *)
Theorem address_pages d address to :
  len address <= 2 ^ 61 → in_u64 to → own_range d address →
  ∃ rows, get_address_entires d address 0 to 0 = Ok (map row_result rows) ∧
    ∀ i r limit, rows !! i = Some r →
      get_address_entires_continue d address (row_tx r) (row_time r) limit
      = Ok (map row_result (limited limit (drop (S i) rows))).
Proof.
  intros Ha Ht Hown. destruct (rows_in_time d address 0 to) as (rows & Hi & Hok & _ & _); [done..|].
  exists rows. split.
  - unfold get_address_entires. rewrite Hi. rewrite read_address_entries_spec by (done || by left).
    done.
  - intros i r limit Hr. apply list_elem_of_split_length in Hr as (pre & post & -> & ->).
    assert (drop (S (length pre)) (pre ++ r :: post) = post) as ->
      by (by rewrite cons_middle, app_assoc, drop_app_length' by (rewrite length_app; simpl; lia)).
    by apply (continue_spec d address pre r post limit to).
Qed.

(** The summary of an address: its newest entries, their number, what they take from
    it and give to it in total, and the time of the oldest one. *)
Theorem top_address_data d address top_count :
  len address <= 2 ^ 61 → 0 <= top_count → own_range d address →
  ∃ rows, get_top_address_data d address top_count = Ok (top_state top_count rows) ∧
    StronglySorted row_before rows ∧
    ∀ r, r ∈ rows ↔ row_ok r ∧ stored_row d address r ∧ 0 < row_time r.
Proof.
  intros Ha Hc Hown. destruct (rows_in_time d address 0 u64_max) as (rows & Hi & Hok & Hs & Hr); [done..|].
  exists rows. split_and!; [|done|].
  - unfold get_top_address_data. change (to_be 8 0) with (to_be 8 (u64_max - u64_max)).
    change (to_be 8 u64_max) with (to_be 8 (u64_max - 0)). rewrite Hi.
    replace (mkTopAddressData [] 0 0 0 0) with (top_state top_count []) by (unfold top_state; by rewrite take_nil).
    by rewrite top_entries_spec.
  - intros r. rewrite Hr. split; [tauto|]. intros (Hrok & Hst & Hp). split_and!; [done..|].
    destruct Hrok as [Hrt _]. unfold in_u64, u64_max in *. lia.
Qed.

(** An entry of a longer address that begins with the bytes of an address (as the
    program of a taproot output may begin with the hash of a key) lies among the
    keys of that address: the summary of the address panics on its length, and the
    query fails, whatever else is in the database. *)
Theorem longer_address_breaks_summary d address x t h v top_count :
  len address + len x <= 2 ^ 61 → hash_ok h → 8 <= len x → take 8 x ≠ to_be 8 u64_max →
  contents (ADDRESSES_DB d) !! address_entry (address ++ x) t h = Some v →
  ∃ e, get_top_address_data d address top_count = Err e.
Proof.
  intros Ha Hh Hx Hne Hc. destruct (foreign_key_in_range address x t h Hx Hne) as [Hlo Hhi].
  pose proof (len_nonneg address). unfold get_top_address_data.
  destruct (for_each_panics (top_entry (len address) top_count)
    (iterate (ADDRESSES_DB d) (address ++ to_be 8 0) (address ++ to_be 8 u64_max))
    (mkTopAddressData [] 0 0 0 0) (address_entry (address ++ x) t h, v)) as [m ->].
  - apply top_entry_outcome.
  - by apply iterate_spec.
  - intros s. unfold top_entry, read_address_entry. rewrite expected_key_len by lia.
    rewrite len_entry, len_app by done. unfold assert_eq. rewrite (proj2 (Z.eqb_neq (len address + 40) (len address + len x + 40))) by lia. by eexists.
  - by eexists.
Qed.
End queries.

(** * Examples *)

Import Toy ToyDb.

Definition toy_address : bytes := zeros 20.

Definition toy_rows : list AddressRow :=
  [mkAddressRow 200 (to_le 32 2) (to_le 32 9) (-1500); mkAddressRow 100 (to_le 32 1) (to_le 32 9) 5000].

Definition toy_address_db : Databases :=
  mkDatabases toy_db ∅ ∅ ∅ (list_to_map (map (row_item toy_address) toy_rows)) ∅.

Lemma toy_rows_ok : Forall row_ok toy_rows.
Proof. repeat (constructor; [by split_and!|]). constructor. Qed.

Lemma toy_own_range : own_range toy_address_db toy_address.
Proof.
  intros k v Hc _ _.
  change ((list_to_map (map (row_item toy_address) toy_rows) : gmap bytes bytes) !! k = Some v) in Hc.
  apply elem_of_list_to_map_2, list_elem_of_fmap_1 in Hc as (r & He & Hr).
  exists r. split; [|done]. exact (proj1 (Forall_forall _ _) toy_rows_ok r Hr).
Qed.

Lemma batch_queried_witness :
  ∃ d' a', write_analyzed_txs toy_databases toy_blocks [[toy_stored]] [[]] [tt] (mkArena 4096 0 4096)
      = Ok (d', (zip toy_blocks [[]], zip toy_blocks [tt]), a') ∧
    get_block_tx_entries d' (to_le 32 9) = Ok [mkBlockTxEntry (to_le 32 5) 1234 0 400] ∧
    contents (ADDRESSES_DB d') !! to_le 60 3 = Some (to_le 32 9 ++ to_le 8 (wrap64 (-766))).
Proof.
  destruct (batch_queried toy_databases toy_blocks [[toy_stored]] [[]] [tt] (mkArena 4096 0 4096))
    as (d' & a' & Hw & Hq & _ & _ & _ & _ & Hd & _).
  - apply toy_batch_ok.
  - reflexivity.
  - reflexivity.
  - apply toy_arena_wf; lia.
  - vm_compute. discriminate.
  - constructor; [|constructor]. split; [|vm_compute; discriminate].
    constructor; [|constructor]. split_and!; [reflexivity|split; [discriminate|reflexivity]..].
  - exists d', a'. split; [exact Hw|]. split; [exact (Hq 0%nat _ _ eq_refl eq_refl)|]. apply Hd. by left.
Defined.

Definition toy_spends_db : Databases :=
  mkDatabases toy_db ∅ ∅ ∅ ∅ {[to_le 32 4 ++ to_le 4 7 := to_le 32 5 ++ to_le 32 6]}.

Lemma spends_queried_witness :
  ∃ l, get_tx_spends toy_spends_db (to_le 32 4) = Ok l ∧ (7, to_le 32 5, to_le 32 6) ∈ l.
Proof.
  destruct (spends_queried toy_spends_db (to_le 32 4)) as (l & Hl & _ & Hin).
  - intros k v Hc.
    change (({[to_le 32 4 ++ to_le 4 7 := to_le 32 5 ++ to_le 32 6]} : gmap bytes bytes) !! k = Some v) in Hc.
    apply lookup_singleton_Some in Hc as [<- <-]. split; reflexivity.
  - reflexivity.
  - exists l. split; [exact Hl|]. apply Hin. split; [split; [discriminate|reflexivity]|].
    split; [reflexivity|]. split; [reflexivity|]. vm_compute. reflexivity.
Defined.

Lemma address_query_witness :
  ∃ rows, get_address_entires toy_address_db toy_address 100 200 10 = Ok (map row_result (limited 10 rows)) ∧
    mkAddressRow 200 (to_le 32 2) (to_le 32 9) (-1500) ∈ rows ∧
    mkAddressRow 100 (to_le 32 1) (to_le 32 9) 5000 ∉ rows.
Proof.
  destruct (address_query toy_address_db toy_address 100 200) as [Hown _]; [| | |destruct Hown as (rows & _ & Hin & Hq)].
  - vm_compute. discriminate.
  - split; [discriminate|reflexivity].
  - split; [discriminate|reflexivity].
  - apply toy_own_range.
  - exists rows. split; [apply Hq; discriminate|]. split.
    + apply Hin. split; [exact (proj1 (Forall_forall _ _) toy_rows_ok _ ltac:(by left))|].
      split; [vm_compute; reflexivity|]. simpl. lia.
    + intros (_ & _ & Ht)%Hin. simpl in Ht. lia.
Defined.

Lemma address_pages_witness :
  ∃ rows, get_address_entires toy_address_db toy_address 0 200 0 = Ok (map row_result rows) ∧
    ∀ r, rows !! 0%nat = Some r →
      get_address_entires_continue toy_address_db toy_address (row_tx r) (row_time r) 10
      = Ok (map row_result (limited 10 (drop 1 rows))).
Proof.
  destruct (address_pages toy_address_db toy_address 200) as (rows & Hq & Hc).
  - vm_compute. discriminate.
  - split; [discriminate|reflexivity].
  - apply toy_own_range.
  - exists rows. split; [exact Hq|]. intros r Hr. exact (Hc 0%nat r 10 Hr).
Defined.

Lemma top_address_data_witness :
  ∃ rows, get_top_address_data toy_address_db toy_address 1 = Ok (top_state 1 rows) ∧
    mkAddressRow 100 (to_le 32 1) (to_le 32 9) 5000 ∈ rows.
Proof.
  destruct (top_address_data toy_address_db toy_address 1) as (rows & Hq & _ & Hin).
  - vm_compute. discriminate.
  - discriminate.
  - apply toy_own_range.
  - exists rows. split; [exact Hq|]. apply Hin.
    split; [exact (proj1 (Forall_forall _ _) toy_rows_ok _ ltac:(right; by left))|].
    split; [vm_compute; reflexivity|reflexivity].
Defined.

(** A taproot output whose program begins with the 20 bytes of [toy_address]. *)
Lemma longer_address_breaks_summary_witness :
  ∃ e, get_top_address_data
    (mkDatabases toy_db ∅ ∅ ∅ {[address_entry (toy_address ++ to_le 12 77) 50 (to_le 32 8) := zeros 40]} ∅)
    toy_address 10 = Err e.
Proof.
  eapply (longer_address_breaks_summary _ toy_address (to_le 12 77) 50 (to_le 32 8)).
  - vm_compute. discriminate.
  - reflexivity.
  - vm_compute. discriminate.
  - vm_compute. discriminate.
  - vm_compute. reflexivity.
Defined.
