(* ===== verification/Float.v ===== *)
(** [f64], as the standard library's specification of IEEE 754 arithmetic in the
    format binary64, and the part of [std] that the code uses of it. *)
From Stdlib Require Export SpecFloat.
From S2P Require Import Prelude.

Definition f64 : Type := spec_float.

(** [z as f64] for an integer *)
Definition f64_of_Z (z : Z) : f64 := binary_normalize 53 1024 z 0 false.

Definition f64_add (x y : f64) : f64 := SFadd 53 1024 x y.
Definition f64_sub (x y : f64) : f64 := SFsub 53 1024 x y.
Definition f64_mul (x y : f64) : f64 := SFmul 53 1024 x y.
Definition f64_div (x y : f64) : f64 := SFdiv 53 1024 x y.

(** [partial_cmp], and the comparisons that are false of what is not a number *)
Definition f64_partial_cmp (x y : f64) : option comparison := SFcompare x y.
Definition f64_leb (x y : f64) : bool := SFleb x y.

(** [f64::ceil] *)
Definition f64_ceil (x : f64) : f64 :=
  match x with
  | S754_finite s m e =>
      if 0 <=? e then x
      else binary_normalize 53 1024 (- ((if s then Zpos m else Zneg m) / 2 ^ (- e))) 0 s
  | _ => x
  end.

(** Literals *)
Definition f64_zero : f64 := S754_zero false.
Definition f64_one : f64 := f64_of_Z 1.
Definition f64_half : f64 := S754_finite false 4503599627370496 (-53).
Definition f64_nine_tenths : f64 := S754_finite false 8106479329266893 (-53).

Example f64_literals :
  f64_div (f64_of_Z 1) (f64_of_Z 2) = f64_half ∧ f64_div (f64_of_Z 9) (f64_of_Z 10) = f64_nine_tenths ∧
  f64_ceil (f64_div (f64_of_Z 561) (f64_of_Z 4)) = f64_of_Z 141.
Proof. split_and!; vm_compute; reflexivity. Qed.

(** * The order of the numbers *)

Definition is_nan (x : f64) : bool := match f64_partial_cmp x x with None => true | Some _ => false end.

(** Numbers compare like triples: the sign of the value, the exponent and the
    mantissa, the latter two turned round for numbers below 0. *)
Definition f64_key (x : f64) : Z * Z * Z :=
  match x with
  | S754_zero _ | S754_nan => (0, 0, 0)
  | S754_infinity s => (if s then -2 else 2, 0, 0)
  | S754_finite true m e => (-1, - e, Zneg m)
  | S754_finite false m e => (1, e, Zpos m)
  end.

Definition key_compare (a b : Z * Z * Z) : comparison :=
  match a.1.1 ?= b.1.1 with
  | Eq => match a.1.2 ?= b.1.2 with Eq => a.2 ?= b.2 | c => c end
  | c => c
  end.

Lemma f64_compare_key x y :
  is_nan x = false → is_nan y = false → f64_partial_cmp x y = Some (key_compare (f64_key x) (f64_key y)).
Proof.
  destruct x as [s|s| |s m e], y as [s'|s'| |s' m' e']; try done; intros _ _;
    destruct s; try destruct s'; cbn; try done; unfold f64_partial_cmp, key_compare; cbn.
  destruct (Z.compare_spec e e'), (Z.compare_spec (- e) (- e')); (done || lia).
Qed.

Lemma key_compare_le a b :
  key_compare a b ≠ Gt ↔
  a.1.1 < b.1.1 ∨ (a.1.1 = b.1.1 ∧ (a.1.2 < b.1.2 ∨ (a.1.2 = b.1.2 ∧ a.2 <= b.2))).
Proof.
  unfold key_compare. destruct (Z.compare_spec a.1.1 b.1.1), (Z.compare_spec a.1.2 b.1.2), (Z.compare_spec a.2 b.2);
    (split; [intros Hc|intros Hc Hgt]; (done || lia)).
Qed.

Lemma f64_leb_key x y :
  is_nan x = false → is_nan y = false → f64_leb x y = true ↔ key_compare (f64_key x) (f64_key y) ≠ Gt.
Proof.
  intros Hx Hy. unfold f64_leb, SFleb. fold (f64_partial_cmp x y). rewrite f64_compare_key by done.
  by destruct (key_compare _ _).
Qed.

Lemma f64_leb_total x y : is_nan x = false → is_nan y = false → f64_leb x y = true ∨ f64_leb y x = true.
Proof. intros Hx Hy. rewrite !f64_leb_key, !key_compare_le by done. lia. Qed.

Lemma f64_leb_trans x y z :
  is_nan x = false → is_nan y = false → is_nan z = false →
  f64_leb x y = true → f64_leb y z = true → f64_leb x z = true.
Proof. intros Hx Hy Hz. rewrite !f64_leb_key, !key_compare_le by done. lia. Qed.

Lemma f64_leb_refl x : is_nan x = false → f64_leb x x = true.
Proof. intros Hx. by destruct (f64_leb_total x x Hx Hx). Qed.
