(* ===== verification/Clock.v ===== *)
(** [src/util/timetracker.rs], the time spent waiting, and [src/chainman/syncspeedtracker.rs], the speed of the block sync. *)
From S2P Require Import Prelude.
From S2P Require Import Float.

(** The readings of the clock are arguments of the operations. *)
Record TimeTracker := mkTimeTracker {
  total_waited_micros : Z;
  last_wait_start : Z;
}.

Definition TimeTracker_new : TimeTracker := mkTimeTracker 0 0.

Definition tt_start (t : TimeTracker) (current_micros : Z) : outcome TimeTracker :=
  if negb (last_wait_start t =? 0)
  then Panic "start() called on a timetracker that's already in active state"
  else Ok (mkTimeTracker (total_waited_micros t) current_micros).

Definition tt_stop (t : TimeTracker) (rn : Z) : outcome TimeTracker :=
  if last_wait_start t =? 0
  then Panic "stop() called on a timetracker that's already in stopped state"
  else Ok (mkTimeTracker (total_waited_micros t +! wrap64 (rn - last_wait_start t)) 0).

Definition wait_time_micros (t : TimeTracker) : Z := total_waited_micros t.

Definition tt_reset (t : TimeTracker) : outcome TimeTracker :=
  if negb (last_wait_start t =? 0)
  then Panic "reset() called on a timetracker that's in active state"
  else Ok (mkTimeTracker 0 (last_wait_start t)).

(** Times in nanoseconds; [capacity] is that of the queue, which is what was asked for or more. *)
Record SyncSpeedTracker := mkSyncSpeedTracker {
  last_start : Z;
  last_speeds : list f64;
  speeds_capacity : Z;
}.

Definition SyncSpeedTracker_new (now capacity : Z) : SyncSpeedTracker := mkSyncSpeedTracker now [] capacity.

Definition as_secs_f64 (nanos : Z) : f64 :=
  f64_add (f64_of_Z (nanos / 1000000000)) (f64_div (f64_of_Z (nanos mod 1000000000)) (f64_of_Z 1000000000)).

(** [elapsed] reads the clock, which does not run backwards, before it is read for the next start. *)
Definition speed_tick (t : SyncSpeedTracker) (read now blocks_received : Z) : SyncSpeedTracker :=
  let elapsed_seconds := as_secs_f64 (Z.max 0 (read - last_start t)) in
  let speed := f64_div (f64_of_Z blocks_received) elapsed_seconds in
  let speeds := last_speeds t ++ [speed] in
  mkSyncSpeedTracker now (if len speeds =? speeds_capacity t then tail speeds else speeds) (speeds_capacity t).

Definition estimate_speed (t : SyncSpeedTracker) : f64 :=
  match last_speeds t with
  | [] => f64_zero
  | speeds => f64_div (foldl f64_add f64_zero speeds) (f64_of_Z (len speeds))
  end.

(** A tracker that does not run can be started and then stopped, which adds what
    the clock advanced by. *)
Lemma tt_start_stop t a b :
  last_wait_start t = 0 → a ≠ 0 →
  (t ← tt_start t a; tt_stop t b) = Ok (mkTimeTracker (total_waited_micros t +! wrap64 (b - a)) 0).
Proof.
  intros Ht Ha. unfold tt_start, tt_stop. rewrite Ht. cbn. by rewrite (proj2 (Z.eqb_neq a 0)).
Qed.

(** Ten blocks in two seconds, then twenty in the next half *)
Example speed_of_two_batches :
  estimate_speed (speed_tick (speed_tick (SyncSpeedTracker_new 0 8) 2000000000 2000000000 10) 2500000000 2500000000 20)
  = f64_div (f64_of_Z 45) (f64_of_Z 2).
Proof. vm_compute. reflexivity. Qed.

(** Only so many speeds are kept that one more fits the queue. *)
Lemma speed_tick_window t read now n :
  len (last_speeds t) < speeds_capacity t →
  len (last_speeds (speed_tick t read now n)) < speeds_capacity t ∧ speeds_capacity (speed_tick t read now n) = speeds_capacity t.
Proof.
  unfold speed_tick, len. cbn. rewrite length_app. cbn [length]. intros Hlen. split; [|done].
  destruct (Z.eqb_spec (Z.of_nat (length (last_speeds t) + 1)) (speeds_capacity t)) as [He|He].
  - destruct (last_speeds t); cbn in *; [lia|]. rewrite length_app. cbn. lia.
  - rewrite length_app. cbn. lia.
Qed.
