(* ===== verification/Schedule.v ===== *)
(** [src/chainman/blocksync.rs]: the master of the block download. It hands out jobs to
    its workers, and passes the blocks they come back with on in the order of the chain. *)
From stdpp Require Import sorting.
From S2P Require Import Prelude.
From S2P Require Import Float.
From S2P Require Import Clock.

(** A block to download, and its number. *)
Abbreviation BlockHashWithNumber := (hash * Z)%type.

Definition INITIAL_WORKER_COUNT : Z := 10.
Definition DEFAULT_MAX_WORKERS : Z := 100.

Definition index_out_of_bounds : string := "index out of bounds".

(** [v[i]] and [v[i] = x] *)
Definition vec_get {A} (v : list A) (i : Z) : outcome A :=
  expect (if i <? 0 then None else v !! Z.to_nat i) index_out_of_bounds.

Definition vec_set {A} (v : list A) (i : Z) (x : A) : outcome (list A) :=
  if (0 <=? i) && (i <? len v) then Ok (<[Z.to_nat i := x]> v) else Panic index_out_of_bounds.

(** [Vec::insert] *)
Definition vec_insert {A} (v : list A) (i : nat) (x : A) : list A := take i v ++ x :: drop i v.

(** [slice::binary_search_by] on a slice that is sorted by [cmp]: the place of the
    element that compares equal, or the place where it belongs. Of a slice that is
    not sorted, or with several equal elements, its result is not specified. *)
Fixpoint binary_search_by {A} (cmp : A → comparison) (v : list A) : nat + nat :=
  match v with
  | [] => inr 0%nat
  | x :: v =>
      match cmp x with
      | Lt => match binary_search_by cmp v with inl i => inl (S i) | inr i => inr (S i) end
      | Eq => inl 0%nat
      | Gt => inr 0%nat
      end
  end.

(** * [find_next_best_job] *)

(** The loop over the blocks that were asked for: a block to ask for again, or the
    place after the one that was asked for first, with the time since then. *)
Fixpoint scan_requests (now : Z) (last_request_times : list Z) (ids : list Z)
    (oldest_asked_for_block : Z) (oldest_asked_for_block_index : option Z) : outcome (Z + option Z) :=
  match ids with
  | [] => Ok (inr oldest_asked_for_block_index)
  | i :: ids =>
      requested_at ← vec_get last_request_times i;
      if requested_at =? 0
      then scan_requests now last_request_times ids oldest_asked_for_block oldest_asked_for_block_index
      else
        let elapsed := wrap64 (now - requested_at) in
        if 1000 <? elapsed then Ok (inl i)
        else
          match oldest_asked_for_block_index with
          | None => scan_requests now last_request_times ids elapsed (Some (i +! 1))
          | Some _ =>
              if oldest_asked_for_block <? elapsed
              then scan_requests now last_request_times ids elapsed (Some (i +! 1))
              else scan_requests now last_request_times ids oldest_asked_for_block oldest_asked_for_block_index
          end
  end.

(** Gives the job, [next_never_asked_for] and [last_request_times]. *)
Definition find_next_best_job (next_to_apply next_never_asked_for : Z) (last_request_times : list Z)
    (missing_blocks : list hash) (first_missing_number : Z) (can_advance : bool) (now : Z) :
    outcome (option BlockHashWithNumber * Z * list Z) :=
  let ask_for (i : Z) : outcome BlockHashWithNumber :=
    h ← vec_get missing_blocks i; Ok (h, first_missing_number +! i) in
  found ← scan_requests now last_request_times (seqZ next_to_apply (next_never_asked_for - next_to_apply)) 0 None;
  match found with
  | inl i =>
      last_request_times ← vec_set last_request_times i now;
      job ← ask_for i;
      Ok (Some job, next_never_asked_for, last_request_times)
  | inr oldest_asked_for_block_index =>
      if negb can_advance then
        match oldest_asked_for_block_index with
        | Some index_plus_one =>
            let i := index_plus_one - 1 in
            last_request_times ← vec_set last_request_times i now;
            job ← ask_for i;
            Ok (Some job, next_never_asked_for, last_request_times)
        | None => Panic "uhhh"
        end
      else if next_never_asked_for <? len missing_blocks then
        let index_to_return := next_never_asked_for in
        last_request_times ← vec_set last_request_times index_to_return now;
        job ← ask_for index_to_return;
        Ok (Some job, next_never_asked_for +! 1, last_request_times)
      else if next_to_apply <? next_never_asked_for then
        job ← ask_for next_to_apply;
        Ok (Some job, next_never_asked_for, last_request_times)
      else Ok (None, next_never_asked_for, last_request_times)
  end.

(** * The state of the master *)

Section master.
(** A downloaded block with the memory it is in, and the length of its packet. *)
Context {Payload : Type} (buffer_len : Payload → Z).

Abbreviation BlockWithNumber := (Payload * Z)%type.

Record MasterState := mkMasterState {
  missing_blocks : list hash;
  first_missing_number : Z;
  last_request_times : list Z;
  next_to_apply : Z;
  next_never_asked_for : Z;
  backlog : list BlockWithNumber;
  block_avg_size : f64;
  alpha : f64;
  received_since_last_update : Z;
  flush_time_tracker : TimeTracker;
}.

Definition MasterState_new (missing : list hash) (first_number : Z) : MasterState :=
  mkMasterState missing first_number (replicate (length missing) 0) 0 0 [] f64_one
    (f64_div (f64_of_Z 2) (f64_add (f64_of_Z 100) f64_one)) 0 TimeTracker_new.

(** The changes the handlers make. *)
Definition set_requests (s : MasterState) (next_never : Z) (times : list Z) : MasterState :=
  mkMasterState (missing_blocks s) (first_missing_number s) times (next_to_apply s) next_never
    (backlog s) (block_avg_size s) (alpha s) (received_since_last_update s) (flush_time_tracker s).

Definition set_backlog (s : MasterState) (next : Z) (b : list BlockWithNumber) : MasterState :=
  mkMasterState (missing_blocks s) (first_missing_number s) (last_request_times s) next
    (next_never_asked_for s) b (block_avg_size s) (alpha s) (received_since_last_update s)
    (flush_time_tracker s).

Definition set_statistics (s : MasterState) (avg : f64) (received : Z) : MasterState :=
  mkMasterState (missing_blocks s) (first_missing_number s) (last_request_times s) (next_to_apply s)
    (next_never_asked_for s) (backlog s) avg (alpha s) received (flush_time_tracker s).

Definition set_tracker (s : MasterState) (t : TimeTracker) : MasterState :=
  mkMasterState (missing_blocks s) (first_missing_number s) (last_request_times s) (next_to_apply s)
    (next_never_asked_for s) (backlog s) (block_avg_size s) (alpha s) (received_since_last_update s) t.

(** What the workers send; the job goes back over the channel that comes with it. *)
Inductive DownloadWorkerMessage :=
| PullFirstJob
| PushResultAndGetNewJob (payload : Payload) (number : Z).

(** The readings of the clock while a message is handled: when the master begins to wait
    for the writer and when it ends, and when a job is looked for. *)
Record Readings := mkReadings {
  wait_begins : Z;
  wait_ends : Z;
  job_time : Z;
}.

(** The channel to the writer: what was sent, in order. Sending fails once the
    receiver is gone, which [accepts] tells from what was sent so far. *)
Context (accepts : list BlockWithNumber → bool).

Definition flush_send (flush : list BlockWithNumber) (x : BlockWithNumber) : option (list BlockWithNumber) :=
  if accepts flush then Some (flush ++ [x]) else None.

(** The loop over the backlog, whose last element is the lowest. A failed send ends it;
    the block is lost then. *)
Fixpoint apply_from_backlog (fuel : nat) (backlog : list BlockWithNumber) (first_missing_number next_to_apply : Z)
    (flush : list BlockWithNumber) : option (list BlockWithNumber * Z * list BlockWithNumber) :=
  match fuel with
  | O => None
  | S fuel =>
      match last backlog with
      | None => Some (backlog, next_to_apply, flush)
      | Some popped =>
          if popped.2 =? first_missing_number +! next_to_apply then
            let backlog := removelast backlog in
            let next_to_apply := next_to_apply +! 1 in
            match flush_send flush popped with
            | Some flush => apply_from_backlog fuel backlog first_missing_number next_to_apply flush
            | None => Some (backlog, next_to_apply, flush)
            end
          else Some (backlog, next_to_apply, flush)
      end
  end.

Definition look_for_job (s : MasterState) (can_advance : bool) (now : Z) :
    outcome (option BlockHashWithNumber * MasterState) :=
  '(job, next_never, times) ←
    find_next_best_job (next_to_apply s) (next_never_asked_for s) (last_request_times s)
      (missing_blocks s) (first_missing_number s) can_advance now;
  Ok (job, set_requests s next_never times).

(** A block that came: it is kept for later, discarded or passed on with those of the
    backlog that follow it. No state is given where the receiver is gone, and the
    handler returns. *)
Definition handle_result (s : MasterState) (payload : Payload) (number : Z) (r : Readings)
    (flush : list BlockWithNumber) : outcome (MasterState * list BlockWithNumber * bool) :=
  let s := set_statistics s
    (f64_add (f64_mul (f64_sub f64_one (alpha s)) (block_avg_size s))
       (f64_mul (alpha s) (f64_of_Z (buffer_len payload))))
    (received_since_last_update s +! 1) in
  let awaited := first_missing_number s +! next_to_apply s in
  if awaited <? number then
    let s :=
      match binary_search_by (λ f, number ?= f.2) (backlog s) with
      | inr i => set_backlog s (next_to_apply s) (vec_insert (backlog s) i (payload, number))
      | inl _ => s
      end in
    times ← vec_set (last_request_times s) (wrap64 (number - first_missing_number s)) 0;
    Ok (set_requests s (next_never_asked_for s) times, flush, true)
  else if number <? awaited then Ok (s, flush, true)
  else
    let s := set_backlog s (next_to_apply s +! 1) (backlog s) in
    tracker ← tt_start (flush_time_tracker s) (wait_begins r);
    let s := set_tracker s tracker in
    match flush_send flush (payload, number) with
    | None => Ok (s, flush, false)
    | Some flush =>
        '(rest, next, flush) ←
          expect (apply_from_backlog (S (length (backlog s))) (backlog s) (first_missing_number s)
                    (next_to_apply s) flush) "out of fuel";
        let s := set_backlog s next rest in
        tracker ← tt_stop (flush_time_tracker s) (wait_ends r);
        Ok (set_tracker s tracker, flush, true)
    end.

Definition handle_worker_message (message : DownloadWorkerMessage) (s : MasterState) (r : Readings)
    (flush : list BlockWithNumber) :
    outcome (option BlockHashWithNumber * MasterState * list BlockWithNumber) :=
  match message with
  | PullFirstJob =>
      '(job, s) ← look_for_job s true (job_time r);
      Ok (job, s, flush)
  | PushResultAndGetNewJob payload number =>
      '(s, flush, goes_on) ← handle_result s payload number r flush;
      if negb goes_on then Ok (None, s, flush)
      else
        let can_advance := len (backlog s) <=? 512 in
        '(job, s) ← look_for_job s can_advance (job_time r);
        Ok (job, s, flush)
  end.

(** The tick of every ten seconds: a worker is added where the workers are kept busy,
    and one is ended where they are not. Gives the number of workers and the state. *)
Definition update_workers (max_workers workers last_in current_in elapsed_micros : Z) (s : MasterState) :
    outcome (Z * MasterState) :=
  let downloaded_bytes := wrap64 (current_in - last_in) in
  let elapsed_time_seconds :=
    f64_div (f64_div (f64_of_Z (wrap64 (elapsed_micros - wait_time_micros (flush_time_tracker s))))
      (f64_of_Z 1000)) (f64_of_Z 1000) in
  let r := f64_div (f64_div (f64_of_Z downloaded_bytes) (f64_mul (block_avg_size s) (f64_of_Z workers)))
             elapsed_time_seconds in
  let workers :=
    if f64_leb f64_nine_tenths r && (workers <? max_workers) then workers + 1
    else if f64_leb r f64_half && (1 <? workers) then workers - 1
    else workers in
  tracker ← tt_reset (flush_time_tracker s);
  Ok (workers, set_tracker (set_statistics s (block_avg_size s) 0) tracker).
End master.

(** * The choice of a job *)

Definition request_time (times : list Z) (i : Z) : Z := default 0 (times !! Z.to_nat i).

Lemma vec_get_Ok {A} (v : list A) i : 0 <= i < len v → ∃ x, vec_get v i = Ok x ∧ v !! Z.to_nat i = Some x.
Proof.
  intros Hi. destruct (lookup_lt_is_Some_2 v (Z.to_nat i)) as [x Hx]; [unfold len in Hi; lia|].
  exists x. unfold vec_get. by rewrite (proj2 (Z.ltb_ge i 0)), Hx by lia.
Qed.

Lemma vec_get_time times i : 0 <= i < len times → vec_get times i = Ok (request_time times i).
Proof. intros Hi. destruct (vec_get_Ok times i Hi) as (x & -> & Hx). unfold request_time. by rewrite Hx. Qed.

Lemma vec_set_Ok {A} (v : list A) i x : 0 <= i < len v → vec_set v i x = Ok (<[Z.to_nat i := x]> v).
Proof. intros Hi. unfold vec_set. by rewrite (proj2 (Z.leb_le 0 i)), (proj2 (Z.ltb_lt i _)) by lia. Qed.

Lemma request_time_insert times i j x :
  0 <= i < len times → 0 <= j →
  request_time (<[Z.to_nat i := x]> times) j = if i =? j then x else request_time times j.
Proof.
  intros Hi Hj. unfold request_time. destruct (Z.eqb_spec i j) as [-> |Hne].
  - rewrite list_lookup_insert_eq; [done|unfold len in Hi; lia].
  - rewrite list_lookup_insert_ne; [done|lia].
Qed.

(** A request found by the loop is a pending one; the loop finds none only where
    there is none. *)
Lemma scan_requests_spec now times ids : ∀ oldest oldest_index,
  Forall (λ i, 0 <= i < len times ∧ i + 1 < 2 ^ 64) ids →
  ∃ found, scan_requests now times ids oldest oldest_index = Ok found ∧
    match found with
    | inl i => i ∈ ids ∧ request_time times i ≠ 0
    | inr (Some k) => oldest_index = Some k ∨ (∃ i, k = i + 1 ∧ i ∈ ids ∧ request_time times i ≠ 0)
    | inr None => oldest_index = None ∧ ∀ i, i ∈ ids → request_time times i = 0
    end.
Proof.
  induction ids as [|i ids IH]; intros oldest oldest_index Hids; cbn [scan_requests].
  - exists (inr oldest_index). split; [done|]. destruct oldest_index; [by left|].
    split; [done|]. by intros i ?%elem_of_nil.
  - apply Forall_cons in Hids as [[Hi Hi1] Hids]. rewrite vec_get_time by done. cbn [mbind outcome_bind].
    assert (i +! 1 = i + 1) as Hwrap by (apply wrap64_small; unfold in_u64; lia).
    destruct (Z.eqb_spec (request_time times i) 0) as [Hz|Hz].
    { destruct (IH oldest oldest_index Hids) as (found & -> & Hf). exists found. split; [done|].
      destruct found as [j|[k|]].
      - destruct Hf. split; [by right|done].
      - destruct Hf as [?|(j & ? & ? & ?)]; [by left|right]. exists j. split_and!; [done|by right|done].
      - destruct Hf as [? Hf]. split; [done|]. intros j [->|Hj]%elem_of_cons; auto. }
    destruct (1000 <? wrap64 (now - request_time times i)).
    { exists (inl i). split; [done|]. split; [by left|done]. }
    assert (∀ t, ∃ found, scan_requests now times ids t (Some (i +! 1)) = Ok found ∧
      match found with
      | inl i' => i' ∈ i :: ids ∧ request_time times i' ≠ 0
      | inr (Some k) => oldest_index = Some k ∨ (∃ i', k = i' + 1 ∧ i' ∈ i :: ids ∧ request_time times i' ≠ 0)
      | inr None => oldest_index = None ∧ ∀ i', i' ∈ i :: ids → request_time times i' = 0
      end) as Hnew.
    { intros t. destruct (IH t (Some (i +! 1)) Hids) as (found & -> & Hf). exists found. split; [done|].
      destruct found as [j|[k|]].
      - destruct Hf. split; [by right|done].
      - right. destruct Hf as [[= <-]|(j & ? & ? & ?)].
        + exists i. rewrite Hwrap. split_and!; [done|by left|done].
        + exists j. split_and!; [done|by right|done].
      - by destruct Hf. }
    destruct oldest_index as [k|]; [|apply Hnew].
    destruct (oldest <? wrap64 (now - request_time times i)); [apply Hnew|].
    destruct (IH oldest (Some k) Hids) as (found & -> & Hf). exists found. split; [done|].
    destruct found as [j|[k'|]].
    + destruct Hf. split; [by right|done].
    + destruct Hf as [?|(j & ? & ? & ?)]; [by left|right]. exists j. split_and!; [done|by right|done].
    + by destruct Hf.
Qed.

(** * The invariant of the master *)

Section invariant.
Context {Payload : Type} (buffer_len : Payload → Z) (hash_of : Payload → hash).
Context (missing : list hash) (first : Z).
Hypothesis first_range : 0 <= first ∧ first + len missing < 2 ^ 63.

Abbreviation BlockWithNumber := (Payload * Z)%type.
Abbreviation State := (@MasterState Payload).

(** The numbers of the backlog. *)
Definition held (s : State) : list Z := map snd (backlog s).

(** The block with this number is the one that is missing there. *)
Definition right_block (x : hash * Z) : Prop :=
  0 <= x.2 - first ∧ missing !! Z.to_nat (x.2 - first) = Some x.1.

Definition descending (x y : BlockWithNumber) : Prop := y.2 < x.2.

(** The blocks passed on are the first [next_to_apply] ones, in order; the backlog holds
    blocks from [awaited] on that were asked for, the highest first; a request is pending
    for just those blocks that were asked for and have not come. *)
Record master_inv_from (awaited : Z) (s : State) (flush : list BlockWithNumber) : Prop := mkMasterInv {
  mi_missing : missing_blocks s = missing;
  mi_first : first_missing_number s = first;
  mi_times : length (last_request_times s) = length missing;
  mi_order : 0 <= next_to_apply s <= next_never_asked_for s;
  mi_asked : next_never_asked_for s <= len missing;
  mi_sorted : StronglySorted descending (backlog s);
  mi_held : Forall (λ x, awaited <= x.2 < first + next_never_asked_for s ∧ right_block (hash_of x.1, x.2)) (backlog s);
  mi_pending i : next_to_apply s <= i < next_never_asked_for s →
    request_time (last_request_times s) i = 0 ↔ first + i ∈ held s;
  mi_idle : last_wait_start (flush_time_tracker s) = 0;
  mi_numbers : map snd flush = seqZ first (next_to_apply s);
  mi_blocks : map (λ x, hash_of x.1) flush = take (Z.to_nat (next_to_apply s)) missing;
}.

Definition master_inv (s : State) (flush : list BlockWithNumber) : Prop :=
  master_inv_from (first + next_to_apply s + 1) s flush.

Lemma master_inv_new : master_inv (MasterState_new missing first) [].
Proof.
  pose proof (len_nonneg missing). constructor; cbn; try done.
  - apply length_replicate.
  - constructor.
  - intros i Hi. lia.
Qed.

(** ** Jobs *)

Lemma ask_for_Ok i :
  0 <= i < len missing →
  ∃ h, (h ← vec_get missing i; Ok (h, first +! i)) = Ok (h, first + i) ∧ right_block (h, first + i).
Proof.
  intros Hi. destruct (vec_get_Ok missing i Hi) as (h & -> & Hh). exists h. cbn.
  rewrite wrap64_small by (unfold in_u64; lia). split; [done|]. unfold right_block. cbn.
  replace (first + i - first) with i by lia. split; [lia|done].
Qed.

(** A job that is handed out is for a block that was not passed on and is not held. *)
Definition job_ok (s : State) (job : option BlockHashWithNumber) : Prop :=
  match job with
  | Some (h, number) =>
      right_block (h, number) ∧ first + next_to_apply s <= number < first + next_never_asked_for s ∧
      number ∉ held s
  | None => next_to_apply s = len missing
  end.

Lemma inv_set_requests s flush next times :
  master_inv s flush → next_never_asked_for s <= next <= len missing → length times = length missing →
  (∀ i, next_to_apply s <= i < next → request_time times i = 0 ↔ first + i ∈ held s) →
  master_inv (set_requests s next times) flush.
Proof.
  intros [] Hn Hl Hp. constructor; cbn; try done; [lia|lia|].
  eapply Forall_impl; [exact mi_held0|]. intros x [Hx ?]. split; [lia|done].
Qed.

(** Asking for a pending block again changes its time only. *)
Lemma pending_again s flush i now :
  master_inv s flush → now ≠ 0 → next_to_apply s <= i < next_never_asked_for s → first + i ∉ held s →
  let times := <[Z.to_nat i := now]> (last_request_times s) in
  length times = length missing ∧
  ∀ j, next_to_apply s <= j < next_never_asked_for s → request_time times j = 0 ↔ first + j ∈ held s.
Proof.
  intros [] Hnow Hi Hh. split; [by rewrite length_insert|]. intros j Hj.
  rewrite request_time_insert by (unfold len in *; lia).
  destruct (Z.eqb_spec i j) as [<-|Hne]; [|by apply mi_pending0].
  split; [done|]. by intros ?.
Qed.

(** Looking for a job never fails, as long as a worker is only kept from new blocks
    while a block is held; there is no job only when all blocks were passed on. *)
Lemma look_for_job_spec s flush can_advance now :
  master_inv s flush → now ≠ 0 → (can_advance = false → backlog s ≠ []) →
  ∃ job s', look_for_job s can_advance now = Ok (job, s') ∧ master_inv s' flush ∧ job_ok s' job ∧
    next_to_apply s' = next_to_apply s ∧ backlog s' = backlog s ∧
    next_never_asked_for s <= next_never_asked_for s'.
Proof.
  intros Hinv Hnow Hadv. pose proof Hinv as []. unfold look_for_job, find_next_best_job.
  rewrite mi_missing0, mi_first0.
  destruct (scan_requests_spec now (last_request_times s)
    (seqZ (next_to_apply s) (next_never_asked_for s - next_to_apply s)) 0 None) as (found & -> & Hfound).
  { apply Forall_forall. intros i Hi%elem_of_seqZ. unfold len in *. lia. }
  cbn [mbind outcome_bind].
  assert (∀ i, next_to_apply s <= i < next_never_asked_for s → request_time (last_request_times s) i ≠ 0 →
    ∃ job s', (last_request_times ← vec_set (last_request_times s) i now;
               job ← (h ← vec_get missing i; Ok (h, first +! i));
               Ok (Some job, next_never_asked_for s, last_request_times)) ≫=
        (λ '(job, next_never, times), Ok (job, set_requests s next_never times)) = Ok (job, s') ∧
      master_inv s' flush ∧ job_ok s' job ∧ next_to_apply s' = next_to_apply s ∧ backlog s' = backlog s ∧
      next_never_asked_for s <= next_never_asked_for s') as Hagain.
  { intros i Hi Ht. rewrite vec_set_Ok by (unfold len in *; lia). cbn [mbind outcome_bind].
    destruct (ask_for_Ok i) as (h & Hh & Hr); [lia|]. cbn [mbind outcome_bind] in Hh. rewrite Hh.
    assert (first + i ∉ held s) as Hnh by (intros Hin; by apply Ht, mi_pending0).
    destruct (pending_again s flush i now Hinv Hnow Hi Hnh) as [Hl Hp].
    eexists _, _. split; [reflexivity|]. split_and!; [by apply inv_set_requests| |done..].
    cbn. split_and!; [done|lia|lia|done]. }
  destruct found as [i|o].
  - destruct Hfound as [Hi Ht]. apply elem_of_seqZ in Hi. apply Hagain; [lia|done].
  - destruct can_advance; cbn [negb].
    + destruct (Z.ltb_spec (next_never_asked_for s) (len missing)) as [Hlt|Hge].
      * rewrite vec_set_Ok by (unfold len in *; lia). cbn [mbind outcome_bind].
        destruct (ask_for_Ok (next_never_asked_for s)) as (h & Hh & Hr); [lia|].
        cbn [mbind outcome_bind] in Hh. rewrite Hh.
        rewrite wrap64_small by (unfold in_u64; lia). cbn [mbind outcome_bind].
        assert (first + next_never_asked_for s ∉ held s) as Hnh.
        { intros (x & Hx & Hin)%list_elem_of_fmap_1. rewrite Forall_forall in mi_held0.
          destruct (mi_held0 x Hin). lia. }
        eexists _, _. split; [reflexivity|]. split_and!; [|..|done|done|cbn; lia].
        -- apply inv_set_requests; [done|lia|by rewrite length_insert|].
           intros j Hj. rewrite request_time_insert by (unfold len in *; lia).
           destruct (Z.eqb_spec (next_never_asked_for s) j) as [<-|Hne]; [|apply mi_pending0; lia].
           split; [done|]. by intros ?.
        -- cbn. split_and!; [done|lia|lia|done].
      * destruct (Z.ltb_spec (next_to_apply s) (next_never_asked_for s)) as [Hlt|Hge'].
        -- destruct (ask_for_Ok (next_to_apply s)) as (h & Hh & Hr); [lia|].
           cbn [mbind outcome_bind] in Hh. rewrite Hh. cbn [mbind outcome_bind].
           eexists _, _. split; [reflexivity|]. split_and!; [by apply inv_set_requests|..|done|done|cbn; lia].
           cbn. split_and!; [done|lia|lia|].
           intros (x & Hx & Hin)%list_elem_of_fmap_1. rewrite Forall_forall in mi_held0.
           destruct (mi_held0 x Hin). lia.
        -- cbn [mbind outcome_bind]. eexists _, _. split; [reflexivity|].
           split_and!; [by apply inv_set_requests|..|done|done|cbn; lia]. cbn. lia.
    + destruct o as [k|].
      * destruct Hfound as [?|(i & -> & Hi & Ht)]; [done|]. apply elem_of_seqZ in Hi.
        replace (i + 1 - 1) with i by lia. apply Hagain; [lia|done].
      * exfalso. destruct Hfound as [_ Hnone]. destruct (backlog s) as [|x b] eqn:Hb; [by apply Hadv|].
        apply Forall_cons in mi_held0 as [[Hx _] _].
        assert (first + next_to_apply s ∈ held s) as Hin.
        { apply mi_pending0; [lia|]. apply Hnone, elem_of_seqZ. lia. }
        apply list_elem_of_fmap_1 in Hin as (y & Hy & Hin). pose proof (mi_held _ _ _ Hinv) as Hall.
        rewrite Forall_forall in Hall. destruct (Hall y Hin). lia.
Qed.
(** ** Blocks *)

(** The search in the backlog tells whether the number is there, and where it belongs. *)
Lemma backlog_search (b : list BlockWithNumber) p number :
  StronglySorted descending b →
  match binary_search_by (λ f, number ?= f.2) b with
  | inl _ => number ∈ map snd b
  | inr i => (number ∉ map snd b) ∧ StronglySorted descending (vec_insert b i (p, number))
  end.
Proof.
  induction 1 as [|x b Hb IH Hx]; cbn [binary_search_by].
  - split; [by intros ?%elem_of_nil|]. repeat constructor.
  - rewrite Forall_forall in Hx. destruct (Z.compare_spec number x.2) as [He|Hlt|Hgt].
    + rewrite He. cbn [map]. by left.
    + destruct (binary_search_by (λ f, number ?= f.2) b) as [i|i]; [by right|]. destruct IH as [Hni IH].
      split.
      * intros [He|Hin]%elem_of_cons; [lia|done].
      * unfold vec_insert in *. cbn [take drop app]. constructor; [done|]. apply Forall_forall.
        intros y [Hy|[->|Hy]%elem_of_cons]%elem_of_app; [|done|].
        -- apply Hx. rewrite <- (take_drop i b). apply elem_of_app. by left.
        -- apply Hx. rewrite <- (take_drop i b). apply elem_of_app. by right.
    + split.
      * intros [He|Hin]%elem_of_cons; [lia|]. apply list_elem_of_fmap_1 in Hin as (y & -> & Hy).
        specialize (Hx y Hy). unfold descending in Hx. lia.
      * unfold vec_insert. cbn [take drop app]. constructor; [constructor; [done|by apply Forall_forall]|].
        apply Forall_forall. intros y [->|Hy]%elem_of_cons; [done|]. specialize (Hx y Hy). unfold descending in *.
        cbn. lia.
Qed.

Lemma vec_insert_perm {A} (v : list A) i x : vec_insert v i x ≡ₚ x :: v.
Proof. unfold vec_insert. by rewrite <- Permutation_middle, take_drop. Qed.

(** A block that is ahead is put into the backlog, and its request is no longer pending. *)
Lemma insert_block s flush payload number :
  master_inv s flush → right_block (hash_of payload, number) →
  first + next_to_apply s < number < first + next_never_asked_for s →
  let s1 := match binary_search_by (λ f, number ?= f.2) (backlog s) with
            | inr i => set_backlog s (next_to_apply s) (vec_insert (backlog s) i (payload, number))
            | inl _ => s
            end in
  backlog s1 ≠ [] ∧
  master_inv (set_requests s1 (next_never_asked_for s) (<[Z.to_nat (number - first) := 0]> (last_request_times s))) flush ∧
  first_missing_number s1 = first ∧ next_to_apply s1 = next_to_apply s ∧
  next_never_asked_for s1 = next_never_asked_for s ∧ last_request_times s1 = last_request_times s.
Proof.
  intros Hinv Hright Hnum. pose proof Hinv as []. pose proof (backlog_search (backlog s) payload number mi_sorted0) as Hs.
  assert (∀ b : list BlockWithNumber, (∀ n, n ∈ map snd b ↔ n ∈ held s ∨ n = number) → ∀ i, next_to_apply s <= i < next_never_asked_for s →
    request_time (<[Z.to_nat (number - first):=0]> (last_request_times s)) i = 0 ↔ first + i ∈ map snd b) as Hpend.
  { intros b Hb i Hi. rewrite Hb, request_time_insert by (unfold len in *; lia).
    destruct (Z.eqb_spec (number - first) i) as [<-|Hne].
    - split; [right; lia|done].
    - rewrite mi_pending0 by done. split; [auto|]. intros [?|?]; [done|lia]. }
  destruct (binary_search_by _ _) as [i|i]; cbn.
  - split_and!; [by intros Hn; rewrite Hn in Hs; apply elem_of_nil in Hs| |done..].
    constructor; cbn; try done; [by rewrite length_insert|]. apply Hpend. intros n. split; [auto|].
    by intros [?| ->].
  - destruct Hs as [Hni Hsorted]. pose proof (vec_insert_perm (backlog s) i (payload, number)) as Hp.
    split_and!; [| |done..].
    { intros Hn. rewrite Hn in Hp. by apply Permutation_nil_cons in Hp. }
    constructor; cbn; try done; [by rewrite length_insert| |].
    + rewrite Hp. constructor; [split; [cbn; lia|done]|]. done.
    + apply Hpend. intros n. change (map snd ?x) with (snd <$> x). rewrite Hp. cbn. rewrite elem_of_cons.
      unfold held. tauto.
Qed.

Lemma seqZ_snoc m n : 0 <= n → seqZ m (n + 1) = seqZ m n ++ [m + n].
Proof. intros Hn. rewrite (seqZ_app m n 1) by lia. done. Qed.

(** Passing the awaited block on. *)
Lemma pass_on s flush x rest :
  master_inv_from (first + next_to_apply s) s flush →
  x.2 = first + next_to_apply s → right_block (hash_of x.1, x.2) → next_to_apply s < next_never_asked_for s →
  (∀ n, n ∈ map snd rest ↔ n ∈ held s ∧ n ≠ x.2) → StronglySorted descending rest → rest `sublist_of` backlog s →
  ∀ t, last_wait_start t = 0 →
  master_inv_from (first + next_to_apply s + 1)
    (set_tracker (set_backlog s (next_to_apply s + 1) rest) t) (flush ++ [x]).
Proof.
  intros [] Hx [Hx0 Hb] Hlt Hrest Hsorted Hsub t Ht. cbn in *. constructor; cbn; try done.
  - lia.
  - apply Forall_forall. intros y Hy. pose proof mi_held0 as Hall. rewrite Forall_forall in Hall.
    assert (y ∈ backlog s) as Hin by (by eapply elem_of_submseteq; [|apply sublist_submseteq]).
    destruct (Hall y Hin) as [Hr Hrb]. split; [|done].
    assert (y.2 ∈ map snd rest) as [_ Hne]%Hrest by (by apply list_elem_of_fmap_2). lia.
  - intros i Hi. rewrite mi_pending0 by lia. rewrite Hrest. split; [|by intros []]. intros Hin. split; [done|lia].
  - rewrite map_app, mi_numbers0, seqZ_snoc by lia. cbn. by rewrite Hx.
  - rewrite map_app, mi_blocks0. cbn. replace (Z.to_nat (next_to_apply s + 1)) with (S (Z.to_nat (next_to_apply s))) by lia.
    erewrite take_S_r; [done|]. rewrite Hx in Hb. by replace (first + next_to_apply s - first) with (next_to_apply s) in Hb by lia.
Qed.
(** The lowest block of the backlog is its last one. *)
Lemma backlog_last (b : list BlockWithNumber) x :
  StronglySorted descending (b ++ [x]) →
  StronglySorted descending b ∧ ∀ n, n ∈ map snd b ↔ n ∈ map snd (b ++ [x]) ∧ n ≠ x.2.
Proof.
  intros Hs. apply StronglySorted_app in Hs as (Hlt & Hb & _). split; [done|].
  intros n. rewrite map_app, elem_of_app. cbn. rewrite list_elem_of_singleton. split.
  - intros Hn. split; [by left|]. apply list_elem_of_fmap_1 in Hn as (y & -> & Hy).
    specialize (Hlt y x Hy ltac:(by left)). unfold descending in Hlt. lia.
  - by intros [[Hn|Hn] Hne].
Qed.

(** From here on the receiver of the blocks is there. *)
Context (accepts : list BlockWithNumber → bool).
Hypothesis receiver_there : ∀ flush, accepts flush = true.

(** The backlog is passed on up to the first gap; only numbers above the awaited one are
    left. *)
Lemma apply_from_backlog_spec fuel : ∀ s flush,
  master_inv_from (first + next_to_apply s) s flush → (length (backlog s) < fuel)%nat →
  ∃ rest next flush', apply_from_backlog accepts fuel (backlog s) first (next_to_apply s) flush
      = Some (rest, next, flush') ∧
    (∀ t, last_wait_start t = 0 → master_inv (set_tracker (set_backlog s next rest) t) flush') ∧
    next_to_apply s <= next.
Proof.
  induction fuel as [|fuel IH]; intros s flush Hinv Hfuel; [lia|].
  cbn [apply_from_backlog]. pose proof Hinv as [].
  assert (∀ t, last_wait_start t = 0 → (∀ y, y ∈ backlog s → y.2 ≠ first + next_to_apply s) →
    master_inv (set_tracker (set_backlog s (next_to_apply s) (backlog s)) t) flush) as Hstop.
  { intros t Ht Hne. constructor; cbn; try done. apply Forall_forall. intros y Hy. rewrite Forall_forall in mi_held0.
    destruct (mi_held0 y Hy) as [Hr ?]. specialize (Hne y Hy). split; [lia|done]. }
  destruct (last (backlog s)) as [x|] eqn:Hlast.
  2: { apply last_None in Hlast. exists (backlog s), (next_to_apply s), flush. split_and!; [done| |lia].
    intros t Ht. apply Hstop; [done|]. rewrite Hlast. by intros y ?%elem_of_nil. }
  apply last_Some in Hlast as [b Hb]. rewrite Hb in mi_sorted0. destruct (backlog_last b x mi_sorted0) as [Hsorted Hrest].
  rewrite wrap64_small by (unfold in_u64; lia).
  destruct (Z.eqb_spec x.2 (first + next_to_apply s)) as [He|Hne].
  - assert (x ∈ backlog s) as Hx by (rewrite Hb; apply elem_of_app; right; by left).
    pose proof mi_held0 as Hall. rewrite Forall_forall in Hall. destruct (Hall x Hx) as [Hr Hrb].
    unfold flush_send. rewrite receiver_there. rewrite Hb, removelast_last.
    rewrite (wrap64_small (next_to_apply s + 1)) by (unfold in_u64; lia).
    pose proof (pass_on s flush x b Hinv He Hrb ltac:(lia)) as Hpass.
    specialize (Hpass ltac:(unfold held; rewrite Hb; exact Hrest) Hsorted ltac:(rewrite Hb; by apply sublist_inserts_r)).
    specialize (Hpass (flush_time_tracker s) mi_idle0).
    set (s' := set_tracker (set_backlog s (next_to_apply s + 1) b) (flush_time_tracker s)) in *.
    replace (first + next_to_apply s + 1) with (first + next_to_apply s') in Hpass by (cbn; lia).
    destruct (IH s' (flush ++ [x]) Hpass) as (rest & next & flush' & Heq & Hinv' & Hle).
    { cbn. rewrite Hb, length_app in Hfuel. cbn in Hfuel. lia. }
    exists rest, next, flush'. split_and!; [exact Heq|exact Hinv'|cbn in Hle; lia].
  - exists (backlog s), (next_to_apply s), flush. split_and!; [done| |lia]. intros t Ht. apply Hstop; [done|].
    intros y Hy. rewrite Hb in Hy. apply elem_of_app in Hy as [Hy| ->%list_elem_of_singleton]; [|done].
    assert (x ∈ backlog s) as Hx by (rewrite Hb; apply elem_of_app; right; by left).
    rewrite Forall_forall in mi_held0. destruct (mi_held0 x Hx) as [Hr _].
    apply StronglySorted_app in mi_sorted0 as (Hlt & _). specialize (Hlt y x Hy ltac:(by left)).
    unfold descending in Hlt. lia.
Qed.

Lemma inv_set_statistics s flush avg n : master_inv s flush → master_inv (set_statistics s avg n) flush.
Proof. by intros []. Qed.

(** A block that was asked for is kept, discarded or passed on; the awaited one moves
    the master on. *)
Lemma handle_result_spec s flush payload number r :
  master_inv s flush → right_block (hash_of payload, number) → first <= number < first + next_never_asked_for s →
  wait_begins r ≠ 0 →
  ∃ s' flush', handle_result buffer_len accepts s payload number r flush = Ok (s', flush', true) ∧
    master_inv s' flush' ∧ next_never_asked_for s' = next_never_asked_for s ∧
    next_to_apply s <= next_to_apply s' ∧
    (number = first + next_to_apply s → next_to_apply s < next_to_apply s').
Proof.
  intros Hinv0 Hright Hnum Hclock. unfold handle_result.
  set (s0 := set_statistics s _ _). assert (master_inv s0 flush) as Hinv by (by apply inv_set_statistics).
  change (next_never_asked_for s) with (next_never_asked_for s0) in *.
  change (next_to_apply s) with (next_to_apply s0) in *. clearbody s0. clear Hinv0 s. rename s0 into s.
  pose proof Hinv as []. rewrite mi_first0, (wrap64_small (first + _)) by (unfold in_u64; lia).
  destruct (Z.ltb_spec (first + next_to_apply s) number) as [Hgt|Hle].
  - destruct (insert_block s flush payload number Hinv Hright ltac:(lia)) as (_ & Hins & Hf & Hna & Hnn & Ht).
    rewrite Ht, Hf, Hnn. rewrite vec_set_Ok by (rewrite wrap64_small by (unfold in_u64; lia); unfold len in *; lia).
    rewrite wrap64_small by (unfold in_u64; lia). cbn [mbind outcome_bind].
    eexists _, flush. split_and!; [reflexivity|exact Hins|done|cbn; by rewrite Hna|lia].
  - destruct (Z.ltb_spec number (first + next_to_apply s)) as [Hlt|Hge].
    + exists s, flush. split_and!; [done..|lia].
    + assert (number = first + next_to_apply s) as He by lia.
      unfold tt_start. cbn [flush_time_tracker set_backlog]. rewrite mi_idle0. cbn [negb mbind outcome_bind Z.eqb].
      unfold flush_send. rewrite receiver_there.
      rewrite (wrap64_small (next_to_apply s + 1)) by (unfold in_u64; lia).
      pose proof (pass_on s flush (payload, number) (backlog s)) as Hpass.
      specialize (Hpass ltac:(constructor; try done; eapply Forall_impl; [exact mi_held0|]; intros x [? ?]; split; [lia|done])).
      specialize (Hpass He Hright ltac:(lia)).
      assert (∀ n, n ∈ map snd (backlog s) ↔ n ∈ held s ∧ n ≠ (payload, number).2) as Hkeep.
      { intros n. split; [|by intros []]. intros Hn. split; [done|]. apply list_elem_of_fmap_1 in Hn as (y & -> & Hy).
        rewrite Forall_forall in mi_held0. destruct (mi_held0 y Hy). cbn. lia. }
      specialize (Hpass Hkeep mi_sorted0 ltac:(done)).
      specialize (Hpass (flush_time_tracker s) mi_idle0).
      set (s1 := set_tracker (set_backlog s (next_to_apply s + 1) (backlog s)) (flush_time_tracker s)) in *.
      replace (first + next_to_apply s + 1) with (first + next_to_apply s1) in Hpass by (cbn; lia).
      destruct (apply_from_backlog_spec (S (length (backlog s1))) s1 _ Hpass) as (rest & next & flush' & Heq & Hinv' & Hle');
        [lia|].
      cbn in Heq. cbn. rewrite mi_first0, Heq. cbn. unfold tt_stop. cbn.
      rewrite (proj2 (Z.eqb_neq (wait_begins r) 0)) by done. cbn.
      eexists _, flush'. split_and!; [reflexivity| |done|cbn in *; lia|cbn in *; lia].
      by apply (Hinv' (mkTimeTracker _ 0)).
Qed.
(** ** Messages *)

(** A message of a worker that was given the job it answers. *)
Definition answers_job (s : State) (message : @DownloadWorkerMessage Payload) : Prop :=
  match message with
  | PullFirstJob => True
  | PushResultAndGetNewJob payload number =>
      right_block (hash_of payload, number) ∧ first <= number < first + next_never_asked_for s
  end.

(** The clock does not read zero. *)
Definition readings_ok (r : Readings) : Prop := 0 < wait_begins r < 2 ^ 64 ∧ 0 < job_time r < 2 ^ 64.

Lemma handle_message_spec s flush message r :
  master_inv s flush → answers_job s message → readings_ok r →
  ∃ job s' flush', handle_worker_message buffer_len accepts message s r flush = Ok (job, s', flush') ∧
    master_inv s' flush' ∧ job_ok s' job ∧ next_never_asked_for s <= next_never_asked_for s' ∧
    next_to_apply s <= next_to_apply s' ∧
    (∀ payload, message = PushResultAndGetNewJob payload (first + next_to_apply s) →
       next_to_apply s < next_to_apply s').
Proof.
  intros Hinv Hans [Hr1 Hr2]. assert (wait_begins r ≠ 0 ∧ job_time r ≠ 0) as [Hw0 Hj0] by lia. destruct message as [|payload number]; cbn [handle_worker_message].
  - destruct (look_for_job_spec s flush true (job_time r)) as (job & s' & Hjob & Hinv' & Hok & Hna & _ & Hnn); [done..|].
    rewrite Hjob. cbn. exists job, s', flush. split_and!; [done..|lia|done].
  - destruct Hans as [Hright Hnum].
    destruct (handle_result_spec s flush payload number r) as (s1 & flush1 & Hres & Hinv1 & Hnn1 & Hna1 & Hadv1); [done..|].
    rewrite Hres. cbn [mbind outcome_bind negb].
    destruct (look_for_job_spec s1 flush1 (len (backlog s1) <=? 512) (job_time r))
      as (job & s' & Hjob & Hinv' & Hok & Hna & _ & Hnn); [done..| |].
    { intros Hlen Hnil. rewrite Hnil in Hlen. done. }
    rewrite Hjob. cbn. exists job, s', flush1. split_and!; [done..|lia|lia|].
    intros p [= _ He]. specialize (Hadv1 He). lia.
Qed.

(** * The master and its workers *)

(** The state of the master, the blocks it passed on, and the jobs of the workers. *)
Record world := mkWorld {
  w_master : State;
  w_flush : list BlockWithNumber;
  w_jobs : list BlockHashWithNumber;
}.

Definition world_new : world := mkWorld (MasterState_new missing first) [] [].

Inductive step : world → world → Prop :=
| step_worker s flush jobs r job s' flush' :
    (** a worker starts and asks for its first job *)
    readings_ok r →
    handle_worker_message buffer_len accepts PullFirstJob s r flush = Ok (job, s', flush') →
    step (mkWorld s flush jobs) (mkWorld s' flush' (option_list job ++ jobs))
| step_block s flush jobs payload number rest r job s' flush' :
    (** a worker has got the block of its job, and asks for the next job *)
    readings_ok r → jobs ≡ₚ (hash_of payload, number) :: rest →
    handle_worker_message buffer_len accepts (PushResultAndGetNewJob payload number) s r flush
      = Ok (job, s', flush') →
    step (mkWorld s flush jobs) (mkWorld s' flush' (option_list job ++ rest))
| step_lost s flush jobs job rest :
    (** a worker is ended, and its job with it *)
    jobs ≡ₚ job :: rest → step (mkWorld s flush jobs) (mkWorld s flush rest).

(** The jobs of the workers are right ones that were asked for. *)
Definition job_given (s : State) (job : BlockHashWithNumber) : Prop :=
  right_block job ∧ first <= job.2 < first + next_never_asked_for s.

Definition world_inv (w : world) : Prop :=
  master_inv (w_master w) (w_flush w) ∧ Forall (job_given (w_master w)) (w_jobs w).

Lemma given_mono s s' jobs :
  next_never_asked_for s <= next_never_asked_for s' → Forall (job_given s) jobs → Forall (job_given s') jobs.
Proof. intros Hn Hj. eapply Forall_impl; [exact Hj|]. intros j [? ?]. split; [done|lia]. Qed.

Lemma given_new s flush job : master_inv s flush → job_ok s job → Forall (job_given s) (option_list job).
Proof.
  intros Hinv Hok. destruct job as [[h n]|]; cbn; [|constructor]. destruct Hok as (Hr & Hn & _).
  pose proof (mi_order _ _ _ Hinv). constructor; [|constructor]. split; [done|cbn; lia].
Qed.

Lemma handled_inv s flush jobs message r job s' flush' :
  master_inv s flush → Forall (job_given s) jobs → answers_job s message → readings_ok r →
  handle_worker_message buffer_len accepts message s r flush = Ok (job, s', flush') →
  world_inv (mkWorld s' flush' (option_list job ++ jobs)).
Proof.
  intros Hinv Hjobs Hans Hr Hh.
  destruct (handle_message_spec s flush message r Hinv Hans Hr) as (job' & s1 & f1 & Hh' & Hinv' & Hok & Hnn & _).
  rewrite Hh in Hh'. injection Hh' as -> -> ->. split; [done|]. cbn. apply Forall_app. split.
  - by eapply given_new.
  - by eapply given_mono.
Qed.

Lemma step_inv w w' : step w w' → world_inv w → world_inv w'.
Proof.
  intros Hstep [Hinv Hjobs]. destruct Hstep as [s flush jobs r job s' flush' Hr Hh
    |s flush jobs p n rest r job s' flush' Hr Hp Hh|s flush jobs job rest Hp]; cbn in *.
  - by eapply (handled_inv s flush jobs PullFirstJob).
  - rewrite Hp in Hjobs. apply Forall_cons in Hjobs as [[Hright Hn] Hrest].
    by eapply (handled_inv s flush rest (PushResultAndGetNewJob p n)).
  - rewrite Hp in Hjobs. apply Forall_cons in Hjobs as [_ Hrest]. by split.
Qed.

Definition reachable (w : world) : Prop := rtc step world_new w.

Lemma steps_inv w w' : rtc step w w' → world_inv w → world_inv w'.
Proof. induction 1 as [|w w1 w' Hs _ IH]; [done|]. intros Hw. by eapply IH, step_inv. Qed.

Lemma reachable_inv w : reachable w → world_inv w.
Proof. intros Hw. eapply steps_inv; [exact Hw|]. split; [apply master_inv_new|constructor]. Qed.

(** ** Progress *)

Lemma late_time t : ∃ now, 0 < now < 2 ^ 64 ∧ 1000 < wrap64 (now - t).
Proof.
  assert (∀ k, wrap64 (wrap64 (t + k) - t) = wrap64 k) as Hk.
  { intros k. unfold wrap64. rewrite Zminus_mod_idemp_l. f_equal. lia. }
  pose proof (wrap64_range (t + 2000)) as H2. pose proof (wrap64_range (t + 3000)) as H3. unfold in_u64 in *.
  destruct (decide (wrap64 (t + 2000) = 0)) as [Hz|Hz].
  - exists (wrap64 (t + 3000)). rewrite Hk. split; [|by vm_compute]. enough (wrap64 (t + 3000) ≠ 0) by lia.
    unfold wrap64 in *. intros Hz'. Z.div_mod_to_equations. lia.
  - exists (wrap64 (t + 2000)). rewrite Hk. split; [lia|by vm_compute].
Qed.

(** Late enough, the job that is found is the awaited block. *)
Lemma late_job s flush can_advance :
  master_inv s flush → next_to_apply s < len missing → (can_advance = false → backlog s ≠ []) →
  ∃ now h s', 0 < now < 2 ^ 64 ∧ look_for_job s can_advance now = Ok (Some (h, first + next_to_apply s), s') ∧
    next_to_apply s' = next_to_apply s.
Proof.
  intros Hinv Hlt Hadv. pose proof Hinv as []. destruct (late_time (request_time (last_request_times s) (next_to_apply s)))
    as (now & Hnow & Hlate).
  destruct (ask_for_Ok (next_to_apply s)) as (h & Hh & _); [lia|]. cbn [mbind outcome_bind] in Hh.
  exists now, h. unfold look_for_job, find_next_best_job. rewrite mi_missing0, mi_first0.
  destruct (decide (next_to_apply s = next_never_asked_for s)) as [He|Hne].
  - assert (can_advance = true) as ->.
    { destruct can_advance; [done|]. destruct (backlog s) as [|x l]; [by destruct (Hadv eq_refl)|].
      rewrite Forall_cons in mi_held0. lia. }
    rewrite He, Z.sub_diag in *. cbn. rewrite (proj2 (Z.ltb_lt _ _)) by lia.
    rewrite vec_set_Ok by (unfold len in *; lia). cbn. rewrite Hh. cbn.
    eexists. split; [lia|]. split; [reflexivity|done].
  - rewrite (seqZ_cons (next_to_apply s)) by lia. cbn [scan_requests]. rewrite vec_get_time by (unfold len in *; lia).
    cbn [mbind outcome_bind]. rewrite (proj2 (Z.eqb_neq _ _)).
    + rewrite (proj2 (Z.ltb_lt 1000 _)) by done. cbn [mbind outcome_bind].
      rewrite vec_set_Ok by (unfold len in *; lia). cbn. rewrite Hh. cbn.
      eexists. split; [lia|]. split; [reflexivity|done].
    + rewrite mi_pending0 by lia. intros (x & Hx & Hin)%list_elem_of_fmap_1. rewrite Forall_forall in mi_held0.
      destruct (mi_held0 x Hin). lia.
Qed.

(** A worker that asks late enough gets the awaited block. *)
Lemma awaited_job s flush :
  master_inv s flush → next_to_apply s < len missing →
  ∃ r h s', readings_ok r ∧
    handle_worker_message buffer_len accepts PullFirstJob s r flush = Ok (Some (h, first + next_to_apply s), s', flush) ∧
    next_to_apply s' = next_to_apply s.
Proof.
  intros Hinv Hlt. destruct (late_job s flush true Hinv Hlt) as (now & h & s' & Hnow & Hj & Hn); [done|].
  exists (mkReadings now now now), h, s'. split; [unfold readings_ok; cbn; lia|]. split; [|done].
  cbn [handle_worker_message job_time]. by rewrite Hj.
Qed.

(** So is the one after a result. *)
Lemma result_then_awaited s flush payload number :
  master_inv s flush → right_block (hash_of payload, number) → first <= number < first + next_never_asked_for s →
  ∃ r job s' flush', readings_ok r ∧
    handle_worker_message buffer_len accepts (PushResultAndGetNewJob payload number) s r flush = Ok (job, s', flush') ∧
    next_to_apply s <= next_to_apply s' ∧ (number = first + next_to_apply s → next_to_apply s < next_to_apply s') ∧
    (next_to_apply s' < len missing → ∃ h, job = Some (h, first + next_to_apply s')).
Proof.
  intros Hinv Hright Hnum.
  destruct (handle_result_spec s flush payload number (mkReadings 1 1 1) Hinv Hright Hnum) as (s1 & flush1 & Hres & Hinv1 & _ & Hna & Hadv); [done|].
  assert (∀ now, handle_worker_message buffer_len accepts (PushResultAndGetNewJob payload number) s (mkReadings 1 1 now) flush
    = '(job, s) ← look_for_job s1 (len (backlog s1) <=? 512) now; Ok (job, s, flush1)) as Hmsg.
  { intros now. cbn [handle_worker_message].
    change (handle_result buffer_len accepts s payload number (mkReadings 1 1 now) flush)
      with (handle_result buffer_len accepts s payload number (mkReadings 1 1 1) flush). by rewrite Hres. }
  assert (∀ now, readings_ok (mkReadings 1 1 now) ↔ 0 < now < 2 ^ 64) as Hok.
  { intros now. unfold readings_ok. cbn. split; [by intros []|done]. }
  assert ((len (backlog s1) <=? 512) = false → backlog s1 ≠ []) as Hheld by (intros Hlen Hnil; by rewrite Hnil in Hlen).
  destruct (decide (next_to_apply s1 < len missing)) as [Hlt|Hge].
  - destruct (late_job s1 flush1 _ Hinv1 Hlt Hheld) as (now & h & s' & Hnow & Hj & Hn).
    exists (mkReadings 1 1 now), (Some (h, first + next_to_apply s1)), s', flush1. rewrite Hok, Hmsg, Hj, Hn.
    split_and!; [lia|lia|done|lia|done|]. intros _. by exists h.
  - destruct (look_for_job_spec s1 flush1 (len (backlog s1) <=? 512) 1) as (job & s' & Hj & _ & _ & Hn & _); [done..|].
    exists (mkReadings 1 1 1), job, s', flush1. rewrite Hok, Hmsg, Hj, Hn. split_and!; try done; lia.
Qed.

(** * Properties *)

(** Whatever the workers do and in whichever order their blocks come, the
    master passes the missing blocks on in the order of the chain, each once and none
    left out, and holds back only blocks that come later. *)
Theorem sync_in_order w :
  reachable w →
  let n := next_to_apply (w_master w) in
  map (λ x, hash_of x.1) (w_flush w) = take (Z.to_nat n) missing ∧
  map snd (w_flush w) = seqZ first n ∧ 0 <= n <= len missing ∧
  ∀ x, x ∈ backlog (w_master w) → first + n < x.2 ∧ right_block (hash_of x.1, x.2).
Proof.
  intros Hw. destruct (reachable_inv w Hw) as [[] _]. cbn. split_and!; [done|done|lia|lia|].
  intros x Hx. rewrite Forall_forall in mi_held0. destruct (mi_held0 x Hx). split; [lia|done].
Qed.

(** The master never panics: every worker gets an answer, a job for a
    missing block that neither was passed on nor is held, and none just when all
    blocks were passed on. *)
Theorem sync_answers w r message :
  reachable w → readings_ok r →
  match message with
  | PullFirstJob => True
  | PushResultAndGetNewJob payload number => (hash_of payload, number) ∈ w_jobs w
  end →
  ∃ job s' flush', handle_worker_message buffer_len accepts message (w_master w) r (w_flush w) = Ok (job, s', flush') ∧
    match job with
    | Some (h, number) =>
        right_block (h, number) ∧ (number ∉ map snd flush') ∧ (number ∉ held s')
    | None => map (λ x, hash_of x.1) flush' = missing
    end.
Proof.
  intros Hw Hr Hm. destruct (reachable_inv w Hw) as [Hinv Hjobs].
  destruct (handle_message_spec (w_master w) (w_flush w) message r) as (job & s' & flush' & Hh & Hinv' & Hok & _); [done| |done|].
  - destruct message as [|p n]; [done|]. rewrite Forall_forall in Hjobs. by apply (Hjobs (hash_of p, n)).
  - exists job, s', flush'. split; [done|]. destruct job as [[h n]|]; cbn in Hok.
    + destruct Hok as (Hright & Hn & Hheld). split_and!; [done| |done].
      rewrite (mi_numbers _ _ _ Hinv'), elem_of_seqZ. lia.
    + rewrite (mi_blocks _ _ _ Hinv'), Hok. apply take_ge. unfold len. lia.
Qed.

(** From every reachable state the download can be completed: as long as
    blocks are missing, a worker that asks late enough is given the awaited block, and
    with it the master moves on. *)
Theorem sync_can_finish w :
  (∀ h, h ∈ missing → ∃ payload, hash_of payload = h) → reachable w →
  ∃ w', rtc step w w' ∧ map (λ x, hash_of x.1) (w_flush w') = missing.
Proof.
  intros Hsource Hw. apply reachable_inv in Hw.
  remember (Z.to_nat (len missing - next_to_apply (w_master w))) as n eqn:Hn.
  revert w Hw Hn. induction (lt_wf n) as [n _ IH]. intros w Hw ->. destruct w as [s flush jobs].
  pose proof Hw as [Hinv Hjobs]. cbn in *. destruct (decide (next_to_apply s < len missing)) as [Hlt|Hge].
  - destruct (awaited_job s flush Hinv Hlt) as (r & h & s1 & Hr & Hh & Hna).
    assert (step (mkWorld s flush jobs) (mkWorld s1 flush ((h, first + next_to_apply s) :: jobs))) as Hstep1
      by (by apply (step_worker s flush jobs r (Some (h, first + next_to_apply s)))).
    pose proof (step_inv _ _ Hstep1 Hw) as [Hinv1 Hjobs1]. cbn in Hinv1, Hjobs1.
    apply Forall_cons in Hjobs1 as [[Hright Hgiven] Hjobs1]. cbn in Hgiven.
    destruct (Hsource h) as [p Hp]; [by eapply list_elem_of_lookup_2, Hright|].
    destruct (handle_message_spec s1 flush (PushResultAndGetNewJob p (first + next_to_apply s)) r)
      as (job & s2 & flush2 & Hh2 & Hinv2 & Hok2 & Hnn2 & Hle2 & Hadv); [done|by cbn; rewrite Hp|done|].
    specialize (Hadv p). rewrite Hna in Hadv. specialize (Hadv eq_refl).
    assert (step (mkWorld s1 flush ((h, first + next_to_apply s) :: jobs)) (mkWorld s2 flush2 (option_list job ++ jobs))) as Hstep2
      by (apply (step_block s1 flush _ p (first + next_to_apply s) jobs r job s2 flush2); [done|by rewrite Hp|done]).
    edestruct (IH (Z.to_nat (len missing - next_to_apply s2))) as (w' & Hsteps & Hdone);
      [|exact (step_inv _ _ Hstep2 (conj Hinv1 (Forall_cons_2 _ _ _ (conj Hright Hgiven) Hjobs1)))|reflexivity|].
    + pose proof (mi_order _ _ _ Hinv). lia.
    + exists w'. split; [|done]. eapply rtc_l; [exact Hstep1|]. by eapply rtc_l.
  - exists (mkWorld s flush jobs). split; [done|]. cbn. rewrite (mi_blocks _ _ _ Hinv). apply take_ge. unfold len in Hge. lia.
Qed.
End invariant.

(** * A writer that is gone *)

(** From some send on all are refused. Until then the master does what it does with a writer that takes
    everything; the blocks sent are an initial part of those it would have sent. *)
Section refused.
Context {Payload : Type} (buffer_len : Payload → Z) (accepts : list (Payload * Z) → bool).

Definition taking (_ : list (Payload * Z)) : bool := true.

Lemma look_for_job_class (s : @MasterState Payload) can_advance now :
  match look_for_job s can_advance now with Ok _ | Panic _ => True | _ => False end.
Proof.
  assert (∀ {A} (v : list A) i, match vec_get v i with Ok _ | Panic _ => True | _ => False end) as Hget.
  { intros A v i. unfold vec_get. by destruct (if i <? 0 then None else _). }
  assert (∀ {A} (v : list A) i x, match vec_set v i x with Ok _ | Panic _ => True | _ => False end) as Hset.
  { intros A v i x. unfold vec_set. by destruct (_ && _). }
  assert (∀ now times ids o oi, match scan_requests now times ids o oi with Ok _ | Panic _ => True | _ => False end) as Hscan.
  { intros now0 times ids. induction ids as [|i ids IH]; intros o oi; cbn [scan_requests]; [done|].
    pose proof (Hget _ times i) as Hg. destruct (vec_get times i) as [t| | |]; [|done..]. cbn [mbind outcome_bind].
    destruct (t =? 0); [apply IH|]. cbv zeta. destruct (1000 <? _); [done|]. destruct oi; [|apply IH]. destruct (o <? _); apply IH. }
  unfold look_for_job, find_next_best_job. pose proof (Hscan now (last_request_times s)
    (seqZ (next_to_apply s) (next_never_asked_for s - next_to_apply s)) 0 None) as Hs.
  repeat match goal with
  | |- context [vec_get ?v ?i] => pose proof (Hget _ v i); destruct (vec_get v i); try done; cbn [mbind outcome_bind]
  | |- context [vec_set ?v ?i ?x] => pose proof (Hset _ v i x); destruct (vec_set v i x); try done; cbn [mbind outcome_bind]
  | |- context [scan_requests ?a ?b ?c ?d ?e] => destruct (scan_requests a b c d e) as [[?|[?|]]| | |]; try done; cbn [mbind outcome_bind]
  | |- context [if ?b then _ else _] => destruct b; cbn [mbind outcome_bind]; try done
  end.
Qed.

Lemma backlog_grows fuel first : ∀ b n (flush : list (Payload * Z)) b' n' flush',
  apply_from_backlog taking fuel b first n flush = Some (b', n', flush') → flush `prefix_of` flush'.
Proof.
  induction fuel as [|fuel IH]; intros b n flush b' n' flush' Ha; [done|]. cbn [apply_from_backlog] in Ha.
  destruct (last b) as [popped|]; [|by simplify_eq]. destruct (_ =? _); [|by simplify_eq]. cbn [flush_send taking] in Ha.
  etrans; [|by eapply IH]. by apply prefix_app_r.
Qed.

Lemma apply_refused fuel first : ∀ b n (flush : list (Payload * Z)) b' n' flush',
  apply_from_backlog taking fuel b first n flush = Some (b', n', flush') →
  apply_from_backlog accepts fuel b first n flush = Some (b', n', flush') ∨
  ∃ b2 n2 flush2, apply_from_backlog accepts fuel b first n flush = Some (b2, n2, flush2) ∧
    flush2 `prefix_of` flush' ∧ accepts flush2 = false.
Proof.
  induction fuel as [|fuel IH]; intros b n flush b' n' flush' Ha; [done|]. pose proof (backlog_grows _ _ _ _ _ _ _ _ Ha) as Hg.
  cbn [apply_from_backlog] in *. destruct (last b) as [popped|]; [|by left]. destruct (_ =? _); [|by left].
  unfold flush_send at 1 2. cbn [flush_send taking] in Ha. destruct (accepts flush) eqn:Hf.
  - destruct (IH _ _ _ _ _ _ Ha) as [->|(b2 & n2 & f2 & -> & ? & ?)]; [by left|right; eauto 6].
  - right. eauto 6.
Qed.

(** Blocks that were sent before a send that is refused *)
Definition refused (flush : list (Payload * Z)) (flush2 : list (Payload * Z)) : Prop :=
  flush2 `prefix_of` flush ∧ accepts flush2 = false.

Lemma result_refused s payload number r flush s' flush' b :
  handle_result buffer_len taking s payload number r flush = Ok (s', flush', b) →
  handle_result buffer_len accepts s payload number r flush = Ok (s', flush', b) ∨
  ∃ s2 flush2 b2, handle_result buffer_len accepts s payload number r flush = Ok (s2, flush2, b2) ∧ refused flush' flush2.
Proof.
  unfold handle_result. cbv zeta. destruct (_ <? number); [by left|]. destruct (number <? _); [by left|].
  destruct (tt_start _ _) as [t| | |]; [|done..]. cbn [mbind outcome_bind]. unfold flush_send. cbn [taking].
  destruct (apply_from_backlog taking _ _ _ _ _) as [[[b1 n1] f1]|] eqn:Ha; [|done]. cbn [expect mbind outcome_bind].
  intros Hr. obind Hr. injection Hr as <- <- <-.
  pose proof (backlog_grows _ _ _ _ _ _ _ _ Ha) as Hg. destruct (accepts flush) eqn:Hf.
  - destruct (apply_refused _ _ _ _ _ _ _ _ Ha) as [->|(b2 & n2 & f2 & -> & Hp & Hs)]; cbn [expect mbind outcome_bind].
    + left. by rewrite Hv.
    + right. cbn [set_backlog flush_time_tracker set_tracker] in *. rewrite Hv. cbn [mbind outcome_bind].
      eexists _, _, _. split; [reflexivity|]. by split.
  - right. eexists _, _, _. split; [reflexivity|]. split; [|done]. etrans; [|exact Hg]. by apply prefix_app_r.
Qed.

(** What the master makes of a message, compared with the writer that takes everything *)
Lemma message_refused message s r flush job s' flush' :
  handle_worker_message buffer_len taking message s r flush = Ok (job, s', flush') →
  handle_worker_message buffer_len accepts message s r flush = Ok (job, s', flush') ∨
  match handle_worker_message buffer_len accepts message s r flush with
  | Ok (_, _, flush2) => refused flush' flush2
  | Panic _ => ∃ flush2, refused flush' flush2
  | _ => False
  end.
Proof.
  destruct message as [|payload number]; cbn [handle_worker_message]; [by left|]. intros Hh. obind Hh. destruct v as [[s1 f1] b1].
  assert (f1 = flush') as ->.
  { destruct b1; cbn [negb] in Hh; [|by injection Hh]. obind Hh. destruct v as [job1 s2]. by injection Hh. }
  destruct (result_refused _ _ _ _ _ _ _ _ Hv) as [->|(s2 & f2 & b2 & -> & Hp)]; [by left|right]. cbn [mbind outcome_bind].
  destruct b2; cbn [negb]; [|done]. pose proof (look_for_job_class s2 (len (backlog s2) <=? 512) (job_time r)) as Hl.
  destruct (look_for_job s2 _ _) as [[job2 s3]| | |]; cbn [mbind outcome_bind]; [exact Hp|exact Hl|by exists f2|exact Hl].
Qed.

(** Once a send was refused, nothing is sent any more. *)
Lemma message_gone message s r flush :
  accepts flush = false →
  match handle_worker_message buffer_len accepts message s r flush with
  | Ok (_, _, flush2) => flush2 = flush
  | Panic _ => True
  | _ => False
  end.
Proof.
  intros Hf. assert (∀ (s : @MasterState Payload) can_advance now (f : list (Payload * Z)), match '(job, s) ← look_for_job s can_advance now; Ok (job, s, f) with
    | Ok (_, _, flush2) => flush2 = f | Panic _ => True | _ => False end) as Hjob.
  { intros s0 can_advance now f. pose proof (look_for_job_class s0 can_advance now) as Hl. by destruct (look_for_job _ _ _) as [[]| | |]. }
  destruct message as [|payload number]; cbn [handle_worker_message]; [apply Hjob|]. unfold handle_result. cbv zeta.
  destruct (_ <? number).
  { unfold vec_set. destruct (_ && _); cbn [mbind outcome_bind negb]; [apply Hjob|done]. }
  destruct (number <? _); [cbn [mbind outcome_bind negb]; apply Hjob|].
  unfold tt_start. destruct (negb _); [done|]. cbn [mbind outcome_bind]. unfold flush_send. by rewrite Hf.
Qed.

(** The send of the awaited block itself is refused: the measurement of the time is not ended, and from then
    on the master panics at its next tick. *)
Lemma tick_after_refusal s payload number r flush s' flush' max_workers workers a b t :
  handle_result buffer_len accepts s payload number r flush = Ok (s', flush', false) → wait_begins r ≠ 0 →
  accepts flush = false ∧ flush' = flush ∧ ∃ m, update_workers max_workers workers a b t s' = Panic m.
Proof.
  unfold handle_result. cbv zeta. destruct (_ <? number); [intros Hr; by obind Hr|]. destruct (number <? _); [done|].
  unfold tt_start. destruct (negb _); [done|]. cbn [mbind outcome_bind]. unfold flush_send. destruct (accepts flush).
  { destruct (apply_from_backlog _ _ _ _ _ _) as [[[b1 n1] f1]|]; [|done]. cbn [expect mbind outcome_bind]. intros Hr. by obind Hr. }
  intros [= <- <-] Hw. split_and!; [done..|]. unfold update_workers, tt_reset. cbn [set_tracker flush_time_tracker last_wait_start].
  rewrite (proj2 (Z.eqb_neq _ _)) by done. cbn [negb mbind outcome_bind]. by eexists.
Qed.
End refused.

(** * An example: three blocks, of which the second comes first *)

Definition toy_missing : list hash := [to_le 32 11; to_le 32 12; to_le 32 13].
Definition toy_buffer_len (_ : hash) : Z := 80.
Definition toy_accepts (_ : list (hash * Z)) : bool := true.
Definition toy_readings : Readings := mkReadings 1 2 3.

Lemma toy_first_range : 0 <= 100 ∧ 100 + len toy_missing < 2 ^ 63.
Proof. vm_compute. split; [discriminate|reflexivity]. Qed.

Definition toy_turn (message : DownloadWorkerMessage) (rest : list (hash * Z) → list (hash * Z)) (w : world) :
    @world hash :=
  match handle_worker_message toy_buffer_len toy_accepts message (w_master w) toy_readings (w_flush w) with
  | Ok (job, s, flush) => mkWorld s flush (option_list job ++ rest (w_jobs w))
  | _ => w
  end.

Definition toy_world : @world hash :=
  toy_turn (PushResultAndGetNewJob (to_le 32 12) 101) tail
    (toy_turn PullFirstJob id (toy_turn PullFirstJob id (world_new toy_missing 100))).

Lemma toy_readings_ok : readings_ok toy_readings.
Proof. split; split; reflexivity. Qed.

Lemma toy_world_reachable : reachable toy_buffer_len id toy_missing 100 toy_accepts toy_world.
Proof.
  eapply rtc_l; [|eapply rtc_l; [|eapply rtc_l; [|apply rtc_refl]]].
  - apply (step_worker _ _ _ _ [] [] toy_readings (Some (to_le 32 11, 100))); [apply toy_readings_ok|].
    vm_compute. reflexivity.
  - apply (step_worker _ _ _ _ [] _ toy_readings (Some (to_le 32 12, 101))); [apply toy_readings_ok|].
    vm_compute. reflexivity.
  - apply (step_block _ _ _ _ [] _ (to_le 32 12) 101 [(to_le 32 11, 100)] toy_readings (Some (to_le 32 13, 102)));
      [apply toy_readings_ok|reflexivity|]. vm_compute. reflexivity.
Qed.

Lemma sync_in_order_witness :
  map snd (backlog (w_master toy_world)) = [101] ∧
  map (λ x, id x.1) (w_flush toy_world) = take (Z.to_nat (next_to_apply (w_master toy_world))) toy_missing.
Proof.
  split; [vm_compute; reflexivity|].
  refine (proj1 (sync_in_order toy_buffer_len id toy_missing 100 toy_first_range toy_accepts _ toy_world _)).
  - intros flush. reflexivity.
  - apply toy_world_reachable.
Defined.

Lemma sync_answers_witness :
  ∃ job s' flush', handle_worker_message toy_buffer_len toy_accepts (PushResultAndGetNewJob (to_le 32 11) 100)
      (w_master toy_world) toy_readings (w_flush toy_world) = Ok (job, s', flush').
Proof.
  destruct (sync_answers toy_buffer_len id toy_missing 100 toy_first_range toy_accepts (λ _, eq_refl)
    toy_world toy_readings (PushResultAndGetNewJob (to_le 32 11) 100)) as (job & s' & flush' & Hh & _).
  - apply toy_world_reachable.
  - apply toy_readings_ok.
  - vm_compute. right. left.
  - exists job, s', flush'. exact Hh.
Defined.

Lemma sync_can_finish_witness :
  ∃ w', rtc (step toy_buffer_len id toy_accepts) toy_world w' ∧
    map (λ x, id x.1) (w_flush w') = toy_missing.
Proof.
  apply (sync_can_finish toy_buffer_len id toy_missing 100 toy_first_range toy_accepts (λ _, eq_refl) toy_world).
  - intros h _. exists h. reflexivity.
  - apply toy_world_reachable.
Defined.
