(* ===== verification/Process.v ===== *)
(** [src/chainman/blocksync.rs] and [src/chainman/keepup.rs]: the analysis of whole
    blocks, with the outputs their transactions spend. *)
From stdpp Require Import sorting.
From S2P Require Import Prelude.
From S2P Require Import Extern.
From S2P Require Import Buffer.
From S2P Require Import Varint.
From S2P Require Import Arena.
From S2P Require Import Wire.
From S2P Require Import Header.
From S2P Require Import Tx.
From S2P Require Import Block.
From S2P Require Import Loops.
From S2P Require Import Script.
From S2P Require Import Weight.
From S2P Require Import Address.
From S2P Require Import Analyze.
From S2P Require Import Store.
From S2P Require Import Queries.
From S2P Require Import Float.

(** * Metrics *)

Record BlockMetrics := mkBlockMetrics {
  fees_total : Z;
  volume : Z;
  txs_count : Z;
  average_fee_rate : f64;
  lowest_fee_rate : f64;
  highest_fee_rate : f64;
  median_fee_rate : f64;
}.

Definition BlockMetrics_default : BlockMetrics :=
  mkBlockMetrics 0 0 0 f64_zero f64_zero f64_zero f64_zero.

(** The fee per virtual byte *)
Definition fee_rate (analyzed : SerializedTx) : f64 :=
  let size_vbytes := f64_ceil (f64_div (f64_of_Z (st_size_wus analyzed)) (f64_of_Z 4)) in
  f64_div (f64_of_Z (st_fee analyzed)) size_vbytes.


(** [sort_by] is stable; every element takes part in a comparison, unless there is only
    one. *)
Fixpoint insert_by (leb : f64 → f64 → bool) (x : f64) (l : list f64) : list f64 :=
  match l with
  | [] => [x]
  | y :: l => if leb x y then x :: y :: l else y :: insert_by leb x l
  end.

Definition sort_fee_rates (fee_rates : list f64) : outcome (list f64) :=
  if (1 <? len fee_rates) && existsb is_nan fee_rates then Panic "fee rate to be not nan"
  else Ok (foldr (insert_by f64_leb) [] fee_rates).

(** The lowest, the highest, the median and the average of the fee rates. *)
Definition fee_rate_metrics (fee_rates : list f64) (fees_total : Z) : outcome (f64 * f64 * f64 * f64) :=
  if bool_decide (fee_rates = []) then Ok (f64_zero, f64_zero, f64_zero, f64_zero)
  else
    fee_rates ← sort_fee_rates fee_rates;
    let at_index (i : Z) := expect (fee_rates !! Z.to_nat i) "index out of bounds" in
    lowest ← at_index 0;
    highest ← at_index (len fee_rates - 1);
    median ← at_index (len fee_rates / 2);
    Ok (lowest, highest, median, f64_div (f64_of_Z fees_total) (f64_of_Z (len fee_rates))).

Definition block_metrics (fee_rates : list f64) (fees_total volume txs_count : Z) : outcome BlockMetrics :=
  '(lowest, highest, median, average) ← fee_rate_metrics fee_rates fees_total;
  Ok (mkBlockMetrics fees_total volume txs_count average lowest highest median).

(** * The state of a batch *)

Abbreviation txouts_map := (gmap hash (list TxOut)).

Record ChainSyncState := mkChainSyncState {
  current_txouts : txouts_map;
  previous_txouts : txouts_map;
  current_analyzed : list (list SerializedTx);
  current_metrics : list BlockMetrics;
  coinbase_asciis : list bytes;
}.

Section process.
Context `{RocksDb, Layout, UnstableSort}.

(** ** [insert_transactions_from_block] *)

Definition clone_txout (cloned : list TxOut) (txout : TxOut) : amonad (list TxOut) :=
  cloned_script ← try_alloc_array_copy RU8 (txout_script txout);
  txout ← try_alloc RTxOut (mkTxOut (txout_value txout) cloned_script);
  mret (cloned ++ [txout]).

Definition insert_transaction (m : txouts_map) (tx : Tx) : amonad txouts_map :=
  cloned ← for_alloc clone_txout (txouts tx) [];
  mret (<[tx_hash tx := cloned]> m).

Definition insert_transactions_from_block (block : Block) (m : txouts_map) : amonad txouts_map :=
  for_alloc insert_transaction (block_txs block) m.

(** A place in the vectors of the batch for the results of a block. *)
Definition reserve_index (s : ChainSyncState) (m : txouts_map) : ChainSyncState * Z :=
  (mkChainSyncState m (previous_txouts s) (current_analyzed s ++ [[]])
     (current_metrics s ++ [BlockMetrics_default]) (coinbase_asciis s ++ [[]]),
   len (current_analyzed s)).

(** What [get_next_batch_to_flush] does with a block, before it is processed. *)
Definition accept_block (s : ChainSyncState) (block : Block) : amonad (ChainSyncState * Z) :=
  m ← insert_transactions_from_block block (current_txouts s);
  mret (reserve_index s m).

(** ** Outputs from the database *)

(** [fetch_dependency_and_insert], as a task; a panic gives an error when it is awaited. *)
Definition fetch_dependency (d : Databases) (x : hash * Z) : outcome TxOut :=
  spawn_blocking (
    txouts ← unwrap (get_transaction_outputs d x.1) "to have found txouts in the db";
    expect (txouts !! Z.to_nat x.2) "index out of bounds").

(** The outpoint of an input, if the output is in neither of the maps. *)
Definition missing_outpoint (s : ChainSyncState) (txin : TxIn) : option (hash * Z) :=
  if bool_decide (prevout_hash txin = EMPTY_HASH) then None
  else match current_txouts s !! prevout_hash txin with
       | Some _ => None
       | None =>
           match previous_txouts s !! prevout_hash txin with
           | Some _ => None
           | None => Some (prevout_hash txin, prevout_index txin)
           end
       end.

Definition missing_outpoints (s : ChainSyncState) (block : Block) : list (hash * Z) :=
  omap (missing_outpoint s) (concat (map txins (block_txs block))).

Definition push_fetched (d : Databases) (loaded : list TxOut) (x : hash * Z) : outcome (list TxOut) :=
  txout ← fetch_dependency d x;
  Ok (loaded ++ [txout]).

Definition fetch_missing_dependencies (d : Databases) (s : ChainSyncState) (block : Block) : outcome (list TxOut) :=
  for_each (push_fetched d) (missing_outpoints s block) [].

(** ** [process_block] *)

Definition unwrap_none : string := "called `Option::unwrap()` on a `None` value".

(** The output an input spends, from the batch, the batch before or what was fetched. *)
Definition assemble_dep (s : ChainSyncState) (deps_from_disk : list TxOut) (x : list TxOut * Z) (txin : TxIn) :
    outcome (list TxOut * Z) :=
  let '(deps, deps_from_disk_index) := x in
  if bool_decide (prevout_hash txin = EMPTY_HASH) then Ok x
  else
    match current_txouts s !! prevout_hash txin with
    | Some txouts =>
        p ← expect (txouts !! Z.to_nat (prevout_index txin)) unwrap_none;
        Ok (deps ++ [p], deps_from_disk_index)
    | None =>
        match previous_txouts s !! prevout_hash txin with
        | Some txouts =>
            p ← expect (txouts !! Z.to_nat (prevout_index txin)) unwrap_none;
            Ok (deps ++ [p], deps_from_disk_index)
        | None =>
            dep ← expect (deps_from_disk !! Z.to_nat deps_from_disk_index) "index out of bounds";
            Ok (deps ++ [dep], deps_from_disk_index +! 1)
        end
    end.

(** What the loop over the transactions has gathered. *)
Record Gathered := mkGathered {
  ga_analyzed : list SerializedTx;
  ga_disk_index : Z;
  ga_fees_total : Z;
  ga_volume : Z;
  ga_fee_rates : list f64;
  ga_arena : Arena;
}.

Definition process_tx (s : ChainSyncState) (header : BlockHeader) (deps_from_disk : list TxOut)
    (g : Gathered) (tx : Tx) : comp Gathered :=
  '(deps, index) ← Finished (for_each (assemble_dep s deps_from_disk) (txins tx) ([], ga_disk_index g));
  '(analyzed, arena) ← analyze_tx (bh_hash header) tx deps (bh_timestamp header) (ga_arena g);
  let fee_rates :=
    if (length (ga_analyzed g) =? 0)%nat then ga_fee_rates g else ga_fee_rates g ++ [fee_rate analyzed] in
  mret (mkGathered (ga_analyzed g ++ [analyzed]) index (ga_fees_total g +! st_fee analyzed)
          (ga_volume g +! st_txouts_sum analyzed) fee_rates arena).

(** [block.txs[0].txins[0].sig_script] *)
Definition coinbase_script (block : Block) : outcome bytes :=
  tx ← expect (block_txs block !! 0%nat) "index out of bounds";
  txin ← expect (txins tx !! 0%nat) "index out of bounds";
  Ok (sig_script txin).

(** The results of the block: the analyzed transactions, the metrics and the script of
    the coinbase. *)
Definition analyze_block (s : ChainSyncState) (block : Block) (deps_from_disk : list TxOut) (arena : Arena) :
    comp (list SerializedTx * BlockMetrics * bytes * Arena) :=
  '(_, arena) ← Finished (try_alloc_array_fill_copy RSerializedTx (len (block_txs block)) tt arena);
  _ ← Finished (with_capacity (T := f64) RU64 (wrap64 (len (block_txs block) - 1)));
  g ← for_comp (process_tx s (block_header block) deps_from_disk) (block_txs block)
        (mkGathered [] 0 0 0 [] arena);
  script ← Finished (coinbase_script block);
  '(cloned_coinbase_ascii, arena) ← Finished (try_alloc_array_copy RU8 script (ga_arena g));
  metrics ← Finished (block_metrics (ga_fee_rates g) (ga_fees_total g) (ga_volume g) (len (block_txs block)));
  mret (ga_analyzed g, metrics, cloned_coinbase_ascii, arena).

Definition set_results (s : ChainSyncState) (index : Z) (analyzed : list SerializedTx)
    (metrics : BlockMetrics) (ascii : bytes) : outcome ChainSyncState :=
  if (0 <=? index) && (index <? len (current_analyzed s)) && (index <? len (current_metrics s)) &&
     (index <? len (coinbase_asciis s))
  then Ok (mkChainSyncState (current_txouts s) (previous_txouts s)
             (<[Z.to_nat index := analyzed]> (current_analyzed s))
             (<[Z.to_nat index := metrics]> (current_metrics s))
             (<[Z.to_nat index := ascii]> (coinbase_asciis s)))
  else Panic "index out of bounds".

(** The state is locked three times, and may have changed between: when the missing
    outputs are looked up, when the block is analyzed and when the results are stored.
    Without the missing outputs the task ends, and the state stays as it is. *)
Definition process_block (d : Databases) (block : Block) (index : Z) (s_fetch s_read s_write : ChainSyncState)
    (arena : Arena) : comp (ChainSyncState * Arena) :=
  match fetch_missing_dependencies d s_fetch block with
  | Err _ => mret (s_write, arena)
  | Panic m => Finished (Panic m)
  | Ub => Finished Ub
  | Ok deps_from_disk =>
      '(analyzed, metrics, ascii, arena) ← analyze_block s_read block deps_from_disk arena;
      s ← Finished (set_results s_write index analyzed metrics ascii);
      mret (s, arena)
  end.

(** * Metrics *)

Lemma insert_by_perm leb x l : insert_by leb x l ≡ₚ x :: l.
Proof.
  induction l as [|y l IH]; cbn; [done|]. destruct (leb x y); [done|]. rewrite IH. constructor.
Qed.

Lemma sort_rates_perm l : foldr (insert_by f64_leb) [] l ≡ₚ l.
Proof. induction l as [|x l IH]; cbn; [done|]. by rewrite insert_by_perm, IH. Qed.

Definition rate_le (x y : f64) : Prop := f64_leb x y = true.

Lemma insert_by_sorted x l :
  is_nan x = false → Forall (λ y, is_nan y = false) l → StronglySorted rate_le l →
  StronglySorted rate_le (insert_by f64_leb x l).
Proof.
  intros Hx Hl. induction 1 as [|y l Hs IH Hy]; cbn; [repeat constructor|].
  apply Forall_cons in Hl as [Hny Hl]. destruct (f64_leb x y) eqn:Hxy.
  - constructor; [by constructor|]. constructor; [done|].
    apply Forall_forall. intros z Hz. rewrite Forall_forall in Hy. rewrite Forall_forall in Hl.
    apply (f64_leb_trans x y z); [done|done|by apply Hl|done|by apply Hy].
  - constructor; [by apply IH|]. rewrite insert_by_perm. constructor; [|done].
    destruct (f64_leb_total x y) as [?|?]; [done|done|congruence|done].
Qed.

Lemma sort_rates_sorted l :
  Forall (λ y, is_nan y = false) l → StronglySorted rate_le (foldr (insert_by f64_leb) [] l).
Proof.
  induction 1 as [|x l Hx Hl IH]; cbn; [constructor|]. apply insert_by_sorted; [done| |done].
  by rewrite sort_rates_perm.
Qed.

(** In a sorted list the first element is below all others and the last one above. *)
Lemma sorted_ends l lowest highest x :
  Forall (λ y, is_nan y = false) l → StronglySorted rate_le l →
  l !! 0%nat = Some lowest → l !! (length l - 1)%nat = Some highest → x ∈ l →
  rate_le lowest x ∧ rate_le x highest.
Proof.
  intros Hn Hs Hlow Hhigh Hx. split.
  - destruct Hs as [|y l Hs Hy]; [done|]. injection Hlow as <-. apply Forall_cons in Hn as [Hny _].
    apply elem_of_cons in Hx as [->|Hx]; [by apply f64_leb_refl|]. rewrite Forall_forall in Hy. by apply Hy.
  - clear Hlow. induction Hs as [|y l Hs IH Hy]; [by apply elem_of_nil in Hx|]. apply Forall_cons in Hn as [Hny Hn].
    destruct l as [|z l].
    + apply list_elem_of_singleton in Hx as ->. injection Hhigh as <-. by apply f64_leb_refl.
    + cbn [length] in Hhigh. replace (S (S (length l)) - 1)%nat with (S (S (length l) - 1)) in Hhigh by lia.
      change (S (S (length l) - 1)) with (S (length (z :: l) - 1)) in Hhigh.
      cbn [lookup list_lookup] in Hhigh. apply elem_of_cons in Hx as [->|Hx]; [|by apply IH].
      rewrite Forall_forall in Hy. apply Hy. by eapply list_elem_of_lookup_2.
Qed.

Lemma existsb_nan l : Forall (λ y, is_nan y = false) l → existsb is_nan l = false.
Proof. induction 1 as [|x l Hx Hl IH]; cbn; [done|]. by rewrite Hx, IH. Qed.

(** The metrics of fee rates that are numbers. *)
Lemma block_metrics_spec rates fees vol count :
  Forall (λ y, is_nan y = false) rates →
  ∃ m, block_metrics rates fees vol count = Ok m ∧ fees_total m = fees ∧ volume m = vol ∧ txs_count m = count ∧
    ∀ x, x ∈ rates → rate_le (lowest_fee_rate m) x ∧ rate_le x (highest_fee_rate m).
Proof.
  intros Hn. unfold block_metrics, fee_rate_metrics. case_bool_decide as Hnil.
  - subst rates. eexists. split_and!; [done..|]. by intros x ?%elem_of_nil.
  - unfold sort_fee_rates. rewrite existsb_nan, andb_false_r by done. cbn [mbind outcome_bind].
    pose proof (sort_rates_perm rates) as Hp. pose proof (sort_rates_sorted rates Hn) as Hs.
    remember (foldr (insert_by f64_leb) [] rates) as l eqn:Hl. clear Hl.
    assert (len l = len rates) as Hlen by (unfold len; by rewrite Hp).
    assert (0 < len rates) as Hpos by (destruct rates; [done|rewrite len_cons; pose proof (len_nonneg rates); lia]).
    assert (∀ i, 0 <= i < len l → is_Some (l !! Z.to_nat i)) as Hat.
    { intros i Hi. apply lookup_lt_is_Some_2. unfold len in Hi. lia. }
    destruct (Hat 0) as [lowest Hlow]; [lia|]. destruct (Hat (len l - 1)) as [highest Hhigh]; [lia|].
    destruct (Hat (len l / 2)) as [median Hmed]; [split; [apply Z.div_pos|apply Z.div_lt_upper_bound]; lia|].
    rewrite Hlow, Hhigh, Hmed. cbn [expect mbind outcome_bind]. eexists. split_and!; [done..|]. cbn. intros x Hx.
    apply (sorted_ends l); [by rewrite Hp|done|exact Hlow| |by rewrite Hp].
    replace (length l - 1)%nat with (Z.to_nat (len l - 1)) by (unfold len; lia). exact Hhigh.
Qed.

(** * Dependencies *)

(** The output an input spends, wherever it is. *)
Definition spent_output (d : Databases) (s : ChainSyncState) (txin : TxIn) : outcome TxOut :=
  match current_txouts s !! prevout_hash txin with
  | Some txouts => expect (txouts !! Z.to_nat (prevout_index txin)) unwrap_none
  | None =>
      match previous_txouts s !! prevout_hash txin with
      | Some txouts => expect (txouts !! Z.to_nat (prevout_index txin)) unwrap_none
      | None => fetch_dependency d (prevout_hash txin, prevout_index txin)
      end
  end.

(** The inputs that spend an output. *)
Definition spending (l : list TxIn) : list TxIn :=
  List.filter (λ txin, negb (bool_decide (prevout_hash txin = EMPTY_HASH))) l.

Definition resolved (d : Databases) (s : ChainSyncState) (l : list TxIn) (deps : list TxOut) : Prop :=
  Forall2 (λ txin o, spent_output d s txin = Ok o) (spending l) deps.

(** The outputs of [deps] that come from the database. *)
Definition in_maps (s : ChainSyncState) (txin : TxIn) : bool :=
  match current_txouts s !! prevout_hash txin, previous_txouts s !! prevout_hash txin with
  | None, None => false
  | _, _ => true
  end.

Fixpoint from_disk (s : ChainSyncState) (l : list TxIn) (deps : list TxOut) : list TxOut :=
  match l, deps with
  | txin :: l, o :: deps => if in_maps s txin then from_disk s l deps else o :: from_disk s l deps
  | _, _ => []
  end.

Lemma assemble_deps s D l : ∀ d pre post acc deps,
  resolved d s l deps → D = pre ++ from_disk s (spending l) deps ++ post → len D < 2 ^ 63 →
  for_each (assemble_dep s D) l (acc, len pre)
  = Ok (acc ++ deps, len (pre ++ from_disk s (spending l) deps)).
Proof.
  induction l as [|txin l IH]; intros d pre post acc deps Hr HD Hlen.
  - inversion Hr. subst. cbn. by rewrite !app_nil_r.
  - unfold resolved in Hr. unfold spending in Hr, HD |- *. cbn [List.filter for_each assemble_dep] in *.
    case_bool_decide as He; cbn [negb] in *.
    { cbn [mbind outcome_bind]. by eapply IH. }
    apply Forall2_cons_inv_l in Hr as (o & deps' & Ho & Hr & ->). cbn [from_disk] in HD |- *.
    unfold spent_output in Ho. unfold in_maps in HD |- *.
    destruct (current_txouts s !! prevout_hash txin) as [outs|].
    { rewrite Ho. cbn [mbind outcome_bind]. rewrite (IH d pre post _ deps') by done. by rewrite <- app_assoc. }
    destruct (previous_txouts s !! prevout_hash txin) as [outs|].
    { rewrite Ho. cbn [mbind outcome_bind]. rewrite (IH d pre post _ deps') by done. by rewrite <- app_assoc. }
    assert (D !! Z.to_nat (len pre) = Some o) as Hat.
    { rewrite HD. unfold len. rewrite Nat2Z.id, lookup_app_r, Nat.sub_diag by lia. done. }
    rewrite Hat. cbn [expect mbind outcome_bind].
    pose proof (len_nonneg pre). assert (len pre < len D) by (unfold len; apply lookup_lt_Some in Hat; unfold len in Hat; lia).
    replace (len pre +! 1) with (len (pre ++ [o])) by (rewrite len_app, wrap64_small by (unfold in_u64; lia); done).
    rewrite (IH d (pre ++ [o]) post _ deps'); [by rewrite <- !app_assoc|done| |done].
    rewrite HD, <- !app_assoc. done.
Qed.

Lemma fetch_all d l outs : ∀ acc,
  Forall2 (λ x o, fetch_dependency d x = Ok o) l outs → for_each (push_fetched d) l acc = Ok (acc ++ outs).
Proof.
  intros acc Hl. revert acc. induction Hl as [|x o l outs Hx Hl IH]; intros acc; cbn [for_each].
  - by rewrite app_nil_r.
  - assert (push_fetched d acc x = Ok (acc ++ [o])) as -> by (unfold push_fetched; by rewrite Hx).
    cbn [mbind outcome_bind]. by rewrite IH, <- app_assoc.
Qed.

Lemma missing_disk d s l : ∀ deps,
  resolved d s l deps →
  Forall2 (λ x o, fetch_dependency d x = Ok o) (omap (missing_outpoint s) l) (from_disk s (spending l) deps).
Proof.
  induction l as [|txin l IH]; intros deps Hr; [inversion Hr; constructor|].
  unfold resolved, spending in *. cbn [List.filter omap list_omap] in *. unfold missing_outpoint at 1.
  case_bool_decide as He; cbn [negb] in *; [by apply IH|].
  apply Forall2_cons_inv_l in Hr as (o & deps' & Ho & Hr & ->). cbn [from_disk].
  unfold spent_output in Ho. unfold in_maps.
  destruct (current_txouts s !! prevout_hash txin); [by apply IH|].
  destruct (previous_txouts s !! prevout_hash txin); [by apply IH|].
  constructor; [done|by apply IH].
Qed.

(** The state in which the missing outputs are looked up and that in which they are
    used agree on which ones are missing. *)
Definition same_sources (s_fetch s_read : ChainSyncState) (block : Block) : Prop :=
  ∀ tx txin, tx ∈ block_txs block → txin ∈ txins tx → missing_outpoint s_fetch txin = missing_outpoint s_read txin.

(** ** The analysis of a block *)

(** A transaction with the outputs it spends and the cost of its signature operations. *)
Record TxPlan := mkTxPlan {
  tp_tx : Tx;
  tp_deps : list TxOut;
  tp_sigops : Z;
}.

Definition planned (header : BlockHeader) (p : TxPlan) : SerializedTx :=
  analysis (tp_tx p) (tp_deps p) (tp_sigops p) (bh_hash header) (bh_timestamp header).

Definition plan_ok (d : Databases) (s : ChainSyncState) (p : TxPlan) : Prop :=
  resolved d s (txins (tp_tx p)) (tp_deps p) ∧ analyzable (tp_tx p) (tp_deps p) ∧
  get_transaction_sigop_cost (tp_tx p) (tp_deps p) (analyze_flags (tp_tx p)) = Finished (Ok (tp_sigops p)).

Definition plan_disk (s : ChainSyncState) (p : TxPlan) : list TxOut :=
  from_disk s (spending (txins (tp_tx p))) (tp_deps p).

(** What is stored of an analyzed transaction is in range. *)
Lemma planned_stored header p :
  analyzable (tp_tx p) (tp_deps p) →
  entry_ok (planned header p) ∧ (tx_hash (tp_tx p) ≠ EMPTY_HASH → tx_stored (planned header p)).
Proof.
  intros (_ & Hh & _). split; [split_and!; [done|apply foldl_sum_range|apply tx_fee_range|apply wrap32_range]|].
  intros Hne. unfold planned, analysis. constructor; cbn; [done|done|by eexists|by eexists|..]; unfold parts; cbn; case_bool_decide; cbn;
    try constructor.
  - apply (sort_unstable_by_sorted _ (λ x y : bytes * Z, bytes_leb x.1 y.1)), total_preorder_key.
  - apply Forall_forall. intros x Hx. rewrite sort_unstable_by_perm in Hx.
    unfold amends_of in Hx. apply elem_of_app in Hx as [Hx|Hx]; apply list_elem_of_omap in Hx as (o & _ & Hx);
      unfold amend in Hx; case_match; try done; injection Hx as <-; apply as_i64_range.
Qed.

Definition plan_need (header : BlockHeader) (p : TxPlan) : Z :=
  analysis_need (tp_tx p) (tp_deps p) (bh_hash header) (bh_timestamp header).

Lemma plan_need_nonneg header p : 0 <= plan_need header p.
Proof.
  unfold plan_need, analysis_need. pose proof (spends_need_nonneg (tp_tx p)).
  pose proof (amends_need_nonneg (tp_tx p) (tp_deps p) (bh_timestamp header)).
  pose proof (len_nonneg (encode_array (txouts (tp_tx p)))).
  pose proof (len_nonneg (analysis_of (tp_tx p) (tp_deps p) 0 (bh_hash header))). lia.
Qed.

Lemma fetch_plan d s_fetch s_read block plan :
  map tp_tx plan = block_txs block → Forall (plan_ok d s_read) plan → same_sources s_fetch s_read block →
  fetch_missing_dependencies d s_fetch block = Ok (concat (map (plan_disk s_read) plan)).
Proof.
  intros Hplan Hok Hsame. unfold fetch_missing_dependencies. apply (fetch_all d _ _ []).
  unfold missing_outpoints. unfold same_sources in Hsame. rewrite <- Hplan in *. clear Hplan.
  induction Hok as [|p plan Hp Hok IH]; cbn [map concat]; [constructor|].
  rewrite omap_app. apply Forall2_app; [|apply IH; intros tx txin Htx; apply Hsame; by right].
  destruct Hp as (Hr & _). apply missing_disk in Hr.
  enough (omap (missing_outpoint s_fetch) (txins (tp_tx p)) = omap (missing_outpoint s_read) (txins (tp_tx p))) as -> by done.
  assert (∀ txin, txin ∈ txins (tp_tx p) → missing_outpoint s_fetch txin = missing_outpoint s_read txin) as Heq
    by (intros txin; apply Hsame; by left).
  clear -Heq. induction (txins (tp_tx p)) as [|x l IHl]; [done|]. cbn. rewrite (Heq x) by (by left).
  rewrite IHl by (intros y Hy; apply Heq; by right). done.
Qed.

(** What the loop adds for an analyzed transaction. *)
Definition gather (g : Gathered) (st : SerializedTx) : Gathered :=
  mkGathered (ga_analyzed g ++ [st]) (ga_disk_index g) (ga_fees_total g +! st_fee st)
    (ga_volume g +! st_txouts_sum st)
    (if (length (ga_analyzed g) =? 0)%nat then ga_fee_rates g else ga_fee_rates g ++ [fee_rate st]) (ga_arena g).

Definition with_arena (g : Gathered) (index : Z) (a : Arena) : Gathered :=
  mkGathered (ga_analyzed g) index (ga_fees_total g) (ga_volume g) (ga_fee_rates g) a.

Lemma process_tx_spec d s header D pre post g p :
  plan_ok d s p → hash_ok (bh_hash header) → D = pre ++ plan_disk s p ++ post → len D < 2 ^ 63 →
  ga_disk_index g = len pre → arena_wf (ga_arena g) → plan_need header p <= free (ga_arena g) →
  ∃ a', process_tx s header D g (tp_tx p)
      = Finished (Ok (with_arena (gather g (planned header p)) (len (pre ++ plan_disk s p)) a')) ∧
    arena_step (ga_arena g) a' (plan_need header p).
Proof.
  intros (Hr & Han & Hsig) Hh HD Hlen Hidx Hwf Hf. unfold process_tx. rewrite Hidx.
  rewrite (assemble_deps s D (txins (tp_tx p)) d pre post [] (tp_deps p)) by done. cbn [mbind comp_bind app].
  destruct (serialize_analysis_spec (tp_tx p) (tp_deps p) (bh_timestamp header) (bh_hash header) (tp_sigops p)
    (ga_arena g) Hwf Han Hh Hf) as (a' & Ha & Hs).
  assert (analyze_tx (bh_hash header) (tp_tx p) (tp_deps p) (bh_timestamp header) (ga_arena g)
    = Finished (Ok (planned header p, a'))) as Htx.
  { unfold analyze_tx. rewrite Hsig. cbn [mbind comp_bind]. unfold planned. by rewrite <- Ha. }
  rewrite Htx. exists a'. split; [done|exact Hs].
Qed.

Lemma process_txs d s header D plan : ∀ pre post g,
  Forall (plan_ok d s) plan → hash_ok (bh_hash header) →
  D = pre ++ concat (map (plan_disk s) plan) ++ post → len D < 2 ^ 63 → ga_disk_index g = len pre →
  arena_wf (ga_arena g) → total_cost (plan_need header) plan <= free (ga_arena g) →
  ∃ a' index, for_comp (process_tx s header D) (map tp_tx plan) g
      = Finished (Ok (with_arena (foldl gather g (map (planned header) plan)) index a')) ∧
    arena_step (ga_arena g) a' (total_cost (plan_need header) plan).
Proof.
  induction plan as [|p plan IH]; intros pre post g Hok Hh HD Hlen Hidx Hwf Hf.
  - exists (ga_arena g), (ga_disk_index g). cbn. split; [by destruct g|by apply arena_step_refl].
  - apply Forall_cons in Hok as [Hp Hok]. cbn [map concat for_comp foldl] in *. rewrite <- app_assoc in HD.
    change (total_cost (plan_need header) (p :: plan))
      with (plan_need header p + total_cost (plan_need header) plan) in *.
    pose proof (plan_need_nonneg header p).
    pose proof (total_cost_nonneg (plan_need header) (plan_need_nonneg header) plan).
    destruct (process_tx_spec d s header D pre (concat (map (plan_disk s) plan) ++ post) g p)
      as (a1 & Hg1 & Hs1); [done..|lia|].
    rewrite Hg1. cbn [mbind comp_bind]. pose proof (arena_step_free _ _ _ Hs1).
    set (g1 := with_arena _ _ _).
    destruct (IH (pre ++ plan_disk s p) post g1) as (a' & index & Hg' & Hs'); [done|done| |done|done| |cbn; lia|].
    { by rewrite HD, <- app_assoc. }
    { by destruct Hs1. }
    exists a', index. split; [|by eapply arena_step_trans].
    rewrite Hg'. do 2 f_equal. unfold with_arena.
    assert (∀ l h k, ga_analyzed h = ga_analyzed k → ga_fees_total h = ga_fees_total k → ga_volume h = ga_volume k →
      ga_fee_rates h = ga_fee_rates k →
      ga_analyzed (foldl gather h l) = ga_analyzed (foldl gather k l) ∧
      ga_fees_total (foldl gather h l) = ga_fees_total (foldl gather k l) ∧
      ga_volume (foldl gather h l) = ga_volume (foldl gather k l) ∧
      ga_fee_rates (foldl gather h l) = ga_fee_rates (foldl gather k l)) as Hext.
    { induction l as [|x l IHl]; intros h k H1' H2' H3' H4'; [done|]. cbn [foldl]. apply IHl; cbn; by rewrite ?H1', ?H2', ?H3', ?H4'. }
    destruct (Hext (map (planned header) plan) g1 (gather g (planned header p))) as (-> & -> & -> & ->); done.
Qed.

(** The sums and the fee rates of all analyzed transactions; the coinbase has no fee
    rate. *)
Lemma gather_all l : ∀ g,
  ga_analyzed (foldl gather g l) = ga_analyzed g ++ l ∧
  wrap64 (ga_fees_total (foldl gather g l)) = wrap64 (ga_fees_total g + sumZ (map st_fee l)) ∧
  wrap64 (ga_volume (foldl gather g l)) = wrap64 (ga_volume g + sumZ (map st_txouts_sum l)) ∧
  ga_fee_rates (foldl gather g l)
  = ga_fee_rates g ++ map fee_rate (if (length (ga_analyzed g) =? 0)%nat then tail l else l).
Proof.
  induction l as [|x l IH]; intros g; cbn [foldl].
  - rewrite app_nil_r. cbn. rewrite !Z.add_0_r. split_and!; [done..|]. by destruct (_ =? _)%nat; rewrite app_nil_r.
  - destruct (IH (gather g x)) as (-> & -> & -> & ->). cbn [gather ga_analyzed ga_fees_total ga_volume ga_fee_rates].
    rewrite <- app_assoc. change (map ?f (x :: l)) with (f x :: map f l). cbn [sumZ foldr]. fold (sumZ (map st_fee l)).
    fold (sumZ (map st_txouts_sum l)). rewrite !wrap64_add_l, <- !Z.add_assoc.
    assert ((length (ga_analyzed g ++ [x]) =? 0)%nat = false) as ->
      by (apply Nat.eqb_neq; rewrite length_app; cbn; lia).
    split_and!; [done..|]. destruct (length (ga_analyzed g) =? 0)%nat; [done|]. cbn. by rewrite <- app_assoc.
Qed.

Lemma gather_range l : ∀ g,
  in_u64 (ga_fees_total g) ∧ in_u64 (ga_volume g) →
  in_u64 (ga_fees_total (foldl gather g l)) ∧ in_u64 (ga_volume (foldl gather g l)).
Proof.
  induction l as [|x l IH]; intros g Hg; cbn [foldl]; [done|]. apply IH. cbn. split; apply wrap64_range.
Qed.

Lemma len_from_disk s l : ∀ deps, len (from_disk s l deps) <= len deps.
Proof.
  induction l as [|txin l IH]; intros deps; cbn [from_disk]; [apply len_nonneg|].
  destruct deps as [|o deps]; [done|]. specialize (IH deps). destruct (in_maps s txin); rewrite ?len_cons; lia.
Qed.

Lemma len_deps_plan header p : hash_ok (bh_hash header) → len (tp_deps p) <= plan_need header p.
Proof.
  intros Hh. unfold plan_need, analysis_need.
  rewrite len_analysis_of by done. pose proof (spends_need_nonneg (tp_tx p)).
  pose proof (amends_need_nonneg (tp_tx p) (tp_deps p) (bh_timestamp header)).
  pose proof (len_nonneg (encode_array (txouts (tp_tx p)))). pose proof (len_nonneg (encode_tx_without_txouts (tp_tx p))).
  pose proof (length_varint_range (len (tp_deps p))). pose proof (len_nonneg (tp_deps p)). lia.
Qed.

Lemma len_plan_disk s header plan :
  hash_ok (bh_hash header) → len (concat (map (plan_disk s) plan)) <= total_cost (plan_need header) plan.
Proof.
  intros Hh. induction plan as [|p plan IH]; [done|]. cbn [map concat]. rewrite len_app.
  change (total_cost (plan_need header) (p :: plan)) with (plan_need header p + total_cost (plan_need header) plan).
  pose proof (len_deps_plan header p Hh). pose proof (len_from_disk s (spending (txins (tp_tx p))) (tp_deps p)).
  unfold plan_disk at 1. lia.
Qed.

(** The memory the results of a block take. *)
Definition block_need (header : BlockHeader) (plan : list TxPlan) (script : bytes) : Z :=
  array_room RSerializedTx (len plan) + (total_cost (plan_need header) plan + array_room RU8 (len script)).

Lemma analyze_block_spec d block s arena plan script :
  map tp_tx plan = block_txs block → Forall (plan_ok d s) plan → hash_ok (bh_hash (block_header block)) →
  coinbase_script block = Ok script → len plan <= 2 ^ 59 →
  arena_wf arena → block_need (block_header block) plan script <= free arena →
  let sts := map (planned (block_header block)) plan in
  Forall (λ st, is_nan (fee_rate st) = false) (tail sts) →
  ∃ metrics a', analyze_block s block (concat (map (plan_disk s) plan)) arena
      = Finished (Ok (sts, metrics, script, a')) ∧ arena_wf a' ∧
    fees_total metrics = wrap64 (sumZ (map st_fee sts)) ∧ volume metrics = wrap64 (sumZ (map st_txouts_sum sts)) ∧
    txs_count metrics = len (block_txs block) ∧
    ∀ st, st ∈ tail sts →
      rate_le (lowest_fee_rate metrics) (fee_rate st) ∧ rate_le (fee_rate st) (highest_fee_rate metrics).
Proof.
  intros Hplan Hok Hh Hscript Hcount Hwf Hf sts Hnan. unfold block_need in Hf.
  assert (len (block_txs block) = len plan) as Hlen by (rewrite <- Hplan; apply len_map).
  assert (1 <= len plan) as Hpos.
  { rewrite <- Hlen. unfold coinbase_script in Hscript. destruct (block_txs block) as [|t l]; [done|].
    rewrite len_cons. pose proof (len_nonneg l). lia. }
  pose proof (array_room_nonneg RSerializedTx (len plan) (len_nonneg _)).
  pose proof (array_room_nonneg RU8 (len script) (len_nonneg _)).
  pose proof (total_cost_nonneg _ (plan_need_nonneg (block_header block)) plan).
  pose proof (len_plan_disk s (block_header block) plan Hh).
  unfold analyze_block. rewrite Hlen.
  destruct (try_alloc_array_fill_copy_Ok arena RSerializedTx (len plan) tt) as (a1 & Ha1 & Hs1);
    [done|apply len_nonneg|lia|].
  rewrite Ha1. cbn [mbind comp_bind]. pose proof (arena_step_free _ _ _ Hs1).
  unfold with_capacity. rewrite size_of_u64, (wrap64_small (len plan - 1)) by (unfold in_u64; lia).
  rewrite (proj2 (Z.leb_le _ _)) by (unfold isize_max; lia). cbn [mbind comp_bind].
  destruct (process_txs d s (block_header block) (concat (map (plan_disk s) plan)) plan [] []
    (mkGathered [] 0 0 0 [] a1)) as (a2 & index & Hg & Hs2); [done|done|by rewrite app_nil_r| |done| |cbn; lia|].
  { unfold free, arena_wf in *. lia. }
  { by destruct Hs1. }
  rewrite Hplan in Hg. fold sts in Hg. rewrite Hg. cbn [mbind comp_bind]. rewrite Hscript. cbn [mbind comp_bind with_arena ga_arena].
  pose proof (arena_step_free _ _ _ Hs2). cbn [ga_arena] in *.
  destruct (try_alloc_array_copy_Ok a2 RU8 script) as (a3 & Ha3 & Hs3); [by destruct Hs2|lia|].
  rewrite Ha3. cbn [mbind comp_bind with_arena ga_fee_rates ga_fees_total ga_volume ga_analyzed].
  destruct (gather_all sts (mkGathered [] 0 0 0 [] a1)) as (Hga & Hgf & Hgv & Hgr).
  destruct (gather_range sts (mkGathered [] 0 0 0 [] a1)) as (Hrf & Hrv); [done|]. cbn in Hga, Hgf, Hgv, Hgr.
  rewrite (wrap64_small (ga_fees_total _)) in Hgf by done. rewrite (wrap64_small (ga_volume _)) in Hgv by done.
  destruct (block_metrics_spec (map fee_rate (tail sts)) (wrap64 (sumZ (map st_fee sts)))
    (wrap64 (sumZ (map st_txouts_sum sts))) (len plan)) as (m & Hm & Hmf & Hmv & Hmc & Hmr).
  { apply Forall_map. done. }
  rewrite Hga, Hgf, Hgv, Hgr, !Z.add_0_l, Hm. cbn [mbind comp_bind]. exists m, a3. split_and!; [done|by destruct Hs3|done..|].
  intros st Hst. apply Hmr. by apply list_elem_of_fmap_2.
Qed.

(** ** A missing output *)

Definition not_ub {A} (m : outcome A) : Prop := m ≠ Ub.

Lemma not_ub_bind {A B} (m : outcome A) (f : A → outcome B) : not_ub m → (∀ a, not_ub (f a)) → not_ub (m ≫= f).
Proof. destruct m; cbn; [auto|done..]. Qed.

Lemma not_ub_safe {A} (m : outcome A) : safe m → not_ub m.
Proof. by destruct m. Qed.

Lemma not_ub_expect {A} (o : option A) e : not_ub (expect o e).
Proof. by destruct o. Qed.

Lemma not_ub_Ok {A} (a : A) : not_ub (Ok a).
Proof. done. Qed.

Lemma not_ub_Err {A} e : not_ub (@Err A e).
Proof. done. Qed.

Lemma not_ub_Panic {A} e : not_ub (@Panic A e).
Proof. done. Qed.

Create HintDb not_ub.

#[local] Hint Resolve not_ub_safe not_ub_expect not_ub_Ok not_ub_Err not_ub_Panic : not_ub.

Lemma txout_read_not_ub b : not_ub (TxOut_read b).
Proof.
  unfold TxOut_read, deserialize_varstr, slice_idx.
  repeat first [solve [eauto with not_ub safe] | apply not_ub_bind; [|intros ?] | progress cbv beta zeta | case_match].
Qed.

Lemma outputs_not_ub d h : not_ub (get_transaction_outputs d h).
Proof.
  unfold get_transaction_outputs, with_data.
  assert (∀ data, not_ub ('(result, _) ← deserialize_array_owned data; Ok (result : list TxOut))) as Hread.
  { intros data. unfold deserialize_array_owned, with_capacity.
    repeat first [solve [eauto with not_ub safe] | apply not_ub_bind; [|intros ?] | case_match].
    rewrite repeat_for_nat.
    match goal with |- not_ub (iter_nat _ ?n ?s) => generalize s; generalize n end.
    intros n. induction n as [|n IHn]; intros st; cbn [iter_nat];
      [done|]. apply not_ub_bind; [|done]. unfold deserialize_item_owned. destruct st.
    repeat first [solve [eauto with not_ub safe] | apply not_ub_bind; [|intros ?] | case_match]. }
  assert (∀ m : outcome (list TxOut), not_ub m → not_ub (spawn_blocking m)) as Hsp by (by intros [] ?).
  apply Hsp. rewrite get_pinned_spec. cbn [mbind outcome_bind].
  destruct (contents (TXOUTS_DB d) !! h); [|done]. case_bool_decide; [done|]. apply Hread.
Qed.

(** A task for an output gives it or an error. *)
Lemma fetch_outcome d x : (∃ o, fetch_dependency d x = Ok o) ∨ ∃ e, fetch_dependency d x = Err e.
Proof.
  unfold fetch_dependency. pose proof (outputs_not_ub d x.1) as Hub.
  destruct (get_transaction_outputs d x.1) as [outs|e|m|]; [|right; by eexists..|by destruct Hub].
  cbn. destruct (outs !! Z.to_nat x.2); cbn; [left|right]; by eexists.
Qed.

Lemma fetch_fails d l x e : ∀ acc,
  x ∈ l → fetch_dependency d x = Err e → ∃ e', for_each (push_fetched d) l acc = Err e'.
Proof.
  induction l as [|y l IH]; intros acc Hx He; [by apply elem_of_nil in Hx|]. cbn [for_each].
  unfold push_fetched at 2. destruct (fetch_outcome d y) as [[o Ho]|[e' He']].
  - rewrite Ho. cbn [mbind outcome_bind]. apply elem_of_cons in Hx as [<-|Hx]; [|by apply IH]. by rewrite Ho in He.
  - rewrite He'. by eexists.
Qed.

(** * Properties *)

(** A block whose inputs all spend outputs of the batch, of the batch before or
    of the database is analyzed, whenever its parts run: every transaction with just the
    outputs it spends, in order, as long as nothing that is looked up in the database
    turns up in the batch before the analysis. Its results go to its own place: the
    analyses, the sums of the fees and of the values, and fee rates that bound those of
    all transactions but the coinbase. *)
Theorem block_processed d block index s_fetch s_read s_write arena plan script :
  map tp_tx plan = block_txs block → Forall (plan_ok d s_read) plan → same_sources s_fetch s_read block →
  hash_ok (bh_hash (block_header block)) → coinbase_script block = Ok script → len plan <= 2 ^ 59 →
  arena_wf arena → block_need (block_header block) plan script <= free arena →
  let sts := map (planned (block_header block)) plan in
  Forall (λ st, is_nan (fee_rate st) = false) (tail sts) →
  0 <= index < len (current_analyzed s_write) → len (current_metrics s_write) = len (current_analyzed s_write) →
  len (coinbase_asciis s_write) = len (current_analyzed s_write) →
  ∃ metrics a' s', process_block d block index s_fetch s_read s_write arena = Finished (Ok (s', a')) ∧
    s' = mkChainSyncState (current_txouts s_write) (previous_txouts s_write)
           (<[Z.to_nat index := sts]> (current_analyzed s_write))
           (<[Z.to_nat index := metrics]> (current_metrics s_write))
           (<[Z.to_nat index := script]> (coinbase_asciis s_write)) ∧
    fees_total metrics = wrap64 (sumZ (map st_fee sts)) ∧ volume metrics = wrap64 (sumZ (map st_txouts_sum sts)) ∧
    txs_count metrics = len (block_txs block) ∧
    ∀ st, st ∈ tail sts →
      rate_le (lowest_fee_rate metrics) (fee_rate st) ∧ rate_le (fee_rate st) (highest_fee_rate metrics).
Proof.
  intros Hplan Hok Hsame Hh Hscript Hcount Hwf Hf sts Hnan Hi Hm Ha. unfold process_block.
  rewrite (fetch_plan d s_fetch s_read block plan) by done.
  destruct (analyze_block_spec d block s_read arena plan script) as (m & a' & Hb & _ & Hrest); [done..|].
  rewrite Hb. cbn [mbind comp_bind]. unfold set_results. rewrite Hm, Ha.
  rewrite (proj2 (Z.leb_le 0 index)), (proj2 (Z.ltb_lt index _)) by lia. cbn [andb mbind comp_bind].
  eexists m, a', _. split_and!; [done|done|apply Hrest..].
Qed.

(** An output that is in no map, and that the database does not have, ends the
    task of its block without a word: the place of the block keeps the empty list it was
    given at first, which is written and marked as downloaded like the others. *)
Theorem missing_output_drops_block d block index s_fetch s_read s_write arena txin x e :
  txin ∈ concat (map txins (block_txs block)) → missing_outpoint s_fetch txin = Some x →
  get_transaction_outputs d x.1 = Err e →
  process_block d block index s_fetch s_read s_write arena = Finished (Ok (s_write, arena)).
Proof.
  intros Hin Hx He. unfold process_block, fetch_missing_dependencies.
  destruct (fetch_fails d (missing_outpoints s_fetch block) x "task panicked" []) as [e' ->]; [| |done].
  - unfold missing_outpoints. apply list_elem_of_omap. eauto.
  - unfold fetch_dependency. by rewrite He.
Qed.

Lemma copy_at_start (script : bytes) a :
  arena_wf a → consumed a = 0 → len script <= capacity a →
  try_alloc_array_copy RU8 script a = Ok (script, mkArena (data a) (len script) (capacity a)).
Proof.
  intros (H1' & H2' & H3' & H4') Hc Hn. unfold try_alloc_array_copy, reserve, fits, padding_at, write_ok.
  pose proof (len_nonneg script). rewrite size_of_u8, align_of_u8, Hc, Z.mul_1_l. cbn [Z.eqb].
  rewrite !Z.mod_1_r, !Z.add_0_l, (wrap64_small (len script)) by (unfold in_u64; lia).
  rewrite (proj2 (Z.leb_le _ _)) by lia. cbn [mbind outcome_bind]. rewrite Z.mod_1_r, !Z.add_0_l.
  by rewrite (proj2 (Z.leb_le _ _)) by lia.
Qed.

(** The first output of a batch whose script does not end at a multiple of the
    alignment of an output is stored at an address that is not aligned: undefined
    behaviour, as [try_alloc] writes to the offset before the padding. *)
Theorem unaligned_output_ub block m a tx txout outs txs :
  block_txs block = tx :: txs → txouts tx = txout :: outs → arena_wf a → consumed a = 0 →
  let n := len (txout_script txout) in
  (data a + n) mod align_of RTxOut ≠ 0 → n + array_room RTxOut 1 <= capacity a →
  insert_transactions_from_block block m a = Ub.
Proof.
  intros Hb Ho Hwf Hc n Hal Hroom. unfold insert_transactions_from_block. rewrite Hb. cbn [for_alloc].
  pose proof (array_room_nonneg RTxOut 1 ltac:(lia)). pose proof (len_nonneg (txout_script txout)).
  assert (insert_transaction m tx a = Ub) as Htx; [|by unfold mbind, amonad_bind; rewrite Htx].
  unfold insert_transaction. rewrite Ho. cbn [for_alloc].
  assert (clone_txout [] txout a = Ub) as Hcl; [|by unfold mbind, amonad_bind; rewrite Hcl].
  unfold clone_txout. erewrite bind_amonad by (apply copy_at_start; [done..|lia]).
  unfold mbind, amonad_bind. rewrite try_alloc_misaligned; [done| |exact Hal|].
  - unfold arena_wf in *. cbn. lia.
  - unfold free. cbn. lia.
Qed.
End process.

(** * Examples *)

Import Toy ToyDb.

Definition toy_reward : Tx :=
  mkTx 1 0 [mkTxIn EMPTY_HASH 0xFFFFFFFF 0 (bstr "/toy/")] [mkTxOut 5000000000 []] None (to_le 32 41) EMPTY_HASH.

Definition toy_block : Block := mkBlock toy_header [toy_reward; toy_payment].

(** The output the payment spends is the fourth one of a transaction in the database. *)
Definition toy_outputs_db : Databases :=
  mkDatabases toy_db ∅ {[to_le 32 77 := encode_array [mkTxOut 1 []; mkTxOut 2 []; mkTxOut 3 []; mkTxOut 2000 (template_script (key_hash dummy))]]} ∅ ∅ ∅.

Definition toy_state : ChainSyncState := mkChainSyncState ∅ ∅ [[]; []] [BlockMetrics_default; BlockMetrics_default] [[]; []].

Definition toy_plan : list TxPlan := [mkTxPlan toy_reward [] 0; mkTxPlan toy_payment toy_deps 4].

Lemma toy_plan_ok : Forall (plan_ok toy_outputs_db toy_state) toy_plan.
Proof.
  constructor; [|constructor; [|constructor]].
  - split; [constructor|]. split; [|vm_compute; reflexivity].
    split; [|split; [reflexivity|split; [done|split; vm_compute; discriminate]]].
    constructor; [|constructor]. split; [reflexivity|split; split; (discriminate || reflexivity)].
  - split; [|split; [apply toy_payment_analyzable|vm_compute; reflexivity]].
    constructor; [vm_compute; reflexivity|constructor].
Qed.

Lemma block_processed_witness :
  ∃ metrics a' s', process_block toy_outputs_db toy_block 1 toy_state toy_state toy_state (mkArena 4096 0 8192)
      = Finished (Ok (s', a')) ∧ current_metrics s' = [BlockMetrics_default; metrics] ∧
    fees_total metrics = 667 ∧ volume metrics = 5000001333.
Proof.
  destruct (block_processed toy_outputs_db toy_block 1 toy_state toy_state toy_state (mkArena 4096 0 8192)
    toy_plan (bstr "/toy/")) as (m & a' & s' & Hs & -> & Hf & Hv & _).
  - reflexivity.
  - apply toy_plan_ok.
  - intros tx txin _ _. reflexivity.
  - vm_compute. reflexivity.
  - reflexivity.
  - vm_compute. discriminate.
  - apply toy_arena_wf; lia.
  - vm_compute. discriminate.
  - constructor; [vm_compute; reflexivity|constructor].
  - split; [discriminate|reflexivity].
  - reflexivity.
  - reflexivity.
  - eexists m, a', _. split; [exact Hs|]. split; [reflexivity|]. rewrite Hf, Hv. split; vm_compute; reflexivity.
Defined.

Lemma missing_output_drops_block_witness :
  process_block toy_databases toy_block 1 toy_state toy_state toy_state (mkArena 4096 0 8192)
  = Finished (Ok (toy_state, mkArena 4096 0 8192)).
Proof.
  eapply (missing_output_drops_block toy_databases toy_block 1 toy_state toy_state toy_state _ toy_txin (to_le 32 77, 3)).
  - vm_compute. right. left.
  - vm_compute. reflexivity.
  - vm_compute. reflexivity.
Defined.

Lemma unaligned_output_ub_witness :
  insert_transactions_from_block (mkBlock toy_header [toy_payment]) ∅ (mkArena 4096 0 4096) = Ub.
Proof.
  eapply (unaligned_output_ub (mkBlock toy_header [toy_payment])).
  - reflexivity.
  - reflexivity.
  - apply toy_arena_wf; lia.
  - reflexivity.
  - vm_compute. discriminate.
  - vm_compute. discriminate.
Defined.
