(* ===== verification/Keepup.v ===== *)
(** [src/chainman/keepup.rs]: new headers and blocks, once the chain is in sync. *)
From stdpp Require Import sorting.
From S2P Require Import Prelude.
From S2P Require Import Extern.
From S2P Require Import Buffer.
From S2P Require Import Varint.
From S2P Require Import Arena.
From S2P Require Import Wire.
From S2P Require Import Pow.
From S2P Require Import Header.
From S2P Require Import Tx.
From S2P Require Import Block.
From S2P Require Import Payload.
From S2P Require Import Loops.
From S2P Require Import Chain.
From S2P Require Import ChainMan.
From S2P Require Import Script.
From S2P Require Import Weight.
From S2P Require Import Address.
From S2P Require Import Analyze.
From S2P Require Import Store.
From S2P Require Import Queries.
From S2P Require Import Float.
From S2P Require Import Process.

Definition SEGWIT_HEIGHT : Z := 481824.
Definition ANALYZED_OVERHEAD_PER_BLOCK : Z := 4096 * 1024.

Inductive FrontPageDataUpdateStrategy := RegenerateFromScratch | Append.

(** A block that is waited for: its number, its hash and what it does to the front page. *)
Abbreviation QueueEntry := (Z * hash * FrontPageDataUpdateStrategy)%type.

(** What the page and the miners are refreshed with: the analyses, the metrics and the text of the coinbase. *)
Abbreviation Applied := (list SerializedTx * BlockMetrics * bytes)%type.

(** The jobs of a chain that grew by more or less than one block. *)
Definition fork_jobs (first_number : Z) (blocks_to_apply : list (hash * Z)) : list QueueEntry :=
  imap (λ i '(hash, _), (first_number +! Z.of_nat i, hash, if (i =? 0)%nat then RegenerateFromScratch else Append))
    blocks_to_apply.

Section keepup.
Context `{Sha256, U256Lib}.

(** Gives the state, the queue and the hash that is broadcast. *)
Definition handle_new_header (s : ChainMan) (fuel : nat) (header : BlockHeader) (queue : list QueueEntry) :
    comp (ChainMan * list QueueEntry * option hash) :=
  let c := CHAIN s in
  if bool_decide (is_Some (known_headers c !! bh_hash header)) then mret (s, queue, None)
  else if bool_decide (known_headers c !! bh_parent header = None) then mret (s, queue, None)
  else
    '(s, r) ← validate_and_apply_header_inner s fuel header false;
    match r with
    | inr (Some header_application_result) =>
        let s := set_CHAIN s (update_most_work_chain (CHAIN s) header_application_result) in
        let blocks_to_apply := added_blocks header_application_result in
        let new_top_number := bn_number (top_header (CHAIN s)) in
        let queue :=
          if (length blocks_to_apply =? 1)%nat then queue ++ [(new_top_number, bh_hash header, Append)]
          else
            let first_number := new_top_number -! len blocks_to_apply -! 1 in
            queue ++ fork_jobs first_number blocks_to_apply in
        mret (s, queue, Some (bn_hash (top_header (CHAIN s))))
    | _ => mret (s, queue, None)
    end.

(** ** [apply_block] *)

Context `{RocksDb, Layout, UnstableSort}.

Definition self_txs (block : Block) : gmap hash Tx :=
  foldl (λ m tx, <[ tx_hash tx := tx ]> m) ∅ (block_txs block).

(** An output that is in the block, or the outpoint of one to be fetched. *)
Definition pending_dep (m : gmap hash Tx) (txin : TxIn) : outcome (TxOut + hash * Z) :=
  match m !! prevout_hash txin with
  | Some from => o ← expect (txouts from !! Z.to_nat (prevout_index txin)) "index out of bounds"; Ok (inl o)
  | None => Ok (inr (prevout_hash txin, prevout_index txin))
  end.

Definition push_pending (m : gmap hash Tx) (pending : list (TxOut + hash * Z)) (txin : TxIn) :
    outcome (list (TxOut + hash * Z)) :=
  dep ← pending_dep m txin; Ok (pending ++ [dep]).

Definition pending_deps (block : Block) : outcome (list (TxOut + hash * Z)) :=
  for_each (λ pending tx,
    if is_coinbase tx then Ok pending else for_each (push_pending (self_txs block)) (txins tx) pending)
    (block_txs block) [].

(** The outputs, with those of the tasks put where they belong. *)
Definition push_dep (d : Databases) (deps : list TxOut) (dep : TxOut + hash * Z) : outcome (list TxOut) :=
  match dep with
  | inl o => Ok (deps ++ [o])
  | inr x => o ← fetch_dependency d x; Ok (deps ++ [o])
  end.

Definition analyze_owned_tx (header : BlockHeader) (deps : list TxOut) (g : Gathered) (tx : Tx) : comp Gathered :=
  let consumed := ga_disk_index g in
  let txin_count := if is_coinbase tx then 0 else len (txins tx) in
  slice ← Finished (expect (if consumed +! txin_count <=? len deps
                            then Some (take (Z.to_nat txin_count) (drop (Z.to_nat consumed) deps)) else None)
                      "slice index out of range");
  '(analyzed, arena) ← analyze_tx (bh_hash header) tx slice (bh_timestamp header) (ga_arena g);
  let fee_rates := if is_coinbase tx then ga_fee_rates g else ga_fee_rates g ++ [fee_rate analyzed] in
  mret (mkGathered (ga_analyzed g ++ [analyzed]) (consumed +! txin_count) (ga_fees_total g +! st_fee analyzed)
          (ga_volume g +! st_txouts_sum analyzed) fee_rates arena).

(** The analysis of the block in an arena of its own. *)
Definition analyze_owned_block (block : Block) (deps : list TxOut) (arena : Arena) :
    comp (list SerializedTx * BlockMetrics * bytes * Arena) :=
  _ ← Finished (with_capacity (T := f64) RU64 (wrap64 (len (block_txs block) - 1)));
  g ← for_comp (analyze_owned_tx (block_header block) deps) (block_txs block) (mkGathered [] 0 0 0 [] arena);
  coinbase_ascii ← Finished (coinbase_script block);
  '(_, arena) ← Finished (try_alloc_array_copy RSliceU8 [coinbase_ascii] (ga_arena g));
  metrics ← Finished (block_metrics (ga_fee_rates g) (ga_fees_total g) (ga_volume g) (len (block_txs block)));
  mret (ga_analyzed g, metrics, coinbase_ascii, arena).

(** [apply_block] up to the refresh, which is [Refresh.refresh]. Gives the databases, the state and what the block
    was found to be; nothing if an output is missing. [address] is where the allocator puts the arena. *)
Definition apply_block (d : Databases) (s : ChainMan) (fuel : nat) (address : Z) (block : Block) :
    comp (Databases * ChainMan * option Applied) :=
  pending ← Finished (pending_deps block);
  match for_each (push_dep d) pending [] with
  | Err _ => mret (d, s, None)
  | Panic m => Finished (Panic m)
  | Ub => Finished Ub
  | Ok deps =>
      let analyzed_arena := arena_new address (MAX_PACKET_SIZE +! ANALYZED_OVERHEAD_PER_BLOCK) in
      '(analyzed_txs, metrics, coinbase_ascii, arena) ← analyze_owned_block block deps analyzed_arena;
      '(d, _, _) ← Finished (write_analyzed_txs d [bh_hash (block_header block)] [analyzed_txs] [coinbase_ascii]
                               [metrics] arena);
      s ← mark_as_downloaded s fuel [bh_hash (block_header block)] [coinbase_ascii];
      mret (d, s, Some (analyzed_txs, metrics, coinbase_ascii))
  end.

(** Gives the databases, the state, the queue and the hash that is broadcast. *)
Definition handle_new_block (d : Databases) (s : ChainMan) (fuel : nat) (address : Z) (block : Block)
    (queue : list QueueEntry) : comp (Databases * ChainMan * list QueueEntry * option hash) :=
  match queue with
  | [] => mret (d, s, queue, None)
  | (number, hash, strat) :: rest =>
      if negb (bool_decide (bh_hash (block_header block) = hash)) then mret (d, s, queue, None)
      else
        match (if SEGWIT_HEIGHT <=? number then verify_witness_commitment block else Ok tt) with
        | Ok _ =>
            '(d, s, _) ← apply_block d s fuel address block;
            mret (d, s, rest, Some hash)
        | Err _ => mret (d, s, queue, None)
        | Panic m => Finished (Panic m)
        | Ub => Finished Ub
        end
  end.

(** * The analysis of a block *)

(** The outputs of the block itself, as a state to look outputs up in. *)
Definition block_state (block : Block) : ChainSyncState :=
  mkChainSyncState (txouts <$> self_txs block) ∅ [] [] [].

(** What stands for an output until the tasks are done. *)
Definition dep_is (d : Databases) (dep : TxOut + hash * Z) (o : TxOut) : Prop :=
  match dep with inl o' => o' = o | inr x => fetch_dependency d x = Ok o end.

Lemma pending_dep_spec d block txin o :
  spent_output d (block_state block) txin = Ok o →
  ∃ dep, pending_dep (self_txs block) txin = Ok dep ∧ dep_is d dep o.
Proof.
  unfold spent_output, pending_dep, block_state. cbn [current_txouts previous_txouts].
  rewrite lookup_fmap, lookup_empty. destruct (self_txs block !! prevout_hash txin) as [from|]; cbn.
  - destruct (txouts from !! Z.to_nat (prevout_index txin)); cbn; [|done]. intros [= <-]. by eexists.
  - intros Ho. by eexists.
Qed.

(** An input of a transaction that is no coinbase spends an output. *)
Definition spends_all (p : TxPlan) : Prop :=
  is_coinbase (tp_tx p) = false → spending (txins (tp_tx p)) = txins (tp_tx p).

Lemma coinbase_spends_none tx : is_coinbase tx = true → spending (txins tx) = [].
Proof.
  unfold is_coinbase, txin_is_empty. destruct (txins tx) as [|txin [|]]; [done| |done].
  rewrite andb_true_iff, bool_decide_eq_true. intros [He _]. unfold spending. cbn. by rewrite He.
Qed.

Lemma push_pendings d block l deps : ∀ acc,
  Forall2 (λ txin o, spent_output d (block_state block) txin = Ok o) l deps →
  ∃ P, for_each (push_pending (self_txs block)) l acc = Ok (acc ++ P) ∧ Forall2 (dep_is d) P deps.
Proof.
  intros acc Hl. revert acc. induction Hl as [|txin o l deps Ho Hl IH]; intros acc; cbn [for_each].
  - exists []. by rewrite app_nil_r.
  - destruct (pending_dep_spec d block txin o Ho) as (dep & Hdep & Hd).
    assert (push_pending (self_txs block) acc txin = Ok (acc ++ [dep])) as -> by (unfold push_pending; by rewrite Hdep).
    cbn [mbind outcome_bind]. destruct (IH (acc ++ [dep])) as (P & -> & HP).
    exists (dep :: P). rewrite <- app_assoc. split; [done|by constructor].
Qed.

Lemma pending_spec d block plan :
  map tp_tx plan = block_txs block → Forall (plan_ok d (block_state block)) plan → Forall spends_all plan →
  ∃ P, pending_deps block = Ok P ∧ Forall2 (dep_is d) P (concat (map tp_deps plan)).
Proof.
  intros Hplan Hok Hall. unfold pending_deps. rewrite <- Hplan. clear Hplan.
  enough (∀ acc, ∃ P, for_each (λ pending tx,
      if is_coinbase tx then Ok pending else for_each (push_pending (self_txs block)) (txins tx) pending)
      (map tp_tx plan) acc = Ok (acc ++ P) ∧ Forall2 (dep_is d) P (concat (map tp_deps plan))) as Hacc by apply (Hacc []).
  induction Hok as [|p plan (Hr & _ & _) Hok IH]; intros acc; cbn [map for_each concat].
  - exists []. by rewrite app_nil_r.
  - apply Forall_cons in Hall as [Hp Hall]. specialize (IH Hall). unfold resolved in Hr.
    destruct (is_coinbase (tp_tx p)) eqn:Hc; cbn [mbind outcome_bind].
    + rewrite coinbase_spends_none in Hr by done. inversion Hr as [Hnil|]. apply IH.
    + rewrite (Hp Hc) in Hr. destruct (push_pendings d block _ _ acc Hr) as (P1 & Hl1 & HP1).
      rewrite Hl1. cbn [mbind outcome_bind]. destruct (IH (acc ++ P1)) as (P2 & HP2 & Hd2). rewrite HP2.
      exists (P1 ++ P2). rewrite <- app_assoc. split; [done|by apply Forall2_app].
Qed.

Lemma push_deps d P outs : ∀ acc, Forall2 (dep_is d) P outs → for_each (push_dep d) P acc = Ok (acc ++ outs).
Proof.
  intros acc HP. revert acc. induction HP as [|dep o P outs Hd HP IH]; intros acc; cbn [for_each].
  - by rewrite app_nil_r.
  - assert (push_dep d acc dep = Ok (acc ++ [o])) as ->.
    { destruct dep as [o'|x]; cbn in Hd |- *; [by subst o'|by rewrite Hd]. }
    cbn [mbind outcome_bind]. by rewrite IH, <- app_assoc.
Qed.

(** What the loop adds for a transaction. *)
Definition gather_owned (header : BlockHeader) (g : Gathered) (p : TxPlan) : Gathered :=
  let st := planned header p in
  mkGathered (ga_analyzed g ++ [st]) (ga_disk_index g) (ga_fees_total g +! st_fee st) (ga_volume g +! st_txouts_sum st)
    (if is_coinbase (tp_tx p) then ga_fee_rates g else ga_fee_rates g ++ [fee_rate st]) (ga_arena g).

Lemma analyze_owned_tx_spec d s header pre post g p :
  plan_ok d s p → spends_all p → hash_ok (bh_hash header) →
  len (pre ++ tp_deps p ++ post) < 2 ^ 63 → ga_disk_index g = len pre →
  arena_wf (ga_arena g) → plan_need header p <= free (ga_arena g) →
  ∃ a', analyze_owned_tx header (pre ++ tp_deps p ++ post) g (tp_tx p)
      = Finished (Ok (with_arena (gather_owned header g p) (len (pre ++ tp_deps p)) a')) ∧
    arena_step (ga_arena g) a' (plan_need header p).
Proof.
  intros (Hr & Han & Hsig) Hall Hh Hlen Hidx Hwf Hf. unfold analyze_owned_tx. rewrite Hidx.
  assert ((if is_coinbase (tp_tx p) then 0 else len (txins (tp_tx p))) = len (tp_deps p)) as ->.
  { unfold resolved in Hr. destruct (is_coinbase (tp_tx p)) eqn:Hc.
    - rewrite coinbase_spends_none in Hr by done. by inversion Hr.
    - rewrite (Hall Hc) in Hr. unfold len. by rewrite (Forall2_length _ _ _ Hr). }
  pose proof (len_nonneg pre). pose proof (len_nonneg (tp_deps p)). pose proof (len_nonneg post).
  assert (take (Z.to_nat (len (tp_deps p))) (drop (Z.to_nat (len pre)) (pre ++ tp_deps p ++ post)) = tp_deps p) as ->.
  { unfold len. by rewrite !Nat2Z.id, drop_app_length, take_app_length. }
  rewrite !len_app in *. rewrite wrap64_small by (unfold in_u64; lia). rewrite (proj2 (Z.leb_le _ _)) by lia.
  cbn [expect mbind comp_bind].
  destruct (serialize_analysis_spec (tp_tx p) (tp_deps p) (bh_timestamp header) (bh_hash header) (tp_sigops p)
    (ga_arena g) Hwf Han Hh Hf) as (a' & Ha & Hs).
  assert (analyze_tx (bh_hash header) (tp_tx p) (tp_deps p) (bh_timestamp header) (ga_arena g)
    = Finished (Ok (planned header p, a'))) as Htx.
  { unfold analyze_tx. rewrite Hsig. cbn [mbind comp_bind]. unfold planned. by rewrite <- Ha. }
  rewrite Htx. exists a'. split; [done|exact Hs].
Qed.

(** The fee rates of all transactions but the coinbase. *)
Definition paying_rates (header : BlockHeader) (plan : list TxPlan) : list f64 :=
  map (λ p, fee_rate (planned header p)) (List.filter (λ p, negb (is_coinbase (tp_tx p))) plan).

Lemma analyze_owned_txs d s header plan : ∀ pre g,
  Forall (plan_ok d s) plan → Forall spends_all plan → hash_ok (bh_hash header) →
  len (pre ++ concat (map tp_deps plan)) < 2 ^ 63 → ga_disk_index g = len pre →
  in_u64 (ga_fees_total g) → in_u64 (ga_volume g) →
  arena_wf (ga_arena g) → total_cost (plan_need header) plan <= free (ga_arena g) →
  let sts := map (planned header) plan in
  ∃ index a', for_comp (analyze_owned_tx header (pre ++ concat (map tp_deps plan))) (map tp_tx plan) g
    = Finished (Ok (mkGathered (ga_analyzed g ++ sts) index (wrap64 (ga_fees_total g + sumZ (map st_fee sts)))
        (wrap64 (ga_volume g + sumZ (map st_txouts_sum sts))) (ga_fee_rates g ++ paying_rates header plan) a')) ∧
    arena_step (ga_arena g) a' (total_cost (plan_need header) plan).
Proof.
  induction plan as [|p plan IH]; intros pre g Hok Hall Hh Hlen Hidx Hgf Hgv Hwf Hf sts; subst sts.
  - exists (ga_disk_index g), (ga_arena g). unfold paying_rates. cbn. rewrite !app_nil_r, !Z.add_0_r, !wrap64_small by done.
    split; [by destruct g|by apply arena_step_refl].
  - apply Forall_cons in Hok as [Hp Hok]. apply Forall_cons in Hall as [Hs Hall]. cbn [map concat for_comp] in *.
    change (total_cost (plan_need header) (p :: plan))
      with (plan_need header p + total_cost (plan_need header) plan) in *.
    pose proof (plan_need_nonneg header p).
    pose proof (total_cost_nonneg (plan_need header) (plan_need_nonneg header) plan).
    destruct (analyze_owned_tx_spec d s header pre (concat (map tp_deps plan)) g p) as (a1 & Hg1 & Hs1); [done..|lia|].
    rewrite Hg1. cbn [mbind comp_bind]. pose proof (arena_step_free _ _ _ Hs1). rewrite app_assoc in Hlen |- *.
    set (g1 := with_arena _ _ _).
    destruct (IH (pre ++ tp_deps p) g1) as (index & a' & Hg' & Hs');
      [done|done|done|done|done|apply wrap64_range|apply wrap64_range|by destruct Hs1|cbn; lia|].
    exists index, a'. split; [|by eapply arena_step_trans]. rewrite Hg'. do 2 f_equal.
    unfold paying_rates. cbn [List.filter]. subst g1.
    cbn [with_arena gather_owned ga_analyzed ga_fees_total ga_volume ga_fee_rates].
    change (sumZ (?x :: ?l)) with (x + sumZ l). rewrite !wrap64_add_l, <- !Z.add_assoc, <- app_assoc.
    destruct (is_coinbase (tp_tx p)); cbn [negb map]; [done|by rewrite <- app_assoc].
Qed.

Lemma len_deps_need header plan :
  hash_ok (bh_hash header) → len (concat (map tp_deps plan)) <= total_cost (plan_need header) plan.
Proof.
  intros Hh. induction plan as [|p plan IH]; [done|]. cbn [map concat]. rewrite len_app.
  change (total_cost (plan_need header) (p :: plan)) with (plan_need header p + total_cost (plan_need header) plan).
  pose proof (len_deps_plan header p Hh). lia.
Qed.

(** The memory the results of a block take. *)
Definition owned_need (header : BlockHeader) (plan : list TxPlan) : Z :=
  total_cost (plan_need header) plan + array_room RSliceU8 1.

Lemma analyze_owned_block_spec d block s arena plan script :
  map tp_tx plan = block_txs block → Forall (plan_ok d s) plan → Forall spends_all plan →
  hash_ok (bh_hash (block_header block)) → coinbase_script block = Ok script → len plan <= 2 ^ 59 →
  arena_wf arena → owned_need (block_header block) plan <= free arena →
  Forall (λ r, is_nan r = false) (paying_rates (block_header block) plan) →
  let sts := map (planned (block_header block)) plan in
  ∃ metrics a', analyze_owned_block block (concat (map tp_deps plan)) arena = Finished (Ok (sts, metrics, script, a')) ∧
    arena_step arena a' (owned_need (block_header block) plan) ∧
    fees_total metrics = wrap64 (sumZ (map st_fee sts)) ∧ volume metrics = wrap64 (sumZ (map st_txouts_sum sts)) ∧
    txs_count metrics = len (block_txs block) ∧
    ∀ r, r ∈ paying_rates (block_header block) plan →
      rate_le (lowest_fee_rate metrics) r ∧ rate_le r (highest_fee_rate metrics).
Proof.
  intros Hplan Hok Hall Hh Hscript Hcount Hwf Hf Hnan sts. unfold owned_need in Hf.
  assert (len (block_txs block) = len plan) as Hlen by (rewrite <- Hplan; apply len_map).
  assert (1 <= len plan) as Hpos.
  { rewrite <- Hlen. unfold coinbase_script in Hscript. destruct (block_txs block) as [|t l]; [done|].
    rewrite len_cons. pose proof (len_nonneg l). lia. }
  pose proof (array_room_nonneg RSliceU8 1 ltac:(lia)).
  pose proof (total_cost_nonneg _ (plan_need_nonneg (block_header block)) plan).
  pose proof (len_deps_need (block_header block) plan Hh) as Hdeps.
  unfold analyze_owned_block. rewrite Hlen. unfold with_capacity.
  rewrite size_of_u64, (wrap64_small (len plan - 1)) by (unfold in_u64; lia).
  rewrite (proj2 (Z.leb_le _ _)) by (unfold isize_max; lia). cbn [mbind comp_bind].
  destruct (analyze_owned_txs d s (block_header block) plan [] (mkGathered [] 0 0 0 [] arena))
    as (index & a2 & Hg & Hs2); [done|done|done| |done|done|done|done|cbn; lia|].
  { cbn [app]. unfold free, arena_wf in *. lia. }
  cbn [app] in Hg. rewrite Hplan in Hg. fold sts in Hg. rewrite Hg. cbn [mbind comp_bind]. rewrite Hscript.
  cbn [mbind comp_bind ga_arena ga_analyzed ga_fee_rates ga_fees_total ga_volume].
  pose proof (arena_step_free _ _ _ Hs2). cbn [ga_arena] in *.
  destruct (try_alloc_array_copy_Ok a2 RSliceU8 [script]) as (a3 & Ha3 & Hs3); [by destruct Hs2|change (len [script]) with 1; lia|].
  rewrite Ha3. cbn [mbind comp_bind app].
  destruct (block_metrics_spec (paying_rates (block_header block) plan) (wrap64 (0 + sumZ (map st_fee sts)))
    (wrap64 (0 + sumZ (map st_txouts_sum sts))) (len plan)) as (m & Hm & Hrest); [done|].
  rewrite Hm. cbn [mbind comp_bind]. exists m, a3. split; [done|]. split; [|exact Hrest].
  unfold owned_need. by eapply arena_step_trans.
Qed.

(** ** A missing output *)

Lemma push_dep_fails d P : ∀ acc x e,
  inr x ∈ P → fetch_dependency d x = Err e → ∃ e', for_each (push_dep d) P acc = Err e'.
Proof.
  induction P as [|dep P IH]; intros acc x e Hx He; [by apply elem_of_nil in Hx|]. cbn [for_each].
  assert ((∃ o, push_dep d acc dep = Ok (acc ++ [o]) ∧ dep ≠ inr x) ∨ ∃ e', push_dep d acc dep = Err e')
    as [(o & -> & Hne)|[e' ->]]; [|cbn [mbind outcome_bind]|by eexists].
  - destruct dep as [o|y]; [left; by exists o|]. cbn. destruct (fetch_outcome d y) as [[o Ho]|[e' He']].
    + rewrite Ho. left. exists o. split; [done|]. intros [= ->]. by rewrite Ho in He.
    + rewrite He'. right. by eexists.
  - apply elem_of_cons in Hx as [Hx|Hx]; [by destruct Hne|]. by eapply IH.
Qed.

Lemma apply_block_missing d s fuel address block pending x e :
  pending_deps block = Ok pending → inr x ∈ pending → fetch_dependency d x = Err e →
  apply_block d s fuel address block = Finished (Ok (d, s, None)).
Proof.
  intros Hp Hx He. unfold apply_block. rewrite Hp. cbn [mbind comp_bind].
  by destruct (push_dep_fails d pending [] x e Hx He) as [e' ->].
Qed.

(** ** New headers *)

(** The jobs of blocks that have numbers; [shift] is added to those. *)
Definition jobs_of (shift : Z) (blocks : list (hash * Z)) : list QueueEntry :=
  imap (λ i e, (wrap64 (e.2 + shift), e.1, if (i =? 0)%nat then RegenerateFromScratch else Append)) blocks.

(** Blocks with numbers that go down by one, given with other numbers. *)
Lemma fork_jobs_spec (l l' : list (hash * Z)) n :
  l'.*1 = l.*1 → (∀ j e, l !! j = Some e → e.2 = n - Z.of_nat j) →
  fork_jobs (n -! len l -! 1) (rev l') = jobs_of (-2) (rev l).
Proof.
  intros Hfst Hn. unfold fork_jobs, jobs_of. apply list_eq. intros i. rewrite !list_lookup_imap.
  assert (length l' = length l) as Hlen by (rewrite <- (length_fmap fst l'), Hfst; apply length_fmap).
  destruct (decide (i < length l)%nat) as [Hi|Hi].
  - rewrite !rev_alt. change (rev_append ?x []) with (reverse x). rewrite !reverse_lookup, Hlen by lia.
    destruct (lookup_lt_is_Some_2 l (length l - S i)) as [e He]; [lia|].
    assert ((l'.*1) !! (length l - S i)%nat = Some e.1) as He' by (by rewrite Hfst, list_lookup_fmap, He).
    rewrite list_lookup_fmap in He'. apply fmap_Some in He' as ([h' k] & -> & Hh). cbn in Hh. rewrite He. cbn.
    rewrite Hh, (Hn _ _ He). do 3 f_equal. rewrite wrap64_add_l. unfold len.
    match goal with |- wrap64 (wrap64 ?a - 1 + ?b) = _ => replace (wrap64 a - 1 + b) with (wrap64 a + (b - 1)) by lia end.
    rewrite wrap64_add_l. f_equal. lia.
  - rewrite !lookup_ge_None_2 by (rewrite length_rev; lia). done.
Qed.

Lemma entries_lookup c x j e :
  chain_wf c → in_chain c x → entries c x !! j = Some e → e.2 = bn_number x - Z.of_nat j.
Proof.
  intros Hwf Hx. unfold entries. change (map entry ?l) with (entry <$> l). rewrite list_lookup_fmap, fmap_Some.
  intros (a & Ha & ->). cbn. by destruct (ancestors_lookup c x j a Hwf Hx Ha) as (_ & Hn & _).
Qed.

Lemma extending_header s fuel h p :
  extends_chain s fuel h p →
  bool_decide (is_Some (known_headers (CHAIN s) !! bh_hash h)) = false ∧
  bool_decide (known_headers (CHAIN s) !! bh_parent h = None) = false.
Proof.
  intros He. rewrite (ec_new _ _ _ _ He), (ec_parent _ _ _ _ He).
  split; apply bool_decide_eq_false; [by intros []|done].
Qed.

Lemma update_wf c r : chain_wf c → chain_wf (update_most_work_chain c r).
Proof.
  destruct (update_spec c r) as (Ht & Hk & _). destruct (update_most_work_chain c r). cbn in Ht, Hk. subst.
  by intros [].
Qed.

(** * Properties *)

(** A header on top of the top header becomes the top header: the index of the main
    chain stays exact, and the block is queued with its number. *)
Theorem new_header_extends s fuel h p queue :
  healthy s fuel → chain_index (CHAIN s) → extends_chain s fuel h p →
  bn_total_work (top_header (CHAIN s)) <= bn_total_work (new_header p h) →
  bh_parent h = bn_hash (top_header (CHAIN s)) →
  ∃ s', handle_new_header s fuel h queue
      = Finished (Ok (s', queue ++ [(bn_number (top_header (CHAIN s)) + 1, bh_hash h, Append)], Some (bh_hash h))) ∧
    top_header (CHAIN s') = new_header p h ∧ chain_wf (CHAIN s') ∧ chain_index (CHAIN s').
Proof.
  intros Hh Hix He Hle Hp. destruct (record_extension s fuel h p Hh He Hix Hle Hp) as [Hr Hi].
  destruct (extending_header s fuel h p He) as [H1' H2']. pose proof (h_wf _ _ Hh) as Hwf.
  assert (bn_number p = bn_number (top_header (CHAIN s))) as Hn.
  { apply (in_chain_hash_inj (CHAIN s)); [eapply in_chain_known; [done|apply He]|apply (wf_top _ Hwf)|].
    rewrite <- Hp. eapply wf_key; [done|apply He]. }
  exists (set_CHAIN (with_top s (new_header p h)) (update_most_work_chain (CHAIN (with_top s (new_header p h)))
    (mkHeaderApplicationResult [] [entry (new_header p h)]))).
  split; [|split; [done|split; [|exact Hi]]].
  - unfold handle_new_header. rewrite H1', H2', Hr, <- Hn. reflexivity.
  - apply update_wf. by apply (with_header_wf s fuel h p Hh He).
Qed.

(** A header that makes a fork the main chain: the blocks of the fork are queued from
    the oldest on, the first one to regenerate the front page. But their numbers
    are two too low, and a fork of the new block alone is queued like an extension, so that the front
    page keeps the block that it replaces. *)
Theorem fork_queue_misnumbered s fuel h p queue :
  healthy s fuel → extends_chain s fuel h p →
  bn_total_work (top_header (CHAIN s)) <= bn_total_work (new_header p h) →
  bh_parent h ≠ bn_hash (top_header (CHAIN s)) → bn_number p <= bn_number (top_header (CHAIN s)) →
  ∃ new old common s', entries (CHAIN s) p = new ++ common ∧ entries (CHAIN s) (top_header (CHAIN s)) = old ++ common ∧
    common ≠ [] ∧ (∀ e, e ∈ new → e ∉ entries (CHAIN s) (top_header (CHAIN s))) ∧
    top_header (CHAIN s') = new_header p h ∧
    handle_new_header s fuel h queue = Finished (Ok (s',
      queue ++ (if bool_decide (new = []) then [(bn_number p + 1, bh_hash h, Append)]
                else jobs_of (-2) (rev new ++ [entry (new_header p h)])), Some (bh_hash h))).
Proof.
  intros Hh He Hle Hp Hnum. destruct (extending_header s fuel h p He) as [H1' H2']. pose proof (h_wf _ _ Hh) as Hwf.
  destruct (apply_fork s fuel h p Hh He Hle Hp Hnum) as (A & B & C & count & HA & HB & HC & Hd & _ & Hr).
  set (x := new_header p h) in *. set (s1 := store_downloaded (with_top s x) count) in *.
  match type of Hr with context [inr (Some ?r)] => destruct (update_spec (CHAIN s1) r) as (Ht & _);
    exists A, B, C, (set_CHAIN s1 (update_most_work_chain (CHAIN s1) r)) end.
  do 5 (split; [done|]). unfold handle_new_header. rewrite H1', H2', Hr. cbn [mbind comp_bind added_blocks].
  change (top_header (CHAIN (set_CHAIN ?s ?c))) with (top_header c). rewrite Ht. change (top_header (CHAIN s1)) with x.
  rewrite length_rev. cbn [length]. rewrite length_map. unfold len. rewrite length_rev. cbn [length]. rewrite length_map.
  destruct (bool_decide_reflect (A = [])) as [->|Hnil]; [reflexivity|].
  rewrite (proj2 (Nat.eqb_neq _ _)) by (destruct A; [done|cbn; lia]).
  change (Z.of_nat (S (length A))) with (len (entry x :: A)).
  change (rev A ++ [entry x]) with (rev (entry x :: A)).
  rewrite (fork_jobs_spec (entry x :: A)); [reflexivity| |].
  - cbn. f_equal. change (map ?f A) with (f <$> A). by rewrite <- list_fmap_compose.
  - intros [|j] e; cbn; [intros [= <-]; cbn; lia|]. intros Hj.
    rewrite (entries_lookup (CHAIN s) p j e); [lia|done|eapply in_chain_known; [done|apply He]|].
    rewrite HA. by apply lookup_app_l_Some.
Qed.

(** C10. The first block that is waited for, when it comes with a valid commitment and all
    outputs it spends are in the block or in the database: its analysis is stored, so that the
    query of the block gives its transactions, it is marked as downloaded, taken
    from the queue and announced. *)
Theorem block_applied d s fuel address block number strat rest plan script :
  let h := bh_hash (block_header block) in
  let sts := map (planned (block_header block)) plan in
  let room := MAX_PACKET_SIZE + ANALYZED_OVERHEAD_PER_BLOCK in
  number < SEGWIT_HEIGHT ∨ verify_witness_commitment block = Ok tt →
  map tp_tx plan = block_txs block → Forall (plan_ok d (block_state block)) plan → Forall spends_all plan →
  hash_ok h → coinbase_script block = Ok script → len plan <= 2 ^ 59 → size_of RBlockTxEntry * len plan <= isize_max →
  address_ok address → owned_need (block_header block) plan + batch_need [h] [sts] <= room →
  Forall (λ r, is_nan r = false) (paying_rates (block_header block) plan) → batch_ok [h] [sts] →
  chain_wf (CHAIN s) → chain_fits (CHAIN s) → enough (CHAIN s) fuel → is_Some (known_headers (CHAIN s) !! h) →
  ∃ d' s', handle_new_block d s fuel address block ((number, h, strat) :: rest) = Finished (Ok (d', s', rest, Some h)) ∧
    get_block_tx_entries d' h = Ok (map tx_entry sts) ∧
    written_txs st_analyzed_tx (TXS_DB d) (TXS_DB d') sts ∧ written_txs st_tx_outs (TXOUTS_DB d) (TXOUTS_DB d') sts ∧
    written (TXSPENDS_DB d) (TXSPENDS_DB d') (all_spends [h] [sts]) ∧
    written (ADDRESSES_DB d) (ADDRESSES_DB d') (all_amends [h] [sts]) ∧
    chain_wf (CHAIN s') ∧
    (∀ k, bn_fetched_full <$> known_headers (CHAIN s') !! k
          = (λ x, bn_fetched_full x || bool_decide (k = h)) <$> known_headers (CHAIN s) !! k).
Proof.
  intros h sts room Hw Hplan Hok Hall Hh Hscript Hcount Hsize Haddr Hf Hnan Hbatch Hwf Hfits Hen Hknown.
  assert (arena_wf (arena_new address room)) as Hawf by (unfold arena_wf, address_ok, room, MAX_PACKET_SIZE, ANALYZED_OVERHEAD_PER_BLOCK in *; cbn; lia).
  assert (free (arena_new address room) = room) as Hfree by (unfold free; cbn; lia).
  assert (0 <= batch_need [h] [sts]) as Hbn by apply batch_need_nonneg.
  destruct (pending_spec d block plan Hplan Hok Hall) as (P & HP & Hdeps).
  destruct (analyze_owned_block_spec d block (block_state block) (arena_new address room) plan script)
    as (m & a' & Hb & Hs & _); [done..|lia|done|]. fold sts in Hb.
  pose proof (arena_step_free _ _ _ Hs).
  assert (concat [sts] = sts) as Hcc by apply app_nil_r.
  destruct (batch_written d [h] [sts] [script] [m] a') as (d' & a2 & Hwr & Hq & _ & Htx & Hto & Hsp & Ham);
    [done..|by destruct Hs|lia| |].
  { constructor; [|constructor]. split; [|unfold sts; by rewrite len_map].
    apply Forall_map. eapply Forall_impl; [exact Hok|]. intros p (_ & Han & _). by apply planned_stored. }
  destruct (mark_as_downloaded_effect s fuel [h] [script]) as (s' & Hm & Hwf' & Hfl & _);
    [done..|by constructor|done|].
  exists d', s'. rewrite Hcc in Htx, Hto. split_and!; [|by apply (Hq 0%nat)|done..|].
  - unfold handle_new_block. rewrite bool_decide_true by done. cbn [negb].
    assert ((if SEGWIT_HEIGHT <=? number then verify_witness_commitment block else Ok tt) = Ok tt) as ->.
    { destruct (Z.leb_spec SEGWIT_HEIGHT number); [|done]. destruct Hw; [lia|done]. }
    unfold apply_block. rewrite HP. cbn [mbind comp_bind]. rewrite (push_deps d P _ [] Hdeps). cbn [app].
    change (MAX_PACKET_SIZE +! ANALYZED_OVERHEAD_PER_BLOCK) with room.
    rewrite Hb. cbn [mbind comp_bind]. fold h. rewrite Hwr. cbn [mbind comp_bind]. by rewrite Hm.
  - intros k. rewrite Hfl. destruct (known_headers (CHAIN s) !! k); cbn; [|done]. do 2 f_equal.
    apply bool_decide_ext. by rewrite list_elem_of_singleton.
Qed.

(** When an output is missing, the block is taken from the queue and announced
    as applied, but nothing is stored of it, and it is not marked as downloaded. *)
Theorem keepup_drops_block d s fuel address block number strat rest pending x e :
  number < SEGWIT_HEIGHT ∨ verify_witness_commitment block = Ok tt →
  pending_deps block = Ok pending → inr x ∈ pending → get_transaction_outputs d x.1 = Err e →
  let h := bh_hash (block_header block) in
  handle_new_block d s fuel address block ((number, h, strat) :: rest) = Finished (Ok (d, s, rest, Some h)).
Proof.
  intros Hw Hp Hx He h. unfold handle_new_block. rewrite bool_decide_true by done. cbn [negb].
  assert ((if SEGWIT_HEIGHT <=? number then verify_witness_commitment block else Ok tt) = Ok tt) as ->.
  { destruct (Z.leb_spec SEGWIT_HEIGHT number); [|done]. destruct Hw; [lia|done]. }
  rewrite (apply_block_missing d s fuel address block pending x "task panicked"); [done..|].
  unfold fetch_dependency. by rewrite He.
Qed.
End keepup.

(** * Examples *)

Import Toy ToyDb ToyChain.

Lemma new_header_extends_witness :
  ∃ s', handle_new_header state2 10 next_header []
    = Finished (Ok (s', [(bn_number (top_header chain2) + 1, bh_hash next_header, Append)], Some (bh_hash next_header))) ∧
    chain_index (CHAIN s').
Proof.
  destruct (new_header_extends state2 10 next_header (top_header chain2) [] state2_healthy chain2_index next_header_extends)
    as (s' & Hs & _ & _ & Hi).
  - vm_compute. discriminate.
  - apply (proj1 (bool_decide_eq_true _)). vm_compute. reflexivity.
  - exists s'. exact (conj Hs Hi).
Defined.

Lemma fork_queue_misnumbered_witness :
  ∃ new s', bool_decide (new = []) = false ∧ handle_new_header state_fork 10 side_header [] = Finished (Ok (s',
    (if bool_decide (new = []) then [(2, bh_hash side_header, Append)]
     else jobs_of (-2) (rev new ++ [entry (new_header side_parent side_header)])), Some (bh_hash side_header))).
Proof.
  destruct (fork_queue_misnumbered state_fork 10 side_header side_parent [] state_fork_healthy side_header_extends)
    as (new & old & common & s' & Hnew & Hold & _ & _ & _ & Hs).
  - vm_compute. discriminate.
  - apply (proj1 (bool_decide_eq_false _)). vm_compute. reflexivity.
  - vm_compute. discriminate.
  - exists new, s'. split; [|exact Hs]. apply bool_decide_eq_false. intros Hnil. rewrite Hnil in Hnew. cbn [app] in Hnew.
    assert (bool_decide (entry side_parent ∈ entries (CHAIN state_fork) (top_header (CHAIN state_fork))) = false) as Hnot
      by (vm_compute; reflexivity).
    apply bool_decide_eq_false in Hnot. apply Hnot. rewrite Hold. apply elem_of_app. right. rewrite <- Hnew.
    unfold entries. destruct (ancestors_head (CHAIN state_fork) side_parent) as [l ->]. apply list_elem_of_here.
Defined.

Definition kept_block : Block := mkBlock (bn_header (top_header chain2)) [toy_reward; toy_payment].

Lemma kept_plan_ok : Forall (plan_ok toy_outputs_db (block_state kept_block)) toy_plan.
Proof.
  pose proof toy_plan_ok as Hp. inversion Hp as [|? ? (_ & Hp1) Hp']. inversion Hp' as [|? ? (_ & Hp2) _].
  constructor; [|constructor; [|constructor]].
  - split; [constructor|exact Hp1].
  - split; [constructor; [vm_compute; reflexivity|constructor]|exact Hp2].
Qed.

Lemma NoDup_bool {A} `{EqDecision A} (l : list A) : bool_decide (NoDup l) = true → NoDup l.
Proof. apply bool_decide_eq_true. Qed.

Definition kept_analyses : list SerializedTx := map (planned (block_header kept_block)) toy_plan.

Lemma kept_batch_ok : batch_ok [bh_hash (block_header kept_block)] [kept_analyses].
Proof.
  constructor.
  - constructor; [reflexivity|by repeat constructor| |vm_compute; split_and!; discriminate].
    change (concat [kept_analyses]) with kept_analyses. apply Forall_map.
    pose proof kept_plan_ok as Hp. inversion Hp as [|? ? (_ & Hp1 & _) Hp']. inversion Hp' as [|? ? (_ & Hp2 & _) _].
    constructor; [|constructor; [|constructor]].
    + apply planned_stored; [exact Hp1|vm_compute; discriminate].
    + apply planned_stored; [exact Hp2|vm_compute; discriminate].
  - discriminate.
  - apply NoDup_singleton.
  - apply NoDup_bool. vm_compute. reflexivity.
  - apply NoDup_bool. vm_compute. reflexivity.
Qed.

Lemma block_applied_witness :
  ∃ d' s', handle_new_block toy_outputs_db state2 10 4096 kept_block [(2, bh_hash (block_header kept_block), Append)]
      = Finished (Ok (d', s', [], Some (bh_hash (block_header kept_block)))) ∧
    get_block_tx_entries d' (bh_hash (block_header kept_block)) = Ok (map tx_entry kept_analyses).
Proof.
  destruct chain2_small as [Hf Hs].
  destruct (block_applied toy_outputs_db state2 10 4096 kept_block 2 Append [] toy_plan (bstr "/toy/"))
    as (d' & s' & Hb & Hq & _).
  - left. vm_compute. reflexivity.
  - reflexivity.
  - exact kept_plan_ok.
  - constructor; [intros Hc; vm_compute in Hc; discriminate|constructor; [intros _; vm_compute; reflexivity|constructor]].
  - vm_compute. reflexivity.
  - reflexivity.
  - vm_compute. discriminate.
  - vm_compute. discriminate.
  - split; [discriminate|reflexivity].
  - vm_compute. discriminate.
  - constructor; [vm_compute; reflexivity|constructor].
  - exact kept_batch_ok.
  - exact chain2_wf.
  - exact Hs.
  - exact Hf.
  - exists (top_header chain2). vm_compute. reflexivity.
  - exists d', s'. exact (conj Hb Hq).
Defined.

Lemma keepup_drops_block_witness :
  handle_new_block toy_databases state2 10 4096 toy_block [(2, bh_hash toy_header, Append)]
  = Finished (Ok (toy_databases, state2, [], Some (bh_hash toy_header))).
Proof.
  eapply (keepup_drops_block toy_databases state2 10 4096 toy_block 2 Append [] [inr (to_le 32 77, 3)] (to_le 32 77, 3)).
  - left. vm_compute. reflexivity.
  - vm_compute. reflexivity.
  - left.
  - vm_compute. reflexivity.
Defined.
