(* ===== verification/Download.v ===== *)
(** [src/chainman/blocksync.rs]: the workers of the block download, each with a peer of its own, together
    with the master of [Schedule.v] that they ask for jobs. *)
From S2P Require Import Prelude.
From S2P Require Import Extern.
From S2P Require Import Buffer.
From S2P Require Import Arena.
From S2P Require Import Wire.
From S2P Require Import Header.
From S2P Require Import Merkle.
From S2P Require Import Tx.
From S2P Require Import Block.
From S2P Require Import Messages.
From S2P Require Import Payload.
From S2P Require Import Loops.
From S2P Require Import Chain.
From S2P Require Import Float.
From S2P Require Import Clock.
From S2P Require Import Schedule.
From S2P Require Import Keepup.

(** A block with the length of the buffer that its packet is in *)
Record BlockPayload := mkBlockPayload {
  pl_block : Block;
  pl_len : Z;
}.

Definition payload_hash (p : BlockPayload) : hash := bh_hash (block_header (pl_block p)).

(** * A worker *)

(** What a worker is about to do: to ask for its first job; to find a peer and ask it for the block of
    the job; to read the next packet of its peer. A worker that returned or panicked is gone. *)
Inductive Worker :=
| Starting
| Connecting (job : BlockHashWithNumber)
| Reading (job : BlockHashWithNumber)
| Gone.

(** [fetch_job], and the answer to a result: without a job the worker returns. *)
Definition with_job (job : option BlockHashWithNumber) (f : BlockHashWithNumber → Worker) : Worker :=
  match job with Some job => f job | None => Gone end.

Definition job_to_getdata (h : hash) : PayloadToSend :=
  SendGetData (mkGetData [mkInventoryVector WitnessBlock h]).

(** What is sent to the peer when a job is taken up *)
Definition job_packet (w : Worker) : option PayloadToSend :=
  match w with Connecting (h, _) | Reading (h, _) => Some (job_to_getdata h) | _ => None end.

Section worker.
Context `{Sha256, U256Lib, Layout}.

Definition should_send (job : BlockHashWithNumber) (payload : option ReceivedPayload) : outcome bool :=
  match payload with
  | Some (RecvBlock b) =>
      let '(job, job_number) := job in
      match (if SEGWIT_HEIGHT <=? job_number then verify_witness_commitment b else Ok tt) with
      | Ok _ => Ok (bool_decide (bh_hash (block_header b) = job))
      | Err _ => Ok false
      | Panic m => Panic m
      | Ub => Ub
      end
  | _ => Ok false
  end.

(** * The master with its workers *)

Record Download := mkDownload {
  dl_master : @MasterState BlockPayload;
  dl_flush : list (BlockPayload * Z);
  dl_workers : list Worker;
  dl_ended : bool;
}.

Definition set_worker (w : Download) (i : nat) (x : Worker) : Download :=
  mkDownload (dl_master w) (dl_flush w) (<[i := x]> (dl_workers w)) (dl_ended w).

(** What may happen next. [Asks]: a worker asks for its first job. [Connects]: it got a connection, and wrote
    the packet or failed to. [Receives]: a packet came, with the length of its buffer; if it is the
    block of the job, the worker hands it over and writes the packet of the next job, or fails to.
    [Fails]: the read failed, or the deadline passed. [Ticks]: the ticker of the master. [Ends]: the master sees
    that all workers are gone. *)
Inductive event :=
| Asks (i : nat) (r : Readings)
| Connects (i : nat) (written : bool)
| Receives (i : nat) (payload : option ReceivedPayload) (buffer_len : Z) (r : Readings) (written : bool)
| Fails (i : nat)
| Ticks (last_in current_in elapsed_micros : Z)
| Ends.

(** What was sent to the writer tells whether it takes the next block: once it is gone it takes none. *)
Context (max_workers : Z) (accepts : list (BlockPayload * Z) → bool).

Definition not_now : outcome Download := Err "not now".

(** A worker sends a message, and the master handles it: the answer, with the state of the worker then. *)
Definition ask_master (w : Download) (i : nat) (message : @DownloadWorkerMessage BlockPayload) (r : Readings)
    (f : BlockHashWithNumber → Worker) : outcome Download :=
  '(job, s, flush) ← handle_worker_message pl_len accepts message (dl_master w) r (dl_flush w);
  Ok (set_worker (mkDownload s flush (dl_workers w) (dl_ended w)) i (with_job job f)).

(** The workers of the master after a tick: the new one is to start, the last one is ended. *)
Definition resize (workers : list Worker) (count : Z) : list Worker :=
  take (Z.to_nat count) (workers ++ [Starting]).

(** [Err] if it is not the time for the event; a panic is one of the master. A panic of a worker ends that
    worker only. *)
Definition happen (w : Download) (e : event) : outcome Download :=
  if dl_ended w then not_now
  else
    match e with
    | Asks i r =>
        match dl_workers w !! i with
        | Some Starting => ask_master w i PullFirstJob r Connecting
        | _ => not_now
        end
    | Connects i written =>
        match dl_workers w !! i with
        | Some (Connecting job) => Ok (if (written : bool) then set_worker w i (Reading job) else w)
        | _ => not_now
        end
    | Receives i payload buffer_len r written =>
        match dl_workers w !! i with
        | Some (Reading job) =>
            match should_send job payload, payload with
            | Ok true, Some (RecvBlock b) =>
                ask_master w i (PushResultAndGetNewJob (mkBlockPayload b buffer_len) job.2) r
                  (if (written : bool) then Reading else Connecting)
            | Ok _, _ => Ok w
            | Ub, _ => Ub
            | _, _ => Ok (set_worker w i Gone)
            end
        | _ => not_now
        end
    | Fails i =>
        match dl_workers w !! i with
        | Some (Reading job) => Ok (set_worker w i (Connecting job))
        | _ => not_now
        end
    | Ticks last_in current_in elapsed_micros =>
        '(count, s) ← update_workers max_workers (len (dl_workers w)) last_in current_in elapsed_micros (dl_master w);
        Ok (mkDownload s (dl_flush w) (resize (dl_workers w) count) false)
    | Ends =>
        if forallb (λ x, match x with Gone => true | _ => false end) (dl_workers w)
        then Ok (mkDownload (dl_master w) (dl_flush w) (dl_workers w) true) else not_now
    end.

Definition run_master (missing_blocks : list hash) (first_missing_number : Z) : Download :=
  mkDownload (MasterState_new missing_blocks first_missing_number) []
    (replicate (Z.to_nat INITIAL_WORKER_COUNT) Starting) false.

Definition run (w : Download) (events : list event) : outcome Download := for_each happen events w.
End worker.

(** * The check of a block *)

Lemma bind_no_ub {A B} (m : outcome A) (f : A → outcome B) : m ≠ Ub → (∀ a, m = Ok a → f a ≠ Ub) → m ≫= f ≠ Ub.
Proof. destruct m; cbn; [|done..]. intros _ Hf. by apply Hf. Qed.

Lemma slice_idx_no_ub b i j : slice_idx b i j ≠ Ub.
Proof. unfold slice_idx. by destruct (slice_get b i j). Qed.

Section checks.
Context `{Sha256, U256Lib, Layout}.

(** A block as it comes out of a packet: hashes of 32 bytes, and not too many of them *)
Definition receivable (b : Block) : Prop :=
  Forall (λ t, hash_ok (witness_hash t)) (block_txs b) ∧ 64 * (1 + len (block_txs b)) <= 2 ^ 61.

Lemma verify_no_ub b : receivable b → verify_witness_commitment b ≠ Ub.
Proof.
  intros [Hh Hs]. unfold verify_witness_commitment. destruct (block_txs b) as [|coinbase txs] eqn:Hb; [done|].
  cbn [lookup list_lookup expect mbind outcome_bind]. rewrite find_commitment_spec. cbn [mbind outcome_bind].
  destruct (List.find commits _) as [o|]; [|done]. unfold verify_commitment.
  destruct (witness_data coinbase) as [[|v vs]|]; [done| |done]. cbn [lookup list_lookup expect mbind outcome_bind].
  apply bind_no_ub.
  { destruct (len v =? 34); [|done]. apply bind_no_ub; [apply slice_idx_no_ub|done]. }
  intros ok _. destruct (negb ok); [done|]. apply bind_no_ub; [unfold get_hash; by destruct (slice_get _ _ _)|]. intros h _.
  apply bind_no_ub; [apply slice_idx_no_ub|]. intros r _. apply Forall_cons in Hh as [_ Hh]. cbn [tail].
  assert (len (EMPTY_HASH :: map witness_hash txs) = len (coinbase :: txs)) as Hl by (rewrite !len_cons; unfold len; by rewrite length_map).
  rewrite tree_root_spec.
  - cbn [mbind outcome_bind]. destruct (merkle_root _) as [root []]; [done|]. by case_bool_decide.
  - pose proof (len_nonneg (coinbase :: txs)). lia.
  - constructor; [done|]. apply Forall_map. exact Hh.
  - rewrite Hl. lia.
Qed.

(** Without transactions there is no coinbase to look at. *)
Lemma verify_empty b : block_txs b = [] → ∃ m, verify_witness_commitment b = Panic m.
Proof. intros Hb. unfold verify_witness_commitment. rewrite Hb. by eexists. Qed.
End checks.

(** * What the master passes on *)

Section passed_on.
Context (accepts : list (BlockPayload * Z) → bool) (Haccepts : ∀ flush, accepts flush = true).

Lemma apply_from_backlog_elems fuel first : ∀ b n (flush : list (BlockPayload * Z)) b' n' flush',
  apply_from_backlog accepts fuel b first n flush = Some (b', n', flush') → ∀ x, x ∈ flush' ++ b' → x ∈ flush ++ b.
Proof.
  induction fuel as [|fuel IH]; intros b n flush b' n' flush' Ha x Hx; [done|]. cbn [apply_from_backlog] in Ha.
  destruct (last b) as [popped|] eqn:Hlast; [|by simplify_eq]. destruct (_ =? _); [|by simplify_eq].
  unfold flush_send in Ha. rewrite Haccepts in Ha. apply last_Some in Hlast as [l ->]. rewrite removelast_last in Ha.
  specialize (IH _ _ _ _ _ _ Ha x Hx). rewrite !elem_of_app in *. tauto.
Qed.

Lemma handle_result_elems s payload number r flush s' flush' b :
  handle_result pl_len accepts s payload number r flush = Ok (s', flush', b) →
  ∀ x, x ∈ flush' ++ backlog s' → x ∈ flush ++ backlog s ∨ x = (payload, number).
Proof.
  unfold handle_result. cbn [backlog first_missing_number next_to_apply set_statistics]. intros Hr x Hx.
  destruct (_ <? number).
  { obind Hr. injection Hr as <- <- <-. cbn [backlog set_requests] in Hx. apply elem_of_app in Hx as [Hx|Hx]; [left; apply elem_of_app; by left|].
    destruct (binary_search_by _ _) as [i|i]; cbn [backlog set_backlog] in Hx; [left; apply elem_of_app; by right|].
    rewrite vec_insert_perm in Hx. apply elem_of_cons in Hx as [->|Hx]; [by right|left; apply elem_of_app; by right]. }
  destruct (number <? _); [injection Hr as <- <- <-; by left|].
  obind Hr. unfold flush_send in Hr. rewrite Haccepts in Hr. obind Hr. destruct v0 as [[rest next] flush1]. obind Hr. injection Hr as <- <- <-.
  destruct (apply_from_backlog _ _ _ _ _ _) as [[[b1 n1] f1]|] eqn:Ha; [|done]. injection Hv0 as -> -> ->.
  pose proof (apply_from_backlog_elems _ _ _ _ _ _ _ _ Ha x Hx) as Hin. rewrite !elem_of_app, list_elem_of_singleton in Hin.
  rewrite elem_of_app. cbn [backlog set_backlog set_tracker] in Hin. tauto.
Qed.

Lemma handled_elems s message r flush job s' flush' :
  handle_worker_message pl_len accepts message s r flush = Ok (job, s', flush') →
  ∀ x, x ∈ flush' ++ backlog s' → x ∈ flush ++ backlog s ∨ ∃ p n, message = PushResultAndGetNewJob p n ∧ x = (p, n).
Proof.
  intros Hh x Hx. destruct message as [|p n]; cbn [handle_worker_message] in Hh; unfold look_for_job in Hh.
  - obind Hh. destruct v as [job1 s1]. injection Hh as <- <- <-. obind Hv. destruct v as [[j nn] ts]. injection Hv as <- <-. by left.
  - obind Hh. destruct v as [[s1 f1] b]. destruct (negb b).
    + injection Hh as <- <- <-. destruct (handle_result_elems _ _ _ _ _ _ _ _ Hv x Hx) as [?| ->]; [by left|right; eauto].
    + obind Hh. destruct v as [job1 s2]. injection Hh as <- <- <-. obind Hv0. destruct v as [[j nn] ts]. injection Hv0 as <- <-.
      destruct (handle_result_elems _ _ _ _ _ _ _ _ Hv x Hx) as [?| ->]; [by left|right; eauto].
Qed.

End passed_on.

(** * What holds whatever happens, with a writer that takes every block *)

Section download.
Context `{Sha256, U256Lib, Layout} (max_workers : Z) (missing : list hash) (first : Z).
Context (accepts : list (BlockPayload * Z) → bool) (Haccepts : ∀ flush, accepts flush = true).
Hypothesis first_range : 0 <= first ∧ first + len missing < 2 ^ 63.

Definition worker_ok (s : @MasterState BlockPayload) (x : Worker) : Prop :=
  match x with Connecting job | Reading job => job_given missing first s job | _ => True end.

Definition checked (x : BlockPayload * Z) : Prop :=
  SEGWIT_HEIGHT <= x.2 → verify_witness_commitment (pl_block x.1) = Ok tt.

Record download_inv (w : Download) : Prop := {
  di_master : master_inv payload_hash missing first (dl_master w) (dl_flush w);
  di_jobs : Forall (worker_ok (dl_master w)) (dl_workers w);
  di_checked : ∀ x, x ∈ dl_flush w ++ backlog (dl_master w) → checked x;
  di_some : dl_workers w ≠ [];
}.

(** As long as blocks are missing, no worker is gone. *)
Definition all_there (w : Download) : Prop :=
  next_to_apply (dl_master w) < len missing → Forall (λ x, x ≠ Gone) (dl_workers w).

(** The clock does not read zero, and blocks are such as packets hold. *)
Definition possible (e : event) : Prop :=
  match e with
  | Asks _ r => readings_ok r
  | Receives _ payload _ r _ => readings_ok r ∧ match payload with Some (RecvBlock b) => receivable b | _ => True end
  | _ => True
  end.

(** No check of a block panics. *)
Definition harmless (e : event) : Prop :=
  match e with
  | Receives _ (Some (RecvBlock b)) _ _ _ => ∀ m, verify_witness_commitment b ≠ Panic m
  | _ => True
  end.

Lemma should_send_block job b :
  should_send job (Some (RecvBlock b)) = Ok true →
  bh_hash (block_header b) = job.1 ∧ (SEGWIT_HEIGHT <= job.2 → verify_witness_commitment b = Ok tt).
Proof.
  unfold should_send. destruct job as [h n]. cbn [fst snd]. destruct (Z.leb_spec SEGWIT_HEIGHT n) as [Hn|Hn].
  - destruct (verify_witness_commitment b) as [[]| | |]; [|done..]. intros [= Hb%bool_decide_eq_true]. done.
  - intros [= Hb%bool_decide_eq_true]. split; [done|lia].
Qed.

Lemma worker_ok_mono s s' x :
  next_never_asked_for s <= next_never_asked_for s' → worker_ok s x → worker_ok s' x.
Proof. intros Hn. destruct x; cbn; [done| | |done]; intros [? ?]; (split; [done|lia]). Qed.

(** A message of a worker: the master has an answer, and all stays well. *)
Lemma ask_master_inv w i message r f :
  download_inv w → readings_ok r → answers_job payload_hash missing first (dl_master w) message →
  (∀ p n, message = PushResultAndGetNewJob p n → checked (p, n)) →
  (∀ job, f job = Connecting job) ∨ (∀ job, f job = Reading job) →
  ∃ w', ask_master accepts w i message r f = Ok w' ∧ download_inv w' ∧ dl_ended w' = dl_ended w ∧ (all_there w → all_there w').
Proof.
  intros Hi Hr Hans Hc Hf. unfold ask_master.
  destruct (handle_message_spec pl_len payload_hash missing first first_range accepts Haccepts
    (dl_master w) (dl_flush w) message r) as (job & s' & flush' & Hh & Hinv & Hjob & Hn & Ha & _); [apply Hi|done|done|].
  rewrite Hh. cbn [mbind outcome_bind]. eexists. split; [reflexivity|].
  assert (Forall (worker_ok s') (dl_workers w)) as Hold.
  { eapply Forall_impl; [apply (di_jobs _ Hi)|]. intros x. by apply worker_ok_mono. }
  assert (worker_ok s' (with_job job f)) as Hnew.
  { destruct job as [job|]; [|done]. pose proof (given_new payload_hash missing first s' flush' (Some job) Hinv Hjob) as Hg.
    cbn [option_list] in Hg. apply Forall_cons in Hg as [Hg _]. cbn [with_job]. destruct Hf as [-> | ->]; exact Hg. }
  split_and!.
  - constructor; cbn [dl_master dl_flush dl_workers set_worker].
    + done.
    + apply Forall_insert; done.
    + intros x Hx. destruct (handled_elems accepts Haccepts _ _ _ _ _ _ _ Hh x Hx) as [Hx'|(p & n & Hm & ->)]; [by apply (di_checked _ Hi)|by apply Hc].
    + pose proof (di_some _ Hi) as Hne. intros Hnil. apply Hne, length_zero_iff_nil. rewrite <- (length_insert (dl_workers w) i (with_job job f)).
      by rewrite Hnil.
  - done.
  - unfold all_there. cbn [dl_master dl_workers set_worker]. intros Hthere Hlt. apply Forall_insert; [apply Hthere; lia|].
    destruct job as [job|]; [destruct Hf as [Hf|Hf]; cbn [with_job]; by rewrite Hf|]. cbn in Hjob. lia.
Qed.

(** A tick changes the number of workers by one at most, and leaves one. *)
Lemma update_workers_spec s flush n a b t :
  master_inv payload_hash missing first s flush →
  ∃ count s', update_workers max_workers n a b t s = Ok (count, s') ∧ master_inv payload_hash missing first s' flush ∧
    next_to_apply s' = next_to_apply s ∧ next_never_asked_for s' = next_never_asked_for s ∧ backlog s' = backlog s ∧
    (count = n + 1 ∨ count = n ∨ 1 < n ∧ count = n - 1).
Proof.
  intros []. unfold update_workers, tt_reset. rewrite mi_idle. cbn [negb Z.eqb mbind outcome_bind].
  eexists _, _. split; [reflexivity|]. split_and!; [by constructor|done..|].
  destruct (_ && (n <? max_workers)); [by left|]. destruct (_ && (1 <? n)) eqn:E; [|by right; left].
  apply andb_true_iff in E as [_ E]. right. right. lia.
Qed.

Lemma resize_elem workers count x : x ∈ resize workers count → x ∈ workers ∨ x = Starting.
Proof.
  unfold resize. intros Hx. apply (subseteq_take (Z.to_nat count)) in Hx.
  apply elem_of_app in Hx as [Hx|Hx]; [by left|right; by apply list_elem_of_singleton].
Qed.

Lemma resize_nonempty workers count : 1 <= count → resize workers count ≠ [].
Proof.
  intros Hc. unfold resize. destruct (Z.to_nat count) eqn:E; [lia|]. by destruct workers.
Qed.

(** What holds after every event; the master itself never panics. *)
Definition after (w : Download) (e : event) (w' : Download) : Prop :=
  download_inv w' ∧ (harmless e → all_there w → all_there w') ∧
  (dl_ended w' = true → Forall (λ x, x = Gone) (dl_workers w')).

Lemma after_asked w e i message r f :
  download_inv w → dl_ended w = false → readings_ok r → answers_job payload_hash missing first (dl_master w) message →
  (∀ p n, message = PushResultAndGetNewJob p n → checked (p, n)) →
  (∀ job, f job = Connecting job) ∨ (∀ job, f job = Reading job) →
  ∃ w', ask_master accepts w i message r f = Ok w' ∧ after w e w'.
Proof.
  intros Hi He Hr Hans Hc Hf. destruct (ask_master_inv w i message r f Hi Hr Hans Hc Hf) as (w' & -> & Hi' & Hend & Hall).
  exists w'. split; [done|]. split_and!; [done|auto|]. by rewrite Hend, He.
Qed.

(** A worker goes on without the master. *)
Lemma after_moved w e i x :
  download_inv w → dl_ended w = false → worker_ok (dl_master w) x → (harmless e → x ≠ Gone) → after w e (set_worker w i x).
Proof.
  intros [Hm Hj Hc Hs] He Hx Hne. split_and!.
  - constructor; cbn [set_worker dl_master dl_flush dl_workers]; [done| |done|].
    + by apply Forall_insert.
    + intros Hnil. apply Hs, length_zero_iff_nil. rewrite <- (length_insert (dl_workers w) i x). by rewrite Hnil.
  - intros Hh Hall Hlt. cbn [set_worker dl_workers]. apply Forall_insert; [by apply Hall|by apply Hne].
  - cbn [set_worker dl_ended]. by rewrite He.
Qed.

Lemma after_same w e : download_inv w → dl_ended w = false → after w e w.
Proof. intros Hi He. split_and!; [done|auto|by rewrite He]. Qed.

Lemma should_send_panics job b :
  receivable b → match should_send job (Some (RecvBlock b)) with
                 | Panic m => verify_witness_commitment b = Panic m
                 | Ub | Err _ => False
                 | Ok _ => True
                 end.
Proof.
  intros Hb. unfold should_send. destruct job as [h n]. pose proof (verify_no_ub b Hb).
  destruct (SEGWIT_HEIGHT <=? n); [|done]. by destruct (verify_witness_commitment b).
Qed.


Lemma worker_at w i x : download_inv w → dl_workers w !! i = Some x → worker_ok (dl_master w) x.
Proof. intros Hi Hx. apply (Forall_lookup_1 _ _ _ _ (di_jobs _ Hi) Hx). Qed.

Lemma received_inv w i job payload buffer_len r written :
  download_inv w → dl_ended w = false → possible (Receives i payload buffer_len r written) →
  dl_workers w !! i = Some (Reading job) →
  match happen max_workers accepts w (Receives i payload buffer_len r written) with
  | Ok w' => after w (Receives i payload buffer_len r written) w'
  | Err _ => True
  | _ => False
  end.
Proof.
  intros Hi He [Hr Hp] Hw. unfold happen. rewrite He, Hw.
  assert (∀ b : bool, match (if b then Ok w else Ok w) with Ok w' => after w (Receives i payload buffer_len r written) w'
    | Err _ => True | _ => False end) as Hsame by (intros []; by apply after_same).
  destruct payload as [[]|]; try exact (Hsame true).
  pose proof (should_send_panics job b Hp) as Hs. destruct (should_send _ _) as [[]|e|m|] eqn:Hss; [|by apply (Hsame true)|done| |done].
  - destruct (should_send_block _ _ Hss) as [Hh Hc]. destruct (worker_at w i _ Hi Hw) as [Hright Hn].
    destruct (after_asked w (Receives i (Some (RecvBlock b)) buffer_len r written) i
      (PushResultAndGetNewJob (mkBlockPayload b buffer_len) job.2) r (if written then Reading else Connecting)) as (w' & -> & Ha);
      [done|done|done| | | |done].
    + cbn [answers_job]. unfold payload_hash. cbn [pl_block]. rewrite Hh. destruct job as [h n]. done.
    + intros p n [= <- <-]. exact Hc.
    + destruct written; auto.
  - apply after_moved; [done|done|done|]. cbn [harmless]. intros Hh. by destruct (Hh m).
Qed.

Lemma download_happens w e :
  download_inv w → possible e →
  match happen max_workers accepts w e with
  | Ok w' => after w e w'
  | Err _ => True
  | _ => False
  end.
Proof.
  intros Hi Hp. destruct (dl_ended w) eqn:He; [unfold happen; by rewrite He|].
  destruct e as [i r|i written|i payload n r written|i|a b t|].
  - unfold happen. rewrite He. destruct (dl_workers w !! i) as [[]|] eqn:Hw; [|done..].
    destruct (after_asked w (Asks i r) i PullFirstJob r Connecting) as (w' & -> & Ha); auto; done.
  - unfold happen. rewrite He. destruct (dl_workers w !! i) as [[]|] eqn:Hw; try done.
    destruct written; [|by apply after_same]. apply after_moved; [done..|by apply (worker_at w i _ Hi Hw)|done].
  - destruct (dl_workers w !! i) as [[| |job|]|] eqn:Hw; try (unfold happen; by rewrite He, Hw). by apply (received_inv w i job).
  - unfold happen. rewrite He. destruct (dl_workers w !! i) as [[]|] eqn:Hw; try done.
    apply after_moved; [done..|by apply (worker_at w i _ Hi Hw)|done].
  - unfold happen. rewrite He. pose proof Hi as [Hm Hj Hc Hs].
    destruct (update_workers_spec (dl_master w) (dl_flush w) (len (dl_workers w)) a b t Hm) as (count & s' & -> & Hm' & Hna & Hnn & Hb & Hcount).
    cbn [mbind outcome_bind]. assert (1 <= len (dl_workers w)) as Hlen.
    { unfold len. destruct (dl_workers w); [done|cbn; lia]. }
    split_and!; cbn [dl_master dl_flush dl_workers dl_ended]; [|unfold all_there; cbn [dl_master dl_workers]|done].
    + constructor; cbn [dl_master dl_flush dl_workers]; [done| |by rewrite Hb|apply resize_nonempty; lia].
      apply Forall_forall. intros x [Hx| ->]%resize_elem; [|done].
      rewrite Forall_forall in Hj. apply (worker_ok_mono (dl_master w)); [lia|auto].
    + intros _ Hall Hlt. rewrite Hna in Hlt. specialize (Hall Hlt). rewrite Forall_forall in *.
      intros x [Hx| ->]%resize_elem; [by apply Hall|done].
  - unfold happen. rewrite He. destruct (forallb _ _) eqn:Hg; [|done]. pose proof Hi as [Hm Hj Hc Hs]. split_and!; [by constructor|done|].
    cbn [dl_workers]. intros _. apply Forall_forall. intros x Hx. rewrite forallb_forall in Hg.
    apply list_elem_of_In, Hg in Hx. by destruct x.
Qed.

Lemma download_runs events : ∀ w, download_inv w → (dl_ended w = true → Forall (λ x, x = Gone) (dl_workers w)) → Forall possible events →
  match run max_workers accepts w events with
  | Ok w' => download_inv w' ∧ (Forall harmless events → all_there w → all_there w') ∧
      (dl_ended w' = true → Forall (λ x, x = Gone) (dl_workers w'))
  | Err _ => True
  | _ => False
  end.
Proof.
  induction events as [|e events IH]; intros w Hi He Hp; [done|]. apply Forall_cons in Hp as [Hp Hps].
  unfold run. cbn [for_each]. pose proof (download_happens w e Hi Hp) as Ha. destruct (happen max_workers accepts w e) as [w1| | |]; [|done..].
  destruct Ha as (Hi1 & Hall1 & He1). cbn [mbind outcome_bind]. specialize (IH w1 Hi1 He1 Hps). unfold run in IH.
  destruct (for_each _ events w1) as [w'| | |]; [|done..]. destruct IH as (Hi' & Hall' & He'). split_and!; [done| |done].
  intros [Hh Hhs]%Forall_cons Ht. auto.
Qed.

Lemma download_starts : download_inv (run_master missing first) ∧ all_there (run_master missing first).
Proof.
  split.
  - constructor; cbn [run_master dl_master dl_flush dl_workers]; [apply master_inv_new; apply first_range| | |done].
    + by apply Forall_replicate.
    + intros x Hx. by apply not_elem_of_nil in Hx.
  - intros _. by apply Forall_replicate.
Qed.


(** ** Workers that end, one after the other *)

Definition some_readings : Readings := mkReadings 1 2 3.

Lemma some_readings_ok : readings_ok some_readings.
Proof. done. Qed.

Lemma downloads_app w w1 e1 e2 : run max_workers accepts w e1 = Ok w1 → run max_workers accepts w (e1 ++ e2) = run max_workers accepts w1 e2.
Proof. unfold run. intros Hr. by rewrite for_each_app, Hr. Qed.

Section dying.
(** The events that are used, and a condition on the progress under which a packet ends a worker *)
Context (good : event → Prop) (progress : Z → list (BlockPayload * Z) → Prop).

Definition there (w : Download) : Prop :=
  download_inv w ∧ dl_ended w = false ∧ progress (next_to_apply (dl_master w)) (dl_flush w).

(** The same workers but for one, which is gone *)
Definition lost (i : nat) (w w' : Download) : Prop := dl_workers w' = <[i := Gone]> (dl_workers w) ∧ there w'.

Context (good_asks : ∀ i, good (Asks i some_readings)) (good_connects : ∀ i, good (Connects i true)).
Context (reading_dies : ∀ w i job,
  there w → dl_workers w !! i = Some (Reading job) →
  ∃ e w', good e ∧ happen max_workers accepts w e = Ok w' ∧ lost i w w').

Lemma connecting_dies w i job :
  there w → dl_workers w !! i = Some (Connecting job) →
  ∃ events w', Forall good events ∧ run max_workers accepts w events = Ok w' ∧ lost i w w'.
Proof.
  intros (Hi & He & Hp) Hw. pose proof (download_happens w (Connects i true) Hi I) as Ha.
  assert (happen max_workers accepts w (Connects i true) = Ok (set_worker w i (Reading job))) as Hc by (unfold happen; by rewrite He, Hw).
  rewrite Hc in Ha. destruct Ha as (Hi1 & _ & _).
  destruct (reading_dies (set_worker w i (Reading job)) i job) as (e & w' & Hg & Hr & Hlw & Ht); [done| |].
  { cbn [set_worker dl_workers]. apply list_lookup_insert_eq. by eapply lookup_lt_Some. }
  exists [Connects i true; e], w'. split_and!.
  - by repeat constructor.
  - unfold run. cbn [for_each]. rewrite Hc. cbn [mbind outcome_bind]. by rewrite Hr.
  - split; [|done]. rewrite Hlw. cbn [set_worker dl_workers]. apply list_insert_insert_eq.
Qed.

(** The first job changes nothing of the progress. *)
Lemma asking w i :
  there w → dl_workers w !! i = Some Starting →
  ∃ job w', happen max_workers accepts w (Asks i some_readings) = Ok w' ∧ there w' ∧
    dl_workers w' = <[i := with_job job Connecting]> (dl_workers w).
Proof.
  intros (Hi & He & Hp) Hw.
  destruct (ask_master_inv w i PullFirstJob some_readings Connecting Hi some_readings_ok I) as (w1 & Hask & Hi1 & He1 & _); [done|by left|].
  assert (happen max_workers accepts w (Asks i some_readings) = Ok w1) as Hh by (unfold happen; by rewrite He, Hw).
  unfold ask_master in Hask. cbn [handle_worker_message] in Hask. obind Hask. destruct v as [[job s] flush].
  obind Hv. destruct v as [job1 s1]. injection Hv as <- <- <-. injection Hask as Hw1.
  assert (next_to_apply s1 = next_to_apply (dl_master w)) as Hnext.
  { unfold look_for_job in Hv0. obind Hv0. destruct v as [[? ?] ?]. by injection Hv0 as <- <-. }
  exists job1, w1. split_and!; [done| |by rewrite <- Hw1]. split_and!; [done|by rewrite He1|]. rewrite <- Hw1.
  cbn [set_worker dl_master dl_flush]. by rewrite Hnext.
Qed.

Lemma worker_dies w i :
  there w → (i < length (dl_workers w))%nat →
  ∃ events w', Forall good events ∧ run max_workers accepts w events = Ok w' ∧ lost i w w'.
Proof.
  intros Ht Hlt. destruct (lookup_lt_is_Some_2 (dl_workers w) i Hlt) as [[|job|job|] Hw].
  - destruct (asking w i Ht Hw) as (job & w1 & Hh & Ht1 & Hw1). destruct job as [job|].
    + destruct (connecting_dies w1 i job Ht1) as (es & w' & Hes & Hrun & Hlw & Ht').
      { rewrite Hw1. by apply list_lookup_insert_eq. }
      exists (Asks i some_readings :: es), w'. split_and!; [by constructor|by unfold run; cbn [for_each]; rewrite Hh|].
      split; [|done]. rewrite Hlw, Hw1. apply list_insert_insert_eq.
    + exists [Asks i some_readings], w1. split_and!; [by repeat constructor|by unfold run; cbn [for_each]; rewrite Hh|done..].
  - by apply (connecting_dies w i job).
  - destruct (reading_dies w i job Ht Hw) as (e & w' & Hg & Hr & Hl).
    exists [e], w'. split_and!; [by repeat constructor| |done]. unfold run. cbn [for_each]. by rewrite Hr.
  - exists [], w. split_and!; [done..|]. split; [by rewrite list_insert_id|done].
Qed.

Lemma workers_die k : ∀ w, there w → (k <= length (dl_workers w))%nat →
  ∃ events w', Forall good events ∧ run max_workers accepts w events = Ok w' ∧
    dl_workers w' = replicate k Gone ++ drop k (dl_workers w) ∧ there w'.
Proof.
  induction k as [|k IH]; intros w Ht Hk; [by exists [], w|].
  destruct (IH w Ht ltac:(lia)) as (es & w1 & Hes & Hrun & Hw1 & Ht1).
  destruct (worker_dies w1 k Ht1) as (es' & w' & Hes' & Hrun' & Hlw & Ht').
  { rewrite Hw1, length_app, length_replicate, length_drop. lia. }
  exists (es ++ es'), w'. split_and!; [by apply Forall_app|by rewrite (downloads_app w w1)| |done].
  rewrite Hlw, Hw1. destruct (lookup_lt_is_Some_2 (dl_workers w) k) as [x Hx]; [lia|].
  rewrite (drop_S _ _ _ Hx), insert_app_r_alt by (rewrite length_replicate; lia). rewrite length_replicate, Nat.sub_diag.
  cbn [list_insert insert]. change (S k) with (1 + k)%nat. rewrite Nat.add_comm, replicate_add. by rewrite <- app_assoc.
Qed.

Lemma all_die w : good Ends → there w →
  ∃ events w', Forall good events ∧ run max_workers accepts w events = Ok w' ∧ dl_ended w' = true ∧ download_inv w' ∧
    progress (next_to_apply (dl_master w')) (dl_flush w').
Proof.
  intros Hends Ht. destruct (workers_die (length (dl_workers w)) w Ht) as (es & w1 & Hes & Hrun & Hw1 & Hi1 & He1 & Hp1); [lia|].
  rewrite drop_all, app_nil_r in Hw1. exists (es ++ [Ends]), (mkDownload (dl_master w1) (dl_flush w1) (dl_workers w1) true).
  split_and!; [by apply Forall_app; split; [|constructor]| |done| |done].
  - rewrite (downloads_app w w1) by done. unfold run. cbn [for_each]. unfold happen. rewrite He1, Hw1. cbn [mbind outcome_bind].
    assert (forallb (λ x, match x with Gone => true | _ => false end) (replicate (length (dl_workers w)) Gone) = true) as ->; [|done].
    apply forallb_forall. intros x Hx. apply list_elem_of_In, elem_of_replicate in Hx as [-> _]. done.
  - destruct Hi1. by constructor.
Qed.
End dying.

(** ** A peer that sends a block without transactions *)

Section empty_block.
Context (b : Block) (Hb : block_txs b = []) (Hfirst : SEGWIT_HEIGHT <= first).

(** Workers go about their work, with writes and reads that may fail, and all that comes from the peers
    is the block. No tick of the master comes between. *)
Definition just_the_block (e : event) : Prop :=
  match e with
  | Asks _ r => readings_ok r
  | Receives _ payload _ r _ => payload = Some (RecvBlock b) ∧ readings_ok r
  | Ticks _ _ _ => False
  | _ => True
  end.

(** The worker has read the block from its peer. *)
Definition met (i : nat) (e : event) : Prop :=
  match e with Receives j _ _ _ _ => j = i | _ => False end.

Lemma just_possible e : receivable b → just_the_block e → possible e.
Proof. intros Hr. destruct e; cbn; try done. by intros [-> ?]. Qed.

(** The block passes the hands of no worker. *)
Lemma met_ends_worker w i job buffer_len r written :
  download_inv w → dl_ended w = false → dl_workers w !! i = Some (Reading job) →
  happen max_workers accepts w (Receives i (Some (RecvBlock b)) buffer_len r written) = Ok (set_worker w i Gone).
Proof.
  intros Hi He Hw. destruct (worker_at w i _ Hi Hw) as [_ Hn]. destruct job as [h n]. cbn [snd] in Hn.
  destruct (verify_empty b Hb) as [m Hm]. unfold happen. rewrite He, Hw. unfold should_send.
  rewrite (proj2 (Z.leb_le _ _)) by lia. by rewrite Hm.
Qed.

(** The numbers of workers and of blocks that were passed on stay as they are, and a worker that is gone, or
    met the block, is gone from then on. *)
Definition only_losses (w : Download) (e : event → Prop) (w' : Download) : Prop :=
  dl_flush w' = dl_flush w ∧ length (dl_workers w') = length (dl_workers w) ∧
  ∀ i, (i < length (dl_workers w))%nat → dl_workers w !! i = Some Gone ∨ (∃ x, e x ∧ met i x) → dl_workers w' !! i = Some Gone.

Lemma set_worker_losses w i x y :
  dl_workers w !! i = Some x → x ≠ Gone → only_losses w (λ _, False) (set_worker w i y).
Proof.
  intros Hw Hx. split_and!; [done|apply length_insert|]. intros j Hj [Hg|(? & [] & _)]. cbn [set_worker dl_workers].
  rewrite list_lookup_insert_ne; [done|]. intros ->. congruence.
Qed.

Lemma just_the_block_happens w e w' :
  download_inv w → just_the_block e → happen max_workers accepts w e = Ok w' → only_losses w (λ x, x = e) w'.
Proof.
  intros Hi Hj Hh. assert (∀ u, (∀ i, ¬ met i e) → only_losses w (λ _, False) u → only_losses w (λ x, x = e) u) as Hother.
  { intros u Hm (? & ? & Hl). split_and!; [done..|]. intros i Hlt [Hg|(x & -> & Hx)]; [by apply Hl; [|left]|by destruct (Hm i)]. }
  assert (only_losses w (λ _, False) w) as Hsame by (split_and!; [done..|intros i _ [?|(? & [] & _)]; done]).
  destruct (dl_ended w) eqn:He; [unfold happen in Hh; by rewrite He in Hh|].
  destruct e as [i r|i written|i payload n r written|i|? ? ?|]; [| | | |done|].
  - apply Hother; [by intros ? []|]. unfold happen in Hh. rewrite He in Hh.
    destruct (dl_workers w !! i) as [[]|] eqn:Hw; [|done..]. unfold ask_master in Hh. cbn [handle_worker_message] in Hh.
    obind Hh. destruct v as [[job s] flush]. obind Hv. destruct v as [job1 s1]. injection Hv as <- <- <-. injection Hh as <-.
    destruct (set_worker_losses w i Starting (with_job job1 Connecting) Hw) as (_ & Hl & Hg); [done|]. by split_and!.
  - apply Hother; [by intros ? []|]. unfold happen in Hh. rewrite He in Hh.
    destruct (dl_workers w !! i) as [[]|] eqn:Hw; try done. destruct written; injection Hh as <-; [|done].
    by eapply set_worker_losses.
  - destruct Hj as [-> Hr]. destruct (dl_workers w !! i) as [[| |job|]|] eqn:Hw;
      try (unfold happen in Hh; by rewrite He, Hw in Hh).
    rewrite (met_ends_worker w i job) in Hh by done. injection Hh as <-.
    destruct (set_worker_losses w i _ Gone Hw) as (_ & Hl & Hg); [done|]. split_and!; [done..|]. intros j Hlt Hj.
    destruct (decide (i = j)) as [-> |Hne]; [by apply list_lookup_insert_eq|]. apply Hg; [done|].
    destruct Hj as [?|(x & -> & Hx)]; [by left|done].
  - apply Hother; [by intros ? []|]. unfold happen in Hh. rewrite He in Hh.
    destruct (dl_workers w !! i) as [[]|] eqn:Hw; try done. injection Hh as <-. by eapply set_worker_losses.
  - apply Hother; [by intros ? []|]. unfold happen in Hh. rewrite He in Hh. destruct (forallb _ _); [|done]. by injection Hh as <-.
Qed.

Lemma just_the_block_runs events : ∀ w w',
  receivable b → download_inv w → Forall just_the_block events → run max_workers accepts w events = Ok w' →
  only_losses w (λ x, x ∈ events) w' ∧ download_inv w'.
Proof.
  induction events as [|e events IH]; intros w w' Hr Hi Hj Hrun.
  - injection Hrun as <-. split; [|done]. split_and!; [done..|]. intros i _ [?|(x & ?%elem_of_nil & _)]; done.
  - apply Forall_cons in Hj as [He Hj]. unfold run in Hrun. cbn [for_each] in Hrun. obind Hrun.
    pose proof (just_the_block_happens w e v Hi He Hv) as (Hf & Hl & Hg).
    pose proof (download_happens w e Hi (just_possible e Hr He)) as Ha. rewrite Hv in Ha. destruct Ha as (Hi1 & _ & _).
    destruct (IH v w' Hr Hi1 Hj Hrun) as ((Hf' & Hl' & Hg') & Hi'). split; [|done].
    split_and!; [congruence|congruence|]. intros i Hlt Hx. apply Hg'; [lia|].
    destruct Hx as [?|(x & [-> |Hx]%elem_of_cons & Hm)].
    + left. apply Hg; [done|by left].
    + left. apply Hg; [done|right; eauto].
    + right. eauto.
Qed.

Lemma reading_dies_empty progress w i job :
  there progress w → dl_workers w !! i = Some (Reading job) →
  ∃ e w', just_the_block e ∧ happen max_workers accepts w e = Ok w' ∧ lost progress i w w'.
Proof.
  intros (Hi & He & Hp) Hw. exists (Receives i (Some (RecvBlock b)) 81 some_readings true), (set_worker w i Gone).
  destruct (verify_empty b Hb) as [m Hm]. split_and!; [done|by apply (met_ends_worker w i job)|].
  split; [done|]. split_and!; [|done|done]. apply (after_moved w (Receives i (Some (RecvBlock b)) 81 some_readings true)); try done.
  cbn [harmless]. intros Hh. by destruct (Hh m).
Qed.
End empty_block.

(** ** Peers that have the blocks *)

Section source.
Context (source : ∀ h, h ∈ missing → ∃ b, bh_hash (block_header b) = h ∧ receivable b ∧ verify_witness_commitment b = Ok tt).

(** Blocks are as packets hold them, and no check of one panics. *)
Definition usual (e : event) : Prop := possible e ∧ harmless e.

Lemma source_block job :
  right_block missing first job →
  ∃ b, bh_hash (block_header b) = job.1 ∧ should_send job (Some (RecvBlock b)) = Ok true ∧
    ∀ i r, readings_ok r → usual (Receives i (Some (RecvBlock b)) 81 r true).
Proof.
  intros [_ Hj]. destruct (source job.1) as (b & Hh & Hr & Hv); [by eapply list_elem_of_lookup_2|].
  exists b. split_and!; [done| |].
  - unfold should_send. destruct job as [h n]. cbn [fst] in Hh. rewrite Hh, bool_decide_true by done.
    destruct (SEGWIT_HEIGHT <=? n); [by rewrite Hv|done].
  - intros i r Hok. split; [done|]. intros m. by rewrite Hv.
Qed.

(** The worker hands the block of its job over. *)
Lemma delivers w i job r job' s' flush' b :
  dl_ended w = false → dl_workers w !! i = Some (Reading job) →
  should_send job (Some (RecvBlock b)) = Ok true →
  handle_worker_message pl_len accepts (PushResultAndGetNewJob (mkBlockPayload b 81) job.2) (dl_master w) r (dl_flush w)
    = Ok (job', s', flush') →
  happen max_workers accepts w (Receives i (Some (RecvBlock b)) 81 r true)
    = Ok (mkDownload s' flush' (<[i := with_job job' Reading]> (dl_workers w)) false).
Proof.
  intros He Hw Hs Hh. unfold happen. rewrite He, Hw, Hs. unfold ask_master. rewrite Hh. cbn [mbind outcome_bind].
  unfold set_worker. cbn [dl_master dl_flush dl_workers dl_ended]. by rewrite He.
Qed.

Lemma answers_source w i job b :
  download_inv w → dl_workers w !! i = Some (Reading job) → bh_hash (block_header b) = job.1 →
  answers_job payload_hash missing first (dl_master w) (PushResultAndGetNewJob (mkBlockPayload b 81) job.2).
Proof.
  intros Hi Hw Hb. destruct (worker_at w i _ Hi Hw) as [Hright Hn]. cbn [answers_job]. unfold payload_hash.
  cbn [pl_block]. rewrite Hb. by destruct job.
Qed.

(** When all blocks were passed on, whoever delivers another one is dismissed. *)
Definition all_passed (n : Z) (_ : list (BlockPayload * Z)) : Prop := n = len missing.

Lemma reading_dies_done w i job :
  there all_passed w → dl_workers w !! i = Some (Reading job) →
  ∃ e w', usual e ∧ happen max_workers accepts w e = Ok w' ∧ lost all_passed i w w'.
Proof.
  intros (Hi & He & Hp) Hw. destruct (source_block job) as (b & Hb & Hs & Hu); [by apply (worker_at w i _ Hi Hw)|].
  destruct (handle_message_spec pl_len payload_hash missing first first_range accepts Haccepts (dl_master w) (dl_flush w)
    (PushResultAndGetNewJob (mkBlockPayload b 81) job.2) some_readings) as (job' & s' & flush' & Hh & Hinv & Hjob & _ & Hn & _);
    [apply Hi|by apply (answers_source w i)|done|].
  pose proof (delivers w i job _ _ _ _ b He Hw Hs Hh) as Hd. pose proof (download_happens w _ Hi (proj1 (Hu i some_readings some_readings_ok))) as Ha.
  rewrite Hd in Ha. destruct Ha as (Hi' & _ & _). unfold all_passed in Hp.
  pose proof (mi_order _ _ _ _ _ _ Hinv). pose proof (mi_asked _ _ _ _ _ _ Hinv).
  assert (job' = None) as -> by (destruct job' as [[h n]|]; [cbn in Hjob; lia|done]).
  eexists _, _. split; [apply (Hu i some_readings some_readings_ok)|]. split; [exact Hd|]. split; [done|]. split_and!; [done|done|].
  unfold all_passed. cbn [dl_master]. lia.
Qed.

(** A worker that delivers is given the awaited block next, if the clock went on. *)
Lemma delivering w i job :
  download_inv w → dl_ended w = false → dl_workers w !! i = Some (Reading job) →
  ∃ e w', usual e ∧ happen max_workers accepts w e = Ok w' ∧ download_inv w' ∧ dl_ended w' = false ∧
    next_to_apply (dl_master w) <= next_to_apply (dl_master w') ∧
    (job.2 = first + next_to_apply (dl_master w) → next_to_apply (dl_master w) < next_to_apply (dl_master w')) ∧
    (next_to_apply (dl_master w') < len missing →
      ∃ h, dl_workers w' !! i = Some (Reading (h, first + next_to_apply (dl_master w')))).
Proof.
  intros Hi He Hw. destruct (source_block job) as (b & Hb & Hs & Hu); [by apply (worker_at w i _ Hi Hw)|].
  destruct (answers_source w i job b Hi Hw Hb) as [Hright Hnum].
  destruct (result_then_awaited pl_len payload_hash missing first first_range accepts Haccepts (dl_master w) (dl_flush w)
    (mkBlockPayload b 81) job.2) as (r & job' & s' & flush' & Hr & Hh & Hn & Hadv & Hnext); [apply Hi|done|done|].
  pose proof (delivers w i job _ _ _ _ b He Hw Hs Hh) as Hd. pose proof (download_happens w _ Hi (proj1 (Hu i r Hr))) as Ha.
  rewrite Hd in Ha. destruct Ha as (Hi' & _ & _).
  eexists _, _. split; [apply (Hu i r Hr)|]. split; [exact Hd|]. split_and!; try done. cbn [dl_master dl_workers].
  intros Hlt. destruct (Hnext Hlt) as [h ->]. exists h. apply list_lookup_insert_eq. by eapply lookup_lt_Some.
Qed.

Lemma passes_all i : ∀ n w job, n = Z.to_nat (len missing - next_to_apply (dl_master w)) →
  download_inv w → dl_ended w = false → dl_workers w !! i = Some (Reading job) →
  (next_to_apply (dl_master w) < len missing → job.2 = first + next_to_apply (dl_master w)) →
  ∃ events w', Forall usual events ∧ run max_workers accepts w events = Ok w' ∧ there all_passed w'.
Proof.
  induction n as [n IH] using lt_wf_ind. intros w job Hn Hi He Hw Hjob.
  pose proof (mi_order _ _ _ _ _ _ (di_master _ Hi)). pose proof (mi_asked _ _ _ _ _ _ (di_master _ Hi)).
  destruct (decide (next_to_apply (dl_master w) < len missing)) as [Hlt|Hge].
  2: { exists [], w. split_and!; [done|done|]. split_and!; [done..|]. unfold all_passed. lia. }
  destruct (delivering w i job Hi He Hw) as (e & w1 & Hu & Hh & Hi1 & He1 & Hle & Hadv & Hnext). specialize (Hadv (Hjob Hlt)).
  destruct (decide (next_to_apply (dl_master w1) < len missing)) as [Hlt1|Hge1].
  - destruct (Hnext Hlt1) as [h Hw1].
    destruct (IH (Z.to_nat (len missing - next_to_apply (dl_master w1))) ltac:(lia) w1 _ eq_refl Hi1 He1 Hw1) as (es & w' & Hes & Hrun & Ht); [done|].
    exists (e :: es), w'. split_and!; [by constructor| |done]. unfold run. cbn [for_each]. by rewrite Hh.
  - pose proof (mi_order _ _ _ _ _ _ (di_master _ Hi1)). pose proof (mi_asked _ _ _ _ _ _ (di_master _ Hi1)).
    exists [e], w1. split_and!; [by constructor|unfold run; cbn [for_each]; by rewrite Hh|]. split_and!; [done..|]. unfold all_passed. lia.
Qed.

Lemma reading_passes w i job :
  download_inv w → dl_ended w = false → dl_workers w !! i = Some (Reading job) →
  ∃ events w', Forall usual events ∧ run max_workers accepts w events = Ok w' ∧ there all_passed w'.
Proof.
  intros Hi He Hw. destruct (delivering w i job Hi He Hw) as (e & w1 & Hu & Hh & Hi1 & He1 & _ & _ & Hnext).
  destruct (decide (next_to_apply (dl_master w1) < len missing)) as [Hlt|Hge].
  - destruct (Hnext Hlt) as [h Hw1]. destruct (passes_all i _ w1 _ eq_refl Hi1 He1 Hw1) as (es & w' & Hes & Hrun & Ht); [done|].
    exists (e :: es), w'. split_and!; [by constructor| |done]. unfold run. cbn [for_each]. by rewrite Hh.
  - pose proof (mi_order _ _ _ _ _ _ (di_master _ Hi1)). pose proof (mi_asked _ _ _ _ _ _ (di_master _ Hi1)).
    exists [e], w1. split_and!; [by constructor|unfold run; cbn [for_each]; by rewrite Hh|]. split_and!; [done..|]. unfold all_passed. lia.
Qed.

Lemma connecting_passes w i job :
  download_inv w → dl_ended w = false → dl_workers w !! i = Some (Connecting job) →
  ∃ events w', Forall usual events ∧ run max_workers accepts w events = Ok w' ∧ there all_passed w'.
Proof.
  intros Hi He Hw. pose proof (download_happens w (Connects i true) Hi I) as Ha.
  assert (happen max_workers accepts w (Connects i true) = Ok (set_worker w i (Reading job))) as Hc by (unfold happen; by rewrite He, Hw).
  rewrite Hc in Ha. destruct Ha as (Hi1 & _ & _).
  destruct (reading_passes (set_worker w i (Reading job)) i job Hi1 He) as (es & w' & Hes & Hrun & Ht).
  { cbn [set_worker dl_workers]. apply list_lookup_insert_eq. by eapply lookup_lt_Some. }
  exists (Connects i true :: es), w'. split_and!; [by constructor| |done]. unfold run. cbn [for_each]. by rewrite Hc.
Qed.

(** From any state with all workers alive, or with all blocks passed on *)
Lemma can_pass w :
  download_inv w → dl_ended w = false → all_there w →
  ∃ events w', Forall usual events ∧ run max_workers accepts w events = Ok w' ∧ there all_passed w'.
Proof.
  intros Hi He Hall. pose proof (mi_order _ _ _ _ _ _ (di_master _ Hi)). pose proof (mi_asked _ _ _ _ _ _ (di_master _ Hi)).
  destruct (decide (next_to_apply (dl_master w) < len missing)) as [Hlt|Hge].
  2: { exists [], w. split_and!; [done|done|]. split_and!; [done..|]. unfold all_passed. lia. }
  pose proof (Hall Hlt) as Halive. pose proof (di_some _ Hi) as Hsome.
  destruct (dl_workers w) as [|x l] eqn:Hws; [done|]. apply Forall_cons in Halive as [Hx _].
  assert (dl_workers w !! 0%nat = Some x) as Hw by (by rewrite Hws).
  destruct x as [|job|job|]; [|by apply (connecting_passes w 0 job)|by apply (reading_passes w 0 job)|done].
  destruct (asking (λ n _, n = next_to_apply (dl_master w)) w 0) as (job & w1 & Hh & (Hi1 & He1 & Hn1) & Hw1); [by split_and!|done|].
  destruct job as [job|].
  - destruct (connecting_passes w1 0 job Hi1 He1) as (es & w' & Hes & Hrun & Ht); [by rewrite Hw1, Hws|].
    exists (Asks 0 some_readings :: es), w'. split_and!; [by constructor| |done]. unfold run. cbn [for_each]. by rewrite Hh.
  - exfalso. pose proof (download_happens w (Asks 0 some_readings) Hi some_readings_ok) as Ha. rewrite Hh in Ha. destruct Ha as (_ & Ha & _).
    specialize (Ha I Hall). unfold all_there in Ha. cbv beta in Hn1. rewrite Hn1, Hw1, Hws in Ha. specialize (Ha Hlt).
    cbn [with_job insert list_insert] in Ha. by apply Forall_cons in Ha as [Ha _].
Qed.
End source.

End download.

(** * A writer that may be gone *)

Section writer.
Context `{Sha256, U256Lib, Layout} (max_workers : Z) (missing : list hash) (first : Z).
Hypothesis first_range : 0 <= first ∧ first + len missing < 2 ^ 63.
Context (accepts : list (BlockPayload * Z) → bool).

(** The blocks are the first missing ones, in order, those since SegWit with their commitments checked. *)
Definition passed_in_order (flush : list (BlockPayload * Z)) : Prop :=
  map (λ x, payload_hash x.1) flush = take (length flush) missing ∧ map snd flush = seqZ first (len flush) ∧
  ∀ x, x ∈ flush → checked x.

(** A send after these blocks was refused. *)
Definition gone (flush : list (BlockPayload * Z)) : Prop := passed_in_order flush ∧ accepts flush = false.

Lemma download_in_order w : download_inv missing first w → passed_in_order (dl_flush w).
Proof.
  intros [Hm _ Hc _]. pose proof (mi_numbers _ _ _ _ _ _ Hm) as Hn. pose proof (mi_order _ _ _ _ _ _ Hm).
  assert (len (dl_flush w) = next_to_apply (dl_master w)) as Hl.
  { unfold len. rewrite <- (length_map snd (dl_flush w)), Hn, length_seqZ. lia. }
  split_and!.
  - rewrite (mi_blocks _ _ _ _ _ _ Hm). f_equal. unfold len in Hl. lia.
  - by rewrite Hl.
  - intros x Hx. apply Hc, elem_of_app. by left.
Qed.

Lemma in_order_prefix flush flush2 : passed_in_order flush → flush2 `prefix_of` flush → passed_in_order flush2.
Proof.
  intros (Hh & Hn & Hc) [rest ->]. split_and!.
  - rewrite map_app, length_app in Hh. apply (f_equal (take (length flush2))) in Hh. rewrite take_take in Hh.
    rewrite take_app_le, take_ge in Hh by (rewrite length_map; lia). rewrite Hh. f_equal. lia.
  - rewrite map_app in Hn. apply (f_equal (take (length flush2))) in Hn.
    rewrite take_app_le, take_ge in Hn by (rewrite length_map; lia). rewrite Hn. apply list_eq. intros i.
    destruct (decide (i < length flush2)%nat) as [Hi|Hi].
    + rewrite lookup_take_lt by done. rewrite !lookup_seqZ_lt; [done|unfold len; lia|unfold len; rewrite length_app; lia].
    + rewrite lookup_take_ge by lia. symmetry. apply lookup_seqZ_ge. unfold len. lia.
  - intros x Hx. apply Hc, elem_of_app. by left.
Qed.

(** The same as with a writer that takes everything, or a send was refused. *)
Definition like (taken : outcome Download) (o : outcome Download) : Prop :=
  o = taken ∨ match o with Ok w => gone (dl_flush w) | Panic _ => ∃ flush, gone flush | _ => False end.

Lemma ask_like w i message r f w1 :
  ask_master taking w i message r f = Ok w1 → download_inv missing first w1 →
  like (Ok w1) (ask_master accepts w i message r f).
Proof.
  unfold ask_master. intros Ht Hi. obind Ht. destruct v as [[job s] flush]. injection Ht as <-.
  apply download_in_order in Hi. cbn [set_worker dl_flush] in Hi.
  destruct (message_refused pl_len accepts _ _ _ _ _ _ _ Hv) as [->|Hr]; [by left|right].
  destruct (handle_worker_message pl_len accepts _ _ _ _) as [[[job2 s2] f2]| | |]; [| |destruct Hr as (f2 & Hr)|]; try done.
  - destruct Hr. split; [by eapply in_order_prefix|done].
  - exists f2. destruct Hr. split; [by eapply in_order_prefix|done].
Qed.

Lemma happens_like w e :
  download_inv missing first w → possible e → like (happen max_workers taking w e) (happen max_workers accepts w e).
Proof.
  intros Hi Hp. destruct (dl_ended w) eqn:He; [unfold happen; rewrite He; by left|].
  assert (∀ i message r f, readings_ok r → answers_job payload_hash missing first (dl_master w) message →
    (∀ p n, message = PushResultAndGetNewJob p n → checked (p, n)) → (∀ job, f job = Connecting job) ∨ (∀ job, f job = Reading job) →
    like (ask_master taking w i message r f) (ask_master accepts w i message r f)) as Hask.
  { intros i message r f Hr Hans Hc Hf. destruct (ask_master_inv missing first taking (λ _, eq_refl) first_range w i message r f Hi Hr Hans Hc Hf)
      as (w1 & Ht & Hi1 & _). rewrite Ht. by apply ask_like. }
  destruct e as [i r|i written|i payload n r written|i|? ? ?|]; unfold happen; rewrite He; try by left.
  destruct (dl_workers w !! i) as [[| |job|]|] eqn:Hw; try by left.
  destruct payload as [[]|]; try by left. destruct (should_send job _) as [[]|e|m|] eqn:Hs; try by left.
  destruct (should_send_block _ _ Hs) as [Hh Hc]. destruct (worker_at missing first w i _ Hi Hw) as [Hright Hn].
  destruct Hp as [Hr _]. apply Hask; [done| |by intros p n' [= <- <-]|destruct written; auto].
  cbn [answers_job]. unfold payload_hash. cbn [pl_block]. rewrite Hh. by destruct job.
Qed.

(** Once a send was refused: no more blocks are passed on. *)
Lemma refused_happens w e :
  accepts (dl_flush w) = false → possible e →
  match happen max_workers accepts w e with Ok w' => dl_flush w' = dl_flush w | Ub => False | _ => True end.
Proof.
  intros Hacc Hp. unfold happen. destruct (dl_ended w); [done|].
  assert (∀ i message r f, match ask_master accepts w i message r f with Ok w' => dl_flush w' = dl_flush w | Ub => False | _ => True end) as Hask.
  { intros i message r f. unfold ask_master. pose proof (message_gone pl_len accepts message (dl_master w) r (dl_flush w) Hacc) as Hm.
    destruct (handle_worker_message _ _ _ _ _ _) as [[[job s] flush]| | |]; done. }
  destruct e as [i r|i written|i payload n r written|i|? ? ?|].
  - destruct (dl_workers w !! i) as [[]|]; try done. apply Hask.
  - destruct (dl_workers w !! i) as [[]|]; try done. by destruct written.
  - destruct (dl_workers w !! i) as [[| |job|]|]; try done.
    assert (should_send job payload ≠ Ub) as Hub.
    { destruct payload as [[]|]; try done. destruct Hp as [_ Hp]. pose proof (should_send_panics job b Hp) as Hs.
      by destruct (should_send _ _). }
    destruct (should_send job payload) as [[]| | |]; [|done..]. destruct payload as [[]|]; try done. apply Hask.
  - by destruct (dl_workers w !! i) as [[]|].
  - unfold update_workers, tt_reset. by destruct (negb _).
  - by destruct (forallb _ _).
Qed.

Lemma refused_runs events : ∀ w,
  accepts (dl_flush w) = false → Forall possible events →
  match run max_workers accepts w events with Ok w' => dl_flush w' = dl_flush w | Ub => False | _ => True end.
Proof.
  induction events as [|e events IH]; intros w Hg Hp; [done|]. apply Forall_cons in Hp as [Hp Hps].
  unfold run. cbn [for_each]. pose proof (refused_happens w e Hg Hp) as Ha.
  destruct (happen max_workers accepts w e) as [w1| | |]; [|done..]. cbn [mbind outcome_bind]. rewrite <- Ha. apply IH; [by rewrite Ha|done].
Qed.

Lemma gone_stays events w w' :
  accepts (dl_flush w) = false → Forall possible events → run max_workers accepts w events = Ok w' → dl_flush w' = dl_flush w.
Proof. intros Hg Hp Hrun. pose proof (refused_runs events w Hg Hp) as Hr. by rewrite Hrun in Hr. Qed.

(** Until a send is refused, the download goes on as with a writer that takes everything. *)
Lemma runs_like events : ∀ w,
  download_inv missing first w → (dl_ended w = true → Forall (λ x, x = Gone) (dl_workers w)) → Forall possible events →
  match run max_workers accepts w events with
  | Ok w' => run max_workers taking w events = Ok w' ∨ gone (dl_flush w')
  | Err _ => True
  | Panic _ => ∃ flush, gone flush
  | Ub => False
  end.
Proof.
  induction events as [|e events IH]; intros w Hi He Hp; [by left|]. apply Forall_cons in Hp as [Hp Hps].
  pose proof (download_happens max_workers missing first taking (λ _, eq_refl) first_range w e Hi Hp) as Ha.
  unfold run. cbn [for_each]. destruct (happens_like w e Hi Hp) as [->|Hl].
  - destruct (happen max_workers taking w e) as [w1| | |]; [|done..]. destruct Ha as (Hi1 & _ & He1). by apply IH.
  - destruct (happen max_workers accepts w e) as [w1| | |]; cbn [mbind outcome_bind]; [|done..].
    pose proof (refused_runs events w1 (proj2 Hl) Hps) as Hr. unfold run in Hr.
    destruct (for_each (happen max_workers accepts) events w1) as [w'| | |]; [right; by rewrite Hr|done|by exists (dl_flush w1)|done].
Qed.
End writer.

Lemma ended_complete `{Sha256, U256Lib, Layout} missing first w :
  download_inv missing first w → all_there missing w → Forall (λ x, x = Gone) (dl_workers w) →
  map (λ x, payload_hash x.1) (dl_flush w) = missing.
Proof.
  intros Hi Hall He. pose proof Hi as [Hm _ _ Hs]. rewrite (mi_blocks _ _ _ _ _ _ Hm). apply take_ge.
  pose proof (mi_order _ _ _ _ _ _ Hm). destruct (decide (next_to_apply (dl_master w) < len missing)) as [Hlt|Hge]; [|unfold len in Hge; lia].
  specialize (Hall Hlt). destruct (dl_workers w) as [|x l]; [done|]. rewrite !Forall_cons in *. by destruct He, Hall.
Qed.

Lemma empty_receivable `{Sha256, U256Lib, Layout} b : block_txs b = [] → receivable b.
Proof. intros Hb. unfold receivable. rewrite Hb. split; [constructor|vm_compute; discriminate]. Qed.

(** When no worker is left, the download has ended or ends. *)
Lemma none_left `{Sha256, U256Lib, Layout} max_workers accepts w :
  (∀ i, (i < length (dl_workers w))%nat → dl_workers w !! i = Some Gone) →
  ∃ w'', (w'' = w ∨ happen max_workers accepts w Ends = Ok w'') ∧ dl_ended w'' = true ∧ dl_flush w'' = dl_flush w.
Proof.
  intros Hg. destruct (dl_ended w) eqn:He; [exists w; split_and!; auto|].
  exists (mkDownload (dl_master w) (dl_flush w) (dl_workers w) true). split_and!; [|done..]. right. unfold happen. rewrite He.
  assert (forallb (λ x, match x with Gone => true | _ => false end) (dl_workers w) = true) as ->; [|done].
  apply forallb_forall. intros x [i Hx]%list_elem_of_In%list_elem_of_lookup_1. rewrite Hg in Hx by by eapply lookup_lt_Some.
  by injection Hx as <-.
Qed.

(** * Properties *)

(** C6. The block download as a whole: the master and its workers, whose number changes, with a clock that does
    not read zero, peers that send whatever they like, connections that fail and deadlines that pass, and a writer that may be
    gone from some block on. The missing blocks are passed on in order, those since SegWit with the commitment
    to their witnesses checked. As long as the writer takes what it is sent the master never panics, and unless the
    check of a block panics, the download ends only when all of them were passed on. Once a send was
    refused no more blocks are passed on; then, and only then, the master may panic. *)
Theorem download_completes `{Sha256, U256Lib, Layout} max_workers missing first accepts events :
  0 <= first ∧ first + len missing < 2 ^ 63 → Forall possible events →
  let in_order (flush : list (BlockPayload * Z)) :=
    map (λ x, payload_hash x.1) flush = take (length flush) missing ∧ map snd flush = seqZ first (len flush) ∧
    (∀ x, x ∈ flush → SEGWIT_HEIGHT <= x.2 → verify_witness_commitment (pl_block x.1) = Ok tt) in
  match run max_workers accepts (run_master missing first) events with
  | Ok w =>
      in_order (dl_flush w) ∧
      (accepts (dl_flush w) = true → Forall harmless events → dl_ended w = true →
        map (λ x, payload_hash x.1) (dl_flush w) = missing) ∧
      (accepts (dl_flush w) = false → ∀ more w', Forall possible more → run max_workers accepts w more = Ok w' →
        dl_flush w' = dl_flush w)
  | Panic _ => ∃ flush, in_order flush ∧ accepts flush = false
  | Err _ => True
  | Ub => False
  end.
Proof.
  intros Hr Hp. cbv zeta. destruct (download_starts missing first) as [Hi Hall].
  pose proof (runs_like max_workers missing first Hr accepts events (run_master missing first) Hi ltac:(done) Hp) as Hl.
  pose proof (download_runs max_workers missing first taking (λ _, eq_refl) Hr events (run_master missing first) Hi ltac:(done) Hp) as Hrun.
  destruct (run max_workers accepts _ events) as [w| | |]; [|done|exact Hl|done].
  assert (passed_in_order missing first (dl_flush w)) as Hin.
  { destruct Hl as [Hl|[? _]]; [|done]. rewrite Hl in Hrun. apply download_in_order, Hrun. }
  split; [exact Hin|]. split.
  - intros Hacc Hh Hend. destruct Hl as [Hl|[_ Hl]]; [|congruence]. rewrite Hl in Hrun. destruct Hrun as (Hi' & Hall' & He).
    apply (ended_complete missing first); [done|by apply Hall'|by apply He].
  - intros Hacc more w' Hm Hrun'. by apply (gone_stays max_workers accepts more w).
Qed.

(** C15. Whatever happened so far, if no check of a block panicked and the writer takes what it is sent: with
    peers that have the missing blocks the download can go on and come to its end, with all of them passed on. *)
Theorem download_can_finish `{Sha256, U256Lib, Layout} max_workers missing first accepts events w :
  0 <= first ∧ first + len missing < 2 ^ 63 → (∀ flush, accepts flush = true) → Forall usual events →
  (∀ h, h ∈ missing → ∃ b, bh_hash (block_header b) = h ∧ receivable b ∧ verify_witness_commitment b = Ok tt) →
  run max_workers accepts (run_master missing first) events = Ok w → dl_ended w = false →
  ∃ more w', Forall usual more ∧ run max_workers accepts w more = Ok w' ∧ dl_ended w' = true ∧
    map (λ x, payload_hash x.1) (dl_flush w') = missing.
Proof.
  intros Hr Hacc Hu Hsource Hrun He. destruct (download_starts missing first) as [Hi Hall].
  assert (Forall possible events ∧ Forall harmless events) as [Hp Hh] by (split; eapply Forall_impl; [exact Hu|by intros ? []|exact Hu|by intros ? []]).
  pose proof (download_runs max_workers missing first accepts Hacc Hr events (run_master missing first) Hi ltac:(done) Hp) as Ha.
  rewrite Hrun in Ha. destruct Ha as (Hi' & Hall' & _).
  destruct (can_pass max_workers missing first accepts Hacc Hr Hsource w Hi' He (Hall' Hh Hall)) as (es & w1 & Hes & Hrun1 & Ht1).
  destruct (all_die max_workers missing first accepts Hacc Hr usual (all_passed missing) (λ _, conj some_readings_ok I) (λ _, conj I I)
    (reading_dies_done max_workers missing first accepts Hacc Hr Hsource) w1 (conj I I) Ht1) as (es' & w' & Hes' & Hrun' & Hend & Hi1 & Hdone).
  exists (es ++ es'), w'. split_and!; [by apply Forall_app|by rewrite (downloads_app max_workers accepts w w1)|done|].
  rewrite (mi_blocks _ _ _ _ _ _ (di_master _ _ _ Hi1)). apply take_ge. unfold all_passed in Hdone. rewrite Hdone. unfold len. lia.
Qed.


(** * Examples *)

Import Toy.

Definition one_missing : list hash := [bh_hash (block_header toy_block)].

(** The first worker delivers the block; the next ones find that there is nothing left to do. *)
Definition toy_events : list event :=
  [Asks 0 some_readings; Connects 0 false; Connects 0 true; Receives 0 None 0 some_readings true; Fails 0; Connects 0 true;
   Receives 0 (Some (RecvBlock toy_block)) 81 some_readings true]
  ++ map (λ i, Asks i some_readings) (seq 1 9) ++ [Ends].

Definition after_events (missing : list hash) (events : list event) : Download :=
  match run 100 taking (run_master missing SEGWIT_HEIGHT) events with Ok w => w | _ => run_master missing SEGWIT_HEIGHT end.

Lemma toy_block_receivable : receivable toy_block.
Proof. split; [by repeat constructor|vm_compute; discriminate]. Qed.

Lemma toy_block_checked : verify_witness_commitment toy_block = Ok tt.
Proof. vm_compute. reflexivity. Qed.

Lemma toy_events_usual : Forall usual toy_events.
Proof.
  unfold toy_events. apply Forall_app. split.
  - assert (usual (Receives 0 (Some (RecvBlock toy_block)) 81 some_readings true)) as Hb.
    { split; [split; [apply some_readings_ok|apply toy_block_receivable]|]. intros m. by rewrite toy_block_checked. }
    assert (∀ i, usual (Asks i some_readings)) as Ha by (intros i; split; [apply some_readings_ok|exact I]).
    assert (∀ i, usual (Receives i None 0 some_readings true)) as Hn by (intros i; split; [split; [apply some_readings_ok|exact I]|exact I]).
    apply Forall_cons. split; [apply Ha|]. apply Forall_cons. split; [done|]. apply Forall_cons. split; [done|].
    apply Forall_cons. split; [apply Hn|]. apply Forall_cons. split; [done|]. apply Forall_cons. split; [done|].
    by apply Forall_singleton.
  - apply Forall_app. split; [|repeat constructor]. apply Forall_map, Forall_forall. intros i _. split; [apply some_readings_ok|exact I].
Qed.

Lemma toy_run : run 100 taking (run_master one_missing SEGWIT_HEIGHT) toy_events = Ok (after_events one_missing toy_events).
Proof. vm_compute. reflexivity. Qed.

Lemma one_missing_range : 0 <= SEGWIT_HEIGHT ∧ SEGWIT_HEIGHT + len one_missing < 2 ^ 63.
Proof. vm_compute. split; [discriminate|reflexivity]. Qed.

Lemma download_completes_witness :
  dl_ended (after_events one_missing toy_events) = true ∧
  map (λ x, payload_hash x.1) (dl_flush (after_events one_missing toy_events)) = one_missing.
Proof.
  split; [vm_compute; reflexivity|].
  pose proof (download_completes 100 one_missing SEGWIT_HEIGHT taking toy_events one_missing_range) as Hd.
  assert (Forall possible toy_events) as Hp by (eapply Forall_impl; [apply toy_events_usual|by intros ? []]).
  specialize (Hd Hp). rewrite toy_run in Hd. destruct Hd as (_ & Hd & _). apply Hd.
  - reflexivity.
  - eapply Forall_impl; [apply toy_events_usual|by intros ? []].
  - vm_compute. reflexivity.
Defined.

Lemma download_can_finish_witness : ∃ more w',
  run 100 taking (after_events one_missing (take 2 toy_events)) more = Ok w' ∧ dl_ended w' = true.
Proof.
  destruct (download_can_finish 100 one_missing SEGWIT_HEIGHT taking (take 2 toy_events) (after_events one_missing (take 2 toy_events)))
    as (more & w' & _ & Hrun & He & _).
  - apply one_missing_range.
  - reflexivity.
  - apply Forall_take, toy_events_usual.
  - intros h ->%list_elem_of_singleton. exists toy_block. split; [reflexivity|]. split; [apply toy_block_receivable|apply toy_block_checked].
  - vm_compute. reflexivity.
  - vm_compute. reflexivity.
  - exists more, w'. split; [exact Hrun|exact He].
Defined.

(** A header for no transactions at all *)
Definition empty_block : Block :=
  match BlockHeader_construct 1 EMPTY_HASH EMPTY_HASH 1231006505 0x1d00ffff 5 0 with
  | Ok h => mkBlock h []
  | _ => default_value
  end.

Lemma empty_block_valid : valid empty_block.
Proof.
  assert (empty_block = mkBlock (block_header empty_block) []) as -> by (vm_compute; reflexivity).
  split; [|vm_compute; reflexivity]. unfold block_fields_ok. cbn [block_header block_txs]. split_and!.
  - cbn [valid BlockHeader_wire]. unfold header_fields_ok, hash_ok, in_u32, in_u64.
    split_and!; (vm_compute; first [reflexivity | discriminate]).
  - vm_compute. reflexivity.
  - constructor.
  - vm_compute. discriminate.
Qed.


(** The writer is gone before the first block comes: the block is lost, and the next tick panics. *)
Definition no_writer : list (BlockPayload * Z) → bool := λ _, false.

Example refused_send_panics : ∃ m,
  run 100 no_writer (run_master one_missing SEGWIT_HEIGHT) (take 7 toy_events ++ [Ticks 0 0 10000000]) = Panic m.
Proof. eexists. vm_compute. reflexivity. Qed.
