(* ===== verification/Pipeline.v ===== *)
(** [src/chainman/blocksync.rs]: the batches of blocks: blocks that come in order, the
    tasks that process them side by side, and the write of a batch while the next one is
    processed. *)
From S2P Require Import Prelude.
From S2P Require Import Extern.
From S2P Require Import Buffer.
From S2P Require Import Varint.
From S2P Require Import Arena.
From S2P Require Import Wire.
From S2P Require Import Header.
From S2P Require Import Tx.
From S2P Require Import Block.
From S2P Require Import Loops.
From S2P Require Import Script.
From S2P Require Import Weight.
From S2P Require Import Address.
From S2P Require Import Analyze.
From S2P Require Import Store.
From S2P Require Import Queries.
From S2P Require Import Float.
From S2P Require Import Process.

(** * The model *)

(** How far the task of a block is: it was spawned, it has the outputs from the database,
    it has the results, or it has ended. *)
Inductive Phase :=
| Spawned
| Fetched (deps_from_disk : list TxOut)
| Analyzed (analyzed : list SerializedTx) (metrics : BlockMetrics) (ascii : bytes)
| Ended.

Record Task := mkTask {
  tk_block : Block;
  tk_index : Z;
  tk_phase : Phase;
}.

Definition set_phase (t : Task) (phase : Phase) : Task := mkTask (tk_block t) (tk_index t) phase.

Definition DEFAULT_MAX_BLOCKS_PER_FLUSH : Z := 64.

Section pipeline.
Context `{RocksDb, Layout, UnstableSort}.

(** What the task that writes a batch was given. *)
Record Flush := mkFlush {
  fl_blocks : list hash;
  fl_analyzed : list (list SerializedTx);
  fl_asciis : list bytes;
  fl_metrics : list BlockMetrics;
  fl_arena : Arena;
}.

(** The state of [receive_and_process_blocks]: what the channel will give, the current
    batch with its tasks, and the write of the previous batch as long as it runs. *)
Record Sync := mkSync {
  sy_recv : list Block;
  sy_state : ChainSyncState;
  sy_arena : Arena;
  sy_blocks : list hash;
  sy_tasks : list Task;
  sy_flush : option Flush;
  sy_previous_arena : Arena;
  sy_db : Databases;
}.

Definition set_tasks (y : Sync) (tasks : list Task) : Sync :=
  mkSync (sy_recv y) (sy_state y) (sy_arena y) (sy_blocks y) tasks (sy_flush y) (sy_previous_arena y) (sy_db y).

(** The state for the next batch: the outputs of this one become the previous ones. *)
Definition next_state (s : ChainSyncState) : ChainSyncState :=
  mkChainSyncState ∅ (current_txouts s) [] [] [].

Context (max_blocks_per_flush : Z).

(** The steps. The tasks of a batch run in any order, those of a task keep theirs; what a task does between
    two locks of the state is one step. The write of an empty batch, after the channel was
    closed, panics and is left out. *)
Inductive sync_step : Sync → Sync → Prop :=
| step_receive recv block s arena blocks tasks flush previous d s' index arena' :
    (** [get_next_batch_to_flush] takes a block *)
    len blocks < max_blocks_per_flush →
    accept_block s block arena = Ok (s', index, arena') →
    sync_step (mkSync (block :: recv) s arena blocks tasks flush previous d)
      (mkSync recv s' arena' (blocks ++ [bh_hash (block_header block)]) (tasks ++ [mkTask block index Spawned])
         flush previous d)
| step_fetch y before t after deps :
    (** a task gets what it needs from the database *)
    sy_tasks y = before ++ t :: after → tk_phase t = Spawned →
    fetch_missing_dependencies (sy_db y) (sy_state y) (tk_block t) = Ok deps →
    sync_step y (set_tasks y (before ++ set_phase t (Fetched deps) :: after))
| step_cancel y before t after e :
    (** or does not, and ends *)
    sy_tasks y = before ++ t :: after → tk_phase t = Spawned →
    fetch_missing_dependencies (sy_db y) (sy_state y) (tk_block t) = Err e →
    sync_step y (set_tasks y (before ++ set_phase t Ended :: after))
| step_analyze recv s arena blocks before t after flush previous d deps analyzed metrics ascii arena' :
    tk_phase t = Fetched deps →
    analyze_block s (tk_block t) deps arena = Finished (Ok (analyzed, metrics, ascii, arena')) →
    sync_step (mkSync recv s arena blocks (before ++ t :: after) flush previous d)
      (mkSync recv s arena' blocks (before ++ set_phase t (Analyzed analyzed metrics ascii) :: after)
         flush previous d)
| step_results recv s arena blocks before t after flush previous d analyzed metrics ascii s' :
    tk_phase t = Analyzed analyzed metrics ascii →
    set_results s (tk_index t) analyzed metrics ascii = Ok s' →
    sync_step (mkSync recv s arena blocks (before ++ t :: after) flush previous d)
      (mkSync recv s' arena blocks (before ++ set_phase t Ended :: after) flush previous d)
| step_next recv s arena blocks tasks previous d :
    (** the batch is complete and the write of the one before has ended *)
    blocks ≠ [] → Forall (λ t, tk_phase t = Ended) tasks →
    sync_step (mkSync recv s arena blocks tasks None previous d)
      (mkSync recv (next_state s) (reset previous) [] []
         (Some (mkFlush blocks (current_analyzed s) (coinbase_asciis s) (current_metrics s) arena)) arena d)
| step_write y f d' marks arena' :
    sy_flush y = Some f →
    write_analyzed_txs (sy_db y) (fl_blocks f) (fl_analyzed f) (fl_asciis f) (fl_metrics f) (fl_arena f)
      = Ok (d', marks, arena') →
    sync_step y (mkSync (sy_recv y) (sy_state y) (sy_arena y) (sy_blocks y) (sy_tasks y) None (sy_previous_arena y) d').

(** * Blocks that make sense *)

(** A block with the outputs its transactions spend. *)
Record Item := mkItem {
  it_block : Block;
  it_plan : list TxPlan;
  it_script : bytes;
}.

Definition it_header (it : Item) : BlockHeader := block_header (it_block it).
Definition it_hash (it : Item) : hash := bh_hash (it_header it).
Definition it_analyses (it : Item) : list SerializedTx := map (planned (it_header it)) (it_plan it).
Definition txs_of (l : list Item) : list Tx := concat (map (λ it, block_txs (it_block it)) l).
Definition hashes_of (l : list Item) : list hash := map tx_hash (txs_of l).

Record item_ok (it : Item) : Prop := {
  io_txs : map tp_tx (it_plan it) = block_txs (it_block it);
  io_hash : hash_ok (it_hash it);
  io_script : coinbase_script (it_block it) = Ok (it_script it);
  io_count : len (it_plan it) <= 2 ^ 59 ∧ size_of RBlockTxEntry * len (it_plan it) <= isize_max;
  io_analyzable : Forall (λ p, analyzable (tp_tx p) (tp_deps p) ∧
    get_transaction_sigop_cost (tp_tx p) (tp_deps p) (analyze_flags (tp_tx p)) = Finished (Ok (tp_sigops p)))
    (it_plan it);
  io_rates : Forall (λ st, is_nan (fee_rate st) = false) (tail (it_analyses it));
  io_outputs : Forall (λ t, Forall valid (txouts t) ∧ vec_ok (txouts t) ∧ slice_ok (encode_array (txouts t)))
    (block_txs (it_block it));
}.

Context (d0 : Databases) (chain : list Item).

(** The output an input spends, if the blocks of [l] were the first ones. *)
Definition spends_from (l : list Item) (txin : TxIn) (o : TxOut) : Prop :=
  (∃ t, t ∈ txs_of l ∧ tx_hash t = prevout_hash txin ∧ txouts t !! Z.to_nat (prevout_index txin) = Some o) ∨
  ((prevout_hash txin ∉ hashes_of chain) ∧ fetch_dependency d0 (prevout_hash txin, prevout_index txin) = Ok o).

(** Blocks in the order of the chain: the transactions spend outputs of the database,
    of blocks before them or of their own block. *)
Record chain_ok : Prop := {
  co_items : Forall item_ok chain;
  co_spends : ∀ pre it post, chain = pre ++ it :: post →
    Forall (λ p, Forall2 (spends_from (pre ++ [it])) (spending (txins (tp_tx p))) (tp_deps p)) (it_plan it);
  co_distinct : NoDup (hashes_of chain);
  co_batch : batch_ok (map it_hash chain) (map it_analyses chain);
}.

(** ** The outputs of accepted blocks *)

Definition holds (m : txouts_map) (l : list Item) : Prop :=
  ∀ h o, m !! h = Some o ↔ ∃ t, t ∈ txs_of l ∧ tx_hash t = h ∧ txouts t = o.

Lemma txs_of_app l k : txs_of (l ++ k) = txs_of l ++ txs_of k.
Proof. unfold txs_of. by rewrite map_app, concat_app. Qed.

Lemma txs_of_cons it l : txs_of (it :: l) = block_txs (it_block it) ++ txs_of l.
Proof. done. Qed.

Lemma txs_of_one it : txs_of [it] = block_txs (it_block it).
Proof. apply app_nil_r. Qed.

Lemma hashes_of_app l k : hashes_of (l ++ k) = hashes_of l ++ hashes_of k.
Proof. unfold hashes_of. by rewrite txs_of_app, map_app. Qed.

Lemma elem_of_hashes l h : h ∈ hashes_of l ↔ ∃ t, t ∈ txs_of l ∧ tx_hash t = h.
Proof. unfold hashes_of. change (map tx_hash ?x) with (tx_hash <$> x). rewrite list_elem_of_fmap. naive_solver. Qed.

Lemma holds_empty : holds ∅ [].
Proof. intros h o. rewrite lookup_empty. split; [done|]. intros (t & Ht & _). by apply elem_of_nil in Ht. Qed.

Lemma holds_missing m l h : holds m l → m !! h = None ↔ h ∉ hashes_of l.
Proof.
  intros Hm. rewrite elem_of_hashes. split.
  - intros Hn (t & Ht & Hh). assert (m !! h = Some (txouts t)) as Hs by (apply Hm; by exists t). by rewrite Hn in Hs.
  - intros Hn. destruct (m !! h) as [o|] eqn:Ho; [|done]. apply Hm in Ho as (t & Ht & Hh & _). by destruct Hn; exists t.
Qed.

(** Scripts are cloned as they are. *)
Lemma copy_Ok {T} t (value x : list T) a a' :
  arena_wf a → size_of t * len value <= isize_max → try_alloc_array_copy t value a = Ok (x, a') → x = value ∧ arena_wf a'.
Proof.
  intros Hwf Hs. pose proof (size_of_nonneg t). pose proof (len_nonneg value). pose proof (align_of_range t).
  unfold try_alloc_array_copy. destruct (reserve _ _ _) as [[[c p] a1]| | |] eqn:Hr; cbn [mbind outcome_bind]; [|done..].
  apply reserve_inside in Hr as (_ & _ & Hwf' & _); [|done|done|nia]. case_match; [|done]. by intros [= <- <-].
Qed.

Lemma alloc_Ok {T} t (value x : T) a a' :
  arena_wf a → try_alloc t value a = Ok (x, a') → x = value ∧ arena_wf a'.
Proof.
  intros Hwf. pose proof (size_of_nonneg t). pose proof (size_of_max t). pose proof (align_of_range t).
  unfold try_alloc. destruct (reserve _ _ _) as [[[c p] a1]| | |] eqn:Hr; cbn [mbind outcome_bind]; [|done..].
  apply reserve_inside in Hr as (_ & _ & Hwf' & _); [|done..|lia]. case_match; [|done]. by intros [= <- <-].
Qed.

Lemma clone_all outs : ∀ acc a r a',
  arena_wf a → Forall (λ o, len (txout_script o) <= isize_max) outs →
  for_alloc clone_txout outs acc a = Ok (r, a') → r = acc ++ outs ∧ arena_wf a'.
Proof.
  induction outs as [|o outs IH]; intros acc a r a' Hwf Hl Hr; cbn [for_alloc] in Hr.
  - injection Hr as <- <-. by rewrite app_nil_r.
  - apply Forall_cons in Hl as [Ho Hl]. apply bind_amonad_Ok in Hr as (acc1 & a1 & Hc & Hr).
    unfold clone_txout in Hc. apply bind_amonad_Ok in Hc as (s & a2 & Hs & Hc).
    apply copy_Ok in Hs as [-> Hwf2]; [|done|by rewrite size_of_u8, Z.mul_1_l].
    apply bind_amonad_Ok in Hc as (o' & a3 & Ho' & Hc). apply alloc_Ok in Ho' as [-> Hwf3]; [|done].
    injection Hc as <- <-. apply IH in Hr as [-> Hwf']; [|done..]. split; [|done]. rewrite <- app_assoc. by destruct o.
Qed.

Definition insert_all (m : txouts_map) (txs : list Tx) : txouts_map :=
  foldl (λ m t, <[tx_hash t := txouts t]> m) m txs.

Lemma insert_transactions_Ok txs : ∀ m a m' a',
  arena_wf a → Forall (λ t, slice_ok (encode_array (txouts t))) txs →
  for_alloc insert_transaction txs m a = Ok (m', a') → m' = insert_all m txs ∧ arena_wf a'.
Proof.
  induction txs as [|t txs IH]; intros m a m' a' Hwf Hl Hr; cbn [for_alloc] in Hr.
  - by injection Hr as <- <-.
  - apply Forall_cons in Hl as [Ht Hl]. apply bind_amonad_Ok in Hr as (m1 & a1 & Hi & Hr).
    unfold insert_transaction in Hi. apply bind_amonad_Ok in Hi as (outs & a2 & Hc & Hi).
    apply clone_all in Hc as [-> Hwf2]; [|done|].
    + injection Hi as <- <-. by apply IH in Hr.
    + apply Forall_forall. intros o Ho. unfold slice_ok in Ht. rewrite len_encode_array in Ht.
      assert (len (encode o) <= len (concat (map encode (txouts t)))) as Hle.
      { apply list_elem_of_split in Ho as (l1 & l2 & ->). rewrite map_app, concat_app. cbn [map concat].
        rewrite !len_app. pose proof (len_nonneg (concat (map encode l1))). pose proof (len_nonneg (concat (map encode l2))). lia. }
      pose proof (length_varint_range (len (txouts t))). 
      assert (len (txout_script o) <= len (encode o)); [|lia].
      cbn. unfold encode_varstr. rewrite !len_app. pose proof (len_nonneg (to_le 8 (txout_value o))).
      pose proof (len_nonneg (encode_varint (len (txout_script o)))). lia.
Qed.

Lemma holds_insert m l it :
  holds m l → NoDup (hashes_of (l ++ [it])) → holds (insert_all m (block_txs (it_block it))) (l ++ [it]).
Proof.
  intros Hm. rewrite hashes_of_app. intros Hnd. unfold holds. setoid_rewrite txs_of_app.
  rewrite txs_of_one. unfold hashes_of in Hnd at 2. rewrite txs_of_one in Hnd.
  change (∀ h o, m !! h = Some o ↔ ∃ t, t ∈ txs_of l ∧ tx_hash t = h ∧ txouts t = o) in Hm.
  unfold hashes_of in Hnd. rewrite <- map_app in Hnd. revert m Hm Hnd. generalize (txs_of l). clear l.
  induction (block_txs (it_block it)) as [|t txs IH]; intros l m Hm Hnd h o.
  - rewrite app_nil_r. apply Hm.
  - cbn [insert_all foldl]. fold (insert_all (<[tx_hash t := txouts t]> m) txs).
    rewrite (cons_middle t l txs), app_assoc in *. rewrite (IH (l ++ [t])); [done| |done]. clear h o. intros h o.
    rewrite map_app in Hnd. apply NoDup_app in Hnd as (Hnd & _). rewrite map_app in Hnd. apply NoDup_app in Hnd as (_ & Hnot & _).
    rewrite lookup_insert_Some, Hm. setoid_rewrite elem_of_app. setoid_rewrite list_elem_of_singleton. split.
    + intros [[<- <-]|[Hne (t' & Ht' & <- & <-)]]; [exists t; naive_solver|exists t'; naive_solver].
    + intros (t' & [Ht'| ->] & <- & <-); [|by left]. right. split; [|by exists t'].
      intros He. apply (Hnot (tx_hash t')); [by apply list_elem_of_fmap_2|]. rewrite <- He. by left.
Qed.

(** ** The database *)

Record stores (d : Databases) (l : list Item) : Prop := mkStores {
  st_outputs : ∀ t, t ∈ txs_of l → get_transaction_outputs d (tx_hash t) = Ok (txouts t);
  st_blocks : ∀ it, it ∈ l → get_block_tx_entries d (it_hash it) = Ok (map tx_entry (it_analyses it));
  st_txs : ∀ it p, it ∈ l → p ∈ it_plan it →
    contents (TXS_DB d) !! tx_hash (tp_tx p) = st_analyzed_tx (planned (it_header it) p);
  st_others : ∀ h, h ∉ hashes_of chain → contents (TXOUTS_DB d) !! h = contents (TXOUTS_DB d0) !! h;
}.

Lemma outputs_same d d' h :
  contents (TXOUTS_DB d) !! h = contents (TXOUTS_DB d') !! h →
  get_transaction_outputs d h = get_transaction_outputs d' h.
Proof. intros He. unfold get_transaction_outputs, with_data. by rewrite !get_pinned_spec, He. Qed.

Lemma entries_same d d' h :
  contents (BLOCKTXS_DB d) !! h = contents (BLOCKTXS_DB d') !! h →
  get_block_tx_entries d h = get_block_tx_entries d' h.
Proof. intros He. unfold get_block_tx_entries, with_data. by rewrite !get_pinned_spec, He. Qed.

Lemma fetch_stored d outs h i o :
  get_transaction_outputs d h = Ok outs → outs !! Z.to_nat i = Some o → fetch_dependency d (h, i) = Ok o.
Proof. intros Hd Ho. unfold fetch_dependency. cbn [fst snd]. rewrite Hd. cbn. by rewrite Ho. Qed.

(** The blocks of the chain: those that are stored, those of the previous and the
    current batch, and those to come. *)
Section split.
Context (Hchain : chain_ok) (stored prev cur rest : list Item) (Hsplit : chain = stored ++ prev ++ cur ++ rest).
Context (d : Databases) (s : ChainSyncState).
Context (Hcur : holds (current_txouts s) cur) (Hprev : holds (previous_txouts s) prev).

Lemma split_distinct :
  NoDup (hashes_of stored ++ hashes_of prev ++ hashes_of cur ++ hashes_of rest).
Proof. rewrite <- !hashes_of_app, <- Hsplit. apply (co_distinct Hchain). Qed.

Lemma hash_in t l : t ∈ txs_of l → tx_hash t ∈ hashes_of l.
Proof. intros Ht. apply elem_of_hashes. by exists t. Qed.

Lemma not_in_maps h :
  (h ∉ hashes_of cur) → (h ∉ hashes_of prev) → current_txouts s !! h = None ∧ previous_txouts s !! h = None.
Proof. intros Hc Hp. by rewrite (holds_missing _ _ _ Hcur), (holds_missing _ _ _ Hprev). Qed.

Lemma spent_now l txin o :
  stores d stored → (∀ t, t ∈ txs_of l → t ∈ txs_of (stored ++ prev ++ cur)) → spends_from l txin o →
  spent_output d s txin = Ok o.
Proof.
  intros Hd Hl Hs. pose proof split_distinct as Hnd.
  apply NoDup_app in Hnd as (_ & Hns & Hnd). apply NoDup_app in Hnd as (_ & Hnp & _).
  unfold spent_output. destruct Hs as [(t & Ht & <- & Ho)|[Hnot Hf]].
  - apply Hl in Ht. rewrite !txs_of_app, !elem_of_app in Ht. destruct Ht as [Ht|[Ht|Ht]].
    + pose proof (Hns _ (hash_in t _ Ht)) as Hn. rewrite !elem_of_app in Hn.
      destruct (not_in_maps (tx_hash t)) as [-> ->]; [tauto..|].
      by apply (fetch_stored d (txouts t)); [apply Hd|].
    + pose proof (Hnp _ (hash_in t _ Ht)) as Hn. rewrite elem_of_app in Hn.
      rewrite (proj2 (holds_missing _ _ (tx_hash t) Hcur)) by tauto.
      assert (previous_txouts s !! tx_hash t = Some (txouts t)) as -> by (apply Hprev; by exists t). by rewrite Ho.
    + assert (current_txouts s !! tx_hash t = Some (txouts t)) as -> by (apply Hcur; by exists t). by rewrite Ho.
  - rewrite Hsplit, !hashes_of_app, !elem_of_app in Hnot. destruct (not_in_maps (prevout_hash txin)) as [-> ->]; [tauto..|].
    rewrite <- Hf. unfold fetch_dependency. cbn [fst]. rewrite (outputs_same d d0); [done|]. apply Hd.
    rewrite Hsplit, !hashes_of_app, !elem_of_app. tauto.
Qed.

(** Every block that was accepted can be analyzed. *)
Lemma plan_now pre it post :
  stores d stored → cur = pre ++ it :: post → Forall (plan_ok d s) (it_plan it).
Proof.
  intros Hd Hc. assert (chain = (stored ++ prev ++ pre) ++ it :: (post ++ rest)) as Hpos
    by (rewrite Hsplit, Hc, <- !app_assoc; done).
  assert (item_ok it) as Hit.
  { apply (proj1 (Forall_forall _ _) (co_items Hchain)). rewrite Hpos. apply elem_of_app. right. by left. }
  pose proof (co_spends Hchain _ _ _ Hpos) as Hsp. pose proof (io_analyzable it Hit) as Han.
  rewrite Forall_forall in Hsp, Han |- *. intros p Hp. destruct (Han p Hp) as [Ha1 Ha2].
  split; [|done]. unfold resolved. eapply Forall2_impl; [by apply Hsp|]. intros txin o Hso.
  apply (spent_now ((stored ++ prev ++ pre) ++ [it])); [done| |done].
  intros t. rewrite Hc, !txs_of_app, txs_of_one, (txs_of_cons it), !elem_of_app. tauto.
Qed.

End split.

(** ** The outputs from the database *)

Lemma in_maps_spec s prev cur txin :
  holds (current_txouts s) cur → holds (previous_txouts s) prev →
  in_maps s txin = bool_decide (prevout_hash txin ∈ hashes_of prev ++ hashes_of cur).
Proof.
  intros Hc Hp. symmetry. unfold in_maps. pose proof (holds_missing _ _ (prevout_hash txin) Hc) as Hc'.
  pose proof (holds_missing _ _ (prevout_hash txin) Hp) as Hp'.
  destruct (current_txouts s !! prevout_hash txin), (previous_txouts s !! prevout_hash txin);
    (apply bool_decide_eq_true || apply bool_decide_eq_false); rewrite elem_of_app.
  - destruct (decide (prevout_hash txin ∈ hashes_of cur)); [by right|]. by destruct Hc' as [_ Hc']; specialize (Hc' ltac:(done)).
  - destruct (decide (prevout_hash txin ∈ hashes_of cur)); [by right|]. by destruct Hc' as [_ Hc']; specialize (Hc' ltac:(done)).
  - destruct (decide (prevout_hash txin ∈ hashes_of prev)); [by left|]. by destruct Hp' as [_ Hp']; specialize (Hp' ltac:(done)).
  - tauto.
Qed.

Lemma from_disk_same s s' l : ∀ deps,
  (∀ txin, txin ∈ l → in_maps s txin = in_maps s' txin) → from_disk s l deps = from_disk s' l deps.
Proof.
  induction l as [|txin l IH]; intros deps Hl; [done|]. destruct deps as [|o deps]; [done|]. cbn [from_disk].
  rewrite (Hl txin) by (by left). rewrite IH by (intros x Hx; apply Hl; by right). done.
Qed.

(** A block that is accepted does not change what an earlier one takes from the database. *)
Lemma disk_stable s s' stored prev pre it post next rest :
  chain_ok → chain = stored ++ prev ++ (pre ++ it :: post) ++ next :: rest →
  holds (current_txouts s) (pre ++ it :: post) → holds (previous_txouts s) prev →
  holds (current_txouts s') ((pre ++ it :: post) ++ [next]) → previous_txouts s' = previous_txouts s →
  map (plan_disk s') (it_plan it) = map (plan_disk s) (it_plan it).
Proof.
  intros Hchain Hsplit Hc Hp Hc' Hp'. assert (chain = (stored ++ prev ++ pre) ++ it :: (post ++ next :: rest)) as Hpos
    by (rewrite Hsplit, <- !app_assoc; done).
  pose proof (co_spends Hchain _ _ _ Hpos) as Hsp. pose proof (co_distinct Hchain) as Hnd.
  apply map_ext_in. intros p Hin%list_elem_of_In. unfold plan_disk. apply from_disk_same. intros txin Htxin.
  assert (prevout_hash txin ∉ hashes_of [next]) as Hnot.
  { rewrite Forall_forall in Hsp. specialize (Hsp p Hin). apply list_elem_of_lookup in Htxin as [i Hi].
    destruct (Forall2_lookup_l _ _ _ _ _ Hsp Hi) as (o & _ & [(t & Ht & Heq & _)|[Hout _]]).
    - rewrite <- Heq. apply hash_in in Ht. rewrite Hpos, (cons_middle it), app_assoc, hashes_of_app in Hnd.
      apply NoDup_app in Hnd as (_ & Hnd & _). specialize (Hnd _ Ht). rewrite (cons_middle next), !hashes_of_app, !elem_of_app in Hnd. tauto.
    - rewrite Hpos, (cons_middle next), (cons_middle it), !hashes_of_app, !elem_of_app in Hout. tauto. }
  rewrite (in_maps_spec s' prev _ txin Hc') by (by rewrite Hp'). rewrite (in_maps_spec s prev _ txin Hc Hp).
  apply bool_decide_ext. rewrite (hashes_of_app _ [next]), !elem_of_app. tauto.
Qed.

(** ** The write of a batch *)

Lemma NoDup_map_inj {A B} (f : A → B) (l : list A) x y : NoDup (map f l) → x ∈ l → y ∈ l → f x = f y → x = y.
Proof.
  intros Hnd [i Hi]%list_elem_of_lookup [j Hj]%list_elem_of_lookup Hf.
  assert (i = j) as ->; [|congruence]. apply (NoDup_lookup (f <$> l) i j (f x)); [done|by rewrite list_lookup_fmap, Hi|].
  rewrite list_lookup_fmap, Hj. cbn. by rewrite Hf.
Qed.

Lemma map_zip_map {A B C} (f : A → B) (g : A → C) (l : list A) : zip (map f l) (map g l) = map (λ x, (f x, g x)) l.
Proof. induction l as [|x l IH]; cbn; [done|]. by f_equal. Qed.

Lemma analyses_hashes l : Forall item_ok l → map st_hash (concat (map it_analyses l)) = hashes_of l.
Proof.
  induction 1 as [|it l Hit Hl IH]; [done|]. unfold hashes_of. cbn [map concat]. rewrite txs_of_cons, !map_app, IH. f_equal.
  rewrite <- (io_txs _ Hit). unfold it_analyses. by rewrite !map_map.
Qed.

Lemma analyses_elem it p : p ∈ it_plan it → planned (it_header it) p ∈ it_analyses it.
Proof. apply list_elem_of_fmap_2. Qed.

Lemma elem_of_analyses l t : t ∈ concat (map it_analyses l) ↔ ∃ it p, it ∈ l ∧ p ∈ it_plan it ∧ t = planned (it_header it) p.
Proof.
  rewrite list_elem_of_In, List.in_concat. setoid_rewrite <- list_elem_of_In. split.
  - intros (x & Hx & Ht). change (map it_analyses l) with (it_analyses <$> l) in Hx.
    apply list_elem_of_fmap in Hx as (it & -> & Hit). unfold it_analyses in Ht. change (map ?f ?x) with (f <$> x) in Ht.
    apply list_elem_of_fmap in Ht as (p & -> & Hp). by exists it, p.
  - intros (it & p & Hit & Hp & ->). exists (it_analyses it). split; [by apply list_elem_of_fmap_2|by apply analyses_elem].
Qed.

Lemma elem_of_txs l t : t ∈ txs_of l ↔ ∃ it, it ∈ l ∧ t ∈ block_txs (it_block it).
Proof.
  unfold txs_of. rewrite list_elem_of_In, List.in_concat. setoid_rewrite <- list_elem_of_In. split.
  - intros (x & Hx & Ht). change (map ?f l) with (f <$> l) in Hx. apply list_elem_of_fmap in Hx as (it & -> & Hit). eauto.
  - intros (it & Hit & Ht). exists (block_txs (it_block it)). split; [|done].
    by apply (list_elem_of_fmap_2 (λ it, block_txs (it_block it))).
Qed.

(** A part of the blocks of a batch is a batch, if it has any. *)
Lemma batch_part l1 l2 l3 :
  Forall item_ok l2 → l2 ≠ [] → batch_ok (map it_hash (l1 ++ l2 ++ l3)) (map it_analyses (l1 ++ l2 ++ l3)) →
  batch_ok (map it_hash l2) (map it_analyses l2).
Proof.
  intros Hok Hne [[_ Hb Ht (Hm1 & Hm2 & Hm3)] _ Hnb Hns Hna].
  assert (∀ T (g : list SerializedTx * hash → list T),
    concat (map g (zip (map it_analyses (l1 ++ l2 ++ l3)) (map it_hash (l1 ++ l2 ++ l3))))
    = concat (map g (zip (map it_analyses l1) (map it_hash l1))) ++
      concat (map g (zip (map it_analyses l2) (map it_hash l2))) ++
      concat (map g (zip (map it_analyses l3) (map it_hash l3)))) as Hzip
    by (intros T g; by rewrite !map_zip_map, !map_map, !map_app, !concat_app).
  assert (∀ T (a b c : list (bytes * T)), NoDup (map fst (a ++ b ++ c)) → NoDup (map fst b)) as Hmid
    by (intros T a b c; rewrite !map_app; intros (_ & _ & (Hd & _)%NoDup_app)%NoDup_app; done).
  rewrite !map_app, !concat_app in Ht. apply Forall_app in Ht as [_ [Ht _]%Forall_app].
  rewrite !map_app in Hb, Hnb. apply Forall_app in Hb as [_ [Hb _]%Forall_app].
  apply NoDup_app in Hnb as (_ & _ & Hnb). apply NoDup_app in Hnb as (Hnb & _).
  constructor.
  - constructor; [by rewrite !length_map|done|done|]. unfold spends_count, amends_count in *.
    rewrite !map_app, !concat_app, ?map_app, ?concat_app, !len_app in Hm1.
    rewrite !map_app, !concat_app, ?map_app, ?concat_app, !len_app in Hm2.
    rewrite !map_app, !concat_app, ?map_app, ?concat_app, !len_app in Hm3.
    split_and!; [eapply Z.le_trans; [|exact Hm1]|eapply Z.le_trans; [|exact Hm2]|eapply Z.le_trans; [|exact Hm3]];
      repeat match goal with |- context [len ?x] => lazymatch goal with _ : 0 <= len x |- _ => fail
        | _ => pose proof (len_nonneg x) end end; lia.
  - destruct l2 as [|it l]; [done|]. cbn [map concat]. apply Forall_cons in Hok as [Hit _].
    pose proof (io_script it Hit) as Hs. unfold coinbase_script in Hs. rewrite <- (io_txs it Hit) in Hs.
    unfold it_analyses at 1. by destruct (it_plan it).
  - done.
  - unfold all_spends in Hns. rewrite Hzip in Hns. by apply Hmid in Hns.
  - unfold all_amends in Hna. rewrite Hzip in Hna. by apply Hmid in Hna.
Qed.

Lemma outputs_read d t :
  contents (TXOUTS_DB d) !! tx_hash t = Some (encode_array (txouts t)) →
  Forall valid (txouts t) → vec_ok (txouts t) → slice_ok (encode_array (txouts t)) →
  get_transaction_outputs d (tx_hash t) = Ok (txouts t).
Proof.
  intros Hc Hv Hvec Hs. unfold get_transaction_outputs. pose proof (length_varint_range (len (txouts t))) as Hr.
  pose proof (len_nonneg (concat (map encode (txouts t)))). pose proof (len_encode_array (txouts t)) as Hlen.
  erewrite with_data_Ok; [|exact Hc|intros Hn; rewrite Hn in Hlen; change (len []) with 0 in Hlen; lia].
  rewrite <- (app_nil_r (encode_array (txouts t))) at 1.
  rewrite deserialize_array_owned_encode; [done|done| |done|by rewrite app_nil_r].
  assert (len (txouts t) <= len (encode_array (txouts t))) as Hle; [|unfold slice_ok in Hs; lia].
  rewrite Hlen. trans (len (concat (map encode (txouts t)))); [|lia]. clear.
  induction (txouts t) as [|o l IH]; [done|]. cbn [map concat]. rewrite len_app, len_cons.
  assert (1 <= len (encode o)); [|lia]. cbn. rewrite len_app, len_to_le. pose proof (len_nonneg (encode_varstr (txout_script o))). lia.
Qed.

Lemma write_stores {M} d stored prev rest asciis (metrics : list M) a d' marks a' :
  chain_ok → chain = stored ++ prev ++ rest → prev ≠ [] → stores d stored →
  length asciis = length prev → length metrics = length prev → arena_wf a →
  batch_need (map it_hash prev) (map it_analyses prev) <= free a →
  write_analyzed_txs d (map it_hash prev) (map it_analyses prev) asciis metrics a = Ok (d', marks, a') →
  stores d' (stored ++ prev).
Proof.
  intros Hchain Hsplit Hne [Ho Hb Ht Hx] Hla Hlm Hwf Hf Hw.
  pose proof (co_items Hchain) as Hitems. rewrite Hsplit in Hitems. apply Forall_app in Hitems as [_ [Hprev _]%Forall_app].
  pose proof (co_batch Hchain) as Hbatch. pose proof (bo_distinct_blocks _ _ Hbatch) as Hnb.
  rewrite Hsplit in Hbatch. apply batch_part in Hbatch; [|done..].
  pose proof (co_distinct Hchain) as Hnd. rewrite Hsplit, !hashes_of_app in Hnd.
  apply NoDup_app in Hnd as (_ & Hnp & Hnd). apply NoDup_app in Hnd as (Hnd & _).
  rewrite Hsplit, !map_app in Hnb. apply NoDup_app in Hnb as (_ & Hnbs & _).
  destruct (batch_written d (map it_hash prev) (map it_analyses prev) asciis metrics a)
    as (d2 & a2 & Hw2 & Hq & Hqo & Htx & Hto & _); [done|by rewrite length_map..|done|done| |].
  { apply Forall_map. eapply Forall_impl; [exact Hprev|]. intros it Hit. split.
    - apply Forall_map. eapply Forall_impl; [exact (io_analyzable it Hit)|]. intros p [Han _]. by apply planned_stored.
    - unfold it_analyses. rewrite len_map. apply (io_count it Hit). }
  rewrite Hw in Hw2. injection Hw2 as <- _ _. rewrite Forall_forall in Hprev.
  pose proof (analyses_hashes prev) as Hah. rewrite Forall_forall in Hah. specialize (Hah Hprev).
  assert (∀ t, t ∈ concat (map it_analyses prev) → contents (TXS_DB d') !! st_hash t = st_analyzed_tx t ∧
    contents (TXOUTS_DB d') !! st_hash t = st_tx_outs t) as Hin.
  { intros t Hin. rewrite <- Hah in Hnd. destruct (proj1 Htx t Hin) as (t1 & Ht1 & He1 & ->), (proj1 Hto t Hin) as (t2 & Ht2 & He2 & ->).
    by rewrite (NoDup_map_inj st_hash _ t1 t Hnd), (NoDup_map_inj st_hash _ t2 t Hnd). }
  destruct Htx as [_ Htx], Hto as [_ Hto]. rewrite Hah in Htx, Hto.
  assert (∀ h, h ∈ hashes_of stored → h ∉ hashes_of prev) as Hsp
    by (intros h Hh Hp; apply (Hnp h Hh); rewrite elem_of_app; tauto).
  constructor.
  - intros t. rewrite txs_of_app, elem_of_app. intros [Hs|Hp].
    + rewrite <- (Ho t Hs). apply outputs_same. by apply Hto, Hsp, hash_in.
    + apply elem_of_txs in Hp as (it & Hit & Hp). pose proof (Hprev it Hit) as Hok.
      pose proof (io_outputs it Hok) as Hout. rewrite Forall_forall in Hout. destruct (Hout t Hp) as (Hv & Hvec & Hsl).
      apply outputs_read; [|done..]. rewrite <- (io_txs it Hok) in Hp. change (map tp_tx ?l) with (tp_tx <$> l) in Hp.
      apply list_elem_of_fmap in Hp as (p & -> & Hp).
      destruct (Hin (planned (it_header it) p)) as [_ Hc]; [apply elem_of_analyses; by exists it, p|exact Hc].
  - intros it. rewrite elem_of_app. intros [Hs|Hp].
    + rewrite <- (Hb it Hs). apply Hqo. intros Hi. apply (Hnbs (it_hash it)); [by apply list_elem_of_fmap_2|].
      apply elem_of_app. by left.
    + apply list_elem_of_lookup in Hp as [i Hi]. apply (Hq i); change (map ?f prev) with (f <$> prev); by rewrite list_lookup_fmap, Hi.
  - intros it p. rewrite elem_of_app. intros [Hs|Hp] Hpl.
    + rewrite <- (Ht it p Hs Hpl). apply Htx, Hsp. rewrite <- (analyses_hashes stored).
      * change (tx_hash (tp_tx p)) with (st_hash (planned (it_header it) p)). apply list_elem_of_fmap_2.
        apply elem_of_analyses. by exists it, p.
      * pose proof (co_items Hchain) as Hitems. rewrite Hsplit in Hitems. by apply Forall_app in Hitems as [? _].
    + apply (Hin (planned (it_header it) p)). apply elem_of_analyses. by exists it, p.
  - intros h Hh. rewrite <- (Hx h Hh). apply Hto. rewrite Hsplit, !hashes_of_app, !elem_of_app in Hh. tauto.
Qed.

(** * The invariant *)

(** The metrics of a block: the sums, and bounds on the fee rates. *)
Definition metrics_ok (it : Item) (m : BlockMetrics) : Prop :=
  fees_total m = wrap64 (sumZ (map st_fee (it_analyses it))) ∧
  volume m = wrap64 (sumZ (map st_txouts_sum (it_analyses it))) ∧ txs_count m = len (block_txs (it_block it)) ∧
  ∀ st, st ∈ tail (it_analyses it) → rate_le (lowest_fee_rate m) (fee_rate st) ∧ rate_le (fee_rate st) (highest_fee_rate m).

Definition task_ok (s : ChainSyncState) (j : nat) (it : Item) (t : Task) : Prop :=
  tk_block t = it_block it ∧ tk_index t = Z.of_nat j ∧
  match tk_phase t with
  | Spawned => True
  | Fetched deps => deps = concat (map (plan_disk s) (it_plan it))
  | Analyzed analyzed metrics ascii => analyzed = it_analyses it ∧ metrics_ok it metrics ∧ ascii = it_script it
  | Ended => current_analyzed s !! j = Some (it_analyses it) ∧ coinbase_asciis s !! j = Some (it_script it) ∧
      ∃ m, current_metrics s !! j = Some m ∧ metrics_ok it m
  end.

Definition flush_ok (f : Flush) (l : list Item) : Prop :=
  fl_blocks f = map it_hash l ∧ fl_analyzed f = map it_analyses l ∧ fl_asciis f = map it_script l ∧
  Forall2 metrics_ok l (fl_metrics f) ∧ arena_wf (fl_arena f) ∧ l ≠ [].

Record sync_inv (stored prev cur rest : list Item) (y : Sync) : Prop := {
  si_split : chain = stored ++ prev ++ cur ++ rest;
  si_recv : sy_recv y = map it_block rest;
  si_current : holds (current_txouts (sy_state y)) cur;
  si_previous : holds (previous_txouts (sy_state y)) prev;
  si_arenas : arena_wf (sy_arena y) ∧ arena_wf (sy_previous_arena y);
  si_blocks : sy_blocks y = map it_hash cur;
  si_count : length (sy_tasks y) = length cur ∧ length (current_analyzed (sy_state y)) = length cur ∧
    length (current_metrics (sy_state y)) = length cur ∧ length (coinbase_asciis (sy_state y)) = length cur;
  si_tasks : ∀ j it t, cur !! j = Some it → sy_tasks y !! j = Some t → task_ok (sy_state y) j it t;
  si_flush : match sy_flush y with
             | None => stores (sy_db y) (stored ++ prev)
             | Some f => stores (sy_db y) stored ∧ flush_ok f prev
             end;
}.

(** The arenas have room for what is put there next. *)
Definition roomy (y : Sync) : Prop :=
  (∀ it, it ∈ chain → block_need (it_header it) (it_plan it) (it_script it) <= free (sy_arena y)) ∧
  (∀ f, sy_flush y = Some f → batch_need (fl_blocks f) (fl_analyzed f) <= free (fl_arena f)).

Lemma stores_l d l k : stores d (l ++ k) → stores d l.
Proof.
  intros [Ho Hb Ht Hx]. constructor; [|..|done].
  - intros t Hin. apply Ho. rewrite txs_of_app, elem_of_app. by left.
  - intros it Hin. apply Hb, elem_of_app. by left.
  - intros it p Hin. apply Ht, elem_of_app. by left.
Qed.

Section steps.
Context (Hchain : chain_ok).

Lemma inv_stores stored prev cur rest y : sync_inv stored prev cur rest y → stores (sy_db y) stored.
Proof. intros Hi. pose proof (si_flush _ _ _ _ _ Hi) as Hf. destruct (sy_flush y); [by destruct Hf|by eapply stores_l]. Qed.

(** The item of a task. *)
Lemma task_item stored prev cur rest y before t after :
  sync_inv stored prev cur rest y → sy_tasks y = before ++ t :: after →
  ∃ it, cur !! length before = Some it ∧ it ∈ chain ∧ item_ok it ∧ task_ok (sy_state y) (length before) it t ∧
    ∀ d, stores d stored → Forall (plan_ok d (sy_state y)) (it_plan it).
Proof.
  intros Hi Ht. assert (sy_tasks y !! length before = Some t) as Hl by (rewrite Ht; by apply list_lookup_middle).
  destruct (lookup_lt_is_Some_2 cur (length before)) as [it Hit].
  { destruct (si_count _ _ _ _ _ Hi) as [<- _]. by eapply lookup_lt_Some. }
  assert (it ∈ chain) as Hin.
  { rewrite (si_split _ _ _ _ _ Hi), !elem_of_app. right. right. left. by eapply list_elem_of_lookup_2. }
  exists it. split_and!; [done|done| |by eapply si_tasks|].
  - apply (proj1 (Forall_forall _ _) (co_items Hchain)). done.
  - intros d Hd. apply list_elem_of_split_length in Hit as (l1 & l2 & Hcur & _).
    by apply (plan_now Hchain _ _ _ _ (si_split _ _ _ _ _ Hi) d _ (si_current _ _ _ _ _ Hi) (si_previous _ _ _ _ _ Hi) l1 it l2).
Qed.

(** A task that goes on, while the state stays as it is. *)
Lemma inv_set_task stored prev cur rest y before t after phase it :
  sync_inv stored prev cur rest y → sy_tasks y = before ++ t :: after →
  cur !! length before = Some it → task_ok (sy_state y) (length before) it (set_phase t phase) →
  sync_inv stored prev cur rest (set_tasks y (before ++ set_phase t phase :: after)).
Proof.
  intros [] Ht Hit Hok. constructor; cbn; try done.
  - rewrite Ht in si_count0. rewrite !length_app in *. done.
  - intros j it' t' Hj Ht'. destruct (decide (j = length before)) as [->|Hne].
    + rewrite list_lookup_middle in Ht' by done. injection Ht' as <-. rewrite Hit in Hj. by injection Hj as <-.
    + apply si_tasks0; [done|]. rewrite Ht. rewrite <- Ht'. destruct (decide (j < length before)%nat).
      * by rewrite !lookup_app_l by lia.
      * rewrite !lookup_app_r by lia. destruct (j - length before)%nat eqn:E; [lia|done].
Qed.

Lemma fetch_now stored prev cur rest y before t after :
  sync_inv stored prev cur rest y → sy_tasks y = before ++ t :: after →
  ∃ it, cur !! length before = Some it ∧ tk_block t = it_block it ∧ tk_index t = Z.of_nat (length before) ∧
    fetch_missing_dependencies (sy_db y) (sy_state y) (tk_block t) = Ok (concat (map (plan_disk (sy_state y)) (it_plan it))).
Proof.
  intros Hi Ht. destruct (task_item _ _ _ _ _ _ _ _ Hi Ht) as (it & Hit & _ & Hok & (Hb & Hx & _) & Hplan).
  exists it. split_and!; [done..|]. rewrite Hb. apply fetch_plan; [apply Hok| |done].
  apply Hplan. by eapply inv_stores.
Qed.

Lemma accept_Ok block s a s' index a' :
  arena_wf a → Forall (λ t, slice_ok (encode_array (txouts t))) (block_txs block) →
  accept_block s block a = Ok (s', index, a') →
  (s', index) = reserve_index s (insert_all (current_txouts s) (block_txs block)) ∧ arena_wf a'.
Proof.
  intros Hwf Hs Hr. unfold accept_block in Hr. apply bind_amonad_Ok in Hr as (m & a1 & Hm & Hr).
  apply insert_transactions_Ok in Hm as [-> Hwf']; [|done..]. injection Hr as <- <- <-. by split.
Qed.

Lemma inv_receive stored prev cur rest block recv s a blocks tasks flush previous d s' index a' :
  sync_inv stored prev cur rest (mkSync (block :: recv) s a blocks tasks flush previous d) →
  accept_block s block a = Ok (s', index, a') →
  ∃ it rest', rest = it :: rest' ∧
    sync_inv stored prev (cur ++ [it]) rest'
      (mkSync recv s' a' (blocks ++ [bh_hash (block_header block)]) (tasks ++ [mkTask block index Spawned]) flush previous d).
Proof.
  intros [] Hr. cbn in *. destruct rest as [|it rest]; [done|]. injection si_recv0 as -> ->. exists it, rest. split; [done|].
  assert (item_ok it) as Hok.
  { apply (proj1 (Forall_forall _ _) (co_items Hchain)). rewrite si_split0, !elem_of_app. do 3 right. by left. }
  destruct si_arenas0 as [Hwf Hwf2]. destruct si_count0 as (Hc1 & Hc2 & Hc3 & Hc4).
  apply accept_Ok in Hr as [Hr Hwf']; [|done|].
  2: { eapply Forall_impl; [exact (io_outputs it Hok)|]. by intros t (_ & _ & ?). }
  injection Hr as -> ->.
  assert (holds (insert_all (current_txouts s) (block_txs (it_block it))) (cur ++ [it])) as Hholds.
  { apply holds_insert; [done|]. pose proof (co_distinct Hchain) as Hnd. rewrite si_split0, !hashes_of_app in Hnd.
    apply NoDup_app in Hnd as (_ & _ & Hnd). apply NoDup_app in Hnd as (_ & _ & Hnd).
    change (it :: rest) with ([it] ++ rest) in Hnd. rewrite hashes_of_app, app_assoc in Hnd.
    rewrite hashes_of_app. by apply NoDup_app in Hnd as (? & _). }
  constructor; cbn; rewrite ?length_app; cbn; try done.
  - rewrite si_split0. by rewrite <- !app_assoc.
  - rewrite si_blocks0. by rewrite map_app.
  - lia.
  - intros j it' t Hj Ht. apply lookup_app_Some in Ht as [Ht|[Hge Ht]].
    + rewrite lookup_app_l in Hj by (apply lookup_lt_Some in Ht; lia). destruct (si_tasks0 j it' t Hj Ht) as (Hb & Hx & Hph).
      split_and!; [done..|]. destruct (tk_phase t) as [|deps| |]; [done| |done|].
      * rewrite Hph. f_equal. apply list_elem_of_split_length in Hj as (l1 & l2 & Hcur & _). subst cur. symmetry.
        by apply (disk_stable s _ stored prev l1 it' l2 it rest).
      * destruct Hph as (Hp1 & Hp2 & m & Hp3 & Hp4). cbn.
        split; [by apply lookup_app_l_Some|]. split; [by apply lookup_app_l_Some|]. exists m. split; [by apply lookup_app_l_Some|done].
    + apply list_lookup_singleton_Some in Ht as [Hz <-]. assert (j = length cur) as -> by lia.
      rewrite list_lookup_middle in Hj by done. injection Hj as <-. split_and!; [done| |done]. cbn. unfold len. lia.
Qed.

Lemma inv_analyze stored prev cur rest recv s a blocks before t after flush previous d deps analyzed metrics ascii a' :
  let y := mkSync recv s a blocks (before ++ t :: after) flush previous d in
  sync_inv stored prev cur rest y → roomy y → tk_phase t = Fetched deps →
  analyze_block s (tk_block t) deps a = Finished (Ok (analyzed, metrics, ascii, a')) →
  sync_inv stored prev cur rest
    (mkSync recv s a' blocks (before ++ set_phase t (Analyzed analyzed metrics ascii) :: after) flush previous d).
Proof.
  intros y Hi [Hroom _] Hph Ha. destruct (task_item _ _ _ _ _ _ _ _ Hi eq_refl) as (it & Hit & Hin & Hok & (Hb & Hx & Ht) & Hplan).
  rewrite Hph in Ht. subst deps. rewrite Hb in Ha.
  assert (arena_wf a) as Hwf by apply (si_arenas _ _ _ _ _ Hi).
  destruct (analyze_block_spec d (it_block it) s a (it_plan it) (it_script it)) as (m & a2 & Ha2 & Hwf2 & Hm);
    [apply (io_txs _ Hok)|apply (Hplan d); by apply (inv_stores _ _ _ _ _ Hi)|apply (io_hash _ Hok)|apply (io_script _ Hok)
    |apply (io_count _ Hok)|done|by apply Hroom|apply (io_rates _ Hok)|].
  cbn [sy_state y] in Ha. rewrite Ha in Ha2. injection Ha2 as -> -> -> <-.
  assert (sync_inv stored prev cur rest (set_tasks y (before ++ set_phase t (Analyzed (it_analyses it) m (it_script it)) :: after)))
    as [] by (apply (inv_set_task _ _ _ _ _ _ _ _ _ it Hi); [done..|split_and!; done]).
  constructor; cbn in *; try done. split; [done|apply si_arenas0].
Qed.

Lemma plan_disk_same s s' plan :
  current_txouts s' = current_txouts s → previous_txouts s' = previous_txouts s →
  map (plan_disk s') plan = map (plan_disk s) plan.
Proof.
  intros Hc Hp. apply map_ext. intros p. unfold plan_disk. apply from_disk_same. intros txin _. unfold in_maps.
  by rewrite Hc, Hp.
Qed.

Lemma inv_results stored prev cur rest recv s a blocks before t after flush previous d analyzed metrics ascii s' :
  sync_inv stored prev cur rest (mkSync recv s a blocks (before ++ t :: after) flush previous d) →
  tk_phase t = Analyzed analyzed metrics ascii → set_results s (tk_index t) analyzed metrics ascii = Ok s' →
  sync_inv stored prev cur rest (mkSync recv s' a blocks (before ++ set_phase t Ended :: after) flush previous d).
Proof.
  intros Hi Hph Hs. destruct (task_item _ _ _ _ _ _ _ _ Hi eq_refl) as (it & Hit & _ & _ & (Hb & Hx & Ht) & _).
  rewrite Hph in Ht. destruct Ht as (-> & Hm & ->). unfold set_results in Hs. case_match; [|done]. injection Hs as <-.
  rewrite Hx, Nat2Z.id. destruct Hi as []. cbn in *. destruct si_count0 as (Hc1 & Hc2 & Hc3 & Hc4).
  pose proof (lookup_lt_Some _ _ _ Hit) as Hlt.
  constructor; cbn; rewrite ?length_insert; try done.
  - rewrite length_app in *. done.
  - intros j it' t' Hj Ht'. destruct (decide (j = length before)) as [->|Hne].
    + rewrite list_lookup_middle in Ht' by done. injection Ht' as <-. rewrite Hit in Hj. injection Hj as <-.
      split_and!; [done..|]. cbn. rewrite !list_lookup_insert_eq by lia. split_and!; [done..|]. by exists metrics.
    + assert ((before ++ t :: after) !! j = Some t') as Ht0.
      { rewrite <- Ht'. destruct (decide (j < length before)%nat).
        - by rewrite !lookup_app_l by lia.
        - rewrite !lookup_app_r by lia. destruct (j - length before)%nat eqn:E; [lia|done]. }
      destruct (si_tasks0 j it' t' Hj Ht0) as (Hb' & Hx' & Hph'). split_and!; [done..|].
      destruct (tk_phase t'); [done| |done|].
      * rewrite Hph'. f_equal. by apply plan_disk_same.
      * cbn. by rewrite !list_lookup_insert_ne by done.
Qed.

(** The results of a batch whose tasks have ended. *)
Lemma batch_results stored prev cur rest y :
  sync_inv stored prev cur rest y → Forall (λ t, tk_phase t = Ended) (sy_tasks y) →
  current_analyzed (sy_state y) = map it_analyses cur ∧ coinbase_asciis (sy_state y) = map it_script cur ∧
  Forall2 metrics_ok cur (current_metrics (sy_state y)).
Proof.
  intros [] Hend. destruct si_count0 as (Hc1 & Hc2 & Hc3 & Hc4). rewrite Forall_forall in Hend.
  assert (∀ j it, cur !! j = Some it → current_analyzed (sy_state y) !! j = Some (it_analyses it) ∧
    coinbase_asciis (sy_state y) !! j = Some (it_script it) ∧
    ∃ m, current_metrics (sy_state y) !! j = Some m ∧ metrics_ok it m) as Hj.
  { intros j it Hit. destruct (lookup_lt_is_Some_2 (sy_tasks y) j) as [t Ht]; [rewrite Hc1; by eapply lookup_lt_Some|].
    destruct (si_tasks0 j it t Hit Ht) as (_ & _ & Hph). rewrite (Hend t) in Hph by (by eapply list_elem_of_lookup_2). done. }
  split_and!.
  - apply list_eq. intros j. change (map it_analyses cur) with (it_analyses <$> cur). rewrite list_lookup_fmap.
    destruct (cur !! j) as [it|] eqn:E; cbn; [by apply Hj|]. apply lookup_ge_None. apply lookup_ge_None in E. lia.
  - apply list_eq. intros j. change (map it_script cur) with (it_script <$> cur). rewrite list_lookup_fmap.
    destruct (cur !! j) as [it|] eqn:E; cbn; [by apply Hj|]. apply lookup_ge_None. apply lookup_ge_None in E. lia.
  - apply Forall2_same_length_lookup_2; [by rewrite Hc3|]. intros j it m Hit Hm.
    destruct (Hj j it Hit) as (_ & _ & m' & Hm' & Hok). rewrite Hm in Hm'. by injection Hm' as <-.
Qed.

Lemma inv_next stored prev cur rest recv s a blocks tasks previous d :
  sync_inv stored prev cur rest (mkSync recv s a blocks tasks None previous d) →
  blocks ≠ [] → Forall (λ t, tk_phase t = Ended) tasks →
  sync_inv (stored ++ prev) cur [] rest
    (mkSync recv (next_state s) (reset previous) [] []
       (Some (mkFlush blocks (current_analyzed s) (coinbase_asciis s) (current_metrics s) a)) a d).
Proof.
  intros Hi Hne Hend. destruct (batch_results _ _ _ _ _ Hi Hend) as (Ha & Has & Hm). destruct Hi as []. cbn in *.
  destruct si_arenas0 as [Hwf Hwf2]. constructor; cbn; try done.
  - rewrite si_split0. by rewrite <- !app_assoc.
  - apply holds_empty.
  - split; [|done]. unfold arena_wf in *. cbn. lia.
  - split; [done|]. split_and!; [done..|]. intros ->. done.
Qed.

Lemma inv_write stored prev cur rest y f d' marks a' :
  sync_inv stored prev cur rest y → roomy y → sy_flush y = Some f →
  write_analyzed_txs (sy_db y) (fl_blocks f) (fl_analyzed f) (fl_asciis f) (fl_metrics f) (fl_arena f) = Ok (d', marks, a') →
  sync_inv stored prev cur rest
    (mkSync (sy_recv y) (sy_state y) (sy_arena y) (sy_blocks y) (sy_tasks y) None (sy_previous_arena y) d').
Proof.
  intros [] [_ Hroom] Hf Hw. specialize (Hroom f Hf). rewrite Hf in si_flush0.
  destruct si_flush0 as [Hd (Hb & Ha & Has & Hm & Hwf & Hne)]. rewrite Hb, Ha in *.
  constructor; cbn; try done. apply (write_stores (sy_db y) stored prev (cur ++ rest) (fl_asciis f) (fl_metrics f) (fl_arena f) d' marks a'); try done.
  - by rewrite Has, length_map.
  - symmetry. by eapply Forall2_length.
Qed.

Definition sync_ok (y : Sync) : Prop := ∃ stored prev cur rest, sync_inv stored prev cur rest y.

(** A step of a state with room. *)
Definition roomy_step (y y' : Sync) : Prop := roomy y ∧ sync_step y y'.

Lemma step_ok y y' : sync_ok y → roomy_step y y' → sync_ok y'.
Proof.
  intros (stored & prev & cur & rest & Hi) [Hroom Hstep]. destruct Hstep.
  - match goal with Ha : accept_block _ _ _ = _ |- _ =>
      destruct (inv_receive _ _ _ _ _ _ _ _ _ _ _ _ _ _ _ _ Hi Ha) as (it & rest' & -> & Hi') end.
    by exists stored, prev, (cur ++ [it]), rest'.
  - match goal with Ht : sy_tasks _ = _ |- _ =>
      destruct (fetch_now _ _ _ _ _ _ _ _ Hi Ht) as (it & Hit & Hb & Hx & Hf);
      exists stored, prev, cur, rest; eapply inv_set_task; [exact Hi|exact Ht|exact Hit|] end.
    split_and!; [done..|]. cbn. congruence.
  - exfalso. match goal with Ht : sy_tasks _ = _ |- _ =>
      destruct (fetch_now _ _ _ _ _ _ _ _ Hi Ht) as (it & Hit & Hb & Hx & Hf) end. congruence.
  - exists stored, prev, cur, rest. by eapply inv_analyze.
  - exists stored, prev, cur, rest. by eapply inv_results.
  - exists (stored ++ prev), cur, [], rest. by eapply inv_next.
  - exists stored, prev, cur, rest. by eapply inv_write.
Qed.

(** The start: nothing was received. *)
Definition sync_start (a previous : Arena) : Sync :=
  mkSync (map it_block chain) (mkChainSyncState ∅ ∅ [] [] []) a [] [] None previous d0.

Lemma start_ok a previous : arena_wf a → arena_wf previous → sync_ok (sync_start a previous).
Proof.
  intros Ha Hp. exists [], [], [], chain. constructor; cbn; try done; try apply holds_empty.
  constructor; [|..|done]; intros; by match goal with Hx : _ ∈ _ |- _ => apply elem_of_nil in Hx end.
Qed.

Lemma reachable_ok a previous y :
  arena_wf a → arena_wf previous → rtc roomy_step (sync_start a previous) y → sync_ok y.
Proof.
  intros Ha Hp Hr. pose proof (start_ok a previous Ha Hp) as Hok. induction Hr as [|y y1 y' Hs _ IH]; [done|].
  apply IH. by eapply step_ok.
Qed.

(** ** Progress *)

Definition rank (t : Task) : nat :=
  match tk_phase t with Spawned => 0 | Fetched _ => 1 | Analyzed _ _ _ => 2 | Ended => 3 end.

Lemma task_goes_on stored prev cur rest y before t after :
  sync_inv stored prev cur rest y → roomy y → sy_tasks y = before ++ t :: after → tk_phase t ≠ Ended →
  ∃ y' t', sync_step y y' ∧ sy_tasks y' = before ++ t' :: after ∧ tk_block t' = tk_block t ∧ rank t' = S (rank t).
Proof.
  intros Hi Hroom Ht Hne. destruct (task_item _ _ _ _ _ _ _ _ Hi Ht) as (it & Hit & Hin & Hok & (Hb & Hx & Hph) & Hplan).
  unfold rank. destruct (tk_phase t) as [|deps|a m script|] eqn:Hp; [| | |done].
  - destruct (fetch_now _ _ _ _ _ _ _ _ Hi Ht) as (it' & _ & _ & _ & Hf). eexists _, (set_phase t (Fetched _)).
    split; [by eapply step_fetch|done].
  - subst deps. destruct y as [recv s arena blocks tasks flush previous d]. cbn in *. subst tasks.
    destruct (analyze_block_spec d (it_block it) s arena (it_plan it) (it_script it)) as (m & a2 & Ha & _);
      [apply (io_txs _ Hok)|apply (Hplan d); by apply (inv_stores _ _ _ _ _ Hi)|apply (io_hash _ Hok)|apply (io_script _ Hok)
      |apply (io_count _ Hok)|apply (si_arenas _ _ _ _ _ Hi)|by apply Hroom|apply (io_rates _ Hok)|].
    rewrite <- Hb in Ha at 1. eexists _, (set_phase t (Analyzed _ _ _)). split; [by eapply step_analyze|done].
  - destruct y as [recv s arena blocks tasks flush previous d]. cbn in *. subst tasks.
    assert (∃ s', set_results s (tk_index t) a m script = Ok s') as [s' Hs].
    { unfold set_results. destruct (si_count _ _ _ _ _ Hi) as (_ & Hc2 & Hc3 & Hc4). cbn in Hc2, Hc3, Hc4.
      apply lookup_lt_Some in Hit. unfold len. rewrite Hx, Hc2, Hc3, Hc4.
      rewrite (proj2 (Z.leb_le _ _)), !(proj2 (Z.ltb_lt _ _)) by lia. by eexists. }
    eexists _, (set_phase t Ended). split; [by eapply step_results|done].
Qed.

Lemma write_goes_on stored prev cur rest y f :
  sync_inv stored prev cur rest y → roomy y → sy_flush y = Some f → ∃ y', sync_step y y' ∧ sy_flush y' = None.
Proof.
  intros [] [_ Hroom] Hf. specialize (Hroom f Hf). rewrite Hf in si_flush0. destruct si_flush0 as [Hd (Hb & Ha & Has & Hm & Hwf & Hne)].
  pose proof (co_batch Hchain) as Hbatch. rewrite si_split0 in Hbatch. apply batch_part in Hbatch; [|..|done].
  2: { pose proof (co_items Hchain) as Hitems. rewrite si_split0 in Hitems. by apply Forall_app in Hitems as [_ [? _]%Forall_app]. }
  rewrite <- Hb, <- Ha in Hbatch.
  destruct (write_batch_spec (sy_db y) (fl_blocks f) (fl_analyzed f) (fl_asciis f) (fl_metrics f) (fl_arena f)) as (a' & Hw);
    [apply (bo_formed _ _ Hbatch)|by rewrite Has, Hb, !length_map|rewrite Hb, length_map; symmetry; by eapply Forall2_length|done..|].
  eexists. split; [by eapply step_write|done].
Qed.
End steps.

(** ** Running the steps *)

Inductive Action := Receive | Fetch (i : nat) | Analyze (i : nat) | Results (i : nat) | NextBatch | WriteBatch.

(** The task at a place, with those before and after it. *)
Definition at_task (i : nat) (tasks : list Task) : option (list Task * Task * list Task) :=
  t ← tasks !! i; Some (take i tasks, t, drop (S i) tasks).

Definition run_action (y : Sync) (act : Action) : option Sync :=
  let '(mkSync recv s arena blocks tasks flush previous d) := y in
  match act with
  | Receive =>
      match recv with
      | block :: recv =>
          match accept_block s block arena with
          | Ok (s', index, arena') =>
              if len blocks <? max_blocks_per_flush
              then Some (mkSync recv s' arena' (blocks ++ [bh_hash (block_header block)])
                           (tasks ++ [mkTask block index Spawned]) flush previous d)
              else None
          | _ => None
          end
      | [] => None
      end
  | Fetch i =>
      '(before, t, after) ← at_task i tasks;
      match tk_phase t, fetch_missing_dependencies d s (tk_block t) with
      | Spawned, Ok deps => Some (set_tasks y (before ++ set_phase t (Fetched deps) :: after))
      | _, _ => None
      end
  | Analyze i =>
      '(before, t, after) ← at_task i tasks;
      match tk_phase t with
      | Fetched deps =>
          match analyze_block s (tk_block t) deps arena with
          | Finished (Ok (analyzed, metrics, ascii, arena')) =>
              Some (mkSync recv s arena' blocks (before ++ set_phase t (Analyzed analyzed metrics ascii) :: after)
                      flush previous d)
          | _ => None
          end
      | _ => None
      end
  | Results i =>
      '(before, t, after) ← at_task i tasks;
      match tk_phase t with
      | Analyzed analyzed metrics ascii =>
          match set_results s (tk_index t) analyzed metrics ascii with
          | Ok s' => Some (mkSync recv s' arena blocks (before ++ set_phase t Ended :: after) flush previous d)
          | _ => None
          end
      | _ => None
      end
  | NextBatch =>
      if negb (len blocks =? 0) && forallb (λ t, match tk_phase t with Ended => true | _ => false end) tasks
      then match flush with
           | None => Some (mkSync recv (next_state s) (reset previous) [] []
                             (Some (mkFlush blocks (current_analyzed s) (coinbase_asciis s) (current_metrics s) arena)) arena d)
           | Some _ => None
           end
      else None
  | WriteBatch =>
      f ← flush;
      match write_analyzed_txs d (fl_blocks f) (fl_analyzed f) (fl_asciis f) (fl_metrics f) (fl_arena f) with
      | Ok (d', _, _) => Some (mkSync recv s arena blocks tasks None previous d')
      | _ => None
      end
  end.

Definition roomyb (y : Sync) : bool :=
  forallb (λ it, block_need (it_header it) (it_plan it) (it_script it) <=? free (sy_arena y)) chain &&
  match sy_flush y with
  | Some f => batch_need (fl_blocks f) (fl_analyzed f) <=? free (fl_arena f)
  | None => true
  end.

Fixpoint run (acts : list Action) (y : Sync) : option Sync :=
  match acts with
  | [] => Some y
  | act :: acts => if roomyb y then y' ← run_action y act; run acts y' else None
  end.

Lemma at_task_spec i tasks before t after : at_task i tasks = Some (before, t, after) → tasks = before ++ t :: after.
Proof.
  unfold at_task. destruct (tasks !! i) as [t'|] eqn:Ht; [|done]. cbn. intros [= <- <- <-]. symmetry. by apply take_drop_middle.
Qed.

Lemma run_action_step y act y' : run_action y act = Some y' → sync_step y y'.
Proof.
  destruct y as [recv s arena blocks tasks flush previous d], act as [|i|i|i| |]; cbn [run_action]; intros Hr.
  - destruct recv as [|block recv]; [done|]. destruct (accept_block s block arena) as [[[s' index] arena']| | |] eqn:Ha; [|done..].
    destruct (Z.ltb_spec (len blocks) max_blocks_per_flush); [|done]. injection Hr as <-. by apply step_receive.
  - destruct (at_task i tasks) as [[[before t] after]|] eqn:Ht; [|done]. cbn [mbind option_bind] in Hr.
    destruct (tk_phase t) eqn:Hp; try done.
    destruct (fetch_missing_dependencies d s (tk_block t)) eqn:Hf; try done. injection Hr as <-.
    apply at_task_spec in Ht. by apply (step_fetch (mkSync recv s arena blocks tasks flush previous d)).
  - destruct (at_task i tasks) as [[[before t] after]|] eqn:Ht; [|done]. cbn [mbind option_bind] in Hr.
    destruct (tk_phase t) eqn:Hp; try done. apply at_task_spec in Ht as ->.
    destruct (analyze_block s (tk_block t) _ arena) as [[[[[a m] c] arena']| | |]|] eqn:Ha; try done.
    injection Hr as <-. by eapply step_analyze.
  - destruct (at_task i tasks) as [[[before t] after]|] eqn:Ht; [|done]. cbn [mbind option_bind] in Hr.
    destruct (tk_phase t) eqn:Hp; try done. apply at_task_spec in Ht as ->.
    destruct (set_results s _ _ _ _) eqn:Hs; try done. injection Hr as <-. by eapply step_results.
  - destruct (negb (len blocks =? 0) && _) eqn:Hb; [|done]. destruct flush; [done|]. injection Hr as <-.
    apply andb_true_iff in Hb as [Hn Hb]. apply step_next.
    + intros ->. done.
    + apply Forall_forall. intros t Ht%list_elem_of_In. rewrite List.forallb_forall in Hb. specialize (Hb t Ht). by destruct (tk_phase t).
  - destruct flush as [f|]; [|done]. cbn [mbind option_bind] in Hr.
    destruct (write_analyzed_txs d _ _ _ _ _) as [[[d' marks] arena']| | |] eqn:Hw; try done. injection Hr as <-.
    by eapply (step_write (mkSync recv s arena blocks tasks (Some f) previous d)).
Qed.

Lemma roomyb_ok y : roomyb y = true → roomy y.
Proof.
  unfold roomyb. rewrite andb_true_iff, List.forallb_forall. intros [Hc Hf]. split.
  - intros it Hit%list_elem_of_In. by apply Z.leb_le, Hc.
  - intros f Hs. rewrite Hs in Hf. by apply Z.leb_le.
Qed.

Lemma run_steps acts : ∀ y y', run acts y = Some y' → rtc roomy_step y y'.
Proof.
  induction acts as [|act acts IH]; intros y y'; cbn [run]; [intros [= <-]; done|].
  destruct (roomyb y) eqn:Hy; [|done]. destruct (run_action y act) as [y1|] eqn:Hr; [|done]. cbn [mbind option_bind]. intros Hrun.
  eapply rtc_l; [|by apply IH]. split; [by apply roomyb_ok|by eapply run_action_step].
Qed.

(** * Properties *)

(** C7. A chain of blocks goes through the writer, in batches cut anywhere and with their tasks in any order. Its
    transactions have distinct ids (in Bitcoin two pairs of coinbases have not, see BIP 30) and spend outputs
    of the database, of earlier blocks or of their own; each has a signature cost and a fee rate that can be
    computed, each block a coinbase script; and no two rows of spends or of amends have the same key. The steps
    that are followed are those with room in the arenas and in which the outputs of a block that comes can be
    copied: an output whose script leaves the arena unaligned is undefined behaviour ([Process.unaligned_output_ub])
    and no step. Then at all times the database holds the analyses and the outputs of the blocks of a prefix of
    the chain, just as they follow from the chain itself, and nothing else has changed of the outputs. When
    nothing is left to do, it holds the whole chain. *)
Theorem sync_stores_chain a previous y :
  chain_ok → arena_wf a → arena_wf previous → rtc roomy_step (sync_start a previous) y →
  ∃ stored unwritten, chain = stored ++ unwritten ∧ stores (sy_db y) stored ∧
    (sy_recv y = [] → sy_blocks y = [] → sy_flush y = None → unwritten = []).
Proof.
  intros Hchain Ha Hp Hr. destruct (reachable_ok Hchain a previous y Ha Hp Hr) as (stored & prev & cur & rest & Hi).
  pose proof Hi as []. destruct (sy_flush y) as [f|].
  - exists stored, (prev ++ cur ++ rest). split_and!; [done|by eapply inv_stores|done].
  - exists (stored ++ prev), (cur ++ rest). split_and!; [by rewrite <- !app_assoc|done|]. intros Hrecv Hblocks _.
    rewrite Hrecv in si_recv0. rewrite Hblocks in si_blocks0. by destruct rest, cur.
Qed.

(** No block is dropped: a task that has not ended can always go on with
    its own block, and finds every output it asks for; the write of a batch
    succeeds, and when the tasks of a batch have ended it is written next. *)
Theorem sync_tasks_go_on a previous y :
  chain_ok → arena_wf a → arena_wf previous → rtc roomy_step (sync_start a previous) y → roomy y →
  (∀ before t after, sy_tasks y = before ++ t :: after → tk_phase t ≠ Ended →
     ∃ y' t', sync_step y y' ∧ sy_tasks y' = before ++ t' :: after ∧ tk_block t' = tk_block t ∧ rank t' = S (rank t)) ∧
  (∀ t, t ∈ sy_tasks y → tk_phase t = Spawned →
     ∃ deps, fetch_missing_dependencies (sy_db y) (sy_state y) (tk_block t) = Ok deps) ∧
  (∀ f, sy_flush y = Some f → ∃ y', sync_step y y' ∧ sy_flush y' = None) ∧
  (sy_blocks y ≠ [] → sy_flush y = None → (∀ t, t ∈ sy_tasks y → tk_phase t = Ended) →
     ∃ y' f, sync_step y y' ∧ sy_flush y' = Some f ∧ fl_blocks f = sy_blocks y ∧ sy_blocks y' = []).
Proof.
  intros Hchain Ha Hp Hr Hroom. destruct (reachable_ok Hchain a previous y Ha Hp Hr) as (stored & prev & cur & rest & Hi).
  split_and!.
  - intros before t after Ht Hne. by eapply (task_goes_on Hchain).
  - intros t Hin _. apply list_elem_of_split in Hin as (l1 & l2 & Ht).
    destruct (fetch_now Hchain _ _ _ _ _ _ _ _ Hi Ht) as (it & _ & _ & _ & Hf). by eexists.
  - intros f Hf. by eapply (write_goes_on Hchain).
  - intros Hne Hn Hend. destruct y as [recv s arena blocks tasks flush prv d]. cbn in *. subst flush.
    eexists _, _. split; [apply step_next; [done|by apply Forall_forall]|done].
Qed.
End pipeline.

(** * An example: the second block is done before the first *)

Import Toy ToyDb.

Definition toy_numbered (n : Z) : BlockHeader :=
  mkBlockHeader 1 (to_le 32 (n - 1)) EMPTY_HASH (1000 + n) 0x1d00ffff 0 1 (to_le 32 n).

Definition toy_coinbase (n : Z) : Tx :=
  mkTx 1 0 [mkTxIn EMPTY_HASH 0xFFFFFFFF 0 (to_le 2 n)] [mkTxOut 5000000000 []] None (to_le 32 (100 + n)) EMPTY_HASH.

(** It spends the reward of the block 1 and an output of the database. *)
Definition toy_spending : Tx :=
  mkTx 2 0 [mkTxIn (to_le 32 101) 0 0 []; mkTxIn (to_le 32 77) 3 0 []] [mkTxOut 5000001000 []] None (to_le 32 103) EMPTY_HASH.

Definition toy_spent : list TxOut := [mkTxOut 5000000000 []; mkTxOut 2000 (template_script (key_hash dummy))].

Definition toy_item1 : Item :=
  mkItem (mkBlock (toy_numbered 1) [toy_coinbase 1]) [mkTxPlan (toy_coinbase 1) [] 0] (to_le 2 1).
Definition toy_item2 : Item :=
  mkItem (mkBlock (toy_numbered 2) [toy_coinbase 2; toy_spending])
    [mkTxPlan (toy_coinbase 2) [] 0; mkTxPlan toy_spending toy_spent 0] (to_le 2 2).
Definition toy_items : list Item := [toy_item1; toy_item2].

Lemma toy_item1_ok : item_ok toy_item1.
Proof.
  constructor; try reflexivity.
  - split; vm_compute; discriminate.
  - constructor; [|constructor]. split; [|vm_compute; reflexivity].
    split; [constructor; [vm_compute; split_and!; (reflexivity || discriminate)|constructor]|].
    split; [reflexivity|]. split; [done|]. split; vm_compute; discriminate.
  - constructor.
  - constructor; [|constructor]. split; [constructor; [vm_compute; split; (reflexivity || discriminate)|constructor]|].
    split; vm_compute; discriminate.
Qed.

Lemma toy_item2_ok : item_ok toy_item2.
Proof.
  constructor; try reflexivity.
  - split; vm_compute; discriminate.
  - constructor; [|constructor; [|constructor]]; (split; [|vm_compute; reflexivity]).
    + split; [constructor; [vm_compute; split_and!; (reflexivity || discriminate)|constructor]|].
      split; [reflexivity|]. split; [done|]. split; vm_compute; discriminate.
    + split; [repeat (constructor; [vm_compute; split_and!; (reflexivity || discriminate)|]); constructor|].
      split; [reflexivity|]. split; [discriminate|]. split; vm_compute; discriminate.
  - constructor; [vm_compute; reflexivity|constructor].
  - repeat (constructor; [split; [constructor; [vm_compute; split; (reflexivity || discriminate)|constructor]|
    split; vm_compute; discriminate]|]). constructor.
Qed.

Lemma toy_items_batch : batch_ok (map it_hash toy_items) (map it_analyses toy_items).
Proof.
  constructor.
  - constructor; [reflexivity|repeat (constructor; [reflexivity|]); constructor| |vm_compute; split_and!; discriminate].
    change (concat (map it_analyses toy_items)) with
      [planned (toy_numbered 1) (mkTxPlan (toy_coinbase 1) [] 0); planned (toy_numbered 2) (mkTxPlan (toy_coinbase 2) [] 0);
       planned (toy_numbered 2) (mkTxPlan toy_spending toy_spent 0)].
    pose proof (io_analyzable _ toy_item1_ok) as Ha. pose proof (io_analyzable _ toy_item2_ok) as Hb.
    inversion Ha as [|? ? [Ha1 _] _]. inversion Hb as [|? ? [Hb1 _] Hb']. inversion Hb' as [|? ? [Hb2 _] _].
    constructor; [apply planned_stored; [exact Ha1|vm_compute; discriminate]|].
    constructor; [apply planned_stored; [exact Hb1|vm_compute; discriminate]|].
    constructor; [apply planned_stored; [exact Hb2|vm_compute; discriminate]|constructor].
  - discriminate.
  - apply (proj1 (bool_decide_eq_true _)). vm_compute. reflexivity.
  - apply (proj1 (bool_decide_eq_true _)). vm_compute. reflexivity.
  - apply (proj1 (bool_decide_eq_true _)). vm_compute. reflexivity.
Qed.

Lemma toy_chain_ok : chain_ok toy_outputs_db toy_items.
Proof.
  constructor.
  - constructor; [apply toy_item1_ok|constructor; [apply toy_item2_ok|constructor]].
  - intros pre it post Heq. destruct pre as [|it1 [|it2 pre]].
    + injection Heq as <- _. repeat constructor.
    + injection Heq as <- <- _. constructor; [constructor|]. constructor; [|constructor].
      change (spending (txins (tp_tx (mkTxPlan toy_spending toy_spent 0)))) with (txins toy_spending).
      constructor; [|constructor; [|constructor]].
      * left. exists (toy_coinbase 1). split; [left|]. split; reflexivity.
      * right. split; [apply (proj1 (bool_decide_eq_false _)); vm_compute; reflexivity|vm_compute; reflexivity].
    + injection Heq as _ _ Heq. by destruct pre.
  - apply (proj1 (bool_decide_eq_true _)). vm_compute. reflexivity.
  - apply toy_items_batch.
Qed.

Definition toy_start : Sync := sync_start toy_outputs_db toy_items (mkArena 4096 0 65536) (mkArena 81920 0 65536).

Definition toy_actions : list Action :=
  [Receive; Receive; Fetch 1; Analyze 1; Fetch 0; Results 1; Analyze 0; Results 0; NextBatch; WriteBatch].

Definition toy_run (n : nat) : Sync :=
  match run 64 toy_items (take n toy_actions) toy_start with Some y => y | None => toy_start end.

Definition toy_runs (n : nat) : bool :=
  match run 64 toy_items (take n toy_actions) toy_start with Some _ => true | None => false end.

Lemma toy_run_ok n : toy_runs n = true → run 64 toy_items (take n toy_actions) toy_start = Some (toy_run n).
Proof. unfold toy_runs, toy_run. by destruct (run _ _ _ _). Qed.

Lemma sync_stores_chain_witness :
  sy_recv (toy_run 10) = [] ∧
  get_block_tx_entries (sy_db (toy_run 10)) (to_le 32 2) = Ok (map tx_entry (it_analyses toy_item2)).
Proof.
  split; [vm_compute; reflexivity|].
  destruct (sync_stores_chain 64 toy_outputs_db toy_items (mkArena 4096 0 65536) (mkArena 81920 0 65536) (toy_run 10) toy_chain_ok)
    as (stored & unwritten & Hsplit & Hst & Hend).
  - apply toy_arena_wf; lia.
  - apply toy_arena_wf; lia.
  - apply (run_steps 64 toy_items (take 10 toy_actions)), toy_run_ok. vm_compute. reflexivity.
  - rewrite Hend, app_nil_r in Hsplit by (vm_compute; reflexivity). subst stored.
    apply (st_blocks _ _ _ _ Hst toy_item2). right. left.
Defined.

Lemma sync_tasks_go_on_witness :
  ∃ y' t', sync_step 64 (toy_run 5) y' ∧ sy_tasks y' = [] ++ t' :: drop 1 (sy_tasks (toy_run 5)) ∧
    tk_block t' = it_block toy_item1 ∧ rank t' = 2%nat.
Proof.
  destruct (sync_tasks_go_on 64 toy_outputs_db toy_items (mkArena 4096 0 65536) (mkArena 81920 0 65536) (toy_run 5) toy_chain_ok)
    as (Hgo & _).
  - apply toy_arena_wf; lia.
  - apply toy_arena_wf; lia.
  - apply (run_steps 64 toy_items (take 5 toy_actions)), toy_run_ok. vm_compute. reflexivity.
  - apply roomyb_ok. vm_compute. reflexivity.
  - destruct (Hgo [] (mkTask (it_block toy_item1) 0 (Fetched [])) (drop 1 (sy_tasks (toy_run 5)))) as (y' & t' & Hs & Ht & Hb & Hr).
    + vm_compute. reflexivity.
    + discriminate.
    + exists y', t'. exact (conj Hs (conj Ht (conj Hb Hr))).
Defined.
