(* ===== verification/Miners.v ===== *)
(** [src/miners/mod.rs]: which pool mined which block, by the text of the coinbase, and
    the share of each pool in the recent blocks. *)
From stdpp Require Import sorting.
From S2P Require Import Prelude.
From S2P Require Import Extern.
From S2P Require Import Pow.
From S2P Require Import Header.
From S2P Require Import Loops.
From S2P Require Import Chain.
From S2P Require Import Float.

(** The regular expressions of the crate [regex]. *)
Class RegexLib := {
  Regex : Type;
  is_match : Regex → bytes → bool;
}.

(** * Data *)

Definition MINER_PERCENTAGE_OVER_LAST_SECONDS : Z := 3600 * 24 * 14.

Abbreviation MinerId := bytes.

Definition UNKNOWN_ID : MinerId := bstr "unknown".
Definition UNKNOWN_NAME : bytes := bstr "UNKNOWN".

Record Miner := mkMiner {
  display_name : bytes;
  icon : option bytes;
  regexes : list bytes;
}.

Record RecentBlock := mkRecentBlock {
  rb_hash : hash;
  rb_number : Z;
  rb_coinbase_ascii : bytes;
  rb_miner_id : MinerId;
  rb_miner_name : bytes;
  rb_timestamp : Z;
}.

(** [rules_regexes] is in the order in which the hash map is iterated. The last field is
    what is serialized for the page of the miners. *)
Record Miners `{RegexLib} := mkMiners {
  rules : gmap MinerId Miner;
  rules_regexes : list (MinerId * list Regex);
  blocks_mined_by_miners : gmap MinerId (list hash);
  recent_counts : gmap MinerId Z;
  block_miners : gmap hash MinerId;
  recent_blocks : list RecentBlock;
  recent_shares : list (MinerId * bytes * f64);
  page_data : list (MinerId * bytes * f64) * list RecentBlock;
}.

Section miners.
Context `{RegexLib}.

(** * The miner of a block *)

(** The loop over the rules, left as soon as one matches. *)
Fixpoint find_miner (rules : list (MinerId * list Regex)) (text : bytes) : option MinerId :=
  match rules with
  | [] => None
  | (id, regexes) :: rules => if existsb (λ rule, is_match rule text) regexes then Some id else find_miner rules text
  end.

Definition no_entry : string := "called `Option::unwrap()` on a `None` value".

Definition push_mined (m : gmap MinerId (list hash)) (id : MinerId) (h : hash) : outcome (gmap MinerId (list hash)) :=
  l ← expect (m !! id) no_entry;
  Ok (<[ id := l ++ [h] ]> m).

(** [*counts.get_mut(id).unwrap() += delta] *)
Definition add_count (m : gmap MinerId Z) (id : MinerId) (delta : Z) : outcome (gmap MinerId Z) :=
  n ← expect (m !! id) no_entry;
  Ok (<[ id := wrap64 (n + delta) ]> m).

Definition set_blocks (w : Miners) (mined : gmap MinerId (list hash)) (counts : gmap MinerId Z)
    (miners : gmap hash MinerId) (recent : list RecentBlock) : Miners :=
  mkMiners _ (rules w) (rules_regexes w) mined counts miners recent (recent_shares w) (page_data w).

(** A block, its time, and the text of its coinbase. *)
Record Mined := mkMined {
  md_hash : hash;
  md_number : Z;
  md_timestamp : Z;
  md_text : bytes;
}.

(** The body of the loop over the blocks; [ascii] is the text as it is kept, and the rules are
    matched against [text]. *)
Definition record_block (recent_after : Z) (text ascii : Mined → bytes) (w : Miners) (b : Mined) : outcome Miners :=
  let is_recent := recent_after <=? md_timestamp b in
  let id := match find_miner (rules_regexes w) (text b) with Some id => id | None => UNKNOWN_ID end in
  mined ← push_mined (blocks_mined_by_miners w) id (md_hash b);
  let miners := <[ md_hash b := id ]> (block_miners w) in
  if is_recent then
    name ← (match find_miner (rules_regexes w) (text b) with
            | Some id => miner ← expect (rules w !! id) "no entry found for key"; Ok (display_name miner)
            | None => Ok UNKNOWN_NAME
            end);
    counts ← add_count (recent_counts w) id 1;
    Ok (set_blocks w mined counts miners
          (recent_blocks w ++ [mkRecentBlock (md_hash b) (md_number b) (ascii b) id name (md_timestamp b)]))
  else Ok (set_blocks w mined (recent_counts w) miners (recent_blocks w)).

(** * Shares *)

Definition miner_name (rules : gmap MinerId Miner) (id : MinerId) : outcome bytes :=
  if bool_decide (id = UNKNOWN_ID) then Ok UNKNOWN_NAME
  else miner ← expect (rules !! id) "no entry found for key"; Ok (display_name miner).

Definition push_share (w : Miners) (shares : list (MinerId * bytes * f64)) (x : MinerId * Z) :
    outcome (list (MinerId * bytes * f64)) :=
  let '(id, mined) := x in
  if mined =? 0 then Ok shares
  else
    name ← miner_name (rules w) id;
    Ok (shares ++ [(id, name, f64_div (f64_of_Z mined) (f64_of_Z (len (recent_blocks w))))]).

Definition update_page_data (w : Miners) : Miners :=
  mkMiners _ (rules w) (rules_regexes w) (blocks_mined_by_miners w) (recent_counts w) (block_miners w)
    (recent_blocks w) (recent_shares w) (recent_shares w, take 50 (rev (recent_blocks w))).

(** The end of both callbacks. *)
Definition recalculate_shares (w : Miners) : outcome Miners :=
  shares ← for_each (push_share w) (map_to_list (recent_counts w)) [];
  Ok (update_page_data (mkMiners _ (rules w) (rules_regexes w) (blocks_mined_by_miners w) (recent_counts w)
        (block_miners w) (recent_blocks w) shares (page_data w))).

(** * Callbacks *)

(** The blocks in front that are no longer recent are dropped. *)
Fixpoint pop_recent (recent_after : Z) (blocks : list RecentBlock) (counts : gmap MinerId Z) :
    outcome (list RecentBlock * gmap MinerId Z) :=
  match blocks with
  | block :: rest =>
      if rb_timestamp block <? recent_after then
        counts ← add_count counts (rb_miner_id block) (-1);
        pop_recent recent_after rest counts
      else Ok (blocks, counts)
  | [] => Ok ([], counts)
  end.

(** The iterators over the four slices, zipped. *)
Definition zip_mined (hashes : list hash) (numbers timestamps : list Z) (coinbase_asciis : list bytes) : list Mined :=
  zip_with (λ '(h, number, timestamp) ascii, mkMined h number timestamp ascii)
    (zip (zip hashes numbers) timestamps) coinbase_asciis.

Definition callback_chain_extended (w : Miners) (hashes : list hash) (numbers timestamps : list Z)
    (coinbase_asciis : list bytes) : outcome Miners :=
  last_timestamp ← expect (last timestamps) no_entry;
  let recent_after := last_timestamp -! MINER_PERCENTAGE_OVER_LAST_SECONDS in
  '(recent, counts) ← pop_recent recent_after (recent_blocks w) (recent_counts w);
  w ← for_each (record_block recent_after md_text (λ b, from_utf8_lossy (md_text b)))
        (zip_mined hashes numbers timestamps coinbase_asciis)
        (set_blocks w (blocks_mined_by_miners w) counts (block_miners w) recent);
  recalculate_shares w.

(** The maps with an empty entry for every miner. *)
Definition fresh {A : Type} (rules : gmap MinerId Miner) (x : A) : gmap MinerId A :=
  foldl (λ m id, <[ id := x ]> m) {[ UNKNOWN_ID := x ]} (map fst (map_to_list rules)).

(** [blocks] is what [get_blocks_with_timestamps_and_coinbase_asciis] gives for the top
    block, if there is one; the text is already a string there. [now] is the clock. *)
Definition recalculate (w : Miners) (now : Z) (blocks : option (list Mined)) : outcome Miners :=
  let w := set_blocks w (fresh (rules w) []) (fresh (rules w) 0) ∅ [] in
  match blocks with
  | None => Ok w
  | Some blocks =>
      let last_timestamp := default now (last (map md_timestamp blocks)) in
      let recent_after := last_timestamp -! MINER_PERCENTAGE_OVER_LAST_SECONDS in
      w ← for_each (record_block recent_after md_text md_text) blocks w;
      recalculate_shares w
  end.

Definition to_mined (x : hash * Z * Z * bytes) : Mined :=
  let '(h, number, timestamp, ascii) := x in mkMined h number timestamp ascii.

Definition recalculate_full_miner_stats (c : Chain) (fuel : nat) (now : Z) (w : Miners) (top_hash : option hash) :
    comp Miners :=
  match top_hash with
  | None => Finished (recalculate w now None)
  | Some top =>
      blocks ← get_blocks_with_timestamps_and_coinbase_asciis c fuel top;
      Finished (recalculate w now (Some (map to_mined blocks)))
  end.

Definition callback_after_headers_loaded (c : Chain) (fuel : nat) (now : Z) (w : Miners) : comp Miners :=
  top ← get_top_synced_header_hash c fuel;
  recalculate_full_miner_stats c fuel now w top.

Definition callback_chain_reorg (c : Chain) (fuel : nat) (now : Z) (w : Miners) (top_hash : hash) : comp Miners :=
  recalculate_full_miner_stats c fuel now w (Some top_hash).

Definition callback_config_updated (c : Chain) (fuel : nat) (now : Z) (w : Miners)
    (new_rules : gmap MinerId Miner) (new_regexes : list (MinerId * list Regex)) : comp Miners :=
  let w := mkMiners _ new_rules new_regexes (blocks_mined_by_miners w) (recent_counts w) (block_miners w)
             (recent_blocks w) (recent_shares w) (page_data w) in
  top ← get_top_synced_header_hash c fuel;
  recalculate_full_miner_stats c fuel now w top.

(** * Queries *)

Definition get_miner_for_block_and_share (w : Miners) (block : hash) : outcome (option (MinerId * bytes * f64)) :=
  match block_miners w !! block with
  | None => Ok None
  | Some id =>
      mined_recently ← expect (recent_counts w !! id) "no entry found for key";
      let count := len (recent_blocks w) in
      let share := if negb (count =? 0) then f64_div (f64_of_Z mined_recently) (f64_of_Z count) else f64_zero in
      name ← miner_name (rules w) id;
      Ok (Some (id, name, share))
  end.

(** The name in the lists of blocks; a miner without a rule has the one of unknown ones. *)
Definition listed_name (w : Miners) (id : MinerId) : bytes :=
  if bool_decide (id = UNKNOWN_ID) then UNKNOWN_NAME
  else match rules w !! id with Some miner => display_name miner | None => UNKNOWN_NAME end.

Definition get_block_data (c : Chain) (w : Miners) (hashes : list hash) : outcome (list RecentBlock) :=
  data ← try_get_block_timestamps_and_numbers_and_cb_asciis c hashes;
  Ok (zip_with (λ h '(timestamp, number, ascii),
        let id := default UNKNOWN_ID (block_miners w !! h) in
        mkRecentBlock h number ascii id (listed_name w id) timestamp) hashes data).

Definition get_miner (w : Miners) (id : MinerId) : option Miner := rules w !! id.

Fixpoint skip_while {A} (p : A → bool) (l : list A) : list A :=
  match l with
  | x :: rest => if p x then skip_while p rest else l
  | [] => []
  end.

(** The hashes of a page of blocks, newest first. *)
Definition miner_page (blocks : list hash) (limit : nat) (after : option hash) : list hash :=
  match after with
  | Some v => take limit (skip_while (λ h, negb (bool_decide (h = v))) (rev blocks))
  | None => take limit (rev blocks)
  end.

Definition get_miner_blocks (c : Chain) (w : Miners) (id : MinerId) (limit : nat) (after : option hash) :
    outcome (list RecentBlock) :=
  match blocks_mined_by_miners w !! id with
  | None => Ok []
  | Some blocks =>
      match get_block_data c w (miner_page blocks limit after) with
      | Ok v => Ok v
      | Err _ => Ok []
      | other => other
      end
  end.

(** * What the statistics say *)

Section spec.
Context (rs : gmap MinerId Miner) (rx : list (MinerId * list Regex)).

(** Every rule belongs to a miner. *)
Definition rules_ok : Prop := ∀ id l, (id, l) ∈ rx → is_Some (rs !! id).

Definition assigned (b : Mined) : MinerId := default UNKNOWN_ID (find_miner rx (md_text b)).

Definition assigned_name (b : Mined) : bytes :=
  match find_miner rx (md_text b) with
  | Some id => match rs !! id with Some miner => display_name miner | None => [] end
  | None => UNKNOWN_NAME
  end.

Definition recent_of (b : Mined) : RecentBlock :=
  mkRecentBlock (md_hash b) (md_number b) (md_text b) (assigned b) (assigned_name b) (md_timestamp b).

Definition recents (after : Z) (l : list Mined) : list RecentBlock :=
  map recent_of (List.filter (λ b, after <=? md_timestamp b) l).

Definition count_of (id : MinerId) (l : list RecentBlock) : Z :=
  len (List.filter (λ r, bool_decide (rb_miner_id r = id)) l).

Definition counts_of (l : list RecentBlock) : gmap MinerId Z :=
  map_imap (λ id _, Some (wrap64 (count_of id l))) (fresh rs tt).

Definition mined_by (id : MinerId) (l : list Mined) : list hash :=
  map md_hash (List.filter (λ b, bool_decide (assigned b = id)) l).

Definition mined_of (l : list Mined) : gmap MinerId (list hash) :=
  map_imap (λ id _, Some (mined_by id l)) (fresh rs tt).

Definition miners_of (l : list Mined) : gmap hash MinerId :=
  foldl (λ m b, <[ md_hash b := assigned b ]> m) ∅ l.

(** The state when the blocks of [l] are on the chain. *)
Definition state_of shares page (after : Z) (l : list Mined) : Miners :=
  mkMiners _ rs rx (mined_of l) (counts_of (recents after l)) (miners_of l) (recents after l) shares page.

Lemma fresh_lookup {A : Type} (x : A) id :
  fresh rs x !! id = if decide (id = UNKNOWN_ID ∨ is_Some (rs !! id)) then Some x else None.
Proof.
  unfold fresh. assert (∀ l (m : gmap MinerId A), foldl (λ m id, <[ id := x ]> m) m l !! id
    = if decide (id ∈ l) then Some x else m !! id) as Hl.
  { clear. induction l as [|i l IH]; intros m; [done|]. cbn [foldl]. rewrite IH.
    destruct (decide (id ∈ l)) as [Hin|Hin]; [by rewrite decide_True by by right|].
    destruct (decide (id = i)) as [->|Hne]; [rewrite lookup_insert_eq; by rewrite decide_True by left|].
    rewrite lookup_insert_ne by done. rewrite decide_False; [done|]. rewrite elem_of_cons. tauto. }
  rewrite Hl. assert (id ∈ map fst (map_to_list rs) ↔ is_Some (rs !! id)) as Hin.
  { change (map fst ?l) with (l.*1). rewrite list_elem_of_fmap. split.
    - intros ([i m] & -> & Hi%elem_of_map_to_list). by exists m.
    - intros [m Hm]. exists (id, m). split; [done|by apply elem_of_map_to_list]. }
  destruct (decide (id ∈ _)) as [Hi|Hi]; rewrite Hin in Hi; [by rewrite decide_True by by right|].
  destruct (decide (id = UNKNOWN_ID)) as [->|Hne].
  - rewrite lookup_singleton_eq. by rewrite decide_True by by left.
  - rewrite lookup_singleton_ne by done. rewrite decide_False; [done|]. tauto.
Qed.

Lemma counts_lookup l id :
  counts_of l !! id = if decide (id = UNKNOWN_ID ∨ is_Some (rs !! id)) then Some (wrap64 (count_of id l)) else None.
Proof. unfold counts_of. rewrite map_lookup_imap, fresh_lookup. by destruct (decide _). Qed.

Lemma mined_lookup l id :
  mined_of l !! id = if decide (id = UNKNOWN_ID ∨ is_Some (rs !! id)) then Some (mined_by id l) else None.
Proof. unfold mined_of. rewrite map_lookup_imap, fresh_lookup. by destruct (decide _). Qed.

Lemma fresh_mined : fresh rs [] = mined_of [].
Proof. apply map_eq. intros id. by rewrite fresh_lookup, mined_lookup. Qed.

Lemma fresh_counts : fresh rs 0 = counts_of [].
Proof. apply map_eq. intros id. by rewrite fresh_lookup, counts_lookup. Qed.

Lemma count_of_app id l k : count_of id (l ++ k) = count_of id l + count_of id k.
Proof. unfold count_of. by rewrite List.filter_app, len_app. Qed.

Lemma count_of_one id r : count_of id [r] = if bool_decide (rb_miner_id r = id) then 1 else 0.
Proof. unfold count_of. cbn. by case_bool_decide. Qed.

Lemma find_miner_in l text id : find_miner l text = Some id → ∃ rules, (id, rules) ∈ l.
Proof.
  induction l as [|[i rules] l IH]; cbn; [done|]. case_match; [intros [= <-]; exists rules; by left|].
  intros Hf. destruct (IH Hf) as [r Hr]. exists r. by right.
Qed.

Context (Hrules : rules_ok).

Lemma found_rule text id : find_miner rx text = Some id → is_Some (rs !! id).
Proof. intros [rules Hr]%find_miner_in. by eapply Hrules. Qed.

Lemma assigned_known b : assigned b = UNKNOWN_ID ∨ is_Some (rs !! assigned b).
Proof.
  unfold assigned. destruct (find_miner rx (md_text b)) as [id|] eqn:Hf; [|by left]. right. by eapply found_rule.
Qed.

Lemma add_count_spec l r delta l' :
  (rb_miner_id r = UNKNOWN_ID ∨ is_Some (rs !! rb_miner_id r)) →
  (∀ id, count_of id l' = count_of id l + if bool_decide (rb_miner_id r = id) then delta else 0) →
  add_count (counts_of l) (rb_miner_id r) delta = Ok (counts_of l').
Proof.
  intros Hk Hc. unfold add_count. rewrite counts_lookup, decide_True by done. cbn [expect mbind outcome_bind].
  f_equal. apply map_eq. intros id. rewrite (counts_lookup l' id), Hc.
  destruct (decide (rb_miner_id r = id)) as [<-|Hne].
  - rewrite lookup_insert_eq, decide_True, bool_decide_true by done. by rewrite wrap64_add_l.
  - rewrite lookup_insert_ne, counts_lookup, bool_decide_false, Z.add_0_r by done. done.
Qed.

Lemma push_mined_spec l b h :
  md_hash b = h → push_mined (mined_of l) (assigned b) h = Ok (mined_of (l ++ [b])).
Proof.
  intros <-. unfold push_mined. rewrite mined_lookup, decide_True by apply assigned_known.
  cbn [expect mbind outcome_bind]. f_equal. apply map_eq. intros id. rewrite mined_lookup. unfold mined_by.
  rewrite List.filter_app. cbn. destruct (decide (assigned b = id)) as [<-|Hne].
  - rewrite lookup_insert_eq, decide_True, bool_decide_true by (done || apply assigned_known). by rewrite map_app.
  - rewrite lookup_insert_ne, mined_lookup, bool_decide_false by done. by rewrite app_nil_r.
Qed.

Definition kept (ascii : Mined → bytes) (b : Mined) : Mined :=
  mkMined (md_hash b) (md_number b) (md_timestamp b) (ascii b).

Lemma record_block_spec shares page after text ascii l b :
  find_miner rx (text b) = find_miner rx (ascii b) →
  record_block after text ascii (state_of shares page after l) b = Ok (state_of shares page after (l ++ [kept ascii b])).
Proof.
  intros He. unfold record_block. cbn [rules_regexes state_of blocks_mined_by_miners].
  assert (match find_miner rx (text b) with Some id => id | None => UNKNOWN_ID end = assigned (kept ascii b)) as ->
    by (unfold assigned; cbn; rewrite He; by destruct (find_miner _ _)).
  rewrite (push_mined_spec l (kept ascii b)) by done. cbn [mbind outcome_bind state_of recent_counts block_miners recent_blocks rules].
  assert (miners_of (l ++ [kept ascii b]) = <[ md_hash b := assigned (kept ascii b) ]> (miners_of l)) as Hm
    by (unfold miners_of; by rewrite foldl_app).
  unfold state_of. rewrite Hm.
  assert (recents after (l ++ [kept ascii b]) = recents after l ++
    (if after <=? md_timestamp b then [recent_of (kept ascii b)] else [])) as Hr.
  { unfold recents. rewrite List.filter_app, map_app. f_equal. cbn. by case_match. }
  rewrite Hr. destruct (after <=? md_timestamp b); [|by rewrite app_nil_r].
  assert ((match find_miner rx (text b) with
           | Some id => miner ← expect (rs !! id) "no entry found for key"; Ok (display_name miner)
           | None => Ok UNKNOWN_NAME
           end) = Ok (assigned_name (kept ascii b))) as ->.
  { unfold assigned_name. cbn. rewrite He. destruct (find_miner rx (ascii b)) as [id|] eqn:Hf; [|done].
    destruct (found_rule _ _ Hf) as [miner ->]. done. }
  cbn [mbind outcome_bind].
  assert (add_count (counts_of (recents after l)) (assigned (kept ascii b)) 1
    = Ok (counts_of (recents after l ++ [recent_of (kept ascii b)]))) as ->; [|done].
  apply (add_count_spec (recents after l) (recent_of (kept ascii b))); [apply assigned_known|].
  intros id. by rewrite count_of_app, count_of_one.
Qed.

Lemma record_blocks shares page after text ascii bs : ∀ l,
  Forall (λ b, find_miner rx (text b) = find_miner rx (ascii b)) bs →
  for_each (record_block after text ascii) bs (state_of shares page after l)
  = Ok (state_of shares page after (l ++ map (kept ascii) bs)).
Proof.
  induction bs as [|b bs IH]; intros l Hbs; cbn [for_each map]; [by rewrite app_nil_r|].
  apply Forall_cons in Hbs as [Hb Hbs]. rewrite record_block_spec by done. cbn [mbind outcome_bind].
  rewrite IH by done. by rewrite <- app_assoc.
Qed.

(** ** Blocks that are no longer recent *)

Lemma count_of_cons id r l : count_of id (r :: l) = count_of id l + if bool_decide (rb_miner_id r = id) then 1 else 0.
Proof. change (r :: l) with ([r] ++ l). rewrite count_of_app, count_of_one. lia. Qed.

Lemma pop_recent_spec after l :
  Forall (λ r, rb_miner_id r = UNKNOWN_ID ∨ is_Some (rs !! rb_miner_id r)) l →
  StronglySorted (λ r r', rb_timestamp r <= rb_timestamp r') l →
  let rest := List.filter (λ r, after <=? rb_timestamp r) l in
  pop_recent after l (counts_of l) = Ok (rest, counts_of rest).
Proof.
  intros Hk Hs. cbv zeta. induction Hs as [|r l Hs IH Hr]; [done|]. apply Forall_cons in Hk as [Hkr Hk].
  cbn [pop_recent List.filter]. destruct (Z.ltb_spec (rb_timestamp r) after) as [Hlt|Hge].
  - rewrite (add_count_spec (r :: l) r (-1) l); [|done|]; cycle 1.
    { intros id. rewrite count_of_cons. case_bool_decide; lia. }
    cbn [mbind outcome_bind]. rewrite (proj2 (Z.leb_gt _ _)) by done. by apply IH.
  - rewrite (proj2 (Z.leb_le _ _)) by done. assert (List.filter (λ r, after <=? rb_timestamp r) l = l) as ->; [|done].
    clear -Hr Hge. induction Hr as [|r' l Hr' _ IH]; [done|]. cbn. rewrite (proj2 (Z.leb_le _ _)) by lia. by rewrite IH.
Qed.

Definition earlier (b b' : Mined) : Prop := md_timestamp b <= md_timestamp b'.

Lemma recents_sorted after l :
  StronglySorted earlier l → StronglySorted (λ r r', rb_timestamp r <= rb_timestamp r') (recents after l).
Proof.
  unfold recents. induction 1 as [|b l Hs IH Hb]; [constructor|]. cbn. case_match; [|done]. cbn. constructor; [done|].
  apply Forall_forall. intros r Hr. change (map recent_of ?x) with (recent_of <$> x) in Hr.
  apply list_elem_of_fmap in Hr as (b' & -> & Hb'). apply list_elem_of_In, List.filter_In in Hb' as [Hb' _].
  rewrite Forall_forall in Hb. apply (Hb b'). by apply list_elem_of_In.
Qed.

Lemma recents_known after l : Forall (λ r, rb_miner_id r = UNKNOWN_ID ∨ is_Some (rs !! rb_miner_id r)) (recents after l).
Proof. unfold recents. apply Forall_map, Forall_forall. intros b _. apply assigned_known. Qed.

Lemma recents_later after after' l :
  after <= after' → List.filter (λ r, after' <=? rb_timestamp r) (recents after l) = recents after' l.
Proof.
  intros Hle. unfold recents. induction l as [|b l IH]; [done|]. cbn. destruct (Z.leb_spec after (md_timestamp b)); cbn.
  - destruct (after' <=? md_timestamp b); cbn; by rewrite IH.
  - rewrite (proj2 (Z.leb_gt _ _)) by lia. done.
Qed.

(** ** Shares *)

Lemma shares_Ok shares page after l : ∃ w, recalculate_shares (state_of shares page after l) = Ok w.
Proof.
  unfold recalculate_shares. cbn [recent_counts state_of].
  assert (∀ x, x ∈ map_to_list (counts_of (recents after l)) → x.1 = UNKNOWN_ID ∨ is_Some (rs !! x.1)) as Hk.
  { intros [id n] Hin%elem_of_map_to_list. cbn. rewrite counts_lookup in Hin. by destruct (decide _). }
  revert Hk. generalize (map_to_list (counts_of (recents after l))). intros k Hk.
  assert (∀ acc, ∃ r, for_each (push_share (state_of shares page after l)) k acc = Ok r) as Hr.
  { induction k as [|[id n] k IH]; intros acc; cbn [for_each]; [by eexists|].
    assert (∃ acc', push_share (state_of shares page after l) acc (id, n) = Ok acc') as [acc' ->].
    { unfold push_share. destruct (n =? 0); [by eexists|]. unfold miner_name. cbn [rules state_of].
      case_bool_decide as Hu; [by eexists|]. destruct (Hk (id, n)) as [?|[miner Hm]]; [by left|done|]. cbn in Hm.
      rewrite Hm. by eexists. }
    cbn [mbind outcome_bind]. apply IH. intros x Hx. apply Hk. by right. }
  destruct (Hr []) as [r ->]. by eexists.
Qed.

(** The result depends on the blocks and the rules alone. *)
Lemma shares_same shares page shares' page' after l :
  recalculate_shares (state_of shares page after l) = recalculate_shares (state_of shares' page' after l).
Proof. reflexivity. Qed.

Lemma recalculate_spec w now l :
  rules w = rs → rules_regexes w = rx →
  recalculate w now (Some l) = recalculate_shares (state_of (recent_shares w) (page_data w)
    (default now (last (map md_timestamp l)) -! MINER_PERCENTAGE_OVER_LAST_SECONDS) l).
Proof.
  intros Hr Hx. unfold recalculate. set (after := _ -! _).
  assert (set_blocks w (fresh (rules w) []) (fresh (rules w) 0) ∅ []
    = state_of (recent_shares w) (page_data w) after []) as ->.
  { unfold set_blocks, state_of. rewrite Hr, Hx, fresh_mined, fresh_counts. done. }
  rewrite record_blocks by (by apply Forall_forall). cbn [app mbind outcome_bind].
  assert (map (kept md_text) l = l) as ->; [|done]. rewrite <- (map_id l) at 2. apply map_ext. by intros [].
Qed.

Lemma recalculated w now l w1 :
  rules w = rs → rules_regexes w = rx → recalculate w now (Some l) = Ok w1 →
  w1 = state_of (recent_shares w1) (page_data w1)
    (default now (last (map md_timestamp l)) -! MINER_PERCENTAGE_OVER_LAST_SECONDS) l.
Proof.
  intros Hr Hx. rewrite recalculate_spec by done. unfold recalculate_shares.
  destruct (for_each _ _ _) as [shares| | |]; cbn [mbind outcome_bind]; [|done..]. by intros [= <-].
Qed.

(** ** The miner of a block that was counted *)

Lemma counted_miner shares page after l b :
  b ∈ l → ∃ r, get_miner_for_block_and_share (state_of shares page after l) (md_hash b) = Ok (Some r).
Proof.
  intros Hb. assert (∃ b', miners_of l !! md_hash b = Some (assigned b')) as [b' Hm].
  { unfold miners_of. induction l as [|b' l IH] using rev_ind; [by apply elem_of_nil in Hb|]. rewrite foldl_app. cbn [foldl].
    destruct (decide (md_hash b' = md_hash b)) as [->|Hne]; [exists b'; by rewrite lookup_insert_eq|].
    rewrite lookup_insert_ne by done. apply IH. apply elem_of_app in Hb as [Hb| ->%list_elem_of_singleton]; done. }
  unfold get_miner_for_block_and_share. cbn [block_miners recent_counts rules state_of]. rewrite Hm, counts_lookup.
  rewrite decide_True by apply assigned_known. cbn [expect mbind outcome_bind]. unfold miner_name.
  case_bool_decide as Hu; [by eexists|]. destruct (assigned_known b') as [?|[miner ->]]; [done|]. by eexists.
Qed.

(** Once the blocks have been counted, to count them again changes nothing. *)
Lemma recalculated_again w now l w1 now' :
  rules w = rs → rules_regexes w = rx → l ≠ [] → recalculate w now (Some l) = Ok w1 →
  rules w1 = rs ∧ rules_regexes w1 = rx ∧ recalculate w1 now' (Some l) = Ok w1.
Proof.
  intros Hr Hx Hl Hw. pose proof (recalculated w now l w1 Hr Hx Hw) as Hw1.
  assert (rules w1 = rs ∧ rules_regexes w1 = rx) as [Hr1 Hx1] by by rewrite Hw1. split_and!; [done..|].
  rewrite recalculate_spec in * by done. rewrite (shares_same _ _ (recent_shares w) (page_data w)), <- Hw. do 2 f_equal.
  destruct (last (map md_timestamp l)) eqn:Hlast; [done|]. apply last_None in Hlast. by destruct l.
Qed.
End spec.

Lemma zip_mined_timestamps hashes numbers timestamps asciis :
  length hashes = length timestamps → length numbers = length timestamps → length asciis = length timestamps →
  map md_timestamp (zip_mined hashes numbers timestamps asciis) = timestamps.
Proof.
  revert hashes numbers asciis. induction timestamps as [|t ts IH]; intros [|h hs] [|n ns] [|a asc]; cbn; try done.
  intros. f_equal. apply IH; lia.
Qed.

(** ** Blocks on top *)

Lemma recalculated_extended w w1 now l hashes numbers timestamps asciis :
  let bs := zip_mined hashes numbers timestamps asciis in
  rules_ok (rules w) (rules_regexes w) → recalculate w now (Some l) = Ok w1 → timestamps ≠ [] →
  length hashes = length timestamps → length numbers = length timestamps → length asciis = length timestamps →
  StronglySorted earlier (l ++ bs) →
  Forall (λ b, MINER_PERCENTAGE_OVER_LAST_SECONDS <= md_timestamp b < 2 ^ 64) (l ++ bs) →
  Forall (λ b, find_miner (rules_regexes w) (md_text b)
               = find_miner (rules_regexes w) (from_utf8_lossy (md_text b))) bs →
  ∃ w2, callback_chain_extended w1 hashes numbers timestamps asciis = Ok w2 ∧
    ∀ now', recalculate w1 now' (Some (l ++ map (kept (λ b, from_utf8_lossy (md_text b))) bs)) = Ok w2.
Proof.
  intros bs Hrules Hw1 Hne Hl1 Hl2 Hl3 Hsorted Htimes Hlossy.
  pose proof (recalculated (rules w) (rules_regexes w) Hrules w now l w1 eq_refl eq_refl Hw1) as ->.
  set (lossy := λ b, from_utf8_lossy (md_text b)). set (after := _ -! _). set (sh := recent_shares w1). set (pg := page_data w1).
  pose proof (zip_mined_timestamps hashes numbers timestamps asciis Hl1 Hl2 Hl3) as Hts. fold bs in Hts.
  destruct (last timestamps) as [t|] eqn:Ht; [|by apply last_None in Ht].
  assert (map md_timestamp (map (kept lossy) bs) = timestamps) as Hts' by (by rewrite map_map).
  set (after' := t -! MINER_PERCENTAGE_OVER_LAST_SECONDS).
  destruct (shares_Ok (rules w) (rules_regexes w) sh pg after' (l ++ map (kept lossy) bs)) as [w2 Hw2].
  exists w2. split.
  - unfold callback_chain_extended. rewrite Ht. cbn [expect mbind outcome_bind]. fold after'.
    cbn [recent_blocks recent_counts state_of blocks_mined_by_miners block_miners].
    assert (l = [] ∨ after <= after') as Hle.
    { destruct (last (map md_timestamp l)) as [t0|] eqn:Ht0; [right|left; apply last_None in Ht0; by destruct l].
      apply last_Some in Ht0 as [k Hk]. apply last_Some in Ht as [k' Hk']. rewrite <- Hts in Hk'.
      change (map md_timestamp ?x) with (md_timestamp <$> x) in Hk, Hk'.
      apply fmap_app_inv in Hk as (l1 & l2 & _ & Hl2' & ->), Hk' as (b1 & b2 & _ & Hb2 & Hbs).
      destruct l2 as [|b0 [|]], b2 as [|b [|]]; try done. injection Hl2' as ->. injection Hb2 as ->.
      rewrite Hbs in Hsorted, Htimes. apply StronglySorted_app in Hsorted as (Hcross & _ & _).
      assert (b0 ∈ l1 ++ [b0]) as Hin0 by (apply elem_of_app; right; by left).
      assert (b ∈ b1 ++ [b]) as Hin by (apply elem_of_app; right; by left).
      specialize (Hcross b0 b Hin0 Hin). unfold earlier in Hcross. rewrite Forall_forall in Htimes.
      pose proof (Htimes b0 ltac:(apply elem_of_app; by left)). pose proof (Htimes b ltac:(apply elem_of_app; by right)).
      unfold after, after'. cbn [from_option id]. unfold id. rewrite !wrap64_small by (unfold in_u64, MINER_PERCENTAGE_OVER_LAST_SECONDS in *; lia). lia. }
    apply StronglySorted_app in Hsorted as (_ & Hsorted & _).
    rewrite (pop_recent_spec (rules w)); [|by apply recents_known|by apply recents_sorted]. cbn [mbind outcome_bind].
    assert (List.filter (λ r, after' <=? rb_timestamp r) (recents (rules w) (rules_regexes w) after l)
      = recents (rules w) (rules_regexes w) after' l) as ->.
    { destruct Hle as [->|Hle]; [done|by apply recents_later]. }
    change (set_blocks _ _ _ _ _) with (state_of (rules w) (rules_regexes w) sh pg after' l).
    rewrite record_blocks by done. cbn [mbind outcome_bind]. exact Hw2.
  - intros now'. rewrite (recalculate_spec (rules w) (rules_regexes w) Hrules) by done.
    rewrite map_app, Hts', last_app, Ht. exact Hw2.
Qed.

(** * Properties *)

(** C23. Blocks that extend the chain, as the statistics are kept up to date: the result is
    the very state that a recalculation from the whole chain gives, if the times
    of the blocks ascend and the rules match the text of a coinbase just when they match its
    copy in UTF-8. *)
Theorem extension_recalculates w w1 now l hashes numbers timestamps asciis :
  let bs := zip_mined hashes numbers timestamps asciis in
  rules_ok (rules w) (rules_regexes w) → recalculate w now (Some l) = Ok w1 → timestamps ≠ [] →
  length hashes = length timestamps → length numbers = length timestamps → length asciis = length timestamps →
  StronglySorted earlier (l ++ bs) →
  Forall (λ b, MINER_PERCENTAGE_OVER_LAST_SECONDS <= md_timestamp b < 2 ^ 64) (l ++ bs) →
  Forall (λ b, find_miner (rules_regexes w) (md_text b)
               = find_miner (rules_regexes w) (from_utf8_lossy (md_text b))) bs →
  ∃ w2, callback_chain_extended w1 hashes numbers timestamps asciis = Ok w2 ∧
    ∀ now', recalculate w1 now' (Some (l ++ map (kept (λ b, from_utf8_lossy (md_text b))) bs)) = Ok w2.
Proof. exact (recalculated_extended w w1 now l hashes numbers timestamps asciis). Qed.
End miners.

(** * Example *)

#[local] Instance toy_regex : RegexLib := {
  Regex := bytes;
  is_match rule text := bool_decide (take (length rule) text = rule);
}.

Definition toy_miners : Miners :=
  mkMiners _ {[ bstr "pool" := mkMiner (bstr "Pool") None [bstr "/pool/"] ]} [(bstr "pool", [bstr "/pool/"])]
    ∅ ∅ ∅ [] [] ([], []).

Definition toy_blocks : list Mined :=
  [mkMined (to_le 32 1) 1 2000000 (bstr "/pool/ 1"); mkMined (to_le 32 2) 2 2600000 (bstr "solo")].

Definition toy_counted : Miners :=
  match recalculate toy_miners 0 (Some toy_blocks) with Ok w => w | _ => toy_miners end.

Lemma toy_rules_ok : rules_ok (rules toy_miners) (rules_regexes toy_miners).
Proof. intros id l Hin. apply list_elem_of_singleton in Hin as [= -> ->]. eexists. by apply lookup_singleton_eq. Qed.

Lemma toy_recalculated : recalculate toy_miners 0 (Some toy_blocks) = Ok toy_counted.
Proof.
  unfold toy_counted. rewrite (recalculate_spec _ _ toy_rules_ok) by done.
  destruct (shares_Ok (rules toy_miners) (rules_regexes toy_miners) (recent_shares toy_miners) (page_data toy_miners)
    (default 0 (last (map md_timestamp toy_blocks)) -! MINER_PERCENTAGE_OVER_LAST_SECONDS) toy_blocks) as [w ->]. done.
Qed.

(** The third block makes the first one too old. *)
Lemma extension_recalculates_witness : ∃ w2,
  callback_chain_extended toy_counted [to_le 32 3] [3] [3300000] [bstr "/pool/ 3"] = Ok w2 ∧
  map rb_number (recent_blocks w2) = [2; 3].
Proof.
  destruct (extension_recalculates toy_miners toy_counted 0 toy_blocks [to_le 32 3] [3] [3300000] [bstr "/pool/ 3"])
    as (w2 & Hw2 & _).
  - apply toy_rules_ok.
  - apply toy_recalculated.
  - done.
  - done.
  - done.
  - done.
  - cbn. repeat constructor; by vm_compute.
  - cbn. repeat constructor; by vm_compute.
  - cbn. repeat constructor; by vm_compute.
  - exists w2. split; [exact Hw2|].
    assert (match callback_chain_extended toy_counted [to_le 32 3] [3] [3300000] [bstr "/pool/ 3"] with
            | Ok w => map rb_number (recent_blocks w) | _ => [] end = [2; 3]) as Hn by (vm_compute; reflexivity).
    rewrite Hw2 in Hn. exact Hn.
Defined.
