(* ===== verification/FrontPage.v ===== *)
(** [src/chainman/mod.rs], [src/types/frontpagedata.rs] and [src/types/stats.rs]: the newest
    blocks and transactions and the statistics of the last days, as the front page shows them. *)
From stdpp Require Import sorting.
From S2P Require Import Prelude.
From S2P Require Import Extern.
From S2P Require Import Header.
From S2P Require Import Loops.
From S2P Require Import Chain.
From S2P Require Import Analyze.
From S2P Require Import Store.
From S2P Require Import Queries.
From S2P Require Import Float.
From S2P Require Import Process.
From S2P Require Import Miners.

(** * Data *)

Definition FRONTPAGE_TXS_COUNT : Z := 50.
Definition FRONTPAGE_BLOCKS_COUNT : Z := 50.

Record Stats := mkStats {
  average_median_fees : gmap Z f64;
  stats_transactions : gmap Z Z;
  stats_volume : gmap Z Z;
}.

Definition Stats_default : Stats := mkStats ∅ ∅ ∅.

Record SyncStats := mkSyncStats {
  total_blocks : Z;
  synced_blocks : Z;
  approx_remaining_seconds : f64;
}.

Record ShortBlock := mkShortBlock {
  sb_number : Z;
  sb_hash : hash;
  sb_tx_count : Z;
  sb_reward_sats : Z;
  sb_btc_price : f64;
  sb_timestamp : Z;
  sb_miner_id : MinerId;
  sb_miner_name : bytes;
  sb_recent_miner_share : f64;
}.

Record ShortTx := mkShortTx {
  sx_hash : bytes;
  sx_value : Z;
  sx_size_wus : Z;
  sx_timestamp : Z;
  sx_block_number : Z;
  sx_block_hash : hash;
  sx_fee_sats : Z;
  sx_btc_price : f64;
}.

(** The page is kept next to its form in JSON, which is left out. *)
Record FrontPageData := mkFrontPageData {
  fp_stats : Stats;
  latest_blocks : list ShortBlock;
  latest_txs : list ShortTx;
  fp_sync_stats : option SyncStats;
}.

Inductive FrontPageDataUpdate :=
| Snapshot (data : FrontPageData)
| Delta (data : FrontPageData).

Definition out_of_bounds : string := "index out of bounds".

(** * Statistics *)

(** [find_block_metrics]: a row of the table [block_stats], which has to be there. *)
Definition find_block_metrics (block_stats : gmap hash BlockMetrics) (h : hash) : outcome BlockMetrics :=
  expect (block_stats !! h) "called `Result::unwrap()` on an `Err` value".

Definition relevant_step (c : Chain) (cutoff : Z) (s : BlockHeaderWithNumber * list hash * list Z) :
    comp (BlockHeaderWithNumber * list hash * list Z + list hash * list Z) :=
  let '(last, relevant, timestamps) := s in
  let relevant := relevant ++ [bn_hash last] in
  let timestamps := timestamps ++ [bn_timestamp last] in
  if bool_decide (bn_parent last = EMPTY_HASH) then mret (inr (relevant, timestamps))
  else
    last ← Finished (known c (bn_parent last));
    mret (if bn_timestamp last <? cutoff then inr (relevant, timestamps) else inl (last, relevant, timestamps)).

(** The walk from the top block to the last one that is recent enough: their hashes, their
    times, and the time of the top block. *)
Definition relevant_blocks (c : Chain) (fuel : nat) (top : hash) : comp (list hash * list Z * Z) :=
  top_header ← Finished (known c top);
  let now := bn_timestamp top_header in
  let cutoff := wrap32 (now - 86400 * 15) in
  '(relevant, timestamps) ← loop (relevant_step c cutoff) fuel (top_header, [], []);
  mret (relevant, timestamps, now).

(** The loop that takes what it can out of the cache, from index [i] on. *)
Fixpoint push_cached (cache : list BlockMetrics) (i count : nat) (bms : list BlockMetrics) : list BlockMetrics :=
  match count with
  | O => bms
  | S count =>
      match cache !! i with
      | Some bm => push_cached cache (S i) count (bms ++ [bm])
      | None => bms
      end
  end.

(** The sums over the blocks of a day. *)
Definition add_metrics (s : Z * Z * f64) (bm : BlockMetrics) : Z * Z * f64 :=
  let '(total_vol, total_txs, median_fees_sum) := s in
  (total_vol +! volume bm, total_txs +! txs_count bm, f64_add median_fees_sum (median_fee_rate bm)).

Definition insert_day (cutoff : Z) (group : list BlockMetrics) (result : Stats) : Stats :=
  let '(total_vol, total_txs, median_fees_sum) := foldl add_metrics (0, 0, f64_zero) group in
  mkStats (<[ cutoff := f64_div median_fees_sum (f64_of_Z (len group)) ]> (average_median_fees result))
    (<[ cutoff := total_txs ]> (stats_transactions result)) (<[ cutoff := total_vol ]> (stats_volume result)).

(** The body of the loop over the blocks: [boundary], [cutoff] and [result] *)
Definition day_step (timestamps : list Z) (bms : list BlockMetrics) (s : nat * Z * Stats) (i : nat) :
    outcome (nat * Z * Stats) :=
  let '(boundary, cutoff, result) := s in
  t ← expect (timestamps !! i) out_of_bounds;
  if t <? cutoff then
    Ok (i, wrap32 (cutoff - 86400), insert_day cutoff (drop boundary (take i bms)) result)
  else Ok s.

Definition group_by_day (now : Z) (timestamps : list Z) (bms : list BlockMetrics) : outcome Stats :=
  '(_, _, result) ← for_each (day_step timestamps bms) (seq 0 (length bms))
    (0%nat, wrap32 (now - now mod 86400), Stats_default);
  Ok result.

(** The metrics of the relevant blocks. A lookup that panics in its task is an error
    for the caller. *)
Definition relevant_metrics (block_stats : gmap hash BlockMetrics) (relevant : list hash)
    (cache : option (list BlockMetrics)) : outcome (list BlockMetrics) :=
  let bms := match cache with Some cache => push_cached cache 0 (length relevant) [] | None => [] end in
  for_each (λ bms h, bm ← spawn_blocking (find_block_metrics block_stats h); Ok (bms ++ [bm]))
    (drop (length bms) relevant) bms.

Definition calculate_stats (c : Chain) (fuel : nat) (block_stats : gmap hash BlockMetrics) (top : hash)
    (cache : option (list BlockMetrics)) : comp Stats :=
  '(relevant, timestamps, now) ← relevant_blocks c fuel top;
  bms ← Finished (relevant_metrics block_stats relevant cache);
  Finished (group_by_day now timestamps bms).

(** * The page *)

Section page.
Context `{RocksDb, Layout, RegexLib}.

(** [hex::encode] *)
Context (hex_encode : bytes → bytes).

(** [human_hash.reverse()], and the encoding *)
Definition human_hash (h : hash) : bytes := hex_encode (rev h).

(** Both counts have been reached. *)
Definition page_full (blocks : list ShortBlock) (txs : list ShortTx) : bool :=
  (len blocks =? FRONTPAGE_BLOCKS_COUNT) && (len txs =? FRONTPAGE_TXS_COUNT).

(** A new entry for a block, with the miner and its share. *)
Definition push_short_block (w : Miners) (current : BlockHeaderWithNumber) (tx_count : Z)
    (reward_sats : outcome Z) (blocks : list ShortBlock) : outcome (list ShortBlock) :=
  miner ← get_miner_for_block_and_share w (bn_hash current);
  '(miner_id, miner_name, recent_miner_share) ← expect miner "called `Option::unwrap()` on a `None` value";
  reward_sats ← reward_sats;
  Ok (blocks ++ [mkShortBlock (bn_number current) (bn_hash current) tx_count reward_sats f64_zero
                   (bn_timestamp current) miner_id miner_name recent_miner_share]).

(** The entry for a transaction out of the database. *)
Definition push_stored_tx (d : Databases) (current : BlockHeaderWithNumber) (txs : list ShortTx)
    (tx_entry : BlockTxEntry) : outcome (list ShortTx) :=
  tx ← unwrap (get_analyzed_tx d (be_hash tx_entry)) "to get analyzed tx from rocksdb";
  Ok (txs ++ [mkShortTx (human_hash (be_hash tx_entry)) (an_txouts_sum tx) (an_size_wus tx) (bn_timestamp current)
                (bn_number current) (bn_hash current) (an_fee tx) f64_zero]).

(** The body of the loop of [generate_frontpage_data] *)
Definition generate_step (c : Chain) (d : Databases) (w : Miners)
    (s : BlockHeaderWithNumber * list ShortBlock * list ShortTx) :
    comp (BlockHeaderWithNumber * list ShortBlock * list ShortTx + list ShortBlock * list ShortTx) :=
  let '(current, blocks, txs) := s in
  if page_full blocks txs then mret (inr (blocks, txs))
  else
    entries ← Finished (unwrap (get_block_tx_entries d (bn_hash current)) "to fetch block txs from rocksdb");
    blocks ← Finished (push_short_block w current (len entries)
      (e ← expect (head entries) out_of_bounds; Ok (be_value_sats e)) blocks);
    let missing_txs := Z.min (FRONTPAGE_TXS_COUNT -! len txs) (len entries) in
    txs ← Finished (for_each (push_stored_tx d current) (take (Z.to_nat missing_txs) entries) txs);
    if bool_decide (bn_parent current = EMPTY_HASH) then mret (inr (blocks, txs))
    else next ← Finished (known c (bn_parent current)); mret (inl (next, blocks, txs)).

(** What a caller goes on with when [calculate_stats] gives an error. *)
Definition or_return {A} (m : comp Stats) (early : A) (f : Stats → comp A) : comp A :=
  match m with
  | Finished (Err _) => mret early
  | m => stats ← m; f stats
  end.

(** Gives the page, and whether it was sent to the subscribers. *)
Definition generate_frontpage_data (c : Chain) (fuel : nat) (block_stats : gmap hash BlockMetrics) (d : Databases)
    (w : Miners) (page : FrontPageData) (top : hash) : comp (FrontPageData * bool) :=
  or_return (calculate_stats c fuel block_stats top None) (page, false) (λ stats,
    current ← Finished (known c top);
    '(blocks, txs) ← loop (generate_step c d w) fuel (current, [], []);
    mret (mkFrontPageData stats blocks txs None, true)).

(** The entry for a transaction of a block that was just analyzed. *)
Definition short_tx (current : BlockHeaderWithNumber) (tx : SerializedTx) : ShortTx :=
  mkShortTx (human_hash (st_hash tx)) (st_txouts_sum tx) (st_size_wus tx) (bn_timestamp current)
    (bn_number current) (bn_hash current) (st_fee tx) f64_zero.

(** The loop of [update_frontpage_data], over the analyses from the last to the first *)
Fixpoint walk_analyzed (c : Chain) (w : Miners) (analyzed : list (list SerializedTx))
    (current : BlockHeaderWithNumber) (blocks : list ShortBlock) (txs : list ShortTx) :
    outcome (list ShortBlock * list ShortTx) :=
  match analyzed with
  | [] => Ok (blocks, txs)
  | block_txs :: rest =>
      if page_full blocks txs then Ok (blocks, txs)
      else
        blocks ← push_short_block w current (len block_txs)
          (t ← expect (head block_txs) out_of_bounds; Ok (st_txouts_sum t)) blocks;
        let missing_txs := Z.min (FRONTPAGE_TXS_COUNT -! len txs) (len block_txs) in
        let txs := txs ++ map (short_tx current) (take (Z.to_nat missing_txs) block_txs) in
        match rest with
        | [] => Ok (blocks, txs)
        | _ => next ← known c (bn_parent current); walk_analyzed c w rest next blocks txs
        end
  end.

(** What is missing is copied from the previous page. *)
Definition keep_from_old {A} (count : Z) (new old : list A) : list A :=
  let missing := count -! len new in
  if missing =? 0 then new else new ++ take (Z.to_nat (Z.min missing (len old))) old.

Definition calculate_sync_stats (c : Chain) (top_synced_block_number : Z) (speed : option f64) : option SyncStats :=
  let remaining_blocks := bn_number (top_header c) -! top_synced_block_number in
  match speed with
  | Some speed =>
      if remaining_blocks =? 0 then None
      else Some (mkSyncStats (bn_number (top_header c) +! 1) (top_synced_block_number +! 1)
                   (f64_div (f64_of_Z remaining_blocks) speed))
  | None => None
  end.

(** Gives the page, and what was sent to the subscribers. *)
Definition update_frontpage_data (c : Chain) (fuel : nat) (block_stats : gmap hash BlockMetrics) (w : Miners)
    (page : FrontPageData) (top : hash) (metrics_cache : list BlockMetrics)
    (analyzed_cache : list (list SerializedTx)) (speed : option f64) :
    comp (FrontPageData * option FrontPageDataUpdate) :=
  or_return (calculate_stats c fuel block_stats top (Some metrics_cache)) (page, None) (λ stats,
    current ← Finished (known c top);
    '(blocks, txs) ← Finished (walk_analyzed c w (rev analyzed_cache) current [] []);
    let data := mkFrontPageData stats (keep_from_old FRONTPAGE_BLOCKS_COUNT blocks (latest_blocks page))
                  (keep_from_old FRONTPAGE_TXS_COUNT txs (latest_txs page))
                  (calculate_sync_stats c (bn_number current) speed) in
    mret (data, Some (if FRONTPAGE_BLOCKS_COUNT <=? len metrics_cache then Snapshot data else Delta data))).
End page.

(** * The statistics of a day *)

(** The start of the day of a time, in UTC *)
Definition day (t : Z) : Z := t - t mod 86400.

(** A block of the walk: its time and its metrics. *)
Abbreviation timed := (Z * BlockMetrics)%type.

Definition of_day (k : Z) (l : list timed) : list BlockMetrics := (List.filter (λ x, day x.1 =? k) l).*2.

(** The average of the median fee rates, the number of transactions and the volume of a day
    with blocks *)
Definition day_totals (group : list BlockMetrics) : option (f64 * Z * Z) :=
  match group with
  | [] => None
  | _ =>
      Some (f64_div (foldl f64_add f64_zero (map median_fee_rate group)) (f64_of_Z (len group)),
        wrap64 (foldr Z.add 0 (map txs_count group)), wrap64 (foldr Z.add 0 (map volume group)))
  end.

(** The statistics have one entry for each day of these blocks, with its totals. *)
Definition stats_of (l : list timed) (r : Stats) : Prop := ∀ k,
  average_median_fees r !! k = (λ x, x.1.1) <$> day_totals (of_day k l) ∧
  stats_transactions r !! k = (λ x, x.1.2) <$> day_totals (of_day k l) ∧
  stats_volume r !! k = snd <$> day_totals (of_day k l).

(** Blocks in the order of the walk, with no day without a block in between. *)
Definition next_timed (a b : timed) : Prop := b.1 <= a.1 ∧ day a.1 - 86400 <= day b.1.

Lemma wrap32_small z : in_u32 z → wrap32 z = z.
Proof. unfold in_u32, wrap32. intros. by apply Z.mod_small. Qed.

Lemma day_range t : day t <= t < day t + 86400.
Proof. unfold day. pose proof (Z.mod_pos_bound t 86400). lia. Qed.

Lemma day_u32 t : in_u32 t → in_u32 (day t).
Proof. unfold in_u32, day. pose proof (Z.mod_pos_bound t 86400). pose proof (Z.mod_le t 86400). lia. Qed.

Lemma day_divide t : (86400 | day t).
Proof. exists (t / 86400). unfold day. pose proof (Z.div_mod t 86400). lia. Qed.

Lemma day_unique t k : (86400 | k) → k <= t < k + 86400 → day t = k.
Proof.
  intros [q ->] Ht. unfold day. rewrite (Z.mod_eq t 86400), <- (Z.div_unique t 86400 q (t - 86400 * q)) by lia. lia.
Qed.

Lemma push_cached_take cache count : ∀ i bms, push_cached cache i count bms = bms ++ take count (drop i cache).
Proof.
  induction count as [|count IH]; intros i bms; cbn [push_cached]; [by rewrite app_nil_r|].
  destruct (cache !! i) as [bm|] eqn:Hi.
  - rewrite IH, (drop_S cache bm i Hi). cbn. by rewrite <- app_assoc.
  - rewrite drop_ge by (by apply lookup_ge_None). by rewrite app_nil_r.
Qed.

Lemma add_metrics_foldl group : ∀ a b f,
  foldl add_metrics (wrap64 a, wrap64 b, f) group
  = (wrap64 (a + foldr Z.add 0 (map volume group)), wrap64 (b + foldr Z.add 0 (map txs_count group)),
     foldl f64_add f (map median_fee_rate group)).
Proof.
  induction group as [|bm group IH]; intros a b f; cbn; [by rewrite !Z.add_0_r|].
  rewrite !wrap64_add_l, IH. by rewrite !Z.add_assoc.
Qed.

Lemma of_day_app k l1 l2 : of_day k (l1 ++ l2) = of_day k l1 ++ of_day k l2.
Proof. unfold of_day. by rewrite List.filter_app, fmap_app. Qed.

Lemma of_day_other k l : Forall (λ x, day x.1 ≠ k) l → of_day k l = [].
Proof.
  unfold of_day. induction 1 as [|x l Hx _ IH]; [done|]. cbn. by rewrite (proj2 (Z.eqb_neq _ _)) by done.
Qed.

Lemma of_day_same k l : Forall (λ x, day x.1 = k) l → of_day k l = l.*2.
Proof.
  unfold of_day. induction 1 as [|x l Hx _ IH]; [done|]. cbn. rewrite (proj2 (Z.eqb_eq _ _)) by done. cbn. by rewrite IH.
Qed.

Lemma insert_day_totals cutoff group result :
  insert_day cutoff group result
  = mkStats (<[ cutoff := f64_div (foldl f64_add f64_zero (map median_fee_rate group)) (f64_of_Z (len group)) ]>
        (average_median_fees result))
      (<[ cutoff := wrap64 (foldr Z.add 0 (map txs_count group)) ]> (stats_transactions result))
      (<[ cutoff := wrap64 (foldr Z.add 0 (map volume group)) ]> (stats_volume result)).
Proof.
  unfold insert_day. pose proof (add_metrics_foldl group 0 0 f64_zero) as Hf. change (wrap64 0) with 0 in Hf.
  rewrite !Z.add_0_l in Hf. by rewrite Hf.
Qed.

Lemma insert_day_stats cutoff don grp r :
  grp ≠ [] → Forall (λ x, day x.1 = cutoff) grp → Forall (λ x, cutoff < day x.1) don →
  stats_of don r → stats_of (don ++ grp) (insert_day cutoff grp.*2 r).
Proof.
  intros Hne Hgrp Hdon Hr k. rewrite insert_day_totals, of_day_app. cbn [average_median_fees stats_transactions stats_volume].
  destruct (decide (k = cutoff)) as [->|Hk].
  - rewrite !lookup_insert_eq, (of_day_other _ don), (of_day_same _ grp) by
      (done || (eapply Forall_impl; [exact Hdon|intros x Hx; cbn beta in Hx; lia])).
    by destruct grp as [|[t bm] grp].
  - rewrite !lookup_insert_ne by done.
    rewrite (of_day_other _ grp), app_nil_r by (eapply Forall_impl; [exact Hgrp|intros x Hx; cbn beta in *; congruence]). apply Hr.
Qed.

(** The loop from the blocks [don] of complete days and those of the day [cutoff] on *)
Lemma day_steps l rest : ∀ don grp cutoff r,
  l = don ++ grp ++ rest → (86400 | cutoff) → in_u32 cutoff → Forall (λ x, in_u32 x.1) rest →
  Forall (λ x, day x.1 = cutoff) grp → Forall (λ x, cutoff < day x.1) don → stats_of don r →
  match rest with
  | x :: _ => x.1 < cutoff + 86400 ∧ cutoff - 86400 <= day x.1 ∧ (grp ≠ [] ∨ day x.1 = cutoff)
  | [] => True
  end → Sorted next_timed rest →
  ∃ don' grp' r', let cutoff' := match last rest with Some x => day x.1 | None => cutoff end in
    for_each (day_step l.*1 l.*2) (seq (length don + length grp) (length rest)) (length don, cutoff, r)
    = Ok (length don', cutoff', r') ∧ l = don' ++ grp' ∧
    Forall (λ x, day x.1 = cutoff') grp' ∧ Forall (λ x, cutoff' < day x.1) don' ∧ stats_of don' r'.
Proof.
  induction rest as [|[t bm] rest IH]; intros don grp cutoff r Hl Hdiv Hcut Hu Hgrp Hdon Hr Hx Hs.
  { exists don, grp, r. rewrite app_nil_r in Hl. by split_and!. }
  destruct Hx as (Hlt & Hge & Hfirst). cbn [fst] in *. apply Forall_cons in Hu as [Ht Hu]. cbn [fst] in Ht.
  apply Sorted_inv in Hs as [Hs Hhd]. pose proof (day_range t) as Hday.
  assert (last ((t, bm) :: rest) = Some (default (t, bm) (last rest))) as Hlast
    by (rewrite last_cons; by destruct (last rest)).
  assert (∀ don1 grp1 r1, l = don1 ++ grp1 ++ (t, bm) :: rest → Forall (λ x, day x.1 = day t) grp1 →
    Forall (λ x, day t < day x.1) don1 → stats_of don1 r1 →
    ∃ don' grp' r', for_each (day_step l.*1 l.*2) (seq (S (length don1 + length grp1)) (length rest)) (length don1, day t, r1)
    = Ok (length don', day (default (t, bm) (last rest)).1, r') ∧ l = don' ++ grp' ∧
    Forall (λ x, day x.1 = day (default (t, bm) (last rest)).1) grp' ∧
    Forall (λ x, day (default (t, bm) (last rest)).1 < day x.1) don' ∧ stats_of don' r') as Hnext.
  { intros don1 grp1 r1 Hl1 Hg1 Hd1 Hr1. destruct (IH don1 (grp1 ++ [(t, bm)]) (day t) r1) as (don' & grp' & r' & Hgo & Hrest).
    - rewrite Hl1. by rewrite <- (app_assoc grp1).
    - apply day_divide.
    - by apply day_u32.
    - done.
    - apply Forall_app. split; [done|]. by constructor.
    - done.
    - done.
    - destruct rest as [|[t' bm'] rest]; [done|]. inversion Hhd as [|? ? Hn]; subst. unfold next_timed in Hn. cbn [fst] in *.
      split_and!; [lia|lia|]. left. by destruct grp1.
    - done.
    - exists don', grp', r'. rewrite length_app, Nat.add_assoc, Nat.add_1_r in Hgo. destruct (last rest) as [y|]; exact (conj Hgo Hrest). }
  rewrite Hlast. cbn [length seq for_each].
  assert (l.*1 !! (length don + length grp)%nat = Some t) as Hts.
  { rewrite Hl, app_assoc, fmap_app, lookup_app_r by (rewrite length_fmap, length_app; lia).
    by rewrite length_fmap, length_app, Nat.sub_diag. }
  unfold day_step at 2. rewrite Hts. cbn [expect mbind outcome_bind]. destruct (Z.ltb_spec t cutoff) as [Hc|Hc].
  - assert (day t = cutoff - 86400) as Hd.
    { assert (day t < cutoff) by lia. pose proof (day_divide t) as [q Hq]. destruct Hdiv as [p Hp]. lia. }
    assert (grp ≠ []) as Hgne by (destruct Hfirst as [?|?]; [done|lia]).
    rewrite <- Hd, wrap32_small by by apply day_u32.
    assert (drop (length don) (take (length don + length grp) l.*2) = grp.*2) as ->.
    { rewrite Hl, !fmap_app, take_app_add', <- (length_fmap snd don), drop_app_length, take_app_length'
        by (by rewrite ?length_fmap). done. }
    pose proof (Hnext (don ++ grp) [] (insert_day cutoff grp.*2 r)) as Hgo. cbn [app length] in Hgo.
    rewrite Nat.add_0_r, length_app in Hgo. apply Hgo; [by rewrite <- app_assoc|done| |by apply insert_day_stats].
    apply Forall_app. split; [by eapply Forall_impl; [exact Hdon|intros x; cbn beta; lia]|].
    eapply Forall_impl; [exact Hgrp|]. intros x ->. lia.
  - assert (day t = cutoff) as Hd by (apply day_unique; [done|lia]). rewrite <- Hd. rewrite <- Hd in Hgrp, Hdon.
    by apply Hnext.
Qed.

Lemma group_by_day_spec now l :
  Forall (λ x, in_u32 x.1) l → Sorted next_timed l → (fst <$> head l) = Some now →
  ∃ r, group_by_day now l.*1 l.*2 = Ok r ∧
    stats_of (List.filter (λ x, day (default now (fst <$> last l)) <? day x.1) l) r.
Proof.
  intros Hu Hs Hnow. destruct l as [|[t bm] l]; [done|]. cbn [fmap option_map head option_fmap fst] in Hnow.
  injection Hnow as ->. pose proof (day_range now). assert (in_u32 now) as Hn by by apply Forall_cons in Hu as [Hu _].
  unfold group_by_day. change (now - now mod 86400) with (day now). rewrite wrap32_small by by apply day_u32.
  destruct (day_steps ((now, bm) :: l) ((now, bm) :: l) [] [] (day now) Stats_default) as (don & grp & r & Hgo & Hl & Hgrp & Hdon & Hr);
    try done.
  - apply day_divide.
  - by apply day_u32.
  - cbn [fst]. split_and!; [lia|lia|by right].
  - rewrite length_fmap. cbn [Nat.add length] in Hgo. change (length (@nil timed)) with 0%nat in Hgo. cbn [length]. rewrite Hgo.
    cbn [mbind outcome_bind]. exists r. split; [done|].
    assert (last ((now, bm) :: l) = Some (default (now, bm) (last l))) as Hlast by (rewrite last_cons; by destruct (last l)).
    rewrite Hlast in *. cbn [fmap option_fmap option_map from_option] in *. cbv zeta in Hgrp, Hdon. rewrite Hl.
    assert (∀ k, Forall (λ x, k < day x.1) don → Forall (λ x, day x.1 = k) grp →
      List.filter (λ x, k <? day x.1) (don ++ grp) = don) as Hf; [|by rewrite Hf].
    intros k Hd Hg. rewrite List.filter_app. assert (List.filter (λ x, k <? day x.1) grp = []) as ->.
    { clear -Hg. induction Hg as [|x grp Hx _ IH]; [done|]. cbn [List.filter]. by rewrite (proj2 (Z.ltb_ge _ _)) by lia. }
    rewrite app_nil_r. clear -Hd. induction Hd as [|x don Hx _ IH]; [done|]. cbn [List.filter]. by rewrite (proj2 (Z.ltb_lt _ _)), IH by lia.
Qed.

(** * The blocks of the statistics *)

Section walk.
Context `{Sha256, U256Lib} (c : Chain) (fuel : nat).
Context (Hwf : chain_wf c) (Hfuel : enough c fuel).

(** The top block, and those before it up to the first that is too old *)
Definition recent_ancestors (x : BlockHeaderWithNumber) : list BlockHeaderWithNumber :=
  x :: take_while (λ a, wrap32 (bn_timestamp x - 86400 * 15) <=? bn_timestamp a) (tail (ancestors c x)).

Lemma relevant_blocks_spec top x :
  known_headers c !! top = Some x →
  relevant_blocks c fuel top
  = Finished (Ok (map (λ a, bn_hash a) (recent_ancestors x), map (λ a, bn_timestamp a) (recent_ancestors x),
                  bn_timestamp x)).
Proof.
  intros Hx. assert (in_chain c x) as Hin by by eapply in_chain_known. unfold relevant_blocks.
  rewrite (known_Some _ _ _ Hx). cbn [mbind comp_bind]. unfold recent_ancestors. set (cutoff := wrap32 _). clearbody cutoff.
  assert (∀ a, in_chain c a → ∀ n rel ts, (Z.to_nat (bn_number a) < n)%nat →
    loop (relevant_step c cutoff) n (a, rel, ts)
    = Finished (Ok (rel ++ map (λ a, bn_hash a) (a :: take_while (λ a, cutoff <=? bn_timestamp a) (tail (ancestors c a))),
        ts ++ map (λ a, bn_timestamp a) (a :: take_while (λ a, cutoff <=? bn_timestamp a) (tail (ancestors c a)))))) as Hloop.
  { clear x Hx Hin. refine (in_chain_ind c _ Hwf _ _).
    - intros x Hx Hn -> n rel ts Hf. destruct n as [|n]; [lia|]. erewrite loop_inr; [done|]. unfold relevant_step.
      by rewrite bool_decide_true by by apply (in_chain_root c x Hwf Hx).
    - intros x p Hx Hp Hkp Hh Hn -> IH n rel ts Hf. destruct n as [|n]; [lia|].
      pose proof (in_chain_number c p Hwf Hp). pose proof (in_chain_number c x Hwf Hx).
      assert (relevant_step c cutoff (x, rel, ts) = mret (if bn_timestamp p <? cutoff
        then inr (rel ++ [bn_hash x], ts ++ [bn_timestamp x])
        else inl (p, rel ++ [bn_hash x], ts ++ [bn_timestamp x]))) as Hstep.
      { unfold relevant_step. rewrite bool_decide_false by (rewrite <- (in_chain_root c x Hwf Hx); lia).
        by rewrite (known_Some _ _ _ Hkp). }
      destruct (ancestors_head c p) as [l Hl]. cbn [tail]. rewrite Hl. cbn [take_while].
      destruct (Z.ltb_spec (bn_timestamp p) cutoff) as [Hc|Hc].
      + rewrite (proj2 (Z.leb_gt _ _)) by done. by erewrite loop_inr by exact Hstep.
      + rewrite (proj2 (Z.leb_le _ _)) by done. erewrite loop_inl by exact Hstep. rewrite IH, Hl by lia.
        cbn [tail map]. by rewrite <- !app_assoc. }
  rewrite (Hloop x Hin fuel [] []) by by apply (number_fuel c). done.
Qed.

Lemma found_metrics block_stats metrics l : ∀ bms,
  Forall (λ a, block_stats !! bn_hash a = Some (metrics a)) l →
  for_each (λ bms h, bm ← spawn_blocking (find_block_metrics block_stats h); Ok (bms ++ [bm]))
    (map (λ a : BlockHeaderWithNumber, bn_hash a) l) bms = Ok (bms ++ map metrics l).
Proof.
  induction l as [|a l IH]; intros bms Hl; cbn [map for_each]; [by rewrite app_nil_r|].
  apply Forall_cons in Hl as [Ha Hl].
  assert (find_block_metrics block_stats (bn_hash a) = Ok (metrics a)) as -> by (unfold find_block_metrics; by rewrite Ha).
  cbn [expect spawn_blocking mbind outcome_bind].
  rewrite IH by done. by rewrite <- app_assoc.
Qed.

(** What the cache holds is taken for the metrics of the newest blocks. *)
Lemma calculate_stats_spec block_stats metrics top x cache :
  known_headers c !! top = Some x →
  let l := recent_ancestors x in
  let cached := match cache with Some cache => take (length l) cache | None => [] end in
  Forall (λ a, block_stats !! bn_hash a = Some (metrics a)) l →
  calculate_stats c fuel block_stats top cache
  = Finished (group_by_day (bn_timestamp x) (map (λ a, bn_timestamp a) l) (cached ++ map metrics (drop (length cached) l))).
Proof.
  intros Hx l cached Hm. unfold calculate_stats. rewrite (relevant_blocks_spec top x Hx). fold l. cbn [mbind comp_bind].
  unfold relevant_metrics.
  assert (match cache with Some cache => push_cached cache 0 (length (map (λ a, bn_hash a) l)) [] | None => [] end = cached) as ->.
  { destruct cache as [cache|]; [|done]. by rewrite push_cached_take, length_map. }
  rewrite skipn_map, (found_metrics block_stats metrics) by by apply Forall_drop. done.
Qed.
End walk.

(** * The newest blocks *)

Section newest.
Context `{Sha256, U256Lib, RocksDb, Layout, RegexLib} (hex_encode : bytes → bytes).
Context (c : Chain) (w : Miners) (Hwf : chain_wf c).

(** A block with its analysis *)
Abbreviation analyzed_block := (BlockHeaderWithNumber * list SerializedTx)%type.

(** What an entry says of its block, but for the miner and its share. *)
Definition block_key (b : ShortBlock) : Z * hash * Z * Z * Z :=
  (sb_number b, sb_hash b, sb_tx_count b, sb_reward_sats b, sb_timestamp b).

Definition expected_key (x : analyzed_block) : Z * hash * Z * Z * Z :=
  (bn_number x.1, bn_hash x.1, len x.2, from_option st_txouts_sum 0 (head x.2), bn_timestamp x.1).

Definition expected_txs (l : list analyzed_block) : list ShortTx :=
  concat (map (λ x, map (short_tx hex_encode x.1) x.2) l).

(** The entries of the page are those of the newest of these blocks, newest first. *)
Definition shows (l : list analyzed_block) (blocks : list ShortBlock) (txs : list ShortTx) : Prop :=
  map block_key blocks = take 50 (map expected_key l) ∧ txs = take 50 (expected_txs l).

(** A block with transactions and a miner *)
Definition block_ready (x : analyzed_block) : Prop :=
  x.2 ≠ [] ∧ ∃ r, get_miner_for_block_and_share w (bn_hash x.1) = Ok (Some r).

Lemma expected_txs_app l k : expected_txs (l ++ k) = expected_txs l ++ expected_txs k.
Proof. unfold expected_txs. by rewrite map_app, concat_app. Qed.

Lemma expected_txs_length l : Forall block_ready l → (length l ≤ length (expected_txs l))%nat.
Proof.
  unfold expected_txs. induction 1 as [|x l [Hx _] _ IH]; cbn; [done|]. rewrite length_app, length_map.
  destruct x.2; [done|]. cbn. lia.
Qed.

Lemma shows_full l blocks txs :
  Forall block_ready l → (length l ≤ 50)%nat → shows l blocks txs → page_full blocks txs = bool_decide (length l = 50%nat).
Proof.
  intros Hl H50 [Hb ->]. pose proof (expected_txs_length l Hl) as Ht. apply (f_equal length) in Hb.
  rewrite length_map, length_take, length_map in Hb. unfold page_full, FRONTPAGE_BLOCKS_COUNT, FRONTPAGE_TXS_COUNT, len.
  rewrite length_take, Hb. case_bool_decide as He.
  - rewrite (proj2 (Z.eqb_eq _ _)), (proj2 (Z.eqb_eq _ _)) by lia. done.
  - rewrite (proj2 (Z.eqb_neq _ _)) by lia. done.
Qed.

(** More blocks do not change a full page. *)
Lemma shows_more l k blocks txs :
  Forall block_ready l → length l = 50%nat → shows l blocks txs → shows (l ++ k) blocks txs.
Proof.
  intros Hl H50 [Hb Ht]. pose proof (expected_txs_length l Hl). split.
  - rewrite Hb, map_app, take_app_le; [done|]. rewrite length_map. lia.
  - rewrite Ht, expected_txs_app, take_app_le; [done|]. lia.
Qed.

Lemma push_block_ok x reward blocks :
  block_ready x → reward = Ok (from_option st_txouts_sum 0 (head x.2)) →
  ∃ b, push_short_block w x.1 (len x.2) reward blocks = Ok (blocks ++ [b]) ∧ block_key b = expected_key x.
Proof.
  intros [_ [[[id name] share] Hr]] ->. unfold push_short_block. rewrite Hr. cbn [expect mbind outcome_bind]. by eexists.
Qed.

Lemma shows_push l x b blocks txs :
  (length l < 50)%nat → shows l blocks txs → block_key b = expected_key x →
  shows (l ++ [x]) (blocks ++ [b])
    (txs ++ map (short_tx hex_encode x.1) (take (Z.to_nat (Z.min (FRONTPAGE_TXS_COUNT -! len txs) (len x.2))) x.2)).
Proof.
  intros Hl [Hb Ht] Hk. split.
  - rewrite !map_app, Hb, !take_ge by (rewrite ?length_app, ?length_map; cbn; lia). cbn. by rewrite Hk.
  - assert (0 <= len txs <= 50) as Hlen by (rewrite Ht; unfold len; rewrite length_take; lia).
    rewrite wrap64_small by (unfold in_u64, FRONTPAGE_TXS_COUNT; lia).
    assert (take (Z.to_nat (Z.min (FRONTPAGE_TXS_COUNT - len txs) (len x.2))) x.2 = take (50 - length (expected_txs l)) x.2) as ->.
    { rewrite Ht in *. unfold len, FRONTPAGE_TXS_COUNT in *. rewrite length_take in *.
      destruct (decide (length x.2 ≤ 50 - length (expected_txs l))%nat); [rewrite !take_ge by lia; done|f_equal; lia]. }
    rewrite expected_txs_app, take_app, Ht. f_equal. unfold expected_txs. cbn. by rewrite app_nil_r, <- firstn_map.
Qed.

(** ** Out of the cache *)

Lemma walk_analyzed_spec l : ∀ p current blocks txs rest,
  in_chain c current → ancestors c current = map fst l ++ rest → (length p ≤ 50)%nat →
  Forall block_ready p → Forall block_ready l → shows p blocks txs →
  ∃ blocks' txs', walk_analyzed hex_encode c w (map snd l) current blocks txs = Ok (blocks', txs') ∧
    shows (p ++ l) blocks' txs'.
Proof.
  induction l as [|x l IH]; intros p current blocks txs rest Hin Ha Hp Hpr Hl Hs; cbn [map walk_analyzed].
  { exists blocks, txs. by rewrite app_nil_r. }
  apply Forall_cons in Hl as [Hx Hl]. rewrite (shows_full p) by done. case_bool_decide as Hfull.
  { exists blocks, txs. split; [done|by apply shows_more]. }
  destruct (ancestors_head c current) as [k Hk]. rewrite Hk in Ha. cbn [map app] in Ha. injection Ha as -> Ha.
  destruct (push_block_ok x (t ← expect (head x.2) out_of_bounds; Ok (st_txouts_sum t)) blocks Hx) as (b & -> & Hb).
  { destruct Hx as [Hne _]. by destruct x.2. }
  cbn [mbind outcome_bind]. assert (length p < 50)%nat as Hp' by lia. pose proof (shows_push p x b blocks txs Hp' Hs Hb) as Hs'.
  destruct l as [|y l]; [by do 2 eexists|]. cbn [map].
  destruct (decide (bn_number x.1 = 0)) as [Hz|Hnz].
  { rewrite (ancestors_root c x.1 Hz) in Hk. injection Hk as <-. by cbn in Ha. }
  destruct (in_chain_parent c x.1 Hwf Hin Hnz) as (q & Hq & Hiq & Hn & _). rewrite (known_Some _ _ _ Hq). cbn [mbind outcome_bind].
  pose proof (in_chain_number c q Hwf Hiq). rewrite (ancestors_cons c x.1 q) in Hk by (done || lia). injection Hk as <-.
  change (x :: y :: l) with ([x] ++ y :: l). rewrite (app_assoc p). apply (IH (p ++ [x]) q _ _ rest); try done.
  - rewrite length_app. cbn. lia.
  - apply Forall_app. by rewrite Forall_singleton.
Qed.

Lemma keep_from_old_take {A} (new old : list A) count :
  0 <= count < 2 ^ 64 → len new <= count → keep_from_old count new old = take (Z.to_nat count) (new ++ old).
Proof.
  intros Hc Hn. unfold keep_from_old. pose proof (len_nonneg new). rewrite wrap64_small by (unfold in_u64; lia).
  unfold len in *. destruct (Z.eqb_spec (count - Z.of_nat (length new)) 0) as [Hz|Hz].
  - rewrite take_app_le, take_ge by lia. done.
  - rewrite take_app_ge by lia. f_equal.
    destruct (decide (length old ≤ Z.to_nat count - length new)%nat); [rewrite !take_ge by lia; done|f_equal; lia].
Qed.

Lemma shows_keep l k blocks txs old_blocks old_txs :
  shows l blocks txs → shows k old_blocks old_txs →
  shows (l ++ k) (keep_from_old FRONTPAGE_BLOCKS_COUNT blocks old_blocks) (keep_from_old FRONTPAGE_TXS_COUNT txs old_txs).
Proof.
  intros [Hb Ht] [Hob Hot]. assert (∀ {A} (a b : list A), take 50 (take 50 a ++ take 50 b) = take 50 (a ++ b)) as Htake.
  { intros A a b. rewrite !take_app, !take_take, length_take. do 2 f_equal; lia. }
  assert (len blocks <= 50) as Hlb by (apply (f_equal length) in Hb; rewrite length_map, length_take in Hb; unfold len; lia).
  assert (len txs <= 50) as Hlt by (rewrite Ht; unfold len; rewrite length_take; lia).
  split; rewrite keep_from_old_take by (unfold FRONTPAGE_BLOCKS_COUNT, FRONTPAGE_TXS_COUNT; lia).
  - change (Z.to_nat FRONTPAGE_BLOCKS_COUNT) with 50%nat. rewrite <- firstn_map, map_app, Hb, Hob, Htake. by rewrite map_app.
  - change (Z.to_nat FRONTPAGE_TXS_COUNT) with 50%nat. by rewrite Ht, Hot, Htake, expected_txs_app.
Qed.
(** ** Out of the database *)

Context (d : Databases).

(** The database gives back what was computed of a transaction. *)
Definition tx_stored (st : SerializedTx) : Prop := ∃ an,
  get_analyzed_tx d (st_hash st) = Ok an ∧ an_txouts_sum an = st_txouts_sum st ∧
  an_size_wus an = st_size_wus st ∧ an_fee an = st_fee st.

Definition block_stored (x : analyzed_block) : Prop :=
  get_block_tx_entries d (bn_hash x.1) = Ok (map tx_entry x.2) ∧ Forall tx_stored x.2.

Lemma push_stored_txs current sts : ∀ txs,
  Forall tx_stored sts →
  for_each (push_stored_tx hex_encode d current) (map tx_entry sts) txs = Ok (txs ++ map (short_tx hex_encode current) sts).
Proof.
  induction sts as [|st sts IH]; intros txs Hs; cbn [map for_each]; [by rewrite app_nil_r|].
  apply Forall_cons in Hs as [(an & Han & Hv & Hw & Hf) Hs].
  assert (push_stored_tx hex_encode d current txs (tx_entry st) = Ok (txs ++ [short_tx hex_encode current st])) as ->.
  { unfold push_stored_tx. cbn [tx_entry be_hash]. rewrite Han. cbn. unfold short_tx. by rewrite Hv, Hw, Hf. }
  cbn [mbind outcome_bind]. rewrite IH by done. by rewrite <- app_assoc.
Qed.

(** An iteration that adds a block *)
Lemma generate_step_push p x blocks txs :
  (length p < 50)%nat → Forall block_ready p → block_ready x → block_stored x → shows p blocks txs →
  ∃ blocks' txs', shows (p ++ [x]) blocks' txs' ∧
    generate_step hex_encode c d w (x.1, blocks, txs)
    = if bool_decide (bn_parent x.1 = EMPTY_HASH) then mret (inr (blocks', txs'))
      else next ← Finished (known c (bn_parent x.1)); mret (inl (next, blocks', txs')).
Proof.
  intros Hp Hpr Hx [He Hst] Hs. unfold generate_step. rewrite (shows_full p), bool_decide_false by (done || lia).
  rewrite He. cbn [unwrap]. rewrite comp_bind_Finished, len_map.
  destruct (push_block_ok x (e ← expect (head (map tx_entry x.2)) out_of_bounds; Ok (be_value_sats e)) blocks Hx) as (b & -> & Hb).
  { destruct Hx as [Hne _]. by destruct x.2. }
  rewrite comp_bind_Finished. cbv zeta. rewrite firstn_map, push_stored_txs by by apply Forall_take.
  rewrite comp_bind_Finished. do 2 eexists. split; [|done]. by apply shows_push.
Qed.

Lemma generate_page_loop l : ∀ p current blocks txs rest n,
  in_chain c current → ancestors c current = map fst l ++ rest → (Z.to_nat (bn_number current) < n)%nat →
  rest = [] ∨ length (p ++ l) = 50%nat → (length (p ++ l) ≤ 50)%nat →
  Forall block_ready p → Forall block_ready l → Forall block_stored l → shows p blocks txs →
  ∃ blocks' txs', loop (generate_step hex_encode c d w) n (current, blocks, txs) = Finished (Ok (blocks', txs')) ∧
    shows (p ++ l) blocks' txs'.
Proof.
  induction l as [|x l IH]; intros p current blocks txs rest n Hin Ha Hf Hrest H50 Hpr Hl Hst Hs;
    (destruct n as [|n]; [lia|]); destruct (ancestors_head c current) as [k Hk]; rewrite Hk in Ha.
  - exists blocks, txs. rewrite app_nil_r in *. split; [|done]. apply loop_inr. unfold generate_step.
    destruct Hrest as [->|Hrest]; [done|]. by rewrite (shows_full p), bool_decide_true by (done || lia).
  - apply Forall_cons in Hl as [Hx Hl], Hst as [Hxs Hst]. cbn [map app] in Ha. injection Ha as -> Ha.
    assert (length p < 50)%nat as Hp by (rewrite length_app in H50; cbn in H50; lia).
    destruct (generate_step_push p x blocks txs Hp Hpr Hx Hxs Hs) as (blocks' & txs' & Hs' & Hstep).
    pose proof (in_chain_root c x.1 Hwf Hin) as Hr. case_bool_decide as Hroot.
    + rewrite (ancestors_root c x.1) in Hk by tauto. injection Hk as <-. destruct l; [|done].
      exists blocks', txs'. split; [by apply loop_inr|done].
    + destruct (in_chain_parent c x.1 Hwf Hin) as (q & Hq & Hiq & Hn & _); [tauto|].
      rewrite (known_Some _ _ _ Hq) in Hstep. pose proof (in_chain_number c q Hwf Hiq).
      rewrite (ancestors_cons c x.1 q) in Hk by (done || lia). injection Hk as <-.
      rewrite (loop_inl _ _ _ _ Hstep). change (x :: l) with ([x] ++ l) in *. rewrite (app_assoc p) in *.
      apply (IH (p ++ [x]) q _ _ rest); try done; [lia|].
      apply Forall_app. by rewrite Forall_singleton.
Qed.
End newest.

(** The loop over the days has a time for every block. *)
Lemma group_by_day_Ok now ts bms : (length bms ≤ length ts)%nat → ∃ r, group_by_day now ts bms = Ok r.
Proof.
  intros Hl. unfold group_by_day.
  assert (∀ l s, Forall (λ i, i < length ts)%nat l → ∃ s', for_each (day_step ts bms) l s = Ok s') as Hgo.
  { induction l as [|i l IH]; intros s Hi; cbn [for_each]; [by eexists|]. apply Forall_cons in Hi as [Hi Hl'].
    destruct s as [[b cut] r]. apply lookup_lt_is_Some_2 in Hi as [t Ht].
    assert (∃ s', day_step ts bms (b, cut, r) i = Ok s') as [s' ->]; [|by apply IH].
    unfold day_step. rewrite Ht. cbn [expect mbind outcome_bind]. case_match; by eexists. }
  destruct (Hgo (seq 0 (length bms)) (0%nat, wrap32 (now - now mod 86400), Stats_default)) as [[[b cut] r] ->].
  - apply Forall_forall. intros i Hi%elem_of_seq. lia.
  - by exists r.
Qed.

(** The metrics of the relevant blocks are in the cache or in the database. *)
Lemma calculate_stats_Ok `{Sha256, U256Lib} c fuel block_stats top x cache :
  chain_wf c → enough c fuel → known_headers c !! top = Some x →
  Forall (λ a, is_Some (block_stats !! bn_hash a)) (recent_ancestors c x) →
  ∃ r, calculate_stats c fuel block_stats top cache = Finished (Ok r).
Proof.
  intros Hwf Hfuel Hx Hm. set (metrics := λ a : BlockHeaderWithNumber, default BlockMetrics_default (block_stats !! bn_hash a)).
  rewrite (calculate_stats_spec c fuel Hwf Hfuel block_stats metrics top x cache Hx).
  - destruct (group_by_day_Ok (bn_timestamp x) (map (λ a, bn_timestamp a) (recent_ancestors c x))
      (match cache with Some cache => take (length (recent_ancestors c x)) cache | None => [] end ++
       map metrics (drop (length (match cache with Some cache => take (length (recent_ancestors c x)) cache | None => [] end))
         (recent_ancestors c x)))) as [r ->]; [|by eexists].
    rewrite length_app, !length_map, length_drop. destruct cache; [rewrite length_take|cbn]; lia.
  - eapply Forall_impl; [exact Hm|]. intros a [bm Ha]. unfold metrics. by rewrite Ha.
Qed.

(** * Properties *)

(** The page that is generated from nothing but the top block: the walk ends, with the
    newest blocks and the newest transactions of the chain, 50 of each as far as there are as
    many, newest first. *)
Theorem page_generated `{Sha256, U256Lib, RocksDb, Layout, RegexLib} hex_encode c fuel block_stats d w page top x l :
  chain_wf c → enough c fuel → known_headers c !! top = Some x →
  Forall (λ a, is_Some (block_stats !! bn_hash a)) (recent_ancestors c x) →
  map fst l = take 50 (ancestors c x) → Forall (block_ready w) l → Forall (block_stored d) l →
  ∃ page', generate_frontpage_data hex_encode c fuel block_stats d w page top = Finished (Ok (page', true)) ∧
    shows hex_encode l (latest_blocks page') (latest_txs page').
Proof.
  intros Hwf Hfuel Hx Hm Hl Hr Hs. assert (in_chain c x) as Hin by by eapply in_chain_known.
  destruct (calculate_stats_Ok c fuel block_stats top x None Hwf Hfuel Hx Hm) as [r Hstats].
  unfold generate_frontpage_data. rewrite Hstats. cbn [or_return]. rewrite comp_bind_Finished, (known_Some _ _ _ Hx), comp_bind_Finished.
  assert (length l = (50 `min` length (ancestors c x))%nat) as Hlen by (apply (f_equal length) in Hl; by rewrite length_map, length_take in Hl).
  destruct (generate_page_loop hex_encode c w Hwf d l [] x [] [] (drop 50 (ancestors c x)) fuel) as (bs & ts & -> & Hshow); try done.
  - by rewrite Hl, take_drop.
  - by apply (number_fuel c).
  - cbn [app]. destruct (decide (length (ancestors c x) ≤ 50)%nat); [left; by apply drop_ge|right; lia].
  - cbn [app]. lia.
  - exists (mkFrontPageData r bs ts None). by split.
Qed.

(** New blocks on top of those the page shows: the page shows the newest of the blocks of the
    batch and those before, just like one that is generated anew (but for the shares
    that the old entries were given); subscribers are sent the page. *)
Theorem page_updated `{Sha256, U256Lib, RegexLib} hex_encode c fuel block_stats w page top x metrics_cache l k rest speed :
  chain_wf c → enough c fuel → known_headers c !! top = Some x →
  Forall (λ a, is_Some (block_stats !! bn_hash a)) (recent_ancestors c x) →
  ancestors c x = map fst l ++ rest → Forall (block_ready w) l →
  shows hex_encode k (latest_blocks page) (latest_txs page) →
  ∃ page', update_frontpage_data hex_encode c fuel block_stats w page top metrics_cache (rev (map snd l)) speed
      = Finished (Ok (page', Some (if FRONTPAGE_BLOCKS_COUNT <=? len metrics_cache then Snapshot page' else Delta page'))) ∧
    shows hex_encode (l ++ k) (latest_blocks page') (latest_txs page').
Proof.
  intros Hwf Hfuel Hx Hm Hl Hr Hs. assert (in_chain c x) as Hin by by eapply in_chain_known.
  destruct (calculate_stats_Ok c fuel block_stats top x (Some metrics_cache) Hwf Hfuel Hx Hm) as [r Hstats].
  unfold update_frontpage_data. rewrite Hstats. cbn [or_return]. rewrite comp_bind_Finished, (known_Some _ _ _ Hx), comp_bind_Finished, rev_involutive.
  destruct (walk_analyzed_spec hex_encode c w Hwf l [] x [] [] rest) as (bs & ts & -> & Hshow); try done.
  - cbn. lia.
  - rewrite comp_bind_Finished. eexists. split; [done|]. by apply shows_keep.
Qed.

(** C34. The statistics, calculated from the database alone, when the times of the blocks descend
    along the chain and no day is without a block: one entry for each day of the last
    fifteen days but the oldest, with the average of the median fee rates, the number of
    transactions and the volume over the blocks of just that day. *)
Theorem stats_by_day `{Sha256, U256Lib} c fuel block_stats metrics top x :
  let l := map (λ a, (bn_timestamp a, metrics a)) (recent_ancestors c x) in
  chain_wf c → enough c fuel → known_headers c !! top = Some x →
  Forall (λ a, block_stats !! bn_hash a = Some (metrics a)) (recent_ancestors c x) →
  Forall (λ y, in_u32 y.1) l → Sorted next_timed l →
  ∃ r, calculate_stats c fuel block_stats top None = Finished (Ok r) ∧
    stats_of (List.filter (λ y, day (default 0 (fst <$> last l)) <? day y.1) l) r.
Proof.
  intros l Hwf Hfuel Hx Hm Hu Hs. rewrite (calculate_stats_spec c fuel Hwf Hfuel block_stats metrics top x None Hx Hm).
  cbn [length]. rewrite app_nil_l, drop_0. destruct (group_by_day_spec (bn_timestamp x) l Hu Hs eq_refl) as (r & Hr & Hstats).
  exists r. split.
  - assert (l.*1 = map (λ a, bn_timestamp a) (recent_ancestors c x)) as H1 by (unfold l; change (?f <$> ?y) with (map f y); by rewrite map_map).
    assert (l.*2 = map metrics (recent_ancestors c x)) as H2 by (unfold l; change (?f <$> ?y) with (map f y); by rewrite map_map).
    by rewrite <- H1, <- H2, Hr.
  - destruct (last l) eqn:Hlast; [exact Hstats|]. by apply last_None in Hlast.
Qed.

(** With the metrics of a batch of [k] blocks, in the order in which they were
    processed, as the cache: the statistics are those of other metrics, where the blocks
    of the batch have theirs the other way round. They are right for a single block. *)
Theorem stats_cache_reversed `{Sha256, U256Lib} c fuel block_stats metrics top x k :
  let l := recent_ancestors c x in
  chain_wf c → enough c fuel → known_headers c !! top = Some x →
  Forall (λ a, block_stats !! bn_hash a = Some (metrics a)) l → (k ≤ length l)%nat →
  calculate_stats c fuel block_stats top (Some (map metrics (rev (take k l))))
  = Finished (group_by_day (bn_timestamp x) (map (λ a, bn_timestamp a) l) (map metrics (rev (take k l) ++ drop k l))).
Proof.
  intros l Hwf Hfuel Hx Hm Hk. rewrite (calculate_stats_spec c fuel Hwf Hfuel block_stats metrics top x _ Hx Hm). fold l.
  rewrite (take_ge (map _ _)) by (rewrite length_map, length_rev, length_take; lia).
  rewrite length_map, length_rev, length_take, map_app. replace (k `min` length l)%nat with k by lia. done.
Qed.

(** * Examples *)

Import Toy ToyDb ToyChain.

(** Two blocks long after the root, a day apart *)
Definition dated_child (p : BlockHeaderWithNumber) (timestamp : Z) : BlockHeaderWithNumber :=
  match BlockHeader_construct 1 (bn_hash p) EMPTY_HASH timestamp 0x1d00ffff 1 0 with
  | Ok h =>
      match get_work h with
      | Ok w => mkBlockHeaderWithNumber h (bn_number p + 1) false (bn_total_work p + w) None
      | _ => p
      end
  | _ => p
  end.

Definition page_chain1 : Chain := extend chain0 (dated_child (top_header chain0) (1231006505 + 20 * 86400)).
Definition page_chain : Chain := extend page_chain1 (dated_child (top_header page_chain1) (1231006505 + 21 * 86400)).

Lemma page_chain_wf : chain_wf page_chain.
Proof. apply extend_wf; [apply extend_wf; [apply chain0_ok|]|]; vm_compute; reflexivity. Qed.

Definition page_top : BlockHeaderWithNumber := top_header page_chain.

Lemma page_top_known : known_headers page_chain !! bn_hash page_top = Some page_top.
Proof. vm_compute. reflexivity. Qed.

Lemma page_chain_enough : enough page_chain 10.
Proof. unfold enough. vm_compute. lia. Qed.

(** The blocks differ in their volume. *)
Definition toy_metrics (a : BlockHeaderWithNumber) : BlockMetrics :=
  mkBlockMetrics 0 (1000 * bn_number a) 1 f64_zero f64_zero f64_zero f64_one.

Definition toy_block_stats : gmap hash BlockMetrics :=
  list_to_map (map (λ a, (bn_hash a, toy_metrics a)) (recent_ancestors page_chain page_top)).

Lemma page_recent : recent_ancestors page_chain page_top = [page_top; top_header page_chain1].
Proof. vm_compute. reflexivity. Qed.

Lemma toy_top_found : toy_block_stats !! bn_hash page_top = Some (toy_metrics page_top).
Proof. vm_compute. reflexivity. Qed.

Lemma toy_parent_found : toy_block_stats !! bn_hash (top_header page_chain1) = Some (toy_metrics (top_header page_chain1)).
Proof. vm_compute. reflexivity. Qed.

Lemma toy_block_stats_ok :
  Forall (λ a, toy_block_stats !! bn_hash a = Some (toy_metrics a)) (recent_ancestors page_chain page_top).
Proof.
  rewrite page_recent. apply Forall_cons_2; [|apply Forall_cons_2; [|by apply Forall_nil_2]].
  - exact toy_top_found.
  - exact toy_parent_found.
Qed.

Lemma toy_found : Forall (λ a, is_Some (toy_block_stats !! bn_hash a)) (recent_ancestors page_chain page_top).
Proof. eapply Forall_impl; [exact toy_block_stats_ok|]. intros a Ha. exists (toy_metrics a). exact Ha. Qed.

(** One transaction, in each of the blocks *)
Definition toy_analysis : SerializedTx :=
  match map (planned toy_header) toy_plan with st :: _ => st | [] => toy_stored end.

Definition page_blocks : list (BlockHeaderWithNumber * list SerializedTx) :=
  map (λ a, (a, [toy_analysis])) (ancestors page_chain page_top).

Definition page_db : Databases :=
  mkDatabases toy_db {[st_hash toy_analysis := default [] (st_analyzed_tx toy_analysis)]} ∅
    (list_to_map (map (λ x, (bn_hash x.1, block_bytes x.2)) page_blocks)) ∅ ∅.

#[local] Instance toy_no_regex : RegexLib := { Regex := unit; is_match _ _ := false }.

Definition page_miners : Miners :=
  mkMiners _ ∅ [] ∅ {[UNKNOWN_ID := 1]} (list_to_map (map (λ x, (bn_hash x.1, UNKNOWN_ID)) page_blocks)) [] [] ([], []).

Lemma page_blocks_eq : page_blocks = map (λ a, (a, [toy_analysis])) [page_top; top_header page_chain1; top_header chain0].
Proof. vm_compute. reflexivity. Qed.

Lemma page_blocks_ready : Forall (block_ready page_miners) page_blocks.
Proof.
  rewrite page_blocks_eq. cbn [map]. repeat (apply Forall_cons_2; [split; [discriminate|eexists; vm_compute; reflexivity]|]).
  by apply Forall_nil_2.
Qed.

Lemma page_blocks_stored : Forall (block_stored page_db) page_blocks.
Proof.
  assert (tx_stored page_db toy_analysis) as Ht.
  { destruct (get_analyzed_tx page_db (st_hash toy_analysis)) as [an| | |] eqn:Han.
    1: exists an; split; [exact Han|].
    all: vm_compute in Han; try discriminate. injection Han as <-. vm_compute. repeat split. }
  rewrite page_blocks_eq. cbn [map].
  repeat (apply Forall_cons_2; [split; [vm_compute; reflexivity|apply Forall_cons_2; [exact Ht|by apply Forall_nil_2]]|]).
  by apply Forall_nil_2.
Qed.

Lemma page_generated_witness : ∃ page',
  generate_frontpage_data id page_chain 10 toy_block_stats page_db page_miners (mkFrontPageData Stats_default [] [] None)
    (bn_hash page_top) = Finished (Ok (page', true)) ∧
  map sb_number (latest_blocks page') = [2; 1; 0].
Proof.
  destruct (page_generated id page_chain 10 toy_block_stats page_db page_miners (mkFrontPageData Stats_default [] [] None)
    (bn_hash page_top) page_top page_blocks) as (page' & Hp & Hb & _).
  - exact page_chain_wf.
  - exact page_chain_enough.
  - exact page_top_known.
  - exact toy_found.
  - vm_compute. reflexivity.
  - exact page_blocks_ready.
  - exact page_blocks_stored.
  - exists page'. split; [exact Hp|]. apply (f_equal (map (λ k, k.1.1.1.1))) in Hb. rewrite map_map in Hb. exact Hb.
Defined.

(** Two blocks in a batch, on top of an empty page *)
Lemma page_updated_witness : ∃ page',
  update_frontpage_data id page_chain 10 toy_block_stats page_miners (mkFrontPageData Stats_default [] [] None)
    (bn_hash page_top) [] [[toy_analysis]; [toy_analysis]] None = Finished (Ok (page', Some (Delta page'))) ∧
  map sb_number (latest_blocks page') = [2; 1].
Proof.
  destruct (page_updated id page_chain 10 toy_block_stats page_miners (mkFrontPageData Stats_default [] [] None)
    (bn_hash page_top) page_top [] (take 2 page_blocks) [] [top_header chain0] None) as (page' & Hp & Hb & _).
  - exact page_chain_wf.
  - exact page_chain_enough.
  - exact page_top_known.
  - exact toy_found.
  - vm_compute. reflexivity.
  - apply Forall_take. exact page_blocks_ready.
  - split; reflexivity.
  - exists page'. split; [exact Hp|]. apply (f_equal (map (λ k, k.1.1.1.1))) in Hb. rewrite map_map in Hb. exact Hb.
Defined.

(** The day of the older block is left out. *)
Lemma stats_by_day_witness : ∃ r,
  calculate_stats page_chain 10 toy_block_stats (bn_hash page_top) None = Finished (Ok r) ∧
  stats_volume r !! day 1232820905 = Some 2000 ∧ stats_volume r !! day 1232734505 = None.
Proof.
  destruct (stats_by_day page_chain 10 toy_block_stats toy_metrics (bn_hash page_top) page_top) as (r & Hr & Hs).
  - exact page_chain_wf.
  - exact page_chain_enough.
  - exact page_top_known.
  - exact toy_block_stats_ok.
  - rewrite page_recent. repeat apply Forall_cons_2; try (split; vm_compute; (discriminate || reflexivity)). by apply Forall_nil_2.
  - rewrite page_recent. repeat constructor; vm_compute; discriminate.
  - exists r. split; [exact Hr|]. split.
    + destruct (Hs (day 1232820905)) as (_ & _ & Hv). rewrite Hv. vm_compute. reflexivity.
    + destruct (Hs (day 1232734505)) as (_ & _ & Hv). rewrite Hv. vm_compute. reflexivity.
Defined.

(** The volume of the newer block is 2000, but 1000 is shown for its day. *)
Lemma stats_cache_reversed_witness : ∃ r,
  calculate_stats page_chain 10 toy_block_stats (bn_hash page_top)
    (Some (map toy_metrics [top_header page_chain1; page_top])) = Finished (Ok r) ∧
  stats_volume r !! day 1232820905 = Some 1000.
Proof.
  pose proof (stats_cache_reversed page_chain 10 toy_block_stats toy_metrics (bn_hash page_top) page_top 2
    page_chain_wf page_chain_enough page_top_known toy_block_stats_ok) as Hs.
  rewrite page_recent in Hs. specialize (Hs ltac:(cbn; lia)).
  set (r := match group_by_day 1232820905 [1232820905; 1232734505] (map toy_metrics [top_header page_chain1; page_top]) with
            | Ok r => r | _ => Stats_default end).
  exists r. split.
  - etransitivity; [exact Hs|]. vm_compute. reflexivity.
  - vm_compute. reflexivity.
Defined.
