(* ===== verification/Refresh.v ===== *)
(** [src/chainman/keepup.rs], the end of [apply_block]: the statistics of the miners and the front page
    follow the block that was applied, anew from the chain or from what they were before. *)
From stdpp Require Import sorting.
From S2P Require Import Prelude.
From S2P Require Import Extern.
From S2P Require Import Header.
From S2P Require Import Loops.
From S2P Require Import Chain.
From S2P Require Import ChainMan.
From S2P Require Import Analyze.
From S2P Require Import Store.
From S2P Require Import Queries.
From S2P Require Import Float.
From S2P Require Import Process.
From S2P Require Import Keepup.
From S2P Require Import Miners.
From S2P Require Import FrontPage.

Section refresh.
Context `{Sha256, U256Lib, RocksDb, Layout, RegexLib} (hex_encode : bytes → bytes).

(** What is sent to the subscribers: the bare page, or the page as an update. *)
Inductive Broadcast :=
| Bare (data : FrontPageData)
| Update (update : FrontPageDataUpdate).

(** [block_stats] is the table after the block was stored, [c] the chain after it was marked. *)
Definition refresh (c : Chain) (fuel : nat) (now : Z) (block_stats : gmap hash BlockMetrics) (d : Databases)
    (w : Miners) (page : FrontPageData) (header : BlockHeader) (number : Z)
    (frontpage_strat : FrontPageDataUpdateStrategy) (applied : Applied) :
    comp (Miners * FrontPageData * option Broadcast) :=
  let '(analyzed_txs, metrics, coinbase_ascii) := applied in
  match frontpage_strat with
  | RegenerateFromScratch =>
      w ← callback_chain_reorg c fuel now w (bh_hash header);
      '(page, sent) ← generate_frontpage_data hex_encode c fuel block_stats d w page (bh_hash header);
      mret (w, page, if sent : bool then Some (Bare page) else None)
  | Append =>
      w ← Finished (callback_chain_extended w [bh_hash header] [number] [bh_timestamp header] [coinbase_ascii]);
      '(page, sent) ← update_frontpage_data hex_encode c fuel block_stats w page (bh_hash header) [metrics]
                        [analyzed_txs] None;
      mret (w, page, Update <$> (sent : option FrontPageDataUpdate))
  end.

(** * The blocks that are counted *)

(** An entry of the list, for a block with a text *)
Definition listed (a : BlockHeaderWithNumber) : option (hash * Z * Z * bytes) :=
  v ← bn_coinbase_ascii a; Some (bn_hash a, bn_number a, bn_timestamp a, v).

(** The blocks up to this one that have a text, oldest first. *)
Definition mined_on (c : Chain) (x : BlockHeaderWithNumber) : list Mined :=
  map to_mined (omap listed (rev (ancestors c x))).

Lemma omap_rev {A B} (f : A → option B) l : omap f (rev l) = rev (omap f l).
Proof.
  induction l as [|x l IH]; [done|]. cbn [rev omap list_omap]. rewrite omap_app, IH. cbn. destruct (f x); [done|].
  by rewrite app_nil_r.
Qed.

Lemma blocks_listed c fuel x :
  chain_wf c → enough c fuel → known_headers c !! bn_hash x = Some x →
  get_blocks_with_timestamps_and_coinbase_asciis c fuel (bn_hash x)
  = Finished (Ok (omap listed (rev (ancestors c x)))).
Proof.
  intros Hwf Hfuel Hx. assert (in_chain c x) as Hin by by eapply in_chain_known.
  unfold get_blocks_with_timestamps_and_coinbase_asciis. match goal with |- context [loop ?b] => set (body := b) end.
  assert (∀ a, in_chain c a → ∀ n result, known_headers c !! bn_hash a = Some a → (Z.to_nat (bn_number a) < n)%nat →
    loop body n (bn_hash a, result) = Finished (Ok (result ++ omap listed (ancestors c a)))) as Hloop.
  { assert (∀ a result, known_headers c !! bn_hash a = Some a → body (bn_hash a, result)
      = mret (if bool_decide (bn_parent a = EMPTY_HASH) then inr (result ++ option_list (listed a))
              else inl (bn_parent a, result ++ option_list (listed a)))) as Hbody.
    { intros a result Ha. unfold body, listed. rewrite (known_Some _ _ _ Ha). cbn [mbind comp_bind].
      destruct (bn_coinbase_ascii a); cbn; rewrite ?app_nil_r; done. }
    clear x Hx Hin. refine (in_chain_ind c _ Hwf _ _).
    - intros x Hx Hn -> n result Hk Hf. destruct n as [|n]; [lia|]. apply loop_inr. rewrite Hbody by done.
      rewrite bool_decide_true by by apply (in_chain_root c x Hwf Hx). cbn. by destruct (listed x).
    - intros x p Hx Hp Hkp Hh Hn -> IH n result Hk Hf. destruct n as [|n]; [lia|].
      pose proof (in_chain_number c p Hwf Hp). pose proof (in_chain_number c x Hwf Hx).
      erewrite loop_inl; [|rewrite Hbody by done; rewrite bool_decide_false by (rewrite <- (in_chain_root c x Hwf Hx); lia); done].
      rewrite <- Hh, IH by (rewrite ?Hh; done || lia). rewrite <- app_assoc. cbn. by destruct (listed x). }
  rewrite Hloop by (done || by apply (number_fuel c)). cbn [app mbind comp_bind]. by rewrite omap_rev.
Qed.

Lemma mined_on_elem c x a :
  a ∈ ancestors c x → is_Some (bn_coinbase_ascii a) → ∃ b, b ∈ mined_on c x ∧ md_hash b = bn_hash a.
Proof.
  intros Ha [v Hv]. exists (mkMined (bn_hash a) (bn_number a) (bn_timestamp a) v). split; [|done].
  unfold mined_on. change (map to_mined ?l) with (to_mined <$> l).
  apply list_elem_of_fmap. exists (bn_hash a, bn_number a, bn_timestamp a, v). split; [done|].
  apply list_elem_of_omap. exists a. split; [by apply list_elem_of_In, in_rev; rewrite rev_involutive; apply list_elem_of_In|].
  unfold listed. by rewrite Hv.
Qed.

Lemma mined_on_step c x p v :
  ancestors c x = x :: ancestors c p → bn_coinbase_ascii x = Some v →
  mined_on c x = mined_on c p ++ [mkMined (bn_hash x) (bn_number x) (bn_timestamp x) v].
Proof. intros Ha Hv. unfold mined_on. rewrite Ha. cbn [rev]. rewrite omap_app, map_app. cbn. unfold listed. by rewrite Hv. Qed.

Lemma earlier_times l l' :
  map md_timestamp l = map md_timestamp l' → StronglySorted earlier l → StronglySorted earlier l'.
Proof.
  intros Ht Hs. revert l' Ht. induction Hs as [|b l Hs IH Hb]; intros [|b' l'] Ht; try done; [constructor|].
  injection Ht as Hb' Ht. constructor; [by apply IH|]. unfold earlier in *. rewrite <- Hb'.
  change (Forall (λ b0, (λ t, md_timestamp b <= t) (md_timestamp b0)) l') with (Forall ((λ t, md_timestamp b <= t) ∘ md_timestamp) l').
  apply Forall_map. rewrite <- Ht. by apply Forall_map.
Qed.

(** * What the page and the statistics say of the chain *)

(** The analyses of the transactions of the blocks *)
Context (txs_of : hash → list SerializedTx).

Definition page_of (c : Chain) (x : BlockHeaderWithNumber) : list (BlockHeaderWithNumber * list SerializedTx) :=
  map (λ a, (a, txs_of (bn_hash a))) (ancestors c x).

(** Every block up to this one has been stored with its transactions and the text of its coinbase. *)
Definition synced_to (c : Chain) (x : BlockHeaderWithNumber) : Prop :=
  Forall (λ a, is_Some (bn_coinbase_ascii a) ∧ txs_of (bn_hash a) ≠ []) (ancestors c x).

(** The statistics of the miners are what a count of all blocks up to [x] gives, and the page shows
    the newest of these. *)
Record reflects (c : Chain) (w : Miners) (page : FrontPageData) (x : BlockHeaderWithNumber) : Prop := {
  rf_rules : rules_ok (rules w) (rules_regexes w);
  rf_counted : ∀ now, recalculate w now (Some (mined_on c x)) = Ok w;
  rf_shows : shows hex_encode (page_of c x) (latest_blocks page) (latest_txs page);
}.

Lemma mined_on_nonempty c x : synced_to c x → mined_on c x ≠ [].
Proof.
  intros Hs He. destruct (ancestors_head c x) as [l Hl]. unfold synced_to in Hs. rewrite Hl in Hs.
  apply Forall_cons in Hs as [[Hv _] _]. destruct (mined_on_elem c x x) as (b & Hb & _); [rewrite Hl; by left|done|].
  rewrite He in Hb. by apply elem_of_nil in Hb.
Qed.

Lemma counted_ready c w now x w1 :
  rules_ok (rules w) (rules_regexes w) → recalculate w now (Some (mined_on c x)) = Ok w1 → synced_to c x →
  Forall (block_ready w1) (page_of c x).
Proof.
  intros Hr Hw Hs. pose proof (recalculated _ _ Hr w now _ w1 eq_refl eq_refl Hw) as ->.
  unfold page_of. apply Forall_map. unfold synced_to in Hs. rewrite Forall_forall in *. intros a Ha.
  destruct (Hs a Ha) as [Hv Hne]. split; [done|]. cbn [fst]. destruct (mined_on_elem c x a Ha Hv) as (b & Hb & <-).
  by apply counted_miner.
Qed.

(** A page of the newest 50 blocks is a page of all of them. *)
Lemma shows_newest w l blocks txs :
  Forall (block_ready w) l → shows hex_encode (take 50 l) blocks txs → shows hex_encode l blocks txs.
Proof.
  intros Hl Hs. destruct (decide (length l ≤ 50)%nat); [by rewrite take_ge in Hs by done|].
  rewrite <- (take_drop 50 l). apply (shows_more hex_encode w); [by apply Forall_take|rewrite length_take; lia|done].
Qed.
(** * The two strategies *)

Context (c : Chain) (fuel : nat) (now : Z) (block_stats : gmap hash BlockMetrics) (d : Databases).
Context (Hwf : chain_wf c) (Hfuel : enough c fuel).

Lemma reorg_counts w x :
  known_headers c !! bn_hash x = Some x → rules_ok (rules w) (rules_regexes w) → synced_to c x →
  ∃ w1, callback_chain_reorg c fuel now w (bn_hash x) = Finished (Ok w1) ∧
    rules_ok (rules w1) (rules_regexes w1) ∧ ∀ now', recalculate w1 now' (Some (mined_on c x)) = Ok w1.
Proof.
  intros Hx Hr Hs. unfold callback_chain_reorg, recalculate_full_miner_stats.
  rewrite (blocks_listed c fuel x) by done. rewrite comp_bind_Finished. fold (mined_on c x).
  assert (∃ w1, recalculate w now (Some (mined_on c x)) = Ok w1) as [w1 Hw].
  { rewrite (recalculate_spec (rules w) (rules_regexes w)) by done. by apply shares_Ok. }
  rewrite Hw.
  destruct (recalculated_again _ _ Hr w now _ w1 now eq_refl eq_refl (mined_on_nonempty c x Hs) Hw) as (Hr1 & Hx1 & _).
  exists w1. split_and!; [done|by rewrite Hr1, Hx1|]. intros now'.
  by apply (recalculated_again _ _ Hr w now _ w1 now' eq_refl eq_refl (mined_on_nonempty c x Hs)).
Qed.

Lemma extension_counts w p x ascii :
  known_headers c !! bn_hash x = Some x → ancestors c x = x :: ancestors c p →
  rules_ok (rules w) (rules_regexes w) → recalculate w now (Some (mined_on c p)) = Ok w → synced_to c x →
  bn_coinbase_ascii x = Some (from_utf8_lossy ascii) →
  find_miner (rules_regexes w) ascii = find_miner (rules_regexes w) (from_utf8_lossy ascii) →
  StronglySorted earlier (mined_on c x) →
  Forall (λ b, MINER_PERCENTAGE_OVER_LAST_SECONDS <= md_timestamp b < 2 ^ 64) (mined_on c x) →
  ∃ w1, callback_chain_extended w [bn_hash x] [bn_number x] [bn_timestamp x] [ascii] = Ok w1 ∧
    rules_ok (rules w1) (rules_regexes w1) ∧ ∀ now', recalculate w1 now' (Some (mined_on c x)) = Ok w1.
Proof.
  intros Hx Ha Hr Hw Hs Hv Hf Hsort Htimes. pose proof (mined_on_step c x p _ Ha Hv) as Hstep.
  set (b := mkMined (bn_hash x) (bn_number x) (bn_timestamp x) ascii).
  destruct (recalculated_extended w w now (mined_on c p) [bn_hash x] [bn_number x] [bn_timestamp x] [ascii])
    as (w1 & Hw1 & Hagain); [done|done|done|done|done|done| | | |].
  - apply (earlier_times (mined_on c x)); [|done]. by rewrite Hstep, !map_app.
  - change (Forall (λ b, MINER_PERCENTAGE_OVER_LAST_SECONDS <= md_timestamp b < 2 ^ 64) (mined_on c p ++ [b])).
    rewrite Hstep in Htimes. apply Forall_app in Htimes as [Hp Hb]. apply Forall_app. split; [done|].
    apply Forall_cons in Hb as [Hb _]. apply Forall_cons. split; [exact Hb|by apply Forall_nil].
  - by apply Forall_singleton.
  - change (map (kept _) (zip_mined _ _ _ _)) with [mkMined (bn_hash x) (bn_number x) (bn_timestamp x) (from_utf8_lossy ascii)] in Hagain.
    rewrite <- Hstep in Hagain. exists w1. split; [done|].
    destruct (recalculated_again _ _ Hr w now _ w1 now eq_refl eq_refl (mined_on_nonempty c x Hs) (Hagain now)) as (Hr1 & Hx1 & _).
    split; [by rewrite Hr1, Hx1|]. intros now'.
    by apply (recalculated_again _ _ Hr w now _ w1 now' eq_refl eq_refl (mined_on_nonempty c x Hs)).
Qed.

(** What each strategy starts from: the database has all that the page shows, or the block before it was reflected,
    the times ascend and the rules match the text of a coinbase just when they match its copy in UTF-8. *)
Definition can_refresh (w : Miners) (page : FrontPageData) (x : BlockHeaderWithNumber)
    (strat : FrontPageDataUpdateStrategy) (applied : Applied) : Prop :=
  let '(analyzed_txs, _, ascii) := applied in
  analyzed_txs = txs_of (bn_hash x) ∧ bn_coinbase_ascii x = Some (from_utf8_lossy ascii) ∧
  match strat with
  | RegenerateFromScratch => rules_ok (rules w) (rules_regexes w) ∧ Forall (block_stored d) (take 50 (page_of c x))
  | Append =>
      ∃ p, known_headers c !! bn_parent x = Some p ∧ bn_number x ≠ 0 ∧ reflects c w page p ∧
        find_miner (rules_regexes w) ascii = find_miner (rules_regexes w) (from_utf8_lossy ascii) ∧
        StronglySorted earlier (mined_on c x) ∧
        Forall (λ b, MINER_PERCENTAGE_OVER_LAST_SECONDS <= md_timestamp b < 2 ^ 64) (mined_on c x)
  end.

End refresh.

(** * Examples *)

Import Toy ToyDb ToyChain.

#[local] Instance no_regex : RegexLib := { Regex := unit; is_match _ _ := false }.

(** The chain with a text for every block *)
Definition with_text (a : BlockHeaderWithNumber) : BlockHeaderWithNumber := mark_downloaded a (bstr "/pool/").

Definition texted (c : Chain) : Chain :=
  mkChain (with_text (top_header c)) (with_text <$> known_headers c) (number_to_hash c) (most_work_chain c).

Lemma texted_wf c :
  chain_wf c → known_headers c !! bn_hash (top_header c) = Some (top_header c) → chain_wf (texted c).
Proof.
  intros Hwf Ht. apply (relabels_wf c); [exact Hwf| |done|].
  - intros h. rewrite lookup_fmap. destruct (known_headers c !! h); by constructor.
  - exists (with_text (top_header c)). cbn [known_headers]. rewrite lookup_fmap. cbn [with_text mark_downloaded bn_header].
    rewrite Ht. done.
Qed.

Definition text_chain : Chain := texted page_chain.

Definition text_top : BlockHeaderWithNumber := with_text page_top.
Definition text_parent : BlockHeaderWithNumber := with_text (top_header page_chain1).

Lemma text_chain_wf : chain_wf text_chain.
Proof. exact (texted_wf page_chain page_chain_wf page_top_known). Qed.

Lemma text_top_known : known_headers text_chain !! bn_hash text_top = Some text_top.
Proof. vm_compute. reflexivity. Qed.

Lemma text_parent_known : known_headers text_chain !! bn_hash text_parent = Some text_parent.
Proof. vm_compute. reflexivity. Qed.

Lemma text_enough : enough text_chain 10.
Proof. unfold enough. vm_compute. lia. Qed.

Lemma text_top_ancestors : ancestors text_chain text_top = [text_top; text_parent; with_text (top_header chain0)].
Proof. vm_compute. reflexivity. Qed.

Lemma text_parent_ancestors : ancestors text_chain text_parent = [text_parent; with_text (top_header chain0)].
Proof. vm_compute. reflexivity. Qed.

Lemma text_top_recent : recent_ancestors text_chain text_top = [text_top; text_parent].
Proof. vm_compute. reflexivity. Qed.

Lemma text_parent_recent : recent_ancestors text_chain text_parent = [text_parent].
Proof. vm_compute. reflexivity. Qed.

Definition toy_txs (h : hash) : list SerializedTx := [toy_analysis].

Definition no_miners : Miners := mkMiners _ ∅ [] ∅ ∅ ∅ [] [] ([], []).

Definition empty_page : FrontPageData := mkFrontPageData Stats_default [] [] None.

Definition toy_applied (a : BlockHeaderWithNumber) : Applied := ([toy_analysis], toy_metrics a, bstr "/pool/").

Lemma toy_can_regenerate : can_refresh id toy_txs text_chain page_db no_miners empty_page text_parent RegenerateFromScratch (toy_applied text_parent).
Proof.
  split; [done|]. split; [done|]. split; [by intros ? ? ?%elem_of_nil|]. unfold page_of. rewrite text_parent_ancestors.
  pose proof page_blocks_stored as Hs. rewrite page_blocks_eq in Hs. cbn [map] in Hs. apply Forall_cons in Hs as [_ Hs].
  apply Forall_cons in Hs as [Hp Hs]. apply Forall_cons in Hs as [Hg _]. cbn [map take].
  apply Forall_cons_2; [exact Hp|]. apply Forall_cons_2; [exact Hg|by apply Forall_nil_2].
Qed.

Lemma toy_synced x : Forall (λ a, is_Some (bn_coinbase_ascii a)) (ancestors text_chain x) → synced_to toy_txs text_chain x.
Proof. intros Hx. eapply Forall_impl; [exact Hx|]. intros a Ha. by split. Qed.

Lemma toy_parent_synced : synced_to toy_txs text_chain text_parent.
Proof. apply toy_synced. rewrite text_parent_ancestors. by repeat constructor. Qed.

Lemma toy_top_synced : synced_to toy_txs text_chain text_top.
Proof. apply toy_synced. rewrite text_top_ancestors. by repeat constructor. Qed.

Lemma toy_parent_metrics : Forall (λ a, is_Some (toy_block_stats !! bn_hash a)) (recent_ancestors text_chain text_parent).
Proof.
  rewrite text_parent_recent.
  apply Forall_cons_2; [exists (toy_metrics (top_header page_chain1)); exact toy_parent_found|by apply Forall_nil_2].
Qed.

Lemma toy_top_metrics : Forall (λ a, is_Some (toy_block_stats !! bn_hash a)) (recent_ancestors text_chain text_top).
Proof.
  rewrite text_top_recent. apply Forall_cons_2; [exists (toy_metrics page_top); exact toy_top_found|].
  apply Forall_cons_2; [exists (toy_metrics (top_header page_chain1)); exact toy_parent_found|by apply Forall_nil_2].
Qed.

Lemma toy_times : map md_timestamp (mined_on text_chain text_top) = [1231006505; 1231006505 + 20 * 86400; 1231006505 + 21 * 86400].
Proof. vm_compute. reflexivity. Qed.

Lemma toy_sorted : StronglySorted earlier (mined_on text_chain text_top).
Proof.
  apply (earlier_times (map (λ t, mkMined [] 0 t []) [1231006505; 1231006505 + 20 * 86400; 1231006505 + 21 * 86400])).
  - by rewrite toy_times.
  - repeat constructor; by vm_compute.
Qed.

Lemma toy_late : Forall (λ b, MINER_PERCENTAGE_OVER_LAST_SECONDS <= md_timestamp b < 2 ^ 64) (mined_on text_chain text_top).
Proof.
  apply (Forall_map md_timestamp (λ t, MINER_PERCENTAGE_OVER_LAST_SECONDS <= t < 2 ^ 64)). rewrite toy_times.
  repeat constructor; by vm_compute.
Qed.

Lemma text_top_parent : known_headers text_chain !! bn_parent text_top = Some text_parent.
Proof. vm_compute. reflexivity. Qed.

Lemma text_top_number : bn_number text_top ≠ 0.
Proof. vm_compute. discriminate. Qed.

Lemma toy_can_append w page :
  reflects id toy_txs text_chain w page text_parent →
  can_refresh id toy_txs text_chain page_db w page text_top Append (toy_applied text_top).
Proof.
  intros Hf. unfold can_refresh, toy_applied. split; [reflexivity|]. split; [reflexivity|]. exists text_parent.
  split; [exact text_top_parent|]. split; [exact text_top_number|]. split; [exact Hf|].
  split; [reflexivity|]. split; [exact toy_sorted|exact toy_late].
Qed.

Lemma toy_page_numbers w page :
  reflects id toy_txs text_chain w page text_top → map sb_number (latest_blocks page) = [2; 1; 0].
Proof.
  intros [_ _ [Hb _]]. unfold page_of in Hb. rewrite text_top_ancestors in Hb.
  apply (f_equal (map (λ k, k.1.1.1.1))) in Hb. rewrite map_map in Hb. unfold block_key in Hb. cbn [fst] in Hb.
  transitivity (map bn_number [text_top; text_parent; with_text (top_header chain0)]); [exact Hb|vm_compute; reflexivity].
Qed.

