(* ===== verification/Config.v ===== *)
(** [src/miners/config.rs] and the watcher of [src/miners/mod.rs]: the rules of the mining pools, read from a file
    that may change while the program runs. *)
From stdpp Require Import sorting.
From S2P Require Import Prelude.
From S2P Require Import Extern.
From S2P Require Import Header.
From S2P Require Import Loops.
From S2P Require Import Chain.
From S2P Require Import Miners.
From S2P Require Import FrontPage.
From S2P Require Import Refresh.

Section config.
Context `{Sha256, U256Lib, RegexLib}.

(** [serde_yaml], [Regex::new], and the order in which a hash map of regexes is iterated *)
Context (from_slice : bytes → option (gmap MinerId Miner)).
Context (Regex_new : bytes → option Regex).
Context (order : gmap MinerId (list Regex) → list (MinerId * list Regex)).

Definition DEFAULT_MINERS_CONFIG : gmap MinerId Miner :=
  {[ bstr "binance" := mkMiner (bstr "Binance") None [bstr "binance"] ]}.

(** The contents of [miners.yml], if it exists. [create] is whether it can be created, and [written] how many bytes are
    written before it fails, if it does. *)
Definition ensure_miners_file_exists (to_string : gmap MinerId Miner → bytes) (yml : option bytes) (create : bool) (written : option nat) :
    option bytes * outcome unit :=
  match yml with
  | Some _ => (yml, Ok tt)
  | None =>
      if create then
        let default_serialized := to_string DEFAULT_MINERS_CONFIG in
        match written with
        | None => (Some default_serialized, Ok tt)
        | Some n => (Some (take n default_serialized), Err "failed to write")
        end
      else (None, Err "failed to create")
  end.

Definition insensetive_regex (regex : bytes) : bytes := bstr "(?i)" ++ regex.

Definition compile_miner (miner : Miner) : outcome (list Regex) :=
  for_each (λ compiled_regrets regex,
    compiled_regex ← ok_or (Regex_new (insensetive_regex regex)) "regex error"; Ok (compiled_regrets ++ [compiled_regex]))
    (regexes miner) [].

Definition compile_regexes (rules : gmap MinerId Miner) : outcome (gmap MinerId (list Regex)) :=
  for_each (λ result '(id, miner), compiled_regrets ← compile_miner miner; Ok (<[ id := compiled_regrets ]> result))
    (map_to_list rules) ∅.

(** [file] is what opening and reading it gives. *)
Definition reload_miners_config (c : Chain) (fuel : nat) (now : Z) (file : option bytes) (w : Miners) : comp Miners :=
  match file with
  | None => mret w
  | Some data =>
      match from_slice data with
      | None => mret w
      | Some parsed =>
          match compile_regexes parsed with
          | Ok recompiled_regrets => callback_config_updated c fuel now w parsed (order recompiled_regrets)
          | Err _ => mret w
          | Panic m => Finished (Panic m)
          | Ub => Finished Ub
          end
      end
  end.

(** [MINER_DATA] *)
Definition MINER_DATA : outcome Miners :=
  rules_regexes ← unwrap (compile_regexes DEFAULT_MINERS_CONFIG) "called `Result::unwrap()` on an `Err` value";
  Ok (mkMiners _ DEFAULT_MINERS_CONFIG (order rules_regexes) ∅ ∅ ∅ [] [] ([], [])).

(** What the channel of the watcher gives: the time of the last write changed, with the chain, the clock and the file
    at that moment; another event; an error, or the end of the channel. *)
Inductive Update :=
| WriteTime (c : Chain) (fuel : nat) (now : Z) (file : option bytes)
| OtherEvent
| WatchError.

Fixpoint watch (updates : list Update) (w : Miners) : comp Miners :=
  match updates with
  | [] | WatchError :: _ => mret w
  | OtherEvent :: updates => watch updates w
  | WriteTime c fuel now file :: updates => w ← reload_miners_config c fuel now file w; watch updates w
  end.

(** [started] is whether the watcher could be set up. *)
Definition start_miner_watcher (to_string : gmap MinerId Miner → bytes) (yml : option bytes) (create : bool) (written : option nat) (started : bool)
    (first : Update) (updates : list Update) (w : Miners) : comp Miners :=
  match ensure_miners_file_exists to_string yml create written with
  | (_, Ok _) => if started then watch (first :: updates) w else mret w
  | _ => mret w
  end.

(** * The rules and their regexes *)

(** Every miner has its rules compiled, and there are no others. *)
Definition compiled_from (rules : gmap MinerId Miner) (rx : list (MinerId * list Regex)) : Prop :=
  ∀ id l, (id, l) ∈ rx ↔ ∃ miner, rules !! id = Some miner ∧
    Forall2 (λ r x, Regex_new (insensetive_regex r) = Some x) (regexes miner) l.

Lemma compile_miner_spec miner l :
  compile_miner miner = Ok l ↔ Forall2 (λ r x, Regex_new (insensetive_regex r) = Some x) (regexes miner) l.
Proof.
  unfold compile_miner. assert (∀ rs acc l, for_each (λ compiled_regrets regex,
    compiled_regex ← ok_or (Regex_new (insensetive_regex regex)) "regex error"; Ok (compiled_regrets ++ [compiled_regex])) rs acc
    = Ok l ↔ ∃ l', l = acc ++ l' ∧ Forall2 (λ r x, Regex_new (insensetive_regex r) = Some x) rs l') as Hgo.
  { clear. induction rs as [|r rs IH]; intros acc l; cbn [for_each].
    { split; [intros [= <-]; exists []; by rewrite app_nil_r|]. intros (l' & -> & Hl). apply Forall2_nil_inv_l in Hl as ->.
      by rewrite app_nil_r. }
    destruct (Regex_new (insensetive_regex r)) as [x|] eqn:Hx; cbn [ok_or mbind outcome_bind].
    - rewrite IH. split; intros (l' & -> & Hl).
      + exists (x :: l'). split; [by rewrite <- app_assoc|by constructor].
      + apply Forall2_cons_inv_l in Hl as (y & k & Hy & Hk & ->). rewrite Hx in Hy. injection Hy as ->.
        exists k. split; [by rewrite <- app_assoc|done].
    - split; [done|]. intros (l' & -> & Hl). apply Forall2_cons_inv_l in Hl as (y & k & Hy & _). by rewrite Hx in Hy. }
  rewrite Hgo. split; [by intros (l' & -> & ?)|]. intros Hl. by exists l.
Qed.

Lemma compile_miner_no_panic miner : is_ok (compile_miner miner) = true ∨ ∃ e, compile_miner miner = Err e.
Proof.
  unfold compile_miner. match goal with |- context [for_each ?f] => set (body := f) end.
  assert (∀ rs acc, is_ok (for_each body rs acc) = true ∨ ∃ e, for_each body rs acc = Err e) as Hgo; [|apply Hgo].
  induction rs as [|r rs IH]; intros acc; cbn [for_each]; [by left|].
  destruct (body acc r) as [acc'|e|m|] eqn:Hb; cbn [mbind outcome_bind]; [apply IH|right; by eexists|..];
    unfold body in Hb; by destruct (Regex_new (insensetive_regex r)).
Qed.

Definition compiles (miner : Miner) : Prop := Forall (λ r, is_Some (Regex_new (insensetive_regex r))) (regexes miner).

#[local] Instance compiles_dec miner : Decision (compiles miner).
Proof. unfold compiles. apply _. Defined.

Lemma compile_miner_total miner :
  (∃ l, compile_miner miner = Ok l ∧ compiles miner) ∨ (∃ e, compile_miner miner = Err e ∧ ¬ compiles miner).
Proof.
  destruct (compile_miner_no_panic miner) as [Hok|[e He]].
  - left. destruct (compile_miner miner) as [l| | |] eqn:Hm; try done. exists l. split; [done|]. apply compile_miner_spec in Hm.
    unfold compiles. clear Hok. induction Hm as [|r x rs xs Hx _ IH]; [by apply Forall_nil|]. apply Forall_cons. split; [by exists x|done].
  - right. exists e. split; [done|]. intros Hall.
    assert (∃ l, Forall2 (λ r x, Regex_new (insensetive_regex r) = Some x) (regexes miner) l) as [l Hl%compile_miner_spec]; [|congruence].
    unfold compiles in Hall. clear He. induction Hall as [|r rs [x Hx] _ [l Hl]]; [by exists []|]. exists (x :: l). by constructor.
Qed.

Lemma compile_regexes_spec rules :
  (map_Forall (λ _, compiles) rules ∧ ∃ m, compile_regexes rules = Ok m ∧ ∀ id, m !! id =
    match rules !! id with Some x => match compile_miner x with Ok l => Some l | _ => None end | None => None end) ∨
  (¬ map_Forall (λ _, compiles) rules ∧ ∃ e, compile_regexes rules = Err e).
Proof.
  unfold compile_regexes. match goal with |- context [for_each ?f] => set (body := f) end.
  assert (∀ l acc, NoDup (l.*1) → (∀ id miner, (id, miner) ∈ l → acc !! id = None) →
    (Forall (λ x, compiles x.2) l ∧ ∃ m, for_each body l acc = Ok m ∧ ∀ id, m !! id = match (list_to_map l : gmap MinerId Miner) !! id with
       | Some x => match compile_miner x with Ok l => Some l | _ => None end | None => acc !! id end) ∨
    (¬ Forall (λ x, compiles x.2) l ∧ ∃ e, for_each body l acc = Err e)) as Hgo.
  { induction l as [|[id miner] l IH]; intros acc Hnd Hacc; cbn [for_each]; [left; split; [done|by exists acc]|].
    apply NoDup_cons in Hnd as [Hid Hnd]. cbn [fst] in Hid.
    assert (body acc (id, miner) = x ← compile_miner miner; Ok (<[ id := x ]> acc)) as -> by done. rewrite Forall_cons. cbn [snd].
    destruct (compile_miner_total miner) as [(x & Hx & Hc)|(e & He & Hc)]; [|rewrite He; right; split; [tauto|by eexists]].
    rewrite Hx. cbn [mbind outcome_bind].
    destruct (IH (<[ id := x ]> acc) Hnd) as [(Hall & m & Hm & Hl)|[Hno Hm]]; [| |right; tauto].
    - intros id' miner' Hin. rewrite lookup_insert_ne; [apply (Hacc id' miner'); by right|]. intros <-. apply Hid.
      apply list_elem_of_fmap. by exists (id, miner').
    - left. split; [done|]. exists m. split; [done|]. intros id'. rewrite Hl, list_to_map_cons. destruct (decide (id = id')) as [<-|Hne].
      + rewrite not_elem_of_list_to_map_1, !lookup_insert_eq by done. by rewrite Hx.
      + by rewrite !lookup_insert_ne by done. }
  destruct (Hgo (map_to_list rules) ∅) as [(Hall & m & Hm & Hl)|[Hno He]]; [apply NoDup_fst_map_to_list|done|left|right].
  - split; [apply map_Forall_to_list; eapply Forall_impl; [exact Hall|]; by intros []|]. exists m. split; [done|]. intros id. rewrite Hl, list_to_map_to_list. by destruct (rules !! id).
  - split; [|done]. rewrite map_Forall_to_list. intros Hall. apply Hno. eapply Forall_impl; [exact Hall|]. by intros [].
Qed.

(** * What a reload leads to *)

Context (order_permutes : ∀ m, order m ≡ₚ map_to_list m).

Lemma compiled_rules rules m :
  (∀ id, m !! id = match rules !! id with Some x => match compile_miner x with Ok l => Some l | _ => None end | None => None end) →
  compiled_from rules (order m) ∧ rules_ok rules (order m).
Proof.
  intros Hm. assert (compiled_from rules (order m)) as Hc.
  { intros id l. rewrite (order_permutes m), elem_of_map_to_list, Hm. split.
    - destruct (rules !! id) as [x|]; [|done]. destruct (compile_miner x) as [l'| | |] eqn:Hx; try done. intros [= <-].
      exists x. split; [done|by apply compile_miner_spec].
    - intros (x & -> & Hl%compile_miner_spec). by rewrite Hl. }
  split; [done|]. intros id l (x & Hx & _)%Hc. by exists x.
Qed.

(** The blocks up to the last one that was downloaded *)
Definition synced_blocks (c : Chain) : list Mined :=
  match first_fetched c with
  | Some a => mined_on c (default a (known_headers c !! bn_hash a))
  | None => []
  end.

(** These blocks are counted, with the rules of the state. *)
Definition counts_chain (c : Chain) (w : Miners) : Prop := ∃ shares page after,
  w = state_of (rules w) (rules_regexes w) shares page after (synced_blocks c).

Lemma config_updated c fuel now w new_rules new_regexes :
  chain_wf c → enough c fuel → rules_ok new_rules new_regexes →
  ∃ w', callback_config_updated c fuel now w new_rules new_regexes = Finished (Ok w') ∧
    rules w' = new_rules ∧ rules_regexes w' = new_regexes ∧ counts_chain c w'.
Proof.
  intros Hwf Hfuel Hr. unfold callback_config_updated. set (w0 := mkMiners _ _ _ _ _ _ _ _ _).
  rewrite get_top_synced_header_hash_spec by done. rewrite comp_bind_Finished. unfold counts_chain, synced_blocks, recalculate_full_miner_stats.
  destruct (first_fetched c) as [a|] eqn:Ha; cbn [fmap option_fmap option_map compose].
  - assert (in_chain c a) as (y & Hy & _).
    { unfold first_fetched in Ha. apply find_some in Ha as [Ha _]. apply list_elem_of_In in Ha.
      by apply elem_of_ancestors in Ha as [Ha _]; [|done|by apply wf_top]. }
    rewrite Hy. cbn [default from_option]. assert (bn_hash y = bn_hash a) as Hya by by eapply wf_key.
    rewrite <- Hya in Hy |- *. rewrite (blocks_listed c fuel y) by done. rewrite comp_bind_Finished. fold (mined_on c y).
    destruct (shares_Ok (rules w0) (rules_regexes w0) (recent_shares w0) (page_data w0)
      (default now (last (map md_timestamp (mined_on c y))) -! MINER_PERCENTAGE_OVER_LAST_SECONDS) (mined_on c y)) as [w' Hw].
    rewrite <- (recalculate_spec (rules w0) (rules_regexes w0)) in Hw by done. rewrite Hw.
    pose proof (recalculated (rules w0) (rules_regexes w0) Hr w0 now _ w' eq_refl eq_refl Hw) as Hst.
    exists w'. rewrite Hst. split_and!; try done. by do 3 eexists.
  - eexists. split; [reflexivity|]. cbn [rules rules_regexes set_blocks w0]. split_and!; try done.
    exists (recent_shares w), (page_data w), 0. unfold set_blocks, state_of, w0. cbn. by rewrite (fresh_mined new_rules new_regexes), fresh_counts.
Qed.

(** * The file is followed *)

(** The rules of a file that can be read and whose regexes are all valid *)
Definition valid_config (file : option bytes) : option (gmap MinerId Miner) :=
  match file with
  | None => None
  | Some data =>
      match from_slice data with
      | None => None
      | Some parsed => if decide (map_Forall (λ _, compiles) parsed) then Some parsed else None
      end
  end.

Lemma reload_spec c fuel now file w :
  chain_wf c → enough c fuel →
  ∃ w', reload_miners_config c fuel now file w = Finished (Ok w') ∧
    match valid_config file with
    | None => w' = w
    | Some parsed => rules w' = parsed ∧ compiled_from parsed (rules_regexes w') ∧
        rules_ok (rules w') (rules_regexes w') ∧ counts_chain c w'
    end.
Proof.
  intros Hwf Hfuel. unfold reload_miners_config, valid_config. destruct file as [data|]; [|by exists w].
  destruct (from_slice data) as [parsed|]; [|by exists w].
  destruct (compile_regexes_spec parsed) as [(Hall & m & -> & Hm)|[Hno [e ->]]]; [|exists w; by rewrite decide_False].
  rewrite decide_True by done. destruct (compiled_rules parsed m Hm) as [Hc Hr].
  destruct (config_updated c fuel now w parsed (order m) Hwf Hfuel Hr) as (w' & Hw & Hw1 & Hw2 & Hcnt).
  exists w'. by rewrite Hw1, Hw2.
Qed.

(** The last update with a valid file, with the chain at that moment *)
Fixpoint last_config (updates : list Update) (x : option (Chain * gmap MinerId Miner)) : option (Chain * gmap MinerId Miner) :=
  match updates with
  | [] => x
  | WatchError :: updates | OtherEvent :: updates => last_config updates x
  | WriteTime c _ _ file :: updates =>
      last_config updates (match valid_config file with Some parsed => Some (c, parsed) | None => x end)
  end.

Definition update_ok (u : Update) : Prop :=
  match u with WriteTime c fuel _ _ => chain_wf c ∧ enough c fuel | _ => True end.

(** The updates before the first error of the watcher *)
Fixpoint before_error (updates : list Update) : list Update :=
  match updates with
  | [] | WatchError :: _ => []
  | update :: updates => update :: before_error updates
  end.

(** The state is that of the last valid file, or what it was at the start. *)
Definition follows (w0 : Miners) (x : option (Chain * gmap MinerId Miner)) (w : Miners) : Prop :=
  match x with
  | None => w = w0
  | Some (c, parsed) => rules w = parsed ∧ compiled_from parsed (rules_regexes w) ∧ counts_chain c w
  end.

(** C24. Whatever happens to [miners.yml], the watcher never fails, and the state is what the last valid file gives that it saw: its
    rules, every one of its regexes compiled without regard to case, and all blocks up to the last one that was
    downloaded counted with them. A file that cannot be opened, parsed or compiled changes nothing. But the first error of
    the watcher itself ends it: whatever files come after it are not looked at. Every rule belongs to a miner at all
    times, on which the statistics rely. *)
Theorem watch_follows_file updates w :
  Forall update_ok updates → rules_ok (rules w) (rules_regexes w) →
  ∃ w', watch updates w = Finished (Ok w') ∧ follows w (last_config (before_error updates) None) w' ∧
    rules_ok (rules w') (rules_regexes w').
Proof.
  intros Hu Hr. assert (∀ x w1, follows w x w1 → rules_ok (rules w1) (rules_regexes w1) → ∃ w',
    watch updates w1 = Finished (Ok w') ∧ follows w (last_config (before_error updates) x) w' ∧ rules_ok (rules w') (rules_regexes w')) as Hgo;
    [|by apply Hgo].
  clear Hr. induction Hu as [|u updates Hu _ IH]; intros x w1 Hf Hr1; [by exists w1|].
  destruct u as [c fuel now file| |]; cbn [watch before_error last_config]; [|by apply IH|by exists w1].
  destruct Hu as [Hwf Hfuel]. destruct (reload_spec c fuel now file w1 Hwf Hfuel) as (w2 & -> & Hw2).
  rewrite comp_bind_Finished. destruct (valid_config file) as [parsed|].
  - destruct Hw2 as (Hp & Hc & Hr2 & Hcnt). by apply IH.
  - subst w2. by apply IH.
Qed.

(** The rules the program starts with are sound as well. *)
Lemma MINER_DATA_rules w : MINER_DATA = Ok w → rules_ok (rules w) (rules_regexes w).
Proof.
  unfold MINER_DATA. destruct (compile_regexes_spec DEFAULT_MINERS_CONFIG) as [(_ & m & -> & Hm)|[_ [e ->]]]; [|done].
  cbn [unwrap mbind outcome_bind]. intros [= <-]. cbn [rules rules_regexes]. by apply compiled_rules.
Qed.
End config.

(** * Examples *)

Import Toy ToyChain.

(** A regex matches just its own text; a star is not a valid one. *)
#[local] Instance toy_regex : RegexLib := { Regex := bytes; is_match r t := bool_decide (r = t) }.

Definition toy_Regex_new (r : bytes) : option Regex := if bool_decide (r = bstr "(?i)*") then None else Some (drop 4 r).

Definition toy_rules (r : bytes) : gmap MinerId Miner := {[ bstr "pool" := mkMiner (bstr "Pool") None [r] ]}.

(** The text of a file is the only regex of its only pool. *)
Definition toy_from_slice (b : bytes) : option (gmap MinerId Miner) :=
  match b with [] => None | _ => Some (toy_rules b) end.

Definition toy_updates : list Update :=
  [WriteTime text_chain 10 0 (Some (bstr "/pool/")); OtherEvent; WriteTime text_chain 10 0 (Some (bstr "*"));
   WriteTime text_chain 10 0 (Some []); WatchError; WriteTime text_chain 10 0 (Some (bstr "/other/"))].

Lemma toy_last_config : last_config toy_from_slice toy_Regex_new (before_error toy_updates) None = Some (text_chain, toy_rules (bstr "/pool/")).
Proof. reflexivity. Qed.

Lemma watch_follows_file_witness : ∃ w', 
  watch toy_from_slice toy_Regex_new map_to_list toy_updates (mkMiners _ ∅ [] ∅ ∅ ∅ [] [] ([], [])) = Finished (Ok w') ∧
  rules w' = toy_rules (bstr "/pool/").
Proof.
  destruct (watch_follows_file toy_from_slice toy_Regex_new map_to_list (λ m, reflexivity _) toy_updates
    (mkMiners _ ∅ [] ∅ ∅ ∅ [] [] ([], []))) as (w' & Hw & Hf & _).
  - repeat apply Forall_cons_2; try exact I; try (split; [exact text_chain_wf|exact text_enough]). apply Forall_nil_2.
  - intros id l Hin. by apply elem_of_nil in Hin.
  - exists w'. split; [exact Hw|]. rewrite toy_last_config in Hf. apply Hf.
Defined.
