(* ===== verification/ArenaPool.v ===== *)
(** [src/packets/arenapool.rs]: the pool of arenas that packets are read into. Tasks that ask for
    an arena run side by side; the counter of arenas is changed by compare-and-exchange. *)
From S2P Require Import Prelude.

(** * Data *)

(** The capacity that is given to the pool of [deadpool] *)
Definition POOL_MAX_SIZE : Z := 1024 * 1024.

(** An arena has a number here. Of the pool of [deadpool], [objects] are all arenas that belong to it
    and [idle] those that nobody has taken out; [made] is the number of the next arena. *)
Record ArenaPool := mkArenaPool {
  arena_size : Z;
  idle : list nat;
  objects : list nat;
  made : nat;
  current_size : Z;
  current_limit : Z;
}.

(** Where a task is inside [get_arena]: it waits for the pool; it has an arena, and has
    read nothing, the size, or the size and the limit yet; it has lowered the size and has yet to take its arena
    out of the pool; it timed out, and has read likewise; it has raised the size and has yet to add the arena; it
    panicked then; it has returned with an arena. *)
Inductive task :=
| Waiting
| Taken (p : nat)
| TakenSize (p : nat) (current : Z)
| Shrinking (p : nat) (current limit : Z)
| Dropping (p : nat)
| TimedOut
| TimedOutSize (current : Z)
| Growing (current limit : Z)
| Adding
| Panicked
| Using (p : nat).

Definition set_idle (s : ArenaPool) (l : list nat) : ArenaPool :=
  mkArenaPool (arena_size s) l (objects s) (made s) (current_size s) (current_limit s).

Definition set_size (s : ArenaPool) (n : Z) : ArenaPool :=
  mkArenaPool (arena_size s) (idle s) (objects s) (made s) n (current_limit s).

(** * Operations *)

(** [Arena::new], and [try_add], which gives the arena back when the pool is full *)
Definition add_arena (s : ArenaPool) : outcome ArenaPool :=
  if Z.of_nat (length (objects s)) <? POOL_MAX_SIZE then
    Ok (mkArenaPool (arena_size s) (idle s ++ [made s]) (objects s ++ [made s]) (S (made s)) (current_size s) (current_limit s))
  else Panic "to have added a new arena".

Definition ArenaPool_new (arena_size initial_size : Z) : outcome ArenaPool :=
  repeat_for initial_size add_arena (mkArenaPool arena_size [] [] 0 initial_size initial_size).

Definition set_limit (s : ArenaPool) (new_limit : Z) : ArenaPool :=
  mkArenaPool (arena_size s) (idle s) (objects s) (made s) (current_size s) new_limit.

Definition get_size (s : ArenaPool) : Z := current_size s.
Definition get_limit (s : ArenaPool) : Z := current_limit s.

(** [Object::take]: the arena leaves the pool for good. *)
Definition take_object (s : ArenaPool) (p : nat) : ArenaPool :=
  mkArenaPool (arena_size s) (idle s) (List.filter (λ q, negb (q =? p)%nat) (objects s)) (made s) (current_size s) (current_limit s).

(** With an arena at hand: is there one too many? *)
Definition keep_or_shrink (p : nat) (current limit : Z) : task :=
  if current <=? limit then Using p else Shrinking p current limit.

(** The exchange failed. Outside of the loop the arena is dropped, which gives it back to the
    pool, and the task waits again. *)
Definition shrink_again (s : ArenaPool) (p : nat) (limit : Z) : ArenaPool * task :=
  if limit <? current_size s then (s, Shrinking p (current_size s) limit)
  else (set_idle s (idle s ++ [p]), Waiting).

(** After the timeout: may another arena be added? *)
Definition grow_or_wait (current limit : Z) : task :=
  if current <? limit then Growing current limit else Waiting.

(** * The steps of the tasks

    [highest] bounds the limits that are ever set. The exchanges are weak: they may
    fail although the counter has the expected value. The pool gives out any idle arena. *)

Section steps.
Context (highest : Z).

(** A task on its own. The last component is what becomes of it, nothing if it is gone. *)
Inductive task_step : ArenaPool → task → ArenaPool → option task → Prop :=
| step_take s l1 p l2 : idle s = l1 ++ p :: l2 → task_step s Waiting (set_idle s (l1 ++ l2)) (Some (Taken p))
| step_timeout s : task_step s Waiting s (Some TimedOut)
| step_cancelled s : task_step s Waiting s None
| step_taken_size s p : task_step s (Taken p) s (Some (TakenSize p (current_size s)))
| step_taken_limit s p current :
    task_step s (TakenSize p current) s (Some (keep_or_shrink p current (current_limit s)))
| step_shrink s p limit :
    task_step s (Shrinking p (current_size s) limit)
      (set_size s (current_size s -! 1)) (Some (Dropping p))
| step_drop s p : task_step s (Dropping p) (take_object s p) (Some Waiting)
| step_shrink_again s p current limit :
    task_step s (Shrinking p current limit) (shrink_again s p limit).1 (Some (shrink_again s p limit).2)
| step_timed_out_size s : task_step s TimedOut s (Some (TimedOutSize (current_size s)))
| step_timed_out_limit s current :
    task_step s (TimedOutSize current) s (Some (grow_or_wait current (current_limit s)))
| step_grow s limit :
    task_step s (Growing (current_size s) limit) (set_size s (current_size s +! 1)) (Some Adding)
| step_grow_again s current limit :
    task_step s (Growing current limit) s (Some (grow_or_wait (current_size s) limit))
| step_add s s' : add_arena s = Ok s' → task_step s Adding s' (Some Waiting)
| step_add_panic s m : add_arena s = Panic m → task_step s Adding s (Some Panicked)
| step_release s p : task_step s (Using p) (set_idle s (idle s ++ [p])) None.

Inductive pool_step : ArenaPool * list task → ArenaPool * list task → Prop :=
| step_task s s' ts1 t r ts2 :
    task_step s t s' r → pool_step (s, ts1 ++ t :: ts2) (s', ts1 ++ option_list r ++ ts2)
| step_call s ts1 ts2 : pool_step (s, ts1 ++ ts2) (s, ts1 ++ Waiting :: ts2)
| step_set_limit s n ts : 0 <= n <= highest → pool_step (s, ts) (set_limit s n, ts).

(** * What holds in every state *)

Definition holds (t : task) : option nat :=
  match t with
  | Taken p | TakenSize p _ | Shrinking p _ _ | Dropping p | Using p => Some p
  | _ => None
  end.

(** The arenas that the tasks have; those that are counted but not (or never) added; those that are not counted any more
    but not dropped yet *)
Definition held (ts : list task) : list nat := omap holds ts.
Definition is_adding (t : task) : bool := match t with Adding | Panicked => true | _ => false end.
Definition pending (ts : list task) : Z := len (List.filter is_adding ts).
Definition is_dropping (t : task) : bool := match t with Dropping _ => true | _ => false end.
Definition dropping (ts : list task) : Z := len (List.filter is_dropping ts).

(** What a task remembers *)
Definition task_ok (t : task) : Prop :=
  match t with
  | Shrinking _ current limit => limit < current ∧ 0 <= limit
  | Growing current limit => current < limit <= highest
  | _ => True
  end.

Record pool_ok (s : ArenaPool) (ts : list task) : Prop := {
  pk_objects : held ts ++ idle s ≡ₚ objects s;
  pk_distinct : NoDup (objects s);
  pk_made : Forall (λ p, (p < made s)%nat) (objects s);
  pk_size : current_size s + dropping ts = len (objects s) + pending ts;
  pk_limit : 0 <= current_limit s <= highest;
  pk_bound : current_size s <= highest;
  pk_tasks : Forall task_ok ts;
}.

Lemma held_app ts1 ts2 : held (ts1 ++ ts2) = held ts1 ++ held ts2.
Proof. unfold held. apply omap_app. Qed.

Lemma pending_cons t ts : pending (t :: ts) = (if is_adding t then 1 else 0) + pending ts.
Proof. unfold pending. cbn [List.filter]. destruct (is_adding t); [by rewrite len_cons|lia]. Qed.

Lemma NoDup_filter_bool {A} (f : A → bool) l : NoDup l → NoDup (List.filter f l).
Proof.
  induction 1 as [|x l Hx _ IH]; cbn; [constructor|]. destruct (f x); [|done]. constructor; [|done].
  intros [Hin _]%list_elem_of_In%List.filter_In. by apply Hx, list_elem_of_In.
Qed.

Lemma Forall_filter_bool {A} (P : A → Prop) (f : A → bool) l : Forall P l → Forall P (List.filter f l).
Proof. induction 1; cbn; [constructor|]. case_match; [by constructor|done]. Qed.

#[local] Instance filter_perm {A} (f : A → bool) : Proper ((≡ₚ) ==> (≡ₚ)) (List.filter f).
Proof.
  induction 1 as [|x l l' _ IH|x y l|l l' l'' _ IH1 _ IH2]; cbn; [done| | |by rewrite IH1].
  - destruct (f x); by rewrite IH.
  - destruct (f x), (f y); done || apply Permutation_swap.
Qed.

Lemma dropping_cons t ts : dropping (t :: ts) = (if is_dropping t then 1 else 0) + dropping ts.
Proof. unfold dropping. cbn [List.filter]. destruct (is_dropping t); [by rewrite len_cons|lia]. Qed.

(** What is dropped is still held. *)
Lemma dropping_held ts : 0 <= dropping ts <= len (held ts).
Proof.
  induction ts as [|t ts IH]; [done|]. rewrite dropping_cons. change (t :: ts) with ([t] ++ ts). rewrite held_app, len_app.
  pose proof (len_nonneg (held [t])). destruct t; cbn in *; unfold len in *; cbn in *; lia.
Qed.

Lemma pool_ok_counts s ts : pool_ok s ts → dropping ts <= len (objects s).
Proof.
  intros [H1 _ _ _ _ _ _]. apply Permutation_length in H1. rewrite length_app in H1. pose proof (dropping_held ts). unfold len in *. lia.
Qed.

(** The order of the tasks does not matter. *)
Lemma pool_ok_perm s ts ts' : ts ≡ₚ ts' → pool_ok s ts → pool_ok s ts'.
Proof.
  intros Hp [H1 H2 H3 H4 H5 H6 H7]. constructor; try done.
  - rewrite <- H1. f_equiv. unfold held. by rewrite Hp.
  - replace (dropping ts') with (dropping ts) by (unfold dropping, len; by rewrite Hp). rewrite H4. f_equal. unfold pending, len. by rewrite Hp.
  - by rewrite <- Hp.
Qed.

Lemma take_object_perm l l' p : l' ++ [p] ≡ₚ l → NoDup l → List.filter (λ q, negb (q =? p)%nat) l ≡ₚ l'.
Proof.
  intros Hp Hn. rewrite <- Hp in *. apply NoDup_app in Hn as (_ & Hd & _). rewrite List.filter_app. cbn.
  rewrite Nat.eqb_refl. cbn. rewrite app_nil_r.
  assert (∀ x, x ∈ l' → x ≠ p) as Hne by (intros x Hx ->; apply (Hd p Hx); by left). clear -Hne.
  induction l' as [|x l' IH]; [done|]. cbn. rewrite (proj2 (Nat.eqb_neq x p)) by (apply Hne; by left). cbn.
  rewrite IH; [done|]. intros y Hy. apply Hne. by right.
Qed.

Lemma add_arena_Ok s s' :
  add_arena s = Ok s' →
  s' = mkArenaPool (arena_size s) (idle s ++ [made s]) (objects s ++ [made s]) (S (made s)) (current_size s) (current_limit s).
Proof. unfold add_arena. case_match; [by intros [= <-]|done]. Qed.

Context (Hmax : highest <= POOL_MAX_SIZE).

(** The new arena is none of the others. *)
Lemma made_fresh s : Forall (λ p, (p < made s)%nat) (objects s) → NoDup (objects s) →
  NoDup (objects s ++ [made s]) ∧ Forall (λ p, (p < S (made s))%nat) (objects s ++ [made s]).
Proof.
  intros Hm Hn. split.
  - apply NoDup_app. split_and!; [done| |apply NoDup_singleton]. intros x Hx ->%list_elem_of_singleton.
    rewrite Forall_forall in Hm. apply Hm in Hx. lia.
  - apply Forall_app. split; [eapply Forall_impl; [exact Hm|cbn; lia]|]. apply Forall_singleton. lia.
Qed.

Lemma keep_or_shrink_facts p current limit : 0 <= limit →
  holds (keep_or_shrink p current limit) = Some p ∧ is_adding (keep_or_shrink p current limit) = false ∧ is_dropping (keep_or_shrink p current limit) = false ∧
  task_ok (keep_or_shrink p current limit).
Proof. intros Hl. unfold keep_or_shrink. destruct (Z.leb_spec current limit); repeat split; lia. Qed.

Lemma grow_or_wait_facts current limit : limit <= highest →
  holds (grow_or_wait current limit) = None ∧ is_adding (grow_or_wait current limit) = false ∧ is_dropping (grow_or_wait current limit) = false ∧
  task_ok (grow_or_wait current limit).
Proof. intros Hl. unfold grow_or_wait. destruct (Z.ltb_spec current limit); repeat split; lia. Qed.

(** A step that changes nothing but where a task is *)
Lemma pool_ok_task s t r ts :
  holds r = holds t → is_adding r = is_adding t → is_dropping r = is_dropping t → task_ok r → pool_ok s (t :: ts) → pool_ok s (r :: ts).
Proof.
  intros Hh Ha Hd Hr [H1 H2 H3 H4 H5 H6 H7]. apply Forall_cons in H7 as [_ H7]. constructor; try done.
  - rewrite <- H1. unfold held. cbn. by rewrite Hh.
  - rewrite !dropping_cons, !pending_cons, ?Ha, ?Hd in *. lia.
  - by apply Forall_cons.
Qed.

(** A task that has an arena gives it back, and waits or is gone. *)
Lemma pool_ok_give_back s t p r ts :
  holds t = Some p → is_adding t = false → is_dropping t = false → r = None ∨ r = Some Waiting →
  pool_ok s (t :: ts) → pool_ok (set_idle s (idle s ++ [p])) (option_list r ++ ts).
Proof.
  intros Hh Ha Hd Hr [H1 H2 H3 H4 H5 H6 H7]. apply Forall_cons in H7 as [_ H7].
  assert (held (option_list r ++ ts) = held ts ∧ pending (option_list r ++ ts) = pending ts ∧
    dropping (option_list r ++ ts) = dropping ts) as (Hhr & Hpr & Hdr) by by destruct Hr as [->| ->].
  constructor; cbn [set_idle idle objects made current_size current_limit]; try done.
  - rewrite Hhr, <- H1. unfold held at 2. cbn [omap list_omap]. rewrite Hh. fold (held ts). solve_Permutation.
  - rewrite pending_cons, dropping_cons, Ha, Hd in H4. rewrite Hpr, Hdr. lia.
  - destruct Hr as [->| ->]; [done|by apply Forall_cons].
Qed.

Lemma task_step_ok s t s' r ts : task_step s t s' r → pool_ok s (t :: ts) → pool_ok s' (option_list r ++ ts).
Proof.
  intros Hstep Hok. pose proof (pool_ok_counts _ _ Hok) as Hcount. pose proof Hok as [H1 H2 H3 H4 H5 H6 H7].
  apply Forall_cons in H7 as [Ht H7]. rewrite pending_cons in H4. rewrite dropping_cons in H4, Hcount.
  pose proof (len_nonneg (List.filter is_adding ts)) as Hpend. fold (pending ts) in Hpend. pose proof (dropping_held ts) as [Hdrop _].
  pose proof (len_nonneg (objects s)) as Hobj. unfold POOL_MAX_SIZE in Hmax.
  destruct Hstep as [s l1 p l2 Hi|s|s|s p|s p current|s p limit|s p|s p current limit|s|s current|s limit|s current limit|s s' Ha|s m Ha|s p];
    cbn [option_list app is_adding is_dropping] in *.
  all: try match goal with |- context [option_list (Some ?x) ++ ?l] => change (option_list (Some x) ++ l) with (x :: l) end.
  - constructor; cbn [set_idle idle objects made current_size current_limit]; try done.
    + rewrite <- H1, Hi. unfold held. cbn. solve_Permutation.
    + by apply Forall_cons.
  - by apply (pool_ok_task s Waiting).
  - constructor; (done || lia).
  - by apply (pool_ok_task s (Taken p)).
  - destruct (keep_or_shrink_facts p current (current_limit s)) as (? & ? & ? & ?); [lia|].
    by apply (pool_ok_task s (TakenSize p current)).
  - cbn in Ht. rewrite wrap64_small by (unfold in_u64; lia).
    constructor; cbn [set_size idle objects made current_size current_limit]; try (done || lia).
    + rewrite pending_cons, dropping_cons. cbn [is_adding is_dropping]. lia.
    + by apply Forall_cons.
  - assert (held ts ++ idle s ++ [p] ≡ₚ objects s) as Hp by (rewrite <- H1; unfold held; cbn; solve_Permutation).
    rewrite app_assoc in Hp. pose proof (take_object_perm _ _ _ Hp H2) as Ht'.
    constructor; cbn [take_object idle objects made current_size current_limit]; try done.
    + by apply NoDup_filter_bool.
    + by apply Forall_filter_bool.
    + apply Permutation_length in Hp, Ht'. rewrite length_app in Hp. rewrite pending_cons, dropping_cons.
      cbn [is_adding is_dropping length] in *. unfold len in *. lia.
    + by apply Forall_cons.
  - unfold shrink_again. destruct (Z.ltb_spec limit (current_size s)); cbn [fst snd].
    + apply (pool_ok_task s (Shrinking p current limit)); [done|done|done|cbn in *; lia|done].
    + apply (pool_ok_give_back s (Shrinking p current limit) p (Some Waiting)); [done|done|done|by right|done].
  - by apply (pool_ok_task s TimedOut).
  - destruct (grow_or_wait_facts current (current_limit s)) as (? & ? & ? & ?); [lia|].
    by apply (pool_ok_task s (TimedOutSize current)).
  - cbn in Ht. rewrite wrap64_small by (unfold in_u64; lia).
    constructor; cbn [set_size idle objects made current_size current_limit]; try (done || lia).
    + rewrite pending_cons, dropping_cons. cbn [is_adding is_dropping]. lia.
    + by apply Forall_cons.
  - destruct (grow_or_wait_facts (current_size s) limit) as (? & ? & ? & ?); [cbn in Ht; lia|].
    by apply (pool_ok_task s (Growing current limit)).
  - apply add_arena_Ok in Ha as ->. destruct (made_fresh s H3 H2) as [Hn Hm].
    constructor; cbn [idle objects made current_size current_limit]; try done.
    + rewrite <- H1. unfold held. cbn. solve_Permutation.
    + rewrite pending_cons, dropping_cons, len_app. cbn [is_adding is_dropping]. change (len [made s]) with 1. lia.
    + by apply Forall_cons.
  - by apply (pool_ok_task s Adding).
  - apply (pool_ok_give_back s (Using p) p None); try done; by left.
Qed.

Lemma pool_step_ok s ts s' ts' : pool_step (s, ts) (s', ts') → pool_ok s ts → pool_ok s' ts'.
Proof.
  intros Hstep Hok. inversion Hstep as [? ? ts1 t r ts2 Ht|? ts1 ts2|? n ? Hn]; subst.
  - apply (pool_ok_perm _ (option_list r ++ ts1 ++ ts2)); [solve_Permutation|].
    eapply task_step_ok; [exact Ht|]. by eapply pool_ok_perm; [|exact Hok]; solve_Permutation.
  - apply (pool_ok_perm _ (Waiting :: ts1 ++ ts2)); [solve_Permutation|].
    destruct Hok as [H1 H2 H3 H4 H5 H6 H7]. constructor; try done. by apply Forall_cons.
  - by destruct Hok.
Qed.

Lemma pool_steps_ok x y : rtc pool_step x y → pool_ok x.1 x.2 → pool_ok y.1 y.2.
Proof. induction 1 as [|[s ts] [s' ts'] z Hs _ IH]; [done|]. intros Hok. apply IH. by eapply pool_step_ok. Qed.

Lemma ArenaPool_new_Ok size n :
  0 <= n <= POOL_MAX_SIZE →
  ArenaPool_new size n = Ok (mkArenaPool size (seq 0 (Z.to_nat n)) (seq 0 (Z.to_nat n)) (Z.to_nat n) n n).
Proof.
  intros Hn. unfold ArenaPool_new. rewrite repeat_for_nat.
  assert (∀ k, (k <= Z.to_nat n)%nat → iter_nat add_arena k (mkArenaPool size [] [] 0 n n)
    = Ok (mkArenaPool size (seq 0 k) (seq 0 k) k n n)) as Hk; [|by apply Hk].
  induction k as [|k IH]; intros Hk; [done|]. rewrite <- Nat.add_1_r, iter_nat_add, IH by lia. cbn [mbind outcome_bind iter_nat].
  unfold add_arena. cbn [objects idle made]. rewrite (proj2 (Z.ltb_lt _ _)) by (rewrite length_seq; lia).
  cbn [mbind outcome_bind]. by rewrite seq_app, Nat.add_1_r.
Qed.

Lemma pool_new_ok size n s : 0 <= n <= highest → ArenaPool_new size n = Ok s → pool_ok s [].
Proof.
  intros Hn. rewrite ArenaPool_new_Ok by lia. intros [= <-]. constructor; cbn [idle objects made current_size current_limit].
  - done.
  - apply NoDup_seq.
  - apply Forall_forall. intros p Hp%elem_of_seq. lia.
  - change (pending []) with 0. change (dropping []) with 0. unfold len. rewrite length_seq. lia.
  - done.
  - lia.
  - constructor.
Qed.

(** ** A task that is alone gets an arena *)

Lemma step_here s t s' r ts : task_step s t s' r → pool_step (s, t :: ts) (s', option_list r ++ ts).
Proof. intros Ht. exact (step_task s s' [] t r ts Ht). Qed.

(** With an idle arena and no more arenas than the limit *)
Lemma idle_served s p l ts :
  idle s = p :: l → current_size s <= current_limit s →
  rtc pool_step (s, Waiting :: ts) (set_idle s l, Using p :: ts).
Proof.
  intros Hi Hle. eapply rtc_l; [apply step_here; by apply (step_take s [] p l)|]. cbn [option_list app].
  eapply rtc_l; [apply step_here, step_taken_size|]. eapply rtc_l; [apply step_here, step_taken_limit|].
  unfold keep_or_shrink. cbn [set_idle current_size current_limit].
  rewrite (proj2 (Z.leb_le _ _)) by done. apply rtc_refl.
Qed.

Lemma waiting_served s ts :
  pool_ok s (Waiting :: ts) → held ts = [] → pending ts = 0 → 1 <= current_limit s →
  ∃ s' p, rtc pool_step (s, Waiting :: ts) (s', Using p :: ts).
Proof.
  remember (idle s) as l eqn:Hl. revert s Hl. induction l as [|p l IH]; intros s Hl Hok Hh Hp Hlim.
  - pose proof Hok as [H1 _ _ H4 _ H6 _]. unfold held in H1. cbn in H1. fold (held ts) in H1. rewrite Hh, <- Hl in H1.
    apply Permutation_nil_l in H1. rewrite pending_cons, dropping_cons, Hp, <- H1 in H4. pose proof (dropping_held ts) as Hd.
    rewrite Hh in Hd. cbn in H4, Hd. change (len []) with 0 in H4, Hd. assert (current_size s = 0) as H4' by lia.
    pose proof (idle_served (mkArenaPool (arena_size s) [made s] [made s] (S (made s)) 1 (current_limit s)) (made s) [] ts eq_refl Hlim) as Hend.
    do 2 eexists. etrans; [|exact Hend].
    eapply rtc_l; [apply step_here, step_timeout|]. eapply rtc_l; [apply step_here, step_timed_out_size|].
    eapply rtc_l; [apply step_here, step_timed_out_limit|]. unfold grow_or_wait. rewrite (proj2 (Z.ltb_lt _ _)) by lia.
    eapply rtc_l; [apply step_here, step_grow|]. eapply rtc_l; [|apply rtc_refl]. apply (step_here _ Adding _ (Some Waiting)), step_add.
    unfold add_arena. cbn [set_size objects idle made arena_size current_limit current_size]. by rewrite <- Hl, <- H1, H4'.
  - destruct (Z.le_gt_cases (current_size s) (current_limit s)) as [Hle|Hgt].
    { do 2 eexists. by apply (idle_served s p l). }
    set (s2 := take_object (set_size (set_idle s l) (current_size s -! 1)) p).
    assert (rtc pool_step (s, Waiting :: ts) (s2, Waiting :: ts)) as Hst.
    { eapply rtc_l; [apply step_here; by apply (step_take s [] p l)|]. cbn [option_list app].
      eapply rtc_l; [apply step_here, step_taken_size|]. eapply rtc_l; [apply step_here, step_taken_limit|].
      unfold keep_or_shrink. cbn [set_idle current_size current_limit]. rewrite (proj2 (Z.leb_gt _ _)) by done.
      eapply rtc_l; [exact (step_here _ _ _ (Some (Dropping p)) ts (step_shrink (set_idle s l) p _))|].
      eapply rtc_l; [|apply rtc_refl]. apply (step_here _ _ _ (Some Waiting)). apply step_drop. }
    destruct (IH s2) as (s' & q & Hrest); [done|exact (pool_steps_ok _ _ Hst Hok)|done|done|done|].
    exists s', q. by etrans.
Qed.
End steps.

(** * Properties *)

(** C26. Whatever the tasks do, at whichever speed, while the limit is changed: the counter is the number of arenas of the
    pool, with those that are counted but not added yet (or never, after a panic), without those that are not
    counted any more but not dropped yet. It stays within the highest limit; every arena of the pool is either idle or with
    one task, and no two tasks share one. Adding an arena does not fail if the highest limit leaves room in
    the pool for as many arenas as are about to be dropped; the counter does not stop a task from adding one before they are. *)
Theorem arena_pool_counts highest size n s0 s ts :
  0 <= n <= highest → highest <= POOL_MAX_SIZE → ArenaPool_new size n = Ok s0 →
  rtc (pool_step highest) (s0, []) (s, ts) →
  current_size s = len (objects s) + pending ts - dropping ts ∧ current_size s <= highest ∧
  held ts ++ idle s ≡ₚ objects s ∧ NoDup (held ts ++ idle s) ∧
  (Adding ∈ ts → highest + dropping ts <= POOL_MAX_SIZE → is_ok (add_arena s) = true).
Proof.
  intros Hn Hmax H0 Hst. destruct (pool_steps_ok highest Hmax _ _ Hst (pool_new_ok highest Hmax size n s0 Hn H0))
    as [H1 H2 H3 H4 H5 H6 H7]. cbn [fst snd] in *. split_and!; [lia|done|done|by rewrite H1|].
  intros Ha Hroom. assert (0 < pending ts) as Hpos.
  { apply list_elem_of_split in Ha as (t1 & t2 & ->). unfold pending. rewrite List.filter_app, len_app. cbn.
    rewrite len_cons. pose proof (len_nonneg (List.filter is_adding t1)). pose proof (len_nonneg (List.filter is_adding t2)). lia. }
  unfold add_arena. unfold len in H4. by rewrite (proj2 (Z.ltb_lt _ _)) by lia.
Qed.

(** No arena is lost: when every other task that had one has given it back and the limit is at
    least one, a task that waits can get an arena, whatever the history of the pool. *)
Theorem arena_pool_serves highest size n s0 s ts :
  0 <= n <= highest → highest <= POOL_MAX_SIZE → ArenaPool_new size n = Ok s0 →
  rtc (pool_step highest) (s0, []) (s, Waiting :: ts) →
  held ts = [] → pending ts = 0 → 1 <= current_limit s →
  ∃ s' p, rtc (pool_step highest) (s, Waiting :: ts) (s', Using p :: ts).
Proof.
  intros Hn Hmax H0 Hst Hh Hp Hlim. apply waiting_served; try done.
  exact (pool_steps_ok highest Hmax _ _ Hst (pool_new_ok highest Hmax size n s0 Hn H0)).
Qed.

(** * Example *)

(** The limit goes down from two to one while a task has an arena: the next one that is taken out
    is dropped. *)
Lemma shrink_run : ∃ s0,
  ArenaPool_new 64 2 = Ok s0 ∧
  rtc (pool_step 2) (s0, []) (mkArenaPool 64 [] [0%nat] 2 1 1, [Waiting; Using 0]).
Proof.
  eexists. split; [vm_compute; reflexivity|].
  eapply rtc_l; [exact (step_call 2 _ [] [])|].
  eapply rtc_l; [apply step_here, (step_take _ [] 0%nat [1%nat]); reflexivity|].
  eapply rtc_l; [apply step_here, step_taken_size|].
  eapply rtc_l; [apply step_here, step_taken_limit|].
  eapply rtc_l; [apply (step_set_limit 2 _ 1); lia|].
  eapply rtc_l; [exact (step_call 2 _ [] _)|].
  eapply rtc_l; [apply step_here, (step_take _ [] 1%nat []); reflexivity|].
  eapply rtc_l; [apply step_here, step_taken_size|].
  eapply rtc_l; [apply step_here, step_taken_limit|].
  eapply rtc_l; [apply step_here, step_shrink|].
  eapply rtc_l; [apply step_here, step_drop|].
  apply rtc_refl.
Qed.

Lemma arena_pool_counts_witness :
  NoDup (held [Waiting; Using 0] ++ idle (mkArenaPool 64 [] [0%nat] 2 1 1)).
Proof.
  destruct shrink_run as (s0 & Hs & Hst).
  destruct (arena_pool_counts 2 64 2 s0 _ _ ltac:(lia) ltac:(vm_compute; discriminate) Hs Hst) as (_ & _ & _ & Hn & _).
  exact Hn.
Defined.

(** After the other task has given its arena back. *)
Lemma arena_pool_serves_witness : ∃ s' p,
  rtc (pool_step 2) (mkArenaPool 64 [0%nat] [0%nat] 2 1 1, [Waiting]) (s', [Using p]).
Proof.
  destruct shrink_run as (s0 & Hs & Hst).
  apply (arena_pool_serves 2 64 2 s0 (mkArenaPool 64 [0%nat] [0%nat] 2 1 1) []).
  - lia.
  - vm_compute. discriminate.
  - exact Hs.
  - eapply rtc_r; [exact Hst|]. exact (step_task 2 _ _ [Waiting] _ _ [] (step_release _ 0%nat)).
  - reflexivity.
  - reflexivity.
  - cbn. lia.
Defined.
