(* ===== verification/OnlineList.v ===== *)
(** [src/util/online_list.rs] and [src/types/addressportnetwork.rs]: the peers that were online
    lately, in a ring that grows when it is full. *)
From stdpp Require Import sorting.
From S2P Require Import Prelude.
From S2P Require Import Messages.

(** * Data *)

Record AddressPortNetwork := mkAddressPortNetwork {
  ap_network_id : NetworkId;
  ap_port : Z;
  ap_address : bytes;
}.

#[export] Instance NetworkId_countable : Countable NetworkId.
Proof.
  refine (inj_countable' network_id_to_u8 (λ v, default NetError (network_id_from_u8 v)) _). by intros [].
Defined.

#[export] Instance AddressPortNetwork_eq_dec : EqDecision AddressPortNetwork.
Proof. solve_decision. Defined.

#[export] Instance AddressPortNetwork_countable : Countable AddressPortNetwork.
Proof.
  refine (inj_countable' (λ a, (ap_network_id a, ap_port a, ap_address a))
    (λ '(n, p, a), mkAddressPortNetwork n p a) _). by intros [].
Defined.

(** [AddressPortNetworkWithServicesAndTime]; times are counted from the Unix epoch. *)
Record OnlinePeer := mkOnlinePeer {
  op_apn : AddressPortNetwork;
  op_services : Z;
  op_last_online : Z;
}.

Definition OnlinePeer_default : OnlinePeer :=
  mkOnlinePeer (mkAddressPortNetwork NetError 0 []) 0 0.

(** The fields [start] and [end] *)
Record OnlineList := mkOnlineList {
  ol_peers : list OnlinePeer;
  ol_threshold : Z;
  ol_end : nat;
  ol_start : nat;
  ol_known : gset AddressPortNetwork;
}.

(** * Operations *)

Definition OnlineList_new (threshold : Z) : OnlineList :=
  mkOnlineList (replicate 32 OnlinePeer_default) threshold 0 0 ∅.

Definition ol_length (l : OnlineList) : nat :=
  if (ol_end l <? ol_start l)%nat then (ol_end l + length (ol_peers l) - ol_start l)%nat
  else (ol_end l - ol_start l)%nat.

(** The loop of [trim]: from the slot [start0] on, until a peer is recent enough. *)
Fixpoint trim_loop (peers : list OnlinePeer) (cutoff : Z) (start0 : nat) (slots : list nat)
    (s : nat * gset AddressPortNetwork) : outcome (nat * gset AddressPortNetwork) :=
  match slots with
  | [] => Ok s
  | i :: slots =>
      item ← expect (peers !! ((i + start0) mod length peers)%nat) "called `Option::unwrap()` on a `None` value";
      if op_last_online item <? cutoff then
        trim_loop peers cutoff start0 slots (((s.1 + 1) mod length peers)%nat, s.2 ∖ {[ op_apn item ]})
      else Ok s
  end.

Definition trim (l : OnlineList) (rn : Z) : outcome OnlineList :=
  '(start, known) ← trim_loop (ol_peers l) (rn - ol_threshold l) (ol_start l) (seq 0 (length (ol_peers l)))
    (ol_start l, ol_known l);
  Ok (mkOnlineList (ol_peers l) (ol_threshold l) (ol_end l) start known).

(** The ring has no free slot any more: twice as many, the oldest peer first *)
Definition grow_peers (peers : list OnlinePeer) (end_ : nat) : list OnlinePeer :=
  drop end_ peers ++ take end_ peers ++ replicate (length peers) OnlinePeer_default.

(** [rn] is the clock inside of [trim]. *)
Definition peer_online (l : OnlineList) (rn : Z) (peer : AddressPortNetwork) (services last_online : Z) :
    outcome OnlineList :=
  l ← trim l rn;
  if bool_decide (peer ∈ ol_known l) then Ok l
  else
    let known := ol_known l ∪ {[ peer ]} in
    _ ← expect (ol_peers l !! ol_end l) "index out of bounds";
    let peers := <[ ol_end l := mkOnlinePeer peer services last_online ]> (ol_peers l) in
    let end_ := ((ol_end l + 1) mod length peers)%nat in
    if bool_decide (end_ = ol_start l) then
      Ok (mkOnlineList (grow_peers peers end_) (ol_threshold l) (length peers) 0 known)
    else Ok (mkOnlineList peers (ol_threshold l) end_ (ol_start l) known).

(** The search for the required services, from a slot on, all the way round if need be *)
Fixpoint find_services (peers : list OnlinePeer) (requirement : Z) (slots : list nat) :
    outcome (option AddressPortNetwork) :=
  match slots with
  | [] => Ok None
  | i :: slots =>
      item ← expect (peers !! (i mod length peers)%nat) "index out of bounds";
      if Z.land (op_services item) requirement =? requirement then Ok (Some (op_apn item))
      else find_services peers requirement slots
  end.

(** [index] is the random number; it is below the length of the list. *)
Definition random (l : OnlineList) (index : nat) (services : option Z) : outcome (option AddressPortNetwork) :=
  let len := ol_length l in
  if (len =? 0)%nat then Ok None
  else
    match services with
    | None => item ← expect (ol_peers l !! index) "index out of bounds"; Ok (Some (op_apn item))
    | Some requirement => find_services (ol_peers l) requirement (seq index len)
    end.

(** * The ring as a queue *)

(** The slots from the start on, all the way round; those of the list, and the others *)
Definition ring (l : OnlineList) : list OnlinePeer := drop (ol_start l) (ol_peers l) ++ take (ol_start l) (ol_peers l).
Definition window (l : OnlineList) : list OnlinePeer := take (ol_length l) (ring l).
Definition outside (l : OnlineList) : list OnlinePeer := drop (ol_length l) (ring l).

Definition apns (ps : list OnlinePeer) : gset AddressPortNetwork := list_to_set (map op_apn ps).

Definition earlier_online (p q : OnlinePeer) : Prop := op_last_online p <= op_last_online q.

(** [rn] is a time after all operations so far. The slots that are not in use hold peers that were
    trimmed, or none. *)
Record online_ok (l : OnlineList) (rn : Z) : Prop := {
  oo_start : (ol_start l < length (ol_peers l))%nat;
  oo_length : (ol_length l < length (ol_peers l))%nat;
  oo_end : ol_end l = ((ol_start l + ol_length l) mod length (ol_peers l))%nat;
  oo_sorted : StronglySorted earlier_online (window l);
  oo_times : Forall (λ p, op_last_online p <= rn) (window l);
  oo_outside : Forall (λ p, op_last_online p < rn - ol_threshold l) (outside l);
  oo_known : ol_known l ⊆ apns (window l);
}.

Lemma mod_twice a n : (a < n + n)%nat → (a mod n = if decide (a < n) then a else a - n)%nat.
Proof.
  intros Ha. case_decide; [by apply Nat.mod_small|]. symmetry. apply (Nat.mod_unique a n 1); lia.
Qed.

Lemma length_ring l : length (ring l) = length (ol_peers l).
Proof. unfold ring. rewrite length_app, length_drop, length_take. lia. Qed.

Lemma ring_split l : ring l = window l ++ outside l.
Proof. unfold window, outside. by rewrite take_drop. Qed.

Lemma ring_lookup l i :
  (ol_start l < length (ol_peers l))%nat → (i < length (ol_peers l))%nat →
  ol_peers l !! ((i + ol_start l) mod length (ol_peers l))%nat = ring l !! i.
Proof.
  intros Hs Hi. unfold ring. rewrite mod_twice by lia. case_decide.
  - rewrite lookup_app_l by (rewrite length_drop; lia). rewrite lookup_drop. f_equal. lia.
  - rewrite lookup_app_r by (rewrite length_drop; lia). rewrite length_drop, lookup_take_lt by lia. f_equal. lia.
Qed.

(** ** Trimming *)

(** How many of the peers are too old, before the first that is not *)
Fixpoint stale_prefix (cutoff : Z) (ps : list OnlinePeer) : nat :=
  match ps with
  | p :: ps => if op_last_online p <? cutoff then S (stale_prefix cutoff ps) else 0
  | [] => 0
  end.

Lemma stale_prefix_le cutoff ps : (stale_prefix cutoff ps ≤ length ps)%nat.
Proof. induction ps as [|p ps IH]; cbn; [done|]. case_match; lia. Qed.

Lemma trim_loop_spec l cutoff (Hs : (ol_start l < length (ol_peers l))%nat) ps : ∀ i start known,
  drop i (ring l) = ps → (start < length (ol_peers l))%nat →
  trim_loop (ol_peers l) cutoff (ol_start l) (seq i (length ps)) (start, known)
  = Ok (((start + stale_prefix cutoff ps) mod length (ol_peers l))%nat, known ∖ apns (take (stale_prefix cutoff ps) ps)).
Proof.
  induction ps as [|p ps IH]; intros i start known Hd Hst; cbn [length seq trim_loop stale_prefix].
  { rewrite Nat.add_0_r, Nat.mod_small by done. cbn. by rewrite difference_empty_L. }
  assert (ring l !! i = Some p) as Hi by (rewrite <- (Nat.add_0_r i), <- lookup_drop, Hd; done).
  rewrite ring_lookup by (apply lookup_lt_Some in Hi; rewrite length_ring in Hi; done). rewrite Hi. cbn [expect mbind outcome_bind].
  destruct (op_last_online p <? cutoff).
  - cbn [fst snd]. rewrite IH; [|by rewrite <- Nat.add_1_r, <- drop_drop, Hd|by apply Nat.mod_upper_bound; lia].
    cbn [take]. rewrite Nat.Div0.add_mod_idemp_l, <- Nat.add_assoc. do 2 f_equal. unfold apns. cbn [map list_to_set].
    by rewrite difference_difference_l_L.
  - rewrite Nat.add_0_r, Nat.mod_small by done. cbn. by rewrite difference_empty_L.
Qed.

Lemma stale_prefix_app cutoff w o :
  stale_prefix cutoff (w ++ o)
  = if decide (stale_prefix cutoff w < length w)%nat then stale_prefix cutoff w else (length w + stale_prefix cutoff o)%nat.
Proof.
  induction w as [|p w IH]; cbn [app stale_prefix length]; [done|].
  destruct (op_last_online p <? cutoff); [|done]. rewrite IH. repeat case_decide; lia.
Qed.

Lemma stale_prefix_all cutoff o : Forall (λ p, op_last_online p < cutoff) o → stale_prefix cutoff o = length o.
Proof. induction 1 as [|p o Hp _ IH]; cbn; [done|]. by rewrite (proj2 (Z.ltb_lt _ _)), IH by done. Qed.

Lemma stale_prefix_stale cutoff w : Forall (λ p, op_last_online p < cutoff) (take (stale_prefix cutoff w) w).
Proof. induction w as [|p w IH]; cbn; [done|]. destruct (Z.ltb_spec (op_last_online p) cutoff); cbn; by constructor. Qed.

(** The ring seen from a later slot *)
Lemma ring_later l l' k :
  (ol_start l < length (ol_peers l))%nat → ol_peers l' = ol_peers l →
  ol_start l' = ((ol_start l + k) mod length (ol_peers l))%nat → (k ≤ length (ol_peers l))%nat →
  ring l' = drop k (ring l) ++ take k (ring l).
Proof.
  intros Hs Hp Hs' Hk. pose proof (length_ring l) as Hr. apply list_eq_same_length with (n := length (ol_peers l)).
  - rewrite length_app, length_drop, length_take. lia.
  - by rewrite length_ring, Hp.
  - intros i x y Hi Hx Hy. assert (ol_start l' < length (ol_peers l'))%nat as Hsl
      by (rewrite Hs', Hp; apply Nat.mod_upper_bound; lia).
    rewrite <- ring_lookup in Hx by (done || (rewrite Hp; lia)). rewrite Hp, Hs' in Hx.
    assert ((drop k (ring l) ++ take k (ring l)) !! i = ring l !! ((i + k) mod length (ol_peers l))%nat) as Hl.
    { rewrite mod_twice by lia. case_decide.
      - rewrite lookup_app_l, lookup_drop by (rewrite length_drop; lia). f_equal. lia.
      - rewrite lookup_app_r by (rewrite length_drop; lia). rewrite length_drop, lookup_take_lt by lia. f_equal. lia. }
    rewrite Hl, <- ring_lookup in Hy by (done || (apply Nat.mod_upper_bound; lia)).
    rewrite Nat.Div0.add_mod_idemp_l in Hy. rewrite Nat.Div0.add_mod_idemp_r in Hx.
    replace (i + k + ol_start l)%nat with (i + (ol_start l + k))%nat in Hy by lia. congruence.
Qed.

(** What is left of the list: without the peers that are too old, unless all of them are *)
Definition trimmed (cutoff : Z) (w : list OnlinePeer) : list OnlinePeer :=
  match drop (stale_prefix cutoff w) w with
  | [] => w
  | fresh => fresh
  end.

Definition forgotten (cutoff : Z) (l : OnlineList) : list OnlinePeer :=
  match drop (stale_prefix cutoff (window l)) (window l) with
  | [] => ring l
  | _ => take (stale_prefix cutoff (window l)) (window l)
  end.

Lemma length_window l : (ol_length l < length (ol_peers l))%nat → length (window l) = ol_length l.
Proof. intros Hl. unfold window. rewrite length_take, length_ring. lia. Qed.

Lemma StronglySorted_drop {A} (R : A → A → Prop) k l : StronglySorted R l → StronglySorted R (drop k l).
Proof. rewrite <- (take_drop k l) at 1. intros Hs. by apply StronglySorted_app in Hs as (_ & _ & Hs). Qed.

Lemma trim_ok l rn0 rn :
  online_ok l rn0 → rn0 <= rn →
  ∃ l', trim l rn = Ok l' ∧ online_ok l' rn ∧ ol_peers l' = ol_peers l ∧ ol_threshold l' = ol_threshold l ∧
    window l' = trimmed (rn - ol_threshold l) (window l) ∧
    ol_known l' = ol_known l ∖ apns (forgotten (rn - ol_threshold l) l).
Proof.
  intros [H1 H2 H3 H4 H5 H6 H7] Hrn. set (cutoff := rn - ol_threshold l). unfold trim. fold cutoff.
  pose proof (length_ring l) as Hlr. pose proof (length_window l H2) as Hlw.
  assert (Forall (λ p, op_last_online p < cutoff) (outside l)) as Hout
    by (eapply Forall_impl; [exact H6|]; intros p; cbn; unfold cutoff; lia).
  pose proof (trim_loop_spec l cutoff H1 (ring l) 0 (ol_start l) (ol_known l) eq_refl H1) as Ht. rewrite Hlr in Ht.
  rewrite Ht. cbn [mbind outcome_bind].
  eexists. split; [done|]. set (k := stale_prefix cutoff (window l)).
  assert (stale_prefix cutoff (ring l) = if decide (k < ol_length l)%nat then k else length (ol_peers l)) as Hk.
  { rewrite ring_split, stale_prefix_app, (stale_prefix_all _ (outside l)), Hlw by done. fold k. case_decide; [done|].
    rewrite <- Hlr, ring_split, length_app, Hlw. done. }
  rewrite Hk. unfold trimmed, forgotten. fold k. pose proof (stale_prefix_le cutoff (window l)) as Hkw. fold k in Hkw. case_decide as Hd.
  - set (l' := mkOnlineList _ _ _ _ _). assert (ol_length l' = ol_length l - k)%nat as Hlen.
    { unfold ol_length at 1. unfold l'. cbn [ol_end ol_start ol_peers]. rewrite H3.
      clear -H1 H2 Hd. set (n := ol_length l) in *. clearbody n. clearbody k.
      destruct (Nat.ltb_spec ((ol_start l + n) mod length (ol_peers l)) ((ol_start l + k) mod length (ol_peers l))) as [Hlt|Hlt];
        rewrite !mod_twice in * by lia; repeat case_decide; lia. }
    assert (ring l' = drop k (ring l) ++ take k (ring l)) as Hring by (apply ring_later; (done || lia)).
    assert (window l' = drop k (window l)) as Hwin.
    { unfold window at 1. rewrite Hlen, Hring, ring_split. rewrite drop_app_le by lia. rewrite <- app_assoc.
      apply take_app_length'. rewrite length_drop. lia. }
    assert (outside l' = outside l ++ take k (window l)) as Hout'.
    { unfold outside at 1. rewrite Hlen, Hring, ring_split. rewrite (drop_app_le (window l) (outside l) k), (take_app_le (window l) (outside l) k), <- app_assoc by lia.
      apply drop_app_length'. rewrite length_drop. lia. }
    assert (∃ p f, drop k (window l) = p :: f) as (p & f & Hf).
    { destruct (drop k (window l)) as [|p f] eqn:E; [|by do 2 eexists]. apply (f_equal length) in E.
      rewrite length_drop in E. cbn in E. lia. }
    rewrite Hf. split; [|split_and!; [done|done|by rewrite Hwin|]].
    2: { unfold l'. cbn [ol_known]. by rewrite ring_split, (take_app_le (window l) (outside l) k) by lia. }
    constructor; cbn [l' ol_start ol_peers ol_end ol_threshold ol_known]; try (rewrite ?Hlen; lia).
    + apply Nat.mod_upper_bound. lia.
    + rewrite Hlen, Nat.Div0.add_mod_idemp_l, H3. f_equal. lia.
    + rewrite Hwin. by apply StronglySorted_drop.
    + rewrite Hwin. apply Forall_drop. eapply Forall_impl; [exact H5|]. cbn. lia.
    + rewrite Hout'. apply Forall_app. split; [done|apply stale_prefix_stale].
    + rewrite Hwin. rewrite ring_split, take_app_le by lia. intros a [Ha Hna]%elem_of_difference. apply H7 in Ha.
      unfold apns in *. rewrite <- (take_drop k (window l)), map_app in Ha. set_solver.
  - rewrite (drop_ge (window l)) by lia. rewrite (take_ge (ring l)) by lia.
    assert ((ol_start l + length (ol_peers l)) mod length (ol_peers l) = ol_start l)%nat as ->.
    { rewrite mod_twice by lia. case_decide; lia. }
    split; [|done]. constructor; try done.
    + eapply Forall_impl; [exact H5|]. cbn. lia.
    + cbn [ol_known]. change (window (mkOnlineList _ _ _ _ _)) with (window l). intros a [Ha Hna]%elem_of_difference.
      apply H7 in Ha. unfold apns in *. rewrite ring_split, map_app in Hna. set_solver.
Qed.

(** ** Adding *)

Lemma ring_insert l p l' :
  (ol_start l < length (ol_peers l))%nat → (ol_length l < length (ol_peers l))%nat →
  ol_end l = ((ol_start l + ol_length l) mod length (ol_peers l))%nat →
  ol_peers l' = <[ ol_end l := p ]> (ol_peers l) → ol_start l' = ol_start l →
  ring l' = <[ ol_length l := p ]> (ring l).
Proof.
  intros H1 H2 H3 Hp Hs. pose proof (length_ring l) as Hr. apply list_eq_same_length with (n := length (ol_peers l)).
  - by rewrite length_insert.
  - by rewrite length_ring, Hp, length_insert.
  - intros i x y Hi Hx Hy.
    rewrite <- ring_lookup in Hx by (rewrite Hp, length_insert; (done || lia)). rewrite Hp, Hs, length_insert in Hx.
    destruct (decide (i = ol_length l)) as [->|Hne].
    + rewrite list_lookup_insert_eq in Hy by lia. rewrite H3, Nat.add_comm, list_lookup_insert_eq in Hx; [congruence|].
      apply Nat.mod_upper_bound. lia.
    + rewrite list_lookup_insert_ne, <- ring_lookup in Hy by (done || lia).
      rewrite list_lookup_insert_ne in Hx; [congruence|]. rewrite H3, !mod_twice by lia. repeat case_decide; lia.
Qed.

Lemma window_push (r : list OnlinePeer) n p :
  (n < length r)%nat → take (S n) (<[ n := p ]> r) = take n r ++ [p] ∧ drop (S n) (<[ n := p ]> r) = drop 1 (drop n r).
Proof.
  intros Hn. split.
  - rewrite (take_S_r _ _ p) by (by apply list_lookup_insert_eq). by rewrite take_insert_ge by lia.
  - rewrite drop_insert_lt, drop_drop by lia. f_equal. lia.
Qed.

Lemma push_ok l rn peer services t :
  online_ok l rn → t <= rn → Forall (λ q, op_last_online q <= t) (window l) → ol_threshold l < rn →
  let p := mkOnlinePeer peer services t in
  let peers := <[ ol_end l := p ]> (ol_peers l) in
  let end_ := ((ol_end l + 1) mod length peers)%nat in
  let known := ol_known l ∪ {[ peer ]} in
  let l' := if bool_decide (end_ = ol_start l) then
      mkOnlineList (grow_peers peers end_) (ol_threshold l) (length peers) 0 known
    else mkOnlineList peers (ol_threshold l) end_ (ol_start l) known in
  online_ok l' rn ∧ window l' = window l ++ [p].
Proof.
  intros [H1 H2 H3 H4 H5 H6 H7] Htr Htimes Hth p peers end_ known l'. set (n := length (ol_peers l)) in *.
  assert (length peers = n) as Hn by (unfold peers; by rewrite length_insert).
  assert (end_ = ((ol_start l + ol_length l + 1) mod n)%nat) as He
    by (unfold end_; by rewrite Hn, H3, Nat.Div0.add_mod_idemp_l).
  set (lp := mkOnlineList peers (ol_threshold l) end_ (ol_start l) known).
  assert (ring lp = <[ ol_length l := p ]> (ring l)) as Hring by (by apply ring_insert).
  destruct (window_push (ring l) (ol_length l) p) as [Hw Ho]; [rewrite length_ring; done|]. fold (window l) in Hw. fold (outside l) in Ho.
  assert (StronglySorted earlier_online (window l ++ [p])) as Hsort.
  { apply StronglySorted_app. split_and!; [|done|by repeat constructor].
    intros q q' Hq ->%list_elem_of_singleton. rewrite Forall_forall in Htimes. by apply Htimes. }
  assert (Forall (λ q, op_last_online q <= rn) (window l ++ [p])) as Hle
    by (apply Forall_app; split; [done|by apply Forall_singleton]).
  assert (known ⊆ apns (window l ++ [p])) as Hknown.
  { unfold known, apns in *. rewrite map_app, list_to_set_app_L. cbn. set_solver. }
  clearbody known. unfold l'. case_bool_decide as Hgrow.
  - assert (S (ol_length l) = n) as Hfull by (rewrite He, mod_twice in Hgrow by lia; case_decide; lia).
    set (lg := mkOnlineList _ _ _ _ _). assert (ring lg = ring lp ++ replicate n OnlinePeer_default) as Hr.
    { unfold ring, lg, lp, grow_peers. cbn [ol_start ol_peers]. rewrite Hgrow, Hn, drop_0, take_0, app_nil_r. by rewrite app_assoc. }
    assert (length (ring lp) = n) as Hlp by (rewrite Hring, length_insert; apply length_ring).
    assert (length (ol_peers lg) = n + n)%nat as Hlg by (rewrite <- length_ring, Hr, length_app, length_replicate; lia).
    assert (ol_length lg = n) as Hlen by (unfold ol_length, lg; cbn [ol_end ol_start]; destruct (Nat.ltb_spec (length peers) 0); lia).
    assert (window lg = window l ++ [p]) as Hwg.
    { unfold window at 1. rewrite Hlen, Hr, take_app_length' by done. rewrite <- Hw, Hfull, <- Hring. by rewrite take_ge by lia. }
    split; [|done]. constructor; try (rewrite ?Hlen, ?Hlg; cbn [lg ol_start ol_end]; lia).
    + rewrite Hlen, Hlg. unfold lg. cbn [ol_start ol_end]. by rewrite Hn, Nat.mod_small by lia.
    + by rewrite Hwg.
    + by rewrite Hwg.
    + unfold outside. rewrite Hlen, Hr, drop_app_length' by done. apply Forall_replicate. cbn. lia.
    + by rewrite Hwg.
  - fold lp. assert (S (ol_length l) < n)%nat as Hroom by (rewrite He, mod_twice in Hgrow by lia; case_decide; lia).
    assert (ol_length lp = S (ol_length l)) as Hlen.
    { unfold ol_length at 1. unfold lp. cbn [ol_end ol_start ol_peers]. rewrite Hn, He. clear -H1 Hroom Hgrow.
      set (m := ol_length l) in *. clearbody m. rewrite mod_twice in * by lia.
      destruct (Nat.ltb_spec (if decide (ol_start l + m + 1 < n)%nat then ol_start l + m + 1 else ol_start l + m + 1 - n)%nat (ol_start l));
        repeat case_decide; lia. }
    assert (window lp = window l ++ [p]) as Hwp by (unfold window at 1; by rewrite Hlen, Hring).
    split; [|done]. constructor; try (unfold lp; cbn [ol_start ol_peers ol_end]; rewrite ?Hlen, ?Hn; lia).
    + rewrite Hlen. unfold lp. cbn [ol_start ol_peers]. by rewrite Hn.
    + rewrite Hlen. unfold lp. cbn [ol_start ol_peers ol_end]. rewrite Hn, He. f_equal. lia.
    + by rewrite Hwp.
    + by rewrite Hwp.
    + unfold outside. rewrite Hlen, Hring, Ho. by apply Forall_drop.
    + by rewrite Hwp.
Qed.

Lemma OnlineList_new_ok threshold rn : threshold < rn → online_ok (OnlineList_new threshold) rn ∧ window (OnlineList_new threshold) = [].
Proof.
  intros Ht. split; [|done]. constructor.
  - vm_compute. lia.
  - vm_compute. lia.
  - reflexivity.
  - constructor.
  - constructor.
  - change (outside (OnlineList_new threshold)) with (replicate 32 OnlinePeer_default). apply Forall_replicate. cbn. lia.
  - done.
Qed.

(** * Properties *)

(** C27. A peer that is online: peers whose time is past are dropped from the front of the list (but not
    if all of them are: then none is, though all are forgotten), and the peer is
    added at its end, unless it is remembered. The ring stays well formed, whether it wraps round
    or has to grow. *)
Theorem peer_online_queue l rn0 rn peer services t :
  online_ok l rn0 → rn0 <= t <= rn → ol_threshold l < rn →
  ∃ l', peer_online l rn peer services t = Ok l' ∧ online_ok l' rn ∧
    let known := ol_known l ∖ apns (forgotten (rn - ol_threshold l) l) in
    ol_known l' = known ∪ {[ peer ]} ∧
    window l' = trimmed (rn - ol_threshold l) (window l) ++
      (if decide (peer ∈ known) then [] else [mkOnlinePeer peer services t]).
Proof.
  intros Hok Ht Hth. destruct (trim_ok l rn0 rn Hok ltac:(lia)) as (l1 & Htrim & Hok1 & Hp1 & Hth1 & Hw1 & Hk1).
  assert (Forall (λ q, op_last_online q <= t) (window l1)) as Htimes.
  { rewrite Hw1. unfold trimmed. assert (Forall (λ q, op_last_online q <= t) (window l)) as Hw
      by (eapply Forall_impl; [exact (oo_times _ _ Hok)|]; intros q Hq; cbn in Hq; lia).
    destruct (drop _ _) as [|q f] eqn:Hd; [done|]. rewrite <- Hd. by apply Forall_drop. }
  unfold peer_online. rewrite Htrim. cbn [mbind outcome_bind]. rewrite <- Hw1, <- Hk1. case_bool_decide as Hin.
  - exists l1. split; [done|]. split; [done|]. cbv zeta. rewrite decide_True, app_nil_r by done. split; [set_solver|done].
  - destruct (push_ok l1 rn peer services t Hok1) as [Hok2 Hw2]; [lia|done|by rewrite Hth1|].
    destruct (lookup_lt_is_Some_2 (ol_peers l1) (ol_end l1)) as [q Hq].
    { destruct Hok1 as [H1 _ H3 _ _ _ _]. rewrite H3. apply Nat.mod_upper_bound. lia. }
    rewrite Hq. cbn [expect mbind outcome_bind]. rewrite decide_False by done. cbv zeta in Hok2, Hw2 |- *.
    case_bool_decide; (eexists; split; [done|]; by split_and!).
Qed.

(** Which peers [random] gives, without a requirement: as long as the list starts at the first slot,
    peers of the list; but as soon as it starts after as many slots as it has peers (and does not wrap
    round), only peers that are not in it any more, or none that ever was. *)
Theorem random_online l rn index :
  online_ok l rn → (index < ol_length l)%nat →
  ∃ p, random l index None = Ok (Some (op_apn p)) ∧
    (ol_start l = 0%nat → p ∈ window l) ∧
    ((ol_length l ≤ ol_start l ≤ ol_end l)%nat → op_last_online p < rn - ol_threshold l).
Proof.
  intros [H1 H2 H3 H4 H5 H6 H7] Hi. destruct (lookup_lt_is_Some_2 (ol_peers l) index) as [p Hp]; [lia|].
  exists p. split_and!.
  - unfold random. rewrite (proj2 (Nat.eqb_neq _ _)) by lia. by rewrite Hp.
  - intros Hs. unfold window, ring. rewrite Hs, drop_0, take_0, app_nil_r. apply list_elem_of_lookup. exists index.
    by rewrite lookup_take_lt.
  - intros [Hle Hend]. rewrite Forall_forall in H6. apply H6.
    assert (ring l !! (index + (length (ol_peers l) - ol_start l))%nat = Some p) as Hr.
    { rewrite <- ring_lookup by lia. rewrite <- Hp. f_equal. rewrite mod_twice by lia. case_decide; lia. }
    unfold outside. apply list_elem_of_lookup. exists (index + (length (ol_peers l) - ol_start l) - ol_length l)%nat.
    rewrite H3, mod_twice in Hend by lia. rewrite lookup_drop, <- Hr. f_equal. case_decide; lia.
Qed.

(** * Example *)

Definition toy_apn (n : Z) : AddressPortNetwork := mkAddressPortNetwork IPv4 8333 (to_le 4 n).

(** Two peers, of which the first is past its time. *)
Definition toy_online : OnlineList :=
  mkOnlineList (mkOnlinePeer (toy_apn 1) 9 1000 :: mkOnlinePeer (toy_apn 2) 9 1150 :: replicate 30 OnlinePeer_default)
    180 2 0 {[ toy_apn 1; toy_apn 2 ]}.

Lemma toy_online_ok : online_ok toy_online 1160.
Proof.
  constructor; try (vm_compute; lia).
  - repeat constructor; vm_compute; discriminate.
  - repeat constructor; vm_compute; discriminate.
  - change (outside toy_online) with (replicate 30 OnlinePeer_default). apply Forall_replicate. vm_compute. reflexivity.
  - unfold apns, toy_online. cbn. set_solver.
Qed.

Lemma peer_online_queue_witness : ∃ l',
  peer_online toy_online 1200 (toy_apn 3) 1 1190 = Ok l' ∧
  map op_apn (window l') = [toy_apn 2; toy_apn 3].
Proof.
  destruct (peer_online_queue toy_online 1160 1200 (toy_apn 3) 1 1190 toy_online_ok) as (l' & Hl & _ & _ & Hw).
  - lia.
  - vm_compute. reflexivity.
  - exists l'. split; [exact Hl|]. rewrite Hw, decide_False; [vm_compute; reflexivity|].
    apply (bool_decide_eq_false _). vm_compute. reflexivity.
Defined.

(** After a trim the list starts at the second slot and has one peer; the one of the first slot is given. *)
Lemma random_online_witness :
  let l := mkOnlineList (ol_peers toy_online) 180 2 1 {[ toy_apn 2 ]} in
  ∃ p, random l 0 None = Ok (Some (op_apn p)) ∧ op_last_online p < 1200 - 180.
Proof.
  intros l. destruct (trim_ok toy_online 1160 1200 toy_online_ok ltac:(lia)) as (l1 & Ht & Hok & _ & _ & _).
  assert (ol_start l1 = 1%nat ∧ ol_end l1 = 2%nat ∧ ol_peers l1 = ol_peers toy_online ∧ ol_threshold l1 = 180) as (Hs & He & Hp & Hth).
  { unfold trim in Ht. destruct (trim_loop _ _ _ _ _) as [[st kn]| | |] eqn:Hl; cbn [mbind outcome_bind] in Ht; try done.
    injection Ht as <-. cbn [ol_start ol_end ol_peers ol_threshold]. split_and!; try done.
    apply (f_equal (λ x, match x with Ok y => y.1 | _ => 0%nat end)) in Hl. cbn [fst] in Hl. rewrite <- Hl. vm_compute. reflexivity. }
  destruct (random_online l1 1200 0 Hok) as (p & Hr & _ & Hold).
  - unfold ol_length. rewrite Hs, He. cbn. lia.
  - exists p. split.
    + rewrite <- Hr. unfold random, ol_length. rewrite Hs, He, Hp. reflexivity.
    + rewrite Hth in Hold. apply Hold. unfold ol_length. rewrite Hs, He. cbn. lia.
Defined.
