(* ===== verification/Peers.v ===== *)
(** [src/addrman/mod.rs] and [src/crawler/peertracker.rs]: the peers that are known, those that wait to
    be crawled, and those that there is a connection to. *)
From S2P Require Import Prelude.
From S2P Require Import Messages.
From S2P Require Import OnlineList.

(** * Data *)

Definition BAN_PEER_DURATION : Z := 3600 * 24 * 14.

(** The three statics *)
Record AddrMan := mkAddrMan {
  PEERS_TO_CHECK : list AddressPortNetwork;
  KNOWN_PEERS : gset AddressPortNetwork;
  ONLINE_PEERS : OnlineList;
}.

(** What SQLite is asked to do, in the order of the queues *)
Inductive PeerRequest :=
| InsertPeer (apn : AddressPortNetwork) (first_seen : Z)
| DeletePeer (apn : AddressPortNetwork)
| BanPeer (apn : AddressPortNetwork) (banned_at banned_until : Z) (reasons : list bytes)
| UpdatePeerFromVersion (apn : AddressPortNetwork) (services block_height : Z) (user_agent : bytes)
| UpdatePeerFirstOnline (apn : AddressPortNetwork) (ts : Z).

(** * The address manager *)

Definition add_known (known : gset AddressPortNetwork) (apns : list AddressPortNetwork) : gset AddressPortNetwork :=
  foldl (λ w apn, w ∪ {[ apn ]}) known apns.

(** [start], with what [get_all_peers] gives *)
Definition addrman_start (m : AddrMan) (all_peers : list AddressPortNetwork) : AddrMan :=
  mkAddrMan all_peers (add_known (KNOWN_PEERS m) all_peers) (ONLINE_PEERS m).

Definition get_peers_to_check (m : AddrMan) : list AddressPortNetwork * AddrMan :=
  (PEERS_TO_CHECK m, mkAddrMan [] (KNOWN_PEERS m) (ONLINE_PEERS m)).

(** The loop of [peers_seen]: the known peers, and those to be passed to SQLite *)
Definition see_peer (s : gset AddressPortNetwork * list AddressPortNetwork) (apn : AddressPortNetwork) :
    gset AddressPortNetwork * list AddressPortNetwork :=
  if bool_decide (apn ∈ s.1) then s else (s.1 ∪ {[ apn ]}, s.2 ++ [apn]).

Definition peers_seen (m : AddrMan) (apns : list AddressPortNetwork) (time : Z) : AddrMan * list PeerRequest :=
  let '(w, should_pass_to_sqlite) := foldl see_peer (KNOWN_PEERS m, []) apns in
  if bool_decide (should_pass_to_sqlite = []) then (mkAddrMan (PEERS_TO_CHECK m) w (ONLINE_PEERS m), [])
  else (mkAddrMan (PEERS_TO_CHECK m ++ should_pass_to_sqlite) w (ONLINE_PEERS m),
        map (λ apn, InsertPeer apn time) should_pass_to_sqlite).

(** The times are the clock, in seconds. *)
Definition delete_and_ban_peer (rn : Z) (apn : AddressPortNetwork) (reasons : list bytes) : list PeerRequest :=
  [DeletePeer apn; BanPeer apn rn (rn + BAN_PEER_DURATION) reasons].

(** [rn] is read before the list is locked, [rn'] when it is trimmed. *)
Definition update_peer_online (m : AddrMan) (rn rn' : Z) (apn : AddressPortNetwork) (services : Z) : outcome AddrMan :=
  w ← peer_online (ONLINE_PEERS m) rn' apn services rn;
  Ok (mkAddrMan (PEERS_TO_CHECK m) (KNOWN_PEERS m) w).

(** The two requests are made concurrently. *)
Definition on_peer_version_received (rn : Z) (apn : AddressPortNetwork) (services block_height : Z) (user_agent : bytes) :
    list PeerRequest :=
  [UpdatePeerFromVersion apn services block_height user_agent; UpdatePeerFirstOnline apn rn].

Definition get_alive_peer (m : AddrMan) (index : nat) (services : option Z) : outcome (option AddressPortNetwork) :=
  random (ONLINE_PEERS m) index services.

(** * Connected peers *)

Definition TrackedConnection_new (connected : gset AddressPortNetwork) (apn : AddressPortNetwork) :
    outcome (gset AddressPortNetwork) :=
  if bool_decide (apn ∈ connected) then Panic "assertion failed: w.insert(apn.clone())"
  else Ok (connected ∪ {[ apn ]}).

Definition TrackedConnection_drop (connected : gset AddressPortNetwork) (apn : AddressPortNetwork) :
    outcome (gset AddressPortNetwork) :=
  if bool_decide (apn ∈ connected) then Ok (connected ∖ {[ apn ]})
  else Panic "assertion failed: w.remove(&self.apn)".

Definition is_connected_now (connected : gset AddressPortNetwork) (apn : AddressPortNetwork) : bool :=
  bool_decide (apn ∈ connected).

(** * The crawl

    A peer that waits is handed to a task of its own, which connects to it and loses the
    connection again, any number of times, until it gives the peer up. *)

Record Crawl := mkCrawl {
  cr_addrman : AddrMan;
  cr_tasks : list (AddressPortNetwork * bool);
  cr_connected : gset AddressPortNetwork;
}.

Inductive crawl_step : Crawl → Crawl → Prop :=
| step_seen m ts c apns time : crawl_step (mkCrawl m ts c) (mkCrawl (peers_seen m apns time).1 ts c)
| step_spawn m ts c :
    crawl_step (mkCrawl m ts c)
      (mkCrawl (get_peers_to_check m).2 (ts ++ map (λ p, (p, false)) (get_peers_to_check m).1) c)
| step_connected m l1 p l2 c c' :
    TrackedConnection_new c p = Ok c' →
    crawl_step (mkCrawl m (l1 ++ (p, false) :: l2) c) (mkCrawl m (l1 ++ (p, true) :: l2) c')
| step_disconnected m l1 p l2 c c' :
    TrackedConnection_drop c p = Ok c' →
    crawl_step (mkCrawl m (l1 ++ (p, true) :: l2) c) (mkCrawl m (l1 ++ (p, false) :: l2) c')
| step_given_up m l1 p l2 c : crawl_step (mkCrawl m (l1 ++ (p, false) :: l2) c) (mkCrawl m (l1 ++ l2) c).

(** * What holds of them *)

Lemma add_known_spec apns : ∀ known, add_known known apns = known ∪ list_to_set apns.
Proof.
  induction apns as [|a apns IH]; intros known; cbn; [set_solver|]. unfold add_known in *. rewrite IH. set_solver.
Qed.

(** The new ones among the peers that were seen, each once, in order *)
Definition new_peers (known : gset AddressPortNetwork) (apns : list AddressPortNetwork) : list AddressPortNetwork :=
  (foldl see_peer (known, []) apns).2.

Lemma see_peers_spec apns : ∀ known acc,
  NoDup acc → (∀ a, a ∈ acc → a ∈ known) →
  let '(known', acc') := foldl see_peer (known, acc) apns in
  known' = known ∪ list_to_set apns ∧ NoDup acc' ∧ (∀ a, a ∈ acc' ↔ a ∈ acc ∨ a ∈ apns ∧ a ∉ known).
Proof.
  induction apns as [|a apns IH]; intros known acc Hn Hk; cbn [foldl].
  { split_and!; [set_solver|done|]. intros x. rewrite elem_of_nil. tauto. }
  unfold see_peer at 2. cbn [fst snd]. case_bool_decide as Ha.
  - specialize (IH known acc Hn Hk). destruct (foldl see_peer (known, acc) apns) as [known' acc'].
    destruct IH as (-> & Hn' & Hin). split_and!; [set_solver|done|]. intros x. rewrite Hin, elem_of_cons.
    destruct (decide (x = a)) as [->|]; tauto.
  - specialize (IH (known ∪ {[ a ]}) (acc ++ [a])). destruct (foldl see_peer (known ∪ {[ a ]}, acc ++ [a]) apns) as [known' acc'].
    destruct IH as (-> & Hn' & Hin).
    + apply NoDup_app. split_and!; [done| |apply NoDup_singleton]. intros x Hx ->%list_elem_of_singleton. by apply Ha, Hk.
    + intros x [Hx|Hx%list_elem_of_singleton]%elem_of_app; set_solver.
    + split_and!; [set_solver|done|]. intros x. rewrite Hin, elem_of_app, list_elem_of_singleton, elem_of_cons.
      rewrite not_elem_of_union, not_elem_of_singleton. destruct (decide (x = a)) as [->|]; tauto.
Qed.

Lemma peers_seen_spec m apns time :
  ∃ added, peers_seen m apns time
    = (mkAddrMan (PEERS_TO_CHECK m ++ added) (KNOWN_PEERS m ∪ list_to_set apns) (ONLINE_PEERS m),
       map (λ apn, InsertPeer apn time) added) ∧
    NoDup added ∧ ∀ a, a ∈ added ↔ a ∈ apns ∧ a ∉ KNOWN_PEERS m.
Proof.
  unfold peers_seen. pose proof (see_peers_spec apns (KNOWN_PEERS m) [] ltac:(constructor) ltac:(set_solver)) as Hs.
  destruct (foldl see_peer (KNOWN_PEERS m, []) apns) as [w added]. destruct Hs as (-> & Hn & Hin). exists added. split_and!.
  - case_bool_decide as He; [|done]. subst added. by rewrite app_nil_r.
  - done.
  - intros a. rewrite Hin. rewrite elem_of_nil. tauto.
Qed.

Record crawl_ok (s : Crawl) : Prop := {
  ck_once : NoDup ((cr_tasks s).*1 ++ PEERS_TO_CHECK (cr_addrman s));
  ck_known p : p ∈ (cr_tasks s).*1 ++ PEERS_TO_CHECK (cr_addrman s) → p ∈ KNOWN_PEERS (cr_addrman s);
  ck_connected p : p ∈ cr_connected s ↔ (p, true) ∈ cr_tasks s;
}.

(** A task that is in the list twice is the same task. *)
Lemma task_unique (l1 l2 : list (AddressPortNetwork * bool)) p b b' :
  NoDup ((l1 ++ (p, b) :: l2).*1) → (p, b') ∈ l1 ++ (p, b) :: l2 → b' = b ∧ (p, b') ∉ l1 ++ l2.
Proof.
  rewrite fmap_app, fmap_cons. intros Hn Hin. apply NoDup_app in Hn as (_ & Hd & Hn). apply NoDup_cons in Hn as [Hp Hn].
  assert (∀ x, (p, x) ∉ l1 ++ l2) as Hnot.
  { intros x [Hx|Hx]%elem_of_app; apply (list_elem_of_fmap_2 fst) in Hx; cbn in Hx; [|done]. apply (Hd p Hx). by left. }
  split; [|apply Hnot]. apply elem_of_app in Hin as [Hin|Hin]; [by destruct (Hnot b'); apply elem_of_app; left|].
  apply elem_of_cons in Hin as [[= ->]|Hin]; [done|]. destruct (Hnot b'). apply elem_of_app. by right.
Qed.

Lemma connect_Ok s l1 p l2 :
  crawl_ok s → cr_tasks s = l1 ++ (p, false) :: l2 → TrackedConnection_new (cr_connected s) p = Ok (cr_connected s ∪ {[ p ]}).
Proof.
  intros [Hn _ Hc] Ht. unfold TrackedConnection_new. rewrite bool_decide_false; [done|]. rewrite Hc, Ht. intros Hin.
  apply NoDup_app in Hn as (Hn & _ & _). rewrite Ht in Hn. by destruct (task_unique _ _ _ _ _ Hn Hin).
Qed.

Lemma disconnect_Ok s l1 p l2 :
  crawl_ok s → cr_tasks s = l1 ++ (p, true) :: l2 → TrackedConnection_drop (cr_connected s) p = Ok (cr_connected s ∖ {[ p ]}).
Proof.
  intros [_ _ Hc] Ht. unfold TrackedConnection_drop. rewrite bool_decide_true; [done|]. rewrite Hc, Ht.
  apply elem_of_app. right. by left.
Qed.

Lemma crawl_step_ok s s' : crawl_step s s' → crawl_ok s → crawl_ok s'.
Proof.
  intros Hstep Hok. pose proof Hok as [Hn Hk Hc].
  destruct Hstep as [m ts c apns time|m ts c|m l1 p l2 c c' Hnew|m l1 p l2 c c' Hdrop|m l1 p l2 c]; cbn [cr_tasks cr_addrman cr_connected] in *.
  - destruct (peers_seen_spec m apns time) as (added & -> & Hna & Hin).
    constructor; cbn [fst cr_tasks cr_addrman cr_connected PEERS_TO_CHECK KNOWN_PEERS].
    + rewrite app_assoc. apply NoDup_app. split_and!; [done| |done]. intros x Hx%Hk Hadd%Hin. tauto.
    + intros p. rewrite app_assoc, elem_of_app, Hin. specialize (Hk p). set_solver.
    + done.
  - constructor; cbn [snd fst get_peers_to_check cr_tasks cr_addrman cr_connected PEERS_TO_CHECK KNOWN_PEERS].
    + rewrite app_nil_r, fmap_app. change (?f <$> map ?g ?l) with (map f (map g l)). by rewrite map_map, map_id.
    + intros p. rewrite app_nil_r, fmap_app. change (?f <$> map ?g ?l) with (map f (map g l)). rewrite map_map, map_id. apply Hk.
    + intros p. rewrite Hc, elem_of_app. split; [tauto|]. intros [?|Hin]; [done|]. apply list_elem_of_fmap in Hin as (q & [=] & _).
  - pose proof (connect_Ok _ l1 p l2 Hok eq_refl) as Hp. cbn [cr_connected] in Hp. rewrite Hp in Hnew. injection Hnew as <-. clear Hp.
    rewrite fmap_app, fmap_cons in Hn, Hk. constructor; cbn [cr_tasks cr_addrman cr_connected]; try (rewrite fmap_app, fmap_cons; done).
    intros q. rewrite elem_of_union, Hc, elem_of_singleton, !elem_of_app, !elem_of_cons.
    split; [intros [[?|[[=]|?]]| ->]; tauto|]. intros [?|[[= ->]|?]]; tauto.
  - pose proof (disconnect_Ok _ l1 p l2 Hok eq_refl) as Hp. cbn [cr_connected] in Hp. rewrite Hp in Hdrop. injection Hdrop as <-. clear Hp. pose proof Hn as Hn0.
    rewrite fmap_app, fmap_cons in Hn, Hk. constructor; cbn [cr_tasks cr_addrman cr_connected]; try (rewrite fmap_app, fmap_cons; done).
    intros q. rewrite elem_of_difference, Hc, not_elem_of_singleton. apply NoDup_app in Hn0 as (Hn0 & _ & _). split.
    + intros [Hin Hne]. rewrite elem_of_app, elem_of_cons in *. destruct Hin as [?|[[= ->]|?]]; [tauto|done|tauto].
    + intros Hin. assert ((q, true) ∈ l1 ++ l2) as Hin' by (rewrite elem_of_app, elem_of_cons in *; destruct Hin as [?|[[=]|?]]; tauto).
      split; [rewrite elem_of_app, elem_of_cons in *; tauto|]. intros ->.
      assert ((p, true) ∈ l1 ++ (p, true) :: l2) as Hp by (rewrite elem_of_app, elem_of_cons; tauto).
      by destruct (task_unique l1 l2 p true true Hn0 Hp).
  - pose proof Hn as Hn0. apply NoDup_app in Hn0 as (Hn0 & _ & _). rewrite fmap_app, fmap_cons in Hn, Hk.
    constructor; cbn [cr_tasks cr_addrman cr_connected].
    + rewrite fmap_app. rewrite <- !app_assoc in *. apply NoDup_app in Hn as (H1 & H2 & H3). apply NoDup_cons in H3 as [_ H3].
      apply NoDup_app. split_and!; [done| |done]. intros x Hx Hin. apply (H2 x Hx). by right.
    + intros q Hq. apply Hk. rewrite fmap_app in Hq. rewrite !elem_of_app, elem_of_cons in *. tauto.
    + intros q. rewrite Hc, !elem_of_app, elem_of_cons. split; [|tauto]. intros [?|[[=]|?]]; tauto.
Qed.

Lemma crawl_start_ok m all_peers :
  NoDup all_peers → crawl_ok (mkCrawl (addrman_start m all_peers) [] ∅).
Proof.
  intros Hn. constructor; cbn; [done| |].
  - intros p Hp. rewrite add_known_spec. set_solver.
  - intros p. set_solver.
Qed.

(** * Properties *)

(** C25. From the peers of the table on, each of which is there once: whatever peers are seen, and whenever tasks connect,
    lose their connection or give up, no peer is crawled by two tasks or waits twice, and every peer that is crawled or waits is known. So
    the assertions about the connected peers never fail. *)
Theorem crawled_once m all_peers s :
  NoDup all_peers → rtc crawl_step (mkCrawl (addrman_start m all_peers) [] ∅) s →
  NoDup ((cr_tasks s).*1 ++ PEERS_TO_CHECK (cr_addrman s)) ∧
  (∀ p, p ∈ (cr_tasks s).*1 ++ PEERS_TO_CHECK (cr_addrman s) → p ∈ KNOWN_PEERS (cr_addrman s)) ∧
  (∀ l1 p l2, cr_tasks s = l1 ++ (p, false) :: l2 → is_ok (TrackedConnection_new (cr_connected s) p) = true) ∧
  (∀ l1 p l2, cr_tasks s = l1 ++ (p, true) :: l2 → is_ok (TrackedConnection_drop (cr_connected s) p) = true) ∧
  (∀ p, is_connected_now (cr_connected s) p = true ↔ (p, true) ∈ cr_tasks s).
Proof.
  intros Hn Hst. assert (crawl_ok s) as Hok.
  { pose proof (crawl_start_ok m all_peers Hn) as H0. induction Hst as [|x y z Hs _ IH]; [done|]. by apply IH, (crawl_step_ok x). }
  split_and!.
  - by destruct Hok.
  - by destruct Hok.
  - intros l1 p l2 Ht. by rewrite (connect_Ok s l1 p l2).
  - intros l1 p l2 Ht. by rewrite (disconnect_Ok s l1 p l2).
  - intros p. unfold is_connected_now. rewrite bool_decide_eq_true. by destruct Hok.
Qed.

(** * Example *)

Lemma crawled_once_witness :
  let m := mkAddrMan [] ∅ (OnlineList_new 180) in
  ∃ s, rtc crawl_step (mkCrawl (addrman_start m [toy_apn 1]) [] ∅) s ∧ (toy_apn 1, true) ∈ cr_tasks s ∧
    NoDup ((cr_tasks s).*1 ++ PEERS_TO_CHECK (cr_addrman s)).
Proof.
  intros m. set (m1 := addrman_start m [toy_apn 1]). set (m2 := (get_peers_to_check m1).2).
  set (s := mkCrawl (peers_seen m2 [toy_apn 1; toy_apn 2] 5).1 [(toy_apn 1, true)] {[ toy_apn 1 ]}).
  assert (rtc crawl_step (mkCrawl m1 [] ∅) s) as Hst.
  { eapply rtc_l; [apply (step_spawn m1 [] ∅)|]. cbn [app map get_peers_to_check fst snd m1 addrman_start PEERS_TO_CHECK].
    eapply rtc_l; [apply (step_connected _ [] (toy_apn 1) [] ∅ {[ toy_apn 1 ]})|].
    - unfold TrackedConnection_new. rewrite bool_decide_false by set_solver. by rewrite union_empty_l_L.
    - eapply rtc_l; [apply (step_seen _ _ _ [toy_apn 1; toy_apn 2] 5)|]. apply rtc_refl. }
  exists s. split; [exact Hst|]. split; [by left|].
  destruct (crawled_once m [toy_apn 1] s) as (Hn & _); [apply NoDup_singleton|exact Hst|exact Hn].
Defined.
