(* ===== verification/Text.v ===== *)
(** [src/types/addressportnetwork.rs] and [src/api/peer.rs]: the text of IP addresses and of the addresses of
    peers, written and read as [std::net] does. *)
From stdpp Require Import sorting.
From S2P Require Import Prelude.
From S2P Require Import Messages.
From S2P Require Import OnlineList.

(** * Numbers

    [Display] and [LowerHex] of the unsigned integers, and the reader of [std::net::parser]. A parser gives what it
    has read and the rest of the text; one that fails leaves the text as it was, as [read_atomically] does. *)

Definition COLON : byte := Byte.x3a.
Definition DOT : byte := Byte.x2e.

Definition digit_char (d : Z) : byte := byte.of_Z (if d <? 10 then 48 + d else 87 + d).

(** The digits of a number that has at most [size] of them *)
Fixpoint digits (size : nat) (radix n : Z) : list Z :=
  match size with
  | O => []
  | S size => if n <? radix then [n] else digits size radix (n / radix) ++ [n mod radix]
  end.

Definition number_text (size : nat) (radix n : Z) : bytes := map digit_char (digits size radix n).

(** [char::to_digit] *)
Definition to_digit (radix : Z) (ch : byte) : option Z :=
  let c := u8 ch in
  let d := if (48 <=? c) && (c <=? 57) then c - 48
           else if (97 <=? c) && (c <=? 122) then c - 87
           else if (65 <=? c) && (c <=? 90) then c - 55 else radix in
  if d <? radix then Some d else None.

Fixpoint take_digits (radix : Z) (s : bytes) : list Z * bytes :=
  match s with
  | ch :: rest =>
      match to_digit radix ch with
      | Some d => let '(ds, rest) := take_digits radix rest in (d :: ds, rest)
      | None => ([], s)
      end
  | [] => ([], [])
  end.

Definition value_of (radix : Z) (ds : list Z) : Z := foldl (λ result d, result * radix + d) 0 ds.

(** [read_number], for a type of numbers below [bound]. Too many digits are an error, as is a number that does not
    fit: with a limit on the digits it is converted in the end, without one each step is checked. *)
Definition read_number (radix : Z) (max_digits : option nat) (allow_zero_prefix : bool) (bound : Z) (s : bytes) :
    option (Z * bytes) :=
  let has_leading_zero := bool_decide (head s = Some (digit_char 0)) in
  let '(ds, rest) := take_digits radix s in
  let result := value_of radix ds in
  if match max_digits with Some max => (max <? length ds)%nat | None => false end then None
  else if (length ds =? 0)%nat then None
  else if negb allow_zero_prefix && has_leading_zero && (1 <? length ds)%nat then None
  else if bound <=? result then None
  else Some (result, rest).

Definition read_given_char (ch : byte) (s : bytes) : option bytes :=
  match s with
  | c :: rest => if bool_decide (c = ch) then Some rest else None
  | [] => None
  end.

(** [read_separator]: the separator comes before every item but the first. *)
Definition read_separator {A} (sep : byte) (index : nat) (inner : bytes → option (A * bytes)) (s : bytes) :
    option (A * bytes) :=
  if (0 <? index)%nat then rest ← read_given_char sep s; inner rest else inner s.

(** [parse_with]: all of the text must be read. *)
Definition parse_with {A} (inner : bytes → option (A * bytes)) (s : bytes) : option A :=
  match inner s with
  | Some (a, []) => Some a
  | _ => None
  end.

(** ** What is written is read *)

Lemma to_digit_char radix d : 2 <= radix <= 16 → 0 <= d < radix → to_digit radix (digit_char d) = Some d.
Proof.
  intros Hr Hd. unfold to_digit. assert (u8 (digit_char d) = if d <? 10 then 48 + d else 87 + d) as ->.
  { unfold digit_char. rewrite byte.unsigned_of_Z. unfold byte.wrap. apply Z.mod_small. destruct (d <? 10) eqn:?; lia. }
  assert ((d <? radix) = true) as Hlt by (apply Z.ltb_lt; lia).
  destruct (Z.ltb_spec d 10).
  - rewrite (proj2 (Z.leb_le 48 _)), (proj2 (Z.leb_le _ 57)) by lia. cbn [andb].
    replace (48 + d - 48) with d by lia. by rewrite Hlt.
  - rewrite (proj2 (Z.leb_le 48 _)), (proj2 (Z.leb_gt _ 57)), (proj2 (Z.leb_le 97 _)), (proj2 (Z.leb_le _ 122)) by lia.
    cbn [andb]. replace (87 + d - 87) with d by lia. by rewrite Hlt.
Qed.

(** The text does not go on with a digit. *)
Definition ends_number (radix : Z) (rest : bytes) : Prop :=
  match rest with ch :: _ => to_digit radix ch = None | [] => True end.

Lemma take_digits_app radix ds rest :
  2 <= radix <= 16 → Forall (λ d, 0 <= d < radix) ds → ends_number radix rest →
  take_digits radix (map digit_char ds ++ rest) = (ds, rest).
Proof.
  intros Hr Hds He. induction Hds as [|d ds Hd _ IH]; cbn [map app take_digits].
  - destruct rest as [|ch rest]; [done|]. cbn in *. by rewrite He.
  - by rewrite to_digit_char, IH by done.
Qed.

Lemma digits_spec size radix : 2 <= radix → ∀ n, 0 <= n < radix ^ Z.of_nat size → (0 < size)%nat →
  let ds := digits size radix n in
  Forall (λ d, 0 <= d < radix) ds ∧ value_of radix ds = n ∧ (1 ≤ length ds ≤ size)%nat ∧
  (head ds = Some 0 → length ds = 1%nat).
Proof.
  intros Hr. induction size as [|size IH]; intros n Hn Hs; [lia|]. cbn [digits].
  destruct (Z.ltb_spec n radix).
  { cbn. split_and!; [apply Forall_singleton; lia|lia|lia|lia|done]. }
  rewrite Nat2Z.inj_succ, Z.pow_succ_r in Hn by lia. pose proof (Z.div_mod n radix ltac:(lia)) as Hdm.
  pose proof (Z.mod_pos_bound n radix ltac:(lia)) as Hm. pose proof (Z.div_le_lower_bound n radix 1 ltac:(lia) ltac:(lia)).
  destruct (decide (size = 0%nat)) as [->|]; [cbn in Hn; lia|].
  destruct (IH (n / radix)) as (Hf & Hv & Hl & Hz); [split; [lia|apply Z.div_lt_upper_bound; lia]|lia|].
  split_and!.
  - apply Forall_app. split; [done|]. by apply Forall_singleton.
  - unfold value_of in *. rewrite foldl_app, Hv. cbn. lia.
  - rewrite length_app. cbn. lia.
  - rewrite length_app. cbn. lia.
  - intros Hh. exfalso. destruct (digits size radix (n / radix)) as [|d ds]; [cbn in Hl; lia|]. cbn in Hh, Hz, Hl.
    injection Hh as ->. specialize (Hz eq_refl). destruct ds; [|cbn in Hz; lia]. cbn in Hv. lia.
Qed.

Lemma digit_zero d : 0 <= d < 16 → bool_decide (digit_char d = digit_char 0) = (d =? 0).
Proof.
  intros Hd. case_bool_decide as Hc.
  - apply (f_equal (to_digit 16)) in Hc. rewrite !to_digit_char in Hc by lia. injection Hc as ->. done.
  - symmetry. apply Z.eqb_neq. by intros ->.
Qed.

Lemma read_number_text size radix max_digits allow_zero_prefix bound n rest :
  2 <= radix <= 16 → (0 < size)%nat → 0 <= n < radix ^ Z.of_nat size → n < bound →
  match max_digits with Some max => (size ≤ max)%nat | None => True end → ends_number radix rest →
  read_number radix max_digits allow_zero_prefix bound (number_text size radix n ++ rest) = Some (n, rest).
Proof.
  intros Hr Hs Hn Hb Hmax He. destruct (digits_spec size radix ltac:(lia) n Hn Hs) as (Hd & Hv & Hl & Hz).
  unfold read_number, number_text. rewrite take_digits_app, Hv by done.
  replace (match max_digits with Some max => _ | None => false end) with false.
  2: { destruct max_digits as [max|]; [|done]. symmetry. apply Nat.ltb_ge. lia. }
  rewrite (proj2 (Nat.eqb_neq _ 0)) by lia.
  replace (negb allow_zero_prefix && _ && _) with false; [by rewrite (proj2 (Z.leb_gt _ _)) by lia|].
  destruct (digits size radix n) as [|d ds] eqn:Hds; [by cbn in Hl; lia|]. cbn [map app head].
  apply Forall_cons in Hd as [Hd _]. rewrite (bool_decide_ext _ (digit_char d = digit_char 0)) by (split; congruence).
  rewrite digit_zero by lia. destruct (Z.eqb_spec d 0) as [->|]; [|by rewrite andb_false_r].
  by rewrite (Hz eq_refl), andb_false_r.
Qed.

Lemma digits_chars size radix n ch :
  2 <= radix <= 16 → 0 <= n < radix ^ Z.of_nat size → (0 < size)%nat → ch ∈ number_text size radix n → is_Some (to_digit radix ch).
Proof.
  intros Hr Hn Hs (d & -> & Hin)%list_elem_of_fmap. destruct (digits_spec size radix ltac:(lia) n Hn Hs) as (Hd & _).
  rewrite Forall_forall in Hd. rewrite to_digit_char; [by eexists|done|by apply Hd].
Qed.

(** * IPv4 *)

(** [Ipv4Addr]: the four octets, from 0 to 255 *)
Definition octets_ok (o : Z * Z * Z * Z) : Prop := let '(a, b, c, d) := o in in_u8 a ∧ in_u8 b ∧ in_u8 c ∧ in_u8 d.

Definition octet_text (n : Z) : bytes := number_text 3 10 n.

Definition ipv4_text (o : Z * Z * Z * Z) : bytes :=
  let '(a, b, c, d) := o in octet_text a ++ DOT :: octet_text b ++ DOT :: octet_text c ++ DOT :: octet_text d.

Definition read_octet (index : nat) (s : bytes) : option (Z * bytes) :=
  read_separator DOT index (read_number 10 (Some 3%nat) false 256) s.

Definition read_ipv4_addr (s : bytes) : option ((Z * Z * Z * Z) * bytes) :=
  '(a, s) ← read_octet 0 s; '(b, s) ← read_octet 1 s; '(c, s) ← read_octet 2 s; '(d, s) ← read_octet 3 s;
  Some ((a, b, c, d), s).

(** [str::parse::<Ipv4Addr>] does not look at a text that is too long. *)
Definition parse_ipv4 (s : bytes) : option (Z * Z * Z * Z) :=
  if 15 <? len s then None else parse_with read_ipv4_addr s.

Lemma read_octet_first n rest : in_u8 n → ends_number 10 rest → read_octet 0 (octet_text n ++ rest) = Some (n, rest).
Proof.
  intros Hn He. apply read_number_text; [lia|lia| |unfold in_u8 in Hn; lia|done|done].
  unfold in_u8 in Hn. change (10 ^ Z.of_nat 3) with 1000. lia.
Qed.

Lemma read_octet_next index n rest :
  in_u8 n → ends_number 10 rest → read_octet (S index) (DOT :: octet_text n ++ rest) = Some (n, rest).
Proof. intros Hn He. exact (read_octet_first n rest Hn He). Qed.

Lemma read_ipv4_text o rest : octets_ok o → ends_number 10 rest → read_ipv4_addr (ipv4_text o ++ rest) = Some (o, rest).
Proof.
  destruct o as [[[a b] c] d]. intros (Ha & Hb & Hc & Hd) He. unfold read_ipv4_addr, ipv4_text.
  do 3 (rewrite <- app_assoc; cbn [app]). rewrite read_octet_first by done. cbn [mbind option_bind].
  by do 3 (rewrite read_octet_next by done; cbn [mbind option_bind]).
Qed.

Lemma len_octet_text n : in_u8 n → len (octet_text n) <= 3.
Proof.
  intros Hn. unfold octet_text, number_text. rewrite len_map. unfold len.
  destruct (digits_spec 3 10 ltac:(lia) n) as (_ & _ & Hl & _); [change (10 ^ Z.of_nat 3) with 1000; unfold in_u8 in Hn; lia|lia|lia].
Qed.

Lemma parse_ipv4_text o : octets_ok o → parse_ipv4 (ipv4_text o) = Some o.
Proof.
  intros Ho. unfold parse_ipv4, parse_with. rewrite <- (app_nil_r (ipv4_text o)) at 2. rewrite read_ipv4_text by done.
  rewrite (proj2 (Z.ltb_ge _ _)); [done|]. destruct o as [[[a b] c] d]. destruct Ho as (Ha & Hb & Hc & Hd). cbn [ipv4_text].
  repeat (rewrite len_app || rewrite len_cons). pose proof (len_octet_text _ Ha). pose proof (len_octet_text _ Hb).
  pose proof (len_octet_text _ Hc). pose proof (len_octet_text _ Hd). lia.
Qed.

(** What is read as an IPv4 address begins with digits and a dot. *)
Lemma take_digits_prefix radix s ds rest :
  take_digits radix s = (ds, rest) → ∃ pre, s = pre ++ rest ∧ length pre = length ds ∧ Forall (λ ch, is_Some (to_digit radix ch)) pre.
Proof.
  revert ds rest. induction s as [|ch s IH]; intros ds rest; cbn [take_digits].
  { intros [= <- <-]. by exists []. }
  destruct (to_digit radix ch) as [d|] eqn:Hd; [|intros [= <- <-]; by exists []].
  destruct (take_digits radix s) as [ds' rest'] eqn:Ht. intros [= <- <-]. destruct (IH _ _ eq_refl) as (pre & -> & Hl & Hp).
  exists (ch :: pre). split_and!; [done|cbn; lia|]. constructor; [by eexists|done].
Qed.

Lemma read_number_prefix radix max_digits allow_zero_prefix bound s n rest :
  read_number radix max_digits allow_zero_prefix bound s = Some (n, rest) →
  ∃ pre, s = pre ++ rest ∧ pre ≠ [] ∧ Forall (λ ch, is_Some (to_digit radix ch)) pre.
Proof.
  unfold read_number. destruct (take_digits radix s) as [ds rest'] eqn:Ht.
  destruct (match max_digits with Some max => _ | None => false end); [done|]. destruct (Nat.eqb_spec (length ds) 0); [done|].
  destruct (_ && _ && _); [done|]. destruct (Z.leb_spec bound (value_of radix ds)); [done|]. intros [= <- <-].
  destruct (take_digits_prefix _ _ _ _ Ht) as (pre & -> & Hl & Hp). exists pre. split_and!; [done| |done].
  intros ->. by cbn in Hl.
Qed.

(** * IPv6 *)

(** [Ipv6Addr]: the eight segments of sixteen bits *)
Definition segments_ok (segments : list Z) : Prop := length segments = 8%nat ∧ Forall in_u16 segments.

Definition segment_text (n : Z) : bytes := number_text 4 16 n.

(** The segments with a colon before each, but not before the first of all *)
Fixpoint groups_text (index : nat) (segments : list Z) : bytes :=
  match segments with
  | [] => []
  | first :: tail => (if (0 <? index)%nat then [COLON] else []) ++ segment_text first ++ groups_text (S index) tail
  end.

Definition fmt_subslice (chunk : list Z) : bytes := groups_text 0 chunk.

(** The longest span of zeros so far, and the current one, each with its start and its length *)
Definition span_step (s : (nat * nat) * (nat * nat)) (item : nat * Z) : (nat * nat) * (nat * nat) :=
  let '(longest, current) := s in
  let '(i, segment) := item in
  if segment =? 0 then
    let current := (if (current.2 =? 0)%nat then i else current.1, S current.2) in
    (if (longest.2 <? current.2)%nat then current else longest, current)
  else (longest, (0%nat, 0%nat)).

Definition zeroes (segments : list Z) : nat * nat :=
  (foldl span_step ((0%nat, 0%nat), (0%nat, 0%nat)) (zip (seq 0 (length segments)) segments)).1.

Definition to_ipv4_mapped (segments : list Z) : option (Z * Z * Z * Z) :=
  match segments with
  | [0; 0; 0; 0; 0; 65535; ab; cd] => Some (ab / 256, ab mod 256, cd / 256, cd mod 256)
  | _ => None
  end.

Definition ipv6_text (segments : list Z) : bytes :=
  match to_ipv4_mapped segments with
  | Some ipv4 => bstr "::ffff:" ++ ipv4_text ipv4
  | None =>
      let '(start, n) := zeroes segments in
      if (1 <? n)%nat then fmt_subslice (take start segments) ++ [COLON; COLON] ++ fmt_subslice (drop (start + n) segments)
      else fmt_subslice segments
  end.

(** [read_groups], for [slots] more groups: what was read, whether it ends in an IPv4 address, and the rest *)
Fixpoint read_groups (slots index : nat) (s : bytes) : list Z * bool * bytes :=
  match slots with
  | O => ([], false, s)
  | S slots =>
      match (if (0 <? slots)%nat then read_separator COLON index read_ipv4_addr s else None) with
      | Some ((one, two, three, four), s) => ([one * 256 + two; three * 256 + four], true, s)
      | None =>
          match read_separator COLON index (read_number 16 (Some 4%nat) true 65536) s with
          | Some (group, s) => let '(groups, ipv4, s) := read_groups slots (S index) s in (group :: groups, ipv4, s)
          | None => ([], false, s)
          end
      end
  end.

Definition read_ipv6_addr (s : bytes) : option (list Z * bytes) :=
  let '(head, head_ipv4, s) := read_groups 8 0 s in
  let head_size := length head in
  if (head_size =? 8)%nat then Some (head, s)
  else if head_ipv4 : bool then None
  else
    s ← read_given_char COLON s; s ← read_given_char COLON s;
    let '(tail, _, s) := read_groups (8 - (head_size + 1)) 0 s in
    Some (head ++ replicate (8 - head_size - length tail) 0 ++ tail, s).

Definition parse_ipv6 (s : bytes) : option (list Z) := parse_with read_ipv6_addr s.

(** ** The span *)

(** A span of zeros *)
Definition zero_span (segments : list Z) (span : nat * nat) : Prop :=
  (span.1 + span.2 ≤ length segments)%nat ∧ take span.2 (drop span.1 segments) = replicate span.2 0.

Lemma zero_span_app l l' span : zero_span l span → zero_span (l ++ l') span.
Proof.
  intros [Hl Hz]. split; [rewrite length_app; lia|].
  rewrite drop_app_le, take_app_le by (rewrite ?length_drop; lia). done.
Qed.

Lemma span_loop rest : ∀ before longest current,
  zero_span before longest → zero_span before current →
  (current.2 = 0%nat ∨ (current.1 + current.2 = length before)%nat) →
  zero_span (before ++ rest) (foldl span_step (longest, current) (zip (seq (length before) (length rest)) rest)).1.
Proof.
  induction rest as [|x rest IH]; intros before longest current Hl Hc Hcur; cbn [length seq zip foldl].
  { by rewrite app_nil_r. }
  rewrite cons_middle, app_assoc.
  replace (S (length before)) with (length (before ++ [x])) by (rewrite length_app; cbn; lia).
  unfold span_step at 2. destruct (Z.eqb_spec x 0) as [->|].
  - set (current' := (if (current.2 =? 0)%nat then length before else current.1, S current.2)).
    assert (zero_span (before ++ [0]) current' ∧ (current'.1 + current'.2 = length (before ++ [0%Z]))%nat) as [Hc' Hcur'].
    { unfold current'. cbn [fst snd]. rewrite length_app. cbn [length]. destruct (Nat.eqb_spec current.2 0) as [H0|H0].
      - rewrite H0. split; [|lia]. split; cbn [fst snd]; [rewrite length_app; cbn; lia|].
        by rewrite drop_app_length.
      - destruct Hcur as [|Hcur]; [done|]. destruct Hc as [Hle Hz]. split; [|lia]. split; cbn [fst snd]; [rewrite length_app; cbn; lia|].
        rewrite drop_app_le by lia. rewrite take_ge in Hz by (rewrite length_drop; lia). rewrite Hz.
        rewrite take_ge by (rewrite length_app, length_replicate; cbn; lia). by rewrite <- replicate_S_end. }
    apply IH; [|done|by right]. case_match; [done|by apply zero_span_app].
  - apply IH; [by apply zero_span_app| |by left]. split; cbn; [lia|done].
Qed.

Lemma zeroes_span segments : zero_span segments (zeroes segments).
Proof. apply (span_loop segments [] (0%nat, 0%nat) (0%nat, 0%nat)); [split; cbn; (lia || done)..|by left]. Qed.

Lemma split_at_zeroes segments start n :
  zeroes segments = (start, n) →
  segments = take start segments ++ replicate n 0 ++ drop (start + n) segments ∧ (start + n ≤ length segments)%nat.
Proof.
  intros Hz. destruct (zeroes_span segments) as [Hl Hs]. rewrite Hz in Hl, Hs. cbn in Hl, Hs. split; [|done].
  by rewrite <- Hs, <- drop_drop, (take_drop n), take_drop.
Qed.

(** ** What is written is read *)

Lemma ends_decimal s : ends_number 16 s → ends_number 10 s.
Proof.
  destruct s as [|ch s]; [done|]. cbn. unfold to_digit. set (d := if (48 <=? u8 ch) && _ then _ else _). intros Hd.
  set (d' := if (48 <=? u8 ch) && _ then _ else _). assert (d' = d ∨ d' = 10) as [-> | ->].
  { unfold d, d'. repeat case_match; auto. }
  - destruct (Z.ltb_spec d 16); [done|]. by rewrite (proj2 (Z.ltb_ge _ _)) by lia.
  - done.
Qed.

Lemma read_number_none radix max_digits allow_zero_prefix bound s :
  ends_number radix s → read_number radix max_digits allow_zero_prefix bound s = None.
Proof.
  intros He. unfold read_number. replace (take_digits radix s) with ([] : list Z, s).
  - destruct max_digits; done.
  - destruct s as [|ch s]; [done|]. cbn in *. by rewrite He.
Qed.

Lemma read_ipv4_none s : ends_number 16 s → read_ipv4_addr s = None.
Proof. intros He%ends_decimal. unfold read_ipv4_addr, read_octet, read_separator. cbn [Nat.ltb Nat.leb]. by rewrite read_number_none. Qed.

(** The rest of a text after a segment: no digit and no dot comes next. *)
Definition after_segment (rest : bytes) : Prop := ends_number 16 rest ∧ head rest ≠ Some DOT.

Lemma segment_chars n ch : in_u16 n → ch ∈ segment_text n → is_Some (to_digit 16 ch).
Proof.
  intros Hn. apply digits_chars; [lia| |lia]. unfold in_u16 in Hn. change (16 ^ Z.of_nat 4) with (2 ^ 16). lia.
Qed.

Lemma segment_not_ipv4 n rest : in_u16 n → after_segment rest → read_ipv4_addr (segment_text n ++ rest) = None.
Proof.
  intros Hn [He Hdot]. destruct (read_ipv4_addr _) as [[o s]|] eqn:Hr; [exfalso|done]. unfold read_ipv4_addr in Hr.
  destruct (read_octet 0 _) as [[a s1]|] eqn:H0; [|done]. cbn [mbind option_bind] in Hr.
  destruct (read_octet 1 s1) as [[b s2]|] eqn:H1; [|done]. clear Hr.
  apply read_number_prefix in H0 as (pre & Hs & _ & Hpre). unfold read_octet, read_separator in H1. cbn in H1.
  destruct s1 as [|c s1]; [done|]. cbn in H1. case_bool_decide as Hc; [subst c|done].
  apply app_eq_app in Hs as (k & [[Hseg Hrest]|[Hpre' Hrest]]).
  - destruct k as [|c k]; [cbn in Hrest; by subst rest|]. injection Hrest as <- _.
    assert (DOT ∈ segment_text n) as Hin by (rewrite Hseg; set_solver). apply segment_chars in Hin as [d Hd]; [|done].
    by vm_compute in Hd.
  - destruct k as [|c k]; [cbn in Hrest; by subst rest|]. rewrite Hrest in He. cbn in He. rewrite Hpre' in Hpre.
    apply Forall_app in Hpre as [_ [[d Hd] _]%Forall_cons]. assert (ends_number 10 [c]) as Hten by by apply ends_decimal.
    cbn in Hten. congruence.
Qed.

Lemma read_segment index n rest :
  in_u16 n → ends_number 16 rest →
  read_separator COLON index (read_number 16 (Some 4%nat) true 65536)
    ((if (0 <? index)%nat then [COLON] else []) ++ segment_text n ++ rest) = Some (n, rest).
Proof.
  intros Hn He. assert (read_number 16 (Some 4%nat) true 65536 (segment_text n ++ rest) = Some (n, rest)) as Hr.
  { apply read_number_text; [lia|lia| |unfold in_u16 in Hn; lia|done|done].
    unfold in_u16 in Hn. change (16 ^ Z.of_nat 4) with (2 ^ 16). lia. }
  unfold read_separator. destruct (0 <? index)%nat; [|exact Hr]. cbn [app read_given_char]. rewrite bool_decide_true by done. exact Hr.
Qed.

Lemma no_ipv4 index n rest :
  in_u16 n → after_segment rest →
  read_separator COLON index read_ipv4_addr ((if (0 <? index)%nat then [COLON] else []) ++ segment_text n ++ rest) = None.
Proof.
  intros Hn Hrest. pose proof (segment_not_ipv4 n rest Hn Hrest) as Hr. unfold read_separator.
  destruct (0 <? index)%nat; [|exact Hr]. cbn [app read_given_char]. rewrite bool_decide_true by done. exact Hr.
Qed.

(** No group comes next. *)
Definition no_group (index : nat) (rest : bytes) : Prop :=
  match (if (0 <? index)%nat then read_given_char COLON rest else Some rest) with
  | Some s => ends_number 16 s
  | None => True
  end.

Lemma read_groups_S slots index s :
  read_groups (S slots) index s =
    match (if (0 <? slots)%nat then read_separator COLON index read_ipv4_addr s else None) with
    | Some ((one, two, three, four), s) => ([one * 256 + two; three * 256 + four], true, s)
    | None =>
        match read_separator COLON index (read_number 16 (Some 4%nat) true 65536) s with
        | Some (group, s) => let '(groups, ipv4, s) := read_groups slots (S index) s in (group :: groups, ipv4, s)
        | None => ([], false, s)
        end
    end.
Proof. reflexivity. Qed.

Lemma read_no_group slots index rest : no_group index rest → read_groups slots index rest = ([], false, rest).
Proof.
  intros Hno. destruct slots as [|slots]; [done|]. cbn [read_groups]. unfold read_separator. unfold no_group in Hno.
  destruct (0 <? index)%nat.
  - destruct (read_given_char COLON rest) as [s|]; cbn [mbind option_bind].
    + rewrite read_ipv4_none, read_number_none by done. by destruct (0 <? slots)%nat.
    + by destruct (0 <? slots)%nat.
  - rewrite read_ipv4_none, read_number_none by done. by destruct (0 <? slots)%nat.
Qed.

Lemma groups_after index segments rest : after_segment rest → (0 < index)%nat → after_segment (groups_text index segments ++ rest).
Proof. intros Hr Hi. destruct segments as [|x l]; [done|]. destruct index as [|index]; [lia|]. cbn. split; [done|discriminate]. Qed.

Lemma read_groups_text segments : ∀ slots index rest,
  Forall in_u16 segments → (length segments ≤ slots)%nat → after_segment rest →
  ((length segments < slots)%nat → no_group (index + length segments) rest) →
  read_groups slots index (groups_text index segments ++ rest) = (segments, false, rest).
Proof.
  induction segments as [|n segments IH]; intros slots index rest Hseg Hlen Hrest Hno; cbn [groups_text length] in *.
  { destruct slots as [|slots]; [done|]. apply read_no_group. rewrite Nat.add_0_r in Hno. apply Hno. lia. }
  apply Forall_cons in Hseg as [Hn Hseg]. destruct slots as [|slots]; [lia|]. cbn [read_groups].
  rewrite <- !app_assoc. pose proof (groups_after (S index) segments rest Hrest ltac:(lia)) as Hafter.
  rewrite no_ipv4, read_segment by (done || apply Hafter).
  rewrite IH; [by destruct (0 <? slots)%nat|done|lia|done|].
  intros Hs. replace (S index + length segments)%nat with (index + S (length segments))%nat by lia. apply Hno. lia.
Qed.

Lemma to_ipv4_mapped_Some segments o :
  to_ipv4_mapped segments = Some o → Forall in_u16 segments →
  ∃ ab cd, segments = [0; 0; 0; 0; 0; 65535; ab; cd] ∧ o = (ab / 256, ab mod 256, cd / 256, cd mod 256) ∧ octets_ok o.
Proof.
  unfold to_ipv4_mapped. intros Ho Hs. repeat (case_match; try discriminate). injection Ho as <-. subst. do 2 eexists.
  split; [done|]. split; [done|]. rewrite !Forall_cons in Hs. destruct Hs as (_ & _ & _ & _ & _ & _ & Hab & Hcd & _).
  unfold in_u16 in *. split_and!; unfold in_u8; try (split; [apply Z.div_pos; lia|apply Z.div_lt_upper_bound; lia]).
  all: change (2 ^ 8) with 256; apply Z.mod_pos_bound; lia.
Qed.

Lemma after_is_no_group index rest : ends_number 16 rest → head rest ≠ Some COLON → no_group index rest.
Proof.
  intros He Hc. unfold no_group. destruct (0 <? index)%nat; [|done]. destruct rest as [|ch rest]; [done|]. cbn in *.
  rewrite bool_decide_false; [done|]. congruence.
Qed.

(** What comes after the text of an address: nothing that might belong to it. *)
Definition after_address (rest : bytes) : Prop := after_segment rest ∧ head rest ≠ Some COLON.

Lemma read_mapped ipv4 ab cd rest :
  octets_ok ipv4 → ipv4 = (ab / 256, ab mod 256, cd / 256, cd mod 256) → after_address rest →
  read_ipv6_addr (bstr "::ffff:" ++ ipv4_text ipv4 ++ rest) = Some ([0; 0; 0; 0; 0; 65535; ab; cd], rest).
Proof.
  intros Ho Hipv4 [[He _] _]. unfold read_ipv6_addr.
  change (bstr "::ffff:") with ([COLON; COLON] ++ segment_text 65535 ++ [COLON]). rewrite <- !app_assoc.
  rewrite read_no_group by done. cbn [length Nat.eqb app read_given_char mbind option_bind]. rewrite !bool_decide_true by done.
  cbn [mbind option_bind read_given_char]. rewrite bool_decide_true by done. cbn [mbind option_bind].
  change (8 - (0 + 1))%nat with 7%nat. set (tail := ipv4_text ipv4 ++ rest).
  assert (in_u16 65535) as H16 by (unfold in_u16; lia).
  assert (after_segment (COLON :: tail)) as Hafter by (split; [done|discriminate]).
  pose proof (no_ipv4 0 65535 (COLON :: tail) H16 Hafter) as Hno. pose proof (read_segment 0 65535 (COLON :: tail) H16 ltac:(apply Hafter)) as Hseg.
  assert (read_separator COLON 1 read_ipv4_addr (COLON :: tail) = Some (ipv4, rest)) as Hfour
    by (exact (read_ipv4_text ipv4 rest Ho (ends_decimal rest He))).
  cbn [Nat.ltb Nat.leb app] in Hno, Hseg. rewrite (read_groups_S 6 0). cbn [Nat.ltb Nat.leb]. rewrite Hno, Hseg.
  rewrite (read_groups_S 5 1). cbn [Nat.ltb Nat.leb]. rewrite Hfour, Hipv4. cbn [length Nat.sub replicate app].
  do 2 f_equal. rewrite Z.mul_comm, <- (Z.div_mod ab 256) by lia. rewrite Z.mul_comm, <- (Z.div_mod cd 256) by lia. done.
Qed.

Lemma take_drop_ok segments n m : Forall in_u16 segments → Forall in_u16 (take n segments) ∧ Forall in_u16 (drop m segments).
Proof. intros H. split; [by apply Forall_take|by apply Forall_drop]. Qed.

Lemma read_ipv6_text segments rest :
  segments_ok segments → after_address rest → read_ipv6_addr (ipv6_text segments ++ rest) = Some (segments, rest).
Proof.
  intros [Hl Hs] [Hrest Hcolon]. unfold ipv6_text. destruct (to_ipv4_mapped segments) as [ipv4|] eqn:Hm.
  { destruct (to_ipv4_mapped_Some _ _ Hm Hs) as (ab & cd & -> & Hipv4 & Ho). rewrite <- app_assoc. by apply read_mapped. }
  destruct (zeroes segments) as [start n] eqn:Hz. destruct (split_at_zeroes _ _ _ Hz) as [Hsplit Hle].
  destruct (Nat.ltb_spec 1 n) as [Hn|_].
  - destruct (take_drop_ok segments start (start + n) Hs) as [Htake Hdrop].
    set (front := take start segments) in *. set (back := drop (start + n) segments) in *.
    assert (length front = start ∧ length back = (8 - (start + n))%nat) as [Hlf Hlb]
      by (unfold front, back; rewrite length_take, length_drop; lia).
    unfold read_ipv6_addr, fmt_subslice. rewrite <- !app_assoc. cbn [app].
    rewrite read_groups_text; [|done|lia|by split|].
    2: { intros _. unfold no_group. destruct (0 <? _)%nat; done. }
    rewrite (proj2 (Nat.eqb_neq (length front) 8)) by lia. cbn [read_given_char]. rewrite !bool_decide_true by done.
    cbn [mbind option_bind read_given_char]. rewrite bool_decide_true by done. cbn [mbind option_bind].
    rewrite read_groups_text; [|done|lia|done|by intros _; apply after_is_no_group; [apply Hrest|]].
    do 2 f_equal. rewrite Hsplit. f_equal. f_equal. f_equal. lia.
  - unfold read_ipv6_addr, fmt_subslice. rewrite read_groups_text; [by rewrite Hl|done|lia|done|lia].
Qed.

Lemma parse_ipv6_text segments : segments_ok segments → parse_ipv6 (ipv6_text segments) = Some segments.
Proof.
  intros Hs. unfold parse_ipv6, parse_with. rewrite <- (app_nil_r (ipv6_text segments)). by rewrite read_ipv6_text.
Qed.

(** * The addresses of peers *)

Inductive IpAddr :=
| V4 (octets : Z * Z * Z * Z)
| V6 (segments : list Z).

Definition octets_bytes (o : Z * Z * Z * Z) : bytes :=
  let '(a, b, c, d) := o in [byte.of_Z a; byte.of_Z b; byte.of_Z c; byte.of_Z d].

Definition segments_bytes (segments : list Z) : bytes := concat (map (λ v, [byte.of_Z (v / 256); byte.of_Z (v mod 256)]) segments).

(** [Ipv4Addr::from([u8; 4])] and [Ipv6Addr::from([u8; 16])] *)
Definition bytes_octets (b : bytes) : Z * Z * Z * Z :=
  match b with
  | [a; b; c; d] => (u8 a, u8 b, u8 c, u8 d)
  | _ => (0, 0, 0, 0)
  end.

Fixpoint bytes_segments (b : bytes) : list Z :=
  match b with
  | x :: y :: b => u8 x * 256 + u8 y :: bytes_segments b
  | _ => []
  end.

Definition port_text (port : Z) : bytes := number_text 5 10 port.
Definition length_text (n : Z) : bytes := number_text 20 10 n.

(** [Display for AddressPortNetwork] *)
Definition apn_text (apn : AddressPortNetwork) : bytes :=
  let n := len (ap_address apn) in
  match ap_network_id apn with
  | IPv4 =>
      if n =? 4 then ipv4_text (bytes_octets (ap_address apn)) ++ [COLON] ++ port_text (ap_port apn)
      else bstr "invalid ipv4 length: " ++ length_text n
  | IPv6 =>
      if n =? 16 then ipv6_text (bytes_segments (ap_address apn)) ++ [COLON] ++ port_text (ap_port apn)
      else bstr "invalid ipv6 length: " ++ length_text n
  | other => bstr "unsupported network: " ++ bstr (network_id_fmt other)
  end.

(** ** Socket addresses *)

Definition read_port (s : bytes) : option (Z * bytes) :=
  s ← read_given_char COLON s; read_number 10 None true 65536 s.

Definition read_socket_addr_v4 (s : bytes) : option ((IpAddr * Z) * bytes) :=
  '(ip, s) ← read_ipv4_addr s; '(port, s) ← read_port s; Some ((V4 ip, port), s).

Definition read_scope_id (s : bytes) : option (Z * bytes) :=
  s ← read_given_char Byte.x25 s; read_number 10 None true (2 ^ 32) s.

Definition read_socket_addr_v6 (s : bytes) : option ((IpAddr * Z) * bytes) :=
  s ← read_given_char Byte.x5b s;
  '(ip, s) ← read_ipv6_addr s;
  let s := match read_scope_id s with Some (_, s) => s | None => s end in
  s ← read_given_char Byte.x5d s;
  '(port, s) ← read_port s;
  Some ((V6 ip, port), s).

(** [SocketAddr::from_str] *)
Definition parse_socket_addr (s : bytes) : option (IpAddr * Z) :=
  parse_with (λ s, match read_socket_addr_v4 s with Some r => Some r | None => read_socket_addr_v6 s end) s.

(** [FromStr for AddressPortNetwork] *)
Definition apn_from_str (s : bytes) : option AddressPortNetwork :=
  '(ip, port) ← parse_socket_addr s;
  Some match ip with
       | V4 ipv4_addr => mkAddressPortNetwork IPv4 port (octets_bytes ipv4_addr)
       | V6 ipv6_addr => mkAddressPortNetwork IPv6 port (segments_bytes ipv6_addr)
       end.

(** [parse_peer_address] of [api/peer.rs] *)
Definition parse_peer_address (address : bytes) (port : Z) : option AddressPortNetwork :=
  match parse_ipv4 address with
  | Some v => Some (mkAddressPortNetwork IPv4 port (octets_bytes v))
  | None =>
      match parse_ipv6 address with
      | Some v => Some (mkAddressPortNetwork IPv6 port (segments_bytes v))
      | None => None
      end
  end.

(** ** [TcpStream::connect(peer.to_string())] *)

(** [str::rsplit_once] *)
Fixpoint rsplit_once (sep : byte) (s : bytes) : option (bytes * bytes) :=
  match s with
  | [] => None
  | ch :: s =>
      match rsplit_once sep s with
      | Some (before, after) => Some (ch :: before, after)
      | None => if bool_decide (ch = sep) then Some ([], s) else None
      end
  end.

(** [str::parse], for an unsigned integer: digits, perhaps after a plus *)
Definition parse_unsigned (bound : Z) (s : bytes) : option Z :=
  parse_with (read_number 10 None true bound) match read_given_char Byte.x2b s with Some s => s | None => s end.

Definition parse_u16 (s : bytes) : option Z := parse_unsigned (2 ^ 16) s.
Definition parse_usize (s : bytes) : option Z := parse_unsigned (2 ^ 64) s.

Section dial.
(** The lookup of a host by the system *)
Context (lookup_host : bytes → Z → option (list (IpAddr * Z))).

(** [str::to_socket_addrs]: a socket address, or else a host and a port that are looked up *)
Definition to_socket_addrs (s : bytes) : option (list (IpAddr * Z)) :=
  match parse_socket_addr s with
  | Some addr => Some [addr]
  | None =>
      '(host, port) ← rsplit_once COLON s;
      port ← parse_u16 port;
      lookup_host host port
  end.
End dial.

(** * What is shown of a peer leads back to it *)

(** The peers that can be dialled *)
Definition apn_ok (apn : AddressPortNetwork) : Prop :=
  in_u16 (ap_port apn) ∧
  match ap_network_id apn with
  | IPv4 => len (ap_address apn) = 4
  | IPv6 => len (ap_address apn) = 16
  | _ => False
  end.

Definition apn_ip (apn : AddressPortNetwork) : IpAddr :=
  match ap_network_id apn with IPv4 => V4 (bytes_octets (ap_address apn)) | _ => V6 (bytes_segments (ap_address apn)) end.

Definition ip_text (ip : IpAddr) : bytes := match ip with V4 o => ipv4_text o | V6 segments => ipv6_text segments end.

Lemma u8_u16 x y : in_u16 (u8 x * 256 + u8 y).
Proof. pose proof (u8_range x). pose proof (u8_range y). unfold in_u16. lia. Qed.

Lemma bytes_segments_length n : ∀ b, length b = (2 * n)%nat → length (bytes_segments b) = n ∧ Forall in_u16 (bytes_segments b).
Proof.
  induction n as [|n IH]; intros b Hb.
  { destruct b; [|done]. split; [done|constructor]. }
  destruct b as [|x [|y b]]; cbn in Hb; try lia. destruct (IH b ltac:(lia)) as [Hl Hf]. cbn. split; [lia|].
  constructor; [apply u8_u16|done].
Qed.

Lemma byte_of_u8 x : byte.of_Z (u8 x) = x.
Proof. apply byte.of_Z_unsigned. Qed.

Lemma be_u8 x y : (u8 x * 256 + u8 y) / 256 = u8 x ∧ (u8 x * 256 + u8 y) mod 256 = u8 y.
Proof.
  pose proof (u8_range y). split.
  - rewrite Z.div_add_l by lia. rewrite Z.div_small by lia. lia.
  - rewrite Z.add_comm, Z.mod_add by lia. apply Z.mod_small. lia.
Qed.

Lemma segments_bytes_segments n : ∀ b, length b = (2 * n)%nat → segments_bytes (bytes_segments b) = b.
Proof.
  induction n as [|n IH]; intros b Hb; [by destruct b|]. destruct b as [|x [|y b]]; cbn in Hb; try lia.
  unfold segments_bytes. cbn [bytes_segments map concat]. destruct (be_u8 x y) as [-> ->]. rewrite !byte_of_u8. cbn [app]. do 2 f_equal. apply IH. lia.
Qed.

Lemma octets_bytes_octets b : length b = 4%nat → octets_bytes (bytes_octets b) = b ∧ octets_ok (bytes_octets b).
Proof.
  destruct b as [|a [|b [|c [|d [|]]]]]; try done. intros _. cbn. rewrite !byte_of_u8. split; [done|].
  split_and!; apply u8_range.
Qed.

Lemma rsplit_once_None sep s : sep ∉ s → rsplit_once sep s = None.
Proof.
  induction s as [|ch s IH]; intros Hs; [done|]. cbn. apply not_elem_of_cons in Hs as [Hne Hs]. rewrite IH by done.
  by rewrite bool_decide_false.
Qed.

Lemma rsplit_once_app sep before after : sep ∉ after → rsplit_once sep (before ++ sep :: after) = Some (before, after).
Proof.
  intros Ha. induction before as [|ch before IH]; cbn; [by rewrite rsplit_once_None, bool_decide_true|by rewrite IH].
Qed.

Lemma port_fits port : in_u16 port → 0 <= port < 10 ^ Z.of_nat 5 ∧ port < 65536.
Proof. unfold in_u16. change (10 ^ Z.of_nat 5) with 100000. lia. Qed.

Lemma read_port_number port rest :
  in_u16 port → ends_number 10 rest → read_number 10 None true 65536 (port_text port ++ rest) = Some (port, rest).
Proof. intros [Hp Hlt]%port_fits He. apply read_number_text; (done || lia). Qed.

Lemma port_chars port ch : in_u16 port → ch ∈ port_text port → is_Some (to_digit 10 ch).
Proof. intros [Hp _]%port_fits. apply digits_chars; [lia|done|lia]. Qed.

Lemma port_no_colon port : in_u16 port → COLON ∉ port_text port.
Proof. intros Hp Hin. destruct (port_chars port COLON Hp Hin) as [d Hd]. by vm_compute in Hd. Qed.

Lemma parse_u16_text port : in_u16 port → parse_u16 (port_text port) = Some port.
Proof.
  intros Hp. unfold parse_u16, parse_unsigned. change (2 ^ 16) with 65536. replace (read_given_char Byte.x2b (port_text port)) with (None (A := bytes)).
  - unfold parse_with. rewrite <- (app_nil_r (port_text port)). by rewrite read_port_number.
  - destruct (port_text port) as [|ch s] eqn:Hs; [done|]. cbn. rewrite bool_decide_false; [done|]. intros ->.
    destruct (port_chars port Byte.x2b Hp) as [d Hd]; [rewrite Hs; set_solver|]. by vm_compute in Hd.
Qed.

(** How the text of an IPv6 address begins *)
Lemma ipv6_text_head segments rest :
  segments_ok segments → after_segment rest →
  (∃ t, ipv6_text segments ++ rest = COLON :: t) ∨
  (∃ n t, ipv6_text segments ++ rest = segment_text n ++ t ∧ in_u16 n ∧ after_segment t).
Proof.
  intros [Hl Hs] Hrest. unfold ipv6_text. destruct (to_ipv4_mapped segments) as [ipv4|]; [left; by eexists|].
  destruct (zeroes segments) as [start n]. destruct (1 <? n)%nat; unfold fmt_subslice.
  - destruct (take start segments) as [|x l] eqn:Ht; [left; by eexists|right]. exists x. eexists. split; [cbn; by rewrite <- !app_assoc|].
    assert (Forall in_u16 (x :: l)) as Hx by (rewrite <- Ht; by apply Forall_take). split; [by inversion Hx|].
    apply groups_after; [|lia]. split; [done|discriminate].
  - destruct segments as [|x l]; [done|right]. exists x. eexists. split; [cbn; by rewrite <- !app_assoc|]. split; [by inversion Hs|].
    apply groups_after; [done|lia].
Qed.

Lemma ipv6_not_ipv4 segments rest :
  segments_ok segments → after_segment rest → read_ipv4_addr (ipv6_text segments ++ rest) = None.
Proof.
  intros Hs Hrest. destruct (ipv6_text_head segments rest Hs Hrest) as [[t ->]|(n & t & -> & Hn & Ht)].
  - by apply read_ipv4_none.
  - by apply segment_not_ipv4.
Qed.

Lemma ipv6_not_socket segments rest :
  segments_ok segments → after_segment rest → parse_socket_addr (ipv6_text segments ++ rest) = None.
Proof.
  intros Hs Hrest. unfold parse_socket_addr, parse_with, read_socket_addr_v4. rewrite ipv6_not_ipv4 by done. cbn [mbind option_bind].
  unfold read_socket_addr_v6. replace (read_given_char Byte.x5b (ipv6_text segments ++ rest)) with (None (A := bytes)); [done|].
  destruct (ipv6_text_head segments rest Hs Hrest) as [[t ->]|(n & t & -> & Hn & Ht)]; [done|].
  destruct (segment_text n) as [|ch s] eqn:Htext.
  - unfold segment_text, number_text in Htext. apply (f_equal length) in Htext. rewrite length_map in Htext.
    destruct (digits_spec 4 16 ltac:(lia) n) as (_ & _ & Hlen & _); [unfold in_u16 in Hn; change (16 ^ Z.of_nat 4) with (2 ^ 16); lia|lia|].
    cbn [length] in Htext. lia.
  - cbn [app read_given_char]. rewrite bool_decide_false; [done|]. intros ->.
    destruct (segment_chars n Byte.x5b Hn) as [d Hd]; [rewrite Htext; set_solver|]. by vm_compute in Hd.
Qed.

Lemma parse_socket_addr_v4 o port : octets_ok o → in_u16 port → parse_socket_addr (ipv4_text o ++ COLON :: port_text port) = Some (V4 o, port).
Proof.
  intros Ho Hp. unfold parse_socket_addr, parse_with, read_socket_addr_v4. rewrite read_ipv4_text by done. cbn [mbind option_bind].
  unfold read_port. cbn [read_given_char]. rewrite bool_decide_true by done. cbn [mbind option_bind].
  rewrite <- (app_nil_r (port_text port)). by rewrite read_port_number.
Qed.

(** The two parts of the text of a peer *)
Lemma apn_text_parts apn : apn_ok apn → apn_text apn = ip_text (apn_ip apn) ++ COLON :: port_text (ap_port apn).
Proof.
  intros [_ Hlen]. unfold apn_text, apn_ip, ip_text. destruct (ap_network_id apn); try done; by rewrite Hlen.
Qed.

Lemma apn_ip_ok apn : apn_ok apn →
  match apn_ip apn with
  | V4 o => octets_ok o ∧ apn = mkAddressPortNetwork IPv4 (ap_port apn) (octets_bytes o)
  | V6 segments => segments_ok segments ∧ apn = mkAddressPortNetwork IPv6 (ap_port apn) (segments_bytes segments)
  end.
Proof.
  intros [Hp Hlen]. unfold apn_ip. destruct apn as [network port address]. cbn [ap_network_id ap_port ap_address] in *.
  unfold len in Hlen. destruct network; try done.
  - destruct (octets_bytes_octets address ltac:(lia)) as [He Ho]. by rewrite He.
  - destruct (bytes_segments_length 8 address ltac:(lia)) as [Hl Hf]. rewrite (segments_bytes_segments 8) by lia. done.
Qed.

(** * Properties *)

(** C31. The text of a peer means that peer, for every IPv4 and IPv6 address and every port. Cut at its last colon it
    gives the address and the port with which the request for a peer finds it; a connection to the text is one to
    its address and port, where the text of an IPv6 address is not that of a socket address and goes through the
    lookup of hosts, which gives numeric addresses as they are. [FromStr] reads the text of an IPv4 peer, but not that of
    an IPv6 peer, which has no brackets. *)
Theorem peer_text_roundtrip lookup_host apn :
  (∀ segments port, segments_ok segments → lookup_host (ipv6_text segments) port = Some [(V6 segments, port)]) →
  apn_ok apn →
  (∃ address port, rsplit_once COLON (apn_text apn) = Some (address, port) ∧ parse_u16 port = Some (ap_port apn) ∧
    parse_peer_address address (ap_port apn) = Some apn) ∧
  to_socket_addrs lookup_host (apn_text apn) = Some [(apn_ip apn, ap_port apn)] ∧
  apn_from_str (apn_text apn) = (if decide (ap_network_id apn = IPv4) then Some apn else None).
Proof.
  intros Hlookup Hok. rewrite apn_text_parts by done. pose proof (apn_ip_ok apn Hok) as Hip. destruct Hok as [Hp Hnet].
  assert (rsplit_once COLON (ip_text (apn_ip apn) ++ COLON :: port_text (ap_port apn)) = Some (ip_text (apn_ip apn), port_text (ap_port apn))) as Hcut
    by by apply rsplit_once_app, port_no_colon.
  assert (after_segment (COLON :: port_text (ap_port apn))) as Hcolon by (split; [done|discriminate]).
  assert (after_segment []) as Hnil by (split; [done|discriminate]).
  destruct (apn_ip apn) as [o|segments] eqn:He; cbn [ip_text] in *; destruct Hip as [Hok Hapn].
  - split; [|split].
    + do 2 eexists. split; [exact Hcut|]. split; [by apply parse_u16_text|]. unfold parse_peer_address. rewrite parse_ipv4_text by done.
      by rewrite <- Hapn.
    + unfold to_socket_addrs. by rewrite parse_socket_addr_v4.
    + unfold apn_from_str. rewrite parse_socket_addr_v4 by done. cbn [mbind option_bind]. rewrite <- Hapn.
      rewrite decide_True; [done|]. by rewrite Hapn.
  - split; [|split].
    + do 2 eexists. split; [exact Hcut|]. split; [by apply parse_u16_text|]. unfold parse_peer_address.
      replace (parse_ipv4 (ipv6_text segments)) with (None (A := Z * Z * Z * Z)).
      * rewrite parse_ipv6_text by done. by rewrite <- Hapn.
      * unfold parse_ipv4, parse_with. destruct (15 <? _); [done|]. rewrite <- (app_nil_r (ipv6_text segments)). by rewrite ipv6_not_ipv4.
    + unfold to_socket_addrs. rewrite ipv6_not_socket by done. rewrite Hcut. cbn [mbind option_bind]. rewrite parse_u16_text by done.
      cbn [mbind option_bind]. by rewrite Hlookup.
    + unfold apn_from_str. rewrite ipv6_not_socket by done. rewrite decide_False; [done|]. by rewrite Hapn.
Qed.

(** 2001:db8::1, port 8333 *)
Definition toy_peer : AddressPortNetwork :=
  mkAddressPortNetwork IPv6 8333 (map byte.of_Z [0x20; 0x01; 0x0d; 0xb8; 0; 0; 0; 0; 0; 0; 0; 0; 0; 0; 0; 1]).

Example toy_peer_text : apn_text toy_peer = bstr "2001:db8::1:8333".
Proof. vm_compute. reflexivity. Qed.

Example texts :
  ipv6_text [0; 0; 0; 0; 0; 0; 0; 1] = bstr "::1" ∧ ipv6_text [1; 0; 0; 2; 0; 0; 0; 3] = bstr "1:0:0:2::3" ∧
  ipv6_text [0; 0; 0; 0; 0; 65535; 0x0102; 0x0304] = bstr "::ffff:1.2.3.4" ∧ parse_ipv4 (bstr "1.2.3.04") = None ∧
  parse_ipv6 (bstr "1:2:3:4:5:6:1.2.3.4") = Some [1; 2; 3; 4; 5; 6; 0x0102; 0x0304].
Proof. vm_compute. done. Qed.

Lemma peer_text_roundtrip_witness :
  parse_peer_address (bstr "2001:db8::1") 8333 = Some toy_peer ∧
  to_socket_addrs (λ host port, s ← parse_ipv6 host; Some [(V6 s, port)]) (bstr "2001:db8::1:8333") = Some [(apn_ip toy_peer, 8333)].
Proof.
  destruct (peer_text_roundtrip (λ host port, s ← parse_ipv6 host; Some [(V6 s, port)]) toy_peer) as ((a & p & Hcut & _ & Ha) & Hd & _).
  - intros segments port Hs. by rewrite parse_ipv6_text.
  - vm_compute. done.
  - split; [|exact Hd]. assert (Some (a, p) = Some (bstr "2001:db8::1", bstr "8333")) as Hp by (rewrite <- Hcut; vm_compute; reflexivity).
    injection Hp as -> ->. exact Ha.
Defined.
