(* ===== verification/Seeds.v ===== *)
(** [src/main.rs] and [connect_to_good_peer] of [src/addrman/mod.rs]: the first peers, from DNS, and the choice of a
    peer to connect to. *)
From stdpp Require Import sorting.
From S2P Require Import Prelude.
From S2P Require Import Extern.
From S2P Require Import Messages.
From S2P Require Import OnlineList.
From S2P Require Import Peers.
From S2P Require Import Text.

Definition DNS_SEEDS : list bytes :=
  map bstr ["seed.bitcoin.sipa.be"; "dnsseed.bluematt.me"; "dnsseed.bitcoin.dashjr-list-of-p2p-nodes.us";
            "seed.bitcoin.jonasschnelli.ch"; "seed.btc.petertodd.net"; "seed.bitcoin.sprovoost.nl"; "dnsseed.emzy.de";
            "seed.bitcoin.wiz.biz"; "seed.mainnet.achownodes.xyz"]%string.

(** * Resolving a seed *)

(** [IpAddr::to_canonical]: an IPv4 address that is mapped to IPv6 is IPv4 again. *)
Definition to_canonical (ip : IpAddr) : IpAddr :=
  match ip with
  | V4 _ => ip
  | V6 segments => match to_ipv4_mapped segments with Some o => V4 o | None => ip end
  end.

Definition is_ipv4 (ip : IpAddr) : bool := match ip with V4 _ => true | V6 _ => false end.

Definition ip_octets (ip : IpAddr) : bytes := match ip with V4 o => octets_bytes o | V6 segments => segments_bytes segments end.

Definition seed_apn (x : IpAddr * Z) : AddressPortNetwork :=
  mkAddressPortNetwork (if is_ipv4 x.1 then IPv4 else IPv6) 8333 (ip_octets (to_canonical x.1)).

Section seeds.
Context (lookup_host : bytes → Z → option (list (IpAddr * Z))).

(** [(String, u16)::to_socket_addrs]: an address, or else a host that is looked up *)
Definition host_to_socket_addrs (host : bytes) (port : Z) : option (list (IpAddr * Z)) :=
  match parse_ipv4 host with
  | Some o => Some [(V4 o, port)]
  | None =>
      match parse_ipv6 host with
      | Some segments => Some [(V6 segments, port)]
      | None => lookup_host host port
      end
  end.

Definition resolve_dns (peer : bytes) : outcome (list AddressPortNetwork) :=
  match host_to_socket_addrs peer 80 with
  | Some addresses => Ok (map seed_apn addresses)
  | None => Err "failed to lookup address information"
  end.

(** Whether it is resolved before the deadline *)
Definition resolve_dns_with_timeout (peer : bytes) (in_time : bool) : outcome (list AddressPortNetwork) :=
  if in_time then resolve_dns peer else Err "deadline reached".

(** * All seeds *)

(** The derived order: the network, the port, the bytes *)
Definition apn_leb (a b : AddressPortNetwork) : bool :=
  match network_id_to_u8 (ap_network_id a) ?= network_id_to_u8 (ap_network_id b) with
  | Lt => true
  | Gt => false
  | Eq =>
      match ap_port a ?= ap_port b with
      | Lt => true
      | Gt => false
      | Eq => bytes_leb (ap_address a) (ap_address b)
      end
  end.

(** The handles are awaited from the last; a task that failed or panicked is left out. *)
Fixpoint gather_seeds (handles : list (outcome (list AddressPortNetwork))) (resolved_peers : list AddressPortNetwork) :
    list AddressPortNetwork :=
  match handles with
  | [] => resolved_peers
  | Ok addys :: handles => gather_seeds handles (resolved_peers ++ addys)
  | _ :: handles => gather_seeds handles resolved_peers
  end.

Definition resolve_dns_and_add_to_addrman (m : AddrMan) (peers : list bytes) (in_time : list bool) (now : Z) :
    AddrMan * list PeerRequest :=
  let handles := zip_with resolve_dns_with_timeout peers in_time in
  let resolved_peers := dedup (merge_sort (ordered_by apn_leb) (gather_seeds (rev handles) [])) in
  peers_seen m resolved_peers now.
End seeds.

(** * A good peer

    The state of the address manager, the random index and whether the connection succeeds, for one round of the loop
    after the other; [None] as long as no peer was found. *)
Fixpoint connect_to_good_peer (rounds : list (AddrMan * nat * bool)) (services : option Z) : outcome (option AddressPortNetwork) :=
  match rounds with
  | [] => Ok None
  | (m, index, connects) :: rounds =>
      peer ← get_alive_peer m index services;
      match peer with
      | Some peer => if connects : bool then Ok (Some peer) else connect_to_good_peer rounds services
      | None => connect_to_good_peer rounds services
      end
  end.

(** * Lemmas *)

Lemma apn_leb_preorder : total_preorder apn_leb.
Proof.
  unfold apn_leb. split.
  - intros a b. destruct (Z.compare_spec (network_id_to_u8 (ap_network_id a)) (network_id_to_u8 (ap_network_id b))) as [->|H|H].
    + rewrite Z.compare_refl. destruct (Z.compare_spec (ap_port a) (ap_port b)) as [->|H|H].
      * rewrite Z.compare_refl. apply bytes_leb_total.
      * by left.
      * right. by rewrite (proj2 (Z.compare_lt_iff _ _) H).
    + by left.
    + right. by rewrite (proj2 (Z.compare_lt_iff _ _) H).
  - intros a b c. repeat (match goal with |- context [?x ?= ?y] => destruct (Z.compare_spec x y) end); try done; try lia.
    apply bytes_leb_trans.
Qed.

Lemma apn_leb_antisym a b : apn_leb a b = true → apn_leb b a = true → a = b.
Proof.
  unfold apn_leb. intros Hab Hba. destruct a as [n p x], b as [n' p' x']. cbn in *. assert (n = n') as ->.
  { destruct (Z.compare_spec (network_id_to_u8 n) (network_id_to_u8 n')) as [He|H|H]; [|by rewrite (proj2 (Z.compare_gt_iff _ _) H) in Hba|done].
    apply (f_equal network_id_from_u8) in He. rewrite !network_id_from_to in He. by injection He. }
  rewrite Z.compare_refl in Hab, Hba. assert (p = p') as ->.
  { destruct (Z.compare_spec p p') as [He|H|H]; [done|by rewrite (proj2 (Z.compare_gt_iff _ _) H) in Hba|done]. }
  rewrite Z.compare_refl in Hab, Hba. f_equal. by apply bytes_leb_antisym.
Qed.

Lemma gather_seeds_spec handles : ∀ acc a,
  a ∈ gather_seeds handles acc ↔ a ∈ acc ∨ ∃ l, Ok l ∈ handles ∧ a ∈ l.
Proof.
  induction handles as [|h handles IH]; intros acc a; cbn [gather_seeds].
  { split; [by left|]. intros [Ha|(l & Hl & _)]; [done|]. by apply elem_of_nil in Hl. }
  destruct h as [addys|e|msg|]; rewrite IH.
  - rewrite elem_of_app. split.
    + intros [[Ha|Ha]|(l & Hl & Ha)]; [by left|right; exists addys; split; [apply list_elem_of_here|done]|right; exists l; split; [by apply list_elem_of_further|done]].
    + intros [Ha|(l & [[= ->]|Hl]%elem_of_cons & Ha)]; [tauto|tauto|right; by exists l].
  - split; (intros [Ha|(l & Hl & Ha)]; [by left|right; exists l; split; [|done]]); [by apply list_elem_of_further|by apply elem_of_cons in Hl as [|]].
  - split; (intros [Ha|(l & Hl & Ha)]; [by left|right; exists l; split; [|done]]); [by apply list_elem_of_further|by apply elem_of_cons in Hl as [|]].
  - split; (intros [Ha|(l & Hl & Ha)]; [by left|right; exists l; split; [|done]]); [by apply list_elem_of_further|by apply elem_of_cons in Hl as [|]].
Qed.

Definition ip_ok (ip : IpAddr) : Prop := match ip with V4 o => octets_ok o | V6 segments => segments_ok segments end.

(** An IPv4 address in the form of IPv6 *)
Definition is_mapped (ip : IpAddr) : bool :=
  match ip with V4 _ => false | V6 segments => bool_decide (is_Some (to_ipv4_mapped segments)) end.

Lemma segments_bytes_length segments : length (segments_bytes segments) = (2 * length segments)%nat.
Proof. unfold segments_bytes. induction segments as [|x l IH]; [done|]. cbn in *. lia. Qed.

Lemma seed_apn_ok x : ip_ok x.1 → if is_mapped x.1 then apn_ok (seed_apn x) → False else apn_ok (seed_apn x) ∧ ap_port (seed_apn x) = 8333.
Proof.
  destruct x as [[o|segments] port]; cbn [fst is_mapped ip_ok].
  - intros _. destruct o as [[[a b] c] d]. split; [|done]. split; [unfold in_u16; cbn; lia|done].
  - intros [Hl Hs]. unfold seed_apn, apn_ok. cbn [fst is_ipv4 ap_network_id ap_port ap_address to_canonical]. case_bool_decide as Hm.
    + destruct Hm as [[[[a b] c] d] ->]. intros [_ Hlen]. by vm_compute in Hlen.
    + destruct (to_ipv4_mapped segments); [by destruct Hm|]. split; [|done]. split; [unfold in_u16; lia|]. cbn [ip_octets].
      unfold len. rewrite segments_bytes_length. lia.
Qed.

(** * Properties *)

(** The peer at an address that a seed gives: the address is that of IPv4 if it can be, the network is not. *)
Definition peer_at (ip : IpAddr) (a : AddressPortNetwork) : Prop :=
  ap_port a = 8333 ∧
  match ip with
  | V4 o => ap_network_id a = IPv4 ∧ ap_address a = octets_bytes o
  | V6 segments =>
      ap_network_id a = IPv6 ∧
      ap_address a = match to_ipv4_mapped segments with Some o => octets_bytes o | None => segments_bytes segments end
  end.

Lemma seed_apn_at x a : a = seed_apn x ↔ peer_at x.1 a.
Proof.
  destruct x as [[o|segments] port], a as [network p address]; unfold seed_apn, peer_at;
    cbn [fst is_ipv4 to_canonical ap_port ap_network_id ap_address ip_octets]; [|destruct (to_ipv4_mapped segments)];
    cbn [ip_octets]; split; (intros [= -> -> ->]; done) || intros (-> & -> & ->); done.
Qed.

(** C32. What the seeds give to the address manager, however their lookups end: the peers at port 8333 of the addresses that
    the seeds found in time become known and wait to be crawled, each once even if several seeds give it, unless they were known
    before; a row is asked for each of them. A seed that fails or is late takes nothing from the others. All of them have an address
    of their network and can be dialled, but for IPv4 addresses in the form of IPv6, which get the network of the one and the bytes
    of the other. *)
Theorem seeds_added lookup_host m peers in_time now :
  (∀ peer l, peer ∈ peers → host_to_socket_addrs lookup_host peer 80 = Some l → Forall (λ x, ip_ok x.1) l) →
  ∃ added, resolve_dns_and_add_to_addrman lookup_host m peers in_time now
    = (mkAddrMan (PEERS_TO_CHECK m ++ added) (KNOWN_PEERS m ∪ list_to_set added) (ONLINE_PEERS m),
       map (λ apn, InsertPeer apn now) added) ∧
    NoDup added ∧
    (∀ a, a ∈ added ↔ (a ∉ KNOWN_PEERS m) ∧ ∃ i peer l x, peers !! i = Some peer ∧ in_time !! i = Some true ∧
       host_to_socket_addrs lookup_host peer 80 = Some l ∧ x ∈ l ∧ peer_at x.1 a) ∧
    Forall (λ a, apn_ok a ∨ ∃ segments o, to_ipv4_mapped segments = Some o ∧ peer_at (V6 segments) a) added.
Proof.
  intros Hok. unfold resolve_dns_and_add_to_addrman. set (handles := zip_with _ _ _). set (found := gather_seeds (rev handles) []).
  assert (∀ a, a ∈ dedup (merge_sort (ordered_by apn_leb) found) ↔ a ∈ found) as Hsort.
  { destruct apn_leb_preorder as [Htot Htrans]. intros a.
    assert (StronglySorted (ordered_by apn_leb) (merge_sort (ordered_by apn_leb) found)) as Hs
      by (apply StronglySorted_merge_sort; [exact Htrans|exact Htot]).
    rewrite (proj2 (dedup_spec apn_leb _ apn_leb_antisym Hs) a). by rewrite merge_sort_Permutation. }
  assert (∀ a, a ∈ found ↔ ∃ i peer l x, peers !! i = Some peer ∧ in_time !! i = Some true ∧
       host_to_socket_addrs lookup_host peer 80 = Some l ∧ x ∈ l ∧ peer_at x.1 a) as Hfound.
  { intros a. setoid_rewrite <- seed_apn_at. unfold found. rewrite gather_seeds_spec. split.
    - intros [Ha|(l & Hl & Ha)]; [by apply elem_of_nil in Ha|]. rewrite list_elem_of_In, <- in_rev, <- list_elem_of_In in Hl.
      apply list_elem_of_lookup in Hl as [i Hi]. unfold handles in Hi. apply lookup_zip_with_Some in Hi as (peer & b & Hr & Hp & Hb).
      unfold resolve_dns_with_timeout, resolve_dns in Hr. destruct b; [|done].
      destruct (host_to_socket_addrs lookup_host peer 80) as [l'|] eqn:Hh; [|done]. injection Hr as ->.
      apply list_elem_of_fmap in Ha as (x & -> & Hx). by exists i, peer, l', x.
    - intros (i & peer & l & x & Hp & Hb & Hh & Hx & ->). right. exists (map seed_apn l). split; [|by apply list_elem_of_fmap_2].
      rewrite list_elem_of_In, <- in_rev, <- list_elem_of_In. apply list_elem_of_lookup. exists i. unfold handles.
      apply lookup_zip_with_Some. exists peer, true. split; [|done]. unfold resolve_dns_with_timeout, resolve_dns. by rewrite Hh. }
  destruct (peers_seen_spec m (dedup (merge_sort (ordered_by apn_leb) found)) now) as (added & -> & Hn & Hin).
  exists added. split_and!.
  - f_equal. f_equal. apply set_eq. intros a. rewrite !elem_of_union, !elem_of_list_to_set, Hin. destruct (decide (a ∈ KNOWN_PEERS m)); tauto.
  - done.
  - intros a. rewrite Hin, Hsort, Hfound. tauto.
  - apply Forall_forall. intros a [Ha _]%Hin. apply Hsort, Hfound in Ha as (i & peer & l & x & Hp & _ & Hh & Hx & Ha).
    pose proof Ha as ->%seed_apn_at.
    pose proof (Hok peer l ltac:(by eapply list_elem_of_lookup_2) Hh) as Hl. rewrite Forall_forall in Hl. pose proof (seed_apn_ok x (Hl x Hx)) as Hs.
    destruct x as [[o|segments] port]; cbn [fst is_mapped] in Hs; [left; by apply Hs|]. case_bool_decide as Hm; [right|left; by apply Hs].
    destruct Hm as [o Ho]. by exists segments, o.
Qed.

(** Two seeds that give the same address, and one that is late *)
Definition toy_lookup (host : bytes) (port : Z) : option (list (IpAddr * Z)) := Some [(V4 (1, 2, 3, 4), port)].

Definition toy_addrman : AddrMan := mkAddrMan [] ∅ (OnlineList_new 180).

Lemma seeds_added_witness : ∃ added,
  (resolve_dns_and_add_to_addrman toy_lookup toy_addrman (take 3 DNS_SEEDS) [true; true; false] 7).2 = map (λ apn, InsertPeer apn 7) added ∧
  NoDup added ∧ mkAddressPortNetwork IPv4 8333 [Byte.x01; Byte.x02; Byte.x03; Byte.x04] ∈ added.
Proof.
  destruct (seeds_added toy_lookup toy_addrman (take 3 DNS_SEEDS) [true; true; false] 7) as (added & Heq & Hn & Hin & _).
  - intros peer l Hp Hh. assert (l = [(V4 (1, 2, 3, 4), 80)]) as ->.
    { repeat (apply elem_of_cons in Hp as [-> |Hp]; [vm_compute in Hh; by injection Hh as <-|]). by apply elem_of_nil in Hp. }
    apply Forall_singleton. cbn. unfold in_u8. lia.
  - exists added. split; [by rewrite Heq|]. split; [exact Hn|]. apply Hin. split; [apply not_elem_of_empty|].
    exists 0%nat. do 3 eexists. split; [reflexivity|]. split; [reflexivity|]. split; [vm_compute; reflexivity|]. split; [apply list_elem_of_here|]. split; [reflexivity|split; reflexivity].
Defined.
