(* ===== verification/Crawler.v ===== *)
(** [src/connect/mod.rs] and [src/crawler/mod.rs]: the handshake with a peer, the crawl of a peer with
    growing pauses, and the answers to its packets. *)
From S2P Require Import Prelude.
From S2P Require Import Extern.
From S2P Require Import Tx.
From S2P Require Import Header.
From S2P Require Import Messages.
From S2P Require Import Block.
From S2P Require Import Payload.
From S2P Require Import Loops.
From S2P Require Import Chain.
From S2P Require Import Analyze.
From S2P Require Import Store.
From S2P Require Import Queries.
From S2P Require Import FrontPage.
From S2P Require Import OnlineList.

(** * The handshake *)

(** [handle_packet_during_handshaking]: the two variables it changes, and its result *)
Definition handle_packet_during_handshaking (packet : ReceivedPayload) (success : bool) (remote_version : option Version) :
    outcome (option (list PayloadToSend) * bool * option Version) :=
  match packet with
  | RecvVersion v =>
      match remote_version with
      | Some _ => Err "sent the version packet more than once"
      | None => Ok (None, success, Some v)
      end
  | RecvVerAck _ =>
      match remote_version with
      | None => Err "sent verack before version"
      | Some rv =>
          let res := (if 70016 <? v_version rv then [SendSendAddrV2 mkSendAddrV2] else [])
            ++ [SendVerAck mkVerAck]
            ++ (if 70012 <? v_version rv then [SendSendHeaders mkSendHeaders] else []) in
          Ok (Some res, true, remote_version)
      end
  | RecvPing ping => Ok (Some [SendPong (mkPong (ping_nonce ping))], success, remote_version)
  | _ => Ok (None, success, remote_version)
  end.

(** The loop of [handshake] over the packets that come, each with its payload if it has one that
    is known. [None] is a handshake that still waits, until the deadline. *)
Fixpoint handshake_loop (packets : list (option ReceivedPayload)) (remote_version : option Version)
    (sent : list PayloadToSend) : option (outcome (Version * list PayloadToSend)) :=
  match packets with
  | [] => None
  | payload :: packets =>
      match (match payload with
             | Some p => handle_packet_during_handshaking p false remote_version
             | None => Ok (None, false, remote_version)
             end) with
      | Ok (responses, finished, remote_version) =>
          let sent := sent ++ default [] responses in
          if (finished : bool) then Some (rv ← expect remote_version "called `Option::unwrap()` on a `None` value"; Ok (rv, sent))
          else handshake_loop packets remote_version sent
      | Err e => Some (Err e)
      | Panic m => Some (Panic m)
      | Ub => Some Ub
      end
  end.

(** What is sent first; [nonce] is random. *)
Definition our_version (now nonce top_number : Z) : Version :=
  mkVersion 9 now NetAddrShort_default NetAddrShort_default nonce (bstr "semikek") (wrap32 top_number) 70016 false.

Definition handshake (now nonce top_number : Z) (packets : list (option ReceivedPayload)) :
    option (outcome (Version * list PayloadToSend)) :=
  handshake_loop packets None [SendVersion (our_version now nonce top_number)].

(** * The crawl of a peer *)

(** An error, as far as it is told apart: [InvalidChecksum] or another with its text *)
Inductive CrawlError :=
| InvalidChecksum
| OtherError (text : bytes).

Record CrawlResult := mkCrawlResult {
  should_insta_ban : bool;
  connect_handshake_error : option CrawlError;
  packets_received_total : Z;
  connection_time : Z;
}.

Definition CrawlResult_default : CrawlResult := mkCrawlResult false None 0 0.

(** The reasons that [format!] makes text of *)
Inductive FailReason :=
| ConnectFailed (e : CrawlError)
| ChecksumInvalid
| InstaBan (e : CrawlError)
| FewPackets (got : Z)
| ShortConnection (seconds : Z).

(** In seconds *)
Definition backoff_from_failed (failed_times : Z) : Z :=
  if failed_times =? 0 then 0
  else if failed_times <=? 12 then 2 ^ failed_times
  else 3600 * 2.

Definition evaluate_crawl_result (result : CrawlResult) (disconnect_reason : CrawlError) (failed_times : Z) :
    Z * option FailReason :=
  match connect_handshake_error result with
  | Some InvalidChecksum => (wrap32 (failed_times + 14), Some (ConnectFailed InvalidChecksum))
  | Some e => (wrap32 (failed_times + 1), Some (ConnectFailed e))
  | None =>
      match disconnect_reason with
      | InvalidChecksum => (14, Some ChecksumInvalid)
      | _ =>
          if should_insta_ban result then (14, Some (InstaBan disconnect_reason))
          else if packets_received_total result <? 10 then
            (wrap32 (failed_times + 1), Some (FewPackets (packets_received_total result)))
          else if connection_time result <? 10 then (failed_times, Some (ShortConnection (connection_time result)))
          else (0, None)
      end
  end.

(** What happens when the peer is called: the connection or the handshake fails, or the connection
    ends for some reason after a number of packets. The last component is the seconds it took. *)
Inductive attempt :=
| NotConnected (e : CrawlError) (seconds : Z)
| Connected (packets : Z) (reason : CrawlError) (seconds : Z).

Definition attempt_seconds (a : attempt) : Z :=
  match a with NotConnected _ s | Connected _ _ s => s end.

(** [crawl], up to what it leaves in [res] and the error it always ends with *)
Definition crawl (peer : AddressPortNetwork) (res : CrawlResult) (a : attempt) : CrawlResult * CrawlError :=
  let res := mkCrawlResult (should_insta_ban res) (connect_handshake_error res) 0 (connection_time res) in
  match ap_network_id peer with
  | IPv4 | IPv6 =>
      match a with
      | NotConnected e _ =>
          (mkCrawlResult (should_insta_ban res) (Some e) 0 (connection_time res), OtherError (bstr "failed to connect/handshake"))
      | Connected packets reason _ =>
          (mkCrawlResult (should_insta_ban res) (connect_handshake_error res) (wrap32 packets) (connection_time res), reason)
      end
  | _ => (mkCrawlResult true (connect_handshake_error res) 0 (connection_time res), OtherError (bstr "unsupported network type"))
  end.

(** An iteration of [crawl_with_backoff] *)
Definition crawl_once (peer : AddressPortNetwork) (s : Z * list FailReason * CrawlResult) (a : attempt) :
    Z * list FailReason * CrawlResult :=
  let '(failed_times, fail_reasons, crawl_result) := s in
  let '(crawl_result, disconnect_reason) := crawl peer crawl_result a in
  let crawl_result := mkCrawlResult (should_insta_ban crawl_result) (connect_handshake_error crawl_result)
    (packets_received_total crawl_result) (attempt_seconds a) in
  match evaluate_crawl_result crawl_result disconnect_reason failed_times with
  | (failed_times, Some reason) => (failed_times, fail_reasons ++ [reason], crawl_result)
  | (failed_times, None) => (failed_times, [], crawl_result)
  end.

(** The loop: the reasons with which the peer is banned, if the attempts lead there, and the
    pauses before the attempts *)
Fixpoint crawl_loop (peer : AddressPortNetwork) (attempts : list attempt) (s : Z * list FailReason * CrawlResult)
    (pauses : list Z) : option (list FailReason) * list Z :=
  if s.1.1 <? 14 then
    match attempts with
    | [] => (None, pauses)
    | a :: attempts => crawl_loop peer attempts (crawl_once peer s a) (pauses ++ [backoff_from_failed s.1.1])
    end
  else (Some s.1.2, pauses).

Definition crawl_with_backoff (peer : AddressPortNetwork) (attempts : list attempt) : option (list FailReason) * list Z :=
  crawl_loop peer attempts (0, [], CrawlResult_default) [].

(** * Answers *)

Section answers.
Context `{RocksDb, Layout}.

Definition drop_witness_data (t : Tx) : Tx :=
  mkTx (tx_version t) (tx_locktime t) (txins t) (txouts t) None (tx_hash t) (witness_hash t).

(** The transactions are fetched by tasks of their own, and awaited in order. *)
Definition get_block (c : Chain) (d : Databases) (h : hash) (include_witness_data : bool) : outcome Block :=
  match get_header_by_hash c h with
  | None => Err "not found"
  | Some header =>
      txs ← (match get_block_tx_entries d h with
             | Ok v => Ok (map be_hash v)
             | Err _ => Err "txs not found"
             | Panic m => Panic m
             | Ub => Ub
             end);
      txs_result ← for_each (λ l v, tx ← spawn_blocking (get_analyzed_tx d v); Ok (l ++ [tx])) txs [];
      Ok (mkBlock (bn_header header)
            (map (λ v, if include_witness_data then an_tx v else drop_witness_data (an_tx v)) txs_result))
  end.
End answers.

(** The requests for blocks, with whether witnesses are wanted, and what cannot be had *)
Definition extract_block_requests (get_data : GetData) : list (hash * bool) * list InventoryVector :=
  foldl (λ '(requests, not_found) entity,
    match inv_type entity with
    | InvBlock => (requests ++ [(inv_hash entity, false)], not_found)
    | WitnessBlock => (requests ++ [(inv_hash entity, true)], not_found)
    | InvError | InvTx | FilteredBlock | CmpctBlock | WitnessTx | FilteredWitnessBlock =>
        (requests, not_found ++ [entity])
    end) ([], []) (getdata_inner get_data).

(** An address that stands for one of IPv4: ten bytes of zeros and two of ones in front *)
Definition mapped_ipv4 (address : bytes) : option bytes :=
  if bool_decide (take 12 address = replicate 10 Byte.x00 ++ [Byte.xff; Byte.xff]) then Some (drop 12 address) else None.

Definition addr_apn (addy : NetAddr) : AddressPortNetwork :=
  match mapped_ipv4 (na_addr addy) with
  | Some v4 => mkAddressPortNetwork IPv4 (na_port addy) v4
  | None => mkAddressPortNetwork IPv6 (na_port addy) (na_addr addy)
  end.

Definition addrv2_apn (addy : NetAddrV2) : option AddressPortNetwork :=
  match nv_network_id addy, length (nv_address addy) with
  | IPv4, 4%nat => Some (mkAddressPortNetwork IPv4 (nv_port addy) (nv_address addy))
  | IPv6, 16%nat =>
      Some (match mapped_ipv4 (nv_address addy) with
            | Some v4 => mkAddressPortNetwork IPv4 (nv_port addy) v4
            | None => mkAddressPortNetwork IPv6 (nv_port addy) (nv_address addy)
            end)
  | _, _ => None
  end.

Definition addrv2_apns (inner : list NetAddrV2) : list AddressPortNetwork := omap addrv2_apn inner.

(** What a packet sets off elsewhere: in the address manager and in the keepup *)
Inductive Effect :=
| PeersSeen (apns : list AddressPortNetwork) (time : Z)
| HeaderReceived (header : BlockHeader)
| BlockReceived (block : Block).

(** The blocks of an [inv], asked for with their witnesses *)
Definition requested_blocks (inv : list InventoryVector) : list InventoryVector :=
  omap (λ item, match inv_type item with
                | InvBlock => Some (mkInventoryVector WitnessBlock (inv_hash item))
                | _ => None
                end) inv.

(** The requests that are queued, the answer and the effects, in order *)
Abbreviation Handled := (list (hash * bool) * option (list PayloadToSend) * list Effect)%type.

Definition no_answer (block_requests : list (hash * bool)) : outcome Handled := Ok (block_requests, None, []).

Definition answer_getheaders (c : Chain) (get_headers : GetHeaders) (block_requests : list (hash * bool)) : outcome Handled :=
  v ← respond_to_getheaders c (gh_block_locator get_headers) (gh_hash_stop get_headers);
  Ok (block_requests, option_map (λ v, [SendHeadersP (mkHeaders v)]) v, []).

(** [now] is the clock. *)
Definition handle_payload (c : Chain) (syncing_headers syncing_bodies : bool) (now : Z)
    (payload : option ReceivedPayload) (block_requests : list (hash * bool)) :
    outcome Handled :=
  let should_process_headers := negb syncing_headers in
  let should_process_blocks := should_process_headers && negb syncing_bodies in
  match payload with
  | None => no_answer block_requests
  | Some p =>
      match p with
      | RecvPing ping => Ok (block_requests, Some [SendPong (mkPong (ping_nonce ping))], [])
      | RecvAddr addys => Ok (block_requests, None, [PeersSeen (map addr_apn (addr_inner addys)) now])
      | RecvAddrV2 addys => Ok (block_requests, None, [PeersSeen (addrv2_apns (addrv2_inner addys)) now])
      | RecvBlock block =>
          Ok (block_requests, None,
            (if should_process_headers then [HeaderReceived (block_header block)] else [])
            ++ (if should_process_blocks then [BlockReceived block] else []))
      | RecvInv inv =>
          if should_process_headers then
            Ok (block_requests, Some [SendGetData (mkGetData (requested_blocks (inv_inner inv)))], [])
          else no_answer block_requests
      | RecvHeaders headers =>
          if should_process_headers then Ok (block_requests, None, map HeaderReceived (headers_inner headers)) else no_answer block_requests
      | RecvGetHeaders get_headers =>
          if should_process_headers then
            answer_getheaders c get_headers block_requests
          else no_answer block_requests
      | RecvGetData get_data =>
          let '(requests, not_found) := extract_block_requests get_data in
          Ok (block_requests ++ requests,
            (if bool_decide (not_found = []) then None else Some [SendNotFound (mkNotFound not_found)]), [])
      | _ => no_answer block_requests
      end
  end.

(** A turn of the interval of requests: what is left of them, and what is sent *)
Definition answer_block_request `{RocksDb, Layout} (c : Chain) (d : Databases) (block_requests : list (hash * bool)) :
    outcome (list (hash * bool) * option PayloadToSend) :=
  match block_requests with
  | [] => Ok ([], None)
  | (next_block, need_witness_data) :: block_requests =>
      match get_block c d next_block need_witness_data with
      | Ok block => Ok (block_requests, Some (SendBlock block))
      | Err _ =>
          Ok (block_requests, Some (SendNotFound (mkNotFound
            [mkInventoryVector (if need_witness_data then WitnessBlock else InvBlock) next_block])))
      | Panic m => Panic m
      | Ub => Ub
      end
  end.

(** * What holds of the handshake *)

(** Packets that do not matter to the handshake, and the answers they get *)
Definition neutral (p : option ReceivedPayload) : bool :=
  match p with Some (RecvVersion _ | RecvVerAck _) => false | _ => true end.

Definition pongs (packets : list (option ReceivedPayload)) : list PayloadToSend :=
  omap (λ p, match p with Some (RecvPing ping) => Some (SendPong (mkPong (ping_nonce ping))) | _ => None end) packets.

(** The answer to the end of the handshake *)
Definition verack_answer (v : Version) : list PayloadToSend :=
  (if 70016 <? v_version v then [SendSendAddrV2 mkSendAddrV2] else []) ++ [SendVerAck mkVerAck]
  ++ (if 70012 <? v_version v then [SendSendHeaders mkSendHeaders] else []).

Lemma handshake_neutral pre : ∀ packets rv sent,
  forallb neutral pre = true → handshake_loop (pre ++ packets) rv sent = handshake_loop packets rv (sent ++ pongs pre).
Proof.
  induction pre as [|p pre IH]; intros packets rv sent Hn; [by rewrite app_nil_r|].
  cbn [forallb] in Hn. apply andb_true_iff in Hn as [Hp Hn].
  destruct p as [[]|]; try done; cbn; rewrite IH by done; by rewrite ?app_nil_r, <- ?app_assoc.
Qed.

(** The first packet that matters *)
Lemma first_packet packets :
  forallb neutral packets = true ∨ ∃ pre p rest, packets = pre ++ p :: rest ∧ forallb neutral pre = true ∧ neutral p = false.
Proof.
  induction packets as [|p packets IH]; [by left|]. destruct (neutral p) eqn:Hp; [|right; by exists [], p, packets].
  destruct IH as [Hn|(pre & q & rest & -> & Hn & Hq)]; [left; cbn; by rewrite Hp|].
  right. exists (p :: pre), q, rest. split_and!; [done|cbn; by rewrite Hp|done].
Qed.

Lemma handshake_waits packets rv sent : forallb neutral packets = true → handshake_loop packets rv sent = None.
Proof. intros Hn. rewrite <- (app_nil_r packets), handshake_neutral by done. done. Qed.

(** * What holds of the crawl *)

(** Something went wrong with a connection before; nothing clears that. *)
Lemma crawl_once_error peer f reasons res a e :
  connect_handshake_error res = Some e → 0 <= f < 14 →
  ∃ f' reasons' res', crawl_once peer (f, reasons, res) a = (f', reasons', res') ∧ f < f' < 100 ∧
    is_Some (connect_handshake_error res').
Proof.
  intros He Hf. unfold crawl_once, crawl, evaluate_crawl_result. rewrite He.
  destruct (ap_network_id peer), a as [e' s|n r s]; cbn [connect_handshake_error];
    try destruct e; try destruct e'; do 3 eexists; (split; [reflexivity|]); unfold wrap32;
    (split; [|by eexists]); rewrite Z.mod_small by lia; lia.
Qed.

Lemma crawl_error_bans peer attempts : ∀ f reasons res pauses,
  is_Some (connect_handshake_error res) → 0 <= f → 14 - f <= len attempts →
  ∃ reasons' pauses', crawl_loop peer attempts (f, reasons, res) pauses = (Some reasons', pauses').
Proof.
  induction attempts as [|a attempts IH]; intros f reasons res pauses [e He] Hf Hl; cbn [crawl_loop fst snd].
  - change (len []) with 0 in Hl. rewrite (proj2 (Z.ltb_ge _ _)) by lia. by do 2 eexists.
  - destruct (Z.ltb_spec f 14) as [Hlt|Hge]; [|by do 2 eexists]. rewrite len_cons in Hl.
    destruct (crawl_once_error peer f reasons res a e He ltac:(lia)) as (f' & r' & res' & -> & Hf' & He').
    apply IH; [done|lia|lia].
Qed.

(** Without one, the count of failures stays in range. *)
Lemma crawl_once_range peer s a : 0 <= s.1.1 < 14 → 0 <= (crawl_once peer s a).1.1.
Proof.
  destruct s as [[f reasons] res]. cbn [fst]. intros Hf. unfold crawl_once.
  destruct (crawl peer res a) as [res' reason]. unfold evaluate_crawl_result. cbn [connect_handshake_error should_insta_ban packets_received_total connection_time].
  pose proof (Z.mod_pos_bound (f + 14) (2 ^ 32)). pose proof (Z.mod_pos_bound (f + 1) (2 ^ 32)).
  repeat case_match; cbn [fst snd]; unfold wrap32 in *; simplify_eq; lia.
Qed.

Definition supported (peer : AddressPortNetwork) : Prop := ap_network_id peer = IPv4 ∨ ap_network_id peer = IPv6.

(** A connection that was worth it *)
Definition good_attempt (a : attempt) : Prop :=
  match a with
  | Connected packets (OtherError _) seconds => 10 <= packets < 2 ^ 32 ∧ 10 <= seconds
  | _ => False
  end.

Lemma crawl_loop_good peer attempts : ∀ res pauses,
  supported peer → Forall good_attempt attempts → connect_handshake_error res = None → should_insta_ban res = false →
  crawl_loop peer attempts (0, [], res) pauses = (None, pauses ++ replicate (length attempts) 0).
Proof.
  induction attempts as [|a attempts IH]; intros res pauses Hp Ha He Hb; cbn [crawl_loop fst snd Z.ltb length replicate].
  { by rewrite app_nil_r. }
  apply Forall_cons in Ha as [Hga Ha]. destruct a as [|packets [|text] seconds]; [done..|]. destruct Hga as [Hpk Hsec].
  assert (∃ res', crawl_once peer (0, [], res) (Connected packets (OtherError text) seconds) = (0, [], res') ∧
    connect_handshake_error res' = None ∧ should_insta_ban res' = false) as (res' & Hc & He' & Hb').
  { unfold crawl_once, crawl. destruct Hp as [->| ->]; unfold evaluate_crawl_result;
      cbn [connect_handshake_error should_insta_ban packets_received_total connection_time attempt_seconds];
      rewrite He, Hb; unfold wrap32; rewrite Z.mod_small, (proj2 (Z.ltb_ge packets 10)), (proj2 (Z.ltb_ge seconds 10)) by lia;
      by eexists. }
  change (0 <? 14) with true. cbn iota. rewrite Hc, IH by done. by rewrite <- app_assoc.
Qed.

(** * What holds of the answers *)

Definition apn_ok (a : AddressPortNetwork) : Prop :=
  (ap_network_id a = IPv4 ∧ length (ap_address a) = 4%nat) ∨
  (ap_network_id a = IPv6 ∧ length (ap_address a) = 16%nat ∧ mapped_ipv4 (ap_address a) = None).

Lemma mapped_ipv4_length address v4 : length address = 16%nat → mapped_ipv4 address = Some v4 → length v4 = 4%nat.
Proof. unfold mapped_ipv4. case_bool_decide; [|done]. intros Hl [= <-]. rewrite length_drop. lia. Qed.

Lemma addr_apn_ok addy : length (na_addr addy) = 16%nat → apn_ok (addr_apn addy).
Proof.
  intros Hl. unfold addr_apn. destruct (mapped_ipv4 (na_addr addy)) as [v4|] eqn:Hm; [left|right]; cbn.
  - split; [done|]. by eapply mapped_ipv4_length.
  - done.
Qed.

Lemma addrv2_apn_ok addy a : addrv2_apn addy = Some a → apn_ok a.
Proof.
  unfold addrv2_apn. destruct (nv_network_id addy); try (intros; done).
  - destruct (decide (length (nv_address addy) = 4%nat)) as [Hl|Hl]; [rewrite Hl; intros [= <-]; by left|].
    destruct (length (nv_address addy)) as [|[|[|[|[|n]]]]]; done.
  - destruct (decide (length (nv_address addy) = 16%nat)) as [Hl|Hl].
    + rewrite Hl. intros [= <-]. destruct (mapped_ipv4 (nv_address addy)) as [v4|] eqn:Hm; [left|right]; cbn.
      * split; [done|]. by eapply mapped_ipv4_length.
      * done.
    + destruct (length (nv_address addy)) as [|n]; [done|]. do 16 (destruct n as [|n]; [done|]). done.
Qed.

Lemma deserialize_without_txouts_outputs `{Layout} b h t n : deserialize_without_txouts b h = Ok (t, n) → txouts t = [].
Proof.
  unfold deserialize_without_txouts. intros Hd. do 3 (obind Hd). obind Hd. destruct v2 as [ins delta]. obind Hd. obind Hd.
  destruct v3 as [wits off]. obind Hd. by injection Hd as <- <-.
Qed.

Lemma get_analyzed_tx_outputs `{RocksDb, Layout} d h an : get_analyzed_tx d h = Ok an → txouts (an_tx an) = [].
Proof.
  unfold get_analyzed_tx, with_data, spawn_blocking. intros Han.
  destruct (get_pinned (TXS_DB d) h) as [[data|]| | |]; cbn [mbind outcome_bind] in Han; try done.
  destruct (bool_decide (data = [])); [done|].
  destruct (deserialize_analyzed_tx data h) as [an'| | |] eqn:Hd; try done. injection Han as ->. clear -Hd.
  unfold deserialize_analyzed_tx in Hd. do 6 (obind Hd). obind Hd. destruct v5 as [tx consumed]. do 2 (obind Hd).
  destruct v6. injection Hd as <-. cbn [an_tx]. destruct (deserialize_without_txouts v4 h) as [[t n]| | |] eqn:Ht; try done.
  injection Hv5 as -> ->. by eapply deserialize_without_txouts_outputs.
Qed.

Lemma fetched_txs `{RocksDb, Layout} d hs : ∀ acc l,
  for_each (λ l v, tx ← spawn_blocking (get_analyzed_tx d v); Ok (l ++ [tx])) hs acc = Ok l →
  ∃ l', l = acc ++ l' ∧ Forall2 (λ h an, get_analyzed_tx d h = Ok an) hs l'.
Proof.
  induction hs as [|h hs IH]; intros acc l Hl; cbn [for_each] in Hl.
  { injection Hl as <-. exists []. by rewrite app_nil_r. }
  obind Hl. obind Hv. injection Hv as <-. apply IH in Hl as (l' & -> & Hl'). exists (v0 :: l'). rewrite <- app_assoc. split; [done|].
  constructor; [|done]. by destruct (get_analyzed_tx d h).
Qed.

(** * Properties *)

(** C28. The handshake is done exactly when the packets hold one [version], then the first [verack],
    and what comes besides is none of them. Pings are answered on the way, and the [verack] by our
    own, with the extensions that the version of the peer allows. *)
Theorem handshake_accepts now nonce top_number packets v sent :
  handshake now nonce top_number packets = Some (Ok (v, sent)) ↔
  ∃ pre mid ack rest,
    packets = pre ++ Some (RecvVersion v) :: mid ++ Some (RecvVerAck ack) :: rest ∧
    forallb neutral pre = true ∧ forallb neutral mid = true ∧
    sent = SendVersion (our_version now nonce top_number) :: pongs pre ++ pongs mid ++ verack_answer v.
Proof.
  unfold handshake. split.
  - intros Hh. destruct (first_packet packets) as [Hn|(pre & p & packets' & -> & Hn & Hp)]; [by rewrite handshake_waits in Hh|].
    rewrite handshake_neutral in Hh by done. destruct p as [[]|]; try done; cbn [handshake_loop handle_packet_during_handshaking default] in Hh.
    rewrite app_nil_r in Hh.
    destruct (first_packet packets') as [Hm|(mid & q & rest & -> & Hm & Hq)]; [by rewrite handshake_waits in Hh|].
    rewrite handshake_neutral in Hh by done. destruct q as [[]|]; try done. cbn in Hh. injection Hh as <- <-.
    exists pre, mid, v1, rest. split_and!; [done|done|done|]. by rewrite <- !app_assoc.
  - intros (pre & mid & ack & rest & -> & Hn & Hm & ->). rewrite handshake_neutral by done. cbn [handshake_loop handle_packet_during_handshaking default].
    rewrite app_nil_r, handshake_neutral by done. cbn. do 3 f_equal. by rewrite <- !app_assoc.
Qed.

(** C29. A peer whose connections are all worth it is never banned, and called again without a pause. But
    once a single connection has failed, the next thirteen attempts lead to its ban, however
    good they are, since the error of that connection is never taken back. *)
Theorem crawl_bans peer good pre e seconds post :
  supported peer → Forall good_attempt good → 13 <= len post →
  crawl_with_backoff peer good = (None, replicate (length good) 0) ∧
  ∃ reasons pauses, crawl_with_backoff peer (pre ++ NotConnected e seconds :: post) = (Some reasons, pauses).
Proof.
  intros Hp Hg Hl. split; [by apply (crawl_loop_good peer good CrawlResult_default [])|]. unfold crawl_with_backoff.
  assert (∀ s pauses, 0 <= s.1.1 →
    ∃ reasons pauses', crawl_loop peer (pre ++ NotConnected e seconds :: post) s pauses = (Some reasons, pauses')) as Hgo; [|by apply Hgo].
  induction pre as [|a pre IH]; intros s pauses Hs; cbn [app crawl_loop]; destruct (Z.ltb_spec s.1.1 14) as [Hlt|Hge]; try by do 2 eexists.
  - pose proof (crawl_once_range peer s (NotConnected e seconds) ltac:(lia)) as Hr. destruct s as [[f reasons] res]. cbn [fst] in *.
    assert (∃ f' reasons' res', crawl_once peer (f, reasons, res) (NotConnected e seconds) = (f', reasons', res') ∧
      is_Some (connect_handshake_error res') ∧ 1 <= f') as (f' & r' & res' & Hc & He & Hf).
    { unfold crawl_once, crawl. destruct Hp as [->| ->]; unfold evaluate_crawl_result; cbn [connect_handshake_error];
        destruct e; do 3 eexists; (split; [reflexivity|]); (split; [by eexists|]); unfold wrap32; rewrite Z.mod_small by lia; lia. }
    rewrite Hc. apply crawl_error_bans; [done|lia|lia].
  - apply IH, crawl_once_range. lia.
Qed.

(** C30. Every peer that a packet makes known has an address of one of the two networks that are
    supported, as long as it should be, in the form of IPv4 if it can be. *)
Theorem seen_addresses_typed c syncing_headers syncing_bodies now payload requests requests' answer effects apns time :
  handle_payload c syncing_headers syncing_bodies now (Some payload) requests = Ok (requests', answer, effects) →
  (∀ a, payload = RecvAddr a → Forall (λ addy, length (na_addr addy) = 16%nat) (addr_inner a)) →
  PeersSeen apns time ∈ effects → Forall apn_ok apns ∧ Forall supported apns.
Proof.
  intros Hh Hlen Hin. assert (Forall apn_ok apns) as Hok.
  { destruct payload; cbn in Hh; try (injection Hh as <- <- <-; by apply not_elem_of_nil in Hin).
    - destruct (negb syncing_headers); injection Hh as <- <- <-; by apply not_elem_of_nil in Hin.
    - injection Hh as <- <- <-. apply list_elem_of_singleton in Hin as [= -> ->]. apply Forall_map.
      eapply Forall_impl; [by apply Hlen|]. intros addy. apply addr_apn_ok.
    - injection Hh as <- <- <-. apply list_elem_of_singleton in Hin as [= -> ->]. unfold addrv2_apns. apply Forall_forall.
      intros x (addy & _ & Hx)%list_elem_of_omap. by apply addrv2_apn_ok in Hx.
    - injection Hh as <- <- <-. apply elem_of_app in Hin as [Hin|Hin]; case_match; try by apply not_elem_of_nil in Hin.
      all: by apply list_elem_of_singleton in Hin.
    - destruct (extract_block_requests g). injection Hh as <- <- <-. by apply not_elem_of_nil in Hin.
    - destruct (negb syncing_headers); injection Hh as <- <- <-; [|by apply not_elem_of_nil in Hin].
      by apply list_elem_of_fmap in Hin as (x & [=] & _).
    - destruct (negb syncing_headers); [|injection Hh as <- <- <-; by apply not_elem_of_nil in Hin].
      unfold answer_getheaders in Hh. obind Hh. injection Hh as <- <- <-. by apply not_elem_of_nil in Hin. }
  split; [done|]. eapply Forall_impl; [exact Hok|]. intros a [[Ha _]|[Ha _]]; [by left|by right].
Qed.

(** A block that is served to a peer: its header and its transactions in order, but every transaction
    is without its outputs, since these are kept apart in the database and are not fetched. *)
Theorem served_block `{RocksDb, Layout} c d h include_witness_data block :
  get_block c d h include_witness_data = Ok block →
  ∃ header entries, known_headers c !! h = Some header ∧ get_block_tx_entries d h = Ok entries ∧
    block_header block = bn_header header ∧ length (block_txs block) = length entries ∧
    Forall (λ t, txouts t = []) (block_txs block).
Proof.
  unfold get_block, get_header_by_hash. intros Hb. destruct (known_headers c !! h) as [header|] eqn:Hh; [|done].
  destruct (get_block_tx_entries d h) as [entries| | |] eqn:He; cbn [mbind outcome_bind] in Hb; try done.
  obind Hb. injection Hb as <-. apply fetched_txs in Hv as (l & -> & Hl). exists header, entries.
  pose proof (Forall2_length _ _ _ Hl) as Hlen. rewrite length_map in Hlen. cbn [app block_header block_txs]. split_and!; try done.
  - by rewrite length_map.
  - apply Forall_map, Forall_forall. intros an Han. apply list_elem_of_lookup in Han as [i Hi].
    destruct (Forall2_lookup_r _ _ _ _ _ Hl Hi) as (x & _ & Hx). apply get_analyzed_tx_outputs in Hx.
    destruct include_witness_data; cbn; done.
Qed.

(** * Examples *)

Import Toy ToyDb ToyChain.

(** A failed connection, and then thirteen good ones *)
Lemma crawl_bans_witness : ∃ reasons pauses,
  crawl_with_backoff (toy_apn 1)
    (NotConnected (OtherError []) 5 :: replicate 13 (Connected 100 (OtherError []) 3600)) = (Some reasons, pauses).
Proof.
  destruct (crawl_bans (toy_apn 1) [] [] (OtherError []) 5 (replicate 13 (Connected 100 (OtherError []) 3600)))
    as (_ & reasons & pauses & Hc).
  - by left.
  - by apply Forall_nil_2.
  - vm_compute. discriminate.
  - exists reasons, pauses. exact Hc.
Defined.

Lemma seen_addresses_typed_witness :
  Forall apn_ok [mkAddressPortNetwork IPv4 8333 (to_le 4 1)].
Proof.
  apply (seen_addresses_typed chain0 false false 0
    (RecvAddr (mkAddr [mkNetAddr 1 (replicate 10 Byte.x00 ++ [Byte.xff; Byte.xff] ++ to_le 4 1) 0 8333]))
    [] [] None [PeersSeen [mkAddressPortNetwork IPv4 8333 (to_le 4 1)] 0] _ 0).
  - vm_compute. reflexivity.
  - intros a [= <-]. apply Forall_singleton. reflexivity.
  - by left.
Defined.

(** The number of transactions of a block in the toy database *)
Definition tx_count (r : outcome (list BlockTxEntry)) : nat := match r with Ok l => length l | _ => 0 end.

Lemma page_tx_count : tx_count (get_block_tx_entries page_db (bn_hash page_top)) = 1%nat.
Proof. vm_compute. reflexivity. Qed.

Lemma no_outputs (txs : list Tx) : length txs = 1%nat → Forall (λ t, txouts t = []) txs → map txouts txs = [[]].
Proof. destruct txs as [|t [|]]; try done. intros _ [Ht _]%Forall_cons. cbn. by rewrite Ht. Qed.

Lemma page_served : is_ok (get_block page_chain page_db (bn_hash page_top) true) = true.
Proof. vm_compute. reflexivity. Qed.

Lemma served_block_witness : ∃ block,
  get_block page_chain page_db (bn_hash page_top) true = Ok block ∧ map txouts (block_txs block) = [[]].
Proof.
  pose proof page_served as Hs. revert Hs.
  destruct (get_block page_chain page_db (bn_hash page_top) true) as [block| | |] eqn:Hb; cbn [is_ok]; intros Hs;
    [clear Hs|discriminate Hs..].
  destruct (served_block page_chain page_db (bn_hash page_top) true block Hb) as (header & entries & _ & He & _ & Hl & Ho).
  exists block. split; [reflexivity|]. pose proof page_tx_count as Hn. rewrite He in Hn. cbn [tx_count] in Hn.
  apply no_outputs; [exact (eq_trans Hl Hn)|exact Ho].
Defined.
