(* ===== verification/Visit.v ===== *)
(** [src/crawler/mod.rs], [crawl]: the conversation with a peer after the handshake, as the events that its loop
    selects from. *)
From S2P Require Import Prelude.
From S2P Require Import Extern.
From S2P Require Import Tx.
From S2P Require Import Header.
From S2P Require Import Messages.
From S2P Require Import Block.
From S2P Require Import Payload.
From S2P Require Import Loops.
From S2P Require Import Chain.
From S2P Require Import Analyze.
From S2P Require Import Store.
From S2P Require Import Queries.
From S2P Require Import Miners.
From S2P Require Import FrontPage.
From S2P Require Import OnlineList.
From S2P Require Import Crawler.

Section visit.
Context `{RocksDb, Layout}.

(** What the rest of the program is at an event: the chain, the databases, the two flags, the clock. *)
Record World := mkWorld {
  wo_chain : Chain;
  wo_databases : Databases;
  SYNCING_HEADERS : bool;
  SYNCING_BODIES : bool;
  wo_now : Z;
}.

(** The state of the conversation. The peer takes [vi_writes] more packets before a write fails. [vi_registered] counts
    the registrations as a worker; [vi_served] is kept for the record: the requests that were answered, with the answers. *)
Record Visit := mkVisit {
  block_requests : list (hash * bool);
  vi_packets : Z;
  vi_writes : nat;
  vi_sent : list PayloadToSend;
  vi_registered : nat;
  vi_effects : list Effect;
  vi_online : nat;
  vi_served : list ((hash * bool) * PayloadToSend);
}.

(** [select!]: a block was applied, or the subscriber lags behind; the interval of pings, with a random nonce; the
    interval of requests; a packet, or the end of the stream; a job, or the sender of jobs is gone. *)
Inductive event :=
| BlockApplied (h : option hash)
| PingDue (nonce : Z)
| RequestDue
| PacketComes (packet : outcome (option ReceivedPayload))
| JobComes (job : option hash).

(** A step changes the state even if it then fails. *)
Definition act (A : Type) : Type := Visit → Visit * outcome A.

#[local] Instance act_ret : MRet act := λ A a v, (v, Ok a).
#[local] Instance act_bind : MBind act := λ A B f m v,
  match m v with
  | (v, Ok a) => f a v
  | (v, Err e) => (v, Err e)
  | (v, Panic e) => (v, Panic e)
  | (v, Ub) => (v, Ub)
  end.

Definition lift {A} (m : outcome A) : act A := λ v, (v, m).
Definition modify (f : Visit → Visit) : act unit := λ v, (f v, Ok tt).
Definition requests_now : act (list (hash * bool)) := λ v, (v, Ok (block_requests v)).

(** [connection.inner.write_packet] *)
Definition write (p : PayloadToSend) : act unit := λ v,
  match vi_writes v with
  | O => (v, Err "failed to write")
  | S n => (mkVisit (block_requests v) (vi_packets v) n (vi_sent v ++ [p]) (vi_registered v) (vi_effects v)
              (vi_online v) (vi_served v), Ok tt)
  end.

Fixpoint write_all (ps : list PayloadToSend) : act unit :=
  match ps with
  | [] => mret tt
  | p :: ps => _ ← write p; write_all ps
  end.

(** A new channel for jobs, which is sent to the manager of the workers. *)
Definition register (v : Visit) : Visit :=
  mkVisit (block_requests v) (vi_packets v) (vi_writes v) (vi_sent v) (S (vi_registered v)) (vi_effects v) (vi_online v)
    (vi_served v).

Definition set_requests (requests : list (hash * bool)) (v : Visit) : Visit :=
  mkVisit requests (vi_packets v) (vi_writes v) (vi_sent v) (vi_registered v) (vi_effects v) (vi_online v) (vi_served v).

Definition add_effects (effects : list Effect) (v : Visit) : Visit :=
  mkVisit (block_requests v) (vi_packets v) (vi_writes v) (vi_sent v) (vi_registered v) (vi_effects v ++ effects)
    (vi_online v) (vi_served v).

Definition note_served (request : option (hash * bool)) (p : PayloadToSend) (v : Visit) : Visit :=
  mkVisit (block_requests v) (vi_packets v) (vi_writes v) (vi_sent v) (vi_registered v) (vi_effects v) (vi_online v)
    (vi_served v ++ match request with Some r => [(r, p)] | None => [] end).

(** The packet is counted once it was handled and answered, and the peer is noted as online. *)
Definition count_packet (v : Visit) : Visit :=
  mkVisit (block_requests v) (wrap32 (vi_packets v + 1)) (vi_writes v) (vi_sent v) (vi_registered v) (vi_effects v)
    (S (vi_online v)) (vi_served v).

Definition visit_step (w : World) (e : event) : act unit :=
  match e with
  | BlockApplied h =>
      h ← lift (ok_or h "channel lagged");
      write (SendInv (mkInv [mkInventoryVector InvBlock h]))
  | PingDue nonce => write (SendPing (mkPing nonce))
  | RequestDue =>
      asked ← requests_now;
      '(requests, answer) ← lift (answer_block_request (wo_chain w) (wo_databases w) asked);
      _ ← modify (set_requests requests);
      match answer with
      | None => mret tt
      | Some p => _ ← write p; modify (note_served (head asked) p)
      end
  | PacketComes packet =>
      payload ← lift packet;
      asked ← requests_now;
      '(requests, responses, effects) ← lift (handle_payload (wo_chain w) (SYNCING_HEADERS w) (SYNCING_BODIES w)
                                                (wo_now w) payload asked);
      _ ← modify (λ v, add_effects effects (set_requests requests v));
      _ ← write_all (default [] responses);
      modify count_packet
  | JobComes job =>
      job ← lift (ok_or job "channel closed");
      let should_process_headers := negb (SYNCING_HEADERS w) in
      let should_process_blocks := should_process_headers && negb (SYNCING_BODIES w) in
      _ ← (if should_process_blocks then write (SendGetData (mkGetData [mkInventoryVector WitnessBlock job])) else mret tt);
      modify register
  end.

(** The loop, over the events in the order in which they come; it goes on as long as nothing fails. *)
Fixpoint converse (events : list (World * event)) : act unit :=
  match events with
  | [] => mret tt
  | (w, e) :: events => _ ← visit_step w e; converse events
  end.

(** What comes before the loop; [top] is what [get_top_synced_header_hash] gives. *)
Definition greet (top : option hash) : act unit :=
  _ ← write (SendGetAddr mkGetAddr);
  _ ← write (SendGetHeaders (mkGetHeaders 70016 [default EMPTY_HASH top] EMPTY_HASH));
  modify register.

(** The whole conversation with a peer that takes that many packets *)
Definition visit (top : option hash) (writes : nat) (events : list (World * event)) : Visit * outcome unit :=
  (_ ← greet top; converse events) (mkVisit [] 0 writes [] 0 [] 0 []).

(** * Properties *)

(** The blocks that a packet asks for *)
Definition asked_by (e : event) : list (hash * bool) :=
  match e with PacketComes (Ok (Some (RecvGetData g))) => (extract_block_requests g).1 | _ => [] end.

Definition asked (events : list (World * event)) : list (hash * bool) := concat (map (λ x, asked_by x.2) events).

Definition packets_of (events : list (World * event)) : nat :=
  length (List.filter (λ x, match x.2 with PacketComes (Ok _) => true | _ => false end) events).

Definition jobs_of (events : list (World * event)) : nat :=
  length (List.filter (λ x, match x.2 with JobComes (Some _) => true | _ => false end) events).

(** The answer to a request: the block, or that it was not found *)
Definition answers (w : World) (r : hash * bool) (p : PayloadToSend) : Prop :=
  (∃ block, get_block (wo_chain w) (wo_databases w) r.1 r.2 = Ok block ∧ p = SendBlock block) ∨
  (∃ e, get_block (wo_chain w) (wo_databases w) r.1 r.2 = Err e ∧
    p = SendNotFound (mkNotFound [mkInventoryVector (if r.2 : bool then WitnessBlock else InvBlock) r.1])).

(** A step that keeps everything but what is written *)
Definition writes_only (v v' : Visit) : Prop :=
  block_requests v' = block_requests v ∧ vi_packets v' = vi_packets v ∧ vi_registered v' = vi_registered v ∧
  vi_effects v' = vi_effects v ∧ vi_online v' = vi_online v ∧ vi_served v' = vi_served v ∧
  ∃ ps, vi_sent v' = vi_sent v ++ ps.

Lemma write_spec p v v' r :
  write p v = (v', r) →
  (r = Ok tt ∧ vi_sent v' = vi_sent v ++ [p] ∧ writes_only v v') ∨ (r = Err "failed to write" ∧ v' = v).
Proof.
  unfold write. destruct (vi_writes v); intros [= <- <-]; [by right|]. left. split; [done|]. split; [done|]. repeat split. by exists [p].
Qed.

Lemma writes_only_refl v : writes_only v v.
Proof. repeat split. exists []. by rewrite app_nil_r. Qed.

Lemma write_all_spec ps : ∀ v v' r,
  write_all ps v = (v', r) →
  writes_only v v' ∧ ((r = Ok tt ∧ vi_sent v' = vi_sent v ++ ps) ∨ r = Err "failed to write").
Proof.
  induction ps as [|p ps IH]; intros v v' r; cbn [write_all].
  { intros [= <- <-]. split; [apply writes_only_refl|]. left. by rewrite app_nil_r. }
  unfold mbind, act_bind. destruct (write p v) as [v1 r1] eqn:Hw. apply write_spec in Hw as [(-> & Hs & Hv)|(-> & ->)].
  - intros Hr. apply IH in Hr as ((? & ? & ? & ? & ? & ? & ps' & Hps) & Hr). destruct Hv as (? & ? & ? & ? & ? & ? & ? & ?).
    split.
    + repeat split; try congruence. eexists. rewrite Hps, Hs. by rewrite <- app_assoc.
    + destruct Hr as [(-> & Hr)| ->]; [left|by right]. split; [done|]. by rewrite Hr, Hs, <- app_assoc.
  - intros [= <- <-]. split; [apply writes_only_refl|by right].
Qed.

(** What a step does to the requests *)
Record step_ok (w : World) (e : event) (v v' : Visit) (r : outcome unit) (lost : list (hash * bool))
    (new : list ((hash * bool) * PayloadToSend)) : Prop := {
  so_served : vi_served v' = vi_served v ++ new;
  so_ledger : map fst new ++ lost ++ block_requests v' = block_requests v ++ asked_by e;
  so_lost : (length lost ≤ 1)%nat ∧ (r = Ok tt → lost = []);
  so_answers : Forall (λ x, answers w x.1 x.2) new;
  so_sent : ∃ ps, vi_sent v' = vi_sent v ++ ps ∧ map snd new `sublist_of` ps;
  so_counts : r = Ok tt →
    vi_packets v' = match e with PacketComes _ => wrap32 (vi_packets v + 1) | _ => vi_packets v end ∧
    vi_registered v' = (vi_registered v + match e with JobComes _ => 1 | _ => 0 end)%nat;
}.

(** A step that only writes *)
Lemma step_writes w e v v' r :
  writes_only v v' → asked_by e = [] → match e with PacketComes _ | JobComes _ => r ≠ Ok tt | _ => True end →
  step_ok w e v v' r [] [].
Proof.
  intros (Hr & Hp & Hg & _ & _ & Hs & ps & Hps) Ha He. constructor; cbn [map app].
  - by rewrite Hs, app_nil_r.
  - by rewrite Hr, Ha, app_nil_r.
  - by split; [cbn; lia|].
  - by apply Forall_nil.
  - exists ps. split; [done|apply sublist_nil_l].
  - intros ->. rewrite Hg. destruct e; try (by destruct He); split; (done || lia).
Qed.

Lemma write_writes p v v' r : write p v = (v', r) → writes_only v v'.
Proof. intros [(_ & _ & Hw)|(_ & ->)]%write_spec; [done|apply writes_only_refl]. Qed.

Lemma request_step w v v' r :
  visit_step w RequestDue v = (v', r) → ∃ lost new, step_ok w RequestDue v v' r lost new.
Proof.
  cbn [visit_step]. unfold requests_now, lift, modify, mbind, act_bind, mret, act_ret. destruct (block_requests v) as [|x rest] eqn:Hreq.
  { cbn. intros [= <- <-]. exists [], []. apply step_writes; [|done..]. unfold writes_only. cbn. rewrite Hreq. repeat split.
    exists []. by rewrite app_nil_r. }
  destruct x as [h b]. cbn [answer_block_request head].
  assert (∀ p, answers w (h, b) p →
    match write p (set_requests rest v) with
    | (v, Ok _) => (note_served (Some (h, b)) p v, Ok tt)
    | (v, Err e) => (v, Err e) | (v, Panic e) => (v, Panic e) | (v, Ub) => (v, Ub)
    end = (v', r) → ∃ lost new, step_ok w RequestDue v v' r lost new) as Hanswer.
  { intros p Hp Hw. destruct (write p (set_requests rest v)) as [v1 r1] eqn:Hw1. apply write_spec in Hw1 as [(-> & Hs & Hv)|(-> & ->)].
    - injection Hw as <- <-. destruct Hv as (Hr & Hpk & Hg & _ & _ & Hsv & _). exists [], [((h, b), p)]. constructor.
      + cbn. by rewrite Hsv.
      + cbn. rewrite Hr, Hreq, app_nil_r. done.
      + by split; [cbn; lia|].
      + by apply Forall_singleton.
      + exists [p]. split; [cbn; by rewrite Hs|done].
      + intros _. cbn. rewrite Hpk, Hg. split; [done|cbn; lia].
    - injection Hw as <- <-. exists [(h, b)], []. constructor; cbn [map app set_requests block_requests vi_served vi_sent].
      + by rewrite app_nil_r.
      + by rewrite Hreq, app_nil_r.
      + by split; [cbn; lia|].
      + by apply Forall_nil.
      + exists []. by rewrite app_nil_r.
      + done. }
  destruct (get_block (wo_chain w) (wo_databases w) h b) as [block|e|m|] eqn:Hb; cbn [answer_block_request].
  - apply Hanswer. left. by exists block.
  - apply Hanswer. right. by exists e.
  - intros [= <- <-]. exists [], []. apply step_writes; [apply writes_only_refl|done..].
  - intros [= <- <-]. exists [], []. apply step_writes; [apply writes_only_refl|done..].
Qed.

(** Every packet that is handled but one that asks for blocks leaves the requests as they are. *)
Lemma handled_requests c syncing_headers syncing_bodies now payload requests requests' responses effects :
  handle_payload c syncing_headers syncing_bodies now payload requests = Ok (requests', responses, effects) →
  requests' = requests ++ asked_by (PacketComes (Ok payload)).
Proof.
  unfold handle_payload, no_answer, answer_getheaders. destruct payload as [p|]; [|intros [= <- _ _]; by rewrite app_nil_r].
  destruct p; cbn [asked_by]; try (intros [= <- _ _]; by rewrite app_nil_r).
  all: try (destruct (negb syncing_headers); intros [= <- _ _]; by rewrite app_nil_r).
  - destruct (extract_block_requests _) as [l n]. by intros [= <- _ _].
  - destruct (negb syncing_headers); [|intros [= <- _ _]; by rewrite app_nil_r].
    intros Hh. obind Hh. injection Hh as <- _ _. by rewrite app_nil_r.
Qed.

(** Without a result there are no requests in the packet either. *)
Lemma unhandled_requests c syncing_headers syncing_bodies now payload requests :
  (∀ x, handle_payload c syncing_headers syncing_bodies now payload requests ≠ Ok x) →
  asked_by (PacketComes (Ok payload)) = [].
Proof.
  unfold handle_payload. destruct payload as [p|]; [|done]. destruct p; try done. intros Hno. exfalso.
  destruct (extract_block_requests _) as [l n]. by eapply Hno.
Qed.

Lemma packet_step w packet v v' r :
  visit_step w (PacketComes packet) v = (v', r) → ∃ lost new, step_ok w (PacketComes packet) v v' r lost new.
Proof.
  cbn [visit_step]. unfold requests_now, lift, modify, mbind, act_bind. destruct packet as [payload|e|m|].
  2-4: intros [= <- <-]; exists [], []; apply step_writes; [apply writes_only_refl|done..].
  destruct (handle_payload _ _ _ _ payload (block_requests v)) as [[[requests responses] effects]|e|m|] eqn:Hh.
  2-4: intros [= <- <-]; exists [], []; apply step_writes; [apply writes_only_refl| |done];
    eapply unhandled_requests; intros x Hx; by rewrite Hx in Hh.
  apply handled_requests in Hh as ->. destruct (write_all (default [] responses) _) as [v1 r1] eqn:Hw.
  apply write_all_spec in Hw as [(Hr & Hp & Hg & _ & _ & Hs & ps & Hps) Hr1]. cbn in Hr, Hp, Hg, Hs, Hps.
  destruct Hr1 as [[-> _]| ->]; intros [= <- <-]; exists [], []; constructor; cbn [map app].
  all: try (by rewrite ?Hs, ?app_nil_r). all: try (by rewrite Hr). all: try (by split; [cbn; lia|]). all: try by apply Forall_nil.
  all: try (exists ps; split; [done|apply sublist_nil_l]).
  intros _. cbn. rewrite Hp, Hg. split; [done|lia].
Qed.

Lemma visit_step_ok w e v v' r : visit_step w e v = (v', r) → ∃ lost new, step_ok w e v v' r lost new.
Proof.
  intros Hs. destruct e; [| |by apply request_step|by apply packet_step|]; exists [], []; cbn [visit_step] in Hs;
    unfold lift, modify, mbind, act_bind, mret, act_ret in Hs.
  - destruct h; cbn [ok_or] in Hs; [apply write_writes in Hs; by apply step_writes|].
    injection Hs as <- <-. by apply step_writes; [apply writes_only_refl|..].
  - apply write_writes in Hs. by apply step_writes.
  - destruct job as [job|]; cbn [ok_or] in Hs; [|injection Hs as <- <-; by apply step_writes; [apply writes_only_refl|..]].
    assert (∃ v1 r1, (if negb (SYNCING_HEADERS w) && negb (SYNCING_BODIES w)
                      then write (SendGetData (mkGetData [mkInventoryVector WitnessBlock job])) else λ v, (v, Ok tt)) v = (v1, r1) ∧
      writes_only v v1) as (v1 & r1 & Hw & Hv).
    { destruct (_ && _); [|do 2 eexists; split; [done|apply writes_only_refl]].
      destruct (write _ v) as [v1 r1] eqn:Hw. exists v1, r1. split; [done|by eapply write_writes]. }
    rewrite Hw in Hs. destruct r1 as [[]| | |]; injection Hs as <- <-; try (by apply step_writes).
    destruct Hv as (Hr & Hp & Hg & _ & _ & Hsv & ps & Hps). constructor; cbn [map app register block_requests vi_served vi_sent].
    + by rewrite app_nil_r.
    + by rewrite Hr, app_nil_r.
    + by split; [cbn; lia|].
    + by apply Forall_nil.
    + exists ps. split; [done|apply sublist_nil_l].
    + intros _. cbn. rewrite Hp, Hg. split; [done|lia].
Qed.

Definition came_in (e : event) : nat := match e with PacketComes _ => 1 | _ => 0 end.
Definition came_job (e : event) : nat := match e with JobComes _ => 1 | _ => 0 end.

(** What the loop does to the requests, until it fails *)
Record converse_ok (events : list (World * event)) (v v' : Visit) (r : outcome unit) (happened : list (World * event))
    (lost : list (hash * bool)) (new : list ((hash * bool) * PayloadToSend)) : Prop := {
  co_happened : (∃ rest, events = happened ++ rest) ∧ (r = Ok tt → happened = events);
  co_served : vi_served v' = vi_served v ++ new;
  co_ledger : map fst new ++ lost ++ block_requests v' = block_requests v ++ asked happened;
  co_lost : (length lost ≤ 1)%nat ∧ (r = Ok tt → lost = []);
  co_answers : Forall (λ x, ∃ w e, (w, e) ∈ happened ∧ answers w x.1 x.2) new;
  co_sent : ∃ ps, vi_sent v' = vi_sent v ++ ps ∧ map snd new `sublist_of` ps;
  co_counts : r = Ok tt →
    (∃ n, n = sum_list_with (λ x, came_in x.2) happened ∧ wrap32 (vi_packets v') = wrap32 (vi_packets v + Z.of_nat n)) ∧
    vi_registered v' = (vi_registered v + sum_list_with (λ x, came_job x.2) happened)%nat;
}.

Lemma converse_spec events : ∀ v v' r,
  converse events v = (v', r) → ∃ happened lost new, converse_ok events v v' r happened lost new.
Proof.
  induction events as [|[w e] events IH]; intros v v' r.
  { intros [= <- <-]. exists [], [], []. constructor; cbn; rewrite ?app_nil_r; try done.
    - split; [by exists []|done].
    - split; [lia|done].
    - exists []. by rewrite app_nil_r.
    - intros _. split; [exists 0%nat; by rewrite Z.add_0_r|lia]. }
  cbn [converse]. unfold mbind, act_bind. destruct (visit_step w e v) as [v1 r1] eqn:Hs. apply visit_step_ok in Hs as (lost & new & Hs).
  destruct Hs as [Hsv Hl [Hlen Hlost] Ha (ps & Hps & Hsub) Hc].
  assert (∀ r, r ≠ Ok tt → ∃ happened lost new, converse_ok ((w, e) :: events) v v1 r happened lost new) as Hfail.
  { intros r' Hr'. exists [(w, e)], lost, new. constructor; try done.
    - split; [by exists events|done].
    - rewrite Hl. unfold asked. cbn. by rewrite app_nil_r.
    - eapply Forall_impl; [exact Ha|]. intros x Hx. exists w, e. split; [by left|done].
    - by exists ps. }
  destruct r1 as [[]| | |]; try (intros [= <- <-]; by apply Hfail).
  intros Hr. apply IH in Hr as (happened & lost' & new' & [[[rest He] Hall] Hsv' Hl' [Hlen' Hlost'] Ha' (ps' & Hps' & Hsub') Hc']).
  exists ((w, e) :: happened), lost', (new ++ new'). rewrite (Hlost eq_refl) in Hl. cbn [app] in Hl. constructor.
  - split; [exists rest; by rewrite He|]. intros Hok. by rewrite Hall.
  - by rewrite Hsv', Hsv, app_assoc.
  - rewrite map_app, <- app_assoc, Hl', app_assoc, Hl. unfold asked. cbn. by rewrite app_assoc.
  - by split.
  - apply Forall_app. split; (eapply Forall_impl; [eassumption|]); [|intros x (w' & e' & Hin & Hx); exists w', e'; split; [by right|done]].
    intros x Hx. exists w, e. split; [by left|done].
  - exists (ps ++ ps'). split; [by rewrite Hps', Hps, app_assoc|]. rewrite map_app. by apply sublist_app.
  - intros Hok. destruct (Hc' Hok) as [(n & -> & Hp') Hg']. destruct (Hc eq_refl) as [Hp Hg]. cbn [sum_list_with snd]. split.
    + eexists. split; [done|]. rewrite Hp', Hp. destruct e; cbn [came_in plus]; try done.
      unfold wrap32. rewrite Zplus_mod_idemp_l. f_equal. lia.
    + rewrite Hg', Hg. destruct e; cbn; lia.
Qed.

(** C14. Every block that a peer asks for is answered once and in the order of the requests, with the
    block or with a notfound: the requests that were answered and those that are still queued are those of its packets,
    and at most one is lost, when the answer to it cannot be written. The answers are written in that order. While nothing
    fails, all packets are counted, and the peer is registered once for the start and once for every job. *)
Theorem requests_answered top writes events v r :
  visit top writes events = (v, r) →
  ∃ happened rest lost, events = happened ++ rest ∧ (r = Ok tt → rest = [] ∧ lost = []) ∧ (length lost ≤ 1)%nat ∧
    map fst (vi_served v) ++ lost ++ block_requests v = asked happened ∧
    Forall (λ x, ∃ w e, (w, e) ∈ happened ∧ answers w x.1 x.2) (vi_served v) ∧
    map snd (vi_served v) `sublist_of` vi_sent v ∧
    (r = Ok tt → wrap32 (vi_packets v) = wrap32 (Z.of_nat (sum_list_with (λ x, came_in x.2) happened)) ∧
      vi_registered v = S (sum_list_with (λ x, came_job x.2) happened)).
Proof.
  unfold visit, mbind, act_bind. destruct (greet top _) as [v1 r1] eqn:Hg.
  assert (block_requests v1 = [] ∧ vi_served v1 = [] ∧ vi_packets v1 = 0 ∧ (r1 = Ok tt → vi_registered v1 = 1%nat)) as (Hr & Hs & Hp & Hn).
  { unfold greet, write, modify, mbind, act_bind in Hg. cbn in Hg. destruct writes as [|[|n]]; cbn in Hg; by injection Hg as <- <-. }
  assert (∀ r, r ≠ Ok tt → (v1, r1) = (v, r) ∨ v1 = v → ∃ happened rest lost, events = happened ++ rest ∧
    (r = Ok tt → rest = [] ∧ lost = []) ∧ (length lost ≤ 1)%nat ∧
    map fst (vi_served v) ++ lost ++ block_requests v = asked happened ∧
    Forall (λ x, ∃ w e, (w, e) ∈ happened ∧ answers w x.1 x.2) (vi_served v) ∧
    map snd (vi_served v) `sublist_of` vi_sent v ∧
    (r = Ok tt → wrap32 (vi_packets v) = wrap32 (Z.of_nat (sum_list_with (λ x, came_in x.2) happened)) ∧
      vi_registered v = S (sum_list_with (λ x, came_job x.2) happened))) as Hfail.
  { intros r' Hr' Hv. assert (v1 = v) as <- by (destruct Hv as [[=]|]; done). exists [], events, [].
    rewrite Hs, Hr. cbn. split_and!; try done; [lia|apply sublist_nil_l]. }
  destruct r1 as [[]| | |]; try (intros [= -> <-]; apply Hfail; [done|by right]).
  intros Hc. apply converse_spec in Hc as (happened & lost & new & [[[rest He] Hall] Hsv Hl [Hlen Hlost] Ha (ps & Hps & Hsub) Hcnt]).
  rewrite Hs in Hsv. cbn [app] in Hsv. exists happened, rest, lost. rewrite Hsv, Hl, Hr, Hps. split_and!; try done.
  - intros Hok. split; [|by apply Hlost]. rewrite (Hall Hok) in He. apply (f_equal length) in He. rewrite length_app in He.
    destruct rest; [done|cbn in He; lia].
  - by apply sublist_inserts_l.
  - intros Hok. destruct (Hcnt Hok) as [(n & -> & Hw) Hreg]. rewrite Hw, Hp, Hreg, Hn by done. split; [done|lia].
Qed.
End visit.

(** * Examples *)

Import Toy ToyDb ToyChain.

Definition toy_world : World := mkWorld page_chain page_db false false 0.

(** A block that is there, and one that is not *)
Definition toy_wanted : list InventoryVector :=
  [mkInventoryVector WitnessBlock (bn_hash page_top); mkInventoryVector InvBlock EMPTY_HASH].

Definition toy_visit_events : list (World * event) :=
  map (pair toy_world)
    [PacketComes (Ok (Some (RecvGetData (mkGetData toy_wanted)))); RequestDue; JobComes (Some EMPTY_HASH); RequestDue; RequestDue].

Definition toy_visited : Visit * outcome unit := visit None 10 toy_visit_events.

Lemma toy_visited_ok : is_ok toy_visited.2 = true.
Proof. vm_compute. reflexivity. Qed.

Lemma toy_visited_requests : length (block_requests toy_visited.1) = 0%nat.
Proof. vm_compute. reflexivity. Qed.

Lemma toy_asked : asked toy_visit_events = [(bn_hash page_top, true); (EMPTY_HASH, false)].
Proof. vm_compute. reflexivity. Qed.

Lemma requests_answered_witness : ∃ v,
  visit None 10 toy_visit_events = (v, Ok tt) ∧ map fst (vi_served v) = [(bn_hash page_top, true); (EMPTY_HASH, false)] ∧
  vi_registered v = 2%nat.
Proof.
  assert (∃ v, visit None 10 toy_visit_events = (v, Ok tt) ∧ length (block_requests v) = 0%nat) as (v & Hv & Hreq).
  { pose proof toy_visited_ok as Hok. pose proof toy_visited_requests as Hr. unfold toy_visited in Hok, Hr.
    destruct (visit None 10 toy_visit_events) as [v [[]| | |]]; try discriminate Hok.
    exists v. split; [reflexivity|exact Hr]. }
  exists v. split; [exact Hv|].
  destruct (requests_answered None 10 toy_visit_events v (Ok tt) Hv) as (happened & rest & lost & He & Hok & _ & Hl & _ & _ & Hn).
  destruct (Hok eq_refl) as [-> ->]. rewrite app_nil_r in He. subst happened. destruct (Hn eq_refl) as [_ Hreg].
  destruct (block_requests v); [|discriminate Hreq]. rewrite !app_nil_r in Hl. rewrite toy_asked in Hl. split; [exact Hl|exact Hreg].
Defined.
