(* ===== verification/Sqlite.v ===== *)
(** [src/db/sqlite.rs], [batch.rs], [batched.rs] and [migrations.rs]: the tables, the statements, the
    queues that batch the writes, and the connection that they share behind a mutex. *)
From S2P Require Import Prelude.
From S2P Require Import Extern.
From S2P Require Import Header.
From S2P Require Import Loops.
From S2P Require Import Chain.
From S2P Require Import Float.
From S2P Require Import Process.
From S2P Require Import Store.
From S2P Require Import OnlineList.
From S2P Require Import Peers.

(** * The tables *)

(** What is sent to insert a header; with the two other columns, a row of [headers] *)
Record InsertHeaderRequest := mkInsertHeaderRequest {
  ih_parent : hash;
  ih_merkle_root : hash;
  ih_timestamp : Z;
  ih_bits : Z;
  ih_nonce : Z;
  ih_version : Z;
  ih_number : Z;
  ih_hash : hash;
}.

Record HeaderRow := mkHeaderRow {
  hr_data : InsertHeaderRequest;
  hr_fetched_full : bool;
  hr_coinbase_ascii : option bytes;
}.

(** A row of [peers], without its key *)
Record PeerRow := mkPeerRow {
  pr_first_seen : Z;
  pr_first_online : option Z;
  pr_user_agent : option bytes;
  pr_height : option Z;
  pr_services : Z;
}.

(** The tables by their primary keys. A row of [banned_peers] has the time and the reasons. *)
Record Sqlite := mkSqlite {
  headers : gmap hash HeaderRow;
  peers : gmap AddressPortNetwork PeerRow;
  banned_peers : gmap (AddressPortNetwork * Z) (Z * list bytes);
  block_stats : gmap hash BlockMetrics;
}.

Definition set_headers (d : Sqlite) (t : gmap hash HeaderRow) : Sqlite :=
  mkSqlite t (peers d) (banned_peers d) (block_stats d).

Definition set_peers (d : Sqlite) (t : gmap AddressPortNetwork PeerRow) : Sqlite :=
  mkSqlite (headers d) t (banned_peers d) (block_stats d).

(** * Requests *)

Inductive Request :=
| InsertHeader (r : InsertHeaderRequest)
| PeerRequested (r : PeerRequest)
| UpdatePeerBlockHeight (apn : AddressPortNetwork) (new_height : Z).

Definition insert_header_request (header : BlockHeaderWithNumber) : InsertHeaderRequest :=
  let h := bn_header header in
  mkInsertHeaderRequest (bh_parent h) (bh_merkle_root h) (bh_timestamp h) (bh_bits h) (bh_nonce h)
    (bh_version h) (bn_number header) (bh_hash h).

(** The queues, each with a statement of its own *)
Inductive queue :=
| INSERT_PEER_QUEUE
| BAN_PEER_QUEUE
| DELETE_PEER_QUEUE
| UPDATE_PEER_BLOCK_HEIGHT_QUEUE
| INSERT_HEADER_QUEUE
| UPDATE_PEER_FROM_VERSION_QUEUE
| UPDATE_PEER_FIRST_ONLINE.

#[export] Instance queue_eq_dec : EqDecision queue.
Proof. solve_decision. Defined.

Definition queue_of (r : Request) : queue :=
  match r with
  | InsertHeader _ => INSERT_HEADER_QUEUE
  | PeerRequested (InsertPeer _ _) => INSERT_PEER_QUEUE
  | PeerRequested (DeletePeer _) => DELETE_PEER_QUEUE
  | PeerRequested (BanPeer _ _ _ _) => BAN_PEER_QUEUE
  | PeerRequested (UpdatePeerFromVersion _ _ _ _) => UPDATE_PEER_FROM_VERSION_QUEUE
  | PeerRequested (UpdatePeerFirstOnline _ _) => UPDATE_PEER_FIRST_ONLINE
  | UpdatePeerBlockHeight _ _ => UPDATE_PEER_BLOCK_HEIGHT_QUEUE
  end.

(** * The statements *)

(** [rusqlite] stores an unsigned integer of 64 bits only if it is one of SQLite, which are signed. *)
Class Rusqlite := {
  to_sql_u64 : Z → outcome Z;
  to_sql_u64_ok v : 0 <= v < 2 ^ 63 → to_sql_u64 v = Ok v;
  to_sql_u64_err v : 2 ^ 63 <= v < 2 ^ 64 → ∃ e, to_sql_u64 v = Err e;
}.

Section statements.
Context `{Rusqlite}.

(** [... WHERE address = ? AND port = ?] *)
Definition same_address (apn apn' : AddressPortNetwork) : bool :=
  bool_decide (ap_address apn' = ap_address apn) && (ap_port apn' =? ap_port apn).

Definition update_peers (d : Sqlite) (apn : AddressPortNetwork) (f : PeerRow → PeerRow) : Sqlite :=
  set_peers d (map_imap (λ apn' row, Some (if same_address apn apn' then f row else row)) (peers d)).

(** [stmt.execute(request.into_params())] *)
Definition execute (d : Sqlite) (r : Request) : outcome Sqlite :=
  match r with
  | InsertHeader r =>
      number ← to_sql_u64 (ih_number r);
      Ok (match headers d !! ih_hash r with
          | Some _ => d
          | None => set_headers d (<[ ih_hash r := mkHeaderRow r false None ]> (headers d))
          end)
  | PeerRequested (InsertPeer apn first_seen) =>
      first_seen ← to_sql_u64 first_seen;
      match peers d !! apn with
      | Some _ => Err "UNIQUE constraint failed"
      | None => Ok (set_peers d (<[ apn := mkPeerRow first_seen None None None 0 ]> (peers d)))
      end
  | PeerRequested (DeletePeer apn) =>
      Ok (set_peers d (filter (λ '(apn', _), same_address apn apn' = false) (peers d)))
  | PeerRequested (BanPeer apn banned_at banned_until reasons) =>
      banned_at ← to_sql_u64 banned_at;
      banned_until ← to_sql_u64 banned_until;
      match banned_peers d !! (apn, banned_until) with
      | Some _ => Err "UNIQUE constraint failed"
      | None => Ok (mkSqlite (headers d) (peers d)
                      (<[ (apn, banned_until) := (banned_at, reasons) ]> (banned_peers d)) (block_stats d))
      end
  | PeerRequested (UpdatePeerFromVersion apn services block_height user_agent) =>
      services ← to_sql_u64 services;
      Ok (update_peers d apn (λ row,
            mkPeerRow (pr_first_seen row) (pr_first_online row) (Some user_agent) (Some block_height) services))
  | PeerRequested (UpdatePeerFirstOnline apn ts) =>
      ts ← to_sql_u64 ts;
      Ok (update_peers d apn (λ row,
            match pr_first_online row with
            | None => mkPeerRow (pr_first_seen row) (Some ts) (pr_user_agent row) (pr_height row) (pr_services row)
            | Some _ => row
            end))
  | UpdatePeerBlockHeight apn new_height =>
      Ok (update_peers d apn (λ row,
            mkPeerRow (pr_first_seen row) (pr_first_online row) (pr_user_agent row) (Some new_height) (pr_services row)))
  end.

(** The requests of a batch, in one transaction *)
Definition flush (d : Sqlite) (requests : list Request) : outcome Sqlite :=
  for_each (λ d r, unwrap (execute d r) "to flush batch requests") requests d.

(** ** Queries and updates outside of the queues *)

Definition get_all_peers (d : Sqlite) : list AddressPortNetwork := (map_to_list (peers d)).*1.

Definition get_peer (d : Sqlite) (apn : AddressPortNetwork) : outcome PeerRow :=
  ok_or (peers d !! apn) "Query returned no rows".

(** [UPDATE headers SET fetched_full = ?, coinbase_ascii = ? WHERE block_hash = ?] *)
Definition mark_row (t : gmap hash HeaderRow) (mark : hash * bytes) : gmap hash HeaderRow :=
  alter (λ row, mkHeaderRow (hr_data row) true (Some mark.2)) mark.1 t.

(** [INSERT OR REPLACE INTO block_stats]. SQLite stores a float that is not a number as [NULL], which no
    column of the table takes; they have no default that would replace it. *)
Definition insert_stats (t : gmap hash BlockMetrics) (row : hash * BlockMetrics) : outcome (gmap hash BlockMetrics) :=
  let '(h, m) := row in
  fees ← to_sql_u64 (fees_total m);
  volume ← to_sql_u64 (volume m);
  txs ← to_sql_u64 (txs_count m);
  if is_nan (average_fee_rate m) || is_nan (lowest_fee_rate m) || is_nan (highest_fee_rate m) || is_nan (median_fee_rate m)
  then Err "NOT NULL constraint failed"
  else Ok (<[ h := mkBlockMetrics fees volume txs (average_fee_rate m) (lowest_fee_rate m) (highest_fee_rate m) (median_fee_rate m) ]> t).

(** The rows that [Store.mark_blocks_as_downloaded] asks for, in one transaction; where one cannot be stored
    the whole panics, and nothing is written. *)
Definition apply_marks (d : Sqlite) (marks : list (hash * bytes) * list (hash * BlockMetrics)) : outcome Sqlite :=
  stats ← for_each (λ t row, unwrap (insert_stats t row) "to insert block_stats") marks.2 (block_stats d);
  Ok (mkSqlite (foldl mark_row (headers d) marks.1) (peers d) (banned_peers d) stats).

(** [UPDATE headers SET coinbase_ascii = ? WHERE block_hash = ?] *)
Definition set_ascii (t : gmap hash HeaderRow) (ascii : hash * bytes) : gmap hash HeaderRow :=
  alter (λ row, mkHeaderRow (hr_data row) (hr_fetched_full row) (Some ascii.2)) ascii.1 t.

Definition apply_asciis (d : Sqlite) (rows : list (hash * bytes)) : Sqlite :=
  set_headers d (foldl set_ascii (headers d) rows).

(** The rows that are updated, in one transaction *)
Definition update_coinbase_asciis (hashes : list hash) (coinbase_asciis : list bytes) : outcome (list (hash * bytes)) :=
  if bool_decide (length hashes = length coinbase_asciis) then Ok (zip hashes coinbase_asciis)
  else Panic "assertion failed".

Definition get_block_hashes_with_missing_coinbase_ascii (d : Sqlite) : list hash :=
  (map_to_list (filter (λ '(_, row), hr_coinbase_ascii row = None ∧ hr_fetched_full row = true) (headers d))).*1.
End statements.

(** * The queues at work *)

Definition BATCH_SIZE : nat := 2048.

(** A task of [batch_process_requests] and the channel to it, which holds one request. A task that
    panicked is not running any more. *)
Record Batcher := mkBatcher {
  channel : list Request;
  pending_requests : list Request;
  running : bool;
}.

(** The connection is behind a mutex, which a panic poisons: [lock().unwrap()] panics from then on. *)
Record Storage := mkStorage {
  CONNECTION : Sqlite;
  poisoned : bool;
  batchers : queue → Batcher;
}.

Definition set_batcher (s : Storage) (q : queue) (b : Batcher) : Storage :=
  mkStorage (CONNECTION s) (poisoned s) (λ q', if decide (q' = q) then b else batchers s q').

(** The tasks of all queues, started by [start_batcher]. In the code each starts with its first request. *)
Definition start_batchers (d : Sqlite) : Storage := mkStorage d false (λ _, mkBatcher [] [] true).

(** What may happen next: a request is sent, a task takes one from its channel or writes what it has,
    or one of the two other updates is made. *)
Inductive event :=
| Send (r : Request)
| Receive (q : queue)
| Flush (q : queue)
| Marks (marks : list (hash * bytes) * list (hash * BlockMetrics))
| Asciis (rows : list (hash * bytes)).

Section storage.
Context `{Rusqlite}.

(** [lock().unwrap()]: an update that panics, or that finds the mutex poisoned, writes nothing. *)
Definition with_connection (s : Storage) (f : Sqlite → outcome Sqlite) : Storage * bool :=
  if poisoned s then (s, false)
  else
    match f (CONNECTION s) with
    | Ok d => (mkStorage d false (batchers s), true)
    | _ => (mkStorage (CONNECTION s) true (batchers s), false)
    end.

(** [None] if it is not the time for the event: the channel is full or empty, the task has as many
    requests as it takes, or none to write. A sender whose task is gone panics. *)
Definition happen (s : Storage) (e : event) : option Storage :=
  match e with
  | Send r =>
      let b := batchers s (queue_of r) in
      if negb (running b) then Some s
      else match channel b with
           | [] => Some (set_batcher s (queue_of r) (mkBatcher [r] (pending_requests b) true))
           | _ => None
           end
  | Receive q =>
      let b := batchers s q in
      match channel b with
      | request :: rest =>
          if (running b && (length (pending_requests b) <? BATCH_SIZE)%nat)
          then Some (set_batcher s q (mkBatcher rest (pending_requests b ++ [request]) true)) else None
      | [] => None
      end
  | Flush q =>
      let b := batchers s q in
      if running b && negb (bool_decide (pending_requests b = [])) then
        let '(s, success) := with_connection s (λ d, flush d (pending_requests b)) in
        Some (set_batcher s q (mkBatcher (channel b) [] success))
      else None
  | Marks marks => Some (with_connection s (λ d, apply_marks d marks)).1
  | Asciis rows => Some (with_connection s (λ d, Ok (apply_asciis d rows))).1
  end.

Fixpoint run (s : Storage) (events : list event) : option Storage :=
  match events with
  | [] => Some s
  | e :: events => s ← happen s e; run s events
  end.

Definition sent_to (q : queue) (events : list event) : list Request :=
  omap (λ e, match e with Send r => if decide (queue_of r = q) then Some r else None | _ => None end) events.

(** * The database as a sequence of single writes *)

Inductive write :=
| Executed (r : Request)
| Marked (marks : list (hash * bytes) * list (hash * BlockMetrics))
| AsciisSet (rows : list (hash * bytes)).

Definition apply_write (d : Sqlite) (w : write) : outcome Sqlite :=
  match w with
  | Executed r => execute d r
  | Marked marks => apply_marks d marks
  | AsciisSet rows => Ok (apply_asciis d rows)
  end.

Definition replay (d : Sqlite) (log : list write) : outcome Sqlite := for_each apply_write log d.

Definition executed (q : queue) (log : list write) : list Request :=
  omap (λ w, match w with Executed r => if decide (queue_of r = q) then Some r else None | _ => None end) log.

Lemma replay_app d log1 log2 d1 : replay d log1 = Ok d1 → replay d (log1 ++ log2) = replay d1 log2.
Proof. intros Hr. unfold replay in *. by rewrite for_each_app, Hr. Qed.

Lemma executed_app q log1 log2 : executed q (log1 ++ log2) = executed q log1 ++ executed q log2.
Proof. unfold executed. apply omap_app. Qed.

Lemma sent_to_app q es1 es2 : sent_to q (es1 ++ es2) = sent_to q es1 ++ sent_to q es2.
Proof. unfold sent_to. apply omap_app. Qed.

Lemma executed_requests q rs :
  Forall (λ r, queue_of r = q) rs → ∀ q', executed q' (map Executed rs) = if decide (q' = q) then rs else [].
Proof.
  induction 1 as [|r rs Hr _ IH]; intros q'; [by case_decide|]. specialize (IH q'). unfold executed in *.
  cbn [map omap list_omap]. rewrite Hr, IH. do 2 case_decide; congruence.
Qed.

(** A batch that is written is written request by request. *)
Lemma flush_replay rs : ∀ d d', flush d rs = Ok d' → replay d (map Executed rs) = Ok d'.
Proof.
  induction rs as [|r rs IH]; intros d d' Hf; [done|]. unfold flush, replay in *. cbn [for_each map apply_write] in *.
  obind Hf. destruct (execute d r) as [d1| | |]; try done. injection Hv as <-. by apply IH.
Qed.

(** * What holds of the queues *)

Record batcher_ok (q : queue) (b : Batcher) : Prop := {
  bk_queue : Forall (λ r, queue_of r = q) (pending_requests b ++ channel b);
  bk_pending : (length (pending_requests b) ≤ BATCH_SIZE)%nat;
  bk_channel : (length (channel b) ≤ 1)%nat;
}.

(** The writes so far, and what is left of the requests to a queue *)
Definition written (d0 : Sqlite) (events : list event) (s : Storage) (log : list write) : Prop :=
  replay d0 log = Ok (CONNECTION s) ∧
  ∀ q, batcher_ok q (batchers s q) ∧
    ∃ rest, sent_to q events = executed q log ++ rest ∧
      (running (batchers s q) = true → rest = pending_requests (batchers s q) ++ channel (batchers s q)).

Lemma run_app events1 : ∀ s events2, run s (events1 ++ events2) = s1 ← run s events1; run s1 events2.
Proof. induction events1 as [|e es IH]; intros s events2; [done|]. cbn. by destruct (happen s e); cbn. Qed.

(** An update outside of the queues *)
Lemma update_written d0 events s log e w f :
  written d0 events s log → (∀ d, apply_write d w = f d) → (∀ q, executed q [w] = []) → (∀ q, sent_to q [e] = []) →
  ∃ log', written d0 (events ++ [e]) (with_connection s f).1 log'.
Proof.
  intros [Hr Hq] Hf Hw He. unfold with_connection.
  assert (∀ b, written d0 (events ++ [e]) (mkStorage (CONNECTION s) b (batchers s)) log) as Hnot.
  { intros b. split; [done|]. intros q. rewrite sent_to_app, He, app_nil_r. apply Hq. }
  destruct (poisoned s) eqn:Hp; cbn [fst].
  - exists log. specialize (Hnot true). rewrite <- Hp in Hnot. by destruct s.
  - destruct (f (CONNECTION s)) as [d| | |] eqn:Hd; cbn [fst]; [|by exists log..]. exists (log ++ [w]). split; cbn [CONNECTION batchers].
    + rewrite (replay_app _ _ _ _ Hr). unfold replay. cbn [for_each]. by rewrite Hf, Hd.
    + intros q. rewrite sent_to_app, He, executed_app, Hw, !app_nil_r. apply Hq.
Qed.

Lemma set_batcher_eq s q b : batchers (set_batcher s q b) q = b.
Proof. cbn. by rewrite decide_True. Qed.

Lemma set_batcher_ne s q q' b : q' ≠ q → batchers (set_batcher s q b) q' = batchers s q'.
Proof. intros Hne. cbn. by rewrite decide_False. Qed.

(** An event that only changes the task of one queue *)
Lemma task_written d0 events s log e q b :
  written d0 events s log → batcher_ok q b →
  (∀ q', q' ≠ q → sent_to q' [e] = []) →
  (running b = true → running (batchers s q) = true ∧
    pending_requests b ++ channel b = pending_requests (batchers s q) ++ channel (batchers s q) ++ sent_to q [e]) →
  written d0 (events ++ [e]) (set_batcher s q b) log.
Proof.
  intros [Hr Hq] Hb He Hsame. split; [done|]. intros q'. destruct (decide (q' = q)) as [->|Hne].
  - rewrite set_batcher_eq. split; [done|]. destruct (Hq q) as (_ & rest & Hs & Hrun). exists (rest ++ sent_to q [e]).
    rewrite sent_to_app, Hs, app_assoc. split; [done|]. intros Hb'. destruct (Hsame Hb') as [Hrs ->].
    by rewrite Hrun, <- app_assoc.
  - rewrite set_batcher_ne, sent_to_app, He, app_nil_r by done. apply Hq.
Qed.

(** A batch *)
Lemma flush_written d0 events s log q :
  written d0 events s log → running (batchers s q) = true → poisoned s = false →
  let rs := pending_requests (batchers s q) in
  ∀ d, flush (CONNECTION s) rs = Ok d →
  written d0 (events ++ [Flush q])
    (set_batcher (mkStorage d false (batchers s)) q (mkBatcher (channel (batchers s q)) [] true)) (log ++ map Executed rs).
Proof.
  intros [Hr Hq] Hrun Hp rs d Hd. destruct (Hq q) as ([Hk1 Hk2 Hk3] & rest & Hs & Hrest). specialize (Hrest Hrun).
  assert (Forall (λ r, queue_of r = q) rs) as Hrs by (by apply Forall_app in Hk1 as [? _]).
  split.
  - rewrite (replay_app _ _ _ _ Hr). apply flush_replay, Hd.
  - intros q'. rewrite sent_to_app, executed_app, (executed_requests q rs Hrs q'), app_nil_r.
    destruct (decide (q' = q)) as [->|Hne].
    + rewrite set_batcher_eq. split.
      * apply Forall_app in Hk1 as [_ Hk1]. constructor; [done|cbn; lia|done].
      * exists (channel (batchers s q)). rewrite Hs, Hrest. split; [by rewrite <- app_assoc|done].
    + rewrite set_batcher_ne by done. cbn [batchers]. rewrite app_nil_r. apply Hq.
Qed.

Lemma happen_written d0 events s log e s' :
  written d0 events s log → happen s e = Some s' → ∃ log', written d0 (events ++ [e]) s' log'.
Proof.
  intros Hw He. pose proof Hw as [Hr Hq]. destruct e as [r|q|q|marks|rows]; cbn [happen] in He.
  - destruct (running (batchers s (queue_of r))) eqn:Hrun; cbn [negb] in He.
    + destruct (channel (batchers s (queue_of r))) as [|] eqn:Hc; [|done]. injection He as <-. exists log.
      destruct (Hq (queue_of r)) as ([Hk1 Hk2 Hk3] & _). rewrite Hc, app_nil_r in Hk1.
      apply (task_written _ _ _ _ _ _ _ Hw).
      * constructor; cbn [pending_requests channel]; [by apply Forall_app; split; [done|apply Forall_singleton]|done|done].
      * intros q' Hne. cbn. by rewrite decide_False.
      * intros _. split; [done|]. cbn. by rewrite Hc, decide_True.
    + injection He as <-. exists log. split; [done|]. intros q. destruct (Hq q) as (Hok & rest & Hs & Hrest). split; [done|].
      exists (rest ++ sent_to q [Send r]). rewrite sent_to_app, Hs, app_assoc. split; [done|]. intros Hrun'.
      cbn. rewrite decide_False by congruence. rewrite app_nil_r. by apply Hrest.
  - destruct (channel (batchers s q)) as [|request rest] eqn:Hc; [done|].
    destruct (running (batchers s q)) eqn:Hrun; [|done]. cbn [andb] in He.
    destruct (Nat.ltb_spec (length (pending_requests (batchers s q))) BATCH_SIZE) as [Hlt|]; [|done]. injection He as <-. exists log.
    destruct (Hq q) as ([Hk1 Hk2 Hk3] & _). rewrite Hc in Hk1, Hk3. cbn in Hk3.
    apply (task_written _ _ _ _ _ _ _ Hw).
    + constructor; cbn [pending_requests channel]; [by rewrite <- app_assoc|rewrite length_app; cbn; lia|lia].
    + done.
    + intros _. split; [done|]. cbn. by rewrite Hc, app_nil_r, <- app_assoc.
  - destruct (running (batchers s q)) eqn:Hrun; [|done]. cbn [andb] in He.
    destruct (negb _); [|done]. destruct (with_connection s _) as [s1 success] eqn:Hc. injection He as <-.
    assert (batchers s1 = batchers s ∧ CONNECTION s1 = CONNECTION s → success = false →
      written d0 (events ++ [Flush q]) (set_batcher s1 q (mkBatcher (channel (batchers s q)) [] success)) log) as Hfail.
    { intros [Hb Hd] ->. destruct (Hq q) as ([Hk1 Hk2 Hk3] & _). apply Forall_app in Hk1 as [_ Hk1].
      split; [by rewrite <- Hd in Hr|]. intros q'. rewrite sent_to_app, app_nil_r. destruct (decide (q' = q)) as [->|Hne].
      - rewrite set_batcher_eq. split; [by constructor; [..|cbn; lia|]|]. destruct (Hq q) as (_ & rest & Hs & _). by exists rest.
      - rewrite set_batcher_ne, Hb by done. apply Hq. }
    unfold with_connection in Hc. destruct (poisoned s) eqn:Hp; [injection Hc as <- <-; exists log; by apply Hfail|].
    destruct (flush (CONNECTION s) (pending_requests (batchers s q))) as [d| | |] eqn:Hf; injection Hc as <- <-;
      try (exists log; by apply Hfail). eexists. by apply flush_written.
  - injection He as <-. by apply (update_written _ _ _ _ _ (Marked marks) (λ d, apply_marks d marks) Hw).
  - injection He as <-. by apply (update_written _ _ _ _ _ (AsciisSet rows) (λ d, Ok (apply_asciis d rows)) Hw).
Qed.

Lemma run_written d0 events s : run (start_batchers d0) events = Some s → ∃ log, written d0 events s log.
Proof.
  revert s. induction events as [|e events IH] using rev_ind; intros s Hrun.
  - injection Hrun as <-. exists []. split; [done|]. intros q. split; [by constructor; cbn; [|lia..]|]. by exists [].
  - rewrite run_app in Hrun. destruct (run (start_batchers d0) events) as [s1|]; [|done]. cbn in Hrun.
    destruct (happen s1 e) as [s2|] eqn:He; [|done]. injection Hrun as <-. destruct (IH s1 eq_refl) as [log Hw].
    by eapply happen_written.
Qed.

(** * A value that SQLite cannot store *)

Lemma apply_marks_headers d d' marks : apply_marks d marks = Ok d' → headers d' = foldl mark_row (headers d) marks.1.
Proof. unfold apply_marks. intros Ha. obind Ha. by injection Ha as <-. Qed.

(** Metrics as SQLite can store them *)
Definition storable (m : BlockMetrics) : Prop :=
  0 <= fees_total m < 2 ^ 63 ∧ 0 <= volume m < 2 ^ 63 ∧ 0 <= txs_count m < 2 ^ 63 ∧
  is_nan (average_fee_rate m) = false ∧ is_nan (lowest_fee_rate m) = false ∧
  is_nan (highest_fee_rate m) = false ∧ is_nan (median_fee_rate m) = false.

Lemma insert_stats_ok t h m : storable m → insert_stats t (h, m) = Ok (<[ h := m ]> t).
Proof.
  intros (Hf & Hv & Ht & Ha & Hl & Hh & Hm). unfold insert_stats. rewrite !to_sql_u64_ok by done.
  cbn [mbind outcome_bind]. rewrite Ha, Hl, Hh, Hm. cbn [orb]. by destruct m.
Qed.

Lemma apply_marks_ok d marks :
  Forall (λ row, storable row.2) marks.2 →
  apply_marks d marks = Ok (mkSqlite (foldl mark_row (headers d) marks.1) (peers d) (banned_peers d)
    (foldl (λ t '(h, m), <[ h := m ]> t) (block_stats d) marks.2)).
Proof.
  intros Hs. unfold apply_marks. assert (∀ t, for_each (λ t row, unwrap (insert_stats t row) "to insert block_stats") marks.2 t
    = Ok (foldl (λ t '(h, m), <[ h := m ]> t) t marks.2)) as ->; [|done].
  induction Hs as [|[h m] rows Hm _ IH]; intros t; [done|]. cbn [for_each foldl]. cbn [snd] in Hm.
  rewrite insert_stats_ok by done. apply IH.
Qed.

(** A volume of more than SQLite's integers hold, in one of the blocks of a flush: none is marked, and the
    connection is poisoned. *)
Lemma metrics_poison s rows h m stats :
  (h, m) ∈ stats → 2 ^ 63 <= volume m < 2 ^ 64 → poisoned s = false →
  happen s (Marks (rows, stats)) = Some (mkStorage (CONNECTION s) true (batchers s)).
Proof.
  intros Hin Hv Hp. cbn [happen]. unfold with_connection. rewrite Hp.
  assert (∀ t t', for_each (λ t row, unwrap (insert_stats t row) "to insert block_stats") stats t ≠ Ok t') as Hfail.
  { induction stats as [|row stats IH]; [by apply not_elem_of_nil in Hin|]. intros t t'. cbn [for_each].
    apply elem_of_cons in Hin as [<-|Hin].
    - unfold insert_stats. destruct (to_sql_u64_err (volume m) Hv) as [e He].
      destruct (to_sql_u64 (fees_total m)); cbn [mbind outcome_bind]; [|done..]. by rewrite He.
    - destruct (unwrap _ _); cbn [mbind outcome_bind]; [|done..]. by apply IH. }
  unfold apply_marks. cbn [snd]. specialize (Hfail (block_stats (CONNECTION s))).
  destruct (for_each _ stats _) as [t| | |]; [by destruct (Hfail t)|done..].
Qed.

Lemma execute_services d apn services block_height user_agent :
  2 ^ 63 <= services < 2 ^ 64 →
  ∃ e, execute d (PeerRequested (UpdatePeerFromVersion apn services block_height user_agent)) = Err e.
Proof. intros Hs. destruct (to_sql_u64_err services Hs) as [e He]. exists e. cbn. by rewrite He. Qed.

Lemma flush_fails r rs : (∀ d, ∃ e, execute d r = Err e) → r ∈ rs → ∀ d d', flush d rs ≠ Ok d'.
Proof.
  intros Hr Hin. induction rs as [|r' rs IH]; [by apply not_elem_of_nil in Hin|]. intros d d' Hf.
  unfold flush in Hf. cbn [for_each] in Hf. obind Hf. apply elem_of_cons in Hin as [->|Hin].
  - destruct (Hr d) as [e He]. by rewrite He in Hv.
  - exact (IH Hin v d' Hf).
Qed.

Lemma poisoned_for_ever events : ∀ s s',
  poisoned s = true → run s events = Some s' → poisoned s' = true ∧ CONNECTION s' = CONNECTION s.
Proof.
  induction events as [|e events IH]; intros s s' Hp Hrun; [by injection Hrun as <-|]. cbn in Hrun.
  destruct (happen s e) as [s1|] eqn:He; [|done]. cbn in Hrun.
  assert (poisoned s1 = true ∧ CONNECTION s1 = CONNECTION s) as [Hp1 <-]; [|by apply IH].
  destruct e as [r|q|q|marks|rows]; cbn [happen] in He; unfold with_connection in He; rewrite ?Hp in He;
    repeat case_match; simplify_eq; done.
Qed.
End storage.

(** * The rows of headers *)

Definition header_requests (rs : list Request) : list InsertHeaderRequest :=
  omap (λ r, match r with InsertHeader r => Some r | _ => None end) rs.

(** The row of a header is that of its first request. *)
Definition first_request (rs : list InsertHeaderRequest) (h : hash) : option InsertHeaderRequest :=
  head (filter (λ r, ih_hash r = h) rs).

Lemma first_request_app rs1 rs2 h :
  first_request (rs1 ++ rs2) h = match first_request rs1 h with Some r => Some r | None => first_request rs2 h end.
Proof. unfold first_request. rewrite filter_app. by destruct (filter _ rs1). Qed.

Lemma first_request_Some rs h r : first_request rs h = Some r → r ∈ rs ∧ ih_hash r = h.
Proof.
  intros Hr%head_Some_elem_of. by apply list_elem_of_filter in Hr as [? ?].
Qed.

Lemma first_request_None rs h : first_request rs h = None → ∀ r, r ∈ rs → ih_hash r ≠ h.
Proof.
  unfold first_request. intros Hr r Hin Hh. assert (r ∈ filter (λ r, ih_hash r = h) rs) as Hf by by apply list_elem_of_filter.
  destruct (filter _ rs); [by apply not_elem_of_nil in Hf|done].
Qed.

Lemma mark_rows_data marks : ∀ (t : gmap hash HeaderRow) h, hr_data <$> foldl mark_row t marks !! h = hr_data <$> t !! h.
Proof.
  induction marks as [|[k a] marks IH]; intros t h; [done|]. cbn [foldl]. rewrite IH. unfold mark_row. cbn [fst snd].
  destruct (decide (k = h)) as [->|Hne]; [rewrite lookup_alter_eq; by destruct (t !! h)|by rewrite lookup_alter_ne].
Qed.

Lemma ascii_rows_data rows : ∀ (t : gmap hash HeaderRow) h, hr_data <$> foldl set_ascii t rows !! h = hr_data <$> t !! h.
Proof.
  induction rows as [|[k a] rows IH]; intros t h; [done|]. cbn [foldl]. rewrite IH. unfold set_ascii. cbn [fst snd].
  destruct (decide (k = h)) as [->|Hne]; [rewrite lookup_alter_eq; by destruct (t !! h)|by rewrite lookup_alter_ne].
Qed.

Section rows.
Context `{Rusqlite}.

(** Only the requests of their queue add rows of headers. *)
Lemma execute_headers d r d' h :
  execute d r = Ok d' →
  hr_data <$> headers d' !! h = match hr_data <$> headers d !! h with
    | Some x => Some x
    | None => first_request (header_requests (if decide (queue_of r = INSERT_HEADER_QUEUE) then [r] else [])) h
    end.
Proof.
  destruct r as [r|[apn t|apn|apn t u rs|apn sv bh ua|apn t]|apn n]; cbn [execute queue_of]; intros He;
    repeat obind He; try (rewrite decide_False by done);
    try (repeat case_match; try done; injection He as <-; cbn; by destruct (headers d !! h)).
  rewrite decide_True by done. injection He as <-. unfold header_requests, first_request. cbn [omap list_omap].
  destruct (headers d !! ih_hash r) as [row|] eqn:Hrow.
  - destruct (headers d !! h) as [row'|] eqn:Hh; [done|]. cbn [fmap option_fmap option_map].
    rewrite filter_cons_False, filter_nil; [done|]. congruence.
  - cbn [headers set_headers]. destruct (decide (ih_hash r = h)) as [<-|Hne].
    + rewrite lookup_insert_eq, Hrow. cbn [fmap option_fmap option_map]. by rewrite filter_cons_True.
    + rewrite lookup_insert_ne by done. destruct (headers d !! h); [done|]. cbn [fmap option_fmap option_map]. by rewrite filter_cons_False.
Qed.

Lemma replay_headers log : ∀ d d' h, replay d log = Ok d' →
  hr_data <$> headers d' !! h = match hr_data <$> headers d !! h with
    | Some x => Some x
    | None => first_request (header_requests (executed INSERT_HEADER_QUEUE log)) h
    end.
Proof.
  induction log as [|w log IH]; intros d d' h Hr; [injection Hr as <-; by destruct (headers d !! h)|].
  unfold replay in Hr. cbn [for_each] in Hr. obind Hr. rewrite (IH _ _ h Hr). clear IH Hr.
  destruct w as [r|marks|rows]; cbn [apply_write] in Hv.
  - rewrite (execute_headers _ _ _ h Hv). unfold executed. cbn [omap list_omap]. case_decide.
    + destruct (hr_data <$> headers d !! h); [done|]. change (?r :: ?l) with ([r] ++ l). unfold header_requests at 3.
      rewrite omap_app, first_request_app. done.
    + by destruct (headers d !! h).
  - rewrite (apply_marks_headers _ _ _ Hv). by rewrite mark_rows_data.
  - injection Hv as <-. cbn [headers apply_asciis set_headers]. by rewrite ascii_rows_data.
Qed.
End rows.

(** * Properties *)

(** C9. However the tasks of the queues take turns, and whenever the process ends: the database is the
    result of single writes, one after the other, among which the requests to a queue are in the order
    in which they were sent, each once. Unless its task panicked, a queue is behind by a batch
    and one request at most. *)
Theorem writes_in_order `{Rusqlite} d0 events s :
  run (start_batchers d0) events = Some s →
  ∃ log, replay d0 log = Ok (CONNECTION s) ∧
    ∀ q, ∃ rest, sent_to q events = executed q log ++ rest ∧
      (running (batchers s q) = true →
        rest = pending_requests (batchers s q) ++ channel (batchers s q) ∧ (length rest ≤ BATCH_SIZE + 1)%nat).
Proof.
  intros [log [Hr Hq]]%run_written. exists log. split; [done|]. intros q. destruct (Hq q) as ([_ Hp Hc] & rest & Hs & Hrest).
  exists rest. split; [done|]. intros Hrun. rewrite Hrest by done. split; [done|]. rewrite length_app. lia.
Qed.

(** The services that a peer claims in its [version] are any number of 64 bits. With the top
    bit set they cannot be stored: the batch that they are in is lost, the connection is poisoned, and
    nothing is ever written again, neither headers nor the marks of blocks. *)
Theorem services_poison `{Rusqlite} s s' apn services block_height user_agent events s'' :
  2 ^ 63 <= services < 2 ^ 64 →
  PeerRequested (UpdatePeerFromVersion apn services block_height user_agent)
    ∈ pending_requests (batchers s UPDATE_PEER_FROM_VERSION_QUEUE) →
  poisoned s = false → happen s (Flush UPDATE_PEER_FROM_VERSION_QUEUE) = Some s' → run s' events = Some s'' →
  poisoned s' = true ∧ CONNECTION s'' = CONNECTION s.
Proof.
  intros Hs Hin Hp Hf Hrun. cbn [happen] in Hf. destruct (running _); [|done]. cbn [andb] in Hf.
  destruct (negb _); [|done]. unfold with_connection in Hf. rewrite Hp in Hf.
  pose proof (flush_fails _ _ (λ d, execute_services d apn services block_height user_agent Hs) Hin (CONNECTION s)) as Hfail.
  destruct (flush _ _) as [d| | |]; [by destruct (Hfail d)|..];
    injection Hf as <-; (split; [done|]); (apply poisoned_for_ever in Hrun as [_ Hc]; [exact Hc|reflexivity]).
Qed.

(** * Examples *)

Module ToySqlite.
#[export] Instance toy_rusqlite : Rusqlite.
Proof.
  refine {| to_sql_u64 := λ v, if v <? 2 ^ 63 then Ok v else Err "out of range" |}.
  - intros v Hv. by rewrite (proj2 (Z.ltb_lt _ _)) by lia.
  - intros v Hv. rewrite (proj2 (Z.ltb_ge _ _)) by lia. by eexists.
Defined.

Definition toy_sqlite : Sqlite := mkSqlite ∅ ∅ ∅ ∅.

(** A peer is seen and connected to, with services that are all ones. *)
Definition seen_peer : Request := PeerRequested (InsertPeer (toy_apn 1) 5).
Definition odd_version : Request := PeerRequested (UpdatePeerFromVersion (toy_apn 1) (2 ^ 64 - 1) 0 []).
Definition toy_events : list event :=
  [Send seen_peer; Receive INSERT_PEER_QUEUE; Send odd_version; Receive UPDATE_PEER_FROM_VERSION_QUEUE;
   Flush INSERT_PEER_QUEUE].
End ToySqlite.
Import ToySqlite.

Definition toy_storage : Storage := default (start_batchers toy_sqlite) (run (start_batchers toy_sqlite) toy_events).

Lemma toy_storage_run : run (start_batchers toy_sqlite) toy_events = Some toy_storage.
Proof. reflexivity. Qed.

Lemma writes_in_order_witness : ∃ log,
  replay toy_sqlite log = Ok (CONNECTION toy_storage) ∧ executed INSERT_PEER_QUEUE log = [seen_peer].
Proof.
  destruct (writes_in_order toy_sqlite toy_events toy_storage toy_storage_run) as (log & Hr & Hq).
  exists log. split; [exact Hr|]. destruct (Hq INSERT_PEER_QUEUE) as (rest & Hs & Hrest).
  destruct Hrest as [Hrest _]; [reflexivity|]. change (pending_requests _ ++ channel _) with ([] : list Request) in Hrest.
  rewrite Hrest, app_nil_r in Hs. exact (eq_sym Hs).
Defined.

Lemma services_poison_witness : ∃ s',
  happen toy_storage (Flush UPDATE_PEER_FROM_VERSION_QUEUE) = Some s' ∧ poisoned s' = true.
Proof.
  eexists. split; [reflexivity|].
  refine (proj1 (services_poison toy_storage _ (toy_apn 1) (2 ^ 64 - 1) 0 [] [] _ _ _ _ _ _)).
  - split; [discriminate|reflexivity].
  - apply list_elem_of_here.
  - reflexivity.
  - reflexivity.
  - reflexivity.
Defined.
