(* ===== verification/Restart.v ===== *)
(** [get_all_headers] of [src/db/sqlite.rs] with the start of [src/chainman/mod.rs]: the chain that is
    read back when the program starts, and how it relates to the chain that was kept in memory when the
    program ended. *)
From stdpp Require Import sorting.
From S2P Require Import Prelude.
From S2P Require Import Extern.
From S2P Require Import Pow.
From S2P Require Import Header.
From S2P Require Import Loops.
From S2P Require Import Chain.
From S2P Require Import ChainMan.
From S2P Require Import Process.
From S2P Require Import OnlineList.
From S2P Require Import Peers.
From S2P Require Import Sqlite.

(** * Reading the rows *)

Abbreviation row_hash row := (ih_hash (hr_data row)).

Definition header_of_row (row : HeaderRow) : BlockHeader :=
  let r := hr_data row in
  mkBlockHeader (ih_version r) (ih_parent r) (ih_merkle_root r) (ih_timestamp r) (ih_bits r) (ih_nonce r) 0 (ih_hash r).

Definition before (a b : HeaderRow) : Prop := ih_number (hr_data a) <= ih_number (hr_data b).

#[local] Instance before_dec : RelDecision before := λ a b, Z_le_dec (ih_number (hr_data a)) (ih_number (hr_data b)).
#[local] Instance before_total : Total before.
Proof. intros a b. unfold before. lia. Qed.
#[local] Instance before_trans : Transitive before.
Proof. intros a b d. unfold before. lia. Qed.

Section reading.
Context `{Sha256, U256Lib}.

(** A row, with the work up to every header that was read and the headers that are fetched along with
    all their ancestors. A row whose parent was not read is an error, and errors are left out. *)
Definition read_row (s : gmap hash Z * gset hash) (row : HeaderRow) :
    outcome (gmap hash Z * gset hash * option BlockHeaderWithNumber) :=
  let '(work_totals, parents_fetched) := s in
  let header := header_of_row row in
  match work_totals !! bh_parent header with
  | None => Ok (work_totals, parents_fetched, None)
  | Some parent_work =>
      work ← get_work header;
      our_work ← u256_add parent_work work;
      let work_totals := <[ bh_hash header := our_work ]> work_totals in
      let is_parent_fetched := bool_decide (bh_parent header ∈ parents_fetched) in
      let actually_fetched := is_parent_fetched && hr_fetched_full row in
      let parents_fetched := if actually_fetched then parents_fetched ∪ {[ bh_hash header ]} else parents_fetched in
      let coinbase_ascii := if actually_fetched then from_utf8_lossy <$> hr_coinbase_ascii row else None in
      Ok (work_totals, parents_fetched,
          Some (mkBlockHeaderWithNumber header (ih_number (hr_data row)) actually_fetched our_work coinbase_ascii))
  end.

(** The header without a parent stands on no work. *)
Definition read_start : gmap hash Z * gset hash := ({[ EMPTY_HASH := 0 ]}, {[ EMPTY_HASH ]}).

(** The rows are those of the table, [ORDER BY block_number ASC]. *)
Definition get_all_headers (rows : list HeaderRow) : outcome (list BlockHeaderWithNumber) :=
  '(_, result) ← for_each (λ '(s, result) row,
      '(s, header) ← read_row s row; Ok (s, result ++ option_list header))
    rows (read_start, []);
  Ok result.

(** What the query may give: the order of rows with the same number is not determined. *)
Definition selected (t : gmap hash HeaderRow) (rows : list HeaderRow) : Prop :=
  rows ≡ₚ (map_to_list t).*2 ∧ StronglySorted before rows.

(** One of the results *)
Definition select_headers (t : gmap hash HeaderRow) : list HeaderRow := merge_sort before (map_to_list t).*2.

(** The start of the program, with these rows *)
Definition chainman_start (fuel : nat) (rows : list HeaderRow) : comp ChainMan :=
  c ← Finished Chain_default;
  headers ← Finished (get_all_headers rows);
  load_headers_from_sqlite (mkChainMan c 0 0 0 []) fuel headers.

(** * The rows that are read *)

Section rows.
Context (c : Chain) (rows : list HeaderRow).
Context (Hwf : chain_wf c).
Context (Hroot : ∀ h x, known_headers c !! h = Some x → bn_number x = 0 → get_work (bn_header x) = Ok (bn_total_work x)).
Context (Hrows : ∀ row, row ∈ rows → ∃ x, known_headers c !! row_hash row = Some x ∧ insert_header_request x = hr_data row).
Context (Hsorted : StronglySorted before rows).

Definition row_hashes (l : list HeaderRow) : list hash := map (λ row, row_hash row) l.
Definition fetched_hashes (l : list HeaderRow) : list hash := row_hashes (List.filter hr_fetched_full l).

(** The header and all its ancestors are among some *)
Definition all_among (l : list hash) (x : BlockHeaderWithNumber) : bool :=
  forallb (λ a, bool_decide (bn_hash a ∈ l)) (ancestors c x).

Definition kept (x : BlockHeaderWithNumber) : bool := all_among (row_hashes rows) x.
Definition kept_fetched (x : BlockHeaderWithNumber) : bool := all_among (fetched_hashes rows) x.

Definition restored (x : BlockHeaderWithNumber) (row : HeaderRow) : BlockHeaderWithNumber :=
  mkBlockHeaderWithNumber (header_of_row row) (ih_number (hr_data row)) (kept_fetched x) (bn_total_work x)
    (if kept_fetched x then from_utf8_lossy <$> hr_coinbase_ascii row else None).

Definition loaded (row : HeaderRow) : option BlockHeaderWithNumber :=
  match known_headers c !! row_hash row with
  | Some x => if kept x then Some (restored x row) else None
  | None => None
  end.

Lemma all_among_elem l x : all_among l x = true ↔ ∀ a, a ∈ ancestors c x → bn_hash a ∈ l.
Proof.
  unfold all_among. rewrite forallb_forall. split.
  - intros Ha a Hin. apply list_elem_of_In, Ha in Hin. by apply bool_decide_eq_true in Hin.
  - intros Ha a Hin. apply bool_decide_eq_true, Ha, list_elem_of_In, Hin.
Qed.

Lemma all_among_root l x : bn_number x = 0 → all_among l x = bool_decide (bn_hash x ∈ l).
Proof. intros Hx. unfold all_among. rewrite ancestors_root by done. cbn. by rewrite andb_true_r. Qed.

Lemma all_among_cons l x p :
  known_headers c !! bn_parent x = Some p → bn_number x = bn_number p + 1 →
  all_among l x = bool_decide (bn_hash x ∈ l) && all_among l p.
Proof.
  intros Hp Hn. unfold all_among. rewrite (ancestors_cons c x p); [done| |done|done].
  by apply (wf_number c Hwf) in Hp as [? _].
Qed.

Lemma all_among_self l x : all_among l x = true → bn_hash x ∈ l.
Proof. rewrite all_among_elem. intros Ha. apply Ha. destruct (ancestors_head c x) as [l' ->]. apply list_elem_of_here. Qed.

Lemma elem_of_row_hashes l h : h ∈ row_hashes l ↔ ∃ row, row ∈ l ∧ row_hash row = h.
Proof. unfold row_hashes. rewrite (list_elem_of_fmap (λ row, row_hash row)). naive_solver. Qed.

Lemma elem_of_fetched_hashes l h : h ∈ fetched_hashes l ↔ ∃ row, row ∈ l ∧ row_hash row = h ∧ hr_fetched_full row = true.
Proof.
  unfold fetched_hashes. rewrite elem_of_row_hashes. split.
  - intros (row & Hin & <-). apply list_elem_of_In, List.filter_In in Hin as [Hin Hf]. exists row. by rewrite list_elem_of_In.
  - intros (row & Hin & <- & Hf). exists row. split; [|done]. apply list_elem_of_In, List.filter_In. by rewrite <- list_elem_of_In.
Qed.

Lemma kept_fetched_kept x : kept_fetched x = true → kept x = true.
Proof.
  unfold kept, kept_fetched. rewrite !all_among_elem. intros Hf a Ha.
  apply Hf, elem_of_fetched_hashes in Ha as (row & Hin & <- & _). apply elem_of_row_hashes. by exists row.
Qed.
Context (Hnodup : NoDup (row_hashes rows)).

Lemma row_flag row : row ∈ rows → bool_decide (row_hash row ∈ fetched_hashes rows) = hr_fetched_full row.
Proof.
  intros Hin. destruct (hr_fetched_full row) eqn:Hf.
  - apply bool_decide_eq_true, elem_of_fetched_hashes. by exists row.
  - apply bool_decide_eq_false. intros (row' & Hin' & Hh & Hf')%elem_of_fetched_hashes.
    assert (row' = row) as ->; [|congruence]. clear -Hnodup Hin Hin' Hh.
    induction rows as [|r l IH]; [by apply not_elem_of_nil in Hin|]. apply NoDup_cons in Hnodup as [Hr Hn].
    assert (∀ r', r' ∈ l → row_hash r ≠ row_hash r') as Hne by (intros r' Hr' Heq; apply Hr, elem_of_row_hashes; by exists r').
    apply elem_of_cons in Hin as [->|Hin], Hin' as [->|Hin']; [done| | |by apply IH].
    + by destruct (Hne row' Hin').
    + by destruct (Hne row Hin).
Qed.

(** A row and its header agree. *)
Lemma row_header row : row ∈ rows → ∃ x, known_headers c !! row_hash row = Some x ∧
  insert_header_request x = hr_data row ∧ bn_hash x = row_hash row ∧ in_chain c x ∧ row_hash row ≠ EMPTY_HASH ∧
  bh_parent (header_of_row row) = bn_parent x ∧ get_work (header_of_row row) = get_work (bn_header x) ∧
  ih_number (hr_data row) = bn_number x.
Proof.
  intros Hin. destruct (Hrows row Hin) as (x & Hx & Hr). exists x. pose proof (wf_key c Hwf _ _ Hx) as Hk.
  split_and!; [done|done|done|by eapply in_chain_known| | | |].
  - intros He. rewrite He, (wf_empty c Hwf) in Hx. done.
  - unfold header_of_row. by rewrite <- Hr.
  - unfold get_work, header_of_row. by rewrite <- Hr.
  - by rewrite <- Hr.
Qed.

(** Parents are read before their children. *)
Lemma parent_read read row rest x p :
  rows = read ++ row :: rest → known_headers c !! row_hash row = Some x → insert_header_request x = hr_data row →
  known_headers c !! bn_parent x = Some p → bn_number x = bn_number p + 1 →
  bn_parent x ∈ row_hashes rows → bn_parent x ∈ row_hashes read.
Proof.
  intros Hr Hx Hreq Hp Hn (row' & Hin & Hh)%elem_of_row_hashes. apply elem_of_row_hashes. exists row'. split; [|done].
  destruct (row_header row' Hin) as (p' & Hp' & Hreq' & _ & _ & _ & _ & _ & Hnp). rewrite Hh, Hp in Hp'. injection Hp' as <-.
  assert (ih_number (hr_data row) = bn_number x) as Hnx by by rewrite <- Hreq.
  rewrite Hr in Hin, Hsorted. apply elem_of_app in Hin as [Hin|Hin]; [done|]. exfalso.
  assert (before row row') as Hb; [|unfold before in Hb; lia].
  apply elem_of_cons in Hin as [->|Hin]; [unfold before; lia|].
  clear -Hsorted Hin. induction read as [|r read IH]; cbn in Hsorted.
  - apply StronglySorted_inv in Hsorted as [_ Ha]. rewrite Forall_forall in Ha. by apply Ha.
  - apply StronglySorted_inv in Hsorted as [Hs _]. by apply IH.
Qed.

(** What the loop knows after some of the rows *)
Record read_ok (read : list HeaderRow) (s : gmap hash Z * gset hash) : Prop := {
  rd_work h : s.1 !! h = if decide (h = EMPTY_HASH) then Some 0 else
    match known_headers c !! h with
    | Some x => if bool_decide (h ∈ row_hashes read) && kept x then Some (bn_total_work x) else None
    | None => None
    end;
  rd_fetched h : h ∈ s.2 ↔ h = EMPTY_HASH ∨
    ∃ x, known_headers c !! h = Some x ∧ h ∈ row_hashes read ∧ kept_fetched x = true;
}.

Lemma row_hashes_snoc read row h : h ∈ row_hashes (read ++ [row]) ↔ h ∈ row_hashes read ∨ h = row_hash row.
Proof. unfold row_hashes. rewrite map_app, elem_of_app. cbn [map]. by rewrite list_elem_of_singleton. Qed.

(** The parent of a row: its work if it is kept, and whether it is fetched *)
Lemma parent_state read row rest x s :
  rows = read ++ row :: rest → read_ok read s →
  known_headers c !! row_hash row = Some x → insert_header_request x = hr_data row → bn_hash x = row_hash row →
  ∃ work, get_work (bn_header x) = Ok work ∧ in_u256 work ∧
    (s.1 !! bn_parent x = if kept x then Some (bn_total_work x - work) else None) ∧
    in_u256 (bn_total_work x - work) ∧
    bool_decide (bn_parent x ∈ s.2) && hr_fetched_full row = kept_fetched x.
Proof.
  intros Hr [Hw Hf] Hx Hreq Hh. assert (row ∈ rows) as Hin by (rewrite Hr; apply elem_of_app; right; apply list_elem_of_here).
  pose proof (wf_work c Hwf _ _ Hx) as Hu. pose proof (row_flag row Hin) as Hflag. rewrite <- Hh in Hflag.
  assert (bool_decide (bn_hash x ∈ row_hashes rows) = true) as Hself
    by (apply bool_decide_eq_true, elem_of_row_hashes; by exists row).
  destruct (decide (bn_number x = 0)) as [Hz|Hz].
  - exists (bn_total_work x). pose proof (proj1 (wf_root c Hwf _ _ Hx) Hz) as Hp. rewrite Hp.
    split_and!; [by eapply Hroot|done| | |].
    + rewrite Hw, decide_True by done. unfold kept. rewrite all_among_root, Hself by done. f_equal. lia.
    + unfold in_u256 in *. lia.
    + unfold kept_fetched. rewrite all_among_root, Hflag, bool_decide_true by (done || apply Hf; by left). done.
  - destruct (wf_parent c Hwf _ _ Hx Hz) as (p & work & Hp & Hn & Hwork & Htot). exists work.
    assert (bn_parent x ≠ EMPTY_HASH) as Hne by (intros He; rewrite He, (wf_empty c Hwf) in Hp; done).
    pose proof (wf_work c Hwf _ _ Hp) as Hup. pose proof (wf_key c Hwf _ _ Hp) as Hkp.
    assert (∀ l, all_among l p = true → bn_parent x ∈ l) as Hpl by (intros l Hl; rewrite <- Hkp; by apply all_among_self).
    assert (bn_parent x ∈ row_hashes rows → bn_parent x ∈ row_hashes read) as Hread by by eapply parent_read.
    split_and!; [done| | | |].
    + pose proof (wf_bits c Hwf _ _ Hx) as [Hb _]. pose proof (get_work_value (bn_header x) Hb) as Hv. cbv zeta in Hv.
      destruct (_ =? 0); [by destruct Hv as [m Hv]; rewrite Hwork in Hv|]. rewrite Hwork in Hv. injection Hv as ->.
      unfold in_u256 in *. pose proof (u256_from_compact_range _ Hb). unfold in_u256 in *.
      split; [apply Z.div_pos; lia|]. lia.
    + rewrite Hw, decide_False, Hp by done. unfold kept. rewrite (all_among_cons _ x p), Hself by done. cbn [andb].
      destruct (all_among (row_hashes rows) p) eqn:Hk.
      * rewrite bool_decide_true by by apply Hread, Hpl. cbn [andb]. f_equal. lia.
      * by rewrite andb_false_r.
    + by replace (bn_total_work x - work) with (bn_total_work p) by lia.
    + unfold kept_fetched. rewrite (all_among_cons _ x p), Hflag by done. rewrite andb_comm. f_equal.
      fold (kept_fetched p). destruct (kept_fetched p) eqn:Hk.
      * apply bool_decide_eq_true, Hf. right. exists p. split_and!; [done| |done]. by apply Hread, Hpl, kept_fetched_kept.
      * apply bool_decide_eq_false. intros [He|(p' & Hp' & _ & Hk')]%Hf; [done|]. congruence.
Qed.
Lemma read_row_ok read row rest s :
  rows = read ++ row :: rest → read_ok read s → ∃ s', read_row s row = Ok (s', loaded row) ∧ read_ok (read ++ [row]) s'.
Proof.
  intros Hr Hok. assert (row ∈ rows) as Hin by (rewrite Hr; apply elem_of_app; right; apply list_elem_of_here).
  destruct (row_header row Hin) as (x & Hx & Hreq & Hh & Hic & Hne & Hpar & Hgw & Hnum).
  destruct (parent_state read row rest x s Hr Hok Hx Hreq Hh) as (work & Hwork & Huw & Hpw & Hupw & Hfetched).
  pose proof (wf_work c Hwf _ _ Hx) as Hux. pose proof Hok as [Hw Hf]. destruct s as [work_totals parents_fetched]. cbn [fst snd] in *.
  unfold read_row, loaded. rewrite Hpar, Hpw, Hx. destruct (kept x) eqn:Hk.
  - rewrite Hgw, Hwork. cbn [mbind outcome_bind]. rewrite u256_add_spec by (done || (unfold in_u256 in *; lia)). cbn [mbind outcome_bind].
    rewrite Hfetched. unfold restored. change (bh_hash (header_of_row row)) with (row_hash row).
    replace (bn_total_work x - work + work) with (bn_total_work x) by lia.
    eexists. split; [reflexivity|]. constructor; cbn [fst snd].
    + intros h. destruct (decide (h = row_hash row)) as [->|Hne'].
      * rewrite lookup_insert_eq, decide_False, Hx, Hk by done. rewrite bool_decide_true; [done|]. apply row_hashes_snoc. by right.
      * rewrite lookup_insert_ne, Hw by done.
        rewrite (bool_decide_ext (h ∈ row_hashes (read ++ [row])) (h ∈ row_hashes read)); [done|]. rewrite row_hashes_snoc. tauto.
    + intros h. destruct (kept_fetched x) eqn:Hkf.
      * rewrite elem_of_union, elem_of_singleton, Hf. split.
        -- intros [[?|(y & ? & ? & ?)]| ->]; [by left| |].
           ++ right. exists y. rewrite row_hashes_snoc. tauto.
           ++ right. exists x. rewrite row_hashes_snoc. tauto.
        -- intros [?|(y & Hy & [?|?]%row_hashes_snoc & ?)]; [tauto| |tauto]. left. right. by exists y.
      * rewrite Hf. split; (intros [?|(y & Hy & Hin' & ?)]; [by left|]); right; exists y; rewrite row_hashes_snoc in *; [tauto|].
        split_and!; [done| |done]. destruct Hin' as [?| ->]; [done|]. congruence.
  - eexists. split; [reflexivity|]. constructor; cbn [fst snd].
    + intros h. rewrite Hw. destruct (decide (h = EMPTY_HASH)); [done|]. destruct (known_headers c !! h) as [y|] eqn:Hy; [|done].
      destruct (decide (h = row_hash row)) as [->|Hne']; [assert (y = x) as -> by congruence; by rewrite Hk, !andb_false_r|].
      rewrite (bool_decide_ext (h ∈ row_hashes (read ++ [row])) (h ∈ row_hashes read)); [done|]. rewrite row_hashes_snoc. tauto.
    + intros h. rewrite Hf. split; (intros [?|(y & Hy & Hin' & ?)]; [by left|]); right; exists y; rewrite row_hashes_snoc in *; [tauto|].
      split_and!; [done| |done]. destruct Hin' as [?| ->]; [done|]. assert (y = x) as -> by congruence.
      assert (kept x = true) by by apply kept_fetched_kept. congruence.
Qed.

Lemma read_start_ok : read_ok [] read_start.
Proof.
  constructor; cbn [fst snd read_start].
  - intros h. case_decide as Hh; [subst; by rewrite lookup_singleton_eq|]. rewrite lookup_singleton_ne by done.
    by destruct (known_headers c !! h).
  - intros h. rewrite elem_of_singleton. split; [by left|]. intros [?|(x & _ & Hin & _)]; [done|]. by apply not_elem_of_nil in Hin.
Qed.

Lemma get_all_headers_spec : get_all_headers rows = Ok (omap loaded rows).
Proof.
  unfold get_all_headers.
  assert (∀ rest read s result, rows = read ++ rest → read_ok read s →
    ∃ s', for_each (λ '(s, result) row, '(s, header) ← read_row s row; Ok (s, result ++ option_list header)) rest (s, result)
      = Ok (s', result ++ omap loaded rest)) as Hgo.
  { induction rest as [|row rest IH]; intros read s result Hr Hok; [exists s; cbn; by rewrite app_nil_r|]. cbn [for_each].
    destruct (read_row_ok read row rest s Hr Hok) as (s' & Hrow & Hok'). rewrite Hrow. cbn [mbind outcome_bind].
    destruct (IH (read ++ [row]) s' (result ++ option_list (loaded row))) as [s'' Hs'']; [by rewrite <- app_assoc|done|].
    exists s''. rewrite Hs'', <- app_assoc. do 3 f_equal. cbn [omap list_omap]. by destruct (loaded row). }
  destruct (Hgo rows [] read_start [] eq_refl read_start_ok) as [s' Hs']. by rewrite Hs'.
Qed.
Lemma elem_of_loaded y :
  y ∈ omap loaded rows ↔
  ∃ row x, row ∈ rows ∧ known_headers c !! row_hash row = Some x ∧ kept x = true ∧ y = restored x row.
Proof.
  rewrite list_elem_of_omap. unfold loaded. split.
  - intros (row & Hin & Hy). exists row. destruct (known_headers c !! row_hash row) as [x|] eqn:Hx; [|done].
    destruct (kept x) eqn:Hk; [|done]. exists x. by simplify_eq.
  - intros (row & x & Hin & Hx & Hk & ->). exists row. by rewrite Hx, Hk.
Qed.

(** A header that is kept is read back. *)
Lemma kept_loaded h x : known_headers c !! h = Some x → kept x = true →
  ∃ row, row ∈ rows ∧ row_hash row = h ∧ restored x row ∈ omap loaded rows.
Proof.
  intros Hx Hk. pose proof (all_among_self _ _ Hk) as Hin. rewrite (wf_key c Hwf _ _ Hx) in Hin.
  apply elem_of_row_hashes in Hin as (row & Hin & <-). exists row. split_and!; [done|done|].
  apply elem_of_loaded. by exists row, x.
Qed.

Lemma loaded_hashes l : map (λ y, bn_hash y) (omap loaded l) `sublist_of` row_hashes l.
Proof.
  induction l as [|row l IH]; [done|]. cbn [omap list_omap row_hashes map]. unfold loaded at 1.
  destruct (known_headers c !! row_hash row) as [x|]; [|by apply sublist_cons].
  destruct (kept x); [|by apply sublist_cons]. cbn [map]. by apply sublist_skip.
Qed.

Lemma kept_parent x p :
  known_headers c !! bn_parent x = Some p → bn_number x = bn_number p + 1 → kept x = true → kept p = true.
Proof. intros Hp Hn. unfold kept. rewrite (all_among_cons _ x p) by done. by intros [_ ?]%andb_true_iff. Qed.
End rows.

(** * A part of a well-formed chain *)

(** The same header, as far as it is stored, with the same work up to it *)
Definition similar (x y : BlockHeaderWithNumber) : Prop :=
  insert_header_request y = insert_header_request x ∧ bn_total_work y = bn_total_work x.

Lemma similar_fields x y : similar x y →
  bn_hash y = bn_hash x ∧ bn_parent y = bn_parent x ∧ bn_number y = bn_number x ∧
  bh_bits (bn_header y) = bh_bits (bn_header x) ∧ get_work (bn_header y) = get_work (bn_header x).
Proof. intros [[=] _]. split_and!; try done. unfold get_work.
  match goal with Hb : bh_bits _ = bh_bits _ |- _ => by rewrite Hb end.
Qed.

Section part.
Context (c : Chain) (m : headers_map) (top : BlockHeaderWithNumber) (nums : gmap Z hash) (most : gset hash).
Context (Hwf : chain_wf c).
Context (Hm : ∀ h y, m !! h = Some y → ∃ x, known_headers c !! h = Some x ∧ similar x y).
Context (Hclosed : ∀ h y, m !! h = Some y → bn_number y ≠ 0 → is_Some (m !! bn_parent y)).

Lemma part_ancestors x : in_chain c x → is_Some (m !! bn_hash x) → ∀ a, a ∈ ancestors c x → is_Some (m !! bn_hash a).
Proof.
  revert x. refine (in_chain_ind c _ Hwf _ _).
  - intros x _ _ -> Hx a ->%list_elem_of_singleton. done.
  - intros x p Hx Hp Hlp Hhp Hn -> IH Hin a [->|Ha]%elem_of_cons; [done|]. apply IH; [|done]. rewrite Hhp.
    destruct Hin as [y Hy]. destruct (Hm _ _ Hy) as (x' & Hx' & Hs). destruct (similar_fields _ _ Hs) as (_ & Hpar & Hny & _).
    destruct Hx as (x'' & Hx'' & Hhx & Hnx & _). rewrite Hx'' in Hx'. injection Hx' as <-. rewrite Hhx in Hpar.
    rewrite <- Hpar. apply (Hclosed _ _ Hy). rewrite Hny, Hnx, Hn. pose proof (in_chain_number c p Hwf Hp). lia.
Qed.

Lemma part_size x : in_chain c x → is_Some (m !! bn_hash x) → bn_number x < Z.of_nat (size m).
Proof.
  intros Hx Hin. pose proof (entries_NoDup c x Hwf Hx) as Hn. pose proof (length_ancestors c x Hwf Hx) as Hl.
  assert ((list_to_set (entries c x).*1 : gset hash) ⊆ dom m) as Hsub.
  { intros h (e & -> & He)%elem_of_list_to_set%list_elem_of_fmap. apply elem_of_dom. unfold entries in He.
    apply list_elem_of_fmap in He as (a & -> & Ha). by eapply part_ancestors. }
  apply subseteq_size in Hsub. rewrite size_list_to_set, size_dom in Hsub by done.
  rewrite length_fmap in Hsub. unfold entries in Hsub. rewrite length_map in Hsub. lia.
Qed.

Lemma part_wf :
  m !! bn_hash top = Some top → (∀ h y, m !! h = Some y → bn_total_work y <= bn_total_work top) →
  chain_wf (mkChain top m nums most).
Proof.
  intros Htop Hmost. constructor; cbn [known_headers top_header].
  - intros h y Hy. destruct (Hm _ _ Hy) as (x & Hx & Hs). destruct (similar_fields _ _ Hs) as (-> & _). by eapply wf_key.
  - destruct (m !! EMPTY_HASH) as [y|] eqn:Hy; [|done]. destruct (Hm _ _ Hy) as (x & Hx & _). by rewrite (wf_empty c Hwf) in Hx.
  - intros h y Hy. destruct (Hm _ _ Hy) as (x & Hx & Hs). destruct (similar_fields _ _ Hs) as (_ & _ & -> & _).
    pose proof (wf_number c Hwf _ _ Hx). split; [lia|]. apply part_size; [by eapply in_chain_known|].
    rewrite (wf_key c Hwf _ _ Hx). by exists y.
  - intros h y Hy. destruct (Hm _ _ Hy) as (x & Hx & Hs). destruct (similar_fields _ _ Hs) as (_ & -> & -> & _). by eapply wf_root.
  - intros h y h' y' Hy Hy'. destruct (Hm _ _ Hy) as (x & Hx & Hs), (Hm _ _ Hy') as (x' & Hx' & Hs').
    destruct (similar_fields _ _ Hs) as (_ & _ & -> & _), (similar_fields _ _ Hs') as (_ & _ & -> & _). by eapply wf_one_root.
  - intros h y Hy Hn. destruct (Hclosed _ _ Hy Hn) as [q Hq]. destruct (Hm _ _ Hy) as (x & Hx & Hs).
    destruct (similar_fields _ _ Hs) as (_ & Hpar & Hny & _ & Hgw). destruct (Hm _ _ Hq) as (p & Hp & Hsp).
    destruct (similar_fields _ _ Hsp) as (_ & _ & Hnq & _ & _). rewrite Hny in Hn.
    destruct (wf_parent c Hwf _ _ Hx Hn) as (p' & w & Hp' & Hnx & Hw & Htot). rewrite Hpar in Hp. assert (p' = p) as -> by congruence.
    exists q, w. split_and!; [done|lia|congruence|]. destruct Hs as [_ ->], Hsp as [_ ->]. done.
  - intros h y Hy. destruct (Hm _ _ Hy) as (x & Hx & [_ ->]). by eapply wf_work.
  - intros h y Hy. destruct (Hm _ _ Hy) as (x & Hx & Hs). destruct (similar_fields _ _ Hs) as (_ & _ & _ & Hb & _).
    pose proof (wf_bits c Hwf _ _ Hx) as Hok. unfold bits_ok in *. by rewrite Hb.
  - by exists top.
  - done.
Qed.
End part.

(** * Loading *)

(** The chain after some headers, which started with [g] alone *)
Record load_ok (g : BlockHeaderWithNumber) (l : list BlockHeaderWithNumber) (c : Chain) : Prop := {
  ld_known h y : known_headers c !! h = Some y ↔
    bn_hash y = h ∧ (y ∈ l ∨ y = g ∧ ∀ z, z ∈ l → bn_hash z ≠ bn_hash g);
  ld_top : top_header c ∈ g :: l;
  ld_most z : z ∈ g :: l → bn_total_work z <= bn_total_work (top_header c);
}.

Lemma load_insert g l c x top :
  (∀ z, z ∈ l → bn_hash z ≠ bn_hash x) → load_ok g l c →
  top = (if bn_total_work (top_header c) <? bn_total_work x then x else top_header c) →
  load_ok g (l ++ [x]) (mkChain top (<[ bn_hash x := x ]> (known_headers c)) (number_to_hash c) (most_work_chain c)).
Proof.
  intros Hnew [Hk Ht Hm] ->. constructor; cbn [known_headers top_header].
  - intros h y. rewrite lookup_insert_Some, Hk, elem_of_app, list_elem_of_singleton. split.
    + intros [[<- <-]|(Hne & <- & [Hin|[-> Hno]])]; [by split; [|left; right]|split; [done|]; left; by left|].
      split; [done|]. right. split; [done|]. intros z [Hz|Hz]%elem_of_app; [by apply Hno|].
      by apply list_elem_of_singleton in Hz as ->.
    + intros [<- [[Hin| ->]|[-> Hno]]]; [|by left|].
      * right. split; [intros He; by destruct (Hnew y Hin)|]. split; [done|by left].
      * right. split; [apply Hno, elem_of_app; right; by left|]. split; [done|]. right. split; [done|].
        intros z Hz. apply Hno, elem_of_app. by left.
  - destruct (Z.ltb_spec (bn_total_work (top_header c)) (bn_total_work x)).
    + right. apply elem_of_app. right. by left.
    + rewrite app_comm_cons. apply elem_of_app. by left.
  - intros z Hz. rewrite app_comm_cons in Hz. apply elem_of_app in Hz as [Hz| ->%list_elem_of_singleton].
    + specialize (Hm z Hz). destruct (Z.ltb_spec (bn_total_work (top_header c)) (bn_total_work x)); lia.
    + destruct (Z.ltb_spec (bn_total_work (top_header c)) (bn_total_work x)); lia.
Qed.

Definition load_header (s : ChainMan) (new_header : BlockHeaderWithNumber) : ChainMan :=
  let w := CHAIN s in
  let '(s, w) :=
    if bn_total_work (top_header w) <? bn_total_work new_header
    then (set_top_height s (bn_number new_header), set_top_header w new_header) else (s, w) in
  set_CHAIN s (set_known_headers w (<[ bn_hash new_header := new_header ]> (known_headers w))).

Lemma load_header_chain s x : CHAIN (load_header s x) =
  mkChain (if bn_total_work (top_header (CHAIN s)) <? bn_total_work x then x else top_header (CHAIN s))
    (<[ bn_hash x := x ]> (known_headers (CHAIN s))) (number_to_hash (CHAIN s)) (most_work_chain (CHAIN s)).
Proof. unfold load_header. by destruct (_ <? _). Qed.

Lemma load_loop g hs : ∀ l s,
  NoDup (map (λ y, bn_hash y) (l ++ hs)) → load_ok g l (CHAIN s) → load_ok g (l ++ hs) (CHAIN (foldl load_header s hs)).
Proof.
  induction hs as [|x hs IH]; intros l s Hn Hok; [by rewrite app_nil_r|]. cbn [foldl].
  change (x :: hs) with ([x] ++ hs) in *. rewrite app_assoc in *. apply IH; [done|]. rewrite load_header_chain.
  apply load_insert; [|done|done]. intros z Hz Heq. rewrite <- app_assoc, map_app in Hn. cbn [map app] in Hn.
  apply NoDup_app in Hn as (_ & Hd & _). apply (Hd (bn_hash z)); [|rewrite Heq; by left].
  apply list_elem_of_fmap. by exists z.
Qed.

(** * The running program *)

Definition genesis_request : InsertHeaderRequest :=
  mkInsertHeaderRequest (bh_parent genesis) (bh_merkle_root genesis) (bh_timestamp genesis) (bh_bits genesis)
    (bh_nonce genesis) (bh_version genesis) 0 (bh_hash genesis).

(** What changes the chain: a header is applied, blocks are marked as downloaded, or the index of the
    main chain and the counters are updated. *)
Inductive chain_step (fuel : nat) : ChainMan → ChainMan → Prop :=
| step_header s h b s' r :
    acceptable h → Z.of_nat (size (known_headers (CHAIN s))) < isize_max →
    (size (known_headers (CHAIN s)) < fuel)%nat →
    validate_and_apply_header_inner s fuel h b = Finished (Ok (s', r)) → chain_step fuel s s'
| step_marked s blocks asciis s' :
    chain_fits (CHAIN s) → enough (CHAIN s) fuel →
    Forall (λ h, is_Some (known_headers (CHAIN s) !! h)) blocks → length asciis = length blocks →
    mark_as_downloaded s fuel blocks asciis = Finished (Ok s') → chain_step fuel s s'
| step_indexed s nums most count height full :
    chain_step fuel s (mkChainMan (mkChain (top_header (CHAIN s)) (known_headers (CHAIN s)) nums most)
      count height full (inserted_headers s)).

(** The requests for the headers that are known *)
Definition requests (s : ChainMan) : list InsertHeaderRequest :=
  genesis_request :: map insert_header_request (inserted_headers s).

Record tracked (s : ChainMan) : Prop := {
  tk_wf : chain_wf (CHAIN s);
  tk_root h x : known_headers (CHAIN s) !! h = Some x → bn_number x = 0 → get_work (bn_header x) = Ok (bn_total_work x);
  tk_requests r : r ∈ requests s → ∃ x, known_headers (CHAIN s) !! ih_hash r = Some x ∧ insert_header_request x = r;
}.

Lemma tracked_start c : bh_hash genesis ≠ EMPTY_HASH → Chain_default = Ok c → tracked (mkChainMan c 0 0 0 []).
Proof.
  intros Hne Hc. destruct (Chain_default_Ok Hne) as (c' & Hc' & Hwf & _ & Hn & Hh & Hk).
  assert (c' = c) as -> by congruence. unfold Chain_default in Hc. obind Hc. obind Hc. injection Hc as <-.
  rewrite GENESIS_HEADER_Ok in Hv. injection Hv as <-. cbn [top_header known_headers bn_header bn_number] in *.
  constructor; cbn [CHAIN inserted_headers known_headers].
  - done.
  - by intros h x [_ <-]%lookup_singleton_Some _.
  - intros r [->|Hr]%elem_of_cons; [|by apply not_elem_of_nil in Hr]. eexists. by rewrite lookup_singleton_eq.
Qed.

(** Applying a header leaves everything as it was, or adds the header and asks for its row. *)
Lemma apply_inserts s fuel h b s' r :
  healthy s fuel → acceptable h → validate_and_apply_header_inner s fuel h b = Finished (Ok (s', r)) →
  s' = s ∨ ∃ p, extends_chain s fuel h p ∧ inserted_headers s' = inserted_headers s ++ [new_header p h] ∧
    known_headers (CHAIN s') = <[ bh_hash h := new_header p h ]> (known_headers (CHAIN s)).
Proof.
  intros Hh Ha Hr. destruct (application_cases s fuel h Hh Ha) as [Hk|Hk Hp|p bits Hk Hp Hb Hne|p Hk Hp Hb Ho|p He].
  - rewrite apply_known in Hr by done. injection Hr as <- <-. by left.
  - rewrite apply_orphan in Hr by done. injection Hr as <- <-. by left.
  - rewrite (apply_bits s fuel h b p bits) in Hr by done. injection Hr as <- <-. by left.
  - destruct (apply_overflow s fuel h b p Hh Ha Hk Hp Hb Ho) as [m Hm]. by rewrite Hm in Hr.
  - right. exists p. split; [done|]. rewrite apply_new with (p := p) in Hr by done. cbv zeta in Hr.
    destruct (_ <? _); [by injection Hr as <- <-|]. destruct b; [by injection Hr as <- <-|].
    case_bool_decide; [by injection Hr as <- <-|]. cbind Hr. destruct v as [[fo fn] vo]. cbind Hr. destruct v as [vn vo'].
    cbind Hr. by injection Hr as <- <-.
Qed.

Lemma marked_relabels s fuel blocks asciis s' :
  Forall (λ h, is_Some (known_headers (CHAIN s) !! h)) blocks →
  mark_as_downloaded s fuel blocks asciis = Finished (Ok s') →
  relabels (known_headers (CHAIN s)) (known_headers (CHAIN s')) ∧ inserted_headers s' = inserted_headers s.
Proof.
  intros Hall Hm. destruct (mark_loop blocks asciis (known_headers (CHAIN s)) Hall) as (m & Hl & Hr & _).
  unfold mark_as_downloaded in Hm. rewrite Hl in Hm. cbn [mbind comp_bind] in Hm.
  destruct (known _ _) as [top| | |]; try done. cbind Hm. by injection Hm as <-.
Qed.

Lemma tracked_step fuel s s' : chain_step fuel s s' → tracked s → tracked s'.
Proof.
  intros Hs [Hwf Hroot Hreq]. destruct Hs as [s h b s' r Ha Hsz Hf Hr|s blocks asciis s' Hfit Hen Hall Hlen Hm|s nums most count height full].
  - assert (healthy s fuel) as Hh by by constructor.
    destruct (apply_grows s fuel h b s' r Hh Ha Hr) as ([Hwf' Hsub _ _] & _ & _). specialize (Hwf' Hwf).
    destruct (apply_inserts s fuel h b s' r Hh Ha Hr) as [->|(p & He & Hi & Hk)]; [done|].
    pose proof (in_chain_number (CHAIN s) p Hwf (in_chain_known _ _ _ Hwf (ec_parent _ _ _ _ He))) as Hpn.
    constructor; [done| |].
    + intros h' x Hx Hz. rewrite Hk in Hx. apply lookup_insert_Some in Hx as [[<- <-]|[_ Hx]]; [cbn in Hz; lia|by eapply Hroot].
    + intros q Hq. unfold requests in Hq. rewrite Hi, map_app in Hq. rewrite app_comm_cons in Hq.
      apply elem_of_app in Hq as [Hq|Hq].
      * destruct (Hreq q Hq) as (x & Hx & Hxr). exists x. split; [by eapply lookup_weaken|done].
      * apply list_elem_of_singleton in Hq as ->. exists (new_header p h). rewrite Hk. by rewrite lookup_insert_eq.
  - destruct (marked_relabels s fuel blocks asciis s' Hall Hm) as [Hrel Hi].
    destruct (mark_as_downloaded_effect s fuel blocks asciis Hwf Hfit Hen Hall Hlen) as (s'' & Hm' & Hwf' & _).
    assert (s'' = s') as -> by congruence. constructor; [done| |].
    + intros h y Hy Hz. destruct (relabels_lookup _ _ _ _ Hrel Hy) as (x & Hx & Hh & Hn & Hw). rewrite Hh, Hw. apply (Hroot h); [done|congruence].
    + intros q Hq. unfold requests in Hq. rewrite Hi in Hq. destruct (Hreq q Hq) as (x & Hx & <-).
      destruct (relabels_lookup_l _ _ _ _ Hrel Hx) as (y & Hy & Hh & Hn & _). exists y. split; [done|].
      unfold insert_header_request. by rewrite Hh, Hn.
  - constructor; cbn [CHAIN inserted_headers known_headers]; [|done|done].
    destruct Hwf as [H1 H2 H3 H4 H5 H6 H7 H8 H9 H10]. by constructor.
Qed.

Lemma tracked_steps fuel s s' : rtc (chain_step fuel) s s' → tracked s → tracked s'.
Proof. induction 1 as [|x y z Hs _ IH]; [done|]. intros Hx. by apply IH, (tracked_step fuel x). Qed.

(** * The restart *)

(** The header and all its ancestors have rows, and rows that are marked. *)
Definition stored (t : gmap hash HeaderRow) (c : Chain) (x : BlockHeaderWithNumber) : Prop :=
  ∀ a, a ∈ ancestors c x → is_Some (t !! bn_hash a).
Definition stored_fetched (t : gmap hash HeaderRow) (c : Chain) (x : BlockHeaderWithNumber) : Prop :=
  ∀ a, a ∈ ancestors c x → ∃ row, t !! bn_hash a = Some row ∧ hr_fetched_full row = true.

Section restart.
Context (s : ChainMan) (c0 : Chain) (t : gmap hash HeaderRow) (rows : list HeaderRow) (fuel : nat).
Context (Htracked : tracked s).
Context (Hne : bh_hash genesis ≠ EMPTY_HASH) (Hc0 : Chain_default = Ok c0).
Context (Ht : ∀ h row, t !! h = Some row → row_hash row = h ∧ hr_data row ∈ requests s).
Context (Hsel : selected t rows).

Let c := CHAIN s.
Let Hwf : chain_wf c := tk_wf s Htracked.

Lemma elem_of_rows row : row ∈ rows ↔ t !! row_hash row = Some row.
Proof.
  destruct Hsel as [Hp _]. rewrite Hp, list_elem_of_fmap. split.
  - intros ([h row'] & -> & Hin%elem_of_map_to_list). cbn. destruct (Ht _ _ Hin) as [<- _] in Hin. exact Hin.
  - intros Hrow. exists (row_hash row, row). by rewrite elem_of_map_to_list.
Qed.

Lemma rows_known row : row ∈ rows → ∃ x, known_headers c !! row_hash row = Some x ∧ insert_header_request x = hr_data row.
Proof. intros Hin%elem_of_rows. destruct (Ht _ _ Hin) as [_ Hr]. by apply (tk_requests s Htracked). Qed.

Lemma rows_distinct : NoDup (row_hashes rows).
Proof.
  destruct Hsel as [Hp _]. unfold row_hashes. assert (map (λ row, row_hash row) rows ≡ₚ (map_to_list t).*1) as ->; [|apply NoDup_fst_map_to_list].
  rewrite Hp. change ((map_to_list t).*2) with (map snd (map_to_list t)). rewrite map_map.
  rewrite (map_ext_in _ fst); [done|]. intros [h row] Hin%list_elem_of_In%elem_of_map_to_list. by destruct (Ht _ _ Hin).
Qed.

Lemma rows_spec : get_all_headers rows = Ok (omap (loaded c rows) rows).
Proof.
  apply get_all_headers_spec; [exact Hwf|apply (tk_root s Htracked)|apply rows_known|apply Hsel|apply rows_distinct].
Qed.

Lemma kept_stored x : kept c rows x = true ↔ stored t c x.
Proof.
  unfold kept, stored. rewrite all_among_elem. split; intros Hx a Ha; specialize (Hx a Ha).
  - apply elem_of_row_hashes in Hx as (row & Hin%elem_of_rows & <-). by exists row.
  - destruct Hx as [row Hrow]. destruct (Ht _ _ Hrow) as [Hh _]. apply elem_of_row_hashes. exists row.
    rewrite elem_of_rows, Hh. done.
Qed.

Lemma kept_fetched_stored x : kept_fetched c rows x = true ↔ stored_fetched t c x.
Proof.
  unfold kept_fetched, stored_fetched. rewrite all_among_elem. split; intros Hx a Ha; specialize (Hx a Ha).
  - apply elem_of_fetched_hashes in Hx as (row & Hin%elem_of_rows & <- & Hf). by exists row.
  - destruct Hx as (row & Hrow & Hf). destruct (Ht _ _ Hrow) as [Hh _]. apply elem_of_fetched_hashes. exists row.
    rewrite elem_of_rows, Hh. done.
Qed.

Lemma restored_similar row x :
  row ∈ rows → known_headers c !! row_hash row = Some x → similar x (restored c rows x row).
Proof.
  intros Hin Hx. destruct (rows_known row Hin) as (x' & Hx' & Hr). assert (x' = x) as -> by congruence. split; [|done].
  rewrite Hr. unfold insert_header_request, restored, header_of_row. cbn. by destruct (hr_data row).
Qed.

(** The chain that is loaded *)
Lemma loaded_chain hs :
  hs = omap (loaded c rows) rows → load_ok (top_header c0) hs (CHAIN (foldl load_header (mkChainMan c0 0 0 0 []) hs)).
Proof.
  intros ->. destruct (Chain_default_Ok Hne) as (c' & Hc' & _ & _ & _ & Hh & Hk). assert (c' = c0) as -> by congruence.
  apply (load_loop (top_header c0) _ []).
  - cbn [app]. eapply sublist_NoDup; [exact rows_distinct|]. apply loaded_hashes.
  - constructor; cbn [CHAIN].
    + intros h y. rewrite Hk, lookup_singleton_Some, Hh. split.
      * intros [<- <-]. rewrite Hh. split; [done|]. right. split; [done|]. intros z Hz. by apply not_elem_of_nil in Hz.
      * intros [<- [Hz|[-> _]]]; [by apply not_elem_of_nil in Hz|]. by rewrite Hh.
    + left.
    + intros z [->|Hz]%elem_of_cons; [lia|]. by apply not_elem_of_nil in Hz.
Qed.

(** The root of the chain *)
Lemma root_known : ∃ g, known_headers c !! bh_hash genesis = Some g ∧ bn_number g = 0 ∧ bn_total_work g = bn_total_work (top_header c0).
Proof.
  destruct (tk_requests s Htracked genesis_request (list_elem_of_here _ _)) as (g & Hg & Hr). exists g.
  assert (bn_number g = 0) as Hz by (by injection Hr). split_and!; [done|done|].
  pose proof (tk_root s Htracked _ _ Hg Hz) as Hw. clear -Hw Hr Hc0.
  unfold Chain_default in Hc0. obind Hc0. obind Hc0. rewrite GENESIS_HEADER_Ok in Hv. injection Hv as <-.
  injection Hc0 as <-. cbn [top_header bn_total_work].
  assert (get_work (bn_header g) = get_work genesis) as Heq; [|congruence].
  unfold get_work. assert (bh_bits (bn_header g) = bh_bits genesis) as ->; [by injection Hr|done].
Qed.

Lemma positive_work x p w :
  known_headers c !! bn_hash x = Some p → get_work (bn_header p) = Ok w → 0 < w.
Proof.
  intros Hx Hw. destruct (wf_bits c Hwf _ _ Hx) as [Hb _]. pose proof (get_work_value (bn_header p) Hb) as Hv. cbv zeta in Hv.
  pose proof (u256_from_compact_range _ Hb) as Hr. destruct (_ =? 0); [by destruct Hv as [m Hv]; rewrite Hv in Hw|].
  rewrite Hw in Hv. injection Hv as ->. apply Z.div_str_pos. unfold in_u256 in Hr. lia.
Qed.

Lemma above_root g x :
  known_headers c !! bh_hash genesis = Some g → bn_number g = 0 → in_chain c x →
  bn_total_work g <= bn_total_work x ∧ (bn_number x ≠ 0 → bn_total_work g < bn_total_work x).
Proof.
  intros Hg Hz. revert x. refine (in_chain_ind c _ Hwf _ _).
  - intros x (y & Hy & _ & Hn & _ & <-) Hxz _. assert (y = g) as ->; [|by split; [lia|]].
    pose proof (wf_one_root c Hwf _ _ _ _ Hy Hg ltac:(lia) Hz) as Hh. congruence.
  - intros x p (y & Hy & Hh & Hn & _ & Htot) Hp Hlp _ Hnx _ [IH _]. pose proof (in_chain_number c p Hwf Hp).
    destruct (wf_parent c Hwf _ _ Hy ltac:(lia)) as (p' & w & Hp' & _ & Hw & Hwork). rewrite Hh, Hlp in Hp'. injection Hp' as <-.
    pose proof (positive_work x y w Hy Hw). split; lia.
Qed.

Lemma wf_reindexed c1 c2 : chain_wf c1 → top_header c2 = top_header c1 → known_headers c2 = known_headers c1 → chain_wf c2.
Proof.
  intros [H1 H2 H3 H4 H5 H6 H7 H8 H9 H10]. destruct c1 as [? ? ? ?], c2 as [? ? ? ?]. cbn. intros -> ->. by constructor.
Qed.

(** No header but the genesis block can be read: the start is that of an empty table. *)
Lemma genesis_only x :
  (∀ h x, known_headers c !! h = Some x → bn_number x ≠ 0 → ¬ stored t c x) →
  x ∈ omap (loaded c rows) rows → bn_hash x = bh_hash genesis ∧ bn_total_work x = bn_total_work (top_header c0).
Proof.
  intros Hnone Hin. apply elem_of_loaded in Hin as (row & y & Hrow & Hy & Hk & ->).
  destruct root_known as (g & Hg & Hgz & Hgw). destruct (restored_similar row y Hrow Hy) as [Hs Hw].
  destruct (similar_fields _ _ (conj Hs Hw)) as (Hh & _). rewrite Hh, Hw. destruct (decide (bn_number y = 0)) as [Hz|Hz].
  - pose proof (wf_one_root c Hwf _ _ _ _ Hy Hg Hz Hgz) as He. rewrite (wf_key c Hwf _ _ Hy). split; [done|].
    rewrite He, Hg in Hy. by injection Hy as <-.
  - destruct (Hnone _ _ Hy Hz). by apply kept_stored.
Qed.

Lemma load_same hs : ∀ s0,
  Forall (λ x, bn_hash x = bh_hash genesis ∧ bn_total_work x = bn_total_work (top_header c0)) hs →
  top_header (CHAIN s0) = top_header c0 → dom (known_headers (CHAIN s0)) = {[ bh_hash genesis ]} →
  let s1 := foldl load_header s0 hs in
  top_header (CHAIN s1) = top_header c0 ∧ dom (known_headers (CHAIN s1)) = {[ bh_hash genesis ]}.
Proof.
  induction hs as [|x hs IH]; intros s0 Hall Htop Hdom; [done|]. apply Forall_cons in Hall as [[Hx Hw] Hall]. cbn [foldl].
  apply IH; [done|rewrite load_header_chain..].
  - cbn [top_header]. by rewrite Htop, Hw, Z.ltb_irrefl.
  - cbn [known_headers]. rewrite dom_insert_L, Hx, Hdom. set_solver.
Qed.

Lemma restart_empty :
  (∀ h x, known_headers c !! h = Some x → bn_number x ≠ 0 → ¬ stored t c x) → (0 < fuel)%nat →
  ∃ s', chainman_start fuel rows = Finished (Ok s') ∧ top_header (CHAIN s') = top_header c0 ∧
    dom (known_headers (CHAIN s')) = {[ bh_hash genesis ]} ∧ number_to_hash (CHAIN s') = {[ 0 := bh_hash genesis ]} ∧
    most_work_chain (CHAIN s') = {[ bh_hash genesis ]} ∧ DOWNLOADED_BLOCKS s' = 0.
Proof.
  intros Hnone Hfuel. destruct (Chain_default_Ok Hne) as (c' & Hc' & _ & _ & Hn0 & Hh0 & Hk0). assert (c' = c0) as -> by congruence.
  assert (bn_fetched_full (top_header c0) = false) as Hf0.
  { clear -Hc0. unfold Chain_default in Hc0. obind Hc0. obind Hc0. by injection Hc0 as <-. }
  assert (bn_hash (top_header c0) = bh_hash genesis) as Hg0 by by rewrite Hh0.
  destruct (load_same (omap (loaded c rows) rows) (mkChainMan c0 0 0 0 [])) as [Htop Hdom]; [|done|cbn [CHAIN]; by rewrite Hk0, dom_singleton_L|].
  { apply Forall_forall. intros x. by apply genesis_only. }
  unfold chainman_start. rewrite Hc0. cbn [mbind comp_bind]. rewrite rows_spec. cbn [mbind comp_bind].
  unfold load_headers_from_sqlite. change (foldl _ ?a ?l) with (foldl load_header a l).
  set (s1 := foldl load_header _ _) in *. destruct fuel as [|fuel']; [lia|].
  unfold generate_top_work_chain_hashset. cbn [loop]. rewrite Htop, Hn0. cbn [Z.eqb mbind comp_bind mret comp_ret].
  unfold calculate_downloaded_blocks. cbn [loop top_header]. rewrite Hf0, Hn0. cbn [Z.eqb mbind comp_bind mret comp_ret].
  eexists. split; [reflexivity|]. cbn [CHAIN set_CHAIN store_downloaded top_header known_headers number_to_hash most_work_chain DOWNLOADED_BLOCKS].
  rewrite Hg0. split_and!; try done. set_solver.
Qed.

Context (Hpart : ∃ h x, known_headers c !! h = Some x ∧ bn_number x ≠ 0 ∧ stored t c x).

(** The known headers after the start *)
Lemma started_known h y :
  let hs := omap (loaded c rows) rows in
  known_headers (CHAIN (foldl load_header (mkChainMan c0 0 0 0 []) hs)) !! h = Some y ↔ y ∈ hs ∧ bn_hash y = h.
Proof.
  intros hs. destruct (loaded_chain hs eq_refl) as [Hk _ _]. rewrite Hk. destruct root_known as (g & Hg & Hz & _).
  destruct Hpart as (hx & x & Hx & _ & Hst). assert (kept c rows g = true) as Hkg.
  { apply kept_stored. intros a. rewrite ancestors_root by done. intros ->%list_elem_of_singleton.
    pose proof (in_chain_known c _ _ Hwf Hx) as Hic. pose proof (in_chain_number c x Hwf Hic).
    destruct (ancestors_at c x 0 Hwf Hic ltac:(lia)) as (a & Ha%list_elem_of_lookup_2 & Haz & b & Hb & _ & Hbn & _).
    pose proof (wf_one_root c Hwf _ _ _ _ Hb Hg ltac:(lia) Hz) as Hh. rewrite (wf_key c Hwf _ _ Hg), <- Hh. by apply Hst. }
  destruct (kept_loaded c rows Hwf _ g Hg Hkg) as (row & _ & Hrh & Hin).
  assert (bn_hash (top_header c0) = bh_hash genesis) as Htop.
  { destruct (Chain_default_Ok Hne) as (c' & Hc' & _ & _ & _ & Hh & _). assert (c' = c0) as -> by congruence. by rewrite Hh. }
  split; [|by intros [? ?]; split; [|left]]. intros [<- [Hy|[-> Hno]]]; [done|].
  exfalso. apply (Hno _ Hin). rewrite Htop. exact Hrh.
Qed.

Let c1 : Chain := CHAIN (foldl load_header (mkChainMan c0 0 0 0 []) (omap (loaded c rows) rows)).

Lemma started_part h y : known_headers c1 !! h = Some y →
  ∃ x, known_headers c !! h = Some x ∧ stored t c x ∧ similar x y ∧ (bn_fetched_full y = true ↔ stored_fetched t c x).
Proof.
  intros [Hy <-]%started_known. apply elem_of_loaded in Hy as (row & x & Hin & Hx & Hk & ->). exists x.
  split_and!; [done|by apply kept_stored|by apply restored_similar|apply kept_fetched_stored].
Qed.

Lemma started_kept h x : known_headers c !! h = Some x → stored t c x →
  ∃ y, known_headers c1 !! h = Some y ∧ bn_total_work y = bn_total_work x.
Proof.
  intros Hx Hk. apply kept_stored in Hk. destruct (kept_loaded c rows Hwf h x Hx Hk) as (row & _ & Hh & Hin).
  exists (restored c rows x row). split; [|done]. by apply started_known.
Qed.

Lemma started_closed h y : known_headers c1 !! h = Some y → bn_number y ≠ 0 → is_Some (known_headers c1 !! bn_parent y).
Proof.
  intros Hy Hn. destruct (started_part h y Hy) as (x & Hx & Hst & Hs & _).
  destruct (similar_fields _ _ Hs) as (_ & -> & Hny & _). rewrite Hny in Hn.
  destruct (wf_parent c Hwf _ _ Hx Hn) as (p & w & Hp & Hnp & _). apply kept_stored in Hst.
  destruct (started_kept _ p Hp) as (q & Hq & _); [|by exists q]. apply kept_stored. by eapply kept_parent.
Qed.

(** The top header is one of those that were read. *)
Lemma started_top : known_headers c1 !! bn_hash (top_header c1) = Some (top_header c1).
Proof.
  destruct (loaded_chain _ eq_refl) as [_ Ht0 Hmost]. fold c1 in Ht0, Hmost. apply started_known.
  apply elem_of_cons in Ht0 as [Ht0|Ht0]; [|done]. exfalso. destruct root_known as (g & Hg & Hz & Hgw).
  destruct Hpart as (h & x & Hx & Hn & Hst). destruct (started_kept h x Hx Hst) as (y & Hy & Hw).
  apply started_known in Hy as [Hy _]. specialize (Hmost y ltac:(by right)). rewrite Ht0, <- Hgw, Hw in Hmost.
  destruct (above_root g x Hg Hz) as [_ Hgt]; [by eapply in_chain_known|]. specialize (Hgt Hn). lia.
Qed.

Lemma started_most h y : known_headers c1 !! h = Some y → bn_total_work y <= bn_total_work (top_header c1).
Proof. intros [Hy _]%started_known. destruct (loaded_chain _ eq_refl) as [_ _ Hmost]. apply Hmost. by right. Qed.

Lemma started_wf : chain_wf c1.
Proof.
  apply (wf_reindexed (mkChain (top_header c1) (known_headers c1) ∅ ∅)); [|done|done].
  apply (part_wf c); [exact Hwf| |apply started_closed|apply started_top|apply started_most].
  intros h y Hy. destruct (started_part h y Hy) as (x & Hx & _ & Hs & _). by exists x.
Qed.

Lemma started_size : (size (known_headers c1) ≤ size (known_headers c))%nat.
Proof.
  rewrite <- !size_dom. apply subseteq_size. intros h [y Hy]%elem_of_dom. apply elem_of_dom.
  destruct (started_part h y Hy) as (x & Hx & _). by exists x.
Qed.

Lemma restart_core :
  chain_fits c → enough c fuel →
  ∃ s', chainman_start fuel rows = Finished (Ok s') ∧ chain_wf (CHAIN s') ∧ chain_index (CHAIN s') ∧
    calculate_downloaded_blocks (CHAIN s') fuel = Finished (Ok (DOWNLOADED_BLOCKS s')) ∧
    (∀ h y, known_headers (CHAIN s') !! h = Some y → ∃ x, known_headers c !! h = Some x ∧ stored t c x ∧ similar x y ∧
      (bn_fetched_full y = true ↔ stored_fetched t c x)) ∧
    (∀ h x, known_headers c !! h = Some x → stored t c x → is_Some (known_headers (CHAIN s') !! h)) ∧
    ((∀ h x, known_headers c !! h = Some x → stored t c x) →
      bn_total_work (top_header (CHAIN s')) = bn_total_work (top_header c)).
Proof.
  intros Hfit Hen. pose proof started_size as Hsz.
  assert (chain_fits c1) as Hfit1 by (unfold chain_fits in *; lia).
  assert (enough c1 fuel) as Hen1 by (unfold enough in *; lia).
  destruct (generate_top_work_chain_hashset_Ok c1 fuel started_wf Hen1) as (c2 & Hgen & Ht2 & Hk2 & Hix).
  pose proof (wf_reindexed c1 c2 started_wf Ht2 Hk2) as Hwf2.
  assert (chain_fits c2 ∧ enough c2 fuel) as [Hfit2 Hen2] by (unfold chain_fits, enough in *; rewrite Hk2; done).
  unfold chainman_start. rewrite Hc0. cbn [mbind comp_bind]. rewrite rows_spec. cbn [mbind comp_bind].
  unfold load_headers_from_sqlite. change (foldl _ ?a ?l) with (foldl load_header a l). fold c1. rewrite Hgen. cbn [mbind comp_bind].
  rewrite (calculate_downloaded_blocks_spec c2 fuel Hwf2 Hen2 Hfit2). cbn [mbind comp_bind].
  eexists. split; [reflexivity|]. cbn [CHAIN DOWNLOADED_BLOCKS store_downloaded set_CHAIN].
  split_and!; [done|done|by apply calculate_downloaded_blocks_spec| | |].
  - rewrite Hk2. apply started_part.
  - intros h x Hx Hst. rewrite Hk2. destruct (started_kept h x Hx Hst) as (y & Hy & _). by exists y.
  - intros Hall. rewrite Ht2. destruct (started_part _ _ started_top) as (x & Hx & _ & [_ ->] & _).
    pose proof (wf_most_work c Hwf _ _ Hx) as Hle. destruct (wf_top c Hwf) as (top & Htop & _ & _ & _ & Hw).
    destruct (started_kept _ _ Htop (Hall _ _ Htop)) as (y & Hy & Hyw). pose proof (started_most _ _ Hy).
    destruct (started_part _ _ started_top) as (x' & Hx' & _ & [_ Hw'] & _). assert (x' = x) as -> by congruence. lia.
Qed.
End restart.
End reading.

Lemma select_headers_selected t : selected t (select_headers t).
Proof. split; [apply merge_sort_Permutation|apply (StronglySorted_merge_sort before)]. Qed.

(** Whether some header besides the genesis block has its rows can be decided. *)
Lemma any_stored t c :
  (∃ h x, known_headers c !! h = Some x ∧ bn_number x ≠ 0 ∧ stored t c x) ∨
  (∀ h x, known_headers c !! h = Some x → bn_number x ≠ 0 → ¬ stored t c x).
Proof.
  assert (∀ x, Decision (stored t c x)) as Hdec.
  { intros x. unfold stored. destruct (forallb (λ a, bool_decide (is_Some (t !! bn_hash a))) (ancestors c x)) eqn:Ha.
    - left. intros a Hin%list_elem_of_In. rewrite forallb_forall in Ha. by apply Ha, bool_decide_eq_true in Hin.
    - right. intros Hall. apply not_true_iff_false in Ha. apply Ha, forallb_forall. intros a Hin%list_elem_of_In.
      by apply bool_decide_eq_true, Hall. }
  destruct (decide (Exists (λ '(_, x), bn_number x ≠ 0 ∧ stored t c x) (map_to_list (known_headers c)))) as [He|He].
  - left. apply Exists_exists in He as ([h x] & Hin%elem_of_map_to_list & Hn & Hst). by exists h, x.
  - right. intros h x Hx Hn Hst. apply He, Exists_exists. exists (h, x). by rewrite elem_of_map_to_list.
Qed.

Definition empty_sqlite : Sqlite := mkSqlite ∅ ∅ ∅ ∅.

(** The rows of headers are requests that were sent. *)
Lemma rows_sent `{Rusqlite} events st h row :
  run (start_batchers empty_sqlite) events = Some st → headers (CONNECTION st) !! h = Some row →
  row_hash row = h ∧ hr_data row ∈ header_requests (sent_to INSERT_HEADER_QUEUE events).
Proof.
  intros [log [Hr Hq]]%run_written Hrow. pose proof (replay_headers log empty_sqlite (CONNECTION st) h Hr) as Hd.
  rewrite Hrow in Hd. cbn [empty_sqlite headers] in Hd. rewrite lookup_empty in Hd. symmetry in Hd.
  apply first_request_Some in Hd as [Hin Hh]. split; [done|]. destruct (Hq INSERT_HEADER_QUEUE) as (_ & rest & -> & _).
  unfold header_requests. rewrite omap_app. apply elem_of_app. by left.
Qed.

(** * Properties *)

(** C8. A restart. The program ran on a chain that grew from the genesis block, and asked SQLite for rows of
    some of its headers, in any order; it ended at any time, with any part of the requests written.
    Then the next start gives a well-formed chain with its index, of exactly the headers that were
    written along with all their ancestors, each as it was and with the same work; a block counts as
    downloaded if it and all its ancestors are marked in the table, and the counter of downloaded blocks agrees. If all headers were
    written, the top header has the same work as before. This is so if a header besides the genesis block
    was written with its ancestors; if none was, the start is that of an empty table: with the genesis block alone,
    and no block downloaded, whatever the marks are. *)
Theorem restart_restores `{Sha256, U256Lib, Rusqlite} fuel c0 s events st rows :
  bh_hash genesis ≠ EMPTY_HASH → Chain_default = Ok c0 → rtc (chain_step fuel) (mkChainMan c0 0 0 0 []) s →
  run (start_batchers empty_sqlite) events = Some st →
  (∀ r, r ∈ header_requests (sent_to INSERT_HEADER_QUEUE events) → r ∈ requests s) →
  let c := CHAIN s in
  let t := headers (CONNECTION st) in
  selected t rows → chain_fits c → enough c fuel →
  ∃ s', chainman_start fuel rows = Finished (Ok s') ∧
    ((∃ h x, known_headers c !! h = Some x ∧ bn_number x ≠ 0 ∧ stored t c x) →
      chain_wf (CHAIN s') ∧ chain_index (CHAIN s') ∧
      calculate_downloaded_blocks (CHAIN s') fuel = Finished (Ok (DOWNLOADED_BLOCKS s')) ∧
      (∀ h y, known_headers (CHAIN s') !! h = Some y → ∃ x, known_headers c !! h = Some x ∧ stored t c x ∧ similar x y ∧
        (bn_fetched_full y = true ↔ stored_fetched t c x)) ∧
      (∀ h x, known_headers c !! h = Some x → stored t c x → is_Some (known_headers (CHAIN s') !! h)) ∧
      ((∀ h x, known_headers c !! h = Some x → stored t c x) →
        bn_total_work (top_header (CHAIN s')) = bn_total_work (top_header c))) ∧
    ((∀ h x, known_headers c !! h = Some x → bn_number x ≠ 0 → ¬ stored t c x) →
      top_header (CHAIN s') = top_header c0 ∧ dom (known_headers (CHAIN s')) = {[ bh_hash genesis ]} ∧
      number_to_hash (CHAIN s') = {[ 0 := bh_hash genesis ]} ∧ most_work_chain (CHAIN s') = {[ bh_hash genesis ]} ∧
      DOWNLOADED_BLOCKS s' = 0).
Proof.
  intros Hne Hc0 Hsteps Hrun Hreq c t Hsel Hfit Hen.
  pose proof (tracked_steps fuel _ s Hsteps (tracked_start c0 Hne Hc0)) as Htr.
  assert (∀ h row, t !! h = Some row → row_hash row = h ∧ hr_data row ∈ requests s) as Ht.
  { intros h row Hrow. destruct (rows_sent events st h row Hrun Hrow) as [Hh Hin]. split; [done|]. by apply Hreq. }
  destruct (any_stored t c) as [Hpart|Hnone].
  - destruct (restart_core s c0 t rows fuel Htr Hne Hc0 Ht Hsel Hpart Hfit Hen) as (s' & Hs' & Hrest). exists s'.
    split; [done|]. split; [done|]. intros Hnone. destruct Hpart as (h & x & Hx & Hn & Hst). by destruct (Hnone h x Hx Hn).
  - destruct (restart_empty s c0 t rows fuel Htr Hne Hc0 Ht Hsel Hnone) as (s' & Hs' & Hrest).
    { destruct (root_known s c0 Htr Hc0) as (g & Hg & _). pose proof (wf_number c (tk_wf s Htr) _ _ Hg). unfold enough in Hen. lia. }
    exists s'. split; [done|]. split; [|done]. intros (h & x & Hx & Hn & Hst). by destruct (Hnone h x Hx Hn).
Qed.

(** * Example *)

Import Toy ToyChain ToySqlite.

(** A header on top of the genesis block, whose row and that of the genesis block are written. *)
Definition first_header : BlockHeader := bn_header (child (top_header chain0) 1).
Definition state0 : ChainMan := mkChainMan chain0 0 0 0 [].
Definition state1 : ChainMan := with_top state0 (new_header (top_header chain0) first_header).

Definition header_events : list event :=
  [Send (InsertHeader genesis_request); Receive INSERT_HEADER_QUEUE;
   Send (InsertHeader (insert_header_request (new_header (top_header chain0) first_header)));
   Receive INSERT_HEADER_QUEUE; Flush INSERT_HEADER_QUEUE].
Definition header_storage : Storage :=
  default (start_batchers empty_sqlite) (run (start_batchers empty_sqlite) header_events).

Lemma state1_step : rtc (chain_step 10) state0 state1.
Proof.
  assert (extends_chain state0 10 first_header (top_header chain0)) as He by (apply extends_chainb_ok; vm_compute; reflexivity).
  assert (healthy state0 10) as Hh.
  { constructor; [apply chain0_ok|vm_compute; reflexivity|vm_compute; repeat constructor]. }
  apply rtc_once, (step_header 10 state0 first_header true state1 (inr None)).
  - exact (ec_ok _ _ _ _ He).
  - exact (h_size _ _ Hh).
  - exact (h_fuel _ _ Hh).
  - rewrite (apply_new state0 10 first_header _ true Hh He). cbv zeta.
    destruct (_ <? _) eqn:E; [vm_compute in E; discriminate E|]. reflexivity.
Qed.

Lemma first_header_stored :
  forallb (λ a, bool_decide (is_Some (headers (CONNECTION header_storage) !! bn_hash a)))
    (ancestors (CHAIN state1) (new_header (top_header chain0) first_header)) = true.
Proof. vm_compute. reflexivity. Qed.

Lemma restart_restores_witness : ∃ s',
  chainman_start 10 (select_headers (headers (CONNECTION header_storage))) = Finished (Ok s') ∧ chain_wf (CHAIN s') ∧
  is_Some (known_headers (CHAIN s') !! bh_hash first_header).
Proof.
  assert (bool_decide (bh_hash genesis = EMPTY_HASH) = false) as Hne by (vm_compute; reflexivity).
  apply bool_decide_eq_false in Hne. destruct (Chain_default_Ok Hne) as (c0 & Hc & _).
  assert (c0 = chain0) as -> by (unfold chain0; rewrite Hc; reflexivity).
  set (x := new_header (top_header chain0) first_header).
  assert (known_headers (CHAIN state1) !! bh_hash first_header = Some x) as Hx by (vm_compute; reflexivity).
  assert (stored (headers (CONNECTION header_storage)) (CHAIN state1) x) as Hst.
  { intros a Ha. pose proof first_header_stored as Hf. rewrite forallb_forall in Hf.
    apply list_elem_of_In, Hf in Ha. by apply bool_decide_eq_true in Ha. }
  destruct (restart_restores 10 chain0 state1 header_events header_storage (select_headers (headers (CONNECTION header_storage))))
    as (s' & Hs & Hk & _).
  - exact Hne.
  - exact Hc.
  - exact state1_step.
  - vm_compute. reflexivity.
  - intros r Hr. exact Hr.
  - apply select_headers_selected.
  - vm_compute. discriminate.
  - vm_compute. repeat constructor.
  - destruct Hk as (Hwf & _ & _ & _ & Hk & _).
    { exists (bh_hash first_header), x. split; [exact Hx|]. split; [vm_compute; discriminate|exact Hst]. }
    exists s'. split; [exact Hs|]. split; [exact Hwf|]. exact (Hk _ _ Hx Hst).
Defined.
