(* ===== verification/Startup.v ===== *)
(** [src/chainman/headersync.rs] and [start] of [src/chainman/mod.rs]: the sync of headers with one peer after another,
    and what the program does from the headers of its database to the download of blocks. *)
From S2P Require Import Prelude.
From S2P Require Import Extern.
From S2P Require Import Header.
From S2P Require Import Messages.
From S2P Require Import Payload.
From S2P Require Import Loops.
From S2P Require Import Chain.
From S2P Require Import ChainMan.
From S2P Require Import ArenaPool.
From S2P Require Import Text.
From S2P Require Import Analyze.
From S2P Require Import Store.
From S2P Require Import Process.
From S2P Require Import Miners.
From S2P Require Import FrontPage.

(** * The flags *)

(** The two flags, and the limits of the pools of large and of small arenas *)
Record Flags := mkFlags {
  SYNCING_HEADERS : bool;
  SYNCING_BODIES : bool;
  large_limit : Z;
  small_limit : Z;
}.

(** [get_env] of [util/env.rs]: a variable that is not there, or cannot be read, has its default. *)
Definition get_env {A} (parse : bytes → option A) (var : option bytes) (default : A) : A :=
  match var with
  | Some v => match parse v with Some v => v | None => default end
  | None => default
  end.

(** The limits from the environment *)
Record Limits := mkLimits {
  INITIAL_LARGE_DESERIALIZE_ARENAS_COUNT : Z;
  INITIAL_SMALL_DESERIALIZE_ARENAS_COUNT : Z;
  LARGE_DESERIALIZE_ARENAS_COUNT_BLOCKSYNC : Z;
  SMALL_DESERIALIZE_ARENAS_COUNT_BLOCKSYNC : Z;
}.

Definition limits (env : string → option bytes) : Limits :=
  mkLimits (get_env parse_usize (env "INITIAL_LARGE_DESERIALIZE_ARENAS_COUNT"%string) 64)
    (get_env parse_usize (env "INITIAL_SMALL_DESERIALIZE_ARENAS_COUNT"%string) 256)
    (get_env parse_usize (env "LARGE_DESERIALIZE_ARENAS_COUNT_BLOCKSYNC"%string) 512)
    (get_env parse_usize (env "SMALL_DESERIALIZE_ARENAS_COUNT_BLOCKSYNC"%string) 1024).

Definition default_limits : Limits := limits (λ _, None).

Definition start_syncing_headers (f : Flags) : Flags := mkFlags true (SYNCING_BODIES f) (large_limit f) (small_limit f).
Definition stop_syncing_headers (f : Flags) : Flags := mkFlags false (SYNCING_BODIES f) (large_limit f) (small_limit f).

(** The flag is set before the limits are raised, and cleared after they are lowered. *)
Definition start_syncing_blocks (l : Limits) (f : Flags) : list Flags :=
  let f := mkFlags (SYNCING_HEADERS f) true (large_limit f) (small_limit f) in
  let f1 := mkFlags (SYNCING_HEADERS f) true (LARGE_DESERIALIZE_ARENAS_COUNT_BLOCKSYNC l) (small_limit f) in
  [f; f1; mkFlags (SYNCING_HEADERS f) true (large_limit f1) (SMALL_DESERIALIZE_ARENAS_COUNT_BLOCKSYNC l)].

Definition stop_syncing_blocks (l : Limits) (f : Flags) : list Flags :=
  let f1 := mkFlags (SYNCING_HEADERS f) (SYNCING_BODIES f) (INITIAL_LARGE_DESERIALIZE_ARENAS_COUNT l) (small_limit f) in
  let f2 := mkFlags (SYNCING_HEADERS f) (SYNCING_BODIES f) (large_limit f1) (INITIAL_SMALL_DESERIALIZE_ARENAS_COUNT l) in
  [f1; f2; mkFlags (SYNCING_HEADERS f) false (large_limit f2) (small_limit f2)].

Section startup.
Context `{Sha256, U256Lib}.

(** * The sync of headers *)

(** The loop is where it looks whether headers are missing, in a conversation with a peer, or at its end. *)
Inductive phase := Checking | Talking | Synced.

#[export] Instance phase_eq_dec : EqDecision phase.
Proof. solve_decision. Defined.

(** [hs_sent] is kept for the record. *)
Record HeaderSync := mkHeaderSync {
  hs_chainman : ChainMan;
  hs_phase : phase;
  hs_sent : list PayloadToSend;
}.

(** The loop looks at the clock, and connects if it must; [written] is whether the peer takes what is written. The
    deadline passes or the connection fails. A packet comes. *)
Inductive event :=
| Checks (now : Z) (written : bool)
| DeadlinePasses
| PacketComes (now : Z) (payload : option ReceivedPayload) (written : bool).

Definition happen (fuel : nat) (w : HeaderSync) (e : event) : comp HeaderSync :=
  let s := hs_chainman w in
  match hs_phase w, e with
  | Checking, Checks now written =>
      if need_ihd (CHAIN s) now then
        get_headers ← build_get_headers (CHAIN s) fuel;
        mret (if written : bool then mkHeaderSync s Talking (hs_sent w ++ [get_headers]) else mkHeaderSync s Checking (hs_sent w))
      else mret (mkHeaderSync s Synced (hs_sent w))
  | Talking, DeadlinePasses => mret (mkHeaderSync s Checking (hs_sent w))
  | Talking, PacketComes now payload written =>
      '(s, need_break, _, responses) ←
        (match payload with
         | Some p => handle_packet_during_headersync s fuel now p false
         | None => mret (s, false, false, None)
         end);
      let responses := default [] responses in
      let need_break := need_break || (negb written && negb (bool_decide (responses = []))) in
      mret (mkHeaderSync s (if need_break then Checking else Talking) (hs_sent w ++ if written : bool then responses else []))
  | _, _ => Finished (Err "not now")
  end.

Definition sync_headers (fuel : nat) (s : ChainMan) (events : list event) : comp HeaderSync :=
  for_comp (happen fuel) events (mkHeaderSync s Checking []).

(** * The start *)

(** What the task that [start] spawns finds when the sync of headers is over, without letting go of the chain: the state,
    the last block that was downloaded, the blocks to download, and the flags that were set. *)
Record Picked := mkPicked {
  pk_chainman : ChainMan;
  pk_page_top : option hash;
  pk_missing : option (list hash * Z);
  pk_flags : list Flags;
}.

(** [None] while headers are still synced. [f] are the flags at the start. *)
Definition sync_and_pick (fuel : nat) (s : ChainMan) (f : Flags) (now : Z) (events : list event) : comp (option Picked) :=
  synced ← (if need_ihd (CHAIN s) now then
              w ← sync_headers fuel s events;
              match hs_phase w with
              | Synced => s ← after_header_sync (hs_chainman w) fuel; mret (Some (s, [start_syncing_headers f]))
              | _ => mret None
              end
            else mret (Some (s, [])));
  match synced with
  | None => mret None
  | Some (s, flags) =>
      top_downloaded_block_hash ← get_top_downloaded_block_hash (CHAIN s) fuel;
      block_hashes_to_download ← get_block_hashes_to_download (CHAIN s) (DOWNLOADED_BLOCKS s) fuel;
      mret (Some (mkPicked s top_downloaded_block_hash block_hashes_to_download flags))
  end.

(** The flags from where the blocks to download are known. [sync_blocks] comes back whatever becomes of its tasks,
    whose panics it drops. *)
Definition download_flags (l : Limits) (missing : bool) (f : Flags) : list Flags :=
  if missing then
    let started := start_syncing_blocks l f in
    let f := stop_syncing_headers (default f (last started)) in
    started ++ [f] ++ stop_syncing_blocks l f
  else [stop_syncing_headers f].

(** The tables, the miners and the page when the front page is made *)
Context `{RocksDb, Layout, RegexLib} (hex_encode : bytes → bytes).
Context (block_stats : gmap hash BlockMetrics) (d : Databases) (miners : Miners) (page : FrontPageData).

(** The page after it was made for the last block that was downloaded, if there is one; [None] if that panicked. *)
Definition start_page (c : Chain) (fuel : nat) (top : option hash) : comp (option FrontPageData) :=
  match top with
  | Some top_block_hash =>
      match generate_frontpage_data hex_encode c fuel block_stats d miners page top_block_hash with
      | Finished (Ok (page, _)) => mret (Some page)
      | Finished (Panic _) => mret None
      | Finished Ub => Finished Ub
      | Finished (Err e) => Finished (Err e)
      | Running => Running
      end
  | None => mret (Some page)
  end.

(** The task at its end: the page, or [None] if making it panicked and the task with it, and the flags in the order
    in which they were set. *)
Record Started := mkStarted {
  st_picked : Picked;
  st_page : option FrontPageData;
  st_flags : list Flags;
}.

Definition start_task (l : Limits) (fuel : nat) (s : ChainMan) (f : Flags) (now : Z) (events : list event) :
    comp (option Started) :=
  picked ← sync_and_pick fuel s f now events;
  match picked with
  | None => mret None
  | Some p =>
      made ← start_page (CHAIN (pk_chainman p)) fuel (pk_page_top p);
      mret (Some (mkStarted p made
        (pk_flags p ++ match made with
                       | Some _ => download_flags l (bool_decide (is_Some (pk_missing p))) (default f (last (pk_flags p)))
                       | None => []
                       end)))
  end.

(** * The chain during the sync *)

Abbreviation known_size s := (size (known_headers (CHAIN s))).

(** There is room for so many more headers. *)
Definition room_for (s : ChainMan) (fuel n : nat) : Prop :=
  Z.of_nat (known_size s + n) < isize_max ∧ (known_size s + n < fuel)%nat.

Lemma headers_size hs : ∀ s fuel s' r,
  chain_wf (CHAIN s) → Forall acceptable hs → room_for s fuel (length hs) →
  validate_and_apply_headers s fuel hs = Finished (Ok (s', r)) → (known_size s' ≤ known_size s + length hs)%nat.
Proof.
  induction hs as [|h hs IH]; intros s fuel s' r Hwf Hall [Hs Hf] Hr; cbn [validate_and_apply_headers] in Hr.
  { injection Hr as <- <-. lia. }
  apply Forall_cons in Hall as [Ha Hall]. cbn [length] in *.
  assert (healthy s fuel) as Hh by (constructor; [done|lia|lia]). cbind Hr. destruct v as [s1 r1].
  destruct (apply_grows s fuel h true s1 r1 Hh Ha Hv) as (Hg & Hsz & _).
  destruct r1 as [e|v]; [injection Hr as <- <-; lia|]. apply IH in Hr; [lia|by apply Hg|done|split; lia].
Qed.

Definition headers_of (payload : option ReceivedPayload) : list BlockHeader :=
  match payload with Some (RecvHeaders headers) => headers_inner headers | _ => [] end.

Definition headers_in (e : event) : list BlockHeader :=
  match e with PacketComes _ payload _ => headers_of payload | _ => [] end.

Definition all_headers (events : list event) : list BlockHeader := concat (map headers_in events).

(** How the state changes over a part of the sync *)
Record synced_by (s s' : ChainMan) (n : nat) : Prop := {
  sb_grows : grows s s';
  sb_wf : chain_wf (CHAIN s');
  sb_size : (known_size s' ≤ known_size s + n)%nat;
}.

Lemma packet_syncs s fuel now payload b s' need_break renewed responses :
  chain_wf (CHAIN s) → Forall acceptable (headers_of payload) → room_for s fuel (length (headers_of payload)) →
  (match payload with
   | Some p => handle_packet_during_headersync s fuel now p b
   | None => mret (s, b, false, None)
   end) = Finished (Ok (s', need_break, renewed, responses)) →
  synced_by s s' (length (headers_of payload)).
Proof.
  intros Hwf Hall Hroom Hr. assert (synced_by s s (length (headers_of payload))) as Hsame by (constructor; [apply grows_refl|done|lia]).
  destruct payload as [p|]; [|by injection Hr as <- _ _ _]. destruct p; cbn in Hr; try (by injection Hr as <- _ _ _).
  case_bool_decide as He; [by injection Hr as <- _ _ _|]. cbind Hr. destruct v as [s1 r1]. cbn [headers_of] in *.
  assert (s' = s1) as ->.
  { destruct r1; [by injection Hr as <- _ _ _|]. destruct (need_ihd _ _); [destruct (expect _ _); try done|]; by injection Hr as <- _ _ _. }
  destruct Hroom as [Hs Hf]. destruct (headers_grow _ s fuel s1 r1 Hwf Hall Hs Hf Hv) as (Hg & Hwf' & _).
  constructor; [done..|]. by eapply headers_size.
Qed.

Lemma happen_syncs fuel w e w' :
  chain_wf (CHAIN (hs_chainman w)) → Forall acceptable (headers_in e) → room_for (hs_chainman w) fuel (length (headers_in e)) →
  happen fuel w e = Finished (Ok w') → synced_by (hs_chainman w) (hs_chainman w') (length (headers_in e)).
Proof.
  intros Hwf Hall Hroom Hr. assert (∀ n, synced_by (hs_chainman w) (hs_chainman w) n) as Hsame
    by (intros n; constructor; [apply grows_refl|done|lia]).
  unfold happen in Hr. destruct (hs_phase w), e as [now written| |now payload written]; try done.
  - destruct (need_ihd _ _); [|by injection Hr as <-]. cbind Hr. destruct written; by injection Hr as <-.
  - by injection Hr as <-.
  - cbind Hr. destruct v as [[[s1 nb] rn] resp]. injection Hr as <-. cbn [hs_chainman headers_in] in *. by eapply packet_syncs.
Qed.

Lemma sync_syncs fuel events : ∀ w w',
  chain_wf (CHAIN (hs_chainman w)) → Forall acceptable (all_headers events) →
  room_for (hs_chainman w) fuel (length (all_headers events)) →
  for_comp (happen fuel) events w = Finished (Ok w') →
  synced_by (hs_chainman w) (hs_chainman w') (length (all_headers events)).
Proof.
  induction events as [|e events IH]; intros w w' Hwf Hall Hroom Hr; cbn [for_comp] in Hr.
  { injection Hr as <-. constructor; [apply grows_refl|done|lia]. }
  unfold all_headers in *. cbn [map concat] in *. apply Forall_app in Hall as [Ha Hall]. rewrite length_app in *.
  destruct Hroom as [Hs Hf]. cbind Hr. apply happen_syncs in Hv as [Hg Hwf1 Hsz]; [|done|done|split; lia].
  apply IH in Hr as [Hg' Hwf' Hsz']; [|done|done|split; lia]. constructor; [by eapply grows_trans|done|lia].
Qed.

(** The reading of the clock when the loop looked last whether headers are missing *)
Definition last_look (now : Z) (events : list event) : Z :=
  foldl (λ t e, match e with Checks now _ => now | _ => t end) now events.

(** The loop ends only when the top header is recent by the clock that it looked at last. *)
Lemma sync_ends fuel events t w w' :
  hs_phase w ≠ Synced → for_comp (happen fuel) events w = Finished (Ok w') → hs_phase w' = Synced →
  need_ihd (CHAIN (hs_chainman w')) (last_look t events) = false.
Proof.
  revert t w. induction events as [|e events IH]; intros t w Hw Hr Hs; cbn [for_comp] in Hr; [by injection Hr as <-|].
  unfold last_look in *. cbn [foldl].
  cbind Hr. destruct (decide (hs_phase v = Synced)) as [Hv'|Hv']; [|by eapply IH].
  assert (events = []) as ->.
  { destruct events as [|e' events]; [done|]. cbn [for_comp] in Hr. cbind Hr. unfold happen in Hv0. by rewrite Hv' in Hv0. }
  injection Hr as <-. cbn [foldl]. unfold happen in Hv. destruct (hs_phase w), e as [now written| |now payload written]; try done.
  - destruct (need_ihd (CHAIN (hs_chainman w)) now) eqn:Hn; [|by injection Hv as <-].
    cbind Hv. destruct written; by injection Hv as <-.
  - by injection Hv as <-.
  - cbind Hv. destruct v0 as [[[s1 nb] rn] resp]. injection Hv as <-. cbn in Hv'. by destruct (_ || _).
Qed.

(** * Properties *)

Definition any_flag (f : Flags) : bool := SYNCING_HEADERS f || SYNCING_BODIES f.

(** Neither flag, and the limits of the pools as at first *)
Definition at_rest (l : Limits) (f : Flags) : Prop :=
  any_flag f = false ∧ large_limit f = INITIAL_LARGE_DESERIALIZE_ARENAS_COUNT l ∧
  small_limit f = INITIAL_SMALL_DESERIALIZE_ARENAS_COUNT l.

Lemma flags_until_the_end l missing f flags f0 :
  at_rest l f0 → (flags = [] ∧ f = f0) ∨ (flags = [f] ∧ f = start_syncing_headers f0) →
  let all := flags ++ download_flags l missing f in
  Forall (λ x, any_flag x = true) (removelast all) ∧ at_rest l (default f0 (last all)).
Proof.
  intros (Hany & Hl & Hs). unfold any_flag in Hany. apply orb_false_elim in Hany as [Hh Hb].
  intros [[-> ->]|[-> ->]]; destruct missing; cbn; split; try (repeat constructor; cbn; by rewrite ?Hh, ?Hb);
    unfold at_rest, any_flag; cbn; rewrite ?Hh, ?Hb; split_and!; done.
Qed.

(** What the headers of the database leave, and what must be known of the events *)
Record start_ok (s : ChainMan) (fuel : nat) (events : list event) : Prop := {
  so_wf : chain_wf (CHAIN s);
  so_index : chain_index (CHAIN s);
  so_downloaded : calculate_downloaded_blocks (CHAIN s) fuel = Finished (Ok (DOWNLOADED_BLOCKS s));
  so_headers : Forall acceptable (all_headers events);
  so_room : room_for s fuel (length (all_headers events));
}.

(** What [load_headers_from_sqlite] leaves is what the task of the start begins with. *)
Lemma loaded_start_ok s0 fuel headers s events :
  load_headers_from_sqlite s0 fuel headers = Finished (Ok s) → chain_wf (CHAIN s) → chain_index (CHAIN s) →
  Forall acceptable (all_headers events) → room_for s fuel (length (all_headers events)) → start_ok s fuel events.
Proof.
  intros Hl Hwf Hix Hall Hroom. constructor; try done. unfold load_headers_from_sqlite in Hl. cbind Hl. cbind Hl.
  by injection Hl as <-.
Qed.

(** The state from which the blocks are downloaded *)
Record ready (s s' : ChainMan) (fuel : nat) : Prop := {
  re_wf : chain_wf (CHAIN s');
  re_index : chain_index (CHAIN s');
  re_known : known_headers (CHAIN s) ⊆ known_headers (CHAIN s');
  re_work : bn_total_work (top_header (CHAIN s)) <= bn_total_work (top_header (CHAIN s'));
  re_downloaded : calculate_downloaded_blocks (CHAIN s') fuel = Finished (Ok (DOWNLOADED_BLOCKS s'));
  re_fits : chain_fits (CHAIN s') ∧ enough (CHAIN s') fuel;
}.

Lemma with_index_wf (c c' : Chain) :
  top_header c' = top_header c → known_headers c' = known_headers c → chain_wf c → chain_wf c'.
Proof. destruct c, c'. cbn. intros -> -> []. by constructor. Qed.

(** The counter and the indexes are made anew when the headers are synced. *)
Lemma after_header_sync_ready s s1 fuel n s' :
  synced_by s s1 n → room_for s fuel n → after_header_sync s1 fuel = Finished (Ok s') → ready s s' fuel.
Proof.
  intros [Hg Hwf Hsz] [Hs Hf] Hr. unfold after_header_sync in Hr. cbind Hr. rename v into count, Hv into Hcount. cbind Hr. injection Hr as <-.
  assert (enough (CHAIN s1) fuel) as Hen by (unfold enough; lia).
  assert (chain_fits (CHAIN s1)) as Hfit by (unfold chain_fits; lia).
  destruct (generate_top_work_chain_hashset_Ok (CHAIN s1) fuel Hwf Hen) as (c' & Hc & Ht & Hk & Hi).
  rewrite Hc in Hv. injection Hv as <-. assert (chain_wf c') as Hwf' by by eapply with_index_wf.
  assert (enough c' fuel) as Hen' by (unfold enough; by rewrite Hk). assert (chain_fits c') as Hfit' by (unfold chain_fits; by rewrite Hk).
  constructor; cbn [CHAIN set_CHAIN store_downloaded DOWNLOADED_BLOCKS]; [done..| | | |done].
  - rewrite Hk. apply Hg.
  - rewrite Ht. apply Hg.
  - rewrite <- Hcount, !calculate_downloaded_blocks_spec by done. unfold first_fetched, ancestors. by rewrite Ht, Hk.
Qed.

(** Headers each of which extends the chain and makes it at least as heavy *)
Inductive extending (fuel : nat) : ChainMan → list BlockHeader → ChainMan → Prop :=
| no_headers s : extending fuel s [] s
| one_header s h p hs s' :
    healthy s fuel → extends_chain s fuel h p → bn_total_work (top_header (CHAIN s)) <= bn_total_work (new_header p h) →
    extending fuel (with_top s (new_header p h)) hs s' → extending fuel s (h :: hs) s'.

Lemma extending_applied fuel s hs s' :
  extending fuel s hs s' → validate_and_apply_headers s fuel hs = Finished (Ok (s', inr tt)).
Proof.
  induction 1 as [s|s h p hs s' Hh He Hle _ IH]; [done|]. cbn [validate_and_apply_headers].
  rewrite (apply_new s fuel h p true Hh He). cbv zeta. rewrite (proj2 (Z.ltb_ge _ _)) by done. rewrite comp_bind_Finished. exact IH.
Qed.

(** The answers of a peer that knows the missing headers: with the last of them the chain is recent. *)
Inductive batches (fuel : nat) (now : Z) : ChainMan → list (list BlockHeader) → ChainMan → Prop :=
| last_batch s hs s' :
    hs ≠ [] → extending fuel s hs s' → need_ihd (CHAIN s') now = false → batches fuel now s [hs] s'
| more_batches s hs s1 l s' :
    hs ≠ [] → extending fuel s hs s1 → need_ihd (CHAIN s1) now = true → batches fuel now s1 l s' →
    batches fuel now s (hs :: l) s'.

Definition batch (now : Z) (hs : list BlockHeader) : event := PacketComes now (Some (RecvHeaders (mkHeaders hs))) true.

(** The conversation with such a peer *)
Definition good_peer (now : Z) (l : list (list BlockHeader)) : list event :=
  [Checks now true] ++ map (batch now) l ++ [Checks now true].

Lemma batches_synced fuel now s l s' sent :
  batches fuel now s l s' →
  ∃ sent', for_comp (happen fuel) (map (batch now) l ++ [Checks now true]) (mkHeaderSync s Talking sent)
    = Finished (Ok (mkHeaderSync s' Synced sent')).
Proof.
  intros Hb. revert sent. induction Hb as [s hs s' Hne He Hn|s hs s1 l s' Hne He Hn _ IH]; intros sent;
    cbn [map app for_comp happen batch hs_phase hs_chainman handle_packet_during_headersync headers_inner];
    rewrite bool_decide_false, (extending_applied _ _ _ _ He), comp_bind_Finished by done; rewrite Hn.
  - cbn. rewrite Hn. cbn. by eexists.
  - destruct (last hs) as [h|] eqn:Hl; [|by apply last_None in Hl]. cbn. apply IH.
Qed.

Lemma sync_and_pick_ready fuel s f now events p :
  start_ok s fuel events → sync_and_pick fuel s f now events = Finished (Ok (Some p)) →
  let c := CHAIN (pk_chainman p) in
  ready s (pk_chainman p) fuel ∧
  need_ihd c (if need_ihd (CHAIN s) now then last_look now events else now) = false ∧
  pk_page_top p = (λ a, bn_hash a) <$> first_fetched c ∧
  pk_missing p = (let downloaded := match first_fetched c with Some a => bn_number a + 1 | None => 0 end in
                  if bn_number (top_header c) <? downloaded then None
                  else Some (map (λ a, bn_hash a) (drop (Z.to_nat downloaded) (main_chain c)), downloaded)) ∧
  pk_flags p = (if need_ihd (CHAIN s) now then [start_syncing_headers f] else []).
Proof.
  intros [Hwf Hix Hd Hall Hroom] Hr. unfold sync_and_pick in Hr. cbind Hr. destruct v as [[s1 flags]|]; [|done].
  assert (ready s s1 fuel ∧ need_ihd (CHAIN s1) (if need_ihd (CHAIN s) now then last_look now events else now) = false ∧
    flags = (if need_ihd (CHAIN s) now then [start_syncing_headers f] else [])) as (Hready & Hnow & Hflags).
  { destruct (need_ihd (CHAIN s) now) eqn:Hn.
    - cbind Hv. destruct (hs_phase v) eqn:Hp; try done. cbind Hv. injection Hv as <- <-. unfold sync_headers in Hv0.
      pose proof (sync_ends fuel events now (mkHeaderSync s Checking []) v ltac:(done) Hv0 Hp) as Hnow.
      apply sync_syncs in Hv0; [|done..]. split_and!; [by eapply after_header_sync_ready| |done].
      unfold after_header_sync in Hv1. cbind Hv1. cbind Hv1. injection Hv1 as <-.
      destruct (generate_top_work_chain_hashset_Ok (CHAIN (hs_chainman v)) fuel) as (c' & Hc & Ht & _);
        [apply (sb_wf _ _ _ Hv0)|destruct Hroom; destruct Hv0; unfold enough; cbn in *; lia|].
      rewrite Hc in Hv2. injection Hv2 as <-. unfold need_ihd in *. cbn. by rewrite Ht.
    - injection Hv as <- <-. split_and!; [|done|done]. destruct Hroom as [Hs Hf].
      constructor; try done. split; [unfold chain_fits|unfold enough]; lia. }
  cbind Hr. cbind Hr. injection Hr as <-. cbn [pk_chainman pk_page_top pk_missing pk_flags]. destruct Hready as [Hwf1 Hix1 Hk Hw Hd1 [Hfit Hen]].
  split_and!; try done.
  - rewrite get_top_downloaded_block_hash_spec in Hv0 by done. by injection Hv0 as <-.
  - rewrite (get_block_hashes_to_download_spec _ fuel Hwf1 Hen _ Hfit Hd1) in Hv1. injection Hv1 as <-.
    rewrite (calculate_downloaded_blocks_spec _ fuel Hwf1 Hen Hfit) in Hd1. injection Hd1 as <-. done.
Qed.

(** C12. When the task of the start has gone through the sync of headers, whatever the peers sent: the
    chain is well formed and indexed, has kept every header and lost no work, and its top header is recent by the clock that was
    looked at last. The front page is made for the last block that was downloaded, and the blocks that go to the
    download are just those of the main chain above it, oldest first. From the first flag that is set to the last
    that is cleared one is set at all times, so no block of a peer is taken in between; in the end both are cleared and the limits
    of the pools are what they were. But if making the front page panics the task is over: nothing is downloaded, and the flag
    of the headers, if it was set, stays set. *)
Theorem start_ready l fuel s f now events st :
  start_ok s fuel events → at_rest l f → start_task l fuel s f now events = Finished (Ok (Some st)) →
  let p := st_picked st in
  let c := CHAIN (pk_chainman p) in
  ready s (pk_chainman p) fuel ∧
  need_ihd c (if need_ihd (CHAIN s) now then last_look now events else now) = false ∧
  pk_page_top p = (λ a, bn_hash a) <$> first_fetched c ∧
  pk_missing p = (let downloaded := match first_fetched c with Some a => bn_number a + 1 | None => 0 end in
                  if bn_number (top_header c) <? downloaded then None
                  else Some (map (λ a, bn_hash a) (drop (Z.to_nat downloaded) (main_chain c)), downloaded)) ∧
  match pk_page_top p with
  | Some h =>
      match st_page st with
      | Some page' => ∃ b, generate_frontpage_data hex_encode c fuel block_stats d miners page h = Finished (Ok (page', b))
      | None => ∃ m, generate_frontpage_data hex_encode c fuel block_stats d miners page h = Finished (Panic m)
      end
  | None => st_page st = Some page
  end ∧
  match st_page st with
  | Some _ => Forall (λ x, any_flag x = true) (removelast (st_flags st)) ∧ at_rest l (default f (last (st_flags st)))
  | None => st_flags st = if need_ihd (CHAIN s) now then [start_syncing_headers f] else []
  end.
Proof.
  intros Hok Hrest Hr. unfold start_task in Hr. cbind Hr. destruct v as [p|]; [|done]. cbind Hr. injection Hr as <-.
  destruct (sync_and_pick_ready fuel s f now events p Hok Hv) as (Hready & Hnow & Htop & Hmissing & Hflags).
  cbn [st_picked st_page st_flags]. split_and!; [done..| |].
  - unfold start_page in Hv0. destruct (pk_page_top p) as [h|]; [|by injection Hv0 as <-].
    destruct (generate_frontpage_data _ _ _ _ _ _ _ _) as [[[page' b]| | |]|]; try done; injection Hv0 as <-; by eexists.
  - destruct v; [|by rewrite app_nil_r]. apply flags_until_the_end; [done|]. rewrite Hflags.
    destruct (need_ihd (CHAIN s) now); [by right|by left].
Qed.

Lemma for_comp_app {A S} (f : S → A → comp S) l k s s1 :
  for_comp f l s = Finished (Ok s1) → for_comp f (l ++ k) s = for_comp f k s1.
Proof.
  revert s. induction l as [|x l IH]; intros s Hl; cbn [app for_comp] in *; [by injection Hl as ->|].
  cbind Hl. rewrite Hv, comp_bind_Finished. by apply IH.
Qed.

Lemma check_asks fuel s sent now get_headers :
  need_ihd (CHAIN s) now = true → build_get_headers (CHAIN s) fuel = Finished (Ok get_headers) →
  happen fuel (mkHeaderSync s Checking sent) (Checks now true) = Finished (Ok (mkHeaderSync s Talking (sent ++ [get_headers]))).
Proof. intros Hn Hg. unfold happen. cbn [hs_phase hs_chainman hs_sent]. by rewrite Hn, Hg. Qed.

(** C13. Whatever happened in the sync of headers before, with peers that sent nothing or anything: one more
    peer that answers with the missing headers, each on top of the one before, is enough, in as many packets as it takes. If the loop is in a conversation
    its deadline passes; then it connects to that peer, asks once, is sent the packets one after the other,
    and looks at the clock. After just these events the headers are synced, the last of these headers is on
    top, and the task of the start goes on to the front page and the download. *)
Theorem start_can_finish fuel s f now events w hs s' now' :
  let last_peer := (if bool_decide (hs_phase w = Talking) then [DeadlinePasses] else []) ++
    [Checks now' true] ++ map (λ h, PacketComes now' (Some (RecvHeaders (mkHeaders h))) true) hs ++ [Checks now' true] in
  start_ok s fuel (events ++ last_peer) →
  need_ihd (CHAIN s) now = true → sync_headers fuel s events = Finished (Ok w) → hs_phase w ≠ Synced →
  need_ihd (CHAIN (hs_chainman w)) now' = true → batches fuel now' (hs_chainman w) hs s' →
  ∃ p, sync_and_pick fuel s f now (events ++ last_peer) = Finished (Ok (Some p)) ∧
    top_header (CHAIN (pk_chainman p)) = top_header (CHAIN s') ∧ known_headers (CHAIN (pk_chainman p)) = known_headers (CHAIN s').
Proof.
  intros last_peer Hok Hn Hrun Hph Hn' Hb. pose proof Hok as [Hwf _ _ Hall Hroom].
  set (s1 := hs_chainman w) in *. unfold sync_headers in Hrun.
  set (before := if bool_decide (hs_phase w = Talking) then [DeadlinePasses] else []) in *.
  assert (∃ sent, for_comp (happen fuel) (events ++ before) (mkHeaderSync s Checking []) = Finished (Ok (mkHeaderSync s1 Checking sent)))
    as (sent & Hbefore).
  { exists (hs_sent w). subst before. destruct (hs_phase w) eqn:Hw; [| |done].
    - rewrite bool_decide_false, app_nil_r, Hrun by done. subst s1. destruct w. cbn in Hw. by rewrite Hw.
    - rewrite bool_decide_true, (for_comp_app _ _ _ _ _ Hrun) by done. cbn [for_comp]. unfold happen at 1. by rewrite Hw. }
  assert (chain_wf (CHAIN s1) ∧ chain_fits (CHAIN s1) ∧ enough (CHAIN s1) fuel) as (Hwf1 & Hfit1 & Hen1).
  { unfold all_headers in Hall, Hroom. rewrite map_app, concat_app in Hall, Hroom. apply Forall_app in Hall as [Hall _].
    rewrite length_app in Hroom. destruct Hroom as [Hs Hf]. apply sync_syncs in Hrun as [_ Hwf1 Hsz]; [|done|done|split; cbn; unfold all_headers; lia].
    cbn [hs_chainman] in Hsz. fold s1 in Hwf1, Hsz. unfold all_headers in Hsz. split_and!; [done|unfold chain_fits; lia|unfold enough; lia]. }
  destruct (locator_shape (CHAIN s1) fuel Hwf1 Hfit1 Hen1) as (xs & Hloc & _).
  destruct (batches_synced fuel now' s1 hs s' (sent ++ [SendGetHeaders (mkGetHeaders 70016 (map (λ x, bn_hash x) xs) EMPTY_HASH)]) Hb)
    as [sent' Hend].
  assert (sync_headers fuel s (events ++ last_peer) = Finished (Ok (mkHeaderSync s' Synced sent'))) as Hall_run.
  { unfold sync_headers. subst last_peer. rewrite app_assoc, (for_comp_app _ _ _ _ _ Hbefore). cbn [app for_comp].
    rewrite (check_asks fuel s1 sent now' _ Hn' Hloc), comp_bind_Finished. exact Hend. }
  pose proof Hall_run as Hs. unfold sync_headers in Hs. apply sync_syncs in Hs; [|done..]. cbn [hs_chainman] in Hs.
  destruct Hroom as [Hsz Hf]. assert (chain_fits (CHAIN s') ∧ enough (CHAIN s') fuel) as [Hfit Hen]
    by (destruct Hs as [_ _ Hsize]; split; [unfold chain_fits|unfold enough]; lia).
  pose proof (sb_wf _ _ _ Hs) as Hwf'.
  destruct (generate_top_work_chain_hashset_Ok (CHAIN s') fuel Hwf' Hen) as (c' & Hc & Ht & Hk & _).
  unfold sync_and_pick. rewrite Hn, Hall_run, comp_bind_Finished. cbn [hs_phase hs_chainman].
  unfold after_header_sync. pose proof (calculate_downloaded_blocks_spec (CHAIN s') fuel Hwf' Hen Hfit) as Hd. rewrite Hd, !comp_bind_Finished, Hc, !comp_bind_Finished.
  unfold mret, comp_ret. rewrite !comp_bind_Finished. cbn [CHAIN set_CHAIN store_downloaded DOWNLOADED_BLOCKS].
  assert (chain_wf c') as Hwfc by by eapply with_index_wf.
  assert (enough c' fuel) as Henc by (unfold enough; by rewrite Hk). assert (chain_fits c') as Hfitc by (unfold chain_fits; by rewrite Hk).
  rewrite get_top_downloaded_block_hash_spec, comp_bind_Finished by done.
  rewrite get_block_hashes_to_download_spec, comp_bind_Finished; [|done..|].
  - eexists. split; [reflexivity|]. by cbn.
  - rewrite calculate_downloaded_blocks_spec by done. unfold first_fetched, ancestors. by rewrite Ht, Hk.
Qed.
End startup.

(** * Examples *)

Import Toy ToyDb ToyChain.

Definition toy_flags : Flags := mkFlags false false 64 256.
Definition toy_now : Z := 1231469665 + 10.
Definition toy_start : ChainMan := mkChainMan chain0 0 0 0 [].
Definition missing_header : BlockHeader := bn_header (child (top_header chain0) 1).
Definition toy_synced : ChainMan := with_top toy_start (new_header (top_header chain0) missing_header).

(** A peer that does not answer, one that is of no use, and a good one *)
Definition toy_before : list event :=
  [Checks toy_now true; DeadlinePasses; Checks toy_now true; PacketComes toy_now (Some (RecvHeaders (mkHeaders []))) true].

Definition toy_events : list event := toy_before ++ good_peer toy_now [[missing_header]].

Lemma toy_start_healthy : healthy toy_start 10.
Proof. constructor; [apply chain0_ok|vm_compute; reflexivity|vm_compute; repeat constructor]. Qed.

Lemma missing_header_extends : extends_chain toy_start 10 missing_header (top_header chain0).
Proof. apply extends_chainb_ok. vm_compute. reflexivity. Qed.

Lemma toy_downloaded : calculate_downloaded_blocks chain0 10 = Finished (Ok 0).
Proof. vm_compute. reflexivity. Qed.

Lemma toy_ok events : all_headers events = [missing_header] → start_ok toy_start 10 events.
Proof.
  intros He. constructor; rewrite ?He; [apply chain0_ok|apply chain0_ok|exact toy_downloaded| |].
  - apply Forall_singleton. apply (ec_ok _ _ _ _ missing_header_extends).
  - split; vm_compute; [reflexivity|repeat constructor].
Qed.

Lemma toy_batches : batches 10 toy_now toy_start [[missing_header]] toy_synced.
Proof.
  apply last_batch; [done| |vm_compute; reflexivity].
  apply (one_header _ _ _ (top_header chain0)); [exact toy_start_healthy|exact missing_header_extends| |apply no_headers].
  vm_compute. discriminate.
Qed.

Lemma toy_missing : need_ihd (CHAIN toy_start) toy_now = true.
Proof. vm_compute. reflexivity. Qed.

Lemma toy_run_before : ∃ w, sync_headers 10 toy_start toy_before = Finished (Ok w) ∧ hs_phase w = Checking ∧ hs_chainman w = toy_start.
Proof. vm_compute. eexists. split; [reflexivity|]. split; reflexivity. Qed.

Lemma start_can_finish_witness : ∃ p,
  sync_and_pick 10 toy_start toy_flags toy_now toy_events = Finished (Ok (Some p)) ∧
  top_header (CHAIN (pk_chainman p)) = new_header (top_header chain0) missing_header.
Proof.
  destruct toy_run_before as (w & Hw & Hp & Hs).
  pose proof (start_can_finish 10 toy_start toy_flags toy_now toy_before w [[missing_header]] toy_synced toy_now) as Hf.
  rewrite Hp in Hf. rewrite bool_decide_false in Hf by discriminate.
  destruct Hf as (p & Hst & Htop & _).
  - apply toy_ok. reflexivity.
  - exact toy_missing.
  - exact Hw.
  - discriminate.
  - rewrite Hs. exact toy_missing.
  - rewrite Hs. exact toy_batches.
  - exists p. split; [exact Hst|exact Htop].
Defined.

#[local] Instance startup_no_regex : RegexLib := toy_no_regex.

Definition empty_page : FrontPageData := mkFrontPageData Stats_default [] [] None.

Definition toy_task (s : ChainMan) : comp (option Started) :=
  start_task id toy_block_stats page_db page_miners empty_page default_limits 10 s toy_flags toy_now toy_events.

Definition started (r : comp (option Started)) : bool := match r with Finished (Ok (Some _)) => true | _ => false end.

Lemma toy_started : started (toy_task toy_start) = true.
Proof. vm_compute. reflexivity. Qed.

Lemma start_ready_witness : ∃ st,
  toy_task toy_start = Finished (Ok (Some st)) ∧
  chain_index (CHAIN (pk_chainman (st_picked st))) ∧ st_page st = Some empty_page ∧
  at_rest default_limits (default toy_flags (last (st_flags st))).
Proof.
  pose proof toy_started as Hok. unfold toy_task in *.
  destruct (start_task id toy_block_stats page_db page_miners empty_page default_limits 10 toy_start toy_flags toy_now toy_events)
    as [[[st|]| | |]|] eqn:Hst; try discriminate Hok.
  exists st. destruct (start_ready id toy_block_stats page_db page_miners empty_page default_limits 10 toy_start toy_flags toy_now toy_events st)
    as ([_ Hix _ _ _ _] & _ & Htop & _ & Hpage & Hlast).
  - apply toy_ok. reflexivity.
  - split; [reflexivity|split; reflexivity].
  - exact Hst.
  - split; [reflexivity|]. split; [exact Hix|].
    assert (pk_page_top (st_picked st) = None) as Hnone.
    { apply (f_equal (λ r, match r with Finished (Ok (Some st)) => pk_page_top (st_picked st) | _ => None end)) in Hst.
      rewrite <- Hst. vm_compute. reflexivity. }
    rewrite Hnone in Hpage. rewrite Hpage in Hlast. split; [exact Hpage|]. exact (proj2 Hlast).
Defined.

(** The genesis block was downloaded and has its statistics, but the tables lack its transactions: the front page
    panics, nothing is downloaded, and the flag of the headers stays set. *)
Definition marked_start : ChainMan :=
  let g := mark_downloaded (top_header chain0) [] in
  mkChainMan (mkChain g {[ bn_hash g := g ]} (number_to_hash chain0) (most_work_chain chain0)) 1 0 1 [].

Example start_panics :
  match start_task id {[ bn_hash (top_header chain0) := toy_metrics (top_header chain0) ]} (mkDatabases toy_db ∅ ∅ ∅ ∅ ∅) page_miners empty_page default_limits 10 marked_start
          toy_flags toy_now toy_events with
  | Finished (Ok (Some st)) => st_page st = None ∧ is_Some (pk_missing (st_picked st)) ∧ st_flags st = [start_syncing_headers toy_flags]
  | _ => False
  end.
Proof. vm_compute. split; [reflexivity|]. split; [eexists; reflexivity|reflexivity]. Qed.
