(* ===== verification/Follow.v ===== *)
(** [src/chainman/keepup.rs]: the two tasks of the keepup. The chain watcher takes headers and blocks as they
    come; the worker manager hands the block that is waited for to a worker that registered. *)
From S2P Require Import Prelude.
From S2P Require Import Extern.
From S2P Require Import Header.
From S2P Require Import Tx.
From S2P Require Import Block.
From S2P Require Import Loops.
From S2P Require Import Chain.
From S2P Require Import ChainMan.
From S2P Require Import Analyze.
From S2P Require Import Store.
From S2P Require Import Queries.
From S2P Require Import Process.
From S2P Require Import Keepup.
From S2P Require Import Restart.

(** * The worker manager *)

(** [Vec::swap_remove] *)
Definition swap_remove {A} (l : list A) (i : nat) : option (A * list A) :=
  x ← l !! i; z ← last l; Some (x, removelast (<[i := z]> l)).

(** A worker is known by the channel that it waits at. A job goes to a worker drawn at random; one that is not
    there any more is dropped, and another is drawn. [draws] are the numbers that are drawn, in the range of
    the workers that are left; gives the worker that has the job, and those that still wait. *)
Fixpoint hand_out {W} (waits : W → bool) (draws : list nat) (workers : list W) : option (option W * list W) :=
  match workers with
  | [] => Some (None, [])
  | _ =>
      match draws with
      | [] => None
      | worker_idx :: draws =>
          '(worker, workers) ← swap_remove workers worker_idx;
          if waits worker then Some (Some worker, workers) else hand_out waits draws workers
      end
  end.

(** * The two tasks *)

(** The capacity of the channels between them and to them *)
Definition CHANNEL_SIZE : nat := 16.

Section follow.
Context `{Sha256, U256Lib, RocksDb, Layout, UnstableSort} {W : Type}.

(** [fo_jobs] is the channel of the jobs. The last three are kept for the record: the jobs that workers were given,
    the entries that were ever queued, and the blocks that were announced as applied. *)
Record Follow := mkFollow {
  fo_chain : ChainMan;
  fo_databases : Databases;
  fo_queue : list QueueEntry;
  fo_jobs : list hash;
  fo_workers : list W;
  fo_given : list (W * hash);
  fo_queued : list QueueEntry;
  fo_applied : list hash;
}.

(** What may happen next: a worker registers; the manager takes a job; the ticker of the watcher; a header or a
    block comes, with the address that the allocator will give to the arena. *)
Inductive event :=
| Registers (worker : W)
| Dispatches (waits : W → bool) (draws : list nat)
| Ticks
| HeaderComes (header : BlockHeader)
| BlockComes (address : Z) (block : Block).

Definition block_hash (e : QueueEntry) : hash := e.1.2.

(** [Err] if it is not the time for the event: there is no job, or no room for one. *)
Definition happen (fuel : nat) (w : Follow) (e : event) : comp (Follow) :=
  match e with
  | Registers worker =>
      mret (mkFollow (fo_chain w) (fo_databases w) (fo_queue w) (fo_jobs w) (fo_workers w ++ [worker])
              (fo_given w) (fo_queued w) (fo_applied w))
  | Dispatches waits draws =>
      match fo_jobs w with
      | [] => Finished (Err "not now")
      | job :: jobs =>
          '(worker, workers) ← Finished (ok_or (hand_out waits draws (fo_workers w)) "not now");
          mret (mkFollow (fo_chain w) (fo_databases w) (fo_queue w) jobs workers
                  (fo_given w ++ match worker with Some x => [(x, job)] | None => [] end) (fo_queued w) (fo_applied w))
      end
  | Ticks =>
      match fo_queue w with
      | [] => mret w
      | next :: _ =>
          if (length (fo_jobs w) <? CHANNEL_SIZE)%nat then
            mret (mkFollow (fo_chain w) (fo_databases w) (fo_queue w) (fo_jobs w ++ [block_hash next]) (fo_workers w)
                    (fo_given w) (fo_queued w) (fo_applied w))
          else Finished (Err "not now")
      end
  | HeaderComes header =>
      '(s, queue, _) ← handle_new_header (fo_chain w) fuel header (fo_queue w);
      mret (mkFollow s (fo_databases w) queue (fo_jobs w) (fo_workers w) (fo_given w)
              (fo_queued w ++ drop (length (fo_queue w)) queue) (fo_applied w))
  | BlockComes address block =>
      '(d, s, queue, applied) ← handle_new_block (fo_databases w) (fo_chain w) fuel address block (fo_queue w);
      mret (mkFollow s d queue (fo_jobs w) (fo_workers w) (fo_given w) (fo_queued w)
              (fo_applied w ++ match applied with Some h => [h] | None => [] end))
  end.

Definition run (fuel : nat) (w : Follow) (events : list (event)) : comp (Follow) := for_comp (happen fuel) events w.

Definition start (s : ChainMan) (d : Databases) : Follow := mkFollow s d [] [] [] [] [] [].
End follow.

(** * New headers *)

Section headers.
Context `{Sha256, U256Lib}.

(** The hashes of the main chain *)
Definition main_hashes (c : Chain) : list hash := (entries c (top_header c)).*1.

Lemma fork_jobs_hashes n l : map (λ e : QueueEntry, e.1.2) (fork_jobs n l) = l.*1.
Proof.
  unfold fork_jobs. change (map ?f ?l) with (f <$> l). rewrite fmap_imap. apply list_eq. intros i.
  rewrite list_lookup_imap, list_lookup_fmap. by destruct (l !! i) as [[]|].
Qed.

Lemma entries_known c x e : chain_wf c → in_chain c x → e ∈ entries c x → is_Some (known_headers c !! e.1).
Proof.
  intros Hwf Hx He. destruct e as [h n]. apply elem_of_entries in He as (a & Ha & _ & <-).
  apply (elem_of_ancestors c x a) in Ha as [Ha _]; [|done..]. destruct Ha as (y & Hy & _). by exists y.
Qed.

(** What a new header does: the chain grows, and the main chain consists of blocks that it had before and
    of those that were queued. *)
Record header_added (s s' : ChainMan) (added : list QueueEntry) : Prop := {
  ha_wf : chain_wf (CHAIN s');
  ha_sub : known_headers (CHAIN s) ⊆ known_headers (CHAIN s');
  ha_size : (size (known_headers (CHAIN s')) <= S (size (known_headers (CHAIN s))))%nat;
  ha_main h : h ∈ main_hashes (CHAIN s') → h ∈ main_hashes (CHAIN s) ∨ h ∈ map (λ e : QueueEntry, e.1.2) added;
  ha_known e : e ∈ added → is_Some (known_headers (CHAIN s') !! e.1.2);
}.

Lemma nothing_added s : chain_wf (CHAIN s) → header_added s s [].
Proof. intros Hwf. constructor; [done|done|lia|by left|]. by intros e ?%not_elem_of_nil. Qed.

Section new_header.
Context (s : ChainMan) (fuel : nat) (h : BlockHeader) (p : BlockHeaderWithNumber).
Context (Hh : healthy s fuel) (He : extends_chain s fuel h p).

Lemma added_beside :
  bn_total_work (new_header p h) < bn_total_work (top_header (CHAIN s)) → header_added s (with_header s (new_header p h)) [].
Proof.
  intros Hlt. destruct (with_header_wf s fuel h p Hh He) as [Hwf _].
  pose proof (old_in_chain s fuel h p Hh He (top_header (CHAIN s)) (wf_top _ (h_wf _ _ Hh))) as [_ Hent].
  constructor.
  - apply Hwf. lia.
  - apply insert_subseteq, He.
  - change (known_headers (CHAIN (with_header s ?x))) with (<[ bn_hash x := x ]> (known_headers (CHAIN s))).
    rewrite map_size_insert_None; [done|apply He].
  - intros k Hk. left. unfold main_hashes in *. rewrite <- Hent. exact Hk.
  - by intros e ?%not_elem_of_nil.
Qed.

(** The header becomes the top: all blocks from the split on are queued. *)
Lemma added_on_top s' added :
  bn_total_work (top_header (CHAIN s)) <= bn_total_work (new_header p h) →
  top_header (CHAIN s') = new_header p h → known_headers (CHAIN s') = known_headers (CHAIN (with_top s (new_header p h))) →
  bh_hash h ∈ map (λ e : QueueEntry, e.1.2) added →
  (∀ e, e ∈ entries (CHAIN s) p → e ∈ entries (CHAIN s) (top_header (CHAIN s)) ∨ e.1 ∈ map (λ e : QueueEntry, e.1.2) added) →
  (∀ e, e ∈ added → e.1.2 = bh_hash h ∨ e.1.2 ∈ (entries (CHAIN s) p).*1) →
  header_added s s' added.
Proof.
  intros Hle Ht Hk Hself Hold Hnew. destruct (with_header_wf s fuel h p Hh He) as [_ Hwf]. specialize (Hwf Hle).
  pose proof (new_entries s fuel h p Hh He Hle) as Hent. pose proof (h_wf _ _ Hh) as Hwf0.
  constructor.
  - destruct s' as [c' a b d i]. cbn [CHAIN] in *. destruct c' as [t k n m]. cbn in Ht, Hk. subst t k.
    by apply (wf_reindexed (CHAIN (with_top s (new_header p h)))).
  - rewrite Hk. apply insert_subseteq, He.
  - rewrite Hk. change (known_headers (CHAIN (with_top s ?x))) with (<[ bn_hash x := x ]> (known_headers (CHAIN s))).
    rewrite map_size_insert_None; [done|apply He].
  - intros k Hin. unfold main_hashes in Hin. rewrite Ht in Hin.
    replace (entries (CHAIN s') (new_header p h)) with (entries (CHAIN (with_top s (new_header p h))) (new_header p h)) in Hin
      by (unfold entries, ancestors; by rewrite Hk).
    rewrite Hent in Hin. cbn [fmap list_fmap] in Hin. apply elem_of_cons in Hin as [->|Hin]; [by right|].
    apply list_elem_of_fmap in Hin as (e & -> & Hin). destruct (Hold e Hin) as [Ho|Ho]; [left|by right].
    apply list_elem_of_fmap. by exists e.
  - intros e Hin. rewrite Hk. change (known_headers (CHAIN (with_top s ?x))) with (<[ bn_hash x := x ]> (known_headers (CHAIN s))).
    destruct (Hnew e Hin) as [->|Ho].
    + change (bh_hash h) with (bn_hash (new_header p h)). rewrite lookup_insert_eq. by eexists.
    + apply list_elem_of_fmap in Ho as (y & -> & Hy). rewrite lookup_insert_is_Some'. right.
      apply (entries_known (CHAIN s) p y); [done|by apply (parent_in_chain s fuel h p)|done].
Qed.

Lemma extension_added queue :
  bn_total_work (top_header (CHAIN s)) <= bn_total_work (new_header p h) → bh_parent h = bn_hash (top_header (CHAIN s)) →
  ∃ s' added r, handle_new_header s fuel h queue = Finished (Ok (s', queue ++ added, r)) ∧ header_added s s' added.
Proof.
  intros Hle Hp. destruct (extending_header s fuel h p He) as [H1' H2'].
  pose proof (apply_new s fuel h p false Hh He) as Hr. cbv zeta in Hr.
  rewrite (proj2 (Z.ltb_ge _ _)), bool_decide_true in Hr by done.
  eexists _, [(bn_number (new_header p h), bh_hash h, Append)], _. split.
  - unfold handle_new_header. rewrite H1', H2', Hr. reflexivity.
  - pose proof (parent_in_chain s fuel h p Hh He) as Hip. pose proof (h_wf _ _ Hh) as Hwf. pose proof (wf_top _ Hwf) as Ht.
    assert (bn_hash p = bn_hash (top_header (CHAIN s))) as Hpt by (rewrite <- Hp; eapply wf_key; [done|apply He]).
    apply added_on_top; [done|done|done|by left| |].
    + intros e Hin. left. by rewrite <- (entries_hash (CHAIN s) p (top_header (CHAIN s))).
    + intros e ->%list_elem_of_singleton. by left.
Qed.

Lemma fork_added queue :
  bn_total_work (top_header (CHAIN s)) <= bn_total_work (new_header p h) → bh_parent h ≠ bn_hash (top_header (CHAIN s)) →
  bn_number p <= bn_number (top_header (CHAIN s)) →
  ∃ s' added r, handle_new_header s fuel h queue = Finished (Ok (s', queue ++ added, r)) ∧ header_added s s' added.
Proof.
  intros Hle Hp Hn. destruct (extending_header s fuel h p He) as [H1' H2'].
  destruct (apply_fork s fuel h p Hh He Hle Hp Hn) as (A & B & C & count & HA & HB & HC & Hd & _ & Hr).
  set (x := new_header p h) in *. set (blocks := rev (entry x :: map (λ e, (e.1, e.2 + 1)) A)) in *.
  set (s1 := store_downloaded (with_top s x) count) in *.
  set (r := mkHeaderApplicationResult (entry (top_header (CHAIN s)) :: B) blocks) in *.
  destruct (update_spec (CHAIN s1) r) as (Ht & Hk & _).
  assert (∀ k, k ∈ blocks.*1 ↔ k = bh_hash h ∨ k ∈ A.*1) as Hblocks.
  { intros k. unfold blocks. rewrite rev_alt. change (rev_append ?l []) with (reverse l). rewrite fmap_reverse, elem_of_reverse.
    cbn [fmap list_fmap]. rewrite elem_of_cons. change (map ?f A) with (f <$> A). rewrite <- list_fmap_compose. done. }
  set (added := if (length blocks =? 1)%nat then [(bn_number (top_header (update_most_work_chain (CHAIN s1) r)), bh_hash h, Append)]
    else fork_jobs (bn_number (top_header (update_most_work_chain (CHAIN s1) r)) -! len blocks -! 1) blocks).
  assert (∀ k, k ∈ map (λ e : QueueEntry, e.1.2) added ↔ k = bh_hash h ∨ k ∈ A.*1) as Hadded.
  { intros k. unfold added. destruct (Nat.eqb_spec (length blocks) 1) as [Hone|_]; [|by rewrite fork_jobs_hashes].
    unfold blocks in Hone. rewrite length_rev in Hone. cbn [length] in Hone. rewrite length_map in Hone.
    assert (A = []) as -> by (apply length_zero_iff_nil; lia). cbn. rewrite list_elem_of_singleton. pose proof (not_elem_of_nil k). tauto. }
  exists (set_CHAIN s1 (update_most_work_chain (CHAIN s1) r)), added, (Some (bn_hash (top_header (update_most_work_chain (CHAIN s1) r)))). split.
  - unfold handle_new_header. rewrite H1', H2', Hr. cbn [mbind comp_bind added_blocks]. fold r.
    change (added_blocks r) with blocks. change (CHAIN (set_CHAIN ?s ?c)) with c. unfold added. by destruct (length blocks =? 1)%nat.
  - apply added_on_top.
    + done.
    + change (CHAIN (set_CHAIN ?s ?c)) with c. by rewrite Ht.
    + change (CHAIN (set_CHAIN ?s ?c)) with c. by rewrite Hk.
    + apply Hadded. by left.
    + intros e Hin. rewrite HA in Hin. apply elem_of_app in Hin as [Hin|Hin].
      * right. apply Hadded. right. apply list_elem_of_fmap. by exists e.
      * left. rewrite HB. apply elem_of_app. by right.
    + intros e Hin. assert (e.1.2 ∈ map (λ e : QueueEntry, e.1.2) added) as Hm by (apply list_elem_of_fmap; by exists e).
      apply Hadded in Hm as [Hm|Hm]; [by left|right]. rewrite HA, fmap_app. apply elem_of_app. by left.
Qed.
End new_header.

Lemma new_header_step s fuel h queue :
  healthy s fuel → acceptable h →
  (∃ s' added r, handle_new_header s fuel h queue = Finished (Ok (s', queue ++ added, r)) ∧ header_added s s' added) ∨
  (∃ m p, handle_new_header s fuel h queue = Finished (Panic m) ∧ known_headers (CHAIN s) !! bh_parent h = Some p ∧
    (2 ^ 256 <= bn_total_work p + work_of h ∨ bn_number (top_header (CHAIN s)) < bn_number p)).
Proof.
  intros Hh Ha. pose proof (h_wf _ _ Hh) as Hwf.
  destruct (application_cases s fuel h Hh Ha) as [Hk|Hk Hp|p bits Hk Hp Hb Hne|p Hk Hp Hb Ho|p He].
  - left. exists s, [], None. rewrite app_nil_r. split; [|by apply nothing_added]. unfold handle_new_header. by rewrite bool_decide_true.
  - left. exists s, [], None. rewrite app_nil_r. split; [|by apply nothing_added]. unfold handle_new_header.
    rewrite bool_decide_false, bool_decide_true; [done|done|]. rewrite Hk. by intros [].
  - left. exists s, [], None. rewrite app_nil_r. split; [|by apply nothing_added]. unfold handle_new_header.
    rewrite !bool_decide_false; [|by rewrite Hp|rewrite Hk; by intros []]. by rewrite (apply_bits s fuel h false p bits).
  - right. destruct (apply_overflow s fuel h false p Hh Ha Hk Hp Hb Ho) as [m Hm]. exists m, p. split_and!; [|done|by left].
    unfold handle_new_header. rewrite !bool_decide_false; [|by rewrite Hp|rewrite Hk; by intros []]. by rewrite Hm.
  - destruct (extending_header s fuel h p He) as [H1' H2'].
    destruct (Z.le_gt_cases (bn_total_work (top_header (CHAIN s))) (bn_total_work (new_header p h))) as [Hle|Hgt].
    2: { left. exists (with_header s (new_header p h)), [], None. rewrite app_nil_r. split; [|by apply (added_beside s fuel)].
         pose proof (apply_new s fuel h p false Hh He) as Hr. cbv zeta in Hr. rewrite (proj2 (Z.ltb_lt _ _)) in Hr by done.
         unfold handle_new_header. by rewrite H1', H2', Hr. }
    destruct (decide (bh_parent h = bn_hash (top_header (CHAIN s)))) as [Hp|Hp]; [left; by apply (extension_added s fuel h p)|].
    destruct (Z.le_gt_cases (bn_number p) (bn_number (top_header (CHAIN s)))) as [Hn|Hn]; [left; by apply (fork_added s fuel h p)|].
    right. destruct (apply_fork_panics s fuel h p Hh He) as [m Hm]; [done..|]. exists m, p.
    split_and!; [|apply He|by right]. unfold handle_new_header. by rewrite H1', H2', Hm.
Qed.
End headers.

Abbreviation downloaded c k := (bn_fetched_full <$> known_headers c !! k = Some true).

(** * New blocks *)

Section blocks.
Context `{Sha256, U256Lib, RocksDb, Layout, UnstableSort} {W : Type}.

(** The outputs that the block spends are in it or in the database. *)
Definition outputs_found (d : Databases) (block : Block) : bool :=
  match pending_deps block with
  | Ok pending => match for_each (push_dep d) pending [] with Err _ => false | _ => true end
  | _ => true
  end.

Lemma new_block_step d s fuel address block queue d' s' queue' r :
  handle_new_block d s fuel address block queue = Finished (Ok (d', s', queue', r)) →
  (s' = s ∧ queue' = queue ∧ r = None) ∨
  ∃ e ascii, queue = e :: queue' ∧ r = Some e.1.2 ∧
    (mark_as_downloaded s fuel [e.1.2] [ascii] = Finished (Ok s') ∨ (s' = s ∧ outputs_found d block = false)).
Proof.
  unfold handle_new_block. intros Hr. destruct queue as [|[[number h] strat] rest]; [injection Hr as <- <- <- <-; by left|].
  case_bool_decide as Hh; cbn [negb] in Hr; [|injection Hr as <- <- <- <-; by left].
  destruct (if SEGWIT_HEIGHT <=? number then _ else _) as [u|e|m|]; [|injection Hr as <- <- <- <-; by left|done..].
  cbind Hr. destruct v as [[d1 s1] b]. injection Hr as <- <- <- <-. right. exists (number, h, strat).
  unfold apply_block in Hv. unfold outputs_found. destruct (pending_deps block) as [pending| | |]; [|done..]. cbn [mbind comp_bind] in Hv.
  destruct (for_each (push_dep d) pending []) as [deps|e|m|]; [|injection Hv as <- <- <-; exists []; split_and!; auto|done..].
  cbind Hv. destruct v as [[[analyzed metrics] ascii] arena]. destruct (write_analyzed_txs _ _ _ _ _ _) as [[[d2 marks] a2]| | |]; [|done..]. cbind Hv. injection Hv as <- <- <-.
  rewrite Hh in Hv1. exists ascii. split_and!; [done..|]. left. exact Hv1.
Qed.

(** A mark keeps the main chain, and everything that is downloaded. *)
Lemma mark_main s fuel h ascii s' :
  chain_wf (CHAIN s) → chain_fits (CHAIN s) → enough (CHAIN s) fuel → is_Some (known_headers (CHAIN s) !! h) →
  mark_as_downloaded s fuel [h] [ascii] = Finished (Ok s') →
  chain_wf (CHAIN s') ∧ relabels (known_headers (CHAIN s)) (known_headers (CHAIN s')) ∧
  main_hashes (CHAIN s') = main_hashes (CHAIN s) ∧
  ∀ k, bn_fetched_full <$> known_headers (CHAIN s') !! k = Some true ↔
       bn_fetched_full <$> known_headers (CHAIN s) !! k = Some true ∨ k = h.
Proof.
  intros Hwf Hfit Hen Hk Hm.
  destruct (marked_relabels s fuel [h] [ascii] s') as [Hrel _]; [by constructor|done|].
  destruct (mark_as_downloaded_effect s fuel [h] [ascii] Hwf Hfit Hen) as (s1 & Hm1 & Hwf' & Hfl & _); [by constructor|done|].
  assert (s1 = s') as -> by congruence. split_and!; [done|done| |].
  - unfold main_hashes, entries. f_equal. apply relabels_ancestors; [done|].
    unfold mark_as_downloaded in Hm. cbind Hm. cbind Hm. cbind Hm. injection Hm as <-. done.
  - intros k. rewrite Hfl. destruct (known_headers (CHAIN s) !! k) as [x|] eqn:Hx; cbn.
    + split.
      * intros [= [Hf|Hf%bool_decide_eq_true]%orb_true_iff]; [left; by rewrite Hf|right; by apply list_elem_of_singleton].
      * intros [[= Hf]| ->]; f_equal; apply orb_true_iff; [by left|right; apply bool_decide_eq_true, list_elem_of_here].
    + split; [done|]. intros [?| ->]; [done|]. rewrite Hx in Hk. by destruct Hk.
Qed.

(** * The invariant *)

Record follow_inv (w : @Follow _ W) : Prop := {
  fi_wf : chain_wf (CHAIN (fo_chain w));
  fi_order : map block_hash (fo_queued w) = fo_applied w ++ map block_hash (fo_queue w);
  fi_known e : e ∈ fo_queued w → is_Some (known_headers (CHAIN (fo_chain w)) !! block_hash e);
  fi_main k : k ∈ main_hashes (CHAIN (fo_chain w)) → downloaded (CHAIN (fo_chain w)) k ∨ k ∈ map block_hash (fo_queued w);
  fi_jobs k : k ∈ fo_jobs w ++ (fo_given w).*2 → k ∈ map block_hash (fo_queued w);
}.

(** What was announced is downloaded. *)
Definition all_stored (w : @Follow _ W) : Prop := ∀ k, k ∈ fo_applied w → downloaded (CHAIN (fo_chain w)) k.

Lemma queued_known w e : follow_inv w → e ∈ fo_queue w → is_Some (known_headers (CHAIN (fo_chain w)) !! block_hash e).
Proof.
  intros Hi He. assert (block_hash e ∈ map block_hash (fo_queued w)) as Hq.
  { rewrite (fi_order _ Hi). apply elem_of_app. right. apply list_elem_of_fmap. by exists e. }
  apply list_elem_of_fmap in Hq as (e' & -> & He'). by apply (fi_known _ Hi).
Qed.

Lemma downloaded_mono c c' k : known_headers c ⊆ known_headers c' → downloaded c k → downloaded c' k.
Proof.
  intros Hs Hd. destruct (known_headers c !! k) as [x|] eqn:Hx; [|done]. by rewrite (lookup_weaken _ _ _ _ Hx Hs).
Qed.

(** ** A header comes *)
Lemma header_inv w s' added :
  follow_inv w → header_added (fo_chain w) s' added →
  let w' := mkFollow s' (fo_databases w) (fo_queue w ++ added) (fo_jobs w) (fo_workers w) (fo_given w)
              (fo_queued w ++ drop (length (fo_queue w)) (fo_queue w ++ added)) (fo_applied w) in
  follow_inv w' ∧ (all_stored w → all_stored w').
Proof.
  intros Hi [Hwf Hsub _ Hmain Hknown] w'. unfold w'. rewrite drop_app_length. split.
  - constructor; cbn [fo_chain fo_queue fo_queued fo_applied fo_jobs fo_given].
    + done.
    + by rewrite !map_app, (fi_order _ Hi), app_assoc.
    + intros e [He|He]%elem_of_app; [|by apply Hknown]. destruct (fi_known _ Hi e He) as [x Hx]. exists x. by eapply lookup_weaken.
    + intros k Hk. rewrite map_app, elem_of_app. destruct (Hmain k Hk) as [Ho|Ho]; [|by right; right].
      destruct (fi_main _ Hi k Ho) as [Hd|Hd]; [left; by eapply downloaded_mono|by right; left].
    + intros k Hk. rewrite map_app, elem_of_app. left. by apply (fi_jobs _ Hi).
  - intros Hall k Hk. eapply downloaded_mono; [exact Hsub|]. by apply Hall.
Qed.

(** ** A block comes *)
Lemma block_inv w fuel address block d' s' queue' r :
  follow_inv w → chain_fits (CHAIN (fo_chain w)) → enough (CHAIN (fo_chain w)) fuel →
  handle_new_block (fo_databases w) (fo_chain w) fuel address block (fo_queue w) = Finished (Ok (d', s', queue', r)) →
  let w' := mkFollow s' d' queue' (fo_jobs w) (fo_workers w) (fo_given w) (fo_queued w)
              (fo_applied w ++ match r with Some h => [h] | None => [] end) in
  follow_inv w' ∧ size (known_headers (CHAIN s')) = size (known_headers (CHAIN (fo_chain w))) ∧
  (outputs_found (fo_databases w) block = true → all_stored w → all_stored w').
Proof.
  intros Hi Hfit Hen Hr w'. unfold w'. destruct Hi as [Hwf Ho Hk Hm Hj].
  destruct (new_block_step _ _ _ _ _ _ _ _ _ _ Hr) as [(-> & -> & ->)|(e & ascii & Hq & -> & Hc)].
  - rewrite app_nil_r. split_and!; [by constructor|done|done].
  - assert (map block_hash (fo_queued w) = (fo_applied w ++ [block_hash e]) ++ map block_hash queue') as Ho'.
    { rewrite Ho, Hq. cbn [map]. by rewrite <- app_assoc. }
    destruct Hc as [Hmark|[-> Hf]].
    2: { split_and!; [by constructor|done|]. by rewrite Hf. }
    assert (is_Some (known_headers (CHAIN (fo_chain w)) !! e.1.2)) as Hek.
    { apply (queued_known w e); [by constructor|]. rewrite Hq. by left. }
    destruct (mark_main _ _ _ _ _ Hwf Hfit Hen Hek Hmark) as (Hwf' & Hrel & Hmain & Hd). split_and!.
    + constructor; cbn [fo_chain fo_queue fo_queued fo_applied fo_jobs fo_given]; [done|done| | |done].
      * intros e' He'. destruct (Hk e' He') as [x Hx]. destruct (relabels_lookup_l _ _ _ _ Hrel Hx) as (y & Hy & _). by exists y.
      * intros k Hin. rewrite Hmain in Hin. destruct (Hm k Hin) as [Hdk|Hdk]; [|by right]. left. apply Hd. by left.
    + by apply relabels_size.
    + intros _ Hall k [Hin| ->%list_elem_of_singleton]%elem_of_app; apply Hd; [left; by apply Hall|by right].
Qed.
End blocks.

(** * Workers *)

Lemma swap_remove_spec {A} (l : list A) i x l' : swap_remove l i = Some (x, l') → l ≡ₚ x :: l'.
Proof.
  unfold swap_remove. intros Hs. apply bind_Some in Hs as (y & Hy & Hs). apply bind_Some in Hs as (z & Hz & Hs). injection Hs as -> <-.
  apply last_Some in Hz as [l0 ->]. destruct (decide (i < length l0)%nat) as [Hi|Hi].
  - rewrite lookup_app_l in Hy by done. rewrite insert_app_l by done. rewrite removelast_last.
    apply list_elem_of_split_length in Hy as (a & b & -> & ->). rewrite insert_app_r_alt, Nat.sub_diag by lia. cbn [insert list_insert].
    rewrite <- app_assoc. cbn [app]. rewrite <- Permutation_middle. by rewrite (Permutation_app_comm b [z]).
  - assert (i = length l0) as ->.
    { apply lookup_lt_Some in Hy. rewrite length_app in Hy. cbn in Hy. lia. }
    rewrite list_lookup_middle in Hy by done. injection Hy as <-.
    rewrite insert_app_r_alt by lia. rewrite Nat.sub_diag. cbn [insert list_insert]. rewrite removelast_last.
    by rewrite (Permutation_app_comm l0 [z]).
Qed.

(** A worker that gets the job waited and still does; it is not among those that are left. *)
Lemma hand_out_spec {W} (waits : W → bool) draws : ∀ workers o ws,
  hand_out waits draws workers = Some (o, ws) →
  (match o with Some x => [x] | None => [] end) ++ ws ⊆+ workers ∧ ∀ x, o = Some x → waits x = true.
Proof.
  induction draws as [|i draws IH]; intros [|y workers] o ws Hd; cbn [hand_out] in Hd; [by simplify_eq..|by simplify_eq|].
  destruct (swap_remove (y :: workers) i) as [[worker ws']|] eqn:Hs; [|done]. apply swap_remove_spec in Hs.
  cbn [mbind option_bind] in Hd. destruct (waits worker) eqn:Hw.
  - injection Hd as <- <-. split; [by rewrite Hs|]. by intros x [= <-].
  - destruct (IH ws' o ws Hd) as [Hsub Ho]. split; [|done]. rewrite Hs. by apply submseteq_cons.
Qed.

(** * Everything that may happen *)

Section runs.
Context `{Sha256, U256Lib, RocksDb, Layout, UnstableSort} {W : Type}.

Definition header_ok (e : event (W := W)) : Prop :=
  match e with HeaderComes header => acceptable header | _ => True end.

(** The workers that registered *)
Definition registered (events : list (event (W := W))) : list W :=
  omap (λ e, match e with Registers worker => Some worker | _ => None end) events.

(** Whenever a block comes, the outputs that it spends are there. *)
Definition found (w : Follow (W := W)) (e : event (W := W)) : Prop :=
  match e with BlockComes _ block => outputs_found (fo_databases w) block = true | _ => True end.

Fixpoint always_found (fuel : nat) (w : Follow (W := W)) (events : list (event (W := W))) : Prop :=
  match events with
  | [] => True
  | e :: events =>
      found w e ∧ match happen fuel w e with Finished (Ok w') => always_found fuel w' events | _ => True end
  end.

Abbreviation known_size w := (size (known_headers (CHAIN (fo_chain w)))).

Lemma follow_happens fuel (w : Follow (W := W)) e w' :
  follow_inv w → healthy (fo_chain w) fuel → header_ok e → happen fuel w e = Finished (Ok w') →
  follow_inv w' ∧ (known_size w' <= S (known_size w))%nat ∧ (found w e → all_stored w → all_stored w') ∧
  (fo_given w').*1 ++ fo_workers w' ⊆+ ((fo_given w).*1 ++ fo_workers w) ++ registered [e].
Proof.
  intros Hi Hh Ha He. pose proof Hi as [Hwf Ho Hk Hm Hj]. destruct e as [worker|waits draws| |header|address block]; cbn [happen] in He.
  - injection He as <-. cbn [fo_chain fo_given fo_workers registered omap list_omap].
    split_and!; [by constructor|lia|done|by rewrite app_assoc].
  - destruct (fo_jobs w) as [|job jobs] eqn:Hjobs; [done|]. destruct (hand_out waits draws (fo_workers w)) as [[o ws]|] eqn:Hd; [|done].
    injection He as <-. cbn [fo_chain fo_given fo_workers registered omap list_omap]. rewrite app_nil_r.
    destruct (hand_out_spec _ _ _ _ _ Hd) as [Hsub _]. split_and!; [|lia|done|].
    + constructor; cbn [fo_chain fo_queue fo_queued fo_applied fo_jobs fo_given]; try done. intros k Hin. apply Hj.
      rewrite fmap_app in Hin. rewrite !elem_of_app in Hin. rewrite elem_of_app, elem_of_cons.
      destruct o as [x|]; cbn [fmap list_fmap] in Hin; [rewrite list_elem_of_singleton in Hin|pose proof (not_elem_of_nil k)]; cbn [snd] in Hin; tauto.
    + rewrite fmap_app, <- app_assoc. apply submseteq_skips_l. etrans; [|exact Hsub]. by destruct o.
  - destruct (fo_queue w) as [|next rest] eqn:Hq.
    { injection He as <-. split_and!; [done|lia|done|]. cbn [registered omap list_omap]. by rewrite app_nil_r. }
    destruct (_ <? _)%nat; [|done]. injection He as <-. cbn [fo_chain fo_given fo_workers registered omap list_omap]. rewrite app_nil_r.
    split_and!; [|lia|done|done]. constructor; cbn [fo_chain fo_queue fo_queued fo_applied fo_jobs fo_given]; try done.
    intros k Hin. rewrite <- app_assoc in Hin. apply elem_of_app in Hin as [Hin|Hin]; [apply Hj, elem_of_app; by left|].
    apply elem_of_cons in Hin as [->|Hin]; [|apply Hj, elem_of_app; by right].
    rewrite Ho. apply elem_of_app. right. by left.
  - cbn [registered omap list_omap]. rewrite app_nil_r.
    destruct (new_header_step (fo_chain w) fuel header (fo_queue w) Hh Ha) as [(s' & added & r & Hr & Hadd)|(m & p & Hr & _)]; [|by rewrite Hr in He].
    rewrite Hr in He. injection He as <-. destruct (header_inv w s' added Hi Hadd) as [Hi' Hst].
    split_and!; [done|apply Hadd|auto|done].
  - cbn [registered omap list_omap]. rewrite app_nil_r.
    destruct (handle_new_block _ _ _ _ _ _) as [[[[[d s] queue] r]|e|m|]|] eqn:Hr; [|done..].
    destruct (healthy_fits _ _ Hh) as [Hfit Hen].
    injection He as <-. destruct (block_inv w fuel address block d s queue r Hi Hfit Hen Hr) as (Hi' & Hsz & Hst).
    split_and!; [done|cbn [fo_chain]; lia|done|done].
Qed.

Lemma follow_runs fuel events : ∀ (w w' : Follow (W := W)),
  follow_inv w → Z.of_nat (known_size w + length events) < isize_max → (known_size w + length events < fuel)%nat →
  Forall header_ok events → run fuel w events = Finished (Ok w') →
  follow_inv w' ∧ (known_size w' <= known_size w + length events)%nat ∧
  (always_found fuel w events → all_stored w → all_stored w') ∧
  (fo_given w').*1 ++ fo_workers w' ⊆+ ((fo_given w).*1 ++ fo_workers w) ++ registered events.
Proof.
  induction events as [|e events IH]; intros w w' Hi Hs Hf Hok Hrun.
  { injection Hrun as <-. cbn [registered omap list_omap]. rewrite app_nil_r. split_and!; [done|cbn; lia|done|done]. }
  apply Forall_cons in Hok as [Ha Hok]. unfold run in Hrun. cbn [for_comp] in Hrun. cbind Hrun. cbn [length] in *. rename v into w1.
  destruct (follow_happens fuel w e w1 Hi) as (Hi1 & Hs1 & Hst1 & Hw1); [constructor; [apply Hi|lia|lia]|done|done|].
  destruct (IH w1 w' Hi1) as (Hi' & Hs' & Hst' & Hw'); [lia|lia|done|done|]. split_and!; [done|lia| |].
  - cbn [always_found]. rewrite Hv. intros [Hfe Hfs] Hall. auto.
  - etrans; [exact Hw'|]. change (e :: events) with ([e] ++ events). unfold registered in *. rewrite omap_app, app_assoc.
    by apply submseteq_skips_r.
Qed.

Lemma follow_starts s d : chain_wf (CHAIN s) → (∀ k, k ∈ main_hashes (CHAIN s) → downloaded (CHAIN s) k) → follow_inv (start (W := W) s d).
Proof.
  intros Hwf Hm. constructor; cbn [start fo_chain fo_queue fo_queued fo_applied fo_jobs fo_given]; [done|done| | |].
  - by intros e ?%not_elem_of_nil.
  - intros k Hk. left. by apply Hm.
  - by intros k ?%not_elem_of_nil.
Qed.
End runs.

(** * Property *)

(** C11. The keepup, from a chain that is downloaded, whatever headers, blocks and workers come and in whichever
    order: blocks are applied in the order in which they were queued. No block is forgotten: unless an output was
    missing, every block of the main chain, forks included, is downloaded or is waited for. A job names a block that
    was queued, and every worker that registered gets one job at most. The next header is
    always handled, but for one whose work overflows or a fork from above the top header. *)
Theorem follow_keeps_up `{Sha256, U256Lib, RocksDb, Layout, UnstableSort} {W} fuel s d events (w : Follow (W := W)) :
  chain_wf (CHAIN s) → (∀ k, k ∈ main_hashes (CHAIN s) → downloaded (CHAIN s) k) →
  Z.of_nat (size (known_headers (CHAIN s)) + length events) < isize_max →
  (size (known_headers (CHAIN s)) + length events < fuel)%nat →
  Forall header_ok events → run fuel (start s d) events = Finished (Ok w) →
  let c := CHAIN (fo_chain w) in
  map block_hash (fo_queued w) = fo_applied w ++ map block_hash (fo_queue w) ∧
  (always_found fuel (start s d) events →
    ∀ k, k ∈ main_hashes c → downloaded c k ∨ k ∈ map block_hash (fo_queue w)) ∧
  (∀ x, x ∈ fo_given w → x.2 ∈ map block_hash (fo_queued w)) ∧
  (fo_given w).*1 ++ fo_workers w ⊆+ registered events ∧
  (∀ h, acceptable h → (∃ w', happen fuel w (HeaderComes h) = Finished (Ok w')) ∨
    ∃ p, known_headers c !! bh_parent h = Some p ∧
      (2 ^ 256 <= bn_total_work p + work_of h ∨ bn_number (top_header c) < bn_number p)).
Proof.
  intros Hwf Hm Hs Hf Hok Hrun c.
  destruct (follow_runs fuel events (start s d) w (follow_starts s d Hwf Hm)) as (Hi & Hsz & Hst & Hw); [done..|].
  pose proof Hi as [Hwf' Ho Hk Hmain Hj]. cbn [start fo_chain] in Hsz. split_and!; [done| | |exact Hw|].
  - intros Hfound k Hin. destruct (Hmain k Hin) as [Hd|Hd]; [by left|]. rewrite Ho in Hd. apply elem_of_app in Hd as [Hd|Hd]; [|by right].
    left. apply (Hst Hfound); [|done]. by intros k' ?%not_elem_of_nil.
  - intros x Hx. apply Hj, elem_of_app. right. apply list_elem_of_fmap. by exists x.
  - intros h Ha. assert (healthy (fo_chain w) fuel) as Hh by (constructor; [done|lia|lia]).
    destruct (new_header_step (fo_chain w) fuel h (fo_queue w) Hh Ha) as [(s' & added & r & Hr & _)|(m & p & _ & Hp & Hc)].
    + left. eexists. cbn [happen]. by rewrite Hr.
    + right. by exists p.
Qed.

(** * Example *)

Import Toy ToyDb ToyChain.

Definition all_blocks : list hash := map (λ x, bn_hash x) (ancestors chain2 (top_header chain2)).

(** The chain of three blocks, all of them downloaded *)
Definition synced_state : ChainMan :=
  match mark_as_downloaded state2 10 all_blocks (replicate (length all_blocks) []) with Finished (Ok s) => s | _ => state2 end.

Lemma synced_wf : chain_wf (CHAIN synced_state).
Proof.
  destruct (mark_as_downloaded_effect state2 10 all_blocks (replicate (length all_blocks) [])) as (s & Hs & Hwf & _).
  - exact chain2_wf.
  - vm_compute. discriminate.
  - vm_compute. repeat constructor.
  - apply Forall_forall. intros k Hk.
    assert (forallb (λ k, bool_decide (is_Some (known_headers chain2 !! k))) all_blocks = true) as Hall by (vm_compute; reflexivity).
    rewrite forallb_forall in Hall. apply list_elem_of_In, Hall in Hk. by apply bool_decide_eq_true in Hk.
  - apply length_replicate.
  - unfold synced_state. by rewrite Hs.
Qed.

Lemma synced_downloaded k : k ∈ main_hashes (CHAIN synced_state) → downloaded (CHAIN synced_state) k.
Proof.
  assert (forallb (λ k, bool_decide (downloaded (CHAIN synced_state) k)) (main_hashes (CHAIN synced_state)) = true) as Hall by (vm_compute; reflexivity).
  intros Hk. rewrite forallb_forall in Hall. apply list_elem_of_In, Hall in Hk. by apply bool_decide_eq_true in Hk.
Qed.

(** A header comes, a worker registers and gets the job. *)
Definition follow_events : list (event (W := nat)) :=
  [HeaderComes next_header; Registers 7%nat; Ticks; Dispatches (λ _, true) [0%nat]].

Definition following : Follow (W := nat) :=
  match run 10 (start synced_state toy_databases) follow_events with Finished (Ok w) => w | _ => start synced_state toy_databases end.

Lemma following_run : run 10 (start synced_state toy_databases) follow_events = Finished (Ok following).
Proof.
  assert (match run 10 (start synced_state toy_databases) follow_events with Finished (Ok _) => true | _ => false end = true) as Hok
    by (vm_compute; reflexivity).
  unfold following. destruct (run 10 _ follow_events) as [[w| | |]|]; [reflexivity|discriminate Hok..].
Qed.

Lemma follow_keeps_up_witness :
  (∀ k, k ∈ main_hashes (CHAIN (fo_chain following)) →
    downloaded (CHAIN (fo_chain following)) k ∨ k ∈ map block_hash (fo_queue following)) ∧
  fo_given following = [(7%nat, bh_hash next_header)].
Proof.
  destruct (follow_keeps_up 10 synced_state toy_databases follow_events following) as (_ & Hmain & _).
  - exact synced_wf.
  - exact synced_downloaded.
  - vm_compute. reflexivity.
  - vm_compute. repeat constructor.
  - constructor; [apply acceptableb_ok; vm_compute; reflexivity|]. repeat constructor.
  - exact following_run.
  - split; [|vm_compute; reflexivity]. apply Hmain. cbn [always_found found follow_events]. split; [exact I|].
    destruct (happen 10 _ _) as [[w1| | |]|]; [|exact I..]. split; [exact I|]. destruct (happen 10 _ _) as [[w2| | |]|]; [|exact I..].
    split; [exact I|]. destruct (happen 10 _ _) as [[w3| | |]|]; [|exact I..]. split; [exact I|].
    destruct (happen 10 _ _) as [[w4| | |]|]; exact I.
Defined.
