(* ===== verification/Api.v ===== *)
(** [src/api/]: the handlers of the requests, as functions from the parameters to what is sent back.
    [address.rs], [search.rs], [tx.rs], [block.rs] and [miner.rs]. *)
From Stdlib Require Import Ascii.
From stdpp Require Import sorting.
From S2P Require Import Prelude.
From S2P Require Import Extern.
From S2P Require Import Tx.
From S2P Require Import Header.
From S2P Require Import Loops.
From S2P Require Import Chain.
From S2P Require Import Script.
From S2P Require Import Address.
From S2P Require Import Analyze.
From S2P Require Import Float.
From S2P Require Import Store.
From S2P Require Import Queries.
From S2P Require Import Miners.
From S2P Require Import Process.

(** * Responses *)

Inductive StatusCode := BAD_REQUEST | NOT_FOUND | INTERNAL_SERVER_ERROR.

(** [Result<_, StatusCode>]. A handler that panics has no response. *)
Abbreviation response A := (outcome (StatusCode + A)).

Declare Scope api_scope.
Delimit Scope api_scope with api.
Open Scope api_scope.

(** [m?] inside of a handler *)
Definition rbind {A B} (m : response A) (f : A → response B) : response B :=
  r ← m; match r with inl code => Ok (inl code) | inr a => f a end.

Notation "x <-? m ; k" := (rbind m (λ x, k)) (at level 20, m at level 100, k at level 200) : api_scope.
Notation "' x <-? m ; k" := (rbind m (λ x, k)) (at level 20, x pattern, m at level 100, k at level 200) : api_scope.

Definition respond {A} (a : A) : response A := Ok (inr a).
Definition refuse {A} (code : StatusCode) : response A := Ok (inl code).

(** [match m { Ok(v) => v, Err(_) => return Err(code) }], and for an [Option] *)
Definition or_code {A} (m : outcome A) (code : StatusCode) : response A :=
  match m with Ok a => respond a | Err _ => refuse code | Panic msg => Panic msg | Ub => Ub end.
Definition some_or_code {A} (o : option A) (code : StatusCode) : response A :=
  match o with Some a => respond a | None => refuse code end.

(** [m.unwrap_or_default()] *)
Definition or_default {A} (m : outcome A) (a : A) : outcome A :=
  match m with Err _ => Ok a | _ => m end.

(** [params.limit.unwrap_or(50)], and the check that goes with it *)
Definition checked_limit (limit : option Z) : response Z :=
  let limit := default 50 limit in
  if 1000 <? limit then refuse BAD_REQUEST else respond limit.

(** The tasks are awaited in order; the first that failed ends the request. *)
Fixpoint try_all {A} (tasks : list (outcome A)) : outcome (list A) :=
  match tasks with
  | [] => Ok []
  | task :: tasks => a ← task; l ← try_all tasks; Ok (a :: l)
  end.

(** * Decoders

    Those of [hex], [bs58] and [bech32], which undo the encoders. *)
Class AddressDecoders `{AddressEncoders} := {
  hex_decode : string → outcome bytes;
  bs58_decode_check : Z → string → outcome bytes;
  segwit_decode : string → outcome (string * Z * bytes);
  hex_decode_encode b : hex_decode (hex_encode b) = Ok b;
  bs58_decode_encode v b : in_u8 v → bs58_decode_check v (bs58_check_encode v b) = Ok (byte.of_Z v :: b);
  bs58_decode_other v v' b : in_u8 v → in_u8 v' → v ≠ v' → ∃ e, bs58_decode_check v (bs58_check_encode v' b) = Err e;
  segwit_decode_v0 b s : segwit_encode_v0 b = Ok s → segwit_decode s = Ok ("bc"%string, 0, b);
  segwit_decode_v1 b s : segwit_encode_v1 b = Ok s → segwit_decode s = Ok ("bc"%string, 1, b);
}.

(** * [address.rs]: addresses *)

Section api.
Context `{AddressDecoders}.

(** [b.len() == 21 && b[0] == v] and then [b.remove(0)] *)
Definition versioned (v : Z) (b : bytes) : option bytes :=
  match b with
  | first :: rest => if (len b =? 21) && (u8 first =? v) then Some rest else None
  | [] => None
  end.

Definition parse_segwit (address : string) : option (bytes * Address) :=
  match segwit_decode address with
  | Ok (hrp, fe, b) =>
      if negb (String.eqb hrp "bc") then None
      else if fe =? 0 then
        if len b =? 20 then Some (b, P2WSH address)
        else if len b =? 32 then Some (b, P2WPKH address)
        else None
      else if (fe =? 1) && (len b =? 32) then Some (b, Taproot address)
      else None
  | _ => None
  end.

Definition parse_address (address : string) : option (bytes * Address) :=
  match hex_decode address with
  | Ok b =>
      if len b =? 65 then Some (b, P2PKFull address)
      else if len b =? 33 then Some (b, P2PKShort address)
      else None
  | _ =>
      match bs58_decode_check 0x00 address with
      | Ok b => b ← versioned 0x00 b; Some (b, P2PKH address)
      | _ =>
          match bs58_decode_check 0x05 address with
          | Ok b => b ← versioned 0x05 b; Some (b, P2SH address)
          | _ => parse_segwit address
          end
      end
  end.

(** A hash as people read it: 32 bytes in reverse *)
Definition parse_hash (s : string) : option hash :=
  match hex_decode s with
  | Ok b => if len b =? 32 then Some (rev b) else None
  | _ => None
  end.
End api.

(** * [address.rs]: the transactions of an address *)

Record AddressTransaction := mkAddressTransaction {
  at_transaction_hash : hash;
  at_block_hash : hash;
  at_block_number : Z;
  at_timestamp : Z;
  at_value : Z;
  at_single_other_address : option Address;
  at_distinct_other_addresses : Z;
}.

(** [chainman::filter_and_populate_address_txs] *)
Definition filter_and_populate_address_txs (c : Chain) (address_txs : list (hash * hash * Z)) :
    outcome (list AddressTransaction) :=
  if bool_decide (address_txs = []) then Ok []
  else
    for_each (λ acc item,
      block ← known c item.1.2;
      Ok (acc ++ [mkAddressTransaction item.1.1 item.1.2 (bn_number block) (bn_timestamp block)
                    item.2 None 0]))
      (List.filter (λ item, bool_decide (item.1.2 ∈ most_work_chain c)) address_txs) [].

Definition set_others (t : AddressTransaction) (single : option Address) (distinct : Z) : AddressTransaction :=
  mkAddressTransaction (at_transaction_hash t) (at_block_hash t) (at_block_number t) (at_timestamp t) (at_value t)
    single distinct.

(** ** The order of addresses, and [sort] *)

(** The derived order: the variants in their order, then the text *)
Definition Address_rank (a : Address) : Z :=
  match a with
  | P2PKFull _ => 0 | P2PKShort _ => 1 | P2PKH _ => 2 | P2SH _ => 3 | P2WSH _ => 4 | P2WPKH _ => 5 | Taproot _ => 6
  | OpReturn => 7 | Unknown => 8 | Coinbase => 9
  end.

Definition Address_text (a : Address) : bytes :=
  match a with
  | P2PKFull v | P2PKShort v | P2PKH v | P2SH v | P2WSH v | P2WPKH v | Taproot v => bstr v
  | OpReturn | Unknown | Coinbase => []
  end.

Definition Address_leb (a b : Address) : bool :=
  if Address_rank a =? Address_rank b then bytes_leb (Address_text a) (Address_text b)
  else Address_rank a <? Address_rank b.

Definition address_sort (l : list Address) : list Address := merge_sort (ordered_by Address_leb) l.

Section address.
Context `{AddressEncoders, RocksDb, Layout}.

Definition is_gain (address_tx : AddressTransaction) (analyzed_tx : AnalyzedTx) : bool :=
  (0 <? at_value address_tx) && negb (is_coinbase (an_tx analyzed_tx)).
Definition is_loss (address_tx : AddressTransaction) (analyzed_tx : AnalyzedTx) : bool :=
  (at_value address_tx <? 0) && negb (is_coinbase (an_tx analyzed_tx)).

(** The task that fetches the outputs that a transaction spends *)
Definition spent_outputs (d : Databases) (cloned_txins : list TxIn) : outcome (list TxOut) :=
  for_each (λ result txin,
    txouts ← get_transaction_outputs d (prevout_hash txin);
    txout ← expect (txouts !! Z.to_nat (prevout_index txin)) "index out of bounds";
    Ok (result ++ [txout])) cloned_txins [].

(** The addresses other than the one of the request, without repetitions *)
Definition other_addresses (human_address : Address) (relevant_txouts : list TxOut) : outcome (list Address) :=
  addresses ← try_all (map (λ x, get_human_address_from_script (txout_script x)) relevant_txouts);
  Ok (dedup (address_sort (List.filter (λ address, negb (bool_decide (address = human_address))) addresses))).

Definition with_others (address_tx : AddressTransaction) (others : list Address) : AddressTransaction :=
  set_others address_tx
    (match others with [a] => Some a | _ => at_single_other_address address_tx end) (len others).

(** An iteration of the last loop, with the two indices *)
Definition populate_step (human_address : Address) (gain_txouts lose_txouts : list (list TxOut))
    (s : list AddressTransaction * nat * nat) (item : AddressTransaction * AnalyzedTx) :
    outcome (list AddressTransaction * nat * nat) :=
  let '(result, gain_txouts_index, lose_txouts_index) := s in
  let '(address_tx, analyzed_tx) := item in
  if 0 <? at_value address_tx then
    if is_coinbase (an_tx analyzed_tx) then
      Ok (result ++ [set_others address_tx (Some Coinbase) 1], gain_txouts_index, lose_txouts_index)
    else
      relevant_txouts ← expect (gain_txouts !! gain_txouts_index) "index out of bounds";
      others ← other_addresses human_address relevant_txouts;
      Ok (result ++ [with_others address_tx others], S gain_txouts_index, lose_txouts_index)
  else if at_value address_tx <? 0 then
    txouts ← expect (lose_txouts !! lose_txouts_index) "index out of bounds";
    others ← other_addresses human_address txouts;
    Ok (result ++ [with_others address_tx others], gain_txouts_index, S lose_txouts_index)
  else Ok (result ++ [address_tx], gain_txouts_index, lose_txouts_index).

Definition populate_other_address_fields (d : Databases) (human_address : Address)
    (transactions : list AddressTransaction) : response (list AddressTransaction) :=
  full_txs <-? or_code (try_all (map (λ x, spawn_blocking (get_analyzed_tx d (at_transaction_hash x))) transactions))
    INTERNAL_SERVER_ERROR;
  let pairs := zip transactions full_txs in
  gain_txouts <-? or_code (try_all (map (λ '(_, analyzed_tx), spawn_blocking (spent_outputs d (txins (an_tx analyzed_tx))))
      (List.filter (λ '(address_tx, analyzed_tx), is_gain address_tx analyzed_tx) pairs))) INTERNAL_SERVER_ERROR;
  lose_txouts <-? or_code (try_all (map (λ '(_, analyzed_tx), spawn_blocking (get_transaction_outputs d (tx_hash (an_tx analyzed_tx))))
      (List.filter (λ '(address_tx, analyzed_tx), is_loss address_tx analyzed_tx) pairs))) INTERNAL_SERVER_ERROR;
  '(result, _, _) ← for_each (populate_step human_address gain_txouts lose_txouts) pairs ([], 0%nat, 0%nat);
  respond result.
End address.

Section handlers.
Context `{AddressDecoders, RocksDb, Layout, Sha256, UnstableSort}.

Definition newest_first (l : list AddressTransaction) : list AddressTransaction :=
  sort_unstable_by (λ a b, at_timestamp b <=? at_timestamp a) l.

Record AddressTopResponse := mkAddressTopResponse {
  ar_total_txs : Z;
  ar_total_spent : Z;
  ar_total_received : Z;
  ar_first_seen : Z;
  ar_top_txs : list AddressTransaction;
}.

Definition address_data_top (c : Chain) (d : Databases) (address : string) (limit : option Z) : response AddressTopResponse :=
  '(address_bytes, human_address) <-? some_or_code (parse_address address) BAD_REQUEST;
  limit <-? checked_limit limit;
  top_data <-? or_code (get_top_address_data d address_bytes limit) INTERNAL_SERVER_ERROR;
  transactions ← filter_and_populate_address_txs c (ta_transactions top_data);
  transactions <-? populate_other_address_fields d human_address (newest_first transactions);
  respond (mkAddressTopResponse (ta_total_txs top_data) (ta_total_spent top_data) (ta_total_received top_data)
    (ta_first_seen top_data) transactions).

Definition address_data_extra (c : Chain) (d : Databases) (address : string) (from_timestamp to_timestamp limit : option Z) :
    response (list AddressTransaction) :=
  '(address_bytes, human_address) <-? some_or_code (parse_address address) BAD_REQUEST;
  let from_timestamp := default 0 from_timestamp in
  let to_timestamp := default u64_max to_timestamp in
  limit <-? checked_limit limit;
  amends ← or_default (get_address_entires d address_bytes from_timestamp to_timestamp limit) [];
  transactions ← filter_and_populate_address_txs c amends;
  populate_other_address_fields d human_address (newest_first transactions).

Definition address_data_continue (c : Chain) (d : Databases) (address after_tx : string) (after_timestamp : Z)
    (limit : option Z) : response (list AddressTransaction) :=
  '(address_bytes, human_address) <-? some_or_code (parse_address address) BAD_REQUEST;
  unhexxed <-? some_or_code (parse_hash after_tx) BAD_REQUEST;
  limit <-? checked_limit limit;
  amends ← or_default (get_address_entires_continue d address_bytes unhexxed after_timestamp limit) [];
  transactions ← filter_and_populate_address_txs c amends;
  populate_other_address_fields d human_address (newest_first transactions).
End handlers.

(** * [search.rs] *)

(** [str::parse::<u64>]: digits, perhaps after a plus, of a number that fits *)
Definition digit_value (ch : ascii) : option Z :=
  let n := Z.of_nat (nat_of_ascii ch) - 48 in if (0 <=? n) && (n <? 10) then Some n else None.

Fixpoint parse_digits (s : string) (acc : Z) : option Z :=
  match s with
  | EmptyString => Some acc
  | String ch s =>
      n ← digit_value ch;
      let acc := acc * 10 + n in
      if acc <? 2 ^ 64 then parse_digits s acc else None
  end.

Definition parse_u64 (s : string) : option Z :=
  match s with
  | EmptyString => None
  | String "+" EmptyString => None
  | String "+" s => parse_digits s 0
  | s => parse_digits s 0
  end.

Record SearchResponse := mkSearchResponse {
  sr_address : option string;
  sr_block_hash : option hash;
  sr_tx_hash : option hash;
}.

Definition nothing_found : SearchResponse := mkSearchResponse None None None.

Section more.
Context `{AddressDecoders, RocksDb, Layout, Sha256, RegexLib}.

Definition search (c : Chain) (d : Databases) (term : string) : response SearchResponse :=
  match parse_address term with
  | Some (address_bytes, human_address) =>
      v <-? or_code (get_address_entires d address_bytes 0 u64_max 1) INTERNAL_SERVER_ERROR;
      respond (if bool_decide (v = []) then nothing_found
               else mkSearchResponse (Some (Address_fmt human_address)) None None)
  | None =>
      match parse_u64 term with
      | Some block_number =>
          respond (match get_hash_by_number c block_number with
                   | Some v => mkSearchResponse None (Some v) None
                   | None => nothing_found
                   end)
      | None =>
          match parse_hash term with
          | None => respond nothing_found
          | Some unhexxed =>
              if bool_decide (is_Some (get_header_by_hash c unhexxed)) then
                respond (mkSearchResponse None (Some unhexxed) None)
              else
                match get_analyzed_tx d unhexxed with
                | Ok _ => respond (mkSearchResponse None None (Some unhexxed))
                | Err _ => respond nothing_found
                | Panic m => Panic m
                | Ub => Ub
                end
          end
      end
  end.

(** * [tx.rs] *)

Record TxDataResponse := mkTxDataResponse {
  td_header : BlockHeaderWithNumber;
  td_tx : AnalyzedTx;
  td_spends : list (Z * hash);
  td_txin_addresses : list Address;
  td_txout_addresses : list Address;
}.

Definition txouts_to_addresses (txouts : list TxOut) : outcome (list Address) :=
  if bool_decide (txouts = []) then Ok [Coinbase]
  else try_all (map (λ txout, get_human_address_from_script (txout_script txout)) txouts).

(** A task for each input *)
Definition get_txouts_for_txins (d : Databases) (txins : list TxIn) : outcome (list TxOut) :=
  try_all (map (λ txin, spawn_blocking (
    txouts ← get_transaction_outputs d (prevout_hash txin);
    expect (txouts !! Z.to_nat (prevout_index txin)) "swap_remove index")) txins).

Definition set_txouts (t : Tx) (outs : list TxOut) : Tx :=
  mkTx (tx_version t) (tx_locktime t) (txins t) outs (witness_data t) (tx_hash t) (witness_hash t).

Definition set_tx (an : AnalyzedTx) (t : Tx) : AnalyzedTx :=
  mkAnalyzedTx (an_fee an) (an_txouts_sum an) (an_size_wus an) (an_sigops an) (an_block_hash an) t (an_txin_values an).

Definition txdata (c : Chain) (d : Databases) (h : string) : response TxDataResponse :=
  unhexxed <-? some_or_code (parse_hash h) BAD_REQUEST;
  tx <-? or_code (get_analyzed_tx d unhexxed) NOT_FOUND;
  txouts <-? or_code (get_transaction_outputs d unhexxed) NOT_FOUND;
  full ← compute_witness_hash (set_txouts (an_tx tx) txouts);
  let tx := set_tx tx full in
  header <-? some_or_code (get_header_by_hash c (an_block_hash tx)) NOT_FOUND;
  spends <-? or_code (get_tx_spends d unhexxed) NOT_FOUND;
  txout_addresses ← txouts_to_addresses (Tx.txouts (an_tx tx));
  txouts_for_txins <-? (if is_coinbase (an_tx tx) then respond []
                        else or_code (get_txouts_for_txins d (txins (an_tx tx))) NOT_FOUND);
  txin_addresses ← txouts_to_addresses txouts_for_txins;
  respond (mkTxDataResponse header tx (filter_tx_spends c spends) txin_addresses txout_addresses).

(** * [block.rs] *)

Record BlockDataResponse := mkBlockDataResponse {
  bd_header : BlockHeaderWithNumber;
  bd_total_txs_count : Z;
  bd_txs : list BlockTxEntry;
  bd_miner_id : MinerId;
  bd_miner_name : bytes;
  bd_recent_miner_share : f64;
}.

Definition block_data_top (c : Chain) (d : Databases) (w : Miners) (h : string) (limit : option Z) : response BlockDataResponse :=
  unhexxed <-? some_or_code (parse_hash h) BAD_REQUEST;
  header <-? some_or_code (get_header_by_hash c unhexxed) NOT_FOUND;
  limit <-? checked_limit limit;
  txs ← or_default (get_block_tx_entries d unhexxed) [];
  miner ← get_miner_for_block_and_share w (bn_hash header);
  let '(miner_id, miner_name, recent_miner_share) := default ([], [], f64_zero) miner in
  respond (mkBlockDataResponse header (len txs) (take (Z.to_nat limit) txs) miner_id miner_name recent_miner_share).

Definition block_data_extra (d : Databases) (h : string) (skip : Z) (limit : option Z) : response (list BlockTxEntry) :=
  unhexxed <-? some_or_code (parse_hash h) BAD_REQUEST;
  limit <-? checked_limit limit;
  txs ← or_default (get_block_tx_entries d unhexxed) [];
  respond (take (Z.to_nat limit) (drop (Z.to_nat skip) txs)).

(** * [miner.rs] *)

Definition get_miners_page_continue (c : Chain) (w : Miners) (fuel : nat) (h : string) (limit : option Z) :
    comp (StatusCode + list RecentBlock) :=
  match unhexxed <-? some_or_code (parse_hash h) BAD_REQUEST; limit <-? checked_limit limit; respond (unhexxed, limit) with
  | Ok (inr (unhexxed, limit)) =>
      parents ← get_parents c fuel unhexxed limit;
      Finished (or_code (get_block_data c w parents) INTERNAL_SERVER_ERROR)
  | Ok (inl code) => mret (inl code)
  | Err e => Finished (Err e)
  | Panic m => Finished (Panic m)
  | Ub => Finished Ub
  end.

Definition unknown_miner : Miner := mkMiner (bstr "Unknown") None [].

Definition get_miner_data_top (c : Chain) (w : Miners) (miner_id : MinerId) (limit : option Z) :
    response (Miner * list RecentBlock) :=
  limit <-? checked_limit limit;
  miner <-? (if bool_decide (miner_id = UNKNOWN_ID) then respond unknown_miner
             else some_or_code (get_miner w miner_id) NOT_FOUND);
  recent_blocks ← get_miner_blocks c w miner_id (Z.to_nat limit) None;
  respond (miner, recent_blocks).

Definition get_miner_data_continue (c : Chain) (w : Miners) (miner_id : MinerId) (after_hash : string) (limit : option Z) :
    response (list RecentBlock) :=
  limit <-? checked_limit limit;
  unhexxed <-? some_or_code (parse_hash after_hash) BAD_REQUEST;
  recent_blocks ← get_miner_blocks c w miner_id (Z.to_nat limit) (Some unhexxed);
  respond recent_blocks.
End more.

(** * Distinct addresses *)

Lemma Address_eq a b : Address_rank a = Address_rank b → Address_text a = Address_text b → a = b.
Proof.
  intros Hr Ht. assert (∀ v v', bstr v = bstr v' → v = v') as Hinj.
  { intros v v' Hv. rewrite <- (String.string_of_list_byte_of_string v), <- (String.string_of_list_byte_of_string v').
    unfold bstr in Hv. by rewrite Hv. }
  destruct a, b; cbn in Hr, Ht; try discriminate; try (f_equal; by apply Hinj); done.
Qed.

Lemma Address_leb_antisym a b : Address_leb a b = true → Address_leb b a = true → a = b.
Proof.
  unfold Address_leb. intros Hab Hba. destruct (Z.eqb_spec (Address_rank a) (Address_rank b)) as [He|Hne].
  - rewrite <- He, Z.eqb_refl in Hba. apply Address_eq; [done|]. by apply bytes_leb_antisym.
  - apply Z.ltb_lt in Hab. rewrite (proj2 (Z.eqb_neq _ _)) in Hba by lia. apply Z.ltb_lt in Hba. lia.
Qed.

Lemma Address_leb_preorder : total_preorder Address_leb.
Proof.
  unfold Address_leb. split.
  - intros a b. destruct (Z.eqb_spec (Address_rank a) (Address_rank b)) as [He|Hne].
    + rewrite He, Z.eqb_refl. apply bytes_leb_total.
    + rewrite (proj2 (Z.eqb_neq (Address_rank b) _)) by lia. rewrite !Z.ltb_lt. lia.
  - intros a b c Hab Hbc. destruct (Z.eqb_spec (Address_rank a) (Address_rank b)) as [He|Hne];
      destruct (Z.eqb_spec (Address_rank b) (Address_rank c)) as [He'|Hne']; rewrite ?Z.ltb_lt in *.
    + rewrite (proj2 (Z.eqb_eq _ _)) by congruence. by eapply bytes_leb_trans.
    + rewrite (proj2 (Z.eqb_neq _ _)) by lia. apply Z.ltb_lt. lia.
    + rewrite (proj2 (Z.eqb_neq _ _)) by lia. apply Z.ltb_lt. lia.
    + rewrite (proj2 (Z.eqb_neq _ _)) by lia. apply Z.ltb_lt. lia.
Qed.

Lemma address_sort_spec l : address_sort l ≡ₚ l ∧ StronglySorted (ordered_by Address_leb) (address_sort l).
Proof.
  destruct Address_leb_preorder as [Htot Htrans]. split; [apply merge_sort_Permutation|].
  apply StronglySorted_merge_sort; [exact Htrans|exact Htot].
Qed.

Lemma try_all_Ok {A} (tasks : list (outcome A)) : ∀ l, try_all tasks = Ok l → Forall2 (λ m a, m = Ok a) tasks l.
Proof.
  induction tasks as [|m tasks IH]; intros l Hl; cbn in Hl; [by injection Hl as <-|].
  obind Hl. obind Hl. injection Hl as <-. constructor; [done|by apply IH].
Qed.

Lemma or_code_inr {A} (m : outcome A) code a : or_code m code = Ok (inr a) → m = Ok a.
Proof. unfold or_code, respond, refuse. destruct m; intros Hm; congruence. Qed.

Lemma rbind_inr {A B} (m : response A) (f : A → response B) b :
  rbind m f = Ok (inr b) → ∃ a, m = Ok (inr a) ∧ f a = Ok (inr b).
Proof. unfold rbind. intros Hm. obind Hm. destruct v as [code|a]; [done|]. by exists a. Qed.

Lemma spawn_blocking_Ok {A} (m : outcome A) a : spawn_blocking m = Ok a → m = Ok a.
Proof. by destruct m. Qed.

Section others.
Context `{AddressEncoders, RocksDb, Layout}.

(** The distinct addresses of some outputs, other than one *)
Definition distinct_others (human_address : Address) (outs : list TxOut) (l : list Address) : Prop :=
  NoDup l ∧ ∀ a, a ∈ l ↔ a ≠ human_address ∧
    ∃ o, o ∈ outs ∧ get_human_address_from_script (txout_script o) = Ok a.

Lemma other_addresses_spec human_address outs l : other_addresses human_address outs = Ok l → distinct_others human_address outs l.
Proof.
  unfold other_addresses. intros Hl. obind Hl. injection Hl as <-. apply try_all_Ok in Hv.
  destruct (address_sort_spec (List.filter (λ address, negb (bool_decide (address = human_address))) v)) as [Hp Hs].
  destruct (dedup_spec _ _ Address_leb_antisym Hs) as [Hn Hin]. split; [done|]. intros a. rewrite Hin, Hp, list_elem_of_In, List.filter_In.
  rewrite negb_true_iff, bool_decide_eq_false, <- list_elem_of_In. clear -Hv. split.
  - intros [Ha Hne]. split; [done|]. apply list_elem_of_lookup in Ha as [i Ha].
    destruct (Forall2_lookup_r _ _ _ _ _ Hv Ha) as (m & Hm & ->). apply list_lookup_fmap_Some in Hm as (o & Ho & Hoa).
    exists o. split; [by eapply list_elem_of_lookup_2|done].
  - intros [Hne (o & [i Ho]%list_elem_of_lookup & Hoa)]. split; [|done].
    assert (map (λ x, get_human_address_from_script (txout_script x)) outs !! i = Some (Ok a)) as Hm
      by (rewrite list_lookup_fmap, Ho; cbn; by rewrite Hoa).
    destruct (Forall2_lookup_l _ _ _ _ _ Hv Hm) as (a' & Ha' & [= ->]). by eapply list_elem_of_lookup_2.
Qed.

(** What is shown of a transaction of an address: where its gain came from, or where its loss went *)
Definition shows_others (d : Databases) (human_address : Address) (tx : AddressTransaction) (an : AnalyzedTx)
    (r : AddressTransaction) : Prop :=
  if 0 <? at_value tx then
    if is_coinbase (an_tx an) then r = set_others tx (Some Coinbase) 1
    else ∃ outs l, spent_outputs d (txins (an_tx an)) = Ok outs ∧ distinct_others human_address outs l ∧ r = with_others tx l
  else if at_value tx <? 0 then
    ∃ outs l, get_transaction_outputs d (tx_hash (an_tx an)) = Ok outs ∧ distinct_others human_address outs l ∧ r = with_others tx l
  else r = tx.

Abbreviation tx_pair := (AddressTransaction * AnalyzedTx)%type.

Definition gains (pairs : list tx_pair) : list tx_pair := List.filter (λ '(tx, an), is_gain tx an) pairs.
Definition losses (pairs : list tx_pair) : list tx_pair := List.filter (λ '(tx, an), is_loss tx an) pairs.

(** The outputs that were fetched for some of the pairs *)
Definition fetched (f : AnalyzedTx → outcome (list TxOut)) (pairs : list tx_pair) (outs : list (list TxOut)) : Prop :=
  Forall2 (λ p o, f p.2 = Ok o) pairs outs.

Lemma fetched_tasks f pairs outs :
  try_all (map (λ '(_, an), spawn_blocking (f an)) pairs) = Ok outs → fetched f pairs outs.
Proof.
  intros Ht%try_all_Ok. unfold fetched. apply Forall2_fmap_l in Ht. eapply Forall2_impl; [exact Ht|].
  intros [tx an] o Ho. by apply spawn_blocking_Ok.
Qed.

Lemma middle {A} (l1 : list A) x l2 : (l1 ++ x :: l2) !! length l1 = Some x.
Proof. by rewrite list_lookup_middle. Qed.

Lemma populate_loop d human_address rest : ∀ result G1 G2 L1 L2 out gi li,
  fetched (λ an, spent_outputs d (txins (an_tx an))) (gains rest) G2 →
  fetched (λ an, get_transaction_outputs d (tx_hash (an_tx an))) (losses rest) L2 →
  Forall (λ p : tx_pair, at_value p.1 < 0 → is_coinbase (an_tx p.2) = false) rest →
  for_each (populate_step human_address (G1 ++ G2) (L1 ++ L2)) rest (result, length G1, length L1) = Ok (out, gi, li) →
  ∃ rs, out = result ++ rs ∧ Forall2 (λ p r, shows_others d human_address p.1 p.2 r) rest rs.
Proof.
  induction rest as [|[tx an] rest IH]; intros result G1 G2 L1 L2 out gi li HG HL Hc Hl; cbn [for_each] in Hl.
  { injection Hl as <- <- <-. exists []. by rewrite app_nil_r. }
  apply Forall_cons in Hc as [Hneg Hc]. cbn [fst snd] in Hneg. obind Hl.
  assert (∀ r G1' G2' L1' L2', G1' ++ G2' = G1 ++ G2 → L1' ++ L2' = L1 ++ L2 →
    fetched (λ an, spent_outputs d (txins (an_tx an))) (gains rest) G2' →
    fetched (λ an, get_transaction_outputs d (tx_hash (an_tx an))) (losses rest) L2' →
    shows_others d human_address tx an r → v = (result ++ [r], length G1', length L1') →
    ∃ rs, out = result ++ rs ∧ Forall2 (λ p r, shows_others d human_address p.1 p.2 r) ((tx, an) :: rest) rs) as Hnext.
  { intros r G1' G2' L1' L2' HGe HLe HG' HL' Hr ->. rewrite <- HGe, <- HLe in Hl.
    destruct (IH _ _ _ _ _ _ _ _ HG' HL' Hc Hl) as (rs & -> & Hrs). exists (r :: rs). rewrite <- app_assoc. split; [done|]. by constructor. }
  unfold gains, losses in HG, HL. cbn [List.filter] in HG, HL. unfold is_gain, is_loss in HG, HL. unfold populate_step in Hv.
  destruct (Z.ltb_spec 0 (at_value tx)) as [Hpos|Hpos].
  - rewrite (proj2 (Z.ltb_ge (at_value tx) 0)) in HL by lia. cbn [andb] in HG, HL.
    destruct (is_coinbase (an_tx an)) eqn:Hcb; cbn [negb] in HG.
    + injection Hv as <-. apply (Hnext (set_others tx (Some Coinbase) 1) G1 G2 L1 L2); try done.
      unfold shows_others. by rewrite (proj2 (Z.ltb_lt _ _)), Hcb by lia.
    + apply Forall2_cons_inv_l in HG as (o & G2' & Ho & HG & ->). cbn [snd] in Ho. rewrite middle in Hv. cbn [expect mbind outcome_bind] in Hv.
      obind Hv. injection Hv as <-. apply (Hnext (with_others tx v0) (G1 ++ [o]) G2' L1 L2); try done; [by rewrite <- app_assoc| |].
      * unfold shows_others. rewrite (proj2 (Z.ltb_lt _ _)), Hcb by lia. exists o, v0. split_and!; [done|by apply other_addresses_spec|done].
      * rewrite length_app. cbn. by rewrite Nat.add_1_r.
  - cbn [andb] in HG. destruct (Z.ltb_spec (at_value tx) 0) as [Hlt|Hge].
    + rewrite Hneg in HL by done. cbn [andb negb] in HL. apply Forall2_cons_inv_l in HL as (o & L2' & Ho & HL & ->). cbn [snd] in Ho.
      rewrite middle in Hv. cbn [expect mbind outcome_bind] in Hv. obind Hv. injection Hv as <-.
      apply (Hnext (with_others tx v0) G1 G2 (L1 ++ [o]) L2'); try done; [by rewrite <- app_assoc| |].
      * unfold shows_others. rewrite (proj2 (Z.ltb_ge 0 _)), (proj2 (Z.ltb_lt _ 0)) by lia.
        exists o, v0. split_and!; [done|by apply other_addresses_spec|done].
      * rewrite length_app. cbn. by rewrite Nat.add_1_r.
    + cbn [andb] in HL. injection Hv as <-. apply (Hnext tx G1 G2 L1 L2); try done.
      unfold shows_others. by rewrite (proj2 (Z.ltb_ge 0 _)), (proj2 (Z.ltb_ge _ 0)) by lia.
Qed.
End others.

(** * Properties *)

(** C18. The two tables of fetched outputs, each with an index of its own, fit the transactions: every
    transaction of the address is shown as it was found, in order, with the distinct other addresses
    of the outputs that it spends if the address gained, and of its own outputs if it lost. *)
Theorem others_populated `{AddressEncoders, RocksDb, Layout} d human_address transactions result :
  (∀ tx an, tx ∈ transactions → get_analyzed_tx d (at_transaction_hash tx) = Ok an → at_value tx < 0 →
    is_coinbase (an_tx an) = false) →
  populate_other_address_fields d human_address transactions = Ok (inr result) →
  ∃ full_txs,
    Forall2 (λ tx an, get_analyzed_tx d (at_transaction_hash tx) = Ok an) transactions full_txs ∧
    Forall2 (λ p r, shows_others d human_address p.1 p.2 r) (zip transactions full_txs) result.
Proof.
  intros Hneg Hp. unfold populate_other_address_fields in Hp.
  apply rbind_inr in Hp as (full_txs & Hfull%or_code_inr%try_all_Ok & Hp).
  apply rbind_inr in Hp as (gain_txouts & Hg%or_code_inr & Hp). apply rbind_inr in Hp as (lose_txouts & Hl%or_code_inr & Hp).
  obind Hp. destruct v as [[out gi] li]. injection Hp as <-.
  assert (Forall2 (λ tx an, get_analyzed_tx d (at_transaction_hash tx) = Ok an) transactions full_txs) as Htx.
  { apply Forall2_fmap_l in Hfull. eapply Forall2_impl; [exact Hfull|]. intros tx an Ha. by apply spawn_blocking_Ok. }
  exists full_txs. split; [done|].
  destruct (populate_loop d human_address (zip transactions full_txs) [] [] gain_txouts [] lose_txouts out gi li) as (rs & -> & Hrs); [..|done].
  - apply (fetched_tasks (λ an, spent_outputs d (txins (an_tx an)))), Hg.
  - apply (fetched_tasks (λ an, get_transaction_outputs d (tx_hash (an_tx an)))), Hl.
  - apply Forall_forall. intros [tx an] Hin Hlt. cbn [fst snd] in *. apply (Hneg tx); [|clear -Htx Hin|done].
    + by eapply elem_of_zip_l.
    + apply list_elem_of_lookup in Hin as [i Hin]. apply lookup_zip_Some in Hin as [Htx_i Han_i]. by apply (Forall2_lookup_lr _ _ _ _ _ _ Htx Htx_i Han_i).
  - exact Hv.
Qed.

(** The text of an address is of no other kind, as far as the kinds are tried before its own. *)
Definition unambiguous `{AddressDecoders} (a : Address) : Prop :=
  match a with
  | P2PKH v | P2SH v => is_ok (hex_decode v) = false
  | P2WSH v | P2WPKH v | Taproot v =>
      is_ok (hex_decode v) = false ∧ is_ok (bs58_decode_check 0 v) = false ∧ is_ok (bs58_decode_check 5 v) = false
  | _ => True
  end.

Lemma parse_not_hex `{AddressDecoders} v : is_ok (hex_decode v) = false →
  parse_address v =
    match bs58_decode_check 0x00 v with
    | Ok b => b ← versioned 0x00 b; Some (b, P2PKH v)
    | _ =>
        match bs58_decode_check 0x05 v with
        | Ok b => b ← versioned 0x05 b; Some (b, P2SH v)
        | _ => parse_segwit v
        end
    end.
Proof. unfold parse_address. by destruct (hex_decode v). Qed.

Lemma parse_only_segwit `{AddressDecoders} v :
  is_ok (hex_decode v) = false ∧ is_ok (bs58_decode_check 0 v) = false ∧ is_ok (bs58_decode_check 5 v) = false →
  parse_address v = parse_segwit v.
Proof.
  intros (Hh & Hb0 & Hb5). rewrite parse_not_hex by done.
  by destruct (bs58_decode_check 0 v), (bs58_decode_check 5 v).
Qed.

Lemma versioned_Some v b : in_u8 v → length b = 20%nat → versioned v (byte.of_Z v :: b) = Some b.
Proof.
  intros Hv Hb. unfold versioned, len. cbn [length]. rewrite Hb. change (Z.of_nat 21 =? 21) with true. cbn [andb].
  rewrite byte.unsigned_of_Z. unfold byte.wrap. rewrite Z.mod_small by done. by rewrite Z.eqb_refl.
Qed.

(** The address that is shown of an output leads back to it: the request with its text is for the key
    under which the transactions of the output are stored, and for the same address. *)
Theorem shown_address_found `{AddressDecoders} script a :
  get_human_address_from_script script = Ok a → a ≠ OpReturn → a ≠ Unknown → unambiguous a →
  ∃ key, raw_address script = Some key ∧ parse_address (Address_fmt a) = Some (key, a).
Proof.
  intros Ha Hret Hunk Hun. destruct (raw_address script) as [key|] eqn:Hr.
  2: { rewrite (proj2 (raw_address_None script Hr)) in Ha. by destruct (op_return script); simplify_eq. }
  exists key. split; [done|]. destruct (raw_address_sound _ _ Hr) as (t & Hok & <-).
  rewrite (proj1 (raw_address_template t Hok)) in Hr. injection Hr as <-. rewrite (human_address_template t Hok) in Ha.
  destruct t as [k|k|k|k|k|k|k]; cbn [template_ok template_address template_data] in *.
  - injection Ha as <-. cbn [Address_fmt]. unfold parse_address. rewrite hex_decode_encode. unfold len. by rewrite Hok.
  - injection Ha as <-. cbn [Address_fmt]. unfold parse_address. rewrite hex_decode_encode. unfold len. by rewrite Hok.
  - injection Ha as <-. cbn [Address_fmt unambiguous] in *. rewrite parse_not_hex by done.
    destruct (bs58_decode_other 0 5 k) as [e ->]; [unfold in_u8; lia..|].
    rewrite bs58_decode_encode by (unfold in_u8; lia). rewrite versioned_Some by (done || unfold in_u8; lia). done.
  - injection Ha as <-. cbn [Address_fmt unambiguous] in *. rewrite parse_not_hex by done.
    rewrite bs58_decode_encode by (unfold in_u8; lia). rewrite versioned_Some by (done || unfold in_u8; lia). done.
  - obind Ha. injection Ha as <-. cbn [Address_fmt unambiguous] in *. rewrite parse_only_segwit by done.
    unfold parse_segwit. rewrite (segwit_decode_v0 _ _ Hv). unfold len. by rewrite Hok.
  - obind Ha. injection Ha as <-. cbn [Address_fmt unambiguous] in *. rewrite parse_only_segwit by done.
    unfold parse_segwit. rewrite (segwit_decode_v0 _ _ Hv). unfold len. by rewrite Hok.
  - obind Ha. injection Ha as <-. cbn [Address_fmt unambiguous] in *. rewrite parse_only_segwit by done.
    unfold parse_segwit. rewrite (segwit_decode_v1 _ _ Hv). unfold len. by rewrite Hok.
Qed.

(** * Examples *)

Module ToyApi.
Import Toy ToyDb.

(** The bytes themselves as text, with a letter for the kind in front *)
Definition show (kind : ascii) (b : bytes) : string := String kind (String.string_of_list_byte b).

Definition shown (kind : ascii) (s : string) : outcome bytes :=
  match s with
  | String first rest => if Ascii.eqb first kind then Ok (String.list_byte_of_string rest) else Err "other kind"
  | EmptyString => Err "empty"
  end.

Lemma shown_show kind b : shown kind (show kind b) = Ok b.
Proof. unfold shown, show. by rewrite Ascii.eqb_refl, String.list_byte_of_string_of_list_byte. Qed.

Lemma letter_inj kind a b : show kind a = show kind b → a = b.
Proof. intros Hs. apply (f_equal (shown kind)) in Hs. rewrite !shown_show in Hs. by injection Hs. Qed.

#[export] Instance letter_encoders : AddressEncoders.
Proof.
  refine {| hex_encode := show "x"; bs58_check_encode v b := show "b" (byte.of_Z v :: b);
            segwit_encode_v0 b := Ok (show "q" b); segwit_encode_v1 b := Ok (show "p" b) |}; try done.
  - apply letter_inj.
  - intros v a b Hs. apply letter_inj in Hs. by injection Hs.
  - intros a b s Ha Hb. apply (letter_inj "q"). congruence.
  - intros a b s Ha Hb. apply (letter_inj "p"). congruence.
Defined.

Lemma of_Z_inj v v' : in_u8 v → in_u8 v' → byte.of_Z v = byte.of_Z v' → v = v'.
Proof.
  unfold in_u8. intros Hv Hv' Hb. apply (f_equal byte.unsigned) in Hb. rewrite !byte.unsigned_of_Z in Hb.
  unfold byte.wrap in Hb. rewrite !Z.mod_small in Hb by lia. done.
Qed.

#[export] Instance letter_decoders : AddressDecoders.
Proof.
  refine {| hex_decode := shown "x";
            bs58_decode_check v s := (b ← shown "b" s;
              if bool_decide (head b = Some (byte.of_Z v)) then Ok b else Err "invalid version"%string);
            segwit_decode s := match shown "q" s with
                               | Ok b => Ok ("bc"%string, 0, b)
                               | _ => b ← shown "p" s; Ok ("bc"%string, 1, b)
                               end |}.
  - intros b. apply shown_show.
  - intros v b _. cbn [bs58_check_encode letter_encoders]. rewrite shown_show. cbn [mbind outcome_bind].
    by rewrite bool_decide_true.
  - intros v v' b Hv Hv' Hne. cbn [bs58_check_encode letter_encoders]. rewrite shown_show. cbn [mbind outcome_bind].
    rewrite bool_decide_false; [by eexists|]. intros [= Hb]. by apply Hne, of_Z_inj.
  - intros b s [= <-]. by rewrite shown_show.
  - intros b s [= <-]. change (shown "q" (show "p" b)) with (Err (A := bytes) "other kind"). by rewrite shown_show.
Defined.

(** The payment of the toy block: it spends one output, and its analysis is stored. *)
Definition payment : SerializedTx := planned toy_header (mkTxPlan toy_payment toy_deps 4).
Definition payment_db : Databases :=
  mkDatabases toy_db {[ st_hash payment := default [] (st_analyzed_tx payment) ]} (TXOUTS_DB toy_outputs_db) ∅ ∅ ∅.
Definition payment_entry (value : Z) : AddressTransaction :=
  mkAddressTransaction (st_hash payment) (st_hash payment) 1 5 value None 0.
End ToyApi.
Import Toy ToyDb ToyApi.

(** A gain from a single other address *)
Definition payment_shown : list AddressTransaction :=
  match populate_other_address_fields payment_db Unknown [payment_entry 7] with Ok (inr l) => l | _ => [] end.

Lemma payment_shown_eq : populate_other_address_fields payment_db Unknown [payment_entry 7] = Ok (inr payment_shown).
Proof. vm_compute. reflexivity. Qed.

Lemma others_populated_witness :
  ∃ full_txs, Forall2 (λ p r, shows_others payment_db Unknown p.1 p.2 r) (zip [payment_entry 7] full_txs) payment_shown.
Proof.
  destruct (others_populated payment_db Unknown [payment_entry 7] payment_shown) as (full_txs & _ & Hs).
  - intros tx an ->%list_elem_of_singleton _ Hv. vm_compute in Hv. discriminate Hv.
  - exact payment_shown_eq.
  - exists full_txs. exact Hs.
Defined.

Lemma shown_address_found_witness : ∃ key,
  raw_address (template_script (key_hash dummy)) = Some key ∧
  parse_address (show "b" (Byte.x00 :: dummy)) = Some (key, P2PKH (show "b" (Byte.x00 :: dummy))).
Proof.
  apply (shown_address_found (template_script (key_hash dummy)) (P2PKH (show "b" (Byte.x00 :: dummy)))).
  - vm_compute. reflexivity.
  - discriminate.
  - discriminate.
  - vm_compute. reflexivity.
Defined.
