(* ===== verification/Json.v ===== *)
(** The derived serializers of [serde] and the adapters of [src/util/serialize_*.rs]: what is handed to the serializer
    for every value of a response. *)
From S2P Require Import Prelude.
From S2P Require Import Extern.
From S2P Require Import Varint.
From S2P Require Import Wire.
From S2P Require Import Tx.
From S2P Require Import Header.
From S2P Require Import Loops.
From S2P Require Import Chain.
From S2P Require Import Address.
From S2P Require Import Analyze.
From S2P Require Import Float.
From S2P Require Import Queries.
From S2P Require Import Miners.
From S2P Require Import FrontPage.
From S2P Require Import OnlineList.
From S2P Require Import Text.
From S2P Require Import Sqlite.
From S2P Require Import Api.

(** * The data model of [serde] *)

Inductive Json :=
| Null
| Bool (b : bool)
| Number (n : Z)
| Float (x : f64)
| Text (s : bytes)
| Seq (l : list Json)
| Object (fields : list (bytes * Json)).

Declare Scope json_scope.
Delimit Scope json_scope with json.
Notation "k ↦ v" := (bstr k, v) (at level 50, no associativity) : json_scope.
Open Scope json_scope.

Definition option_json {A} (f : A → Json) (o : option A) : Json := match o with Some a => f a | None => Null end.

(** [#[serde(flatten)]]: the fields of a value among those of another *)
Definition fields_of (j : Json) : list (bytes * Json) := match j with Object fields => fields | _ => [] end.

Section json.
Context `{AddressEncoders}.

(** * The adapters *)

Definition serialize_as_hex (b : bytes) : Json := Text (bstr (hex_encode b)).

Definition serialize_hash_as_hex_reversed (h : hash) : Json := Text (bstr (hex_encode (rev h))).

Definition serialize_option_hash_as_hex_reversed (o : option hash) : Json := option_json serialize_hash_as_hex_reversed o.

(** The keys of a map are texts. *)
Definition u32_text (n : Z) : bytes := number_text 10 10 n.

Definition serialize_spends (spends : list (Z * hash)) : Json :=
  Object (map (λ spend, (u32_text spend.1, serialize_hash_as_hex_reversed spend.2)) spends).

Definition serialize_try_string (ua : option bytes) : Json :=
  match ua with Some data => Text (from_utf8_lossy data) | None => Text [] end.

(** [ChunkedHexData]: the strings of an array, until one cannot be read *)
Definition ChunkedHexData (witness : bytes) : outcome Json :=
  match deserialize_array_of_varsrs_iter witness with
  | Ok components =>
      l ← VarStrIter_collect (S (length witness)) components;
      l ← ok_or l "out of fuel";
      Ok (Seq (map serialize_as_hex l))
  | Err _ => Ok (Seq [])
  | Panic m => Panic m
  | Ub => Ub
  end.

Definition serialize_witnesses (witnesses : option (list bytes)) : outcome Json :=
  match witnesses with
  | None => Ok (Seq [])
  | Some witnesses => seq ← try_all (map ChunkedHexData witnesses); Ok (Seq seq)
  end.

(** * Transactions and blocks *)

Definition TxIn_json (t : TxIn) : Json :=
  Object ["prevoutHash" ↦ serialize_hash_as_hex_reversed (prevout_hash t); "prevoutIndex" ↦ Number (prevout_index t);
          "sequence" ↦ Number (sequence t); "sigScript" ↦ serialize_as_hex (sig_script t)].

Definition TxOut_json (t : TxOut) : Json :=
  Object ["value" ↦ Number (txout_value t); "script" ↦ serialize_as_hex (txout_script t)].

Definition Tx_json (t : Tx) : outcome Json :=
  witness_data ← serialize_witnesses (witness_data t);
  Ok (Object ["version" ↦ Number (tx_version t); "locktime" ↦ Number (tx_locktime t);
              "txins" ↦ Seq (map TxIn_json (txins t)); "txouts" ↦ Seq (map TxOut_json (txouts t));
              "witnessData" ↦ witness_data; "hash" ↦ serialize_hash_as_hex_reversed (tx_hash t);
              "witnessHash" ↦ serialize_hash_as_hex_reversed (witness_hash t)]).

Definition AnalyzedTx_json (a : AnalyzedTx) : outcome Json :=
  tx ← Tx_json (an_tx a);
  Ok (Object (["fee" ↦ Number (an_fee a); "txoutsSum" ↦ Number (an_txouts_sum a); "sizeWus" ↦ Number (an_size_wus a);
               "sigops" ↦ Number (an_sigops a); "blockHash" ↦ serialize_hash_as_hex_reversed (an_block_hash a)]
              ++ fields_of tx ++ ["txinValues" ↦ Seq (map Number (an_txin_values a))])).

Definition BlockHeader_json (h : BlockHeader) : Json :=
  Object ["version" ↦ Number (bh_version h); "parent" ↦ serialize_hash_as_hex_reversed (bh_parent h);
          "merkleRoot" ↦ serialize_hash_as_hex_reversed (bh_merkle_root h); "timestamp" ↦ Number (bh_timestamp h);
          "bits" ↦ Number (bh_bits h); "nonce" ↦ Number (bh_nonce h); "txsCount" ↦ Number (bh_txs_count h);
          "hash" ↦ serialize_hash_as_hex_reversed (bh_hash h)].

(** [U256] is written by [primitive-types]. *)
Context (u256_json : Z → Json).

Definition BlockHeaderWithNumber_json (h : BlockHeaderWithNumber) : Json :=
  Object (fields_of (BlockHeader_json (bn_header h)) ++
          ["number" ↦ Number (bn_number h); "fetchedFull" ↦ Bool (bn_fetched_full h); "totalWork" ↦ u256_json (bn_total_work h);
           "coinbaseAscii" ↦ option_json Text (bn_coinbase_ascii h)]).

(** The variant is a field of its own: [#[serde(tag = "type")]]. *)
Definition Address_json (a : Address) : Json :=
  let value kind v := Object ["type" ↦ Text (bstr kind); "value" ↦ Text (bstr v)] in
  let unit kind := Object ["type" ↦ Text (bstr kind)] in
  match a with
  | P2PKFull v => value "P2PKFull"%string v
  | P2PKShort v => value "P2PKShort"%string v
  | P2PKH v => value "P2PKH"%string v
  | P2SH v => value "P2SH"%string v
  | P2WSH v => value "P2WSH"%string v
  | P2WPKH v => value "P2WPKH"%string v
  | Taproot v => value "Taproot"%string v
  | OpReturn => unit "OpReturn"%string
  | Unknown => unit "Unknown"%string
  | Coinbase => unit "Coinbase"%string
  end.

(** * The responses *)

Definition TxDataResponse_json (r : TxDataResponse) : outcome Json :=
  tx ← AnalyzedTx_json (td_tx r);
  Ok (Object (["header" ↦ BlockHeaderWithNumber_json (td_header r)] ++ fields_of tx ++
              ["spends" ↦ serialize_spends (td_spends r); "txin_addresses" ↦ Seq (map Address_json (td_txin_addresses r));
               "txout_addresses" ↦ Seq (map Address_json (td_txout_addresses r))])).

Definition BlockTxEntry_json (e : BlockTxEntry) : Json :=
  Object ["hash" ↦ serialize_hash_as_hex_reversed (be_hash e); "valueSats" ↦ Number (be_value_sats e);
          "feeSats" ↦ Number (be_fee_sats e); "sizeWus" ↦ Number (be_size_wus e)].

Definition BlockDataResponse_json (r : BlockDataResponse) : Json :=
  Object (fields_of (BlockHeaderWithNumber_json (bd_header r)) ++
          ["totalTxsCount" ↦ Number (bd_total_txs_count r); "txs" ↦ Seq (map BlockTxEntry_json (bd_txs r));
           "minerId" ↦ Text (bd_miner_id r); "minerName" ↦ Text (bd_miner_name r);
           "recentMinerShare" ↦ Float (bd_recent_miner_share r)]).

Definition AddressTransaction_json (t : AddressTransaction) : Json :=
  Object ["transactionHash" ↦ serialize_hash_as_hex_reversed (at_transaction_hash t);
          "blockHash" ↦ serialize_hash_as_hex_reversed (at_block_hash t); "blockNumber" ↦ Number (at_block_number t);
          "timestamp" ↦ Number (at_timestamp t); "value" ↦ Number (at_value t);
          "singleOtherAddress" ↦ option_json Address_json (at_single_other_address t);
          "distinctOtherAddresses" ↦ Number (at_distinct_other_addresses t)].

Definition AddressTopResponse_json (r : AddressTopResponse) : Json :=
  Object ["totalTxs" ↦ Number (ar_total_txs r); "totalSpent" ↦ Number (ar_total_spent r);
          "totalReceived" ↦ Number (ar_total_received r); "firstSeen" ↦ Number (ar_first_seen r);
          "topTxs" ↦ Seq (map AddressTransaction_json (ar_top_txs r))].

Definition SearchResponse_json (r : SearchResponse) : Json :=
  Object ["address" ↦ option_json (λ s, Text (bstr s)) (sr_address r);
          "blockHash" ↦ serialize_option_hash_as_hex_reversed (sr_block_hash r);
          "txHash" ↦ serialize_option_hash_as_hex_reversed (sr_tx_hash r)].

Definition RecentBlock_json (b : RecentBlock) : Json :=
  Object ["hash" ↦ serialize_hash_as_hex_reversed (rb_hash b); "number" ↦ Number (rb_number b);
          "coinbaseAscii" ↦ Text (rb_coinbase_ascii b); "minerId" ↦ Text (rb_miner_id b); "minerName" ↦ Text (rb_miner_name b);
          "timestamp" ↦ Number (rb_timestamp b)].

Definition Miner_json (m : Miner) : Json :=
  Object ["displayName" ↦ Text (display_name m); "icon" ↦ option_json Text (icon m); "regexes" ↦ Seq (map Text (regexes m))].

Definition MinerDataTopResponse_json (miner : Miner) (recent_blocks : list RecentBlock) : Json :=
  Object (fields_of (Miner_json miner) ++ ["recentBlocks" ↦ Seq (map RecentBlock_json recent_blocks)]).

Definition MinersPageData_json (page : list (MinerId * bytes * f64) * list RecentBlock) : Json :=
  Object ["recentBlocks" ↦ Seq (map RecentBlock_json page.2);
          "recentShares" ↦ Seq (map (λ s, Seq [Text s.1.1; Text s.1.2; Float s.2]) page.1)].

(** [PeerData] as it is read from its row; none is left out of the fields. *)
Definition PeerData_json (p : PeerRow) : Json :=
  Object ["first_seen" ↦ Number (pr_first_seen p); "first_online" ↦ option_json Number (pr_first_online p);
          "user_agent" ↦ serialize_try_string (pr_user_agent p); "height" ↦ option_json Number (pr_height p);
          "services" ↦ Number (pr_services p)].

Definition PeerResponse_json (is_connected_now : bool) (peer_data : option PeerRow) : Json :=
  Object (["is_connected_now" ↦ Bool is_connected_now] ++
          match peer_data with Some p => fields_of (PeerData_json p) | None => [] end).

(** * The front page *)

Definition ShortBlock_json (b : ShortBlock) : Json :=
  Object ["number" ↦ Number (sb_number b); "hash" ↦ serialize_hash_as_hex_reversed (sb_hash b);
          "txCount" ↦ Number (sb_tx_count b); "rewardSats" ↦ Number (sb_reward_sats b); "btcPrice" ↦ Float (sb_btc_price b);
          "timestamp" ↦ Number (sb_timestamp b); "minerId" ↦ Text (sb_miner_id b); "minerName" ↦ Text (sb_miner_name b);
          "recentMinerShare" ↦ Float (sb_recent_miner_share b)].

Definition ShortTx_json (t : ShortTx) : Json :=
  Object ["hash" ↦ Text (sx_hash t); "value" ↦ Number (sx_value t); "sizeWus" ↦ Number (sx_size_wus t);
          "timestamp" ↦ Number (sx_timestamp t); "blockNumber" ↦ Number (sx_block_number t);
          "blockHash" ↦ serialize_hash_as_hex_reversed (sx_block_hash t); "feeSats" ↦ Number (sx_fee_sats t);
          "btcPrice" ↦ Float (sx_btc_price t)].

Definition SyncStats_json (s : SyncStats) : Json :=
  Object ["totalBlocks" ↦ Number (total_blocks s); "syncedBlocks" ↦ Number (synced_blocks s);
          "approxRemainingSeconds" ↦ Float (approx_remaining_seconds s)].

(** The hash maps are iterated in no particular order; here it is that of [map_to_list]. *)
Definition u32_map_json {A} (f : A → Json) (m : gmap Z A) : Json :=
  Object (map (λ x, (u32_text x.1, f x.2)) (map_to_list m)).

Definition Stats_json (s : Stats) : Json :=
  Object ["averageMedianFees" ↦ u32_map_json Float (average_median_fees s);
          "transactions" ↦ u32_map_json Number (stats_transactions s); "volume" ↦ u32_map_json Number (stats_volume s)].

Definition FrontPageData_json (p : FrontPageData) : Json :=
  Object ["stats" ↦ Stats_json (fp_stats p); "latestBlocks" ↦ Seq (map ShortBlock_json (latest_blocks p));
          "latestTxs" ↦ Seq (map ShortTx_json (latest_txs p)); "syncStats" ↦ option_json SyncStats_json (fp_sync_stats p)].

Definition FrontPageDataUpdate_json (u : FrontPageDataUpdate) : Json :=
  match u with
  | Snapshot data => Object ["snapshot" ↦ FrontPageData_json data]
  | Delta data => Object ["delta" ↦ FrontPageData_json data]
  end.
End json.

(** * Reading it back *)

Definition field (key : string) (j : Json) : option Json :=
  match j with
  | Object fields => snd <$> List.find (λ x, bool_decide (x.1 = bstr key)) fields
  | _ => None
  end.

Lemma field_here k v l : field k (Object (k ↦ v :: l)) = Some v.
Proof. cbn [field List.find]. by rewrite bool_decide_true. Qed.

Lemma bstr_inj a b : bstr a = bstr b → a = b.
Proof.
  intros Hb. unfold bstr in Hb. by rewrite <- (String.string_of_list_byte_of_string a), Hb, String.string_of_list_byte_of_string.
Qed.

Lemma field_skip k k' v l : String.eqb k' k = false → field k (Object (k' ↦ v :: l)) = field k (Object l).
Proof.
  intros Hk. cbn [field List.find]. rewrite bool_decide_false; [done|]. cbn [fst]. intros ->%bstr_inj. by rewrite String.eqb_refl in Hk.
Qed.

Lemma field_prefix k before rest : Forall (λ x, x.1 ≠ bstr k) before → field k (Object (before ++ rest)) = field k (Object rest).
Proof. induction 1 as [|x l Hx _ IH]; [done|]. cbn. by rewrite bool_decide_false. Qed.

Definition json_number (j : Json) : option Z := match j with Number n => Some n | _ => None end.

(** Looks the fields of an object up. *)
Ltac find_fields :=
  repeat (rewrite field_here || (rewrite field_skip by reflexivity)); cbn [mbind option_bind json_number].

Definition json_list {A} (f : Json → option A) (j : Json) : option (list A) := match j with Seq l => mapM f l | _ => None end.

Section reading.
Context `{AddressDecoders}.

Definition json_bytes (j : Json) : option bytes :=
  match j with
  | Text s => match hex_decode (String.string_of_list_byte s) with Ok b => Some b | _ => None end
  | _ => None
  end.

Definition json_hash (j : Json) : option hash := (λ b, rev b) <$> json_bytes j.

Definition txin_of_json (j : Json) : option TxIn :=
  h ← field "prevoutHash" j ≫= json_hash; i ← field "prevoutIndex" j ≫= json_number;
  s ← field "sequence" j ≫= json_number; script ← field "sigScript" j ≫= json_bytes;
  Some (mkTxIn h i s script).

Definition txout_of_json (j : Json) : option TxOut :=
  v ← field "value" j ≫= json_number; script ← field "script" j ≫= json_bytes; Some (mkTxOut v script).

(** The components of a witness, put together again; no witnesses at all are none. *)
Definition witness_of_json (j : Json) : option bytes := encode_varstrs <$> json_list json_bytes j.

Definition tx_of_json (j : Json) : option Tx :=
  version ← field "version" j ≫= json_number; locktime ← field "locktime" j ≫= json_number;
  txins ← field "txins" j ≫= json_list txin_of_json; txouts ← field "txouts" j ≫= json_list txout_of_json;
  witnesses ← field "witnessData" j ≫= json_list witness_of_json;
  h ← field "hash" j ≫= json_hash; wh ← field "witnessHash" j ≫= json_hash;
  Some (mkTx version locktime txins txouts (if bool_decide (witnesses = []) then None else Some witnesses) h wh).

Lemma json_bytes_hex b : json_bytes (serialize_as_hex b) = Some b.
Proof.
  unfold json_bytes, serialize_as_hex, bstr. by rewrite String.string_of_list_byte_of_string, hex_decode_encode.
Qed.

Lemma json_hash_hex h : json_hash (serialize_hash_as_hex_reversed h) = Some h.
Proof.
  change (serialize_hash_as_hex_reversed h) with (serialize_as_hex (rev h)). unfold json_hash. rewrite json_bytes_hex. cbn.
  by rewrite rev_involutive.
Qed.

Lemma json_list_map {A B} (f : B → Json) (g : Json → option A) (h : B → A) l :
  (∀ x, x ∈ l → g (f x) = Some (h x)) → json_list g (Seq (map f l)) = Some (map h l).
Proof.
  intros Hg. cbn. induction l as [|x l IH]; [done|]. cbn. rewrite Hg by apply list_elem_of_here. cbn.
  rewrite IH; [done|]. intros y Hy. apply Hg. by apply list_elem_of_further.
Qed.

Lemma txin_json_back t : txin_of_json (TxIn_json t) = Some t.
Proof.
  unfold txin_of_json, TxIn_json. find_fields. rewrite json_hash_hex, json_bytes_hex. by destruct t.
Qed.

Lemma txout_json_back t : txout_of_json (TxOut_json t) = Some t.
Proof.
  unfold txout_of_json, TxOut_json. find_fields. rewrite json_bytes_hex. by destruct t.
Qed.

Lemma chunked_components l :
  slice_ok (encode_varstrs l) → ChunkedHexData (encode_varstrs l) = Ok (Seq (map serialize_as_hex l)).
Proof.
  intros Hb. rewrite <- (app_nil_r (encode_varstrs l)) in Hb. destruct (iter_at_start l [] Hb) as (it & Hit & Hat).
  rewrite app_nil_r in Hit. unfold ChunkedHexData. rewrite Hit.
  rewrite (VarStrIter_collect_at l it [] (S (length (encode_varstrs l))) Hat); [done|].
  pose proof (len_concat_encode_varstr l). unfold encode_varstrs. rewrite length_app. unfold len in *. lia.
Qed.

Lemma witness_json_back l : witness_of_json (Seq (map serialize_as_hex l)) = Some (encode_varstrs l).
Proof.
  unfold witness_of_json. rewrite (json_list_map _ _ (λ x, x)) by (intros; apply json_bytes_hex). by rewrite map_id.
Qed.

Lemma serialize_witnesses_back ws :
  Forall is_witness ws → Forall slice_ok ws →
  ∃ j, serialize_witnesses (Some ws) = Ok j ∧ json_list witness_of_json j = Some ws.
Proof.
  intros Hw Hb. assert (∃ seq, try_all (map ChunkedHexData ws) = Ok seq ∧ mapM witness_of_json seq = Some ws) as (seq & Hseq & Hback).
  { induction Hw as [|w ws [l ->] _ IH]; [by exists []|]. apply Forall_cons in Hb as [Hl Hb]. destruct (IH Hb) as (seq & Hseq & Hback).
    exists (Seq (map serialize_as_hex l) :: seq). cbn [map try_all]. rewrite (chunked_components l Hl). cbn [mbind outcome_bind]. rewrite Hseq.
    split; [done|]. cbn [mapM]. rewrite witness_json_back. cbn [mbind option_bind]. by rewrite Hback. }
  exists (Seq seq). unfold serialize_witnesses. by rewrite Hseq.
Qed.

(** The fields of a transaction are found in an object that has others before and after them. *)
Lemma tx_in_object t before after w :
  serialize_witnesses (witness_data t) = Ok w → json_list witness_of_json w = Some (default [] (witness_data t)) →
  witness_data t ≠ Some [] →
  Forall (λ k, Forall (λ x, x.1 ≠ bstr k) before)
    ["version"; "locktime"; "txins"; "txouts"; "witnessData"; "hash"; "witnessHash"]%string →
  ∃ fields, Tx_json t = Ok (Object fields) ∧ tx_of_json (Object (before ++ fields ++ after)) = Some t.
Proof.
  intros Hw Hback Hne Hbefore. unfold Tx_json. rewrite Hw. cbn [mbind outcome_bind]. eexists. split; [reflexivity|].
  rewrite !Forall_cons in Hbefore. destruct Hbefore as (H1 & H2 & H3 & H4 & H5 & H6 & H7 & _). unfold tx_of_json.
  repeat (rewrite (field_prefix _ before) by done). cbn [app]. find_fields.
  rewrite (json_list_map TxIn_json _ (λ x, x)) by (intros; apply txin_json_back).
  rewrite (json_list_map TxOut_json _ (λ x, x)) by (intros; apply txout_json_back). rewrite !map_id.
  cbn [mbind option_bind]. rewrite Hback. cbn [mbind option_bind]. rewrite !json_hash_hex. cbn [mbind option_bind].
  destruct t as [v lt ins outs wd h wh]. cbn in *. f_equal. destruct wd as [ws|]; cbn; [|done]. by rewrite bool_decide_false by congruence.
Qed.

Definition spend_of_json (x : bytes * Json) : option (Z * hash) :=
  i ← parse_with (read_number 10 None true (2 ^ 32)) x.1; h ← json_hash x.2; Some (i, h).

Definition spends_of_json (j : Json) : option (list (Z * hash)) :=
  match j with Object fields => mapM spend_of_json fields | _ => None end.

Lemma spends_back spends : Forall (λ x, in_u32 x.1) spends → spends_of_json (serialize_spends spends) = Some spends.
Proof.
  intros Hs. unfold spends_of_json, serialize_spends. induction Hs as [|[i h] l Hi _ IH]; [done|]. cbn [map mapM].
  assert (spend_of_json (u32_text i, serialize_hash_as_hex_reversed h) = Some (i, h)) as Hone.
  { unfold spend_of_json. cbn [fst snd]. rewrite json_hash_hex. unfold parse_with, u32_text. rewrite <- (app_nil_r (number_text 10 10 i)).
    unfold in_u32 in Hi. cbn [fst] in Hi. rewrite read_number_text; [done|lia|lia| |lia|done|done].
    change (10 ^ Z.of_nat 10) with 10000000000. lia. }
  cbn [fst snd]. rewrite Hone. cbn [mbind option_bind]. by rewrite IH.
Qed.

Lemma witness_slices t ws : slice_ok (encode_tx t) → witness_data t = Some ws → Forall slice_ok ws.
Proof.
  intros Hb Hw. apply Forall_forall. intros w Hin. unfold slice_ok in *. unfold encode_tx in Hb. rewrite Hw in Hb. cbn [witness_bytes] in Hb.
  rewrite !len_app in Hb. assert (len w <= len (concat ws)) as Hle.
  { clear -Hin. induction Hin as [w ws|w w' ws _ IH]; cbn [concat]; rewrite len_app; [pose proof (len_nonneg (concat ws))|pose proof (len_nonneg w')]; lia. }
  pose proof (len_nonneg (marker (Some ws))). pose proof (len_nonneg (encode_array (txins t))). pose proof (len_nonneg (encode_array (txouts t))).
  rewrite !len_to_le in Hb. lia.
Qed.
End reading.

(** * Properties *)

(** C20. The page of a transaction shows all of it: from the fields of the response every field of the transaction can be read
    back, with its scripts, the strings of every witness, its hashes in the order of their bytes and the transactions that spend its
    outputs, whatever the fields that are flattened around it; so the reader can compute its id. *)
Theorem tx_page_shows_all `{AddressDecoders} u256_json r :
  let t := an_tx (td_tx r) in
  tx_fields_ok t → slice_ok (encode_tx t) → Forall (λ x, in_u32 x.1) (td_spends r) →
  ∃ j, TxDataResponse_json u256_json r = Ok j ∧ tx_of_json j = Some t ∧
    (field "blockHash" j ≫= json_hash) = Some (an_block_hash (td_tx r)) ∧
    (field "spends" j ≫= spends_of_json) = Some (td_spends r).
Proof.
  intros t Hf Hb Hs. destruct Hf as (_ & _ & Hne & _ & _ & Hw).
  assert (∃ w, serialize_witnesses (witness_data t) = Ok w ∧ json_list witness_of_json w = Some (default [] (witness_data t))) as (w & Hser & Hback).
  { destruct (witness_data t) as [ws|] eqn:Hwd; [|by exists (Seq [])]. destruct Hw as [_ Hw].
    exact (serialize_witnesses_back ws Hw (witness_slices t ws Hb Hwd)). }
  set (tail := ["spends" ↦ serialize_spends (td_spends r); "txin_addresses" ↦ Seq (map Address_json (td_txin_addresses r));
              "txout_addresses" ↦ Seq (map Address_json (td_txout_addresses r))]).
  set (a := td_tx r) in *.
  set (before := ["header" ↦ BlockHeaderWithNumber_json u256_json (td_header r); "fee" ↦ Number (an_fee a);
     "txoutsSum" ↦ Number (an_txouts_sum a); "sizeWus" ↦ Number (an_size_wus a); "sigops" ↦ Number (an_sigops a);
     "blockHash" ↦ serialize_hash_as_hex_reversed (an_block_hash a)]).
  set (after := ["txinValues" ↦ Seq (map Number (an_txin_values a))] ++ tail).
  destruct (tx_in_object t before after w Hser Hback) as (fields & Htx & Hread).
  - intros Hnil. rewrite Hnil in Hw. destruct Hw as [Hw _]. destruct (txins t); [done|by cbn in Hw].
  - repeat constructor; cbn [fst]; intros E%bstr_inj; discriminate E.
  - assert (TxDataResponse_json u256_json r = Ok (Object (before ++ fields ++ after))) as Hj.
    { unfold TxDataResponse_json, AnalyzedTx_json. fold a t. rewrite Htx. cbn [mbind outcome_bind fields_of]. unfold before, after.
      rewrite <- !app_assoc. reflexivity. }
    exists (Object (before ++ fields ++ after)). split; [exact Hj|]. split; [exact Hread|]. split.
    + unfold before. cbn [app]. find_fields. apply json_hash_hex.
    + unfold Tx_json in Htx. rewrite Hser in Htx. cbn [mbind outcome_bind] in Htx. injection Htx as <-. unfold before, after, tail. cbn [app].
      find_fields. by apply spends_back.
Qed.

(** * Example *)

Import Toy ToyApi.

Definition toy_shown : TxDataResponse :=
  mkTxDataResponse (mkBlockHeaderWithNumber toy_header 7 true 9 (Some (bstr "hi")))
    (mkAnalyzedTx 5 1333 400 1 (replicate 32 Byte.x01) toy_tx [1338]) [(1, replicate 32 Byte.x02)] [Coinbase] [OpReturn; Unknown].

Lemma tx_page_shows_all_witness :
  ∃ j, TxDataResponse_json Number toy_shown = Ok j ∧ tx_of_json j = Some toy_tx.
Proof.
  destruct (tx_page_shows_all Number toy_shown) as (j & Hj & Ht & _).
  - exact toy_tx_fields_ok.
  - vm_compute. discriminate.
  - apply Forall_singleton. vm_compute. split; [discriminate|reflexivity].
  - exists j. split; [exact Hj|exact Ht].
Defined.
