(* ===== verification/Serve.v ===== *)
(** [src/api/mod.rs], [src/api/frontpage.rs], [src/api/peer.rs] and [src/metrics/mod.rs]: the routes, the parameters of
    the requests and the responses, and the metrics. *)
From stdpp Require Import sorting.
From S2P Require Import Prelude.
From S2P Require Import Extern.
From S2P Require Import Wire.
From S2P Require Import Tx.
From S2P Require Import Header.
From S2P Require Import Loops.
From S2P Require Import Chain.
From S2P Require Import Address.
From S2P Require Import Analyze.
From S2P Require Import Float.
From S2P Require Import Store.
From S2P Require Import Queries.
From S2P Require Import Miners.
From S2P Require Import FrontPage.
From S2P Require Import OnlineList.
From S2P Require Import Peers.
From S2P Require Import Text.
From S2P Require Import Sqlite.
From S2P Require Import Api.
From S2P Require Import Json.

(** * Parameters

    A query is the list of its keys and values, decoded. The derived reader of a struct refuses a field that comes
    twice, one that is missing (but an [Option] is then [None]), and a value that cannot be read; [axum] answers all of these
    with [BAD_REQUEST]. *)
Abbreviation query := (list (bytes * bytes)).

Definition param (key : string) (q : query) : response (option bytes) :=
  match List.filter (λ x, bool_decide (x.1 = bstr key)) q with
  | [] => respond None
  | [x] => respond (Some x.2)
  | _ => refuse BAD_REQUEST
  end.

Definition string_param (key : string) (q : query) : response string :=
  v <-? param key q; v <-? some_or_code v BAD_REQUEST; respond (String.string_of_list_byte v).

Definition number_param (bound : Z) (key : string) (q : query) : response Z :=
  v <-? param key q; v <-? some_or_code v BAD_REQUEST; some_or_code (parse_unsigned bound v) BAD_REQUEST.

Definition option_param (key : string) (q : query) : response (option Z) :=
  v <-? param key q;
  match v with
  | Some v => n <-? some_or_code (parse_usize v) BAD_REQUEST; respond (Some n)
  | None => respond None
  end.

Record SearchParam := mkSearchParam { term : string }.
Record HashParam := mkHashParam { hp_hash : string }.
Record HashTopParam := mkHashTopParam { ht_hash : string; ht_limit : option Z }.
Record HashExtraParam := mkHashExtraParam { he_hash : string; he_skip : Z; he_limit : option Z }.
Record AddressTopParam := mkAddressTopParam { atp_address : string; atp_limit : option Z }.
Record AddressExtraParam := mkAddressExtraParam {
  aep_address : string; aep_from_timestamp : option Z; aep_to_timestamp : option Z; aep_limit : option Z }.
Record AddressContinueParam := mkAddressContinueParam {
  acp_address : string; acp_after_tx : string; acp_after_timestamp : Z; acp_limit : option Z }.
Record AfterHashParam := mkAfterHashParam { ah_hash : string; ah_limit : option Z }.
Record MinerTopParam := mkMinerTopParam { mt_id : string; mt_limit : option Z }.
Record MinerContinueParam := mkMinerContinueParam { mc_id : string; mc_after_hash : string; mc_limit : option Z }.
Record PeerParams := mkPeerParams { pp_address : string; pp_port : Z }.

Definition read_SearchParam (q : query) : response SearchParam := t <-? string_param "term" q; respond (mkSearchParam t).
Definition read_HashParam (q : query) : response HashParam := h <-? string_param "hash" q; respond (mkHashParam h).
Definition read_HashTopParam (q : query) : response HashTopParam :=
  h <-? string_param "hash" q; l <-? option_param "limit" q; respond (mkHashTopParam h l).
Definition read_HashExtraParam (q : query) : response HashExtraParam :=
  h <-? string_param "hash" q; s <-? number_param (2 ^ 64) "skip" q; l <-? option_param "limit" q;
  respond (mkHashExtraParam h s l).
Definition read_AddressTopParam (q : query) : response AddressTopParam :=
  a <-? string_param "address" q; l <-? option_param "limit" q; respond (mkAddressTopParam a l).
Definition read_AddressExtraParam (q : query) : response AddressExtraParam :=
  a <-? string_param "address" q; from <-? option_param "fromTimestamp" q; to <-? option_param "toTimestamp" q;
  l <-? option_param "limit" q; respond (mkAddressExtraParam a from to l).
Definition read_AddressContinueParam (q : query) : response AddressContinueParam :=
  a <-? string_param "address" q; after <-? string_param "afterTx" q; t <-? number_param (2 ^ 64) "afterTimestamp" q;
  l <-? option_param "limit" q; respond (mkAddressContinueParam a after t l).
Definition read_AfterHashParam (q : query) : response AfterHashParam :=
  h <-? string_param "hash" q; l <-? option_param "limit" q; respond (mkAfterHashParam h l).
Definition read_MinerTopParam (q : query) : response MinerTopParam :=
  i <-? string_param "id" q; l <-? option_param "limit" q; respond (mkMinerTopParam i l).
Definition read_MinerContinueParam (q : query) : response MinerContinueParam :=
  i <-? string_param "id" q; h <-? string_param "after_hash" q; l <-? option_param "limit" q; respond (mkMinerContinueParam i h l).
Definition read_PeerParams (q : query) : response PeerParams :=
  a <-? string_param "address" q; p <-? number_param (2 ^ 16) "port" q; respond (mkPeerParams a p).

Section serve.
Context `{AddressDecoders, RocksDb, Layout, Sha256, UnstableSort, RegexLib}.
Context (u256_json : Z → Json).

(** * The state of the server

    What the handlers look at: the statics of the other components, and the peers that are connected in the order of
    iteration. *)
Record Server := mkServer {
  sv_chain : Chain;
  sv_databases : Databases;
  sv_miners : Miners;
  sv_storage : Storage;
  sv_connected : list AddressPortNetwork;
  sv_front_page : FrontPageData;
}.

(** ** [api/peer.rs] *)

Definition get_all_connected_peers (connected : list AddressPortNetwork) : list bytes := map apn_text connected.

Definition current_peers (s : Server) : response (list bytes) := respond (get_all_connected_peers (sv_connected s)).

(** The lookup of a peer fails if there is no row; with the mutex poisoned it panics. *)
Definition get_peer (s : Server) (params : PeerParams) : response (bool * option PeerRow) :=
  apn <-? some_or_code (parse_peer_address (bstr (pp_address params)) (pp_port params)) BAD_REQUEST;
  let is_connected_now := bool_decide (apn ∈ sv_connected s) in
  if poisoned (sv_storage s) then Panic "called `Result::unwrap()` on an `Err` value: PoisonError"
  else
    data ← or_default (row ← Sqlite.get_peer (CONNECTION (sv_storage s)) apn; Ok (Some row)) None;
    respond (is_connected_now, data).

(** * The routes *)

Inductive Method := GET | HEAD | OPTIONS | OtherMethod.

(** A status other than [OK], a body, the change to a web socket, or what the CORS layer answers by itself *)
Inductive Reply :=
| Status (code : Z)
| Content (j : Json)
| Upgrade
| Preflight.

Definition code_number (code : StatusCode) : Z :=
  match code with BAD_REQUEST => 400 | NOT_FOUND => 404 | INTERNAL_SERVER_ERROR => 500 end.

Definition reply_with {A} (f : A → outcome Json) (m : response A) : comp Reply :=
  Finished (r ← m; match r with inl code => Ok (Status (code_number code)) | inr a => j ← f a; Ok (Content j) end).

Definition reply {A} (f : A → Json) (m : response A) : comp Reply := reply_with (λ a, Ok (f a)) m.

Definition is_path (path : bytes) (s : string) : bool := bool_decide (path = bstr s).

(** The paths of the GET routes, each with its handler *)
Definition handler (s : Server) (fuel : nat) (path : bytes) (q : query) : option (comp Reply) :=
  let c := sv_chain s in
  let d := sv_databases s in
  let w := sv_miners s in
  if is_path path "/api/frontpagedata" then Some (mret (Content (FrontPageData_json (sv_front_page s))))
  else if is_path path "/api/tx" then
    Some (reply_with (TxDataResponse_json u256_json) (p <-? read_HashParam q; txdata c d (hp_hash p)))
  else if is_path path "/api/block/top" then
    Some (reply (BlockDataResponse_json u256_json)
            (p <-? read_HashTopParam q; block_data_top c d w (ht_hash p) (ht_limit p)))
  else if is_path path "/api/block/extra" then
    Some (reply (λ l, Seq (map BlockTxEntry_json l))
            (p <-? read_HashExtraParam q; block_data_extra d (he_hash p) (he_skip p) (he_limit p)))
  else if is_path path "/api/address/top" then
    Some (reply AddressTopResponse_json
            (p <-? read_AddressTopParam q; address_data_top c d (atp_address p) (atp_limit p)))
  else if is_path path "/api/address/extra" then
    Some (reply (λ l, Seq (map AddressTransaction_json l))
            (p <-? read_AddressExtraParam q;
             address_data_extra c d (aep_address p) (aep_from_timestamp p) (aep_to_timestamp p) (aep_limit p)))
  else if is_path path "/api/address/continue" then
    Some (reply (λ l, Seq (map AddressTransaction_json l))
            (p <-? read_AddressContinueParam q;
             address_data_continue c d (acp_address p) (acp_after_tx p) (acp_after_timestamp p) (acp_limit p)))
  else if is_path path "/api/peers" then Some (reply (λ l, Seq (map Text l)) (current_peers s))
  else if is_path path "/api/getpeer" then
    Some (reply (λ '(is_connected_now, data), PeerResponse_json is_connected_now data) (p <-? read_PeerParams q; get_peer s p))
  else if is_path path "/api/search" then
    Some (reply SearchResponse_json (p <-? read_SearchParam q; search c d (term p)))
  else if is_path path "/api/miner/page/top" then Some (mret (Content (MinersPageData_json (page_data w))))
  else if is_path path "/api/miner/page/continue" then
    Some (match read_AfterHashParam q with
          | Ok (inr p) =>
              r ← get_miners_page_continue c w fuel (ah_hash p) (ah_limit p);
              reply (λ l, Seq (map RecentBlock_json l)) (Ok r)
          | other => reply (λ _, Null) other
          end)
  else if is_path path "/api/miner/top" then
    Some (reply (λ '(miner, recent_blocks), MinerDataTopResponse_json miner recent_blocks)
            (p <-? read_MinerTopParam q; get_miner_data_top c w (bstr (mt_id p)) (mt_limit p)))
  else if is_path path "/api/miner/continue" then
    Some (reply (λ l, Seq (map RecentBlock_json l))
            (p <-? read_MinerContinueParam q; get_miner_data_continue c w (bstr (mc_id p)) (mc_after_hash p) (mc_limit p)))
  else None.

(** The CORS layer takes every OPTIONS for a preflight. A route for GET also answers HEAD; [any] takes every method. *)
Definition serve (s : Server) (fuel : nat) (method : Method) (path : bytes) (q : query) : comp Reply :=
  match method with
  | OPTIONS => mret Preflight
  | _ =>
      if is_path path "/api/socket/frontpage" then mret Upgrade
      else
        match handler s fuel path q with
        | None => mret (Status 404)
        | Some r => match method with OtherMethod => mret (Status 405) | _ => r end
        end
  end.
End serve.

(** * The front page socket

    What [select!] gets: an update, or an error of the channel (a subscriber that lags behind); a text of the client, or
    anything else of the socket, its end too; with each, whether what is sent is taken. A branch whose pattern does not match is not polled again in
    the same round; if neither is left, [select!] panics. *)
Inductive socket_event :=
| Broadcast (d : option bytes) (sent : bool)
| FromClient (t : option bytes) (sent : bool).

Inductive socket_state := Open | Closed | Panicked | NotPolled.

(** [subscriber_off] and [socket_off] are the branches that are not polled in this round. *)
Fixpoint handle_frontpage_socket (events : list socket_event) (subscriber_off socket_off : bool) : list bytes * socket_state :=
  match events with
  | [] => ([], Open)
  | Broadcast d sent :: events =>
      if subscriber_off then ([], NotPolled)
      else match d with
           | Some d =>
               if sent : bool then let '(messages, e) := handle_frontpage_socket events false false in (d :: messages, e)
               else ([], Closed)
           | None => if socket_off : bool then ([], Panicked) else handle_frontpage_socket events true socket_off
           end
  | FromClient t sent :: events =>
      if socket_off then ([], NotPolled)
      else match t with
           | Some t =>
               if bool_decide (t = bstr "ping") then
                 if sent : bool then let '(messages, e) := handle_frontpage_socket events false false in (bstr "pong" :: messages, e)
                 else ([], Closed)
               else handle_frontpage_socket events false false
           | None => if subscriber_off : bool then ([], Panicked) else handle_frontpage_socket events subscriber_off true
           end
  end.

(** The client is gone, and its subscriber lags behind before the next update. *)
Example gone_and_lagging : handle_frontpage_socket [FromClient None false; Broadcast None false] false false = ([], Panicked).
Proof. reflexivity. Qed.

(** * Metrics *)

Definition METRICS_TOKEN (var : option bytes) : outcome bytes :=
  token ← expect var "METRICS_TOKEN is not set"; Ok (bstr "Bearer " ++ token).

(** What a pool shows: its name, what it is for, and its size or limit *)
Definition gauge_lines (name help : string) (n : Z) : bytes :=
  bstr "# HELP " ++ bstr name ++ bstr " " ++ bstr help ++ bstr " used for deserializing incoming packets" ++ [Byte.x0a] ++
  bstr "# TYPE " ++ bstr name ++ bstr " gauge" ++ [Byte.x0a] ++
  bstr name ++ bstr " " ++ length_text n ++ [Byte.x0a].

(** [gathered] is what the encoder writes of the registered metrics; the pools are given with their size and limit. A
    status, or the text *)
Definition metrics (token : bytes) (authorization : option bytes) (gathered : bytes) (large small : Z * Z) : Z + bytes :=
  match authorization with
  | Some t =>
      if bool_decide (t = token) then
        inr (gathered ++
             gauge_lines "bitlens_deserialize_pool_large_size" "current number of large bump allocators" large.1 ++
             gauge_lines "bitlens_deserialize_pool_large_limit" "current limit of large bump allocators" large.2 ++
             gauge_lines "bitlens_deserialize_pool_small_size" "current number of small bump allocators" small.1 ++
             gauge_lines "bitlens_deserialize_pool_small_limit" "current limit of small bump allocators" small.2)
      else inl 401
  | None => inl 401
  end.

(** * Lemmas *)

Lemma param_cases key q : param key q = refuse BAD_REQUEST ∨ ∃ v, param key q = respond v.
Proof. unfold param. destruct (List.filter _ q) as [|x [|]]; [right|right|left]; [by eexists|by eexists|done]. Qed.

Lemma string_param_cases key q : string_param key q = refuse BAD_REQUEST ∨ ∃ v, string_param key q = respond v.
Proof.
  unfold string_param. destruct (param_cases key q) as [->|[[v|] ->]]; [by left|right; by eexists|by left].
Qed.

Lemma number_param_cases bound key q : number_param bound key q = refuse BAD_REQUEST ∨ ∃ v, number_param bound key q = respond v.
Proof.
  unfold number_param. destruct (param_cases key q) as [->|[[v|] ->]]; [by left| |by left]. cbn.
  destruct (parse_unsigned bound v); [right; by eexists|by left].
Qed.

Lemma option_param_cases key q : option_param key q = refuse BAD_REQUEST ∨ ∃ v, option_param key q = respond v.
Proof.
  unfold option_param. destruct (param_cases key q) as [->|[[v|] ->]]; [by left| |right; by eexists]. cbn.
  destruct (parse_usize v); [right; by eexists|by left].
Qed.

Lemma checked_limit_over n : 1000 < n → checked_limit (Some n) = refuse BAD_REQUEST.
Proof. intros Hn. unfold checked_limit. cbn [default]. by rewrite (proj2 (Z.ltb_lt _ _)). Qed.

Definition socket_path : bytes := bstr "/api/socket/frontpage".

(** The paths of the GET routes; those with a hash, and those with a limit *)
Definition hash_paths : list bytes := map bstr ["/api/tx"; "/api/block/top"; "/api/block/extra"; "/api/miner/page/continue"]%string.
Definition limit_paths : list bytes :=
  map bstr ["/api/block/top"; "/api/block/extra"; "/api/address/top"; "/api/address/extra"; "/api/address/continue";
            "/api/miner/page/continue"; "/api/miner/top"; "/api/miner/continue"]%string.
Definition get_paths : list bytes :=
  map bstr ["/api/frontpagedata"; "/api/tx"; "/api/block/top"; "/api/block/extra"; "/api/address/top"; "/api/address/extra";
            "/api/address/continue"; "/api/peers"; "/api/getpeer"; "/api/search"; "/api/miner/page/top";
            "/api/miner/page/continue"; "/api/miner/top"; "/api/miner/continue"]%string.

(** The parameter [hash] is missing, comes twice, or is not a hash. *)
Definition bad_hash `{AddressDecoders} (q : query) : Prop :=
  match string_param "hash" q with Ok (inr h) => parse_hash h = None | _ => True end.

Section lemmas.
Context `{AddressDecoders, RocksDb, Layout, Sha256, UnstableSort, RegexLib}.
Context (u256_json : Z → Json).
Abbreviation handler := (handler u256_json).

Lemma is_path_true s : is_path (bstr s) s = true.
Proof. by apply bool_decide_true. Qed.

Lemma is_path_false s t : String.eqb s t = false → is_path (bstr s) t = false.
Proof. intros Hs. apply bool_decide_false. intros ->%bstr_inj. by rewrite String.eqb_refl in Hs. Qed.

Lemma unknown_path path s fuel q : path ∉ get_paths → handler s fuel path q = None.
Proof.
  intros Hp. assert (∀ t, bstr t ∈ get_paths → is_path path t = false) as Hno.
  { intros t Ht. apply bool_decide_false. by intros ->. }
  unfold handler. rewrite !Hno; [done|..]. all: unfold get_paths; cbn [map]; rewrite !elem_of_cons; tauto.
Qed.

(** Goes to the handler of a path. *)
Ltac go_to_route :=
  unfold handler; repeat (rewrite is_path_true || (rewrite is_path_false by reflexivity)); cbn iota.

Lemma known_path path s fuel q : path ∈ get_paths → is_Some (handler s fuel path q).
Proof.
  unfold get_paths. cbn [map]. intros Hp.
  repeat (apply elem_of_cons in Hp as [-> |Hp]; [go_to_route; by eexists|]). by apply elem_of_nil in Hp.
Qed.

(** A status of 400 whatever the rest of the handler does *)
Lemma refused_reply {A} (f : A → outcome Json) : reply_with f (refuse BAD_REQUEST) = Finished (Ok (Status 400)).
Proof. done. Qed.

(** Reads a parameter: either the request is refused, or the handler goes on with its value. *)
Ltac read_param :=
  first
    [ match goal with |- context [string_param ?k ?q] =>
        let v := fresh "v" in destruct (string_param_cases k q) as [->|[v ->]]; [done|cbn [rbind respond mbind outcome_bind]] end
    | match goal with |- context [number_param ?b ?k ?q] =>
        let v := fresh "v" in destruct (number_param_cases b k q) as [->|[v ->]]; [done|cbn [rbind respond mbind outcome_bind]] end
    | match goal with |- context [option_param ?k ?q] =>
        let v := fresh "v" in destruct (option_param_cases k q) as [->|[v ->]]; [done|cbn [rbind respond mbind outcome_bind]] end ].

Lemma bad_hash_refused path s fuel q : path ∈ hash_paths → bad_hash q → handler s fuel path q = Some (Finished (Ok (Status 400))).
Proof.
  unfold hash_paths, bad_hash. cbn [map]. intros Hp Hbad.
  assert (string_param "hash" q = refuse BAD_REQUEST ∨ ∃ h, string_param "hash" q = respond h ∧ parse_hash h = None) as [Hh|(h & Hh & Hn)].
  { destruct (string_param_cases "hash" q) as [Hh|[h Hh]]; [by left|right]. rewrite Hh in Hbad. by exists h. }
  - repeat (apply elem_of_cons in Hp as [-> |Hp]; [go_to_route|]); [..|by apply elem_of_nil in Hp];
      unfold read_HashParam, read_HashTopParam, read_HashExtraParam, read_AfterHashParam; rewrite Hh; done.
  - repeat (apply elem_of_cons in Hp as [-> |Hp]; [go_to_route|]); [..|by apply elem_of_nil in Hp];
      unfold read_HashParam, read_HashTopParam, read_HashExtraParam, read_AfterHashParam; rewrite Hh; cbn [rbind respond mbind outcome_bind].
    + cbn [hp_hash]. unfold txdata. by rewrite Hn.
    + read_param. cbn [ht_hash ht_limit]. unfold block_data_top. by rewrite Hn.
    + read_param. read_param. cbn [he_hash he_skip he_limit]. unfold block_data_extra. by rewrite Hn.
    + read_param. cbn [ah_hash ah_limit]. unfold get_miners_page_continue. by rewrite Hn.
Qed.

Lemma limit_refused path s fuel q n :
  path ∈ limit_paths → option_param "limit" q = respond (Some n) → 1000 < n →
  handler s fuel path q = Some (Finished (Ok (Status 400))) ∨
  path = bstr "/api/block/top" ∧ handler s fuel path q = Some (Finished (Ok (Status 404))).
Proof.
  unfold limit_paths. cbn [map]. intros Hp Hlimit Hn.
  repeat (apply elem_of_cons in Hp as [-> |Hp]; [go_to_route|]); [..|by apply elem_of_nil in Hp].
  - unfold read_HashTopParam. rewrite Hlimit. destruct (string_param_cases "hash" q) as [->|[h ->]]; [by left|].
    cbn [rbind respond mbind outcome_bind ht_hash ht_limit]. unfold block_data_top. destruct (parse_hash h) as [b|]; [|by left].
    cbn [some_or_code rbind respond mbind outcome_bind]. destruct (get_header_by_hash _ b); [left|by right].
    cbn [some_or_code rbind respond mbind outcome_bind]. by rewrite checked_limit_over.
  - left. unfold read_HashExtraParam. rewrite Hlimit. read_param. read_param. cbn [he_hash he_skip he_limit]. unfold block_data_extra.
    destruct (parse_hash _); [|done]. cbn [some_or_code rbind respond mbind outcome_bind]. by rewrite checked_limit_over.
  - left. unfold read_AddressTopParam. rewrite Hlimit. read_param. cbn [atp_address atp_limit]. unfold address_data_top.
    destruct (parse_address _) as [[]|]; [|done]. cbn [some_or_code rbind respond mbind outcome_bind]. by rewrite checked_limit_over.
  - left. unfold read_AddressExtraParam. rewrite Hlimit. read_param. read_param. read_param.
    cbn [aep_address aep_from_timestamp aep_to_timestamp aep_limit]. unfold address_data_extra.
    destruct (parse_address _) as [[]|]; [|done]. cbn [some_or_code rbind respond mbind outcome_bind]. by rewrite checked_limit_over.
  - left. unfold read_AddressContinueParam. rewrite Hlimit. read_param. read_param. read_param.
    cbn [acp_address acp_after_tx acp_after_timestamp acp_limit]. unfold address_data_continue.
    destruct (parse_address _) as [[]|]; [|done]. cbn [some_or_code rbind respond mbind outcome_bind].
    destruct (parse_hash _); [|done]. cbn [some_or_code rbind respond mbind outcome_bind]. by rewrite checked_limit_over.
  - left. unfold read_AfterHashParam. rewrite Hlimit. read_param. cbn [ah_hash ah_limit]. unfold get_miners_page_continue.
    destruct (parse_hash _); [|done]. cbn [some_or_code rbind respond mbind outcome_bind]. by rewrite checked_limit_over.
  - left. unfold read_MinerTopParam. rewrite Hlimit. read_param. cbn [mt_id mt_limit]. unfold get_miner_data_top. by rewrite checked_limit_over.
  - left. unfold read_MinerContinueParam. rewrite Hlimit. read_param. read_param. cbn [mc_id mc_after_hash mc_limit].
    unfold get_miner_data_continue. by rewrite checked_limit_over.
Qed.

(** A hash that is shown is read as that hash. *)
Lemma parse_shown_hash h : hash_ok h → parse_hash (hex_encode (rev h)) = Some h.
Proof.
  intros Hh. unfold parse_hash. rewrite hex_decode_encode. unfold len. rewrite length_rev, Hh. cbn. by rewrite rev_involutive.
Qed.

Lemma read_tx_entry_hash data s s' :
  read_tx_entry data s = Ok s' → Forall (λ e, hash_ok (be_hash e)) s.1 → Forall (λ e, hash_ok (be_hash e)) s'.1.
Proof.
  destruct s as [result at_]. unfold read_tx_entry. intros Hr Hf. obind Hr. obind Hr. obind Hr. obind Hr. obind Hr. injection Hr as <-.
  cbn [fst] in *. apply Forall_app. split; [done|]. apply Forall_singleton. cbn [be_hash]. unfold slice_idx, slice_get in Hv0.
  destruct ((0 <=? 32) && (32 <=? len v)) eqn:Hc; [|done]. injection Hv0 as <-. apply andb_prop in Hc as [_ Hc%Z.leb_le].
  unfold hash_ok, len in *. rewrite length_take, length_drop. lia.
Qed.

Lemma block_entries_hashes d h l : get_block_tx_entries d h = Ok l → Forall (λ e, hash_ok (be_hash e)) l.
Proof.
  unfold get_block_tx_entries, with_data. intros Hl%spawn_blocking_Ok. obind Hl. destruct v as [data|]; [|done].
  case_bool_decide; [done|]. obind Hl. destruct v as [count at_]. obind Hl. obind Hl.
  match type of Hl with context [let '(_, _) := ?p in _] => destruct p as [result n] end. injection Hl as <-.
  match goal with Hr : repeat_for _ _ _ = Ok _ |- _ => apply (repeat_for_inv (λ s, Forall (λ e, hash_ok (be_hash e)) s.1)) in Hr end;
    [|intros x y Hx Hy; by eapply read_tx_entry_hash|].
  - by match goal with Hr : Forall _ (_, _).1 |- _ => exact Hr end.
  - match goal with Hc : with_capacity _ _ = Ok _ |- _ => unfold with_capacity in Hc; by case_match; [injection Hc as <-; constructor|] end.
Qed.

Lemma reply_content {A} (f : A → Json) (m : response A) j :
  reply f m = Finished (Ok (Content j)) → ∃ a, m = Ok (inr a) ∧ j = f a.
Proof.
  unfold reply, reply_with. intros Hr. injection Hr as Hr. obind Hr. destruct v as [code|a]; [done|]. injection Hr as <-. by exists a.
Qed.

Lemma reply_content_with {A} (f : A → outcome Json) (m : response A) j :
  reply_with f m = Finished (Ok (Content j)) → ∃ a, m = Ok (inr a) ∧ f a = Ok j.
Proof.
  unfold reply_with. intros Hr. injection Hr as Hr. obind Hr. destruct v as [code|a]; [done|]. obind Hr. injection Hr as <-. by exists a.
Qed.

Lemma checked_limit_inr limit n : checked_limit limit = Ok (inr n) → n = default 50 limit ∧ n <= 1000.
Proof. unfold checked_limit, refuse, respond. destruct (Z.ltb_spec 1000 (default 50 limit)); [done|]. intros [= <-]. done. Qed.

Lemma some_or_code_inr {A} (o : option A) code a : some_or_code o code = Ok (inr a) → o = Some a.
Proof. destruct o; [by intros [= ->]|done]. Qed.

Lemma or_default_Ok {A} (m : outcome A) a b : or_default m a = Ok b → m = Ok b ∨ (∃ e, m = Err e) ∧ b = a.
Proof. destruct m; cbn; intros Hm; try done; [by left|right]. split; [by eexists|congruence]. Qed.

(** What [block_data_top] gives *)
Lemma block_data_top_inr c d w h limit r :
  block_data_top c d w h limit = Ok (inr r) →
  ∃ b, parse_hash h = Some b ∧ get_header_by_hash c b = Some (bd_header r) ∧ default 50 limit <= 1000 ∧
    ∃ entries, (get_block_tx_entries d b = Ok entries ∨ (∃ e, get_block_tx_entries d b = Err e) ∧ entries = []) ∧
      bd_total_txs_count r = len entries ∧ bd_txs r = take (Z.to_nat (default 50 limit)) entries.
Proof.
  unfold block_data_top. intros Hr. apply rbind_inr in Hr as (b & Hb%some_or_code_inr & Hr).
  apply rbind_inr in Hr as (header & Hh%some_or_code_inr & Hr). apply rbind_inr in Hr as (n & [-> Hn]%checked_limit_inr & Hr).
  obind Hr. apply or_default_Ok in Hv. obind Hr. destruct (default ([], [], f64_zero) v0) as [[id name] share]. injection Hr as <-.
  exists b. split_and!; try done. by exists v.
Qed.
End lemmas.

(** * Properties *)

(** C21. What the server refuses, before it looks at any data: a path that is not a route is not found, whatever the method but
    OPTIONS, which the CORS layer answers; a route does not take another method than GET (and HEAD); a route with a hash refuses a hash that is missing, comes twice, or is not the text of 32
    bytes; and a route with a limit refuses one above a thousand, where only the page of a block that is not known is not found
    instead. All other limits are let through, 0 among them. *)
Theorem serve_refuses `{AddressDecoders, RocksDb, Layout, Sha256, UnstableSort, RegexLib} u256_json s fuel path q :
  path ≠ socket_path →
  (path ∉ get_paths → ∀ method, method ≠ OPTIONS → serve u256_json s fuel method path q = Finished (Ok (Status 404))) ∧
  (path ∈ get_paths → serve u256_json s fuel OtherMethod path q = Finished (Ok (Status 405))) ∧
  (path ∈ hash_paths → bad_hash q → serve u256_json s fuel GET path q = Finished (Ok (Status 400))) ∧
  (path ∈ limit_paths → ∀ n, option_param "limit" q = respond (Some n) → 1000 < n →
     serve u256_json s fuel GET path q = Finished (Ok (Status 400)) ∨
     path = bstr "/api/block/top" ∧ serve u256_json s fuel GET path q = Finished (Ok (Status 404))) ∧
  (∀ n, n <= 1000 → checked_limit (Some n) = respond n).
Proof.
  intros Hsocket. assert (is_path path "/api/socket/frontpage" = false) as Hno by by apply bool_decide_false.
  unfold serve. rewrite Hno.
  split_and!.
  - intros Hp method Hm. destruct method; by rewrite ?unknown_path.
  - intros Hp. destruct (known_path u256_json path s fuel q Hp) as [r ->]. done.
  - intros Hp Hbad. by rewrite bad_hash_refused.
  - intros Hp n Hlimit Hn. destruct (limit_refused u256_json path s fuel q n Hp Hlimit Hn) as [->|[-> ->]]; [by left|by right].
  - intros n Hn. unfold checked_limit. cbn [default]. by rewrite (proj2 (Z.ltb_ge _ _)).
Qed.

(** C19. The page of a block, from the request to the fields of its response: it is the page of the block whose hash was asked for, with
    all its transactions counted and the first of them shown, in order and no more than the limit; and its links lead on:
    the text of the hash of the block, of its parent and of each transaction is read, in a next request, as just that hash. *)
Theorem block_page `{AddressDecoders, RocksDb, Layout, Sha256, UnstableSort, RegexLib, U256Lib} u256_json s fuel q j :
  chain_wf (sv_chain s) →
  serve u256_json s fuel GET (bstr "/api/block/top") q = Finished (Ok (Content j)) →
  ∃ text limit b header entries,
    string_param "hash" q = respond text ∧ option_param "limit" q = respond limit ∧ default 50 limit <= 1000 ∧
    parse_hash text = Some b ∧ known_headers (sv_chain s) !! b = Some header ∧
    (get_block_tx_entries (sv_databases s) b = Ok entries ∨ (∃ e, get_block_tx_entries (sv_databases s) b = Err e) ∧ entries = []) ∧
    field "number" j = Some (Number (bn_number header)) ∧ field "totalTxsCount" j = Some (Number (len entries)) ∧
    (∃ link, field "hash" j = Some (Text (bstr link)) ∧ parse_hash link = Some b) ∧
    (∃ link, field "parent" j = Some (Text (bstr link)) ∧ (hash_ok (bn_parent header) → parse_hash link = Some (bn_parent header))) ∧
    ∃ shown, field "txs" j = Some (Seq shown) ∧
      Forall2 (λ e x, ∃ link, field "hash" x = Some (Text (bstr link)) ∧ parse_hash link = Some (be_hash e))
        (take (Z.to_nat (default 50 limit)) entries) shown.
Proof.
  intros Hwf Hr. unfold serve, handler in Hr. repeat (rewrite is_path_true in Hr || (rewrite is_path_false in Hr by reflexivity)).
  cbn iota in Hr. apply reply_content in Hr as (r & Hr & ->). apply rbind_inr in Hr as ([text limit] & Hp & Hr).
  unfold read_HashTopParam in Hp. apply rbind_inr in Hp as (text' & Ht & Hp). apply rbind_inr in Hp as (limit' & Hl & Hp).
  injection Hp as -> ->. cbn [ht_hash ht_limit] in Hr.
  apply block_data_top_inr in Hr as (b & Hb & Hh & Hle & entries & He & Hcount & Htxs).
  assert (bn_hash (bd_header r) = b) as Hkey by by eapply wf_key.
  assert (hash_ok b) as Hok.
  { unfold parse_hash in Hb. destruct (hex_decode text) as [x| | |]; try done. destruct (Z.eqb_spec (len x) 32); [|done].
    injection Hb as <-. unfold hash_ok, len in *. rewrite length_rev. lia. }
  exists text, limit, b, (bd_header r), entries. split_and!; try done.
  - unfold BlockDataResponse_json, BlockHeaderWithNumber_json, BlockHeader_json. cbn [fields_of app]. find_fields. by rewrite Hcount.
  - exists (hex_encode (rev b)). split; [|by apply parse_shown_hash].
    unfold BlockDataResponse_json, BlockHeaderWithNumber_json, BlockHeader_json. cbn [fields_of app]. find_fields. by rewrite Hkey.
  - exists (hex_encode (rev (bn_parent (bd_header r)))). split; [|by apply parse_shown_hash].
    unfold BlockDataResponse_json, BlockHeaderWithNumber_json, BlockHeader_json. cbn [fields_of app]. find_fields. done.
  - exists (map BlockTxEntry_json (bd_txs r)). split.
    { unfold BlockDataResponse_json, BlockHeaderWithNumber_json, BlockHeader_json. cbn [fields_of app]. find_fields. done. }
    rewrite Htxs. assert (Forall (λ e, hash_ok (be_hash e)) entries) as Hall.
    { destruct He as [He|[_ ->]]; [by eapply block_entries_hashes|constructor]. }
    apply (Forall_take _ (Z.to_nat (default 50 limit))) in Hall. clear -Hall. induction Hall as [|e l He' _ IH]; [constructor|].
    cbn [map]. constructor; [|exact IH]. exists (hex_encode (rev (be_hash e))). split; [|by apply parse_shown_hash].
    unfold BlockTxEntry_json. find_fields. done.
Qed.

(** * Example *)

Import Toy ToyChain ToyDb ToyApi.

#[local] Instance toy_no_regex : RegexLib := { Regex := unit; is_match _ _ := false }.

Definition toy_server : Server :=
  mkServer page_chain page_db (mkMiners _ ∅ [] ∅ ∅ ∅ [] [] ([], [])) (start_batchers (mkSqlite ∅ ∅ ∅ ∅)) []
    (mkFrontPageData Stats_default [] [] None).

Definition block_query (h : hash) (limit : string) : query := [(bstr "hash", bstr (hex_encode (rev h))); (bstr "limit", bstr limit)].

Definition answered (r : comp Reply) : option Json := match r with Finished (Ok (Content j)) => Some j | _ => None end.

Lemma toy_block_answered :
  bool_decide (is_Some (answered (serve Number toy_server 10 GET (bstr "/api/block/top") (block_query (bn_hash page_top) "7")))) = true.
Proof. vm_compute. reflexivity. Qed.

Lemma block_page_witness : ∃ j link,
  serve Number toy_server 10 GET (bstr "/api/block/top") (block_query (bn_hash page_top) "7") = Finished (Ok (Content j)) ∧
  field "hash" j = Some (Text (bstr link)).
Proof.
  pose proof toy_block_answered as Ha.
  destruct (serve Number toy_server 10 GET (bstr "/api/block/top") (block_query (bn_hash page_top) "7")) as [[[code|j| |]| | |]|] eqn:Hj;
    try discriminate Ha.
  destruct (block_page Number toy_server 10 (block_query (bn_hash page_top) "7") j page_chain_wf Hj)
    as (_ & _ & _ & _ & _ & _ & _ & _ & _ & _ & _ & _ & _ & (link & Hl & _) & _).
  exists j, link. split; [reflexivity|exact Hl].
Defined.

Lemma serve_refuses_witness :
  serve Number toy_server 10 GET (bstr "/api/block/extra") (block_query EMPTY_HASH "1001") = Finished (Ok (Status 400)) ∧
  serve Number toy_server 10 GET (bstr "/api/nothing") [] = Finished (Ok (Status 404)).
Proof.
  split.
  - destruct (serve_refuses Number toy_server 10 (bstr "/api/block/extra") (block_query EMPTY_HASH "1001")) as (_ & _ & _ & Hl & _).
    + intros Hs. apply (f_equal length) in Hs. vm_compute in Hs. discriminate Hs.
    + destruct (Hl ltac:(unfold limit_paths; cbn [map]; rewrite !elem_of_cons; tauto) 1001) as [Hr|[Hp _]];
        [vm_compute; reflexivity|reflexivity|exact Hr|].
      apply (f_equal length) in Hp. vm_compute in Hp. discriminate Hp.
  - apply (serve_refuses Number toy_server 10 (bstr "/api/nothing") []).
    + intros Hs. apply (f_equal length) in Hs. vm_compute in Hs. discriminate Hs.
    + intros Hin. unfold get_paths in Hin. cbn [map] in Hin. rewrite !elem_of_cons, elem_of_nil in Hin.
      repeat destruct Hin as [Hin|Hin]; try done; apply (f_equal length) in Hin; vm_compute in Hin; discriminate Hin.
    + discriminate.
Defined.
